(* ===== verification/_CoqProject ===== *)
-Q . S2P
Prelude.v
GoSlice.v
GoStrings.v
GoFloat.v
Protocol.v
Property.v
EngineTypes.v
Graph.v
Registry.v
Chan.v
Node.v
Runtime.v
Multi.v
Workflow.v
Lifecycle.v
ConfigManager.v
JsonMerge.v
EngineSession.v
Schema.v
Media.v
ShardedMap.v
Backoff.v
Heap.v
IndexedHeap.v
GatewayPool.v
GatewayConn.v
Gateway.v
GatewayWorld.v
MachinePool.v
MachineConn.v
Utf8.v
PluginFlow.v
MdFilter.v
LlmBase.v
Captions.v
AsrBase.v
AudioStreamer.v
Marshal.v
RemoteCall.v
RemotePlugin.v
RemoteManager.v
TenVad.v
Realtime.v
Encoding.v
Sse.v
UrlQuery.v
OpenaiLlm.v
TtsVendors.v
AsrVendors.v
MllmTypes.v
Mllm.v
Resampler.v
Handlers.v
SessionWriter.v
Builtins.v
MultiPlugin.v
RemoteHandlers.v
BenchStats.v
BenchClient.v
GenPlugins.v
GoNet.v
Registration.v
GatewayHttp.v
Tickers.v
PluginTester.v
Logging.v
Startup.v
Metrics.v
BenchRun.v
PublishPath.v
RemoteConns.v
PauseResume.v
PluginEnds.v
WebParts.v
