(* ===== verification/Prelude.v ===== *)
(** * Voce: a verified model of the voice-pipeline runtime

    Voce runs voice agents as graphs of plugins.  A workflow document names
    nodes and edges; the engine checks it, instantiates a plugin per node,
    wires the routing tables and moves audio, video, signals and payloads
    between the nodes, on one goroutine per node or on a pool of scheduler
    workers.  Plugins transcribe speech, query language models, filter text,
    synthesise audio; some of them run in other processes and are called over
    RPC.  Sessions own running workflows; packets of a small wire protocol
    carry their output to clients, through a gateway that spreads sessions
    over the connections of worker machines.

    ** Files

    Foundations:
    - [Prelude]: Go results ([result], [range_check], [range_fold]),
      fixed-width integers, iteration orders of Go maps ([iter_order]),
      invariants of step relations, the hint database [voce], tactics.
    - [GoSlice]: slices with their backing array, pkg/buf/buffer.go
      ([Buffer]), pkg/pool/pool.go ([TypedPool]).
    - [GoStrings]: sort.Strings and strings.TrimSpace.  [Utf8]: range over a
      string and utf8.RuneCountInString.  [GoFloat]: float64 products and
      their conversion to int64.  [Encoding]: base64 and hexadecimal texts.
      [UrlQuery]: url.Values, its encoding and parsing.  [GoNet]: decimal
      numbers, HTTP headers, host:port pairs and IP addresses.  [Sse]: bufio.ReadBytes and the
      loop over the lines of a response.
    - [Heap]: container/heap of the standard library over the interface
      [HeapInterface].  [IndexedHeap]: the heaps of connections both pools
      keep, whose items know their position.
    - [ShardedMap]: pkg/syncx/sharded_map.go.  [Backoff]: pkg/retry/reconnect.go.

    Engine:
    - [Protocol]: internal/protocol/packet.go and types.go.
    - [Property]: internal/engine/property.go, the contracts of edges.
    - [EngineTypes]: engine.go, config.go, plugin.go, builder.go: the
      enumerations, workflow documents and plugin builders.
    - [Graph]: graph.go, validation and topological order.
    - [Registry]: resource.go, store.go: plugin resources and their lookup.
    - [Chan]: pkg/syncx/chan.go and Go channels; a send is the list of the
      outcomes the runtime may choose.
    - [Node]: node.go, routing tables and the sends of a plugin.
    - [Runtime]: node_loop.go, node_scheduler.go, scheduler.go: an executable
      machine whose labels are the atomic steps of the goroutines ([step],
      [run]), with the reference counts of media objects.
    - [Multi]: multi.go, tracks with drop strategies and interruption.
      [MultiPlugin]: the handlers of the plugin around its tracks.
    - [Workflow]: the construction half of workflow.go.
    - [Lifecycle]: start, rollback, output, pause, resume and stop of
      workflow.go, over the interface [NodeOps]/[NodeLaws] that loop nodes
      and scheduler nodes implement.
    - [PauseResume]: the controls of Pause and Resume on their way from the
      callers to the plugins.  [PublishPath]: a packet on its way from
      [Publish] through the shared pool and the output to the socket.
    - [PluginTester]: plugin_tester.go and mock_flow.go, the test harness.
    - [ConfigManager]: manager.go, the file and the Redis store of workflow
      documents behind one interface with one set of laws.
    - [JsonMerge]: the configuration merge of session.go, over an interface
      of JSON trees.
    - [EngineSession]: session.go, from a document to a registered session.

    Objects (internal/schema):
    - [Schema]: interface.go, signal.go, payload.go, helper.go:
      copy-on-write properties and the objects that carry them.
    - [Media]: audio.go and video.go: reference-counted, pooled media
      objects, over the interface [PooledMedia].
    - [Marshal]: marshal.go, structs packed into property sets and back.

    Gateway and workers:
    - [GatewayPool]: internal/gateway/pool.go, the pool that multiplexes
      sessions over the connections to one machine.
    - [GatewayConn]: connection.go, the states of one connection and its
      reconnecting goroutine.
    - [Gateway]: session.go, machine.go, handler.go, manager.go: sessions,
      machines and their operations on one heap.  [GatewayWorld]: the
      interleavings of these operations and their theorems.
    - [MachinePool], [MachineConn]: internal/machine: the pool, the connections
      and the reconnecting of the worker side.
    - [Registration]: registrar.go and [HandleRegister]: what a worker announces
      and what the gateway registers.
    - [GatewayHttp]: the HTTP side of handler.go and biz/route: proxied
      requests, headers and bodies, the routes of both processes, and a gateway
      in front of a worker.
    - [Tickers]: the periodic loops of both processes, as runs in which ticks
      are interleaved with all other steps.

    Plugins:
    - [PluginFlow]: what a plugin sends, and the helpers on payloads.
    - [MdFilter], [LlmBase], [Captions], [AsrBase], [AudioStreamer]: the
      Markdown filter, the language-model base and its history, captions with
      the interrupter and the sink, the recogniser base, the audio framing.
    - [TenVad]: the voice-activity plugin and the wrapper of its detector.
    - [OpenaiLlm]: openai_llm, the provider of [LlmBase] that reads an event
      stream.  [TtsVendors]: elevenlabs_tts, minimax_tts and openai_tts, three
      instances of the interface [Speaker]/[SpeakerLaws] over [AudioStreamer].
      [AsrVendors]: deepgram_asr and qwen_asr as operations on a socket
      ([ws_ops], [ws_laws]) interleaved with its callbacks, and google_asr.
    - [MllmTypes], [Mllm]: mllm, the messages of the realtime protocol and
      their decoder; the provider, its phases, and the plugin that listens.
    - [Resampler]: pkg/audioproc/resampler.go, the buffers around the C library.
    - [Builtins]: the metadata of all built-in plugins, their registration and
      the workflows of configs/workflows.
    - [RemoteCall], [RemotePlugin], [RemoteManager]: internal/remote: one
      call and its deadline, the call slots and emissions of a remote plugin,
      the clients and builders of remote servers.  [RemoteHandlers]: the
      messages of the handlers and the arrivals of the read loop.
      [RemoteConns]: the connections of the clients.
    - [PluginEnds]: what plugins close when they stop, and the benchmark plugins.

    Clients:
    - [Realtime]: biz/realtime and the deliveries of workflow.go: WebSocket
      and gRPC clients of a session over the machine of [Lifecycle].
    - [Handlers]: biz/handler, pkg/httpx, pkg/result, internal/errcode:
      requests about sessions and documents and the answers to them.
    - [SessionWriter]: the write loop of a worker's session over [MachinePool].
    - [WebParts]: the pages, the upgrade of pool connections, the request log.

    Processes:
    - [Startup]: cmd/voce, cmd/gateway, internal/telemetry, biz/dal and
      config/bootstrap.go: what is opened and closed on which path, and how a
      process ends.
    - [Metrics]: the instruments the packages declare when they are loaded.
    - [Logging]: pkg/logging, handlers and the lines they write.

    Tools:
    - [BenchStats], [BenchClient]: cmd/bench, the histograms and the report of
      a load test and its clients.  [BenchRun]: plans, rounds and their
      schedule, profiles and the files they are written to.
    - [GenPlugins]: internal/tools/genplugins, which finds the packages that
      register plugins and generates their imports.

    ** How code is modelled

    A Go function is a Rocq function on the same data: structs are records,
    enumerations inductive types, maps finite maps, errors values of
    [result].  Integers are [Z] with their width written out where the code
    can reach it.  A loop over a map takes the iteration order as an
    argument, and its theorems hold for every order.  Objects the code
    shares by pointer live in a heap and are named by addresses (sessions and
    workflows in [EngineSession], media objects in [Media], signals and
    payloads in [Schema], connections and bindings in [GatewayPool], sessions
    and machines in [Gateway]).  Concurrent code is a machine of atomic
    steps, one per channel operation, atomic access or critical section, and
    its theorems quantify over all interleavings.  Third-party code is a
    parameter: the JSON codec, UUIDs, the file system and Redis commands, the
    capacity policy of append, the functions of libswresample, HTTP clients
    and URL parsing, the dials of WebSocket and gRPC clients, the stream of a
    language-model provider, the Unicode tables, the voice detector's C
    functions, the answers of a remote server.

    ** What is proved

    - Engine: the counts of media objects equal their references in every
      interleaving ([Runtime.media_counts_exact]); built graphs are complete
      and topologically ordered, and documents are accepted by the documented
      contracts of their edges, video edges apart ([Graph]); routing tables are the edges ([Workflow]); a start is all or
      nothing, a stop closes the output once and loses no packet
      ([Lifecycle]); tracks conserve their items and discard interrupted
      ones ([Multi]), and every reference a plugin with tracks takes on a media
      object is released once ([MultiPlugin.multi_references_exact]); every
      pause and resume reaches every running plugin once, and in order when one
      goroutine makes them ([PauseResume.every_call_arrives],
      [PauseResume.one_caller_in_order]); the test harness shows a test exactly
      what the plugin sends ([PluginTester.tester_observes_plugin]).
    - Sessions and documents: no unregistered session leaves a running
      workflow, cleanup removes exactly the idle sessions
      ([EngineSession]); the file and Redis stores agree on named
      documents that JSON restores, and a restart loses nothing
      ([ConfigManager]).
    - Data: packets survive the wire and exactly the documented frames are
      accepted ([Protocol]); property sets implement finite maps and
      read-only objects never change ([Schema]); frozen media are stable,
      recycled media carry nothing over, and counters are exact ([Media]);
      unpacking a struct does to each field what its tag says and undoes
      packing ([Marshal]).
    - Gateway: routes, loads, handles and counters of a pool agree after any
      history, and no session waits while a connection has room
      ([GatewayPool]); the tables of sessions, machines and clients agree in
      every interleaving and a session has one client ([GatewayWorld]); a
      connection follows its state machine and reports its openings and closings
      in turn ([GatewayConn]); the worker's pool keeps exact loads in a heap
      and picks the least loaded connection that accepts ([MachinePool]); a worker is registered as it announced itself
      ([Registration.registration_roundtrip]); a forwarded request means the
      same in both processes ([GatewayHttp.session_requests_cross_gateway]);
      what is silent is forgotten within an interval of the ticker, and the
      latency of a tick, after its time-out, at the gateway and in the worker
      ([Tickers]).
    - Plugins: an answer reaches the next node in order and complete, a
      failed request is answered too, the history is bounded ([LlmBase]); the
      Markdown filter does not depend on how its input is cut and removes
      what it should ([MdFilter]); an utterance is framed without loss
      ([AudioStreamer]); a recogniser is restarted by its policy ([AsrBase]);
      start and end of speech are reported as defined by runs of verdicts,
      for every chunking of the audio ([TenVad]).
    - Services: the chunks of an event stream become the sentences of the
      answer ([OpenaiLlm.openai_answer_is_streamed]); as long as their handlers do
      not overlap, the speech plugins speak an utterance after an interruption
      with exactly its own audio ([TtsVendors.minimax_speaks_cleanly]); a
      recogniser holds the socket that is open, unless the close of another
      one was reported to it ([AsrVendors.recogniser_has_one_socket]); a
      realtime answer reaches the workflow whole however its events are mixed
      ([Mllm.realtime_answer_arrives]); exactly the known
      events are decoded ([MllmTypes.decode_exact]); a conversion stays
      within its buffers ([Resampler.resample_in_bounds]); all plugins
      register and the shipped workflows satisfy their contracts
      ([Builtins.builtins_start]).
    - Clients: one client at a time holds a session, every packet is
      accounted for, and objects reach the node they are addressed to
      ([Realtime]); requests about a session are answered by its state, and
      renewing and deleting do what they say ([Handlers.session_requests]);
      the packets of a session leave in order and are lost only to a failed
      write or while no connection is active
      ([SessionWriter.session_packets_leave]); what a plugin publishes arrives
      at the client unchanged, once and in order, although packets are pooled
      and used again ([PublishPath.published_data_arrives]).
    - Processes: a start-up that fails leaves nothing open, and a worker and the
      gateway close what they opened within five seconds of a signal, the Redis
      client and a server that cannot listen excepted
      ([Startup.startup_leaves_nothing_open]); the port a worker
      announces is the one it serves the pool on
      ([Startup.gateway_mode_serves_pool]); the packages load without a panic
      and no two counters share an instrument ([Metrics.packages_load]); lines
      of the log are written whole ([Logging.console_lines_whole]).
    - Remote plugins: a call is decided once, and within its lease its caller
      returns what was reported ([RemoteCall]), a slot serves one
      call at a time ([RemotePlugin]), a reported call returns and leaves the
      instance idle ([RemoteHandlers.remote_call_is_served]), and the store follows the servers that
      answer ([RemoteManager]), whose connections a shutdown closes
      ([RemoteConns.shutdown_closes_connections]).
    - Tools: the report of a load test counts its packets and its percentiles
      are order statistics of the measured round trips
      ([BenchClient.bench_report_exact]); a packet that comes back in time is
      measured exactly ([BenchClient.echo_is_measured]); every client sends in
      its own rhythm and is closed once ([BenchRun.round_is_scheduled]), and a
      plan is worked off in order ([BenchRun.plan_is_worked_off]); the generated imports
      are the registering packages ([GenPlugins.imports_exact]).
    - Support: the sharded map is a map ([ShardedMap]); retry delays stay
      within their bounds ([Backoff]).
    - Deviations of the code from its intention are theorems too, with a
      concrete run.  Engine: [EngineSession.fresh_session_is_evicted],
      [EngineSession.failed_start_keeps_context],
      [Runtime.input_after_drain_leaks], [Multi.interruption_can_be_missed],
      [ConfigManager.delete_unnamed_keeps_index],
      [PauseResume.overtaken_pause_wins],
      [PluginTester.quiet_plugin_fails_test].  Gateway:
      [GatewayConn.close_can_leak_socket], [GatewayWorld.late_listing_leaks],
      [MachinePool.third_connection_untried],
      [Registration.ipv6_machine_cannot_be_dialled],
      [Registration.stale_close_suspends_machine],
      [GatewayHttp.lost_session_cannot_be_deleted],
      [GatewayHttp.unparsable_host_panics], [Tickers.missing_interval_panics].
      Processes: [Startup.redis_client_is_never_closed],
      [Startup.open_stream_blocks_exit], [Startup.listen_failure_skips_cleanup],
      [Logging.derived_logger_is_silent], [Logging.lower_case_level_is_info].
      Plugins:
      [LlmBase.history_counts_messages], [Captions.stale_final_mark],
      [MdFilter.open_fence_swallows_next_answer],
      [Marshal.defined_string_gets_json_text],
      [Marshal.integer_becomes_character],
      [RemoteCall.reported_error_can_be_lost],
      [RemotePlugin.late_call_waits_for_lease],
      [RemoteManager.fast_restart_keeps_old_plugins],
      [RemoteConns.second_server_replaces_first],
      [PluginEnds.stop_frees_resampler_in_use].  Clients:
      [Realtime.refused_client_pauses_session],
      [Realtime.reconnected_client_stays_paused],
      [Realtime.departed_client_takes_packet],
      [Realtime.failed_stream_leaks_packet],
      [Realtime.stream_outlives_workflow], [Handlers.saved_id_is_not_told],
      [Handlers.client_errors_are_internal], [Handlers.health_check_renews],
      [SessionWriter.late_packet_leaks_route],
      [SessionWriter.failed_write_loses_packet].  Services:
      [OpenaiLlm.unterminated_event_is_lost], [TtsVendors.emotion_is_sticky],
      [TtsVendors.interrupted_audio_leads_next],
      [TtsVendors.invalid_base_url_panics],
      [AsrVendors.stale_close_leaks_socket],
      [AsrVendors.early_close_is_lost],
      [AsrVendors.failed_start_stays_connected],
      [AsrVendors.missing_session_panics],
      [AsrVendors.finished_segment_is_interim],
      [AsrVendors.Google.ended_stream_keeps_context],
      [Mllm.early_message_panics], [Mllm.failed_resampler_leaves_socket],
      [Mllm.interrupted_tail_leads_next_answer],
      [Mllm.finished_answer_is_cancelled], [Mllm.tool_answer_without_type],
      [Resampler.odd_piece_is_torn].  Tools:
      [BenchClient.short_interval_panics],
      [BenchClient.negative_timestamp_panics],
      [BenchClient.jitter_counts_as_loss], [BenchRun.profiles_are_overwritten],
      [BenchRun.zero_interval_panics], [BenchRun.tenth_snapshot_is_lost].

    ** Bounds and fuel

    Recursion that is not structural takes fuel, with a proof that the fuel
    given is enough: the topological sort one unit per node
    ([Graph.kahn_total]), the JSON merge the depth of the document
    ([JsonMerge.DeepMergeAST_fuel]), the heap's sift-down one unit per
    position ([Heap.down_heap]), trimming and UTF-8 decoding one unit per
    byte ([Utf8.decode_loop_fuel]), the Markdown filter two rounds per rune
    ([MdFilter.filter_loop_transduce]), the audio streamer one round per byte
    ([AudioStreamer.write_loop_spec]), the voice detector's framing one round
    per byte ([TenVad.frames_loop_run]), the selection of a machine connection
    one unit per connection ([MachinePool.Select_least_loaded]), the loop over
    the lines of a response one round per byte and one for its end
    ([Sse.read_loop_total]).  Hypotheses
    on sizes are those of the machine: fewer than 2^32 interruptions,
    reference counts below 2^31, pictures whose planes have a 63-bit size,
    payloads below 2^32 bytes, retry delays below 2^52 ns, load tests below
    2^46 packets (so that 64-bit sums of latencies do not wrap).

    ** Not modelled

    The reference counts of [Runtime] are unbounded: each is the number of
    references held, far below the 2^31 an int32 counts to ([Media], where they
    are set, has them at their width).  The values of a property set are
    immutable: the clones [Schema.snapshot] stands for make them so.  A nil and
    an empty byte slice in an [any] are one value in [Marshal.Interface]: Set
    stores a clone of either, which is not nil.  The handlers of the speech
    plugins ([TtsVendors]) run one after the other, while their wrapper runs the
    tracks of signals and payloads side by side ([MultiPlugin]).

    The code generated from the protocol definitions (api/) is left out: its
    messages are the records of the components that exchange them.  Command
    line flags, YAML files, the text a load test prints and most log entries
    are I/O no other part reads.  The HTTP, WebSocket, gRPC, Redis and
    OpenTelemetry libraries, the services behind the vendor plugins, the C
    libraries for resampling and voice detection, and the remote plugin
    servers are outside the repository: only their answers appear, as
    arguments. *)

From stdpp Require Export base list gmap strings sets fin_maps relations.
From Stdlib Require Export ZArith Lia.

#[export] Set Default Goal Selector "!".

(** ** Go results

    A Go function that returns [(T, error)] is a function into
    [result E T]; the error type of each component enumerates the
    [errors.New] / [fmt.Errorf] values its code can return. *)
Inductive result (E A : Type) : Type :=
| Ok (a : A)
| Err (e : E).
Arguments Ok {E A} a.
Arguments Err {E A} e.

Definition rbind {E A B} (m : result E A) (k : A → result E B) : result E B :=
  match m with
  | Ok a => k a
  | Err e => Err e
  end.

Definition rmap_err {E E' A} (f : E → E') (m : result E A) : result E' A :=
  match m with
  | Ok a => Ok a
  | Err e => Err (f e)
  end.

Definition is_ok {E A} (m : result E A) : bool :=
  match m with Ok _ => true | Err _ => false end.

Declare Scope voce_scope.
Delimit Scope voce_scope with voce.
Notation "'let?' x ':=' m 'in' k" := (rbind m (λ x, k))
  (at level 10, x pattern, m at level 100, k at level 200) : voce_scope.
Open Scope voce_scope.

Lemma rbind_ok {E A B} (m : result E A) (k : A → result E B) b :
  rbind m k = Ok b ↔ ∃ a, m = Ok a ∧ k a = Ok b.
Proof. destruct m; simpl; naive_solver. Qed.

Lemma rbind_err {E A B} (m : result E A) (k : A → result E B) e :
  rbind m k = Err e ↔ m = Err e ∨ ∃ a, m = Ok a ∧ k a = Err e.
Proof. destruct m; simpl; naive_solver. Qed.

Lemma rmap_err_ok {E E' A} (f : E → E') (m : result E A) a :
  rmap_err f m = Ok a ↔ m = Ok a.
Proof. destruct m; simpl; naive_solver. Qed.

(** A loop [for _, x := range xs { if err := f(x); err != nil { return err } }]. *)
Fixpoint range_check {E A} (f : A → result E unit) (xs : list A) : result E unit :=
  match xs with
  | [] => Ok tt
  | x :: xs => let? _ := f x in range_check f xs
  end.

Lemma range_check_ok {E A} (f : A → result E unit) xs :
  range_check f xs = Ok tt ↔ Forall (λ x, f x = Ok tt) xs.
Proof.
  induction xs as [|x xs IH]; simpl; [by split|].
  rewrite rbind_ok, Forall_cons, <-IH. split; [intros ([] & ? & ?)|intros []]; eauto.
Qed.

(** The same loop over a state: [s] is threaded, the first error returns. *)
Fixpoint range_fold {E S A} (f : S → A → result E S) (s : S) (xs : list A) : result E S :=
  match xs with
  | [] => Ok s
  | x :: xs => let? s' := f s x in range_fold f s' xs
  end.

Lemma range_fold_inv {E S A} (P : S → Prop) (f : S → A → result E S) xs s s' :
  (∀ s x s', x ∈ xs → P s → f s x = Ok s' → P s') →
  P s → range_fold f s xs = Ok s' → P s'.
Proof.
  revert s. induction xs as [|x xs IH]; intros s Hf Hs; simpl; [naive_solver|].
  intros (s1 & H1 & H2)%rbind_ok. eapply IH; [|eapply Hf|done]; eauto; set_solver.
Qed.

(** ** Fixed-width integers *)
Definition uint8 (z : Z) : Z := z `mod` 2 ^ 8.
Definition uint16 (z : Z) : Z := z `mod` 2 ^ 16.
Definition uint32 (z : Z) : Z := z `mod` 2 ^ 32.
Definition uint64 (z : Z) : Z := z `mod` 2 ^ 64.
Definition swrap (w z : Z) : Z := (z + 2 ^ (w - 1)) `mod` 2 ^ w - 2 ^ (w - 1).
Definition int16 (z : Z) : Z := swrap 16 z.
Definition int32 (z : Z) : Z := swrap 32 z.
Definition int64 (z : Z) : Z := swrap 64 z.

Lemma uint32_small z : (0 ≤ z < 2 ^ 32)%Z → uint32 z = z.
Proof. intros. unfold uint32. by apply Z.mod_small. Qed.

Lemma uint32_bound z : (0 ≤ uint32 z < 2 ^ 32)%Z.
Proof. unfold uint32. by apply Z.mod_pos_bound. Qed.

Lemma int32_small z : (- 2 ^ 31 ≤ z < 2 ^ 31)%Z → int32 z = z.
Proof.
  intros. unfold int32, swrap. change (32 - 1)%Z with 31%Z.
  rewrite Z.mod_small; lia.
Qed.

Lemma int64_small z : (- 2 ^ 63 ≤ z < 2 ^ 63)%Z → int64 z = z.
Proof.
  intros. unfold int64, swrap. change (64 - 1)%Z with 63%Z.
  rewrite Z.mod_small; lia.
Qed.

Lemma int32_bound z : (- 2 ^ 31 ≤ int32 z < 2 ^ 31)%Z.
Proof.
  unfold int32, swrap. change (32 - 1)%Z with 31%Z.
  pose proof (Z.mod_pos_bound (z + 2 ^ 31) (2 ^ 32)). lia.
Qed.

(** ** Iterating over a Go map

    The order of [for k, v := range m] is not specified.  An [iter_order] is
    one order the runtime may choose; every theorem about a loop over a map
    quantifies over it. *)
Record iter_order (K V : Type) `{Countable K} := {
  range_map :> gmap K V → list (K * V);
  range_map_perm : ∀ m, range_map m ≡ₚ map_to_list m;
}.
Arguments range_map {K V _ _} _ _.
Arguments range_map_perm {K V _ _} _ _.

Program Definition default_order {K V} `{Countable K} : iter_order K V :=
  {| range_map := map_to_list |}.
Next Obligation. done. Qed.

Section iter_order.
Context `{Countable K} {V : Type} (o : iter_order K V).
Implicit Types m : gmap K V.

Lemma elem_of_range_map m k v : (k, v) ∈ range_map o m ↔ m !! k = Some v.
Proof. by rewrite (range_map_perm o), elem_of_map_to_list. Qed.

Lemma NoDup_range_map m : NoDup (range_map o m).
Proof. rewrite (range_map_perm o). apply NoDup_map_to_list. Qed.

Lemma NoDup_fst_range_map m : NoDup (range_map o m).*1.
Proof. rewrite (range_map_perm o). apply NoDup_fst_map_to_list. Qed.

Lemma length_range_map m : length (range_map o m) = size m.
Proof. by rewrite (range_map_perm o), length_map_to_list. Qed.
End iter_order.

(** ** Reachability

    An invariant of a step relation holds of every state it reaches. *)
Lemma rtc_invariant {A} (R : relation A) (I : A → Prop) x y :
  (∀ x y, I x → R x y → I y) → rtc R x y → I x → I y.
Proof. intros Hstep. induction 1; eauto. Qed.

(** ** Hint database and tactics of the development *)
Create HintDb voce discriminated.
#[export] Hint Resolve uint32_bound int32_bound NoDup_range_map NoDup_fst_range_map : voce.

(** Case analysis on every [if]/[match] scrutinee in sight. *)
Ltac split_matches :=
  repeat (case_match || case_decide); simplify_eq/=.

(** Invert the monadic successes in the context. *)
Ltac inv_ok :=
  repeat match goal with
  | H : rbind _ _ = Ok _ |- _ => apply rbind_ok in H; destruct H as (? & ? & ?)
  | H : rmap_err _ _ = Ok _ |- _ => apply rmap_err_ok in H
  | H : Ok _ = Ok _ |- _ => injection H as H
  | H : Err _ = Ok _ |- _ => discriminate H
  | H : Ok _ = Err _ |- _ => discriminate H
  end.
