(* ===== verification/GoSlice.v ===== *)
(** * Go slices, byte buffers and object pools

    The slice value of Go (a backing array and a length), [copy], reslicing
    and [append]; on top of them [pkg/buf/buffer.go] (module [Buffer]) and
    [pkg/pool/pool.go] (module [TypedPool]). *)

From S2P Require Import Prelude.

(** ** Slices *)
Record slice (A : Type) := mkSlice { arr : list A; len : nat }.
Arguments mkSlice {A} _ _.
Arguments arr {A} _.
Arguments len {A} _.

Section slice.
Context {A : Type}.
Implicit Types (s : slice A) (l : list A).

Definition cap s : nat := length (arr s).
(** The bytes a reader of the slice sees. *)
Definition contents s : list A := take (len s) (arr s).
Definition slice_wf s : Prop := len s ≤ cap s.

Definition nil_slice : slice A := mkSlice [] 0.
(** [make([]A, n)], [z] being the zero value of [A]. *)
Definition make_slice (z : A) (n : nat) : slice A := mkSlice (replicate n z) n.
(** [s[:n]], for [n <= cap(s)]: bytes past the old length reappear. *)
Definition reslice s (n : nat) : slice A := mkSlice (arr s) n.
(** [copy(s, l)]. *)
Definition copy_to s l : slice A :=
  let k := min (len s) (length l) in
  mkSlice (take k l ++ drop k (arr s)) (len s).
(** [append(s, x)]; [grow old need] is the capacity the runtime picks when
    the array is full (never below [need]). *)
Definition append (z : A) (grow : nat → nat → nat) s (x : A) : slice A :=
  let n := S (len s) in
  if decide (n ≤ cap s) then mkSlice (<[len s := x]> (arr s)) n
  else mkSlice (contents s ++ x ::
                  replicate (max n (grow (cap s) n) - n) z) n.

(** The idiom of every setter of the code base: make room for [n], then copy. *)
Definition make_room (z : A) s (n : nat) : slice A :=
  if decide (cap s < n) then make_slice z n else reslice s n.

Lemma length_contents s : slice_wf s → length (contents s) = len s.
Proof. unfold slice_wf, contents, cap. intros. rewrite length_take. lia. Qed.

Lemma nil_slice_wf : slice_wf nil_slice.
Proof. unfold slice_wf. simpl. lia. Qed.

Lemma make_slice_wf z n : slice_wf (make_slice z n).
Proof. unfold slice_wf, cap. simpl. rewrite length_replicate. lia. Qed.

Lemma contents_make_slice z n : contents (make_slice z n) = replicate n z.
Proof. unfold contents. simpl. rewrite take_ge; [done|]. rewrite length_replicate. lia. Qed.

Lemma reslice_wf s n : n ≤ cap s → slice_wf (reslice s n).
Proof. done. Qed.

Lemma contents_reslice_0 s : contents (reslice s 0) = [].
Proof. done. Qed.

Lemma make_room_wf z s n : slice_wf (make_room z s n).
Proof.
  unfold make_room. case_decide; [apply make_slice_wf|].
  apply reslice_wf. lia.
Qed.

Lemma len_make_room z s n : len (make_room z s n) = n.
Proof. unfold make_room. by case_decide. Qed.

Lemma cap_make_room z s n : cap (make_room z s n) = max (cap s) n.
Proof.
  unfold make_room, cap. case_decide; simpl; [rewrite length_replicate|]; unfold cap in *; lia.
Qed.

Lemma copy_to_wf s l : slice_wf s → slice_wf (copy_to s l).
Proof.
  unfold slice_wf, cap, copy_to. simpl. intros.
  rewrite length_app, length_take, length_drop. lia.
Qed.

Lemma cap_copy_to s l : slice_wf s → cap (copy_to s l) = cap s.
Proof.
  unfold slice_wf, cap, copy_to. simpl. intros.
  rewrite length_app, length_take, length_drop. lia.
Qed.

Lemma contents_copy_to s l :
  slice_wf s → len s = length l → contents (copy_to s l) = l.
Proof.
  unfold contents, copy_to. simpl. intros _ ->.
  rewrite Nat.min_id, firstn_all, take_app_le, firstn_all by lia. done.
Qed.

(** Whatever the slice held before, the reader now sees exactly [l]. *)
Lemma contents_make_room_copy z s l :
  contents (copy_to (make_room z s (length l)) l) = l.
Proof. apply contents_copy_to; [apply make_room_wf|apply len_make_room]. Qed.

Lemma append_wf z grow s x : slice_wf s → slice_wf (append z grow s x).
Proof.
  unfold slice_wf, append, cap. intros. case_decide; simpl; [by rewrite length_insert|].
  rewrite length_app. simpl. rewrite length_replicate.
  unfold contents, cap in *. rewrite length_take. lia.
Qed.

Lemma contents_append z grow s x :
  slice_wf s → contents (append z grow s x) = contents s ++ [x].
Proof.
  unfold slice_wf, append. intros Hwf. case_decide as Hc; unfold contents at 1; simpl.
  - unfold cap in Hc. rewrite (take_S_r _ _ x).
    2:{ apply list_lookup_insert_eq. lia. }
    rewrite take_insert_ge by lia. done.
  - rewrite cons_middle, app_assoc, take_app_le.
    + rewrite take_ge; [done|]. rewrite length_app, length_contents by done. simpl. lia.
    + rewrite length_app, length_contents by done. simpl. lia.
Qed.
End slice.

#[export] Hint Resolve nil_slice_wf make_slice_wf make_room_wf copy_to_wf append_wf : voce.

(** ** pkg/buf/buffer.go *)
Module Buffer.
Record Buffer := mkBuffer { Buf : slice Z; RecycleCap : Z }.

(** [Set] ignores an empty payload: the previous bytes stay. *)
Definition Set_ (b : Buffer) (payload : list Z) : Buffer :=
  let required := length payload in
  if decide (required = 0) then b
  else mkBuffer (copy_to (make_room 0%Z (Buf b) required) payload) (RecycleCap b).

Definition Recycle (b : Buffer) : Buffer :=
  if decide (0 < RecycleCap b ∧ RecycleCap b < Z.of_nat (cap (Buf b)))%Z
  then mkBuffer nil_slice (RecycleCap b)
  else mkBuffer (reslice (Buf b) 0) (RecycleCap b).

Definition Clone {A} (z : A) (src : slice A) : slice A :=
  copy_to (make_slice z (len src)) (contents src).

Lemma Set_contents b payload :
  contents (Buf (Set_ b payload)) =
    if decide (payload = []) then contents (Buf b) else payload.
Proof.
  unfold Set_. destruct payload as [|x l]; [done|].
  rewrite !decide_False by done.
  apply (contents_make_room_copy 0%Z (Buf b) (x :: l)).
Qed.

Lemma Recycle_spec b :
  contents (Buf (Recycle b)) = [] ∧
  ((0 < RecycleCap b)%Z → (Z.of_nat (cap (Buf (Recycle b))) ≤ RecycleCap b)%Z).
Proof.
  unfold Recycle. case_decide; simpl; split; try done; unfold cap in *; simpl; lia.
Qed.

Lemma Clone_contents {A} (z : A) src :
  slice_wf src → contents (Clone z src) = contents src.
Proof.
  intros Hwf. apply contents_copy_to; [apply make_slice_wf|].
  simpl. by rewrite length_contents.
Qed.
End Buffer.

(** ** pkg/pool/pool.go

    A [sync.Pool] holds a bag of items; [Get] returns any of them or a new
    one ([pick] is the runtime's choice), and the garbage collector may drop
    items at any time. *)
Module TypedPool.
Section pool.
Context {T : Type} (factory : T) (recycle : T → T).

Definition Acquire (pick : option nat) (p : list T) : T * list T :=
  match pick with
  | Some i => match p !! i with
              | Some v => (v, delete i p)
              | None => (factory, p)
              end
  | None => (factory, p)
  end.

Definition Release (v : T) (p : list T) : list T := recycle v :: p.

Inductive pool_step : list T → list T → Prop :=
| step_release v p : pool_step p (Release v p)
| step_acquire pick p : pool_step p (Acquire pick p).2
| step_gc p p' : p' `sublist_of` p → pool_step p p'.

(** A property of new and of recycled items holds of every item the pool
    ever hands out. *)
Lemma Acquire_inv (P : T → Prop) p pick :
  P factory → (∀ v, P (recycle v)) →
  rtc pool_step [] p → P (Acquire pick p).1.
Proof.
  intros Hf Hr Hp.
  assert (Forall P p) as Hall.
  { refine (rtc_invariant _ (Forall P) _ _ _ Hp _); [|constructor].
    intros q q' HF Hst. revert HF.
    destruct Hst as [v p'|pick' p'|p' p'' Hs]; simpl; intros HF.
    - constructor; [apply Hr|done].
    - unfold Acquire. repeat case_match; simpl; try done. by apply Forall_delete.
    - rewrite Forall_forall in *. eauto using elem_of_sublist. }
  unfold Acquire. repeat case_match; simpl; try done.
  by eapply Forall_lookup_1.
Qed.
End pool.
End TypedPool.
