(* ===== verification/GoStrings.v ===== *)
(** * Strings of the Go standard library

    The parts of [sort] and [strings] the program uses, on byte strings:
    [sort.Strings] orders by bytes, [strings.TrimSpace] removes the Unicode
    white space of both ends, recognised by its UTF-8 encodings. *)

From Stdlib Require Export Ascii.
From stdpp Require Export sorting.
From S2P Require Import Prelude.

(** ** sort.Strings *)
Definition sort_Strings (l : list string) : list string := merge_sort String.le l.

Lemma sort_Strings_perm l : sort_Strings l ≡ₚ l.
Proof. apply merge_sort_Permutation. Qed.

Lemma sort_Strings_sorted l : Sorted String.le (sort_Strings l).
Proof. apply Sorted_merge_sort, _. Qed.

(** Sorting forgets the order of its argument. *)
#[export] Instance sort_Strings_proper : Proper ((≡ₚ) ==> (=)) sort_Strings.
Proof.
  intros l1 l2 Hp. apply (Sorted_unique String.le); [apply sort_Strings_sorted..|].
  by rewrite !sort_Strings_perm.
Qed.

(** ** strings.TrimSpace *)
Definition bytes (l : list nat) : list ascii := ascii_of_nat <$> l.

(** The UTF-8 encodings of the code points [unicode.IsSpace] accepts. *)
Definition white_space : list (list ascii) :=
  bytes <$> (((λ c, [c]) <$> [9; 10; 11; 12; 13; 32]) ++
    [[194; 133]; [194; 160]; [225; 154; 128]] ++
    ((λ c, [226; 128; c]) <$> [128; 129; 130; 131; 132; 133; 134; 135; 136; 137; 138; 168; 169; 175]) ++
    [[226; 129; 159]; [227; 128; 128]]).

Fixpoint strip_prefix (p s : list ascii) : option (list ascii) :=
  match p, s with
  | [], _ => Some s
  | a :: p, b :: s => if decide (a = b) then strip_prefix p s else None
  | _ :: _, [] => None
  end.

(** Remove one leading member of [ws]. *)
Fixpoint strip_one (ws : list (list ascii)) (s : list ascii) : option (list ascii) :=
  match ws with
  | [] => None
  | w :: ws => match strip_prefix w s with Some s' => Some s' | None => strip_one ws s end
  end.

(** Each round removes at least a byte, so the length is enough fuel. *)
Fixpoint trim_front (ws : list (list ascii)) (fuel : nat) (s : list ascii) : list ascii :=
  match fuel with
  | O => s
  | S fuel =>
    match strip_one ws s with
    | Some s' => trim_front ws fuel s'
    | None => s
    end
  end.

Definition trim_bytes (s : list ascii) : list ascii :=
  let front := trim_front white_space (length s) s in
  reverse (trim_front (reverse <$> white_space) (length front) (reverse front)).

Definition TrimSpace (s : string) : string :=
  String.string_of_list_ascii (trim_bytes (String.list_ascii_of_string s)).

(** [strings.TrimSpace(s) == ""]. *)
Definition is_blank (s : string) : bool := bool_decide (TrimSpace s = "").

Example TrimSpace_1 : TrimSpace " a b  " = "a b".
Proof. reflexivity. Qed.
Example TrimSpace_2 : is_blank "  " = true.
Proof. reflexivity. Qed.

Lemma strip_prefix_app p s s' : strip_prefix p s = Some s' → s = p ++ s'.
Proof.
  revert s. induction p as [|a p IH]; intros s; simpl; [naive_solver|].
  destruct s as [|b s]; [done|]. case_decide; [|done]. subst. intros ->%IH. done.
Qed.

Lemma trim_front_suffix ws fuel s : trim_front ws fuel s `suffix_of` s.
Proof.
  revert s. induction fuel as [|fuel IH]; intros s; [done|]. simpl.
  destruct (strip_one ws s) as [s'|] eqn:E; [|done].
  etrans; [apply IH|]. clear IH. induction ws as [|w ws IH]; [done|].
  simpl in E. destruct (strip_prefix w s) as [s''|] eqn:E'; [|auto].
  simplify_eq. apply strip_prefix_app in E' as ->. by apply suffix_app_r.
Qed.

Lemma is_blank_empty : is_blank "" = true.
Proof. done. Qed.
