(* ===== verification/GoFloat.v ===== *)
(** * Go float64 arithmetic

    Conversions between [int64] and [float64], products, quotients and
    [math.Ceil], over the executable IEEE 754 operations of [SpecFloat].  The
    conversion back truncates; outside the range of [int64], where the
    language leaves the result to the implementation, it is the minimum
    [int64], as on amd64.  Doubling is exact for integers below 2^52; the
    product of an integer and a fraction below one never exceeds the integer. *)

From S2P Require Import Prelude.
From Stdlib Require Import Floats.SpecFloat.

Definition float64 : Type := spec_float.
Definition float64_of_int64 (z : Z) : float64 := binary_normalize 53 1024 z 0 false.
Definition float64_mul (x y : float64) : float64 := SFmul 53 1024 x y.
Definition float64_gt (x y : float64) : bool := SFltb y x.

Definition min_int64 : Z := - 2 ^ 63.

Definition truncate (m : positive) (e : Z) : Z := Z.shiftl (Zpos m) e.

Definition int64_of_float64 (x : float64) : Z :=
  match x with
  | S754_zero _ => 0
  | S754_infinity _ | S754_nan => min_int64
  | S754_finite s m e =>
      let z := if s then (- truncate m e)%Z else truncate m e in
      if bool_decide (- 2 ^ 63 ≤ z < 2 ^ 63)%Z then z else min_int64
  end.

Definition float64_one : float64 := float64_of_int64 1.
Definition float64_two : float64 := float64_of_int64 2.

Lemma digits2_pos_bound p :
  (2 ^ (Zpos (digits2_pos p) - 1) ≤ Zpos p < 2 ^ Zpos (digits2_pos p))%Z.
Proof.
  induction p as [p IH|p IH|]; cbn [digits2_pos]; [| |done];
    rewrite Pos2Z.inj_succ, Z.pow_succ_r by done;
    replace (Z.succ (Zpos (digits2_pos p)) - 1)%Z with (Z.succ (Zpos (digits2_pos p) - 1)) by lia;
    rewrite Z.pow_succ_r by lia; lia.
Qed.

Lemma digits2_pos_small p n : (Zpos p < 2 ^ n)%Z → (Zpos (digits2_pos p) ≤ n)%Z.
Proof.
  intros Hp. pose proof (digits2_pos_bound p) as [Hlo _].
  destruct (decide (Zpos (digits2_pos p) ≤ n)%Z) as [|Hn]; [done|].
  pose proof (Z.pow_le_mono_r 2 n (Zpos (digits2_pos p) - 1)). lia.
Qed.

Lemma shift_digits p d :
  digits2_pos (Pos.iter xO p d) = (digits2_pos p + d)%positive ∧
  Zpos (Pos.iter xO p d) = (Zpos p * 2 ^ Zpos d)%Z.
Proof.
  induction d as [|d [IH1 IH2]] using Pos.peano_ind.
  - cbn. lia.
  - rewrite Pos.iter_succ. cbn [digits2_pos]. rewrite IH1, Pos2Z.inj_succ, Z.pow_succ_r by done. lia.
Qed.

(** A 53-digit mantissa is already rounded. *)
Lemma round_aux_normal s m e :
  digits2_pos m = 53%positive → (-1074 ≤ e ≤ 971)%Z →
  binary_round_aux 53 1024 s (Zpos m) e loc_Exact = S754_finite s m e.
Proof.
  intros Hm He. unfold binary_round_aux, shr_fexp. cbn [Zdigits2 shr_record_of_loc].
  assert (fexp 53 1024 (Zpos (digits2_pos m) + e) - e = 0)%Z as Hf
    by (unfold fexp, emin; rewrite Hm; lia).
  rewrite Hf. cbn [shr shr_m loc_of_shr_record round_nearest_even Zdigits2 shr_record_of_loc].
  rewrite Hf. cbn [shr shr_m].
  by rewrite (proj2 (Z.leb_le _ _)) by lia.
Qed.

Lemma float64_of_int64_normal p :
  (Zpos p < 2 ^ 53)%Z →
  ∃ m e, float64_of_int64 (Zpos p) = S754_finite false m e ∧
    digits2_pos m = 53%positive ∧ (-52 ≤ e ≤ 0)%Z ∧ Zpos m = (Zpos p * 2 ^ (- e))%Z.
Proof.
  intros Hp%digits2_pos_small. unfold float64_of_int64. cbn. unfold binary_round, shl_align.
  replace (fexp 53 1024 (Zpos (digits2_pos p) + 0) - 0)%Z with (Zpos (digits2_pos p) - 53)%Z
    by (unfold fexp, emin; lia).
  destruct (Zpos (digits2_pos p) - 53)%Z as [|d|d] eqn:Hd; [|lia|].
  - exists p, 0%Z. rewrite round_aux_normal by lia. split_and!; [done|lia..].
  - destruct (shift_digits p d) as [Hs Hv].
    exists (Pos.iter xO p d), (Zneg d). unfold fexp, emin.
    replace (Z.max (Zpos (digits2_pos p) + 0 - 53) (3 - 1024 - 53)) with (Zneg d) by lia.
    rewrite round_aux_normal by lia. split_and!; [done|lia..|]. by rewrite Hv.
Qed.

Lemma float64_double m e :
  digits2_pos m = 53%positive → (-52 ≤ e ≤ 0)%Z →
  float64_mul (S754_finite false m e) float64_two = S754_finite false m (e + 1).
Proof.
  intros Hm He. change float64_two with (S754_finite false (2 ^ 52) (-51)).
  unfold float64_mul. cbn [SFmul xorb]. rewrite Pos.mul_comm.
  let t := eval lazy in (2 ^ 52 * m)%positive in change (2 ^ 52 * m)%positive with t.
  unfold binary_round_aux, shr_fexp. cbn [Zdigits2 shr_record_of_loc digits2_pos].
  rewrite Hm.
  match goal with |- context [(fexp 53 1024 ?d - ?x)%Z] =>
    replace (fexp 53 1024 d - x)%Z with 52%Z by (unfold fexp, emin; lia) end.
  cbn -[Z.add Z.leb]. rewrite Hm.
  match goal with |- context [(fexp 53 1024 ?d - ?x)%Z] =>
    replace (fexp 53 1024 d - x)%Z with 0%Z by (unfold fexp, emin; lia) end.
  cbn -[Z.add Z.leb]. rewrite (proj2 (Z.leb_le _ _)) by lia. f_equal. lia.
Qed.

Lemma double_exact z :
  (0 ≤ z < 2 ^ 52)%Z → int64_of_float64 (float64_mul (float64_of_int64 z) float64_two) = (2 * z)%Z.
Proof.
  intros Hz. destruct z as [|p|p]; [done| |lia].
  destruct (float64_of_int64_normal p ltac:(lia)) as (m & e & -> & Hm & He & Hv).
  rewrite float64_double by done. cbn [int64_of_float64]. unfold truncate.
  assert (Z.shiftl (Zpos m) (e + 1) = 2 * Zpos p)%Z as ->.
  { destruct (decide (e = 0)%Z) as [->|].
    - rewrite Z.shiftl_mul_pow2, Hv by lia. change (2 ^ (- 0))%Z with 1%Z. lia.
    - replace (e + 1)%Z with (- (- e - 1))%Z by lia.
      rewrite Z.shiftl_opp_r, Z.shiftr_div_pow2, Hv by lia.
      replace (2 ^ (- e))%Z with (2 * 2 ^ (- e - 1))%Z
        by (rewrite <-Z.pow_succ_r by lia; f_equal; lia).
      rewrite Z.mul_assoc, Z.div_mul by (apply Z.pow_nonzero; lia). lia. }
  by rewrite bool_decide_true by lia.
Qed.

(** ** Quotients and [math.Ceil] *)
Definition float64_div (x y : float64) : float64 := SFdiv 53 1024 x y.
Definition float64_ceil (x : float64) : float64 :=
  match x with
  | S754_finite s m e =>
      if (e <? 0)%Z
      then let z := (- Z.shiftl (if s then Zpos m else Zneg m) e)%Z in binary_normalize 53 1024 z 0 s
      else x
  | _ => x
  end.

Lemma int64_exact z : (0 ≤ z < 2 ^ 53)%Z → int64_of_float64 (float64_of_int64 z) = z.
Proof.
  intros Hz. destruct z as [|p|p]; [done| |lia].
  destruct (float64_of_int64_normal p ltac:(lia)) as (m & e & -> & _ & He & Hv).
  cbn [int64_of_float64]. unfold truncate.
  assert (Z.shiftl (Zpos m) e = Zpos p) as ->.
  { replace e with (- (- e))%Z by lia. rewrite Z.shiftl_opp_r, Z.shiftr_div_pow2, Hv by lia.
    by rewrite Z.div_mul by (apply Z.pow_nonzero; lia). }
  by rewrite bool_decide_true by lia.
Qed.

(** *** Rounding *)
Lemma shr_1_m mrs : (0 ≤ shr_m mrs)%Z → shr_m (shr_1 mrs) = (shr_m mrs / 2)%Z.
Proof.
  destruct mrs as [m r s]. cbn. intros Hm. rewrite <-Z.div2_div. by destruct m as [|[p|p|]|p].
Qed.

Lemma iter_shr_1_m k mrs :
  (0 ≤ shr_m mrs)%Z → shr_m (iter_pos shr_1 k mrs) = (shr_m mrs / 2 ^ Zpos k)%Z.
Proof.
  revert mrs. induction k as [k IH|k IH|]; intros mrs Hm; cbn [iter_pos].
  - assert (0 ≤ shr_m mrs / 2)%Z by (apply Z.div_pos; lia).
    assert (0 ≤ shr_m mrs / 2 / 2 ^ Zpos k)%Z by (apply Z.div_pos; lia).
    rewrite !IH; rewrite ?shr_1_m, ?IH; rewrite ?shr_1_m; try lia.
    rewrite !Z.div_div by lia. f_equal.
    replace (Zpos k~1) with (Zpos k + Zpos k + 1)%Z by lia. rewrite !Z.pow_add_r by lia. lia.
  - assert (0 ≤ shr_m mrs / 2 ^ Zpos k)%Z by (apply Z.div_pos; lia).
    rewrite !IH; rewrite ?IH; try lia. rewrite Z.div_div by lia. f_equal.
    replace (Zpos k~0) with (Zpos k + Zpos k)%Z by lia. rewrite !Z.pow_add_r by lia. lia.
  - by apply shr_1_m.
Qed.

Lemma round_nearest_even_step m l :
  round_nearest_even m l = m ∨ round_nearest_even m l = (m + 1)%Z.
Proof. destruct l as [|[| |]]; cbn; auto. destruct (Z.even m); auto. Qed.

Lemma digits2_pos_exact p n : (2 ^ (n - 1) ≤ Zpos p < 2 ^ n)%Z → Zpos (digits2_pos p) = n.
Proof.
  intros [Hlo Hhi]. pose proof (digits2_pos_small p n Hhi) as Hle.
  pose proof (digits2_pos_bound p) as [_ Hb].
  destruct (decide (Zpos (digits2_pos p) ≤ n - 1)%Z) as [Hd|]; [|lia].
  pose proof (Z.pow_le_mono_r 2 _ _ ltac:(lia) Hd). lia.
Qed.

(** One rounding step of a mantissa [x] of [d] digits, [53 ≤ d]. *)
Lemma shr_fexp_m x e l d :
  Zdigits2 (Zpos x) = d → (53 ≤ d)%Z → (-1074 ≤ d + e - 53)%Z →
  shr_m (shr_fexp 53 1024 (Zpos x) e l).1 = (Zpos x / 2 ^ (d - 53))%Z ∧
  (shr_fexp 53 1024 (Zpos x) e l).2 = (e + (d - 53))%Z.
Proof.
  intros Hd Hge He. unfold shr_fexp. rewrite Hd.
  replace (fexp 53 1024 (d + e) - e)%Z with (d - 53)%Z by (unfold fexp, emin; lia).
  assert (shr_m (shr_record_of_loc (Zpos x) l) = Zpos x) as Hm by (by destruct l as [|[]]).
  destruct (d - 53)%Z as [|k|k] eqn:Hk; [|cbn [shr fst snd]|lia].
  - cbn [shr fst snd]. rewrite Hm, Z.div_1_r. lia.
  - by rewrite iter_shr_1_m, Hm by (rewrite Hm; lia).
Qed.

(** The product of a fraction in [[1/2, 1)] and a number is at most the number. *)
Lemma mul_fraction m1 m2 e2 :
  digits2_pos m1 = 53%positive → digits2_pos m2 = 53%positive → (-52 ≤ e2 ≤ 0)%Z →
  ∃ m e, float64_mul (S754_finite false m1 (-53)) (S754_finite false m2 e2) = S754_finite false m e ∧
    (e ≤ e2)%Z ∧ (-1074 ≤ e)%Z ∧ (Zpos m ≤ Zpos m2 * 2 ^ (e2 - e))%Z.
Proof.
  intros H1 H2 He. pose proof (digits2_pos_bound m1) as B1. pose proof (digits2_pos_bound m2) as B2.
  rewrite H1 in B1. rewrite H2 in B2. cbn -[Z.pow] in B1, B2.
  change (2 ^ (53 - 1))%Z with 4503599627370496%Z in *. change (2 ^ 53)%Z with 9007199254740992%Z in *.
  unfold float64_mul. cbn [SFmul xorb]. remember (m1 * m2)%positive as x eqn:Hx.
  assert (Zpos x = Zpos m1 * Zpos m2)%Z as Hxv by lia.
  assert (∃ d, Zdigits2 (Zpos x) = d ∧ (d = 105 ∨ d = 106)%Z ∧ (2 ^ (d - 1) ≤ Zpos x < 2 ^ d)%Z) as (d & Hd & Hd2 & Hdb).
  { exists (Zpos (digits2_pos x)). split; [done|]. pose proof (digits2_pos_bound x) as Bx. split; [|done].
    destruct (decide (Zpos x < 2 ^ 105)%Z); [left|right]; apply digits2_pos_exact; split; try nia. }
  assert (Zpos x / 2 ^ (106 - 53) < Zpos m2)%Z as Hfl
    by (apply Z.div_lt_upper_bound; [done|]; change (2 ^ (106 - 53))%Z with 9007199254740992%Z; nia).
  unfold binary_round_aux.
  destruct (shr_fexp_m x (-53 + e2) loc_Exact d Hd) as [Hm He']; [lia..|].
  destruct (shr_fexp 53 1024 (Zpos x) (-53 + e2) loc_Exact) as [mrs e']. cbn [fst snd] in Hm, He'.
  set (r := round_nearest_even (shr_m mrs) (loc_of_shr_record mrs)).
  assert (2 ^ 52 ≤ shr_m mrs < 2 ^ 53)%Z as Hmb.
  { rewrite Hm. destruct Hd2 as [-> | ->]; split;
      [apply Z.div_le_lower_bound|apply Z.div_lt_upper_bound|apply Z.div_le_lower_bound|apply Z.div_lt_upper_bound];
      try done; cbn in Hdb |- *; lia. }
  assert (2 ^ 52 ≤ r ≤ 2 ^ 53)%Z as Hrb
    by (destruct (round_nearest_even_step (shr_m mrs) (loc_of_shr_record mrs)) as [E|E]; unfold r; rewrite E; lia).
  assert (r ≤ shr_m mrs + 1)%Z as Hr1
    by (destruct (round_nearest_even_step (shr_m mrs) (loc_of_shr_record mrs)) as [E|E]; unfold r; rewrite E; lia).
  destruct r as [|rp|rp] eqn:Er; [lia| |lia].
  assert (∃ d', Zdigits2 (Zpos rp) = d' ∧ (d' = 53 ∧ Zpos rp < 2 ^ 53 ∨ d' = 54 ∧ Zpos rp = 2 ^ 53)%Z) as (d' & Hd' & Hc).
  { exists (Zpos (digits2_pos rp)). split; [done|].
    destruct (decide (Zpos rp < 2 ^ 53)%Z); [left|right]; (split; [apply digits2_pos_exact|]); lia. }
  destruct (shr_fexp_m rp e' loc_Exact d' Hd') as [Hm2 He2]; [lia..|].
  destruct (shr_fexp 53 1024 (Zpos rp) e' loc_Exact) as [mrs2 e2']. cbn [fst snd] in Hm2, He2.
  rewrite Hm2. destruct Hc as [[-> Hrp]|[-> Hrp]].
  - change (53 - 53)%Z with 0%Z in *. rewrite Z.div_1_r.
    rewrite (proj2 (Z.leb_le _ _)) by lia. exists rp, e2'. split; [done|]. split_and!; [lia..|].
    destruct Hd2 as [-> | ->].
    + replace (e2 - e2')%Z with 1%Z by lia. lia.
    + replace (e2 - e2')%Z with 0%Z by lia. rewrite Hm in Hr1. lia.
  - rewrite Hrp. change (2 ^ 53 / 2 ^ (54 - 53))%Z with 4503599627370496%Z.
    rewrite (proj2 (Z.leb_le _ _)) by lia. eexists _, e2'. split; [done|].
    destruct Hd2 as [-> | ->].
    + split_and!; [lia..|]. replace (e2 - e2')%Z with 0%Z by lia. lia.
    + exfalso. rewrite Hm in Hr1. lia.
Qed.

(** [int64(math.Ceil(x * float64(n)))] for a fraction [x]. *)
Lemma ceil_fraction m1 n :
  digits2_pos m1 = 53%positive → (0 < n < 2 ^ 53)%Z →
  (0 < int64_of_float64 (float64_ceil (float64_mul (S754_finite false m1 (-53)) (float64_of_int64 n))) ≤ n)%Z.
Proof.
  intros H1 Hn. destruct n as [|p|p]; [lia| |lia].
  destruct (float64_of_int64_normal p ltac:(lia)) as (m2 & e2 & -> & H2 & He2 & Hv).
  destruct (mul_fraction m1 m2 e2 H1 H2 He2) as (m & e & -> & Hle & _ & Hm).
  assert (Zpos m ≤ Zpos p * 2 ^ (- e))%Z as Hmp.
  { etrans; [exact Hm|]. rewrite Hv, <-Z.mul_assoc, <-Z.pow_add_r by lia.
    replace (- e2 + (e2 - e))%Z with (- e)%Z by lia. done. }
  cbn [float64_ceil]. destruct (Z.ltb_spec e 0) as [Hneg|Hneg].
  - cbn iota. set (z := (- Z.shiftl (Zneg m) e)%Z).
    assert (0 < z ≤ Zpos p)%Z as Hz.
    { unfold z. replace e with (- (- e))%Z by lia. rewrite Z.shiftl_opp_r, Z.shiftr_div_pow2 by lia.
      assert (0 < 2 ^ (- e))%Z by (apply Z.pow_pos_nonneg; lia).
      assert (Zneg m / 2 ^ (- e) < 0)%Z by (apply Z.div_lt_upper_bound; lia).
      assert (- Zpos p ≤ Zneg m / 2 ^ (- e))%Z by (apply Z.div_le_lower_bound; lia). lia. }
    change (binary_normalize 53 1024 z 0 false) with (float64_of_int64 z). rewrite int64_exact; lia.
  - assert (e = 0)%Z as -> by lia. cbn [int64_of_float64]. unfold truncate.
    rewrite Z.shiftl_0_r, Z.mul_1_r in *. rewrite bool_decide_true by lia. lia.
Qed.
