(* ===== verification/Protocol.v ===== *)
(** * The packet protocol ([internal/protocol])

    [packet.go]: the 8-byte header (magic, type, encoding, big-endian size),
    the reusable [Packet] and its pool; [types.go]: session keys and
    connection states.  Bytes are integers in [0, 256). *)

From S2P Require Import Prelude GoSlice.

Local Open Scope Z_scope.

(** ** Bytes and [encoding/binary] *)
Definition byte_ok (b : Z) : Prop := 0 ≤ b < 256.

(** [binary.BigEndian.PutUint32]. *)
Definition PutUint32 (v : Z) : list Z :=
  [uint8 (Z.shiftr v 24); uint8 (Z.shiftr v 16); uint8 (Z.shiftr v 8); uint8 v].

(** [binary.BigEndian.Uint32] on four bytes. *)
Definition Uint32 (b0 b1 b2 b3 : Z) : Z :=
  Z.lor b3 (Z.lor (Z.shiftl b2 8) (Z.lor (Z.shiftl b1 16) (Z.shiftl b0 24))).

(** ** types.go *)
Definition SessionKeySize : nat := 16.

(** A session key is the 16 bytes of a UUID. *)
Definition session_key_ok (k : list Z) : Prop :=
  length k = SessionKeySize ∧ Forall byte_ok k.

Inductive ConnectionState :=
| ConnectionUnknown
| ConnectionActive
| ConnectionConnecting
| ConnectionClosed.

#[export] Instance ConnectionState_eq_dec : EqDecision ConnectionState.
Proof. solve_decision. Defined.

(** ** packet.go: constants *)
Definition PacketHeaderSize : nat := 8.
Definition MagicNumber1 : Z := 0x56.
Definition MagicNumber2 : Z := 0x43.

Definition EncodeRaw : Z := 0x00.
Definition EncodeJSON : Z := 0x01.

Definition TypeAudio : Z := 0x01.
Definition TypeError : Z := 0x02.
Definition TypeText : Z := 0x03.
Definition TypeClose : Z := 0x04.
Definition TypePause : Z := 0x05.
Definition TypeResume : Z := 0x06.
Definition TypeInterrupter : Z := 0x11.
Definition TypeCaption : Z := 0x12.
Definition TypeUserSpeechStart : Z := 0x13.
Definition TypeUserSpeechEnd : Z := 0x14.
Definition TypeAgentSpeechStart : Z := 0x15.
Definition TypeAgentSpeechEnd : Z := 0x16.

(** [PacketType.String]. *)
Definition PacketType_String (t : Z) : string :=
  if decide (t = TypeAudio) then "audio"
  else if decide (t = TypeError) then "error"
  else if decide (t = TypeText) then "text"
  else if decide (t = TypeClose) then "close"
  else if decide (t = TypePause) then "pause"
  else if decide (t = TypeResume) then "resume"
  else if decide (t = TypeInterrupter) then "interrupter"
  else if decide (t = TypeCaption) then "caption"
  else if decide (t = TypeUserSpeechStart) then "user_speech_start"
  else if decide (t = TypeUserSpeechEnd) then "user_speech_end"
  else if decide (t = TypeAgentSpeechStart) then "agent_speech_start"
  else if decide (t = TypeAgentSpeechEnd) then "agent_speech_end"
  else "unknown".

(** [PacketEncode.String]. *)
Definition PacketEncode_String (e : Z) : string :=
  if decide (e = EncodeRaw) then "raw"
  else if decide (e = EncodeJSON) then "json"
  else "unknown".

(** ** packet.go: the packet *)
Inductive packet_error :=
| ErrInvalidHeader
| ErrMagicMismatch
| ErrPayloadMismatch.

Record Packet := mkPacket {
  Type_ : Z;
  Encode : Z;
  Size : Z;
  Payload : slice Z;
  header : list Z;
}.

(** The zero [Packet] the pool's factory makes. *)
Definition new_packet : Packet :=
  mkPacket 0 0 0 nil_slice (replicate PacketHeaderSize 0).

Definition Recycle (p : Packet) : Packet :=
  mkPacket 0x00 EncodeRaw 0
    (if decide (Z.of_nat (cap (Payload p)) ≤ 64 * 1024)
     then reslice (Payload p) 0 else nil_slice)
    (replicate PacketHeaderSize 0).

Definition SetPayload (p : Packet) (data : list Z) : Packet :=
  let required := length data in
  if decide (required = 0%nat) then
    mkPacket (Type_ p) (Encode p) 0 (reslice (Payload p) 0) (header p)
  else
    let buf := if decide (cap (Payload p) < required)%nat
               then make_slice 0 required else Payload p in
    mkPacket (Type_ p) (Encode p) (uint32 (Z.of_nat required))
      (copy_to (reslice buf required) data) (header p).

(** [Header] fills the packet's header array and returns it. *)
Definition Header (p : Packet) : Packet * list Z :=
  let h := MagicNumber1 :: MagicNumber2 :: uint8 (Type_ p) :: uint8 (Encode p)
             :: PutUint32 (Size p) in
  (mkPacket (Type_ p) (Encode p) (Size p) (Payload p) h, h).

Definition Marshal (p : Packet) : list Z :=
  (Header p).2 ++ contents (Payload p).


Definition nthb (l : list Z) (i : nat) : Z := default 0 (l !! i).

(** [UnmarshalHeader]: the packet fields are written even when the size
    check fails afterwards. *)
Definition UnmarshalHeader (p : Packet) (content : list Z) : Packet * option packet_error :=
  if decide (length content < PacketHeaderSize)%nat then (p, Some ErrInvalidHeader)
  else if decide (nthb content 0 ≠ MagicNumber1 ∨ nthb content 1 ≠ MagicNumber2)
  then (p, Some ErrMagicMismatch)
  else
    let p' := mkPacket (nthb content 2) (nthb content 3)
                (Uint32 (nthb content 4) (nthb content 5) (nthb content 6) (nthb content 7))
                (Payload p) (header p) in
    if decide (Size p' ≠ Z.of_nat (length content) - Z.of_nat PacketHeaderSize)
    then (p', Some ErrPayloadMismatch)
    else (p', None).

Definition Unmarshal (p : Packet) (content : list Z) : Packet * option packet_error :=
  if decide (length content < PacketHeaderSize)%nat then (p, Some ErrInvalidHeader)
  else if decide (nthb content 0 ≠ MagicNumber1 ∨ nthb content 1 ≠ MagicNumber2)
  then (p, Some ErrMagicMismatch)
  else
    let p' := mkPacket (nthb content 2) (nthb content 3)
                (Uint32 (nthb content 4) (nthb content 5) (nthb content 6) (nthb content 7))
                (Payload p) (header p) in
    let size := length (drop PacketHeaderSize content) in
    if decide (Size p' ≠ Z.of_nat size) then (p', Some ErrPayloadMismatch)
    else (SetPayload p' (drop PacketHeaderSize content), None).

(** The packet pool. *)
Definition AcquirePacket (pick : option nat) (pool : list Packet) : Packet * list Packet :=
  TypedPool.Acquire new_packet pick pool.
Definition ReleasePacket (p : Packet) (pool : list Packet) : list Packet :=
  TypedPool.Release Recycle p pool.

(** ** Lemmas *)

Lemma uint8_bound z : byte_ok (uint8 z).
Proof. unfold byte_ok, uint8. by apply Z.mod_pos_bound. Qed.

Lemma uint8_byte b : byte_ok b → uint8 b = b.
Proof. intros. unfold uint8. by apply Z.mod_small. Qed.

(** Or-ing a shifted word into free low bits is addition. *)
Lemma lor_shiftl a b n : 0 ≤ n → 0 ≤ a < 2 ^ n → Z.lor a (Z.shiftl b n) = a + Z.shiftl b n.
Proof.
  intros Hn Ha. rewrite <-(Z.add_lor_land a (Z.shiftl b n)).
  enough (Z.land a (Z.shiftl b n) = 0) by lia.
  apply Z.bits_inj'. intros i Hi. rewrite Z.land_spec, Z.bits_0, Z.shiftl_spec by done.
  destruct (decide (i < n)).
  - rewrite (Z.testbit_neg_r b) by lia. apply andb_false_r.
  - rewrite <-(Z.mod_small a (2 ^ n)) by done. by rewrite Z.mod_pow2_bits_high by lia.
Qed.

Lemma Uint32_sum b0 b1 b2 b3 :
  byte_ok b0 → byte_ok b1 → byte_ok b2 → byte_ok b3 →
  Uint32 b0 b1 b2 b3 = b0 * 2 ^ 24 + b1 * 2 ^ 16 + b2 * 2 ^ 8 + b3.
Proof.
  unfold byte_ok, Uint32. intros.
  replace (Z.shiftl b0 24) with (Z.shiftl (Z.shiftl b0 8) 16) by (by rewrite Z.shiftl_shiftl).
  rewrite <-Z.shiftl_lor.
  replace (Z.shiftl (Z.lor b1 (Z.shiftl b0 8)) 16)
    with (Z.shiftl (Z.shiftl (Z.lor b1 (Z.shiftl b0 8)) 8) 8) by (by rewrite Z.shiftl_shiftl).
  rewrite <-Z.shiftl_lor, !lor_shiftl by lia. rewrite !Z.shiftl_mul_pow2 by lia. lia.
Qed.

Lemma PutUint32_bytes v : Forall byte_ok (PutUint32 v).
Proof. unfold PutUint32. repeat constructor; apply uint8_bound. Qed.

Lemma Uint32_PutUint32 v :
  Uint32 (uint8 (Z.shiftr v 24)) (uint8 (Z.shiftr v 16)) (uint8 (Z.shiftr v 8)) (uint8 v)
  = uint32 v.
Proof.
  rewrite Uint32_sum by apply uint8_bound. unfold uint8, uint32.
  rewrite !Z.shiftr_div_pow2 by lia.
  change (2 ^ 8) with 256. change (2 ^ 16) with 65536. change (2 ^ 24) with 16777216.
  change (2 ^ 32) with 4294967296.
  Z.div_mod_to_equations. lia.
Qed.

Lemma PutUint32_Uint32 b0 b1 b2 b3 :
  byte_ok b0 → byte_ok b1 → byte_ok b2 → byte_ok b3 →
  PutUint32 (Uint32 b0 b1 b2 b3) = [b0; b1; b2; b3].
Proof.
  intros. rewrite Uint32_sum by done. unfold PutUint32, uint8, byte_ok in *.
  rewrite !Z.shiftr_div_pow2 by lia.
  change (2 ^ 8) with 256. change (2 ^ 16) with 65536. change (2 ^ 24) with 16777216.
  repeat f_equal; Z.div_mod_to_equations; lia.
Qed.

Lemma PutUint32_uint32 v : PutUint32 (uint32 v) = PutUint32 v.
Proof. rewrite <-Uint32_PutUint32, PutUint32_Uint32; try apply uint8_bound. done. Qed.

Lemma Uint32_bound b0 b1 b2 b3 :
  byte_ok b0 → byte_ok b1 → byte_ok b2 → byte_ok b3 → 0 ≤ Uint32 b0 b1 b2 b3 < 2 ^ 32.
Proof. intros. rewrite Uint32_sum by done. unfold byte_ok in *. lia. Qed.

Lemma SetPayload_contents p data : contents (Payload (SetPayload p data)) = data.
Proof.
  unfold SetPayload. case_decide as Hl; [by destruct data|]. simpl.
  etrans; [|apply (contents_make_room_copy 0 (Payload p) data)].
  unfold make_room. by case_decide.
Qed.

Lemma SetPayload_fields p data :
  Type_ (SetPayload p data) = Type_ p ∧ Encode (SetPayload p data) = Encode p ∧
  Size (SetPayload p data) = uint32 (Z.of_nat (length data)).
Proof. unfold SetPayload. case_decide as Hl; simpl; [by rewrite Hl|done]. Qed.

Lemma Recycle_empty p :
  Type_ (Recycle p) = 0 ∧ Encode (Recycle p) = 0 ∧ Size (Recycle p) = 0 ∧
  contents (Payload (Recycle p)) = [] ∧ header (Recycle p) = replicate PacketHeaderSize 0 ∧
  Z.of_nat (cap (Payload (Recycle p))) ≤ 64 * 1024.
Proof. unfold Recycle. simpl. case_decide; repeat split; done. Qed.

(** The wire image of a packet: what [Marshal] writes. *)
Definition wire (t e : Z) (data : list Z) : list Z :=
  MagicNumber1 :: MagicNumber2 :: t :: e :: PutUint32 (Z.of_nat (length data)) ++ data.

Lemma Unmarshal_wire q t e data :
  Unmarshal q (wire t e data) =
    let p' := mkPacket t e (uint32 (Z.of_nat (length data))) (Payload q) (header q) in
    if decide (Z.of_nat (length data) < 2 ^ 32)
    then (SetPayload p' data, None) else (p', Some ErrPayloadMismatch).
Proof.
  unfold Unmarshal, wire. rewrite decide_False.
  2:{ unfold PacketHeaderSize. simpl. lia. }
  rewrite decide_False by (unfold nthb; simpl; naive_solver).
  replace (drop PacketHeaderSize _) with data by done.
  unfold nthb. simpl. rewrite Uint32_PutUint32.
  pose proof (uint32_bound (Z.of_nat (length data))).
  destruct (decide (Z.of_nat (length data) < 2 ^ 32)) as [Hs|Hs].
  - by rewrite decide_False by (rewrite uint32_small; lia).
  - by rewrite decide_True by lia.
Qed.

Lemma Marshal_SetPayload p data :
  byte_ok (Type_ p) → byte_ok (Encode p) →
  Marshal (SetPayload p data) = wire (Type_ p) (Encode p) data.
Proof.
  intros Ht He. destruct (SetPayload_fields p data) as (Et & Ee & Es).
  unfold Marshal, Header. cbn [snd]. rewrite SetPayload_contents, Et, Ee, Es.
  rewrite !uint8_byte by done. unfold wire. do 4 f_equal. by rewrite PutUint32_uint32.
Qed.

(** The frames the receiver accepts, read off the documented format. *)
Definition valid_frame (c : list Z) : Prop :=
  ∃ t e data, c = wire t e data ∧ Z.of_nat (length data) < 2 ^ 32.

Lemma valid_frame_split c :
  Forall byte_ok c → (length c >= PacketHeaderSize)%nat →
  nthb c 0 = MagicNumber1 → nthb c 1 = MagicNumber2 →
  Uint32 (nthb c 4) (nthb c 5) (nthb c 6) (nthb c 7)
    = Z.of_nat (length (drop PacketHeaderSize c)) →
  c = wire (nthb c 2) (nthb c 3) (drop PacketHeaderSize c).
Proof.
  unfold PacketHeaderSize, wire, nthb. intros Hb Hl.
  do 8 (destruct c as [|? c]; [simpl in Hl; lia|]).
  cbn -[Uint32 PutUint32 length]. intros -> -> <-.
  repeat match goal with H : Forall _ (_ :: _) |- _ => apply Forall_cons in H as [? H] end.
  rewrite PutUint32_Uint32 by done. done.
Qed.

(** ** Properties *)

(** whatever two pooled packets held before, filling one with type [t],
    encoding [e] and payload [data] and decoding its wire image into the other
    gives back exactly that type, encoding, size and payload. *)
Theorem packet_roundtrip (sender receiver : Packet) (t e : Z) (data : list Z) :
  byte_ok t → byte_ok e → Z.of_nat (length data) < 2 ^ 32 →
  let p := SetPayload (mkPacket t e (Size sender) (Payload sender) (header sender)) data in
  ∃ q, Unmarshal receiver (Marshal p) = (q, None) ∧
       Type_ q = t ∧ Encode q = e ∧ Size q = Z.of_nat (length data) ∧
       contents (Payload q) = data.
Proof.
  intros Ht He Hs p. unfold p. rewrite Marshal_SetPayload by done. simpl.
  rewrite Unmarshal_wire, decide_True by done. simpl.
  eexists; split; [done|]. rewrite SetPayload_contents.
  pose proof (SetPayload_fields (mkPacket t e (uint32 (Z.of_nat (length data)))
    (Payload receiver) (header receiver)) data) as (-> & -> & ->).
  rewrite uint32_small by lia. done.
Qed.

Lemma packet_roundtrip_witness :
  let p := SetPayload (mkPacket TypeText EncodeJSON 0 nil_slice []) [7; 8; 9] in
  ∃ q, Unmarshal (SetPayload new_packet [1; 2; 3; 4]) (Marshal p) = (q, None) ∧
       Type_ q = TypeText ∧ Encode q = EncodeJSON ∧ Size q = 3 ∧
       contents (Payload q) = [7; 8; 9].
Proof.
  apply (packet_roundtrip (mkPacket 0 0 0 nil_slice []) (SetPayload new_packet [1; 2; 3; 4])
           TypeText EncodeJSON [7; 8; 9]); unfold byte_ok; vm_compute; repeat split; congruence.
Defined.

(** C35: on bytes, [Unmarshal] accepts exactly the documented frames (magic,
    type, encoding, big-endian payload size, payload), and re-encoding what it
    decoded reproduces the frame byte for byte. *)
Theorem Unmarshal_exact (receiver : Packet) (c : list Z) :
  Forall byte_ok c →
  ((Unmarshal receiver c).2 = None ↔ valid_frame c) ∧
  ((Unmarshal receiver c).2 = None → Marshal (Unmarshal receiver c).1 = c).
Proof.
  intros Hb.
  assert ((Unmarshal receiver c).2 = None →
    ∃ t e data, c = wire t e data ∧ byte_ok t ∧ byte_ok e ∧ Z.of_nat (length data) < 2 ^ 32) as Hacc.
  { unfold Unmarshal. repeat case_decide; simpl; try done. intros _.
    assert (∀ i, byte_ok (nthb c i)) as Hn.
    { intros i. unfold nthb. destruct (c !! i) eqn:E; simpl; [|done].
      by eapply Forall_lookup_1. }
    exists (nthb c 2), (nthb c 3), (drop PacketHeaderSize c).
    pose proof (Uint32_bound _ _ _ _ (Hn 4%nat) (Hn 5%nat) (Hn 6%nat) (Hn 7%nat)).
    split; [apply valid_frame_split|repeat split; try apply Hn]; simpl in *; auto; lia || tauto. }
  split.
  - split; [intros (t & e & d & -> & _ & _ & ?)%Hacc; by repeat eexists|].
    intros (t & e & d & -> & Hd). by rewrite Unmarshal_wire, decide_True.
  - intros (t & e & d & -> & Ht & He & ?)%Hacc.
    rewrite Unmarshal_wire, decide_True by done. cbv zeta. cbn [fst].
    by rewrite Marshal_SetPayload.
Qed.

Lemma Unmarshal_exact_witness :
  ((Unmarshal new_packet (wire 1 0 [5])).2 = None ↔ valid_frame (wire 1 0 [5])) ∧
  ((Unmarshal new_packet (wire 1 0 [5])).2 = None →
     Marshal (Unmarshal new_packet (wire 1 0 [5])).1 = wire 1 0 [5]).
Proof.
  apply (Unmarshal_exact new_packet (wire 1 0 [5])).
  repeat constructor; vm_compute; congruence.
Defined.

(** A payload of 2^32 bytes or more cannot cross the wire: its 32-bit size
    field wraps, and every receiver rejects the frame with a size mismatch,
    keeping its payload untouched. *)
Theorem packet_oversize_rejected (sender receiver : Packet) (data : list Z) :
  byte_ok (Type_ sender) → byte_ok (Encode sender) → 2 ^ 32 ≤ Z.of_nat (length data) →
  (Unmarshal receiver (Marshal (SetPayload sender data))).2 = Some ErrPayloadMismatch ∧
  Payload (Unmarshal receiver (Marshal (SetPayload sender data))).1 = Payload receiver.
Proof.
  intros Ht He Hl. rewrite Marshal_SetPayload, Unmarshal_wire by done.
  by rewrite decide_False by lia.
Qed.

(** [UnmarshalHeader] gives the verdict and the metadata of [Unmarshal]
    without touching the payload. *)
Lemma UnmarshalHeader_agrees p c :
  (UnmarshalHeader p c).2 = (Unmarshal p c).2 ∧
  Type_ (UnmarshalHeader p c).1 = Type_ (Unmarshal p c).1 ∧
  Encode (UnmarshalHeader p c).1 = Encode (Unmarshal p c).1 ∧
  Payload (UnmarshalHeader p c).1 = Payload p.
Proof.
  unfold UnmarshalHeader, Unmarshal. do 2 (case_decide; [done|]).
  rewrite length_drop.
  set (p' := mkPacket _ _ _ _ _).
  pose proof (SetPayload_fields p' (drop PacketHeaderSize c)) as (? & ? & ?).
  unfold PacketHeaderSize in *.
  repeat case_decide; simpl in *; repeat split; try done; lia.
Qed.
