(* ===== verification/Property.v ===== *)
(** * Property contracts between plugins ([internal/engine/property.go])

    A plugin declares the properties it consumes and produces; an edge of a
    workflow is legal when the producer's properties satisfy the consumer's.
    The file models the two validators, as written (with their maps), the
    fluent [PropertyBuilder], and relates both to a declarative contract. *)

From S2P Require Import Prelude.

Definition PrefixSignal : string := "signal".
Definition PrefixPayload : string := "data".
Definition PrefixAudio : string := "audio".

(** [PropertyType] is a string; these are the values the code names. *)
Definition TypeString : string := "string".
Definition TypeNumber : string := "number".
Definition TypeInteger : string := "integer".
Definition TypeBoolean : string := "boolean".
Definition TypeArray : string := "array".
Definition TypeObject : string := "object".
Definition TypeNull : string := "null".
Definition TypeAny : string := "".

Record Field := mkField { Key : string; FType : string; Required : bool }.
Record Property := mkProperty { Prefix : string; PName : string; Fields : list Field }.

#[export] Instance Field_eq_dec : EqDecision Field.
Proof. solve_decision. Defined.
#[export] Instance Property_eq_dec : EqDecision Property.
Proof. solve_decision. Defined.

(** [Property.String]. *)
Definition Property_String (p : Property) : string := Prefix p +:+ ":" +:+ PName p.

Inductive property_error :=
| PrefixMismatch (up down : string)
| NameMismatch (up down : string)
| FieldNotProvided (key : string)
| FieldTypeMismatch (key up down : string)
| FieldOnlyOptional (key : string)
| SourceProducesNone (prefix : string)
| ContractViolation (prop : string) (e : property_error)
| NoneRecognized (prefix : string).

(** ** ValidateProperty *)

(** The index [upFields]: the last field declared with a key wins. *)
Definition index_fields (fs : list Field) : gmap string Field :=
  foldl (λ m f, <[Key f := f]> m) ∅ fs.

Definition check_field (upFields : gmap string Field) (df : Field) : result property_error unit :=
  if negb (Required df) then Ok tt
  else match upFields !! Key df with
       | None => Err (FieldNotProvided (Key df))
       | Some uf =>
         if decide (FType df ≠ TypeAny ∧ FType uf ≠ FType df)
         then Err (FieldTypeMismatch (Key df) (FType uf) (FType df))
         else if negb (Required uf) then Err (FieldOnlyOptional (Key df))
         else Ok tt
       end.

Definition ValidateProperty (upstream downstream : Property) : result property_error unit :=
  if decide (Prefix upstream ≠ Prefix downstream)
  then Err (PrefixMismatch (Prefix upstream) (Prefix downstream))
  else if decide (PName downstream ≠ "" ∧ PName upstream ≠ PName downstream)
  then Err (NameMismatch (PName upstream) (PName downstream))
  else if decide (length (Fields downstream) = 0) then Ok tt
  else range_check (check_field (index_fields (Fields upstream))) (Fields downstream).

(** ** ValidateProperties *)

Definition downs_by_name (ds : list Property) : gmap string Property :=
  foldl (λ m d, if decide (PName d ≠ "") then <[Property_String d := d]> m else m) ∅ ds.

Definition wildcards_of (ds : list Property) : list Property :=
  filter (λ d, PName d = "") ds.

(** The downstream property an upstream one is checked against: an exact
    match, else the first wildcard. *)
Definition matched_down (byName : gmap string Property) (wildcards : list Property)
    (up : Property) : option Property :=
  match byName !! Property_String up with
  | Some d => Some d
  | None => head (filter (λ d, PName d = "") wildcards)
  end.

Definition check_up (byName : gmap string Property) (wildcards : list Property)
    (hasAnyHit : bool) (up : Property) : result property_error bool :=
  match matched_down byName wildcards up with
  | None => Ok hasAnyHit
  | Some d =>
    let? _ := rmap_err (ContractViolation (Property_String up)) (ValidateProperty up d) in
    Ok true
  end.

Definition ValidateProperties (upstreams downstreams : list Property) (prefix : string)
    : result property_error unit :=
  let filteredUps := filter (λ p, Prefix p = prefix) upstreams in
  let filteredDowns := filter (λ p, Prefix p = prefix) downstreams in
  if decide (length filteredDowns = 0) then Ok tt
  else if decide (length filteredUps = 0) then Err (SourceProducesNone prefix)
  else
    let byName := downs_by_name filteredDowns in
    let wildcards := wildcards_of filteredDowns in
    let? hit := range_fold (check_up byName wildcards) false filteredUps in
    if hit : bool then Ok tt else Err (NoneRecognized prefix).

(** ** PropertyBuilder *)
Record PropertyBuilder := mkPB { properties : list Property; index : gmap string nat }.

Definition NewPropertyBuilder : PropertyBuilder := mkPB [] ∅.

Definition ensureProperty (b : PropertyBuilder) (prefix name : string) : PropertyBuilder * nat :=
  let k := prefix +:+ ":" +:+ name in
  match index b !! k with
  | Some idx => (b, idx)
  | None =>
    let idx := length (properties b) in
    (mkPB (properties b ++ [mkProperty prefix name []]) (<[k := idx]> (index b)), idx)
  end.

Definition add_to_fields (f : Field) (p : Property) : Property :=
  mkProperty (Prefix p) (PName p) (Fields p ++ [f]).

Definition addField (b : PropertyBuilder) (prefix name key tp : string) (required : bool)
    : PropertyBuilder :=
  let '(b', idx) := ensureProperty b prefix name in
  mkPB (alter (add_to_fields (mkField key tp required)) idx (properties b')) (index b').

Definition AddSignalEvent (b : PropertyBuilder) (name : string) : PropertyBuilder :=
  (ensureProperty b PrefixSignal name).1.
Definition AddSignal (b : PropertyBuilder) (name key tp : string) (required : bool) :=
  addField b PrefixSignal name key tp required.
Definition AddPayload (b : PropertyBuilder) (name key tp : string) (required : bool) :=
  addField b PrefixPayload name key tp required.
Definition AddAudio (b : PropertyBuilder) (name key tp : string) (required : bool) :=
  addField b PrefixAudio name key tp required.
Definition AddWildSignal (b : PropertyBuilder) (key tp : string) (required : bool) :=
  addField b PrefixSignal "" key tp required.
Definition AddWildPayload (b : PropertyBuilder) (key tp : string) (required : bool) :=
  addField b PrefixPayload "" key tp required.
Definition AddWildAudio (b : PropertyBuilder) (key tp : string) (required : bool) :=
  addField b PrefixAudio "" key tp required.
Definition Build (b : PropertyBuilder) : list Property := properties b.

(** ** The declarative contract *)

(** The field an upstream property provides under a key: the last one. *)
Definition provided (fs : list Field) (key : string) : option Field :=
  last (filter (λ f, Key f = key) fs).

Definition field_satisfied (ups : list Field) (df : Field) : Prop :=
  Required df = true →
  ∃ uf, provided ups (Key df) = Some uf ∧ Required uf = true ∧
        (FType df = TypeAny ∨ FType uf = FType df).

Definition satisfies (up down : Property) : Prop :=
  Prefix up = Prefix down ∧ (PName down = "" ∨ PName up = PName down) ∧
  Forall (field_satisfied (Fields up)) (Fields down).

(** The downstream property that recognizes [up]: the last declared under the
    same name, else the first wildcard. *)
Definition recognizer (downs : list Property) (up : Property) : option Property :=
  match last (filter (λ d, PName d ≠ "" ∧ Property_String d = Property_String up) downs) with
  | Some d => Some d
  | None => head (filter (λ d, PName d = "") downs)
  end.

Definition edge_contract (ups downs : list Property) (prefix : string) : Prop :=
  let ups' := filter (λ p, Prefix p = prefix) ups in
  let downs' := filter (λ p, Prefix p = prefix) downs in
  downs' = [] ∨
  ((∃ up, up ∈ ups' ∧ is_Some (recognizer downs' up)) ∧
   ∀ up d, up ∈ ups' → recognizer downs' up = Some d → satisfies up d).

(** ** Lemmas *)

(** Building a map by successive inserts keeps the last entry of each key. *)
Lemma lookup_foldl_insert `{Countable K} {A} (key : A → K) (P : A → Prop)
    `{!∀ x, Decision (P x)} (xs : list A) (m : gmap K A) k :
  foldl (λ m x, if decide (P x) then <[key x := x]> m else m) m xs !! k =
    match last (filter (λ x, P x ∧ key x = k) xs) with
    | Some x => Some x
    | None => m !! k
    end.
Proof.
  revert m. induction xs as [|x xs IH] using rev_ind; intros m; [done|].
  rewrite foldl_app. simpl. rewrite filter_app, last_app. simpl.
  rewrite filter_cons, filter_nil. case_decide as HP; simpl.
  - rewrite lookup_insert. destruct (decide (key x = k)).
    + by rewrite decide_True by done.
    + rewrite IH, decide_False by naive_solver. done.
  - rewrite IH, decide_False by naive_solver. done.
Qed.

Lemma lookup_index_fields fs key : index_fields fs !! key = provided fs key.
Proof.
  unfold index_fields, provided.
  pose proof (lookup_foldl_insert Key (λ _, True) fs ∅ key) as Hf.
  rewrite lookup_empty in Hf. etrans; [|etrans; [apply Hf|]].
  - f_equal.
  - rewrite (list_filter_iff (λ f, True ∧ Key f = key) (λ f, Key f = key)) by naive_solver.
    clear Hf. by destruct (last _).
Qed.

Lemma check_field_ok ups df :
  check_field (index_fields ups) df = Ok tt ↔ field_satisfied ups df.
Proof.
  unfold check_field, field_satisfied. rewrite lookup_index_fields.
  destruct (Required df); simpl; [|by split].
  transitivity (∃ uf, provided ups (Key df) = Some uf ∧ Required uf = true ∧
                      (FType df = TypeAny ∨ FType uf = FType df)); [|by split; eauto].
  destruct (provided ups (Key df)) as [uf|]; [|split; [done|by intros (? & ? & _)]].
  case_decide as Ht.
  - split; [done|]. intros (? & ? & _ & ?). simplify_eq. naive_solver.
  - assert (FType df = TypeAny ∨ FType uf = FType df).
    { destruct (decide (FType df = TypeAny)), (decide (FType uf = FType df)); naive_solver. }
    destruct (Required uf) eqn:Eu; simpl; split; try done; [eauto|].
    intros (? & ? & ? & _). congruence.
Qed.

Lemma ValidateProperty_ok up down :
  ValidateProperty up down = Ok tt ↔ satisfies up down.
Proof.
  unfold ValidateProperty, satisfies. case_decide as Hpre; [naive_solver|].
  case_decide as Hn; [naive_solver|].
  assert (PName down = "" ∨ PName up = PName down) as Hn'.
  { destruct (decide (PName down = "")), (decide (PName up = PName down)); naive_solver. }
  case_decide as Hf.
  - apply length_zero_iff_nil in Hf. rewrite Hf. naive_solver.
  - rewrite range_check_ok. rewrite (Forall_iff _ _ (field_satisfied (Fields up))) by apply check_field_ok.
    naive_solver.
Qed.

Lemma matched_down_recognizer downs up :
  matched_down (downs_by_name downs) (wildcards_of downs) up = recognizer downs up.
Proof.
  unfold matched_down, recognizer, downs_by_name, wildcards_of.
  rewrite (lookup_foldl_insert Property_String (λ d, PName d ≠ "") downs ∅).
  rewrite lookup_empty. destruct (last _); [done|].
  rewrite list_filter_filter. f_equal. apply list_filter_iff. naive_solver.
Qed.

(** The loop over the upstream properties. *)
Definition recognized (downs : list Property) (up : Property) : bool :=
  if recognizer downs up is Some _ then true else false.

Lemma check_ups_ok downs ups hit hit' :
  range_fold (check_up (downs_by_name downs) (wildcards_of downs)) hit ups = Ok hit' ↔
  (∀ up d, up ∈ ups → recognizer downs up = Some d → satisfies up d) ∧
  hit' = hit || existsb (recognized downs) ups.
Proof.
  revert hit. induction ups as [|up ups IH]; intros hit; simpl.
  - rewrite orb_false_r. split; [intros [= ->]; set_solver|naive_solver].
  - unfold check_up at 1, recognized at 1. rewrite matched_down_recognizer.
    destruct (recognizer downs up) as [d|] eqn:Er; simpl.
    + rewrite orb_true_r. split.
      * intros (b & H1 & H2)%rbind_ok. apply rbind_ok in H1 as ([] & H1 & [= <-]).
        apply rmap_err_ok, ValidateProperty_ok in H1. apply IH in H2 as [? ->].
        set_solver.
      * intros [Hall ->]. rewrite (proj2 (ValidateProperty_ok up d)) by set_solver. simpl.
        apply IH. set_solver.
    + rewrite IH. set_solver.
Qed.

Lemma ValidateProperties_ok (ups downs : list Property) (prefix : string) :
  ValidateProperties ups downs prefix = Ok tt ↔ edge_contract ups downs prefix.
Proof.
  unfold ValidateProperties, edge_contract. simpl.
  set (ups' := filter _ ups). set (downs' := filter _ downs).
  case_decide as Hd; [apply length_zero_iff_nil in Hd; naive_solver|].
  assert (downs' ≠ []) by (by intros ->).
  case_decide as Hu.
  { apply length_zero_iff_nil in Hu. rewrite Hu. set_solver. }
  rewrite rbind_ok. setoid_rewrite check_ups_ok. simpl.
  assert (existsb (recognized downs') ups' = true ↔
          ∃ up, up ∈ ups' ∧ is_Some (recognizer downs' up)) as He.
  { rewrite existsb_exists. unfold recognized, is_Some.
    setoid_rewrite <-list_elem_of_In.
    split; intros (up & ? & H'); exists up; split; try done;
      destruct (recognizer downs' up); naive_solver. }
  destruct (existsb (recognized downs') ups'); naive_solver.
Qed.

(** ** Properties *)

(** [ValidateProperties] accepts an edge exactly when the contract of its
    prefix holds: the consumer declares nothing under that prefix, or some
    producer property is recognized and every recognized one provides each
    required field with a compatible type and at least the same strength.
    The comment above the code says an undeclared prefix is rejected; it is
    accepted. *)
Theorem ValidateProperties_spec (ups downs : list Property) (prefix : string) :
  ValidateProperties ups downs prefix = Ok tt ↔ edge_contract ups downs prefix.
Proof. apply ValidateProperties_ok. Qed.
