(* ===== verification/EngineTypes.v ===== *)
(** * Vocabulary of the workflow engine

    [internal/engine/engine.go] (event, control, state and drop-strategy
    enumerations), [config.go] (workflow documents), and the parts of
    [plugin.go] and [builder.go] that describe a plugin to the graph: its
    metadata, its ports and its builder. *)

From S2P Require Import Prelude Property.

(** ** engine.go

    The Go enumerations are integers that a JSON document can set to any
    value; the last constructor stands for the values the code does not name. *)
Inductive EventType :=
| EventSignal | EventPayload | EventAudio | EventVideo
| EventOther (b : Z).

Definition EventType_String (e : EventType) : string :=
  match e with
  | EventSignal => "signal"
  | EventPayload => "payload"
  | EventAudio => "audio"
  | EventVideo => "video"
  | EventOther _ => "unknown"
  end.

Inductive controlType := controlPause | controlResume | controlStop.

Definition controlType_String (c : controlType) : string :=
  match c with
  | controlPause => "pause"
  | controlResume => "resume"
  | controlStop => "stop"
  end.

Definition MaxPortCount : Z := 12.
Definition AudioSampleRate : Z := 16000.
Definition AudioChannels : Z := 1.
Definition AudioFrameSize : Z := AudioSampleRate * AudioChannels * 2 * 10 / 1000.
Definition AudioBufferSize : Z := AudioFrameSize * 10.

Inductive WorkflowState :=
| WorkflowStatePending | WorkflowStateStarting | WorkflowStateRunning
| WorkflowStatePaused | WorkflowStateStopped.

Definition WorkflowState_String (s : WorkflowState) : string :=
  match s with
  | WorkflowStatePending => "pending"
  | WorkflowStateStarting => "starting"
  | WorkflowStateRunning => "running"
  | WorkflowStatePaused => "paused"
  | WorkflowStateStopped => "stopped"
  end.

Inductive DropStrategy := DropNewest | BlockIfFull | DropOldest.

Definition DropStrategy_String (d : DropStrategy) : string :=
  match d with
  | DropNewest => "drop_newest"
  | BlockIfFull => "block_if_full"
  | DropOldest => "drop_oldest"
  end.

#[export] Instance EventType_eq_dec : EqDecision EventType.
Proof. solve_decision. Defined.
#[export] Instance controlType_eq_dec : EqDecision controlType.
Proof. solve_decision. Defined.
#[export] Instance WorkflowState_eq_dec : EqDecision WorkflowState.
Proof. solve_decision. Defined.
#[export] Instance DropStrategy_eq_dec : EqDecision DropStrategy.
Proof. solve_decision. Defined.

(** ** config.go

    [Config] is the raw JSON text of a node, empty when it is nil.  The
    free-form [Metadata] map, nil or the JSON texts of its values by key, is
    read by no operation of the engine; it is carried along. *)
Record NodeConfig := mkNode {
  ID : string;
  Name : string;
  Namespace : string;
  Plugin : string;
  Config : string;
  Metadata : option (gmap string string);
}.

Record EdgeConfig := mkEdge {
  Source : string;
  SourcePort : Z;
  Target : string;
  EType : EventType;
}.

Record WorkflowConfig := mkWorkflow {
  WID : string;
  WName : string;
  Version : string;
  Head : string;
  Nodes : list NodeConfig;
  Edges : list EdgeConfig;
  SchedulerMode : string;
  SchedulerWorkers : Z;
}.

Definition SchedulerModeThreadPerNode : string := "thread-per-node".
Definition SchedulerModeWorkerPool : string := "worker-pool".

#[export] Instance NodeConfig_eq_dec : EqDecision NodeConfig.
Proof. solve_decision. Defined.
#[export] Instance EdgeConfig_eq_dec : EqDecision EdgeConfig.
Proof. solve_decision. Defined.

(** ** plugin.go: ports and metadata *)
Record PortMetadata := mkPort {
  PortType : EventType;
  Port : Z;
  PortName : string;
  PortDescription : string;
}.

Inductive port_error := PortNotPositive (p : Z) | PortTooLarge (p : Z).

(** [PortMetadata.Validate]. *)
Definition Port_Validate (p : PortMetadata) : result port_error unit :=
  if decide (Port p ≤ 0)%Z then Err (PortNotPositive (Port p))
  else if decide (MaxPortCount ≤ Port p)%Z then Err (PortTooLarge (Port p))
  else Ok tt.

Record PluginMetadata := mkMeta {
  MName : string;
  Description : string;
  Inputs : list Property;
  Outputs : list Property;
  Ports : list PortMetadata;
}.

(** ** builder.go

    A builder describes its plugin and makes instances of it from the JSON of
    a node.  The plugin type is a parameter: plugins are the clients of the
    engine.  The JSON schema of the configuration is produced and consumed by
    a third-party library and is not represented. *)
Record PluginBuilder (P : Type) := mkBuilder {
  meta : PluginMetadata;
  Build_plugin : string → result string P;
}.
Arguments mkBuilder {P} _ _.
Arguments meta {P} _.
Arguments Build_plugin {P} _ _.

(** [GenericBuilder[T].Build]: decode the configuration into a fresh zero
    value of the configuration type, then call the factory. *)
Definition GenericBuilder {T P : Type} (m : PluginMetadata)
    (zero : T) (Decode : T → string → result string T) (factory : T → P) : PluginBuilder P :=
  mkBuilder m (λ data, let? cfg := Decode zero data in Ok (factory cfg)).

Definition EmptyPluginConfig_Decode (e : unit) (_ : string) : result string unit := Ok e.

Lemma Port_Validate_ok p :
  Port_Validate p = Ok tt ↔ (0 < Port p < MaxPortCount)%Z.
Proof. unfold Port_Validate. repeat case_decide; split; intros; try done; lia. Qed.
