(* ===== verification/Graph.v ===== *)
(** * Workflow graphs ([internal/engine/graph.go])

    [BuildGraph] validates a workflow document (unique node IDs, a builder
    per node, an existing head, no self loop, legal edges) and orders its
    nodes with Kahn's algorithm, appending the nodes of cycles at the end. *)

From S2P Require Import Prelude Property EngineTypes.

Inductive graph_error :=
| NoHead
| DuplicateNode (id : string)
| NoBuilder (id : string)
| HeadNotFound (id : string)
| SelfLoop (id : string)
| EdgeSourceNotFound (id : string)
| EdgeTargetNotFound (id : string)
| UnknownEdgeType (t : EventType)
| ContractFailed (src tgt prefix : string) (e : property_error)
| SortDiverges (** the sort outlived its fuel: shown below never to happen *).

Record Graph := mkGraph {
  GConfig : WorkflowConfig;
  OrderedNodes : list NodeConfig;
}.

Section graph.
Context {P : Type}.
Implicit Types (builders : gmap string (PluginBuilder P)).

Definition parseNodes (nodes : list NodeConfig) builders
    : result graph_error (gmap string NodeConfig) :=
  range_fold (λ nodesMap n,
    match nodesMap !! ID n with
    | Some _ => Err (DuplicateNode (ID n))
    | None =>
      match builders !! ID n with
      | None => Err (NoBuilder (ID n))
      | Some _ => Ok (<[ID n := n]> nodesMap)
      end
    end) ∅ nodes.

Definition checkSelfLoops (edges : list EdgeConfig) : result graph_error unit :=
  range_check (λ e, if decide (Source e = Target e) then Err (SelfLoop (Source e)) else Ok tt) edges.

Definition edge_prefix (t : EventType) : result graph_error string :=
  match t with
  | EventPayload => Ok PrefixPayload
  | EventSignal => Ok PrefixSignal
  | EventAudio => Ok PrefixAudio
  | _ => Err (UnknownEdgeType t)
  end.

(** Properties of a node's builder; the builder of a node in [nodesMap]
    exists, so the default is never read. *)
Definition outputs_of builders (id : string) : list Property :=
  match builders !! id with Some b => Outputs (meta b) | None => [] end.
Definition inputs_of builders (id : string) : list Property :=
  match builders !! id with Some b => Inputs (meta b) | None => [] end.

Definition validateEdge (nodesMap : gmap string NodeConfig) builders (e : EdgeConfig)
    : result graph_error unit :=
  if decide (nodesMap !! Source e = None) then Err (EdgeSourceNotFound (Source e))
  else if decide (nodesMap !! Target e = None) then Err (EdgeTargetNotFound (Target e))
  else
    let? prefix := edge_prefix (EType e) in
    rmap_err (ContractFailed (Source e) (Target e) prefix)
      (ValidateProperties (outputs_of builders (Source e)) (inputs_of builders (Target e)) prefix).

Definition validateEdgeContracts (nodesMap : gmap string NodeConfig) (edges : list EdgeConfig)
    builders : result graph_error unit :=
  range_check (validateEdge nodesMap builders) edges.
End graph.

(** ** sortNodesTopologically *)

(** [adj[s] = append(adj[s], t)] for every edge. *)
Definition adjacency (edges : list EdgeConfig) : gmap string (list string) :=
  foldl (λ m e, <[Source e := default [] (m !! Source e) ++ [Target e]]> m) ∅ edges.

Definition in_degrees (nodesMap : gmap string NodeConfig) (edges : list EdgeConfig)
    : gmap string Z :=
  foldl (λ m e, <[Target e := (default 0 (m !! Target e) + 1)%Z]> m)
    ((λ _, 0%Z) <$> nodesMap) edges.

(** The inner loop: every successor of the node just emitted loses an
    incoming edge; it joins the queue when none is left. *)
Definition relax (st : gmap string Z * list string) (next : string)
    : gmap string Z * list string :=
  let '(deg, queue) := st in
  let d := (default 0 (deg !! next) - 1)%Z in
  (<[next := d]> deg, if decide (d = 0%Z) then queue ++ [next] else queue).

(** The outer loop, with fuel: [None] when the fuel runs out first. *)
Fixpoint kahn (adj : gmap string (list string)) (fuel : nat)
    (deg : gmap string Z) (queue ordered : list string)
    : option (gmap string Z * list string) :=
  match queue with
  | [] => Some (deg, ordered)
  | curr :: queue =>
    match fuel with
    | O => None
    | S fuel =>
      let '(deg', queue') := foldl relax (deg, queue) (default [] (adj !! curr)) in
      kahn adj fuel deg' queue' (ordered ++ [curr])
    end
  end.

Definition zero_node : NodeConfig := mkNode "" "" "" "" "" None.

(** [o1] and [o2] are the iteration orders of the two loops over [inDegree].
    One unit of fuel per entry of [inDegree] is enough: a node enters the
    queue at most once. *)
Definition sortNodesTopologically (o1 o2 : iter_order string Z)
    (config : WorkflowConfig) (nodesMap : gmap string NodeConfig) : option (list NodeConfig) :=
  let adj := adjacency (Edges config) in
  let deg := in_degrees nodesMap (Edges config) in
  let queue := (filter (λ kv, kv.2 = 0%Z) (range_map o1 deg)).*1 in
  match kahn adj (size deg) deg queue [] with
  | None => None
  | Some (deg', orderedIDs) =>
    let orderedIDs' :=
      if decide (length orderedIDs ≠ length (Nodes config))
      then orderedIDs ++ (filter (λ kv, 0 < kv.2)%Z (range_map o2 deg')).*1
      else orderedIDs in
    Some ((λ id, default zero_node (nodesMap !! id)) <$> orderedIDs')
  end.

(** ** BuildGraph *)
Definition BuildGraph {P} (o1 o2 : iter_order string Z) (config : WorkflowConfig)
    (builders : gmap string (PluginBuilder P)) : result graph_error Graph :=
  if decide (Head config = "") then Err NoHead
  else
    let? nodesMap := parseNodes (Nodes config) builders in
    if decide (nodesMap !! Head config = None) then Err (HeadNotFound (Head config))
    else
      let? _ := checkSelfLoops (Edges config) in
      let? _ := validateEdgeContracts nodesMap (Edges config) builders in
      match sortNodesTopologically o1 o2 config nodesMap with
      | Some orderedNodes => Ok (mkGraph config orderedNodes)
      | None => Err SortDiverges
      end.

(** ** Specification *)

Definition graph_edge (edges : list EdgeConfig) (u v : string) : Prop :=
  ∃ e, e ∈ edges ∧ Source e = u ∧ Target e = v.

Definition precedes {A} (l : list A) (x y : A) : Prop :=
  ∃ i j, l !! i = Some x ∧ l !! j = Some y ∧ i < j.

(** No cycle of the graph leads to [v]. *)
Definition cycle_free_above (edges : list EdgeConfig) (v : string) : Prop :=
  ∀ u, rtc (graph_edge edges) u v → ¬ tc (graph_edge edges) u u.

Definition edge_legal {P} (ids : list string) (builders : gmap string (PluginBuilder P))
    (e : EdgeConfig) : Prop :=
  Source e ≠ Target e ∧ Source e ∈ ids ∧ Target e ∈ ids ∧
  ∃ prefix, edge_prefix (EType e) = Ok prefix ∧
    edge_contract (outputs_of builders (Source e)) (inputs_of builders (Target e)) prefix.

(** What a legal workflow document is. *)
Definition workflow_legal {P} (config : WorkflowConfig)
    (builders : gmap string (PluginBuilder P)) : Prop :=
  NoDup (ID <$> Nodes config) ∧
  (∀ n, n ∈ Nodes config → is_Some (builders !! ID n)) ∧
  Head config ≠ "" ∧ Head config ∈ ID <$> Nodes config ∧
  Forall (edge_legal (ID <$> Nodes config) builders) (Edges config).

(** ** parseNodes *)
Lemma parseNodes_ok {P} nodes (builders : gmap string (PluginBuilder P)) m :
  parseNodes nodes builders = Ok m ↔
  NoDup (ID <$> nodes) ∧ (∀ n, n ∈ nodes → is_Some (builders !! ID n)) ∧
  m = list_to_map ((λ n, (ID n, n)) <$> nodes).
Proof.
  unfold parseNodes. set (step := λ _ _, _).
  assert (∀ m0, range_fold step m0 nodes = Ok m ↔
    NoDup (ID <$> nodes) ∧ (∀ n, n ∈ nodes → m0 !! ID n = None ∧ is_Some (builders !! ID n)) ∧
    m = list_to_map ((λ n, (ID n, n)) <$> nodes) ∪ m0) as Hgen.
  { induction nodes as [|n nodes IH]; intros m0; simpl.
    { rewrite (left_id_L ∅ (∪)). split; [|by intros (_ & _ & ->)].
      intros [= ->]. split_and!; [constructor|by intros ? ?%elem_of_nil|done]. }
    rewrite rbind_ok. unfold step at 1. rewrite NoDup_cons. split.
    - intros (m1 & H1 & H2). case_match eqn:E1; [done|]. case_match eqn:E2; [|done].
      simplify_eq. apply IH in H2 as (Hnd & Hall & ->). split_and!; [|done|..].
      + intros (n' & Heq & Hn')%list_elem_of_fmap. destruct (Hall n' Hn') as [Hl _].
        rewrite Heq, lookup_insert_eq in Hl. done.
      + intros n' [->|Hn']%elem_of_cons; [by rewrite E2; eauto|].
        destruct (Hall n' Hn') as [Hl ?]. rewrite lookup_insert in Hl. by case_decide.
      + rewrite <-insert_union_r, insert_union_l; [done|].
        apply not_elem_of_list_to_map_1. rewrite <-list_fmap_compose. simpl.
        intros (n' & Heq & Hn')%list_elem_of_fmap. destruct (Hall n' Hn') as [Hl _].
        simpl in Heq. by rewrite Heq, lookup_insert_eq in Hl.
    - intros ([Hni Hnd] & Hall & ->). exists (<[ID n := n]> m0).
      destruct (Hall n) as [-> [b ->]]; [set_solver|]. split; [done|].
      apply IH. split_and!; [done|..].
      + intros n' Hn'. destruct (Hall n') as [Hl ?]; [set_solver|].
        rewrite lookup_insert_ne; [done|]. intros Heq. apply Hni. rewrite Heq.
        by apply list_elem_of_fmap_2.
      + rewrite <-insert_union_r, insert_union_l; [done|].
        apply not_elem_of_list_to_map_1. rewrite <-list_fmap_compose. done. }
  rewrite Hgen, (right_id_L ∅ (∪)). setoid_rewrite lookup_empty. naive_solver.
Qed.

Lemma nodesMap_lookup nodes (n : NodeConfig) :
  NoDup (ID <$> nodes) → n ∈ nodes →
  (list_to_map ((λ n, (ID n, n)) <$> nodes) : gmap string NodeConfig) !! ID n = Some n.
Proof.
  intros Hnd Hn. apply elem_of_list_to_map.
  - rewrite <-list_fmap_compose. done.
  - apply list_elem_of_fmap. eauto.
Qed.

Lemma nodesMap_dom nodes id :
  is_Some ((list_to_map ((λ n, (ID n, n)) <$> nodes) : gmap string NodeConfig) !! id)
  ↔ id ∈ ID <$> nodes.
Proof.
  rewrite <-elem_of_dom, dom_list_to_map, elem_of_list_to_set, <-list_fmap_compose. done.
Qed.

(** ** Edge validation *)
Lemma validateEdge_ok {P} nodes (builders : gmap string (PluginBuilder P)) e :
  let m := list_to_map ((λ n, (ID n, n)) <$> nodes) in
  validateEdge m builders e = Ok tt ↔
  Source e ∈ ID <$> nodes ∧ Target e ∈ ID <$> nodes ∧
  ∃ prefix, edge_prefix (EType e) = Ok prefix ∧
    edge_contract (outputs_of builders (Source e)) (inputs_of builders (Target e)) prefix.
Proof.
  intros m. unfold validateEdge. rewrite <-!nodesMap_dom. fold m.
  case_decide as Hs; [rewrite Hs; split; [done|by intros ([? ?] & _)]|].
  case_decide as Ht; [rewrite Ht; split; [done|by intros (_ & [? ?] & _)]|].
  apply not_eq_None_Some in Hs, Ht. rewrite rbind_ok.
  setoid_rewrite rmap_err_ok. setoid_rewrite ValidateProperties_ok. naive_solver.
Qed.

Lemma checks_ok {P} nodes (builders : gmap string (PluginBuilder P)) edges :
  let m := list_to_map ((λ n, (ID n, n)) <$> nodes) in
  checkSelfLoops edges = Ok tt ∧ validateEdgeContracts m edges builders = Ok tt ↔
  Forall (edge_legal (ID <$> nodes) builders) edges.
Proof.
  intros m. unfold checkSelfLoops, validateEdgeContracts. rewrite !range_check_ok.
  rewrite <-Forall_and. apply Forall_iff. intros e.
  unfold m. rewrite validateEdge_ok. unfold edge_legal. case_decide; naive_solver.
Qed.

(** ** Kahn's algorithm *)

Definition closed_edges (V : gset string) (edges : list EdgeConfig) : Prop :=
  Forall (λ e, Source e ∈ V ∧ Target e ∈ V) edges.

Lemma lookup_adjacency edges u :
  default [] (adjacency edges !! u) = Target <$> filter (λ e, Source e = u) edges.
Proof.
  unfold adjacency. induction edges as [|e edges IH] using rev_ind; [done|].
  rewrite foldl_app. simpl. rewrite filter_app, fmap_app, filter_cons, filter_nil.
  rewrite lookup_insert. case_decide as He; [subst|].
  - simpl. by rewrite IH.
  - rewrite IH. simpl. by rewrite app_nil_r.
Qed.

(** Incoming edges of [v] whose source is not in [done]. *)
Definition pending (edges : list EdgeConfig) (done : list string) (v : string) : nat :=
  length (filter (λ e, Target e = v ∧ Source e ∉ done) edges).

Lemma lookup_in_degrees nodesMap edges v :
  closed_edges (dom nodesMap) edges → v ∈ dom nodesMap →
  in_degrees nodesMap edges !! v = Some (Z.of_nat (pending edges [] v)).
Proof.
  intros Hc Hv. unfold in_degrees, pending.
  induction edges as [|e edges IH] using rev_ind.
  - simpl. rewrite lookup_fmap. apply elem_of_dom in Hv as [n ->]. done.
  - apply Forall_app in Hc as [Hc _]. specialize (IH Hc).
    rewrite foldl_app. simpl. rewrite filter_app, length_app, filter_cons, filter_nil.
    rewrite lookup_insert. case_decide as He; [subst|].
    + rewrite IH, decide_True by (split; [done|apply not_elem_of_nil]). simpl. f_equal. lia.
    + rewrite decide_False by naive_solver. rewrite IH. simpl. f_equal. lia.
Qed.

Lemma dom_in_degrees nodesMap edges :
  closed_edges (dom nodesMap) edges → dom (in_degrees nodesMap edges) = dom nodesMap.
Proof.
  unfold in_degrees. induction edges as [|e edges IH] using rev_ind; intros Hc.
  - simpl. by rewrite dom_fmap_L.
  - apply Forall_app in Hc as [Hc [[_ ?] _]%Forall_cons].
    rewrite foldl_app. simpl. rewrite dom_insert_L, IH by done. set_solver.
Qed.

(** Occurrences of [v] in a list. *)
Definition occ (ns : list string) (v : string) : nat := length (filter (λ x, v = x) ns).

Lemma occ_cons n ns v :
  occ (n :: ns) v = if decide (v = n) then S (occ ns v) else occ ns v.
Proof. unfold occ. rewrite filter_cons. by case_decide. Qed.

Lemma occ_pos ns v : 0 < occ ns v ↔ v ∈ ns.
Proof.
  induction ns as [|n ns IH]; [unfold occ; simpl; set_solver by lia|].
  rewrite occ_cons, elem_of_cons, <-IH. case_decide; naive_solver lia.
Qed.

(** The inner loop over the successors [ns] of the emitted node. *)
Lemma foldl_relax (deg : gmap string Z) (queue ns : list string) :
  (∀ v, v ∈ ns → is_Some (deg !! v)) →
  (∀ v d, deg !! v = Some d → (Z.of_nat (occ ns v) ≤ d)%Z) →
  ∃ deg' added,
    foldl relax (deg, queue) ns = (deg', queue ++ added) ∧
    dom deg' = dom deg ∧
    (∀ v d, deg !! v = Some d → deg' !! v = Some (d - Z.of_nat (occ ns v))%Z) ∧
    NoDup added ∧
    (∀ v, v ∈ added ↔ v ∈ ns ∧ deg !! v = Some (Z.of_nat (occ ns v))).
Proof.
  revert deg queue. induction ns as [|n ns IH]; intros deg queue Hdom Hdeg.
  { exists deg, []. split_and!; [by rewrite app_nil_r|done|..|constructor|].
    - intros v d Hd. rewrite Hd. unfold occ. simpl. f_equal. lia.
    - set_solver. }
  destruct (Hdom n) as [dn Hn]; [set_solver|].
  pose proof (Hdeg n dn Hn) as Hcn. rewrite occ_cons, decide_True in Hcn by done.
  simpl. rewrite Hn. simpl.
  set (deg1 := <[n := (dn - 1)%Z]> deg). set (q1 := if decide _ then _ else _).
  assert (∀ v, v ≠ n → deg1 !! v = deg !! v) as Hd1.
  { intros v ?. unfold deg1. by rewrite lookup_insert_ne. }
  assert (deg1 !! n = Some (dn - 1)%Z) as Hd1n by (unfold deg1; apply lookup_insert_eq).
  destruct (IH deg1 q1) as (deg' & added & Heq & Hd' & Hl & Hnd & Hin).
  { intros v Hv. destruct (decide (v = n)) as [->|]; [by rewrite Hd1n|].
    rewrite Hd1 by done. apply Hdom. set_solver. }
  { intros v d Hd. destruct (decide (v = n)) as [->|]; [simplify_eq; lia|].
    rewrite Hd1 in Hd by done. pose proof (Hdeg v d Hd) as Hc.
    by rewrite occ_cons, decide_False in Hc. }
  exists deg', (if decide (dn - 1 = 0)%Z then n :: added else added). split_and!.
  - rewrite Heq. unfold q1. case_decide; [by rewrite <-app_assoc|done].
  - rewrite Hd'. unfold deg1. rewrite dom_insert_lookup_L; eauto.
  - intros v d Hd. rewrite occ_cons. case_decide; subst.
    + rewrite (Hl n _ Hd1n). simplify_eq. f_equal. lia.
    + rewrite (Hl v d); [done|]. by rewrite Hd1.
  - case_decide as H0; [|done]. constructor; [|done].
    rewrite Hin, Hd1n. intros [Hni%occ_pos [= ?]]. lia.
  - intros v. rewrite occ_cons. destruct (decide (v = n)) as [->|Hv].
    + assert (n ∈ added ↔ n ∈ ns ∧ (dn - 1 = Z.of_nat (occ ns n))%Z) as Ha.
      { rewrite Hin, Hd1n. split; intros [? Hx]; (split; [done|]); [by injection Hx|by f_equal]. }
      rewrite <-(occ_pos ns) in Ha. rewrite Hn. case_decide as H0.
      * rewrite !elem_of_cons. split; [|by left]. intros _. split; [by left|f_equal; lia].
      * rewrite Ha, elem_of_cons. split; [intros [? ?]; split; [by left|f_equal; lia]|].
        intros [_ [= Hc]]. lia.
    + rewrite (elem_of_cons ns v n). case_decide; rewrite ?elem_of_cons, Hin, Hd1 by done;
        clear -Hv; intuition congruence.
Qed.

(** ** The loop invariant *)
Section kahn_correct.
Context (V : gset string) (edges : list EdgeConfig).
Context (Hclosed : closed_edges V edges).

(** Every node of [l] comes after all its predecessors. *)
Definition sources_first (l : list string) : Prop :=
  ∀ l1 v l2, l = l1 ++ v :: l2 → ∀ u, graph_edge edges u v → u ∈ l1.

Record kahn_inv (deg : gmap string Z) (queue ordered : list string) : Prop := {
  inv_nodup : NoDup (ordered ++ queue);
  inv_dom : dom deg = V;
  inv_deg : ∀ v, v ∈ V → deg !! v = Some (Z.of_nat (pending edges ordered v));
  inv_mem : ∀ v, v ∈ ordered ++ queue ↔ v ∈ V ∧ pending edges ordered v = 0;
  inv_sources : sources_first ordered;
}.

Lemma pending_zero done v :
  pending edges done v = 0 ↔ ∀ u, graph_edge edges u v → u ∈ done.
Proof.
  unfold pending, graph_edge. rewrite length_zero_iff_nil. split.
  - intros Hf u (e & He & <- & <-). destruct (decide (Source e ∈ done)); [done|exfalso].
    apply (not_elem_of_nil e). rewrite <-Hf. by apply list_elem_of_filter.
  - intros Hu. apply elem_of_nil_inv. intros e [[Ht Hs] He]%list_elem_of_filter.
    apply Hs, Hu. eauto.
Qed.

Lemma pending_snoc done u v :
  u ∉ done →
  pending edges done v =
    occ (Target <$> filter (λ e, Source e = u) edges) v + pending edges (done ++ [u]) v.
Proof using Type.
  intros Hu. unfold pending. clear Hclosed. induction edges as [|e es IH]; [done|].
  rewrite !filter_cons. destruct (decide (Source e = u)) as [Hs|Hs].
  - rewrite fmap_cons, occ_cons.
    rewrite (decide_False (P := _ ∧ Source e ∉ done ++ [u])) by set_solver.
    destruct (decide (Target e = v)) as [Ht|Ht].
    + rewrite (decide_True (P := v = _)) by done. rewrite decide_True by (by subst).
      simpl. by rewrite IH.
    + rewrite (decide_False (P := v = _)) by done. rewrite decide_False by naive_solver. done.
  - assert ((Target e = v ∧ Source e ∉ done) ↔ (Target e = v ∧ Source e ∉ done ++ [u])) as Hiff
      by (rewrite elem_of_app, list_elem_of_singleton; naive_solver).
    rewrite (decide_ext _ _ _ _ Hiff). case_decide; simpl; rewrite IH; lia.
Qed.

Lemma sources_first_snoc l v :
  sources_first l → (∀ u, graph_edge edges u v → u ∈ l) → sources_first (l ++ [v]).
Proof using Type.
  intros Hl Hv l1 w l2 Heq u Hu.
  destruct l2 as [|x l2 _] using rev_ind.
  - apply app_inj_tail in Heq as [<- <-]. auto.
  - rewrite app_comm_cons, app_assoc in Heq. apply app_inj_tail in Heq as [-> _].
    eapply Hl; eauto.
Qed.

Lemma inv_length deg queue ordered :
  kahn_inv deg queue ordered → length ordered + length queue ≤ size V.
Proof using Type.
  intros Hi. rewrite <-length_app, <-(size_list_to_set (C := gset string))
    by apply (inv_nodup _ _ _ Hi).
  apply subseteq_size. intros v. rewrite elem_of_list_to_set, (inv_mem _ _ _ Hi). tauto.
Qed.

Lemma kahn_step deg curr queue ordered :
  kahn_inv deg (curr :: queue) ordered →
  ∃ deg' queue',
    foldl relax (deg, queue) (default [] (adjacency edges !! curr)) = (deg', queue') ∧
    kahn_inv deg' queue' (ordered ++ [curr]).
Proof using Hclosed.
  intros [Hnd Hdom Hdeg Hmem Hsrc]. rewrite lookup_adjacency.
  set (ns := Target <$> _).
  assert (curr ∉ ordered) as Hcurr.
  { intros ?. apply NoDup_app in Hnd as (_ & Hd & _). eapply Hd; [done|by left]. }
  assert (∀ v, pending edges ordered v = occ ns v + pending edges (ordered ++ [curr]) v) as Hp
    by (intros v; by apply pending_snoc).
  assert (∀ v d, deg !! v = Some d → d = Z.of_nat (pending edges ordered v)) as Hdeg'.
  { intros v d Hd. rewrite Hdeg in Hd; [by injection Hd|]. rewrite <-Hdom. by eapply elem_of_dom_2. }
  assert (∀ v, v ∈ ns → v ∈ V) as HnsV.
  { intros v (e & -> & [_ He]%list_elem_of_filter)%list_elem_of_fmap.
    unfold closed_edges in Hclosed. rewrite Forall_forall in Hclosed. by apply Hclosed. }
  destruct (foldl_relax deg queue ns) as (deg' & added & Heq & Hd' & Hl & Hna & Hin).
  { intros v Hv. rewrite Hdeg; eauto. }
  { intros v d ->%Hdeg'. rewrite Hp. lia. }
  assert (∀ v, v ∈ added ↔ v ∈ ns ∧ pending edges (ordered ++ [curr]) v = 0) as Hadd.
  { intros v. rewrite Hin. split; intros [Hv Hx]; (split; [done|]).
    - apply Hdeg' in Hx. rewrite Hp in Hx. lia.
    - rewrite Hdeg, Hp, Hx by auto. f_equal. lia. }
  assert (∀ v, v ∈ added → v ∉ ordered ++ curr :: queue) as Hnew.
  { intros v [Hv _]%Hadd [_ H0]%Hmem. apply occ_pos in Hv. rewrite Hp in H0. lia. }
  assert (∀ v, v ∈ (ordered ++ [curr]) ++ queue ++ added ↔
            v ∈ ordered ++ curr :: queue ∨ v ∈ added) as Happ.
  { intros v. rewrite app_assoc, elem_of_app, <-(app_assoc ordered). done. }
  exists deg', (queue ++ added). split; [done|]. split.
  - rewrite app_assoc, <-(app_assoc ordered). apply NoDup_app. split_and!; [done| |done].
    intros v Hv Hv'. by apply (Hnew v).
  - congruence.
  - intros v Hv. rewrite (Hl v (Z.of_nat (pending edges ordered v))) by auto.
    rewrite Hp. f_equal. lia.
  - intros v. rewrite Happ. split.
    + intros [[? H0]%Hmem|[? ?]%Hadd]; [|by auto]. rewrite Hp in H0. split; [done|lia].
    + intros [HV H0]. destruct (decide (v ∈ ns)); [right; by apply Hadd|left].
      apply Hmem. split; [done|]. rewrite Hp, H0.
      destruct (occ ns v) eqn:E; [done|]. exfalso. assert (v ∈ ns); [|done].
      apply occ_pos. lia.
  - apply sources_first_snoc; [done|]. apply pending_zero, Hmem.
    apply elem_of_app. right. by left.
Qed.

(** Enough fuel always gives a result. *)
Lemma kahn_total fuel deg queue ordered :
  kahn_inv deg queue ordered → size V ≤ fuel + length ordered →
  ∃ deg' ordered', kahn (adjacency edges) fuel deg queue ordered = Some (deg', ordered') ∧
    kahn_inv deg' [] ordered'.
Proof using Hclosed.
  revert deg queue ordered. induction fuel as [|fuel IH]; intros deg queue ordered Hi Hf.
  - pose proof (inv_length _ _ _ Hi) as Hlen. destruct queue; [simpl; eauto|].
    simpl in *. lia.
  - destruct queue as [|curr queue]; [simpl; eauto|].
    destruct (kahn_step _ _ _ _ Hi) as (deg' & queue' & Heq & Hi').
    simpl. rewrite Heq. apply IH; [done|]. rewrite length_app. simpl. lia.
Qed.

(** A node left out by the loop has a predecessor that was left out. *)
Lemma left_out_pred deg ordered v :
  kahn_inv deg [] ordered → v ∈ V → v ∉ ordered →
  ∃ u, u ∈ V ∧ (u ∉ ordered) ∧ graph_edge edges u v.
Proof using Hclosed.
  intros Hi HV Hv. assert (¬ (∀ u, graph_edge edges u v → u ∈ ordered)) as Hn.
  { intros Hall%pending_zero. apply Hv. pose proof (inv_mem _ _ _ Hi v) as Hm.
    rewrite app_nil_r in Hm. by apply Hm. }
  destruct (decide (Exists (λ e, Target e = v ∧ Source e ∉ ordered) edges)) as [He|He].
  - apply Exists_exists in He as (e & He & <- & Hs). exists (Source e).
    unfold closed_edges in Hclosed. rewrite Forall_forall in Hclosed.
    split_and!; [by apply Hclosed|done|by exists e].
  - exfalso. apply Hn. intros u (e & He' & <- & <-).
    destruct (decide (Source e ∈ ordered)); [done|exfalso].
    apply He, Exists_exists. eauto.
Qed.

(** Hence the loop emits every node that no cycle feeds. *)
Lemma emitted deg ordered v :
  kahn_inv deg [] ordered → v ∈ V → cycle_free_above edges v → v ∈ ordered.
Proof using Hclosed.
  intros Hi HV Hac.
  set (R := λ x y, graph_edge edges y x ∧ rtc (graph_edge edges) x v ∧ y ∈ V).
  assert (sn R v) as Hsn.
  { apply tc_finite_sn.
    - intros x Hx. apply (Hac x).
      + assert (∀ x y, tc R x y → rtc (graph_edge edges) x v) as Hup; [|by eapply Hup].
        by intros ? ? [? ? (_ & ? & _)|? ? ? (_ & ? & _)].
      + assert (∀ x y, tc R x y → tc (graph_edge edges) y x) as Hrev; [|by apply Hrev].
        clear. induction 1 as [x y (He & _)|x y z (He & _) _ IH]; [by apply tc_once|].
        eapply tc_r; eauto.
    - exists (elements V). intros y Hy. apply elem_of_elements.
      assert (∀ x y, tc R x y → y ∈ V) as HR; [|by eapply HR].
      by induction 1 as [? ? (_ & _ & ?)|]. }
  assert (∀ x, sn R x → x ∈ V → rtc (graph_edge edges) x v → x ∈ ordered) as Hall;
    [|by apply Hall].
  clear Hac Hsn HV. induction 1 as [x _ IH]; intros HxV Hx.
  destruct (decide (x ∈ ordered)); [done|exfalso].
  destruct (left_out_pred _ _ _ Hi HxV) as (u & Hu & Hun & He); [done|].
  apply Hun, (IH u); [by split_and!|done|by eapply rtc_l].
Qed.
End kahn_correct.

(** ** The topological sort *)
Lemma sources_first_precedes edges l1 l2 u v :
  sources_first edges l1 → v ∈ l1 → graph_edge edges u v → precedes (l1 ++ l2) u v.
Proof.
  intros Hs (la & lb & ->)%list_elem_of_split He.
  pose proof (Hs la v lb eq_refl u He) as (i & Hi)%list_elem_of_lookup.
  exists i, (length la). split_and!.
  - rewrite <-app_assoc, lookup_app_l; [done|]. by eapply lookup_lt_Some.
  - rewrite <-app_assoc. by apply list_lookup_middle.
  - by eapply lookup_lt_Some.
Qed.

Lemma kahn_inv_init edges (nodesMap : gmap string NodeConfig) (o : iter_order string Z) :
  closed_edges (dom nodesMap) edges →
  let deg := in_degrees nodesMap edges in
  kahn_inv (dom nodesMap) edges deg (filter (λ kv, kv.2 = 0%Z) (range_map o deg)).*1 [].
Proof.
  intros Hc deg. split; [..|by intros [] ? ? ?]; simpl.
  - eapply sublist_NoDup; [apply (NoDup_fst_range_map o deg)|apply fmap_sublist, sublist_filter].
  - by apply dom_in_degrees.
  - intros. by apply lookup_in_degrees.
  - intros v. rewrite list_elem_of_fmap. split.
    + intros ([k d] & -> & [Hd Hin]%list_elem_of_filter). simpl in *. subst d.
      apply elem_of_range_map in Hin. assert (k ∈ dom nodesMap) as HV.
      { rewrite <-(dom_in_degrees nodesMap edges) by done. by eapply elem_of_dom_2. }
      split; [done|]. unfold deg in Hin. rewrite lookup_in_degrees in Hin by done.
      injection Hin. lia.
    + intros [HV H0]. exists (v, 0%Z). split; [done|]. apply list_elem_of_filter.
      split; [done|]. apply elem_of_range_map. unfold deg.
      by rewrite lookup_in_degrees, H0.
Qed.

Definition nodes_map (nodes : list NodeConfig) : gmap string NodeConfig :=
  list_to_map ((λ n, (ID n, n)) <$> nodes).

Lemma elem_of_left_over edges V (o : iter_order string Z) deg ordered v :
  kahn_inv V edges deg [] ordered →
  v ∈ (filter (λ kv, 0 < kv.2)%Z (range_map o deg)).*1 ↔ v ∈ V ∧ v ∉ ordered.
Proof.
  intros Hi. pose proof (inv_mem _ _ _ _ _ Hi v) as Hm. rewrite app_nil_r in Hm.
  rewrite Hm, list_elem_of_fmap. split.
  - intros ([k d] & -> & [Hd Hin%elem_of_range_map]%list_elem_of_filter). simpl in *.
    assert (k ∈ V) as HV by (rewrite <-(inv_dom _ _ _ _ _ Hi); by eapply elem_of_dom_2).
    split; [done|]. rewrite (inv_deg _ _ _ _ _ Hi) in Hin by done. injection Hin. lia.
  - intros [HV Hn]. eexists (v, _). split; [done|]. apply list_elem_of_filter.
    rewrite elem_of_range_map, (inv_deg _ _ _ _ _ Hi) by done. split; [|done].
    simpl. destruct (pending edges ordered v); [naive_solver|lia].
Qed.

Lemma lookup_nodes_map nodes ids :
  NoDup (ID <$> nodes) → ids ≡ₚ ID <$> nodes →
  (λ id, default zero_node (nodes_map nodes !! id)) <$> ids ≡ₚ nodes ∧
  ID <$> ((λ id, default zero_node (nodes_map nodes !! id)) <$> ids) = ids.
Proof.
  intros Hnd Hp. assert (∀ n, n ∈ nodes → default zero_node (nodes_map nodes !! ID n) = n) as Hl.
  { intros n Hn. unfold nodes_map. by rewrite nodesMap_lookup. }
  split.
  - rewrite Hp, <-list_fmap_compose. apply Permutation_refl'.
    rewrite <-(list_fmap_id nodes) at 2. apply list_fmap_ext. intros i n Hn. simpl.
    apply Hl. by eapply list_elem_of_lookup_2.
  - rewrite <-list_fmap_compose. rewrite <-(list_fmap_id ids) at 2. apply list_fmap_ext.
    intros i id Hid. simpl. assert (id ∈ ID <$> nodes) as (n & -> & Hn)%list_elem_of_fmap.
    { rewrite <-Hp. by eapply list_elem_of_lookup_2. }
    by rewrite Hl.
Qed.

Lemma sort_ok o1 o2 config :
  NoDup (ID <$> Nodes config) →
  closed_edges (dom (nodes_map (Nodes config))) (Edges config) →
  ∃ nodes, sortNodesTopologically o1 o2 config (nodes_map (Nodes config)) = Some nodes ∧
    nodes ≡ₚ Nodes config ∧
    (∀ u v, graph_edge (Edges config) u v → cycle_free_above (Edges config) v →
      precedes (ID <$> nodes) u v).
Proof.
  intros Hnd Hc. unfold sortNodesTopologically. set (M := nodes_map (Nodes config)) in *.
  assert (∀ v, v ∈ dom M ↔ v ∈ ID <$> Nodes config) as HM.
  { intros v. by rewrite elem_of_dom, <-nodesMap_dom. }
  edestruct (kahn_total (dom M) (Edges config) Hc
    (size (in_degrees M (Edges config)))) as (deg & ordered & -> & Hi).
  { by apply kahn_inv_init. }
  { rewrite <-size_dom, dom_in_degrees by done. lia. }
  set (rest := (filter _ (range_map o2 deg)).*1).
  assert (∀ v, v ∈ rest ↔ v ∈ dom M ∧ v ∉ ordered) as Hrest
    by (intros v; by eapply elem_of_left_over).
  pose proof (inv_nodup _ _ _ _ _ Hi) as Hno. rewrite app_nil_r in Hno.
  pose proof (inv_mem _ _ _ _ _ Hi) as Hmem. setoid_rewrite app_nil_r in Hmem.
  assert (ordered ++ rest ≡ₚ ID <$> Nodes config) as Hperm.
  { apply NoDup_Permutation; [|done|].
    - apply NoDup_app. split_and!; [done|by intros v ? [_ ?]%Hrest|].
      eapply sublist_NoDup; [apply (NoDup_fst_range_map o2 deg)|apply fmap_sublist, sublist_filter].
    - intros v. rewrite elem_of_app, Hrest, <-HM. destruct (decide (v ∈ ordered)) as [Hv|];
        [|tauto]. apply Hmem in Hv as Hv'. tauto. }
  set (ids := if decide _ then _ else _).
  assert (ids = ordered ++ rest) as ->.
  { unfold ids. case_decide as Hd; [done|].
    apply Permutation_length in Hperm. rewrite length_app, length_fmap in Hperm.
    destruct rest; [by rewrite app_nil_r|simpl in Hperm; lia]. }
  destruct (lookup_nodes_map (Nodes config) (ordered ++ rest) Hnd Hperm) as [Hp Hid].
  eexists. split; [done|]. split; [done|]. fold M in Hid. rewrite Hid.
  intros u v He Hac. eapply sources_first_precedes; [apply (inv_sources _ _ _ _ _ Hi)| |done].
  eapply emitted; [done..| |done]. destruct He as (e & He & _ & <-).
  unfold closed_edges in Hc. rewrite Forall_forall in Hc. by apply Hc.
Qed.

(** ** BuildGraph *)
Lemma legal_closed {P} nodes (builders : gmap string (PluginBuilder P)) edges :
  Forall (edge_legal (ID <$> nodes) builders) edges → closed_edges (dom (nodes_map nodes)) edges.
Proof.
  intros Hall. eapply Forall_impl; [exact Hall|]. intros e (_ & Hs & Ht & _). unfold nodes_map.
  by rewrite !elem_of_dom, !nodesMap_dom.
Qed.

(** Everything [BuildGraph] does on a legal workflow, and that it does nothing else. *)
Lemma BuildGraph_ok {P} o1 o2 config (builders : gmap string (PluginBuilder P)) g :
  BuildGraph o1 o2 config builders = Ok g ↔
  workflow_legal config builders ∧
  ∃ nodes, sortNodesTopologically o1 o2 config (nodes_map (Nodes config)) = Some nodes ∧
    g = mkGraph config nodes.
Proof.
  unfold BuildGraph, workflow_legal. rewrite <-checks_ok. fold (nodes_map (Nodes config)).
  case_decide as Hh; [split; [done|naive_solver]|].
  rewrite rbind_ok. setoid_rewrite parseNodes_ok. split.
  - intros (m & (Hnd & Hb & ->) & Hg). fold (nodes_map (Nodes config)) in Hg.
    case_decide as Hhd; [done|]. apply not_eq_None_Some, nodesMap_dom in Hhd.
    inv_ok. destruct x, x0. case_match; [|done]. simplify_eq. split_and!; eauto.
  - intros ((Hnd & Hb & _ & Hhd & H1 & H2) & nodes & Hs & ->).
    exists (nodes_map (Nodes config)). split; [done|].
    rewrite decide_False by (by apply not_eq_None_Some, nodesMap_dom).
    by rewrite H1, H2; simpl; rewrite Hs.
Qed.

(** What [BuildGraph] accepts, whatever the iteration orders of its maps. *)
Lemma BuildGraph_exact {P} o1 o2 config (builders : gmap string (PluginBuilder P)) :
  ((∃ g, BuildGraph o1 o2 config builders = Ok g) ↔ workflow_legal config builders) ∧
  BuildGraph o1 o2 config builders ≠ Err SortDiverges.
Proof.
  assert (workflow_legal config builders → ∃ g, BuildGraph o1 o2 config builders = Ok g) as Hc.
  { intros Hl. setoid_rewrite BuildGraph_ok.
    destruct (sort_ok o1 o2 config) as (nodes & Hs & _);
      [apply Hl|eapply legal_closed, Hl|eauto]. }
  split; [split; [intros [g [? _]%BuildGraph_ok]; done|done]|].
  intros Hd. assert (workflow_legal config builders → False) as Hn.
  { intros [g Hg]%Hc. congruence. }
  revert Hd. unfold BuildGraph. case_decide as Hh; [done|].
  intros [Hp|(m & Hp & Hd)]%rbind_err.
  { unfold parseNodes in Hp. revert Hp. generalize (∅ : gmap string NodeConfig).
    induction (Nodes config) as [|n ns IH]; intros m0; [done|].
    simpl. intros [?|(? & _ & ?)]%rbind_err; [by split_matches|by eapply IH]. }
  apply parseNodes_ok in Hp as (Hnd & Hb & ->). fold (nodes_map (Nodes config)) in Hd.
  case_decide as Hhd; [done|]. apply not_eq_None_Some, nodesMap_dom in Hhd.
  apply rbind_err in Hd as [Hd|([] & Hl & Hd)].
  { revert Hd. unfold checkSelfLoops. induction (Edges config) as [|e es IH]; [done|].
    simpl. intros [?|(? & _ & ?)]%rbind_err; [by case_decide|auto]. }
  apply rbind_err in Hd as [Hd|([] & He & Hd)].
  { revert Hd. unfold validateEdgeContracts. clear. induction (Edges config) as [|e es IH]; [done|].
    simpl. intros [Hv|(? & _ & ?)]%rbind_err; [|auto].
    revert Hv. unfold validateEdge. repeat case_decide; [done..|].
    intros [?|(? & _ & Hc)]%rbind_err; [by destruct (EType e)|].
    by destruct (ValidateProperties _ _ _). }
  apply Hn. split_and!; [done..|]. apply checks_ok. done.
Qed.

(** ** The documented rules *)

(** docs/guides/workflow.md, section 2: the kinds of edges. *)
Inductive kind_prefix : EventType → string → Prop :=
| kind_signal : kind_prefix EventSignal PrefixSignal
| kind_payload : kind_prefix EventPayload PrefixPayload
| kind_audio : kind_prefix EventAudio PrefixAudio.

(** Section 4 and the comment of [ValidateProperties]: both ends declare
    properties of the kind, some output is recognized by an input, and every
    recognized one provides what the input requires. *)
Definition documented_contract (ups downs : list Property) (prefix : string) : Prop :=
  let ups' := filter (λ p, Prefix p = prefix) ups in
  let downs' := filter (λ p, Prefix p = prefix) downs in
  downs' ≠ [] ∧ ups' ≠ [] ∧ (∃ up, up ∈ ups' ∧ is_Some (recognizer downs' up)) ∧
  ∀ up d, up ∈ ups' → recognizer downs' up = Some d → satisfies up d.

Definition edge_documented {P} (ids : list string) (builders : gmap string (PluginBuilder P))
    (e : EdgeConfig) : Prop :=
  Source e ≠ Target e ∧ Source e ∈ ids ∧ Target e ∈ ids ∧
  (EType e = EventVideo ∨
   ∃ prefix, kind_prefix (EType e) prefix ∧
     documented_contract (outputs_of builders (Source e)) (inputs_of builders (Target e)) prefix).

Definition workflow_documented {P} (config : WorkflowConfig)
    (builders : gmap string (PluginBuilder P)) : Prop :=
  NoDup (ID <$> Nodes config) ∧
  (∀ n, n ∈ Nodes config → is_Some (builders !! ID n)) ∧
  Head config ≠ "" ∧ Head config ∈ ID <$> Nodes config ∧
  Forall (edge_documented (ID <$> Nodes config) builders) (Edges config).

(** The target declares an input of the kind of the edge. *)
Definition target_declares {P} (builders : gmap string (PluginBuilder P)) (e : EdgeConfig) : Prop :=
  ∀ prefix, kind_prefix (EType e) prefix → ∃ d, d ∈ inputs_of builders (Target e) ∧ Prefix d = prefix.

Lemma kind_prefix_edge t prefix : kind_prefix t prefix ↔ edge_prefix t = Ok prefix.
Proof.
  split; [by destruct 1|]. destruct t; intros [= <-]; constructor.
Qed.

Lemma documented_legal {P} ids (builders : gmap string (PluginBuilder P)) e :
  EType e ≠ EventVideo → edge_documented ids builders e → edge_legal ids builders e.
Proof.
  intros Hv (H1 & H2 & H3 & [?|(prefix & Hk & _ & _ & H4 & H5)]); [done|].
  split_and!; [done..|]. exists prefix. split; [by apply kind_prefix_edge|]. right. done.
Qed.

Lemma legal_documented {P} ids (builders : gmap string (PluginBuilder P)) e :
  target_declares builders e → edge_legal ids builders e → edge_documented ids builders e.
Proof.
  intros Ht (H1 & H2 & H3 & prefix & Hk%kind_prefix_edge & Hc). split_and!; [done..|]. right.
  exists prefix. split; [done|]. destruct (Ht prefix Hk) as (d & Hd & Hp).
  assert (d ∈ filter (λ p, Prefix p = prefix) (inputs_of builders (Target e))) as Hin
    by (by apply list_elem_of_filter).
  destruct Hc as [Hn|[(up & Hu & Hr) Hs]]; [rewrite Hn in Hin; by apply elem_of_nil in Hin|].
  split_and!; [by intros Hn; rewrite Hn in Hin; apply elem_of_nil in Hin
              |by intros Hn; rewrite Hn in Hu; apply elem_of_nil in Hu|eauto|done].
Qed.

(** C6: [BuildGraph] decides the documented rules for workflows, whatever the
    iteration orders of its maps, and its sort never fails to finish.  A
    workflow without video edges that follows the rules is accepted; an
    accepted workflow follows the rules, except that an edge may lead to a
    node that declares no input of the edge's kind; and no workflow with a
    video edge is accepted. *)
Theorem BuildGraph_accepts {P} o1 o2 config (builders : gmap string (PluginBuilder P)) :
  (workflow_documented config builders → (∀ e, e ∈ Edges config → EType e ≠ EventVideo) →
     ∃ g, BuildGraph o1 o2 config builders = Ok g) ∧
  ((∃ g, BuildGraph o1 o2 config builders = Ok g) →
     (∀ e, e ∈ Edges config → target_declares builders e) → workflow_documented config builders) ∧
  ((∃ g, BuildGraph o1 o2 config builders = Ok g) → ∀ e, e ∈ Edges config → EType e ≠ EventVideo) ∧
  BuildGraph o1 o2 config builders ≠ Err SortDiverges.
Proof.
  destruct (BuildGraph_exact o1 o2 config builders) as [Hx Hd]. split; [|split; [|split; [|done]]].
  - intros (H1 & H2 & H3 & H4 & H5) Hv. apply Hx. split_and!; [done..|].
    rewrite Forall_forall in H5 |- *. eauto using documented_legal.
  - intros (H1 & H2 & H3 & H4 & H5)%Hx Ht. split_and!; [done..|].
    rewrite Forall_forall in H5 |- *. eauto using legal_documented.
  - intros (_ & _ & _ & _ & H5)%Hx e He Hv. rewrite Forall_forall in H5.
    destruct (H5 e He) as (_ & _ & _ & prefix & Hp & _). by rewrite Hv in Hp.
Qed.

(** C3: A graph built from a workflow lists each of its nodes exactly once;
    a node that no cycle leads to comes after the sources of all its edges,
    so an acyclic workflow is sorted topologically. *)
Theorem BuildGraph_topological {P} o1 o2 config (builders : gmap string (PluginBuilder P)) g :
  BuildGraph o1 o2 config builders = Ok g →
  GConfig g = config ∧ OrderedNodes g ≡ₚ Nodes config ∧
  ∀ u v, graph_edge (Edges config) u v → cycle_free_above (Edges config) v →
    precedes (ID <$> OrderedNodes g) u v.
Proof.
  intros [Hl (nodes & Hs & ->)]%BuildGraph_ok. split; [done|].
  destruct (sort_ok o1 o2 config) as (nodes' & Hs' & Hr); [apply Hl|eapply legal_closed, Hl|].
  by simplify_eq.
Qed.

(** A diamond with a cycle hanging off it: [a → b → c → d], [a → c], [d → e], [e → d]. *)
Definition sample_node (id : string) : NodeConfig := mkNode id id "" "p" "" None.
Definition sample_edge (u v : string) : EdgeConfig := mkEdge u 0 v EventSignal.
Definition sample_workflow : WorkflowConfig :=
  mkWorkflow "w" "sample" "1" "a" (sample_node <$> ["e"; "d"; "c"; "b"; "a"])
    [sample_edge "a" "c"; sample_edge "a" "b"; sample_edge "b" "c";
     sample_edge "c" "d"; sample_edge "d" "e"; sample_edge "e" "d"] "" 0.
Definition sample_builders : gmap string (PluginBuilder unit) :=
  list_to_map ((λ id, (id, mkBuilder (mkMeta "p" "" [] [] []) (λ _, Ok tt))) <$>
    ["a"; "b"; "c"; "d"; "e"]).

Lemma BuildGraph_topological_witness :
  ∃ g, BuildGraph default_order default_order sample_workflow sample_builders = Ok g ∧
    OrderedNodes g ≡ₚ Nodes sample_workflow.
Proof.
  eexists. split; [vm_compute; reflexivity|].
  apply (BuildGraph_topological default_order default_order sample_workflow sample_builders).
  vm_compute; reflexivity.
Defined.

(** Nodes that speak and hear one signal, and the workflow of the document. *)
Definition spoken : Property := mkProperty PrefixSignal "hello" [].
Definition talking_builders : gmap string (PluginBuilder unit) :=
  list_to_map ((λ id, (id, mkBuilder (mkMeta "p" "" [spoken] [spoken] []) (λ _, Ok tt))) <$>
    ["a"; "b"; "c"; "d"; "e"]).

Lemma BuildGraph_accepts_witness :
  (∃ g, BuildGraph default_order default_order sample_workflow talking_builders = Ok g) ∧
  workflow_documented sample_workflow talking_builders.
Proof.
  destruct (BuildGraph_accepts default_order default_order sample_workflow talking_builders)
    as (_ & Hdoc & _ & _).
  assert (∃ g, BuildGraph default_order default_order sample_workflow talking_builders = Ok g) as Hg
    by (eexists; vm_compute; reflexivity).
  split; [exact Hg|]. apply Hdoc; [exact Hg|].
  intros e He prefix Hk. exists spoken. cbn in He.
  repeat (apply elem_of_cons in He as [->|He]; [inversion Hk; split; [vm_compute; left|reflexivity]|]).
  by apply elem_of_nil in He.
Defined.
