(* ===== verification/Registry.v ===== *)
(** * Plugin registry ([internal/engine/resource.go], [store.go])

    A [PluginResource] maps the names of one namespace to builders; the
    [PluginStore] maps namespaces to resources.  A resource is shared by
    pointer: a builder registered after its resource was added to the store
    is visible through the store, so resources live in a heap. *)

From S2P Require Import Prelude GoStrings Property EngineTypes Graph.

Inductive plugin_error :=
| PluginInvalid (what : string)
| PluginInvalidPort (e : port_error)
| PluginDuplicate (what : string)
| PluginNotFound (what : string)
| PluginAmbiguous (name ns1 ns2 : string)
| BuilderLoadFailed (plugin ns : string) (e : plugin_error).

Definition LocalNamespace : string := "local".

Record PluginResource (P : Type) := mkResource {
  namespace : string;
  builders : gmap string (PluginBuilder P);
}.
Arguments mkResource {P} _ _.
Arguments namespace {P} _.
Arguments builders {P} _.

Section resource.
Context {P : Type}.
Implicit Types (r : PluginResource P) (b : PluginBuilder P).

Definition Builder_Name b : string := MName (meta b).
Definition Builder_Ports b : list PortMetadata := Ports (meta b).

Definition NewPluginResource (ns : string) : PluginResource P := mkResource ns ∅.

Definition RegisterBuilder r (builder : option (PluginBuilder P))
    : result plugin_error (PluginResource P) :=
  match builder with
  | None => Err (PluginInvalid "builder is nil")
  | Some b =>
    if decide (Builder_Name b = "") then Err (PluginInvalid "builder name is empty")
    else
      let? _ := rmap_err PluginInvalidPort (range_check Port_Validate (Builder_Ports b)) in
      match builders r !! Builder_Name b with
      | Some _ => Err (PluginDuplicate (Builder_Name b))
      | None => Ok (mkResource (namespace r) (<[Builder_Name b := b]> (builders r)))
      end
  end.

Definition LoadBuilder r (name : string) : option (PluginBuilder P) := builders r !! name.

(** Indexing a map with a key read from it. *)
Definition lookup_all {V} (m : gmap string V) (ks : list string) : list V :=
  omap (λ k, m !! k) ks.

Definition ListBuilders (o : iter_order string (PluginBuilder P)) r : list (PluginBuilder P) :=
  lookup_all (builders r) (sort_Strings (range_map o (builders r)).*1).

(** Every builder is registered under its own, non-empty name and has legal ports. *)
Definition resource_wf r : Prop :=
  map_Forall (λ name b, Builder_Name b = name ∧ name ≠ "" ∧
    Forall (λ p, 0 < Port p < MaxPortCount)%Z (Builder_Ports b)) (builders r).
End resource.

(** ** store.go *)
Record PluginStore := mkStore { resources : gmap string nat }.

(** The store together with the heap its resource pointers point into. *)
Record registry (P : Type) := mkRegistry {
  heap : gmap nat (PluginResource P);
  store : PluginStore;
}.
Arguments mkRegistry {P} _ _.
Arguments heap {P} _.
Arguments store {P} _.

Section store.
Context {P : Type}.
Implicit Types (g : registry P).

Definition resource_at (h : gmap nat (PluginResource P)) (l : nat) : PluginResource P :=
  default (NewPluginResource "") (h !! l).

Definition NewPluginStore (h : gmap nat (PluginResource P)) (rs : list (option nat)) : PluginStore :=
  mkStore (foldl (λ m r,
    match r with
    | None => m
    | Some l =>
      if decide (namespace (resource_at h l) = "") then m
      else <[namespace (resource_at h l) := l]> m
    end) ∅ rs).

Definition AddResource g (resource : option nat) : result plugin_error (registry P) :=
  match resource with
  | None => Err (PluginInvalid "resource is nil")
  | Some l =>
    let ns := namespace (resource_at (heap g) l) in
    if decide (ns = "") then Err (PluginInvalid "resource namespace is empty")
    else match resources (store g) !! ns with
    | Some _ => Err (PluginDuplicate ns)
    | None => Ok (mkRegistry (heap g) (mkStore (<[ns := l]> (resources (store g)))))
    end
  end.

Definition RemoveResource g (ns : string) : registry P :=
  if decide (is_blank ns = true ∨ ns = LocalNamespace) then g
  else mkRegistry (heap g) (mkStore (delete ns (resources (store g)))).

(** The loop over all resources when no namespace is given; [matched] is the
    descriptor found so far. *)
Fixpoint match_resources (h : gmap nat (PluginResource P)) (name : string)
    (matched : option (string * PluginBuilder P)) (rs : list (string * nat))
    : result plugin_error (PluginBuilder P) :=
  match rs with
  | [] =>
    match matched with
    | None => Err (PluginNotFound name)
    | Some (_, b) => Ok b
    end
  | (ns, l) :: rs =>
    match LoadBuilder (resource_at h l) name with
    | None => match_resources h name matched rs
    | Some b =>
      match matched with
      | Some (ns0, _) => Err (PluginAmbiguous name ns0 ns)
      | None => match_resources h name (Some (ns, b)) rs
      end
    end
  end.

(** [PluginStore.LoadBuilder]. *)
Definition Store_LoadBuilder (o : iter_order string nat) g (ns name : string)
    : result plugin_error (PluginBuilder P) :=
  if decide (name = "") then Err (PluginInvalid "name is empty")
  else if decide (ns ≠ "") then
    match resources (store g) !! ns with
    | None => Err (PluginNotFound ns)
    | Some l =>
      match LoadBuilder (resource_at (heap g) l) name with
      | None => Err (PluginNotFound name)
      | Some b => Ok b
      end
    end
  else match_resources (heap g) name None (range_map o (resources (store g))).

Definition ListPluginResources (o : iter_order string nat) g : list nat :=
  lookup_all (resources (store g)) (sort_Strings (range_map o (resources (store g))).*1).

Definition PluginDescriptor : Type := string * PluginBuilder P.

(** [!less(b, a)] for the comparison function of [sort.SliceStable]. *)
Definition desc_le (a b : PluginDescriptor) : Prop :=
  if decide (a.1 = b.1) then String.le (Builder_Name a.2) (Builder_Name b.2)
  else String.le a.1 b.1.

#[export] Instance desc_le_dec : RelDecision desc_le.
Proof. intros a b. unfold desc_le. destruct (decide _); apply _. Defined.

Definition ListPluginBuilders (o : iter_order string nat)
    (o' : iter_order string (PluginBuilder P)) g : list PluginDescriptor :=
  merge_sort desc_le
    (ListPluginResources o g ≫= λ l,
      let r := resource_at (heap g) l in
      (λ b, (namespace r, b)) <$> ListBuilders o' r).

(** ** graph.go: ResolvePluginBuilders *)
Definition ResolvePluginBuilders (o : iter_order string nat) (g : option (registry P))
    (configs : list NodeConfig) : result plugin_error (gmap string (PluginBuilder P)) :=
  match g with
  | None => Err (PluginInvalid "plugin store is nil")
  | Some g =>
    range_fold (λ m nodeCfg,
      let? b := rmap_err (BuilderLoadFailed (Plugin nodeCfg) (Namespace nodeCfg))
                  (Store_LoadBuilder o g (Namespace nodeCfg) (Plugin nodeCfg)) in
      Ok (<[ID nodeCfg := b]> m)) ∅ configs
  end.

(** ** The operations as steps *)
Inductive registry_step : registry P → registry P → Prop :=
| step_new g l ns :
    heap g !! l = None →
    registry_step g (mkRegistry (<[l := NewPluginResource ns]> (heap g)) (store g))
| step_register g l r r' b :
    heap g !! l = Some r → RegisterBuilder r b = Ok r' →
    registry_step g (mkRegistry (<[l := r']> (heap g)) (store g))
| step_add g g' l :
    (∀ l', l = Some l' → is_Some (heap g !! l')) →
    AddResource g l = Ok g' → registry_step g g'
| step_remove g ns : registry_step g (RemoveResource g ns).

Record registry_wf g : Prop := {
  wf_resources : map_Forall (λ _ r, resource_wf r) (heap g);
  wf_store : map_Forall (λ ns l, ns ≠ "" ∧
    ∃ r, heap g !! l = Some r ∧ namespace r = ns) (resources (store g));
}.

(** What a lookup without a namespace has to find. *)
Definition provides g (ns name : string) (b : PluginBuilder P) : Prop :=
  ∃ l r, resources (store g) !! ns = Some l ∧ heap g !! l = Some r ∧ builders r !! name = Some b.

Lemma RegisterBuilder_ok (r r' : PluginResource P) builder :
  RegisterBuilder r builder = Ok r' ↔
  ∃ b, builder = Some b ∧ Builder_Name b ≠ "" ∧
    Forall (λ p, 0 < Port p < MaxPortCount)%Z (Builder_Ports b) ∧
    builders r !! Builder_Name b = None ∧
    r' = mkResource (namespace r) (<[Builder_Name b := b]> (builders r)).
Proof.
  unfold RegisterBuilder. destruct builder as [b|]; [|naive_solver].
  case_decide as Hn; [naive_solver|].
  assert (range_check Port_Validate (Builder_Ports b) = Ok tt ↔
    Forall (λ p, 0 < Port p < MaxPortCount)%Z (Builder_Ports b)) as Hports.
  { rewrite range_check_ok. apply Forall_iff. intros p. apply Port_Validate_ok. }
  rewrite rbind_ok. setoid_rewrite rmap_err_ok. split.
  - intros ([] & Hp & Hl). case_match eqn:E; [done|]. exists b. naive_solver.
  - intros (b' & [= <-] & _ & Hp%Hports & Hl & ->). exists tt. by rewrite Hl.
Qed.

Lemma registry_step_wf g g' : registry_wf g → registry_step g g' → registry_wf g'.
Proof.
  intros Hwf Hst. revert Hwf.
  destruct Hst as [g0 l ns Hl|g0 l r r' b Hl Hb|g0 g1 l Hex Ha|g0 ns]; intros [Hr Hs]; simpl in *.
  - split; simpl.
    + apply map_Forall_insert_2; [|done]. apply map_Forall_empty.
    + intros ns' l' H'. destruct (Hs ns' l' H') as (? & r & Hr' & ?). split; [done|].
      exists r. rewrite lookup_insert_ne; [done|]. congruence.
  - apply RegisterBuilder_ok in Hb as (b' & -> & Hn & Hp & Hf & ->). split; simpl.
    + apply map_Forall_insert_2; [|done]. apply map_Forall_insert_2; [by split_and!|]. by eapply Hr.
    + intros ns' l' H'. destruct (Hs ns' l' H') as (? & r' & Hr' & <-). split; [done|].
      destruct (decide (l' = l)) as [->|]; [|rewrite lookup_insert_ne by done; eauto].
      rewrite lookup_insert_eq. simplify_eq. eauto.
  - unfold AddResource in Ha. destruct l as [l|]; [|done]. case_decide as Hns; [done|].
    case_match; [done|]. simplify_eq. split; [done|]. simpl.
    apply map_Forall_insert_2; [|done]. split; [done|].
    destruct (Hex l) as [r Hl]; [done|]. exists r. unfold resource_at. by rewrite Hl.
  - unfold RemoveResource. case_decide; [done|]. split; [done|]. simpl.
    intros ns' l [_ H']%lookup_delete_Some. by apply Hs.
Qed.

Definition empty_registry : registry P := mkRegistry ∅ (mkStore ∅).

Lemma reachable_wf g : rtc registry_step empty_registry g → registry_wf g.
Proof.
  intros Hg. eapply rtc_invariant; [apply registry_step_wf|exact Hg|]. by split.
Qed.

Lemma provides_at g ns l name b :
  registry_wf g → resources (store g) !! ns = Some l →
  LoadBuilder (resource_at (heap g) l) name = Some b ↔ provides g ns name b.
Proof.
  intros Hwf Hl. destruct (wf_store _ Hwf ns l Hl) as (_ & r & Hr & _).
  unfold resource_at, LoadBuilder, provides. rewrite Hr. simpl. split; [eauto|].
  intros (l' & r' & ? & ? & ?). by simplify_eq.
Qed.

(** The candidates of a lookup, in iteration order. *)
Definition candidates (h : gmap nat (PluginResource P)) (name : string)
    (rs : list (string * nat)) : list (string * PluginBuilder P) :=
  omap (λ nl, (pair nl.1) <$> LoadBuilder (resource_at h nl.2) name) rs.

Lemma match_resources_candidates h name matched rs :
  match_resources h name matched rs =
  match option_list matched ++ candidates h name rs with
  | [] => Err (PluginNotFound name)
  | [(_, b)] => Ok b
  | (ns1, _) :: (ns2, _) :: _ => Err (PluginAmbiguous name ns1 ns2)
  end.
Proof.
  revert matched. induction rs as [|[ns l] rs IH]; intros matched; simpl.
  { by destruct matched as [[]|]. }
  destruct (LoadBuilder _ _) as [b|]; simpl; [|apply IH].
  destruct matched as [[ns0 b0]|]; simpl; [done|]. by rewrite IH.
Qed.

Lemma elem_of_candidates o g name ns b :
  registry_wf g →
  (ns, b) ∈ candidates (heap g) name (range_map o (resources (store g))) ↔ provides g ns name b.
Proof.
  intros Hwf. unfold candidates. rewrite list_elem_of_omap. split.
  - intros ([ns' l] & Hin%elem_of_range_map & (b' & Hb & [= -> ->])%fmap_Some).
    by eapply provides_at.
  - intros Hp. pose proof Hp as (l & r & Hl & _). exists (ns, l).
    rewrite elem_of_range_map. split; [done|]. apply fmap_Some. exists b. split; [|done].
    by eapply provides_at.
Qed.

Lemma NoDup_candidates o g name :
  NoDup (candidates (heap g) name (range_map o (resources (store g)))).*1.
Proof.
  unfold candidates. pose proof (NoDup_fst_range_map o (resources (store g))) as Hnd.
  induction (range_map o (resources (store g))) as [|[ns l] rs IH]; [constructor|].
  simpl in *. apply NoDup_cons in Hnd as [Hni Hnd]. destruct (LoadBuilder _ _); simpl; [|auto].
  constructor; [|auto]. intros ([ns' b'] & -> & ([ns2 l2] & Hin & Hb)%list_elem_of_omap)%list_elem_of_fmap.
  apply fmap_Some in Hb as (? & _ & [= -> _]). apply Hni. simpl.
  apply list_elem_of_fmap. by exists (ns2, l2).
Qed.

Lemma provides_unique g ns name b b' :
  provides g ns name b → provides g ns name b' → b = b'.
Proof. intros (? & ? & ? & ? & ?) (? & ? & ? & ? & ?). by simplify_eq. Qed.

(** ** Listings *)
Lemma elem_of_lookup_all {V} (m : gmap string V) ks v :
  v ∈ lookup_all m ks ↔ ∃ k, k ∈ ks ∧ m !! k = Some v.
Proof. apply list_elem_of_omap. Qed.

Lemma elem_of_ListBuilders o (r : PluginResource P) b :
  b ∈ ListBuilders o r ↔ ∃ name, builders r !! name = Some b.
Proof.
  unfold ListBuilders. rewrite elem_of_lookup_all. setoid_rewrite sort_Strings_perm. split.
  - naive_solver.
  - intros [k Hk]. exists k. split; [|done]. apply list_elem_of_fmap. exists (k, b).
    by rewrite elem_of_range_map.
Qed.

Lemma elem_of_ListPluginResources o g l :
  l ∈ ListPluginResources o g ↔ ∃ ns, resources (store g) !! ns = Some l.
Proof.
  unfold ListPluginResources. rewrite elem_of_lookup_all. setoid_rewrite sort_Strings_perm. split.
  - naive_solver.
  - intros [k Hk]. exists k. split; [|done]. apply list_elem_of_fmap. exists (k, l).
    by rewrite elem_of_range_map.
Qed.

#[export] Instance desc_le_total : Total desc_le.
Proof.
  intros a b. unfold desc_le. repeat case_decide; try congruence; apply (total String.le).
Qed.

#[export] Instance desc_le_trans : Transitive desc_le.
Proof.
  intros a b c. unfold desc_le.
  destruct (decide (a.1 = b.1)) as [E1|N1], (decide (b.1 = c.1)) as [E2|N2],
    (decide (a.1 = c.1)) as [E3|N3]; try congruence; intros L1 L2.
  all: try solve [etrans; eassumption|congruence].
  exfalso. apply N1, (anti_symm String.le); congruence.
Qed.

(** The builders of the store, with their namespaces. *)
Lemma elem_of_ListPluginBuilders o o' g ns b :
  registry_wf g →
  (ns, b) ∈ ListPluginBuilders o o' g ↔ provides g ns (Builder_Name b) b.
Proof.
  intros Hwf. unfold ListPluginBuilders. rewrite merge_sort_Permutation, list_elem_of_bind. split.
  - intros (l & Hin & [ns' Hl]%elem_of_ListPluginResources).
    destruct (wf_store _ Hwf _ _ Hl) as (_ & r & Hr & <-). unfold resource_at in Hin.
    rewrite Hr in Hin. simpl in Hin.
    apply list_elem_of_fmap in Hin as (b' & [= -> ->] & [name Hb]%elem_of_ListBuilders).
    exists l, r. split_and!; [done..|]. by destruct (wf_resources _ Hwf _ _ Hr name b' Hb) as [-> _].
  - intros (l & r & Hl & Hr & Hb). exists l. rewrite elem_of_ListPluginResources.
    split; [|eauto]. destruct (wf_store _ Hwf _ _ Hl) as (_ & r' & Hr' & <-). simplify_eq.
    unfold resource_at. rewrite Hr. simpl. apply list_elem_of_fmap. exists b.
    split; [done|]. apply elem_of_ListBuilders. eauto.
Qed.
End store.

Section store_theorems.
Context {P : Type}.
Implicit Types (g : registry P).

(** A plugin named without a namespace is resolved to the one resource
    that provides it; the lookup fails as not found or as ambiguous exactly
    when no resource or several resources provide it.  The answer does not
    depend on the order in which the resource map is iterated. *)
Theorem LoadBuilder_unqualified (o : iter_order string nat) g name :
  rtc registry_step empty_registry g → name ≠ "" →
  match Store_LoadBuilder o g "" name with
  | Ok b => ∃ ns, provides g ns name b ∧ ∀ ns' b', provides g ns' name b' → ns' = ns
  | Err (PluginNotFound _) => ∀ ns b, ¬ provides g ns name b
  | Err (PluginAmbiguous _ ns1 ns2) =>
      ns1 ≠ ns2 ∧ (∃ b, provides g ns1 name b) ∧ (∃ b, provides g ns2 name b)
  | Err _ => False
  end.
Proof.
  intros Hwf%reachable_wf Hn. unfold Store_LoadBuilder.
  rewrite decide_False by done. rewrite decide_False by (by intros ?).
  rewrite match_resources_candidates. simpl.
  pose proof (λ ns b, elem_of_candidates o g name ns b Hwf) as Hc.
  pose proof (NoDup_candidates o g name) as Hnd.
  destruct (candidates _ _ _) as [|[ns1 b1] [|[ns2 b2] cs]].
  - intros ns b Hp%Hc. by apply elem_of_nil in Hp.
  - exists ns1. split; [apply Hc; by left|]. intros ns' b' Hp%Hc.
    apply list_elem_of_singleton in Hp. congruence.
  - split_and!; [|exists b1|exists b2]; [|apply Hc; set_solver..].
    simpl in Hnd. apply NoDup_cons in Hnd as [Hnd _]. set_solver.
Qed.

(** The plugin listing is sorted by namespace and name, holds exactly the
    builders the store provides, and is the same list for every iteration
    order of the two maps. *)
Theorem ListPluginBuilders_canonical o1 o2 o1' o2' g :
  rtc registry_step empty_registry g →
  Sorted desc_le (ListPluginBuilders o1 o2 g) ∧
  (∀ ns b, (ns, b) ∈ ListPluginBuilders o1 o2 g ↔ provides g ns (Builder_Name b) b) ∧
  ListPluginBuilders o1 o2 g = ListPluginBuilders o1' o2' g.
Proof.
  intros Hwf%reachable_wf. split_and!.
  - apply Sorted_merge_sort, _.
  - intros. by apply elem_of_ListPluginBuilders.
  - apply (Sorted_unique_strong desc_le); [|apply Sorted_merge_sort, _..|].
    + intros [ns1 b1] [ns2 b2] H1 H2. apply elem_of_ListPluginBuilders in H1, H2; [|done..].
      unfold desc_le. simpl. repeat case_decide; try congruence; subst; intros L1 L2.
      * assert (Builder_Name b1 = Builder_Name b2) as Heq by by apply (anti_symm String.le).
        rewrite Heq in H1. f_equal. by eapply provides_unique.
      * exfalso. apply H. by apply (anti_symm String.le).
    + unfold ListPluginBuilders. rewrite !merge_sort_Permutation.
      unfold ListPluginResources, ListBuilders.
      rewrite (range_map_perm o1), <-(range_map_perm o1').
      apply Permutation_refl'. apply list_bind_ext; [|done]. intros l. f_equal. f_equal.
      by rewrite (range_map_perm o2), <-(range_map_perm o2').
Qed.

(** The builders handed to [BuildGraph] cover every node. *)
Lemma ResolvePluginBuilders_total o (g : registry P) configs m :
  ResolvePluginBuilders o (Some g) configs = Ok m →
  ∀ n, n ∈ configs → is_Some (m !! ID n).
Proof.
  unfold ResolvePluginBuilders. generalize (∅ : gmap string (PluginBuilder P)).
  assert (∀ m0 configs, range_fold (λ m nodeCfg,
      let? b := rmap_err (BuilderLoadFailed (Plugin nodeCfg) (Namespace nodeCfg))
                  (Store_LoadBuilder o g (Namespace nodeCfg) (Plugin nodeCfg)) in
      Ok (<[ID nodeCfg := b]> m)) m0 configs = Ok m →
    (∀ id, is_Some (m0 !! id) → is_Some (m !! id)) ∧ ∀ n, n ∈ configs → is_Some (m !! ID n)) as Hgen.
  { clear configs. intros m0 configs. revert m0. induction configs as [|c cs IH]; intros m0; simpl.
    { intros [= ->]. split; [done|]. by intros n ?%elem_of_nil. }
    intros (m1 & Hm1 & Hm)%rbind_ok. inv_ok. subst. apply IH in Hm as [Hmono Hall]. split.
    - intros id ?. apply Hmono. apply lookup_insert_is_Some'. by right.
    - intros n [->|?]%elem_of_cons; [|auto]. apply Hmono. by rewrite lookup_insert_eq. }
  intros m0 Hm. apply (Hgen m0 configs Hm).
Qed.
End store_theorems.

Definition sample_builder (name : string) : PluginBuilder unit :=
  mkBuilder (mkMeta name "" [] [] []) (λ _, Ok tt).
(** A registry with one local resource that provides [echo]. *)
Definition sample_resource : PluginResource unit :=
  mkResource "local" {[ "echo" := sample_builder "echo" ]}.
Definition sample_registry : registry unit :=
  mkRegistry {[ 0 := sample_resource ]} (mkStore {[ "local" := 0 ]}).

Lemma sample_reachable : rtc registry_step empty_registry sample_registry.
Proof.
  apply (rtc_l _ _ (mkRegistry {[ 0 := NewPluginResource "local" ]} (mkStore ∅))).
  { apply (step_new empty_registry 0 "local"). done. }
  apply (rtc_l _ _ (mkRegistry {[ 0 := sample_resource ]} (mkStore ∅))).
  { pose proof (step_register (mkRegistry {[ 0 := NewPluginResource "local" ]} (mkStore ∅)) 0
      (NewPluginResource "local") sample_resource (Some (sample_builder "echo"))) as Hs.
    simpl in Hs. rewrite insert_singleton_eq in Hs. apply Hs; [|vm_compute]; reflexivity. }
  apply rtc_once. apply (step_add _ _ (Some 0)); [|vm_compute; reflexivity].
  intros l [= <-]. by exists sample_resource.
Qed.

Lemma LoadBuilder_unqualified_witness :
  Store_LoadBuilder default_order sample_registry "" "echo" = Ok (sample_builder "echo") ∧
  ∃ ns, provides sample_registry ns "echo" (sample_builder "echo").
Proof.
  split; [vm_compute; reflexivity|].
  pose proof (LoadBuilder_unqualified default_order sample_registry "echo" sample_reachable) as H.
  vm_compute Store_LoadBuilder in H.
  destruct H as (ns & Hp & _); [discriminate|]. exists ns. exact Hp.
Defined.

Lemma ListPluginBuilders_canonical_witness :
  ListPluginBuilders default_order default_order sample_registry = [("local", sample_builder "echo")] ∧
  Sorted desc_le (ListPluginBuilders default_order default_order sample_registry).
Proof.
  split; [vm_compute; reflexivity|].
  apply (ListPluginBuilders_canonical default_order default_order default_order default_order
    sample_registry sample_reachable).
Defined.
