(* ===== verification/Chan.v ===== *)
(** * Buffered channels and context-aware sends ([pkg/syncx/chan.go])

    A channel is its buffer, its capacity and whether it was closed.  A
    [select] picks any ready case: an operation is the list of its possible
    outcomes, and the empty list means that it blocks. *)

From S2P Require Import Prelude.

Record chan (A : Type) := mkChan { buffer : list A; chan_cap : nat; closed : bool }.
Arguments mkChan {A} _ _ _.
Arguments buffer {A} _.
Arguments chan_cap {A} _.
Arguments closed {A} _.

Inductive send_outcome (A : Type) :=
| Sent (c : chan A)   (** the value is in the buffer *)
| CtxErr              (** [ctx.Err()] *)
| ErrSendBlocked
| Panicked            (** send on a closed channel *).
Arguments Sent {A} _.
Arguments CtxErr {A}.
Arguments ErrSendBlocked {A}.
Arguments Panicked {A}.

Section chan.
Context {A : Type}.
Implicit Types (c : chan A) (v : A).

Definition make_chan (n : nat) : chan A := mkChan [] n false.
Definition full c : bool := bool_decide (chan_cap c ≤ length (buffer c)).
Definition enqueue c v : chan A := mkChan (buffer c ++ [v]) (chan_cap c) (closed c).
Definition close_chan c : chan A := mkChan (buffer c) (chan_cap c) true.

(** [case ch <- v] of a [select]. *)
Definition send_case c v : list (send_outcome A) :=
  if closed c then [Panicked] else if full c then [] else [Sent (enqueue c v)].

(** [case <-ctx.Done()]. *)
Definition done_case (done : bool) : list (send_outcome A) :=
  if done then [CtxErr] else [].

(** [done1] is the context at the check on entry, [done2] at the [select]. *)
Definition SendWithContext (done1 done2 : bool) c v : list (send_outcome A) :=
  if done1 then [CtxErr] else done_case done2 ++ send_case c v.

Definition SendWithNonBlocking (done1 done2 : bool) c v : list (send_outcome A) :=
  if done1 then [CtxErr]
  else match done_case done2 ++ send_case c v with
  | [] => [ErrSendBlocked]
  | ready => ready
  end.

(** The derived context of a timed send is done as soon as its parent is, or
    when the timer fires before the [select] ([timeout]). *)
Definition SendWithTimeout (done1 done2 timeout : bool) c v : list (send_outcome A) :=
  SendWithContext done1 (done2 || timeout) c v.

(** [case v := <-ch] of a [select] on an open or non-empty channel. *)
Definition recv_case c : option (A * chan A) :=
  match buffer c with
  | [] => None
  | v :: vs => Some (v, mkChan vs (chan_cap c) (closed c))
  end.

(** The buffer never exceeds the capacity. *)
Definition chan_wf c : Prop := length (buffer c) ≤ chan_cap c.

Lemma full_false c : full c = false ↔ length (buffer c) < chan_cap c.
Proof. unfold full. rewrite bool_decide_eq_false. lia. Qed.

Lemma send_case_spec c v o :
  o ∈ send_case c v ↔
  (closed c = true ∧ o = Panicked) ∨
  (closed c = false ∧ full c = false ∧ o = Sent (enqueue c v)).
Proof.
  unfold send_case. destruct (closed c), (full c); rewrite ?list_elem_of_singleton, ?elem_of_nil;
    naive_solver.
Qed.

Lemma done_case_spec done o : o ∈ done_case done ↔ done = true ∧ o = CtxErr.
Proof. destruct done; simpl; rewrite ?list_elem_of_singleton, ?elem_of_nil; naive_solver. Qed.

Lemma SendWithContext_spec d1 d2 c v o :
  o ∈ SendWithContext d1 d2 c v ↔
  (o = CtxErr ∧ (d1 = true ∨ d2 = true)) ∨ (d1 = false ∧ o ∈ send_case c v).
Proof.
  unfold SendWithContext. destruct d1; simpl.
  - rewrite list_elem_of_singleton. naive_solver.
  - rewrite elem_of_app, done_case_spec. naive_solver.
Qed.

(** A non-blocking send always has an outcome; it reports [ErrSendBlocked]
    exactly when the channel is full, open and the context alive. *)
Lemma SendWithNonBlocking_spec d1 d2 c v o :
  o ∈ SendWithNonBlocking d1 d2 c v ↔
  o ∈ SendWithContext d1 d2 c v ∨
  (o = ErrSendBlocked ∧ d1 = false ∧ d2 = false ∧ closed c = false ∧ full c = true).
Proof.
  unfold SendWithNonBlocking, SendWithContext. destruct d1; simpl; [naive_solver|].
  destruct (done_case d2 ++ send_case c v) as [|o' os] eqn:E.
  - apply app_eq_nil in E as [E1 E2]. destruct d2; [done|]. unfold send_case in E2.
    destruct (closed c), (full c); try done. rewrite list_elem_of_singleton.
    setoid_rewrite elem_of_nil. naive_solver.
  - split; [by left|]. intros [?|(-> & _ & -> & Hc & Hf)]; [done|].
    unfold send_case in E. by rewrite Hc, Hf in E.
Qed.

Lemma nonblocking_full c v :
  closed c = false → chan_cap c ≤ length (buffer c) →
  SendWithNonBlocking false false c v = [ErrSendBlocked].
Proof.
  intros Hc Hl. unfold SendWithNonBlocking, send_case, full.
  by rewrite Hc, bool_decide_eq_true_2.
Qed.

Lemma nonblocking_room c v :
  closed c = false → length (buffer c) < chan_cap c →
  SendWithNonBlocking false false c v = [Sent (enqueue c v)].
Proof.
  intros Hc Hl. unfold SendWithNonBlocking, send_case.
  by rewrite Hc, (proj2 (full_false c) Hl).
Qed.

Lemma enqueue_wf c v : full c = false → chan_wf (enqueue c v).
Proof. rewrite full_false. unfold chan_wf. simpl. rewrite length_app. simpl. lia. Qed.

Lemma recv_case_Some c v c' :
  recv_case c = Some (v, c') ↔
  buffer c = v :: buffer c' ∧ chan_cap c' = chan_cap c ∧ closed c' = closed c.
Proof.
  unfold recv_case. destruct c as [[|w ws] n cl], c' as [b' n' cl']; simpl; naive_solver.
Qed.

Lemma recv_case_wf c v c' : recv_case c = Some (v, c') → chan_wf c → chan_wf c'.
Proof. intros (Hb & Hc & _)%recv_case_Some. unfold chan_wf. rewrite Hb, Hc. simpl. lia. Qed.
End chan.
