(* ===== verification/Node.v ===== *)
(** * Nodes: routing and sending ([internal/engine/node.go])

    A node is named by its index in the workflow.  Schema objects are shared
    by pointer; [loc] is the address of one.  A [Send*] method is the list of
    effects it performs in order: reference-count increments, then one
    [Input] per downstream node. *)

From S2P Require Import Prelude EngineTypes Chan.

Definition loc := nat.

Inductive event :=
| Signal (l : loc) | Payload (l : loc) | Audio (l : loc) | Video (l : loc).

#[export] Instance event_eq_dec : EqDecision event.
Proof. solve_decision. Defined.

Definition event_type (e : event) : EventType :=
  match e with
  | Signal _ => EventSignal
  | Payload _ => EventPayload
  | Audio _ => EventAudio
  | Video _ => EventVideo
  end.

(** [value.(schema.RefCountable)]: audio and video objects are reference counted. *)
Definition ref_of (e : event) : option loc :=
  match e with
  | Audio l | Video l => Some l
  | Signal _ | Payload _ => None
  end.

Record routeTable := mkTable {
  signals : list nat;
  payloads : list nat;
  audios : list nat;
  videos : list nat;
}.
Definition empty_table : routeTable := mkTable [] [] [] [].

Definition routes (t : routeTable) (ev : EventType) : list nat :=
  match ev with
  | EventSignal => signals t
  | EventPayload => payloads t
  | EventAudio => audios t
  | EventVideo => videos t
  | EventOther _ => []
  end.

(** [if !slices.Contains(l, n) { l = append(l, n) }]. *)
Definition add_once (n : nat) (l : list nat) : list nat :=
  if decide (n ∈ l) then l else l ++ [n].

Definition table_add (ev : EventType) (next : nat) (t : routeTable) : routeTable :=
  match ev with
  | EventSignal => mkTable (add_once next (signals t)) (payloads t) (audios t) (videos t)
  | EventPayload => mkTable (signals t) (add_once next (payloads t)) (audios t) (videos t)
  | EventAudio => mkTable (signals t) (payloads t) (add_once next (audios t)) (videos t)
  | EventVideo => mkTable (signals t) (payloads t) (audios t) (add_once next (videos t))
  | EventOther _ => t
  end.

Record baseNode := mkBase {
  NodeName : string;
  table : routeTable;
  portTable : list routeTable;
  running : bool;
  writer : bool;  (** a socket writer is attached *)
}.

Definition newBaseNode (name : string) : baseNode :=
  mkBase name empty_table (replicate (Z.to_nat MaxPortCount) empty_table) false false.

Definition setSocketWriter (n : baseNode) : baseNode :=
  mkBase (NodeName n) (table n) (portTable n) (running n) true.
Definition set_running (b : bool) (n : baseNode) : baseNode :=
  mkBase (NodeName n) (table n) (portTable n) b (writer n).

Definition addNextNode (ev : EventType) (next : nat) (n : baseNode) : baseNode :=
  mkBase (NodeName n) (table_add ev next (table n)) (portTable n) (running n) (writer n).

Definition port_ok (port : Z) : bool := bool_decide (0 ≤ port < MaxPortCount)%Z.

Definition addNextPortNode (ev : EventType) (next : nat) (port : Z) (n : baseNode) : baseNode :=
  if port_ok port then
    mkBase (NodeName n) (table_add ev next (table n))
      (alter (table_add ev next) (Z.to_nat port) (portTable n)) (running n) (writer n)
  else n.

(** ** Sending *)
Inductive flow_op :=
| OpRetain (l : loc)
| OpInput (target : nat) (ev : event)   (** [next.Input(value)] *)
| OpSend (target : nat) (ev : event)    (** inside [Input], past its guard *)
| OpRelease (l : loc)
| OpControl (target : nat) (c : controlType)      (** [Pause] or [Resume] of a node *)
| OpControlSend (target : nat) (c : controlType)  (** past its guard *).

(** The guard all send methods share. *)
Definition can_send (ctxErr : bool) (n : baseNode) : bool := negb ctxErr && running n.

Definition input_all (targets : list nat) (ev : event) : list flow_op :=
  (λ j, OpInput j ev) <$> targets.

Definition retain_all (targets : list nat) (l : loc) : list flow_op :=
  replicate (length targets) (OpRetain l).

Definition port_routes (n : baseNode) (port : Z) (t : EventType) : list nat :=
  if port_ok port then
    match portTable n !! Z.to_nat port with Some tb => routes tb t | None => [] end
  else [].

Definition SendSignal (ctxErr : bool) (n : baseNode) (l : loc) : list flow_op :=
  if can_send ctxErr n then input_all (signals (table n)) (Signal l) else [].
Definition SendSignalToPort (ctxErr : bool) (n : baseNode) (port : Z) (l : loc) : list flow_op :=
  if can_send ctxErr n then input_all (port_routes n port EventSignal) (Signal l) else [].
Definition SendPayload (ctxErr : bool) (n : baseNode) (l : loc) : list flow_op :=
  if can_send ctxErr n then input_all (payloads (table n)) (Payload l) else [].
Definition SendPayloadToPort (ctxErr : bool) (n : baseNode) (port : Z) (l : loc) : list flow_op :=
  if can_send ctxErr n then input_all (port_routes n port EventPayload) (Payload l) else [].
Definition SendAudio (ctxErr : bool) (n : baseNode) (l : loc) : list flow_op :=
  if can_send ctxErr n
  then retain_all (audios (table n)) l ++ input_all (audios (table n)) (Audio l) else [].
Definition SendAudioToPort (ctxErr : bool) (n : baseNode) (port : Z) (l : loc) : list flow_op :=
  if can_send ctxErr n then
    let nodes := port_routes n port EventAudio in
    retain_all nodes l ++ input_all nodes (Audio l)
  else [].
Definition SendVideo (ctxErr : bool) (n : baseNode) (l : loc) : list flow_op :=
  if can_send ctxErr n
  then retain_all (videos (table n)) l ++ input_all (videos (table n)) (Video l) else [].
Definition SendVideoToPort (ctxErr : bool) (n : baseNode) (port : Z) (l : loc) : list flow_op :=
  if can_send ctxErr n then
    let nodes := port_routes n port EventVideo in
    retain_all nodes l ++ input_all nodes (Video l)
  else [].

(** One call of the [Flow] interface: [None] sends on every route of the
    type, [Some p] on the routes of port [p]. *)
Definition flow_send (ctxErr : bool) (n : baseNode) (port : option Z) (ev : event) : list flow_op :=
  match ev, port with
  | Signal l, None => SendSignal ctxErr n l
  | Signal l, Some p => SendSignalToPort ctxErr n p l
  | Payload l, None => SendPayload ctxErr n l
  | Payload l, Some p => SendPayloadToPort ctxErr n p l
  | Audio l, None => SendAudio ctxErr n l
  | Audio l, Some p => SendAudioToPort ctxErr n p l
  | Video l, None => SendVideo ctxErr n l
  | Video l, Some p => SendVideoToPort ctxErr n p l
  end.

(** ** Routing lemmas *)
Lemma elem_of_add_once n l m : m ∈ add_once n l ↔ m = n ∨ m ∈ l.
Proof. unfold add_once. case_decide; [naive_solver|]. rewrite elem_of_app, list_elem_of_singleton. tauto. Qed.

Lemma NoDup_add_once n l : NoDup l → NoDup (add_once n l).
Proof.
  intros Hl. unfold add_once. case_decide as Hn; [done|].
  apply NoDup_app. split_and!; [done| |apply NoDup_singleton].
  intros x Hx ->%list_elem_of_singleton. done.
Qed.

Lemma routes_table_add ev next t ev' :
  routes (table_add ev next t) ev' =
  match ev with
  | EventOther _ => routes t ev'
  | _ => if decide (ev' = ev) then add_once next (routes t ev') else routes t ev'
  end.
Proof. by destruct ev, ev'. Qed.

(** Every send is one increment per media target, then one input per target. *)
Lemma flow_send_shape ctxErr n port ev :
  ∃ targets, flow_send ctxErr n port ev =
    (match ref_of ev with Some l => retain_all targets l | None => [] end) ++ input_all targets ev.
Proof.
  destruct ev, port; simpl;
    unfold SendSignal, SendSignalToPort, SendPayload, SendPayloadToPort,
      SendAudio, SendAudioToPort, SendVideo, SendVideoToPort;
    destruct (can_send ctxErr n); eauto; by exists [].
Qed.
