(* ===== verification/Runtime.v ===== *)
(** * The running engine ([node.go], [node_loop.go], [node_scheduler.go], [scheduler.go])

    Every goroutine that moves events is a thread: the read loop of a
    [loopNode], the read loop of a scheduler worker, or a caller outside the
    workflow.  [step] executes one atomic effect of one thread; its label says
    which thread moves and which ready case of a [select] or which call of the
    plugin code is chosen, so a list of labels is an interleaving.

    Plugin code is a client: it may send what it can reach, create media
    objects, retain what it can reach and release what it holds.  A handler
    ends by returning or by a recovered panic, which have the same effect. *)

From S2P Require Import Prelude EngineTypes Chan Node.

Definition ctrlBufferSize : nat := 8.
Definition signalBufferSize : nat := 12.
Definition payloadBufferSize : nat := 24.
Definition audioBufferSize : nat := 64.
Definition videoBufferSize : nat := 24.

Record loopNode := mkLoop {
  ctrlChan : chan controlType;
  signalChan : chan loc;
  payloadChan : chan loc;
  audioChan : chan loc;
  videoChan : chan loc;
}.

Definition newLoopNode : loopNode :=
  mkLoop (make_chan ctrlBufferSize) (make_chan signalBufferSize) (make_chan payloadBufferSize)
    (make_chan audioBufferSize) (make_chan videoBufferSize).

Inductive node_impl := LoopNode (n : loopNode) | SchedulerNode (workerIdx : nat).
Record node := mkRNode { base : baseNode; impl : node_impl }.

(** A task carries an event or a control; [control != 0] selects the control. *)
Record Task := mkTask { task_node : nat; task_what : event + controlType }.
Record worker := mkWorker { highPriorityCh : chan Task; normalPriorityCh : chan Task }.
Definition newWorker (queueSize : nat) : worker :=
  mkWorker (make_chan queueSize) (make_chan queueSize).

Inductive after := BackToLoop | ThenDrain.
Inductive phase :=
| PTop              (** the guard at the top of a node's loop *)
| PSelect           (** the first, prioritised [select] *)
| PSelectAll        (** the [select] in its default case *)
| PPlugin (n : nat) (next : after)  (** plugin code of node [n] is running *)
| PExit             (** the deferred function of a node's loop *)
| PDrain
| PDead
| PCaller           (** outside the workflow *).

Inductive thread_kind := ThLoop (n : nat) | ThWorker (w : nat) | ThCaller.

Record thread := mkThread {
  kind : thread_kind;
  at_phase : phase;
  cur : option event;   (** the event the running handler releases when it ends *)
  ops : list flow_op;   (** effects of the call in progress *)
  owned : list loc;     (** references held by the plugin or caller code *)
}.

Record sys := mkSys {
  done : bool;          (** the workflow context is cancelled *)
  nodes : list node;
  workers : list worker;
  counts : gmap loc Z;  (** reference counts of the media objects in use *)
  threads : list thread;
}.

(** ** Reference counts ([schema/audio.go], [video.go]: Retain, Release)

    An object whose count reaches zero goes back to the pool and is no longer
    in use. *)
Definition Retain (m : gmap loc Z) (l : loc) : gmap loc Z :=
  <[l := (default 0 (m !! l) + 1)%Z]> m.
Definition Release (m : gmap loc Z) (l : loc) : gmap loc Z :=
  let n := (default 0 (m !! l) - 1)%Z in
  if decide (0 < n)%Z then <[l := n]> m else delete l m.
Definition release_event (m : gmap loc Z) (e : event) : gmap loc Z :=
  match ref_of e with Some l => Release m l | None => m end.

(** ** Updates *)
Definition set_thread (t : nat) (th : thread) (s : sys) : sys :=
  mkSys (done s) (nodes s) (workers s) (counts s) (<[t := th]> (threads s)).
Definition set_node (j : nat) (n : node) (s : sys) : sys :=
  mkSys (done s) (<[j := n]> (nodes s)) (workers s) (counts s) (threads s).
Definition set_worker (w : nat) (wk : worker) (s : sys) : sys :=
  mkSys (done s) (nodes s) (<[w := wk]> (workers s)) (counts s) (threads s).
Definition set_counts (m : gmap loc Z) (s : sys) : sys :=
  mkSys (done s) (nodes s) (workers s) m (threads s).
Definition set_phase (p : phase) (th : thread) : thread :=
  mkThread (kind th) p (cur th) (ops th) (owned th).
Definition set_ops (o : list flow_op) (th : thread) : thread :=
  mkThread (kind th) (at_phase th) (cur th) o (owned th).
Definition set_owned (o : list loc) (th : thread) : thread :=
  mkThread (kind th) (at_phase th) (cur th) (ops th) o.
(** Enter plugin code to handle [ev]. *)
Definition handle (n : nat) (ev : option event) (th : thread) : thread :=
  mkThread (kind th) (PPlugin n BackToLoop) ev [] (owned th).

Definition set_signal c (n : loopNode) := mkLoop (ctrlChan n) c (payloadChan n) (audioChan n) (videoChan n).
Definition set_payload c (n : loopNode) := mkLoop (ctrlChan n) (signalChan n) c (audioChan n) (videoChan n).
Definition set_audio c (n : loopNode) := mkLoop (ctrlChan n) (signalChan n) (payloadChan n) c (videoChan n).
Definition set_video c (n : loopNode) := mkLoop (ctrlChan n) (signalChan n) (payloadChan n) (audioChan n) c.
Definition set_ctrl c (n : loopNode) := mkLoop c (signalChan n) (payloadChan n) (audioChan n) (videoChan n).

(** ** Input *)

(** What becomes of one send: the new owner of the channel, or nothing. *)
Definition sent_chan {A} (os : list (send_outcome A)) (k : nat) : option (option (chan A)) :=
  match os !! k with
  | Some (Sent c) => Some (Some c)
  | Some _ => Some None
  | None => None
  end.

(** [loopNode.Input] past its guard.  [None]: blocked.  The count of an
    object that was not queued is decremented. *)
Definition loop_Input (early d : bool) (k : nat) (n : loopNode) (ev : event)
    (m : gmap loc Z) : option (loopNode * gmap loc Z) :=
  match ev with
  | Signal l =>
    r ← sent_chan (SendWithContext early d (signalChan n) l) k;
    Some (match r with Some c => set_signal c n | None => n end, m)
  | Payload l =>
    r ← sent_chan (SendWithContext early d (payloadChan n) l) k;
    Some (match r with Some c => set_payload c n | None => n end, m)
  | Audio l =>
    r ← sent_chan (SendWithNonBlocking early d (audioChan n) l) k;
    Some (match r with Some c => (set_audio c n, m) | None => (n, Release m l) end)
  | Video l =>
    r ← sent_chan (SendWithNonBlocking early d (videoChan n) l) k;
    Some (match r with Some c => (set_video c n, m) | None => (n, Release m l) end)
  end.

(** [Scheduler.SubmitToWorker]. *)
Definition SubmitToWorker (early d : bool) (k : nat) (w : worker) (j : nat) (ev : event)
    (m : gmap loc Z) : option (worker * gmap loc Z) :=
  let task := mkTask j (inl ev) in
  match ev with
  | Signal _ =>
    r ← sent_chan (SendWithContext early d (highPriorityCh w) task) k;
    Some (match r with Some c => mkWorker c (normalPriorityCh w) | None => w end, m)
  | Payload _ =>
    r ← sent_chan (SendWithContext early d (normalPriorityCh w) task) k;
    Some (match r with Some c => mkWorker (highPriorityCh w) c | None => w end, m)
  | Audio l | Video l =>
    r ← sent_chan (SendWithNonBlocking early d (normalPriorityCh w) task) k;
    Some (match r with
          | Some c => (mkWorker (highPriorityCh w) c, m)
          | None => (w, Release m l)
          end)
  end.

(** [Input] past its guard, for either kind of node. *)
Definition exec_send (early : bool) (k : nat) (j : nat) (ev : event) (s : sys) : option sys :=
  n ← nodes s !! j;
  match impl n with
  | LoopNode ln =>
    '(ln', m') ← loop_Input (early && done s) (done s) k ln ev (counts s);
    Some (set_counts m' (set_node j (mkRNode (base n) (LoopNode ln')) s))
  | SchedulerNode wi =>
    w ← workers s !! wi;
    '(w', m') ← SubmitToWorker (early && done s) (done s) k w j ev (counts s);
    Some (set_counts m' (set_worker wi w' s))
  end.

(** [Pause] and [Resume] past their guard; [SubmitControlToWorker]. *)
Definition exec_control (early : bool) (k : nat) (j : nat) (c : controlType) (s : sys) : option sys :=
  n ← nodes s !! j;
  match impl n with
  | LoopNode ln =>
    r ← sent_chan (SendWithContext (early && done s) (done s) (ctrlChan ln) c) k;
    Some (match r with
          | Some ch => set_node j (mkRNode (base n) (LoopNode (set_ctrl ch ln))) s
          | None => s
          end)
  | SchedulerNode wi =>
    w ← workers s !! wi;
    r ← sent_chan (SendWithContext (early && done s) (done s) (highPriorityCh w)
          (mkTask j (inr c))) k;
    Some (match r with
          | Some ch => set_worker wi (mkWorker ch (normalPriorityCh w)) s
          | None => s
          end)
  end.

Definition node_open (s : sys) (n : node) : bool := negb (done s) && running (base n).

(** Remove one occurrence of [l]. *)
Fixpoint remove_one (l : loc) (ls : list loc) : list loc :=
  match ls with
  | [] => []
  | x :: ls => if decide (x = l) then ls else x :: remove_one l ls
  end.

(** Execute the first pending effect [o] of thread [t]. *)
Definition exec_op (early : bool) (k : nat) (t : nat) (th : thread) (o : flow_op)
    (rest : list flow_op) (s : sys) : option sys :=
  let s1 := set_thread t (set_ops rest th) s in
  match o with
  | OpRetain l => Some (set_counts (Retain (counts s) l) s1)
  | OpInput j ev =>
    n ← nodes s !! j;
    if node_open s n then Some (set_thread t (set_ops (OpSend j ev :: rest) th) s)
    else Some (set_counts (release_event (counts s) ev) s1)
  | OpSend j ev => exec_send early k j ev s1
  | OpRelease l =>
    if decide (l ∈ owned th) then
      Some (set_counts (Release (counts s) l)
        (set_thread t (set_owned (remove_one l (owned th)) (set_ops rest th)) s))
    else None
  | OpControl j c =>
    n ← nodes s !! j;
    if running (base n) then Some (set_thread t (set_ops (OpControlSend j c :: rest) th) s)
    else Some s1
  | OpControlSend j c => exec_control early k j c s1
  end.

(** ** Read loops *)
Inductive pick := PickDone | PickCtrl | PickSignal | PickPayload | PickAudio | PickVideo
| PickHigh | PickNormal.

(** One case of the [select]s of [loopNode.readLoop]; [all] is the inner one. *)
Definition pick_loop (all : bool) (c : pick) (t i : nat) (th : thread) (b : baseNode)
    (n : loopNode) (s : sys) : option sys :=
  let upd n' th' := set_thread t th' (set_node i (mkRNode b (LoopNode n')) s) in
  match c with
  | PickDone => if done s then Some (set_thread t (set_phase PExit th) s) else None
  | PickCtrl =>
    '(ctl, ch) ← recv_case (ctrlChan n);
    Some (upd (set_ctrl ch n)
      (if decide (ctl = controlStop) then set_phase PExit th else handle i None th))
  | PickSignal =>
    '(l, ch) ← recv_case (signalChan n); Some (upd (set_signal ch n) (handle i (Some (Signal l)) th))
  | PickPayload =>
    if all then
      '(l, ch) ← recv_case (payloadChan n); Some (upd (set_payload ch n) (handle i (Some (Payload l)) th))
    else None
  | PickAudio =>
    if all then
      '(l, ch) ← recv_case (audioChan n); Some (upd (set_audio ch n) (handle i (Some (Audio l)) th))
    else None
  | PickVideo =>
    if all then
      '(l, ch) ← recv_case (videoChan n); Some (upd (set_video ch n) (handle i (Some (Video l)) th))
    else None
  | PickHigh | PickNormal => None
  end.

(** [worker.execute]. *)
Definition execute (task : Task) (th : thread) : thread :=
  match task_what task with
  | inr _ => handle (task_node task) None th
  | inl ev => handle (task_node task) (Some ev) th
  end.

(** One case of the [select]s of [worker.readLoop]. *)
Definition pick_worker (all : bool) (c : pick) (t w : nat) (th : thread) (wk : worker)
    (s : sys) : option sys :=
  match c with
  | PickDone => if done s then Some (set_thread t (set_phase PDrain th) s) else None
  | PickHigh =>
    '(task, ch) ← recv_case (highPriorityCh wk);
    Some (set_thread t (execute task th) (set_worker w (mkWorker ch (normalPriorityCh wk)) s))
  | PickNormal =>
    if all then
      '(task, ch) ← recv_case (normalPriorityCh wk);
      Some (set_thread t (execute task th) (set_worker w (mkWorker (highPriorityCh wk) ch) s))
    else None
  | _ => None
  end.

Definition release_task (m : gmap loc Z) (task : Task) : gmap loc Z :=
  match task_what task with inl ev => release_event m ev | inr _ => m end.

(** One case of [drainChannels] and [drain]. *)
Definition pick_drain (c : pick) (th : thread) (s : sys) : option sys :=
  match kind th with
  | ThLoop i =>
    n ← nodes s !! i;
    match impl n, c with
    | LoopNode ln, PickAudio =>
      '(l, ch) ← recv_case (audioChan ln);
      Some (set_counts (Release (counts s) l) (set_node i (mkRNode (base n) (LoopNode (set_audio ch ln))) s))
    | LoopNode ln, PickVideo =>
      '(l, ch) ← recv_case (videoChan ln);
      Some (set_counts (Release (counts s) l) (set_node i (mkRNode (base n) (LoopNode (set_video ch ln))) s))
    | _, _ => None
    end
  | ThWorker w =>
    wk ← workers s !! w;
    match c with
    | PickHigh =>
      '(task, ch) ← recv_case (highPriorityCh wk);
      Some (set_counts (release_task (counts s) task) (set_worker w (mkWorker ch (normalPriorityCh wk)) s))
    | PickNormal =>
      '(task, ch) ← recv_case (normalPriorityCh wk);
      Some (set_counts (release_task (counts s) task) (set_worker w (mkWorker (highPriorityCh wk) ch) s))
    | _ => None
    end
  | ThCaller => None
  end.

Definition exec_pick (c : pick) (t : nat) (th : thread) (s : sys) : option sys :=
  match at_phase th with
  | PSelect | PSelectAll =>
    let all := match at_phase th with PSelectAll => true | _ => false end in
    match kind th with
    | ThLoop i =>
      n ← nodes s !! i;
      match impl n with
      | LoopNode ln => pick_loop all c t i th (base n) ln s
      | SchedulerNode _ => None
      end
    | ThWorker w => wk ← workers s !! w; pick_worker all c t w th wk s
    | ThCaller => None
    end
  | PDrain => pick_drain c th s
  | _ => None
  end.

(** No case of the current [select] is ready. *)
Definition picks_of (k : thread_kind) (p : phase) : list pick :=
  match k, p with
  | ThLoop _, PSelect => [PickDone; PickSignal; PickCtrl]
  | ThLoop _, PDrain => [PickAudio; PickVideo]
  | ThWorker _, PSelect => [PickDone; PickHigh]
  | ThWorker _, PDrain => [PickHigh; PickNormal]
  | _, _ => []
  end.
Definition none_ready (t : nat) (th : thread) (s : sys) : bool :=
  forallb (λ c, negb (bool_decide (is_Some (exec_pick c t th s)))) (picks_of (kind th) (at_phase th)).

(** The moves without a choice: the loop guard, the default case of a
    [select], the deferred function, the end of a drain. *)
Definition exec_go (t : nat) (th : thread) (s : sys) : option sys :=
  match at_phase th with
  | PTop =>
    match kind th with
    | ThLoop i =>
      n ← nodes s !! i;
      Some (set_thread t (set_phase (if node_open s n then PSelect else PExit) th) s)
    | _ => None
    end
  | PSelect => if none_ready t th s then Some (set_thread t (set_phase PSelectAll th) s) else None
  | PDrain => if none_ready t th s then Some (set_thread t (set_phase PDead th) s) else None
  | PExit =>
    match kind th with
    | ThLoop i =>
      n ← nodes s !! i;
      Some (set_thread t (set_phase (PPlugin i ThenDrain) th)
        (set_node i (mkRNode (set_running false (base n)) (impl n)) s))
    | _ => None
    end
  | _ => None
  end.

(** ** Labels and steps *)
Inductive label :=
| LPick (t : nat) (c : pick)
| LGo (t : nat)
| LOp (t : nat) (early : bool) (k : nat)        (** next effect of the call in progress *)
| LSend (t : nat) (port : option Z) (ev : event) (** plugin code calls the [Flow] *)
| LNew (t : nat) (l : loc)
| LKeep (t : nat) (l : loc)
| LDrop (t : nat) (l : loc)
| LGive (t t' : nat) (l : loc)                   (** hand a reference to other plugin code *)
| LReturn (t : nat)
| LDeliver (t j : nat) (ev : event)              (** [SendToHead], [SendToNode] *)
| LBroadcast (t : nat) (ev : event)
| LControl (t j : nat) (c : controlType)
| LStart (j : nat)
| LStop (j : nat)
| LCancel.

Definition cur_ref (th : thread) : option loc := cur th ≫= ref_of.

(** What plugin code can reach: the event it handles and what it holds. *)
Definition reaches (th : thread) (ev : event) : bool :=
  match ref_of ev with
  | Some l => bool_decide (cur_ref th = Some l ∨ l ∈ owned th)
  | None => true
  end.

Definition in_user_code (th : thread) : bool :=
  match at_phase th, ops th with
  | PPlugin _ _, [] | PCaller, [] => true
  | _, _ => false
  end.

(** The effects of [Workflow.Broadcast] past its state check. *)
Definition Broadcast_ops (n : nat) (ev : event) : list flow_op :=
  (seq 0 n ≫= λ j,
    (match ref_of ev with Some l => [OpRetain l] | None => [] end) ++ [OpInput j ev]) ++
  match ref_of ev with Some l => [OpRelease l] | None => [] end.

Definition return_phase (k : thread_kind) (a : after) : phase :=
  match a, k with
  | ThenDrain, _ => PDrain
  | BackToLoop, ThWorker _ => PSelect
  | BackToLoop, _ => PTop
  end.

Definition user_step (t : nat) (f : thread → option sys) (s : sys) : option sys :=
  th ← threads s !! t;
  if in_user_code th then f th else None.

(** [loopNode.Start], [schedulerNode.Start] after [OnStart] succeeded. *)
Definition node_Start (j : nat) (s : sys) : option sys :=
  n ← nodes s !! j;
  let s' := set_node j (mkRNode (set_running true (base n)) (impl n)) s in
  Some (match impl n with
  | LoopNode _ =>
    mkSys (done s') (nodes s') (workers s') (counts s')
      (threads s' ++ [mkThread (ThLoop j) PTop None [] []])
  | SchedulerNode _ => s'
  end).

(** [loopNode.Stop], [schedulerNode.Stop]. *)
Definition node_Stop (j : nat) (s : sys) : option sys :=
  n ← nodes s !! j;
  let impl' :=
    match impl n with
    | LoopNode ln =>
      if running (base n) && negb (full (ctrlChan ln))
      then LoopNode (set_ctrl (enqueue (ctrlChan ln) controlStop) ln) else LoopNode ln
    | i => i
    end in
  Some (set_node j (mkRNode (set_running false (base n)) impl') s).

Definition step (lb : label) (s : sys) : option sys :=
  match lb with
  | LPick t c => th ← threads s !! t; exec_pick c t th s
  | LGo t => th ← threads s !! t; exec_go t th s
  | LOp t early k =>
    th ← threads s !! t;
    match ops th with
    | [] => None
    | o :: rest => exec_op early k t th o rest s
    end
  | LSend t port ev =>
    user_step t (λ th,
      match at_phase th with
      | PPlugin n _ =>
        nd ← nodes s !! n;
        if reaches th ev
        then Some (set_thread t (set_ops (flow_send (done s) (base nd) port ev) th) s) else None
      | _ => None
      end) s
  | LNew t l =>
    user_step t (λ th,
      if decide (counts s !! l = None)
      then Some (set_counts (<[l := 1%Z]> (counts s)) (set_thread t (set_owned (l :: owned th) th) s))
      else None) s
  | LKeep t l =>
    user_step t (λ th,
      if reaches th (Audio l)
      then Some (set_counts (Retain (counts s) l) (set_thread t (set_owned (l :: owned th) th) s))
      else None) s
  | LDrop t l =>
    user_step t (λ th,
      if decide (l ∈ owned th)
      then Some (set_counts (Release (counts s) l)
             (set_thread t (set_owned (remove_one l (owned th)) th) s))
      else None) s
  | LGive t t' l =>
    user_step t (λ th,
      if decide (l ∈ owned th ∧ t ≠ t') then
        th' ← threads s !! t';
        Some (set_thread t' (set_owned (l :: owned th') th')
          (set_thread t (set_owned (remove_one l (owned th)) th) s))
      else None) s
  | LReturn t =>
    user_step t (λ th,
      match at_phase th with
      | PPlugin _ a =>
        Some (set_counts (match cur th with Some ev => release_event (counts s) ev | None => counts s end)
          (set_thread t (mkThread (kind th) (return_phase (kind th) a) None [] (owned th)) s))
      | _ => None
      end) s
  | LDeliver t j ev =>
    user_step t (λ th,
      match at_phase th, ref_of ev with
      | PCaller, None => Some (set_thread t (set_ops [OpInput j ev] th) s)
      | PCaller, Some l =>
        if decide (l ∈ owned th)
        then Some (set_thread t (set_ops [OpInput j ev] (set_owned (remove_one l (owned th)) th)) s)
        else None
      | _, _ => None
      end) s
  | LBroadcast t ev =>
    user_step t (λ th,
      match at_phase th, ref_of ev with
      | PCaller, None => Some (set_thread t (set_ops (Broadcast_ops (length (nodes s)) ev) th) s)
      | PCaller, Some l =>
        if decide (l ∈ owned th)
        then Some (set_thread t (set_ops (Broadcast_ops (length (nodes s)) ev) th) s)
        else None
      | _, _ => None
      end) s
  | LControl t j c =>
    user_step t (λ th,
      match at_phase th with
      | PCaller => Some (set_thread t (set_ops [OpControl j c] th) s)
      | _ => None
      end) s
  | LStart j => node_Start j s
  | LStop j => node_Stop j s
  | LCancel => Some (mkSys true (nodes s) (workers s) (counts s) (threads s))
  end.

Fixpoint run (ls : list label) (s : sys) : option sys :=
  match ls with
  | [] => Some s
  | lb :: ls => s' ← step lb s; run ls s'
  end.

(** A workflow before it starts: no node runs, every queue is empty, each
    worker has its goroutine, and callers are outside. *)
Definition init (ns : list node) (ws : nat) (queueSize callers : nat) : sys :=
  mkSys false
    ((λ n, mkRNode (set_running false (base n))
        match impl n with LoopNode _ => LoopNode newLoopNode | i => i end) <$> ns)
    (replicate ws (newWorker queueSize)) ∅
    (((λ w, mkThread (ThWorker w) PSelect None [] []) <$> seq 0 ws) ++
     replicate callers (mkThread ThCaller PCaller None [] [])).

(** ** Who holds a reference *)
Definition sumZ {A} (f : A → Z) (l : list A) : Z := foldr (λ x a, f x + a)%Z 0%Z l.

Definition here (x l : loc) : Z := if decide (x = l) then 1 else 0.
Definition ev_refs (l : loc) (e : event) : Z := match ref_of e with Some x => here x l | None => 0 end.
Definition op_refs (l : loc) (o : flow_op) : Z :=
  match o with OpInput _ ev | OpSend _ ev => ev_refs l ev | _ => 0 end.
Definition op_retains (l : loc) (o : flow_op) : Z :=
  match o with OpRetain x => here x l | _ => 0 end.
Definition task_refs (l : loc) (k : Task) : Z :=
  match task_what k with inl ev => ev_refs l ev | inr _ => 0 end.

Definition node_refs (l : loc) (n : node) : Z :=
  match impl n with
  | LoopNode ln => sumZ (λ x, here x l) (buffer (audioChan ln)) + sumZ (λ x, here x l) (buffer (videoChan ln))
  | SchedulerNode _ => 0
  end.
Definition worker_refs (l : loc) (w : worker) : Z :=
  sumZ (task_refs l) (buffer (highPriorityCh w)) + sumZ (task_refs l) (buffer (normalPriorityCh w)).
(** References of the code a thread runs: the event it handles, what it holds. *)
Definition held (th : thread) (l : loc) : Z :=
  (match cur th with Some ev => ev_refs l ev | None => 0 end) + sumZ (λ x, here x l) (owned th).
(** Plus the inputs it has begun; [OpRetain] effects still to come are owed. *)
Definition thread_net (l : loc) (th : thread) : Z :=
  held th l + sumZ (op_refs l) (ops th) - sumZ (op_retains l) (ops th).

Definition holders (s : sys) (l : loc) : Z :=
  sumZ (node_refs l) (nodes s) + sumZ (worker_refs l) (workers s) + sumZ (thread_net l) (threads s).

Fixpoint ops_ok (h : loc → Z) (os : list flow_op) : Prop :=
  match os with
  | [] => True
  | o :: r =>
    match o with
    | OpRetain l => (0 < h l)%Z
    | OpRelease _ => r = []
    | _ => True
    end ∧ (∀ l, (sumZ (op_retains l) os ≤ sumZ (op_refs l) os)%Z) ∧ ops_ok h r
  end.

(** Only plugin and caller code handles an event or has a call in progress. *)
Definition quiet (th : thread) : Prop :=
  match at_phase th with
  | PPlugin _ _ | PCaller => True
  | _ => cur th = None ∧ ops th = []
  end.

Definition thread_ok (th : thread) : Prop := ops_ok (held th) (ops th) ∧ quiet th.

Record counts_inv (s : sys) : Prop := {
  inv_exact : ∀ l, default 0%Z (counts s !! l) = holders s l;
  inv_pos : map_Forall (λ _ n, (0 < n)%Z) (counts s);
  inv_threads : Forall thread_ok (threads s);
}.

(** ** Counting lemmas *)
Lemma sumZ_app {A} (f : A → Z) l1 l2 : sumZ f (l1 ++ l2) = (sumZ f l1 + sumZ f l2)%Z.
Proof. induction l1 as [|x l1 IH]; simpl; [lia|]. unfold sumZ in *. lia. Qed.

Lemma sumZ_cons {A} (f : A → Z) x l : sumZ f (x :: l) = (f x + sumZ f l)%Z.
Proof. done. Qed.

Lemma sumZ_insert {A} (f : A → Z) l i x y :
  l !! i = Some x → sumZ f (<[i := y]> l) = (sumZ f l - f x + f y)%Z.
Proof.
  revert i. induction l as [|z l IH]; intros [|i] Hi; simplify_eq/=; rewrite ?sumZ_cons; [lia|].
  specialize (IH i Hi). unfold sumZ in *. lia.
Qed.

Lemma sumZ_nonneg {A} (f : A → Z) l : Forall (λ x, 0 ≤ f x)%Z l → (0 ≤ sumZ f l)%Z.
Proof. induction 1; [done|]. rewrite sumZ_cons. lia. Qed.

Lemma sumZ_nonneg' {A} (f : A → Z) l : (∀ x, 0 ≤ f x)%Z → (0 ≤ sumZ f l)%Z.
Proof. intros Hf. apply sumZ_nonneg, Forall_true. auto. Qed.

Lemma sumZ_elem {A} (f : A → Z) l x :
  Forall (λ x, 0 ≤ f x)%Z l → x ∈ l → (f x ≤ sumZ f l)%Z.
Proof.
  intros Hf [i Hi]%list_elem_of_lookup. rewrite <-(take_drop_middle l i x Hi) in Hf |- *.
  apply Forall_app in Hf as [H1 [_ H2]%Forall_cons]. rewrite sumZ_app, sumZ_cons.
  apply sumZ_nonneg in H1, H2. lia.
Qed.

Lemma here_nonneg x l : (0 ≤ here x l)%Z.
Proof. unfold here. case_decide; lia. Qed.
Lemma here_eq l : here l l = 1%Z.
Proof. unfold here. by rewrite decide_True. Qed.
Lemma ev_refs_nonneg l e : (0 ≤ ev_refs l e)%Z.
Proof. unfold ev_refs. case_match; [apply here_nonneg|lia]. Qed.
Lemma op_refs_nonneg l o : (0 ≤ op_refs l o)%Z.
Proof. unfold op_refs. case_match; try lia; apply ev_refs_nonneg. Qed.
Lemma op_retains_nonneg l o : (0 ≤ op_retains l o)%Z.
Proof. unfold op_retains. case_match; try lia; apply here_nonneg. Qed.
Lemma task_refs_nonneg l k : (0 ≤ task_refs l k)%Z.
Proof. unfold task_refs. case_match; [apply ev_refs_nonneg|lia]. Qed.
#[export] Hint Resolve here_nonneg ev_refs_nonneg op_refs_nonneg op_retains_nonneg task_refs_nonneg
  sumZ_nonneg' : voce.

Lemma node_refs_nonneg l n : (0 ≤ node_refs l n)%Z.
Proof.
  unfold node_refs. case_match; [|lia].
  apply Z.add_nonneg_nonneg; auto with voce.
Qed.
Lemma worker_refs_nonneg l w : (0 ≤ worker_refs l w)%Z.
Proof. apply Z.add_nonneg_nonneg; auto with voce. Qed.
Lemma held_nonneg th l : (0 ≤ held th l)%Z.
Proof. apply Z.add_nonneg_nonneg; [case_match|]; auto with voce; lia. Qed.
#[export] Hint Resolve node_refs_nonneg worker_refs_nonneg held_nonneg : voce.

Lemma ops_ok_le h os l :
  ops_ok h os → (sumZ (op_retains l) os ≤ sumZ (op_refs l) os)%Z.
Proof. destruct os; [done|]. intros (_ & Hle & _). apply Hle. Qed.

Lemma ops_ok_retains h os l : ops_ok h os → h l = 0%Z → sumZ (op_retains l) os = 0%Z.
Proof.
  intros Hok Hh. induction os as [|o os IH]; [done|].
  destruct Hok as (Ho & _ & Hok). rewrite sumZ_cons, IH by done.
  destruct o; simpl; try done. unfold here. case_decide; [subst; lia|done].
Qed.

Lemma ops_ok_mono h h' os : (∀ l, h l ≤ h' l)%Z → ops_ok h os → ops_ok h' os.
Proof.
  intros Hh. induction os as [|o os IH]; [done|]. intros (Ho & Hle & Hok).
  split_and!; [|done|auto]. destruct o; try done. specialize (Hh l). lia.
Qed.

(** A thread's share of the count is positive as soon as it holds a reference. *)
Lemma thread_net_bounds th l :
  thread_ok th →
  (held th l ≤ thread_net l th)%Z ∧
  (0 < sumZ (op_refs l) (ops th) → 0 < thread_net l th)%Z.
Proof.
  intros [Hok _]. unfold thread_net. pose proof (ops_ok_le _ _ l Hok) as Hle.
  pose proof (held_nonneg th l) as Hh. split; [lia|]. intros Hr.
  destruct (decide (held th l = 0%Z)) as [E|]; [|lia].
  rewrite (ops_ok_retains _ _ l Hok E). lia.
Qed.

Lemma thread_net_nonneg l th : thread_ok th → (0 ≤ thread_net l th)%Z.
Proof. intros Hok. pose proof (thread_net_bounds th l Hok). pose proof (held_nonneg th l). lia. Qed.

Lemma holders_nonneg s l : Forall thread_ok (threads s) → (0 ≤ holders s l)%Z.
Proof.
  intros Hok. unfold holders. pose proof (sumZ_nonneg' (node_refs l) (nodes s)) as H1.
  pose proof (sumZ_nonneg' (worker_refs l) (workers s)) as H2.
  assert (0 ≤ sumZ (thread_net l) (threads s))%Z.
  { apply sumZ_nonneg. eapply Forall_impl; [exact Hok|]. intros. by apply thread_net_nonneg. }
  specialize (H1 (node_refs_nonneg l)). specialize (H2 (worker_refs_nonneg l)). lia.
Qed.

(** The effect of [Release], [Retain] and a new object on an exact count. *)
Definition exact (m : gmap loc Z) (T : loc → Z) : Prop :=
  (∀ k, default 0%Z (m !! k) = T k) ∧ map_Forall (λ _ n, (0 < n)%Z) m.

Lemma exact_release m T T' l :
  exact m T → (∀ k, T' k = T k - here l k)%Z → (∀ k, 0 ≤ T' k)%Z → exact (Release m l) T'.
Proof.
  intros [He Hp] HT Hn. unfold Release. rewrite He. specialize (HT l) as HTl. rewrite here_eq in HTl.
  assert (∀ k, k ≠ l → T' k = T k) as Hne.
  { intros k Hk. rewrite HT. unfold here. rewrite decide_False by congruence. lia. }
  case_decide as Hd; split.
  - intros k. rewrite lookup_insert. case_decide; subst; simpl; [lia|]. rewrite He, Hne by done. done.
  - by apply map_Forall_insert_2.
  - intros k. rewrite lookup_delete. case_decide; subst; simpl; [specialize (Hn k); lia|].
    rewrite He, Hne by done. done.
  - by apply map_Forall_delete.
Qed.

Lemma exact_retain m T T' l :
  exact m T → (∀ k, T' k = T k + here l k)%Z → (0 < T' l)%Z → exact (Retain m l) T'.
Proof.
  intros [He Hp] HT Hn. unfold Retain. rewrite He. specialize (HT l) as HTl. rewrite here_eq in HTl.
  split.
  - intros k. rewrite lookup_insert. case_decide; subst; simpl; [lia|]. rewrite He, HT.
    unfold here. rewrite decide_False by done. lia.
  - apply map_Forall_insert_2; [lia|done].
Qed.

Lemma exact_ext m T T' : exact m T → (∀ k, T' k = T k) → exact m T'.
Proof. intros [He Hp] HT. split; [|done]. intros k. by rewrite He, HT. Qed.

Lemma exact_release_event m T T' ev :
  exact m T → (∀ k, T' k = T k - ev_refs k ev)%Z → (∀ k, 0 ≤ T' k)%Z →
  exact (release_event m ev) T'.
Proof.
  intros He HT Hn. unfold release_event. unfold ev_refs in HT.
  destruct (ref_of ev); [by eapply exact_release|].
  eapply exact_ext; [done|]. intros k. rewrite HT. lia.
Qed.

Lemma counts_inv_iff s :
  counts_inv s ↔ exact (counts s) (holders s) ∧ Forall thread_ok (threads s).
Proof. split; [intros [? ? ?]; by repeat split|intros [[? ?] ?]; by split]. Qed.

Lemma sumZ_remove_one l k ls :
  l ∈ ls → sumZ (λ x, here x k) (remove_one l ls) = (sumZ (λ x, here x k) ls - here l k)%Z.
Proof.
  induction ls as [|x ls IH]; [by intros ?%elem_of_nil|]. intros Hin. cbn [remove_one].
  case_decide as Hx; subst; rewrite !sumZ_cons; [lia|].
  apply elem_of_cons in Hin as [->|Hin]; [done|]. rewrite IH by done. lia.
Qed.

(** ** Every step keeps the counts exact *)

(** Rewrite the holders of an updated state. *)
Lemma holders_set_thread s t th th' l :
  threads s !! t = Some th →
  holders (set_thread t th' s) l = (holders s l - thread_net l th + thread_net l th')%Z.
Proof. intros Ht. unfold holders. simpl. rewrite (sumZ_insert _ _ _ _ _ Ht). lia. Qed.

Lemma holders_set_node s j n n' l :
  nodes s !! j = Some n →
  holders (set_node j n' s) l = (holders s l - node_refs l n + node_refs l n')%Z.
Proof. intros Hn. unfold holders. simpl. rewrite (sumZ_insert _ _ _ _ _ Hn). lia. Qed.

Lemma holders_set_worker s w wk wk' l :
  workers s !! w = Some wk →
  holders (set_worker w wk' s) l = (holders s l - worker_refs l wk + worker_refs l wk')%Z.
Proof. intros Hw. unfold holders. simpl. rewrite (sumZ_insert _ _ _ _ _ Hw). lia. Qed.

Lemma holders_set_counts s m l : holders (set_counts m s) l = holders s l.
Proof. done. Qed.

Lemma threads_ok_insert s t th' :
  Forall thread_ok (threads s) → thread_ok th' → Forall thread_ok (<[t := th']> (threads s)).
Proof. intros Hall Hok. by apply Forall_insert. Qed.

(** A change of one thread that keeps its share keeps the invariant. *)
Lemma inv_thread s t th th' :
  counts_inv s → threads s !! t = Some th → thread_ok th' →
  (∀ l, thread_net l th' = thread_net l th) → counts_inv (set_thread t th' s).
Proof.
  rewrite !counts_inv_iff. intros [He Hall] Ht Hok Hnet. split; [|by apply threads_ok_insert].
  eapply exact_ext; [exact He|]. intros k. rewrite (holders_set_thread s t th) by done.
  rewrite Hnet. lia.
Qed.

(** A move between a queue and a thread. *)
Lemma inv_recv_node s t th th' j n n' :
  counts_inv s → threads s !! t = Some th → nodes s !! j = Some n → thread_ok th' →
  (∀ l, thread_net l th' + node_refs l n' = thread_net l th + node_refs l n)%Z →
  counts_inv (set_thread t th' (set_node j n' s)).
Proof.
  rewrite !counts_inv_iff. intros [He Hall] Ht Hn Hok Hnet. split; [|by apply threads_ok_insert].
  eapply exact_ext; [exact He|]. intros k.
  rewrite (holders_set_thread (set_node j n' s) t th), (holders_set_node s j n) by done.
  specialize (Hnet k). lia.
Qed.

Lemma inv_recv_worker s t th th' w wk wk' :
  counts_inv s → threads s !! t = Some th → workers s !! w = Some wk → thread_ok th' →
  (∀ l, thread_net l th' + worker_refs l wk' = thread_net l th + worker_refs l wk)%Z →
  counts_inv (set_thread t th' (set_worker w wk' s)).
Proof.
  rewrite !counts_inv_iff. intros [He Hall] Ht Hn Hok Hnet. split; [|by apply threads_ok_insert].
  eapply exact_ext; [exact He|]. intros k.
  rewrite (holders_set_thread (set_worker w wk' s) t th), (holders_set_worker s w wk) by done.
  specialize (Hnet k). lia.
Qed.

Lemma thread_ok_nil th : ops th = [] → quiet th → thread_ok th.
Proof. unfold thread_ok. by intros ->. Qed.

Lemma thread_net_idle th l : ops th = [] → thread_net l th = held th l.
Proof. unfold thread_net. intros ->. simpl. lia. Qed.

(** *** Read loops *)
Lemma inv_pick_loop all c t i th b n s s' :
  counts_inv s → threads s !! t = Some th → cur th = None → ops th = [] →
  nodes s !! i = Some (mkRNode b (LoopNode n)) →
  pick_loop all c t i th b n s = Some s' → counts_inv s'.
Proof.
  intros Hi Ht Hc Ho Hn Hs. unfold pick_loop in Hs.
  assert (∀ ev n' th', th' = handle i ev th →
    (∀ l, node_refs l (mkRNode b (LoopNode n')) +
      (match ev with Some e => ev_refs l e | None => 0 end) = node_refs l (mkRNode b (LoopNode n)))%Z →
    counts_inv (set_thread t th' (set_node i (mkRNode b (LoopNode n')) s))) as Hgo.
  { intros ev n' th' -> Hr. eapply inv_recv_node; [done..|by apply thread_ok_nil|].
    intros l. rewrite !thread_net_idle by done. unfold held. simpl. rewrite Hc.
    specialize (Hr l). lia. }
  assert (∀ n', (∀ l, node_refs l (mkRNode b (LoopNode n')) = node_refs l (mkRNode b (LoopNode n))) →
    counts_inv (set_thread t (set_phase PExit th) (set_node i (mkRNode b (LoopNode n')) s))) as Hexit.
  { intros n' Hr. eapply inv_recv_node; [done..|by apply thread_ok_nil|].
    intros l. rewrite Hr. unfold thread_net, held. simpl. lia. }
  destruct c; simpl in Hs; try done.
  - destruct (done s); [|done]. simplify_eq. eapply inv_thread; [done..|by apply thread_ok_nil|done].
  - destruct (recv_case (ctrlChan n)) as [[ctl ch]|] eqn:E; [|done]. simplify_eq/=.
    case_decide; [by apply Hexit|]. eapply Hgo; [done|]. intros l. unfold node_refs. simpl. lia.
  - destruct (recv_case (signalChan n)) as [[x ch]|] eqn:E; [|done]. simplify_eq/=.
    eapply Hgo; [done|]. intros l. unfold ev_refs, node_refs. simpl. lia.
  - destruct all, (recv_case (payloadChan n)) as [[x ch]|] eqn:E; [|done..]. simplify_eq/=.
    eapply Hgo; [done|]. intros l. unfold ev_refs, node_refs. simpl. lia.
  - destruct all, (recv_case (audioChan n)) as [[x ch]|] eqn:E; [|done..]. simplify_eq/=.
    apply recv_case_Some in E as (E & _). eapply Hgo; [done|]. intros l.
    unfold ev_refs, node_refs. simpl. rewrite E, sumZ_cons. lia.
  - destruct all, (recv_case (videoChan n)) as [[x ch]|] eqn:E; [|done..]. simplify_eq/=.
    apply recv_case_Some in E as (E & _). eapply Hgo; [done|]. intros l.
    unfold ev_refs, node_refs. simpl. rewrite E, sumZ_cons. lia.
Qed.

Lemma inv_pick_worker all c t w th wk s s' :
  counts_inv s → threads s !! t = Some th → cur th = None → ops th = [] →
  workers s !! w = Some wk →
  pick_worker all c t w th wk s = Some s' → counts_inv s'.
Proof.
  intros Hi Ht Hc Ho Hw Hs. unfold pick_worker in Hs.
  assert (∀ task wk', (∀ l, worker_refs l wk' + task_refs l task = worker_refs l wk)%Z →
    counts_inv (set_thread t (execute task th) (set_worker w wk' s))) as Hgo.
  { intros task wk' Hr. unfold task_refs, execute in *. destruct (task_what task);
      (eapply inv_recv_worker; [done..|by apply thread_ok_nil|];
       intros l; rewrite !thread_net_idle by done; unfold held; simpl; rewrite Hc;
       specialize (Hr l); lia). }
  destruct c; simpl in Hs; try done.
  - destruct (done s); [|done]. simplify_eq. eapply inv_thread; [done..|by apply thread_ok_nil|done].
  - destruct (recv_case (highPriorityCh wk)) as [[task ch]|] eqn:E; [|done]. simplify_eq/=.
    apply recv_case_Some in E as (E & _). apply Hgo. intros l.
    unfold worker_refs. simpl. rewrite E, sumZ_cons. lia.
  - destruct all, (recv_case (normalPriorityCh wk)) as [[task ch]|] eqn:E; [|done..]. simplify_eq/=.
    apply recv_case_Some in E as (E & _). apply Hgo. intros l.
    unfold worker_refs. simpl. rewrite E, sumZ_cons. lia.
Qed.

(** A release that removes one holder. *)
Lemma inv_release_in s s1 ev :
  counts_inv s → threads s1 = threads s →
  (∀ l, holders s1 l = holders s l - ev_refs l ev)%Z →
  counts_inv (set_counts (release_event (counts s) ev) s1).
Proof.
  rewrite !counts_inv_iff. intros [He Hall] Ht Hh. simpl. rewrite Ht. split; [|done].
  eapply exact_release_event; [exact He|done|]. intros k.
  apply holders_nonneg. simpl. by rewrite Ht.
Qed.

Lemma inv_pick_drain c th s s' :
  counts_inv s → pick_drain c th s = Some s' → counts_inv s'.
Proof.
  intros Hi Hs. unfold pick_drain in Hs. destruct (kind th) as [i|w|]; [..|done].
  - destruct (nodes s !! i) as [[b im]|] eqn:En; [|done]. simpl in Hs.
    destruct im as [ln|]; [|done]. destruct c; try done.
    + destruct (recv_case _) as [[l ch]|] eqn:E; [|done]. simplify_eq/=.
      apply recv_case_Some in E as (E & _). apply (inv_release_in s _ (Audio l)); [done..|].
      intros k. rewrite (holders_set_node s i _ _ k En). unfold node_refs, ev_refs. simpl.
      rewrite E, sumZ_cons. lia.
    + destruct (recv_case _) as [[l ch]|] eqn:E; [|done]. simplify_eq/=.
      apply recv_case_Some in E as (E & _). apply (inv_release_in s _ (Audio l)); [done..|].
      intros k. rewrite (holders_set_node s i _ _ k En). unfold node_refs, ev_refs. simpl.
      rewrite E, sumZ_cons. lia.
  - destruct (workers s !! w) as [wk|] eqn:Ew; [|done]. simpl in Hs.
    assert (∀ task wk', (∀ l, worker_refs l wk' + task_refs l task = worker_refs l wk)%Z →
      counts_inv (set_counts (release_task (counts s) task) (set_worker w wk' s))) as Hgo.
    { intros task wk' Hr. unfold release_task, task_refs in *. destruct (task_what task) as [ev|].
      - apply inv_release_in; [done..|]. intros k. rewrite (holders_set_worker s w _ _ k Ew).
        specialize (Hr k). lia.
      - apply counts_inv_iff in Hi as [He Hall]. apply counts_inv_iff. split; [|done].
        eapply exact_ext; [exact He|]. intros k. rewrite holders_set_counts.
        rewrite (holders_set_worker s w _ _ k Ew). specialize (Hr k). lia. }
    destruct c; try done.
    + destruct (recv_case _) as [[task ch]|] eqn:E; [|done]. simplify_eq/=.
      apply recv_case_Some in E as (E & _). apply Hgo. intros l.
      unfold worker_refs. simpl. rewrite E, sumZ_cons. lia.
    + destruct (recv_case _) as [[task ch]|] eqn:E; [|done]. simplify_eq/=.
      apply recv_case_Some in E as (E & _). apply Hgo. intros l.
      unfold worker_refs. simpl. rewrite E, sumZ_cons. lia.
Qed.

(** *** Input *)
Lemma sent_chan_enqueue {A} (os : list (send_outcome A)) k c ch v d1 d2 :
  (∀ o, o ∈ os → o ∈ SendWithContext d1 d2 ch v ∨ o = ErrSendBlocked) →
  sent_chan os k = Some (Some c) → c = enqueue ch v.
Proof.
  unfold sent_chan. intros Hos Hk. destruct (os !! k) as [o|] eqn:E; [|done].
  destruct o; simplify_eq. apply list_elem_of_lookup_2, Hos in E as [E|]; [|done].
  apply SendWithContext_spec in E as [[? _]|[_ E]]; [done|].
  apply send_case_spec in E as [[_ ?]|(_ & _ & ?)]; [done|]. by simplify_eq.
Qed.

Lemma sent_context {A} d1 d2 (ch : chan A) v k c :
  sent_chan (SendWithContext d1 d2 ch v) k = Some (Some c) → c = enqueue ch v.
Proof. apply (sent_chan_enqueue _ _ _ _ _ d1 d2). auto. Qed.

Lemma sent_nonblocking {A} d1 d2 (ch : chan A) v k c :
  sent_chan (SendWithNonBlocking d1 d2 ch v) k = Some (Some c) → c = enqueue ch v.
Proof.
  apply (sent_chan_enqueue _ _ _ _ _ d1 d2). intros o Ho%SendWithNonBlocking_spec. naive_solver.
Qed.

(** [Input] consumes the reference it is given: into the queue or by a release. *)
Lemma loop_Input_exact early d k n ev m n' m' b T :
  loop_Input early d k n ev m = Some (n', m') → (∀ l, 0 ≤ T l)%Z →
  exact m (λ l, T l + node_refs l (mkRNode b (LoopNode n)) + ev_refs l ev)%Z →
  exact m' (λ l, T l + node_refs l (mkRNode b (LoopNode n')))%Z.
Proof.
  intros Hs HT He.
  assert (∀ l, 0 ≤ T l + node_refs l (mkRNode b (LoopNode n)))%Z as Hn0.
  { intros l. specialize (HT l). pose proof (node_refs_nonneg l (mkRNode b (LoopNode n))). lia. }
  destruct ev as [x|x|x|x]; simpl in Hs;
    (destruct (sent_chan _ k) as [[c|]|] eqn:E; [..|done]); simplify_eq/=;
    try (apply sent_context in E; subst c); try (apply sent_nonblocking in E; subst c).
  1-4: eapply exact_ext; [exact He|]; intros l; unfold ev_refs, node_refs; simpl; lia.
  - eapply exact_ext; [exact He|]; intros l; unfold ev_refs, node_refs; simpl.
    rewrite sumZ_app, sumZ_cons. simpl. lia.
  - eapply exact_release; [exact He| |done]. intros l. unfold ev_refs. simpl. lia.
  - eapply exact_ext; [exact He|]; intros l; unfold ev_refs, node_refs; simpl.
    rewrite sumZ_app, sumZ_cons. simpl. lia.
  - eapply exact_release; [exact He| |done]. intros l. unfold ev_refs. simpl. lia.
Qed.

Lemma SubmitToWorker_exact early d k w j ev m w' m' T :
  SubmitToWorker early d k w j ev m = Some (w', m') → (∀ l, 0 ≤ T l)%Z →
  exact m (λ l, T l + worker_refs l w + ev_refs l ev)%Z →
  exact m' (λ l, T l + worker_refs l w')%Z.
Proof.
  intros Hs HT He.
  assert (∀ l, 0 ≤ T l + worker_refs l w)%Z as Hn0.
  { intros l. specialize (HT l). pose proof (worker_refs_nonneg l w). lia. }
  destruct ev as [x|x|x|x]; simpl in Hs;
    (destruct (sent_chan _ k) as [[c|]|] eqn:E; [..|done]); simplify_eq/=;
    try (apply sent_context in E; subst c); try (apply sent_nonblocking in E; subst c).
  2,4: eapply exact_ext; [exact He|]; intros l; unfold ev_refs; simpl; lia.
  4,6: eapply exact_release; [exact He| |done]; intros l; unfold ev_refs; simpl; lia.
  all: eapply exact_ext; [exact He|]; intros l; unfold worker_refs, task_refs, ev_refs; simpl;
    rewrite sumZ_app, sumZ_cons; simpl; lia.
Qed.

Lemma holders_split_node s j n l :
  nodes s !! j = Some n → Forall thread_ok (threads s) →
  (0 ≤ holders s l - node_refs l n)%Z.
Proof.
  intros Hn Hall. rewrite <-(Z.add_0_r (_ - _)).
  change 0%Z with (node_refs l (mkRNode (base n) (SchedulerNode 0))) at 2.
  rewrite <-(holders_set_node s j) by done. by apply holders_nonneg.
Qed.

Lemma holders_split_worker s w wk l :
  workers s !! w = Some wk → Forall thread_ok (threads s) →
  (0 ≤ holders s l - worker_refs l wk)%Z.
Proof.
  intros Hn Hall. rewrite <-(Z.add_0_r (_ - _)).
  change 0%Z with (worker_refs l (newWorker 0)) at 2.
  rewrite <-(holders_set_worker s w) by done. by apply holders_nonneg.
Qed.

Lemma inv_exec_send early k j ev s s' :
  exact (counts s) (λ l, holders s l + ev_refs l ev)%Z → Forall thread_ok (threads s) →
  exec_send early k j ev s = Some s' → counts_inv s'.
Proof.
  intros He Hall Hs. unfold exec_send in Hs.
  destruct (nodes s !! j) as [[b im]|] eqn:En; [|done]. simpl in Hs. destruct im as [ln|wi].
  - destruct (loop_Input _ _ k ln ev (counts s)) as [[ln' m']|] eqn:E; [|done]. simplify_eq/=.
    apply counts_inv_iff. split; [|done]. simpl.
    eapply exact_ext; [eapply (loop_Input_exact _ _ _ _ _ _ _ _ b
      (λ l, holders s l - node_refs l (mkRNode b (LoopNode ln)))%Z); [exact E|..]|].
    + intros l. by apply (holders_split_node s j).
    + eapply exact_ext; [exact He|]. intros l. simpl. lia.
    + intros l. rewrite holders_set_counts, (holders_set_node s j _ _ l En). lia.
  - destruct (workers s !! wi) as [wk|] eqn:Ew; [|done]. simpl in Hs.
    destruct (SubmitToWorker _ _ k wk j ev (counts s)) as [[wk' m']|] eqn:E; [|done]. simplify_eq/=.
    apply counts_inv_iff. split; [|done]. simpl.
    eapply exact_ext; [eapply (SubmitToWorker_exact _ _ _ _ _ _ _ _ _
      (λ l, holders s l - worker_refs l wk)%Z); [exact E|..]|].
    + intros l. by apply (holders_split_worker s wi).
    + eapply exact_ext; [exact He|]. intros l. simpl. lia.
    + intros l. rewrite holders_set_counts, (holders_set_worker s wi _ _ l Ew). lia.
Qed.

Lemma inv_exec_control early k j c s s' :
  counts_inv s → exec_control early k j c s = Some s' → counts_inv s'.
Proof.
  intros Hi Hs. unfold exec_control in Hs.
  destruct (nodes s !! j) as [[b im]|] eqn:En; [|done]. simpl in Hs.
  apply counts_inv_iff in Hi as [He Hall]. destruct im as [ln|wi].
  - destruct (sent_chan _ k) as [[ch|]|] eqn:E; [..|done]; simplify_eq/=; [|by apply counts_inv_iff].
    apply counts_inv_iff. split; [|done]. eapply exact_ext; [exact He|].
    intros l. rewrite (holders_set_node s j _ _ l En). unfold node_refs. simpl. lia.
  - destruct (workers s !! wi) as [wk|] eqn:Ew; [|done]. simpl in Hs.
    destruct (sent_chan _ k) as [[ch|]|] eqn:E; [..|done]; simplify_eq/=; [|by apply counts_inv_iff].
    apply sent_context in E; subst ch.
    apply counts_inv_iff. split; [|done]. eapply exact_ext; [exact He|].
    intros l. rewrite (holders_set_worker s wi _ _ l Ew). unfold worker_refs. simpl.
    rewrite sumZ_app, sumZ_cons. change (task_refs l (mkTask j (inr c))) with 0%Z. simpl. lia.
Qed.

(** *** Effects of a call in progress *)
Lemma quiet_busy th o rest os : ops th = o :: rest → quiet th → quiet (set_ops os th).
Proof.
  unfold quiet. simpl. intros Ho. destruct (at_phase th); try done; intros [_ Ho']; congruence.
Qed.

Lemma inv_exec_op early k t th o rest s s' :
  counts_inv s → threads s !! t = Some th → ops th = o :: rest →
  exec_op early k t th o rest s = Some s' → counts_inv s'.
Proof.
  intros Hi Ht Ho Hs. pose proof Hi as [He Hall]%counts_inv_iff.
  assert (thread_ok th) as Hok by (rewrite Forall_lookup in Hall; eauto).
  destruct Hok as [Hops Hq]. rewrite Ho in Hops. destruct Hops as (Hhead & Hle & Hrest).
  pose proof (λ os, quiet_busy th o rest os Ho Hq) as Hq'.
  assert (thread_ok (set_ops rest th)) as Hok' by (split; [done|apply Hq']).
  assert (∀ l, thread_net l (set_ops rest th) =
    thread_net l th - op_refs l o + op_retains l o)%Z as Hnet.
  { intros l. unfold thread_net. simpl. rewrite Ho, !sumZ_cons. unfold held. simpl. lia. }
  set (s1 := set_thread t (set_ops rest th) s) in *.
  assert (∀ l, holders s1 l = holders s l - op_refs l o + op_retains l o)%Z as Hh1.
  { intros l. unfold s1. rewrite (holders_set_thread s t th) by done. rewrite Hnet. lia. }
  assert (Forall thread_ok (threads s1)) as Hall1 by by apply threads_ok_insert.
  unfold exec_op in Hs. fold s1 in Hs. destruct o as [l|j ev|j ev|l|j c|j c].
  - simplify_eq/=. apply counts_inv_iff. split; [|done]. simpl.
    eapply exact_retain; [exact He|..].
    + intros q. rewrite holders_set_counts, Hh1. simpl. lia.
    + rewrite holders_set_counts, Hh1. simpl. rewrite here_eq.
      pose proof (holders_nonneg s l Hall). lia.
  - destruct (nodes s !! j) as [n|] eqn:En; [|done]. simpl in Hs. destruct (node_open s n).
    + simplify_eq. eapply inv_thread; [done..| |].
      * by split.
      * intros q. unfold thread_net. simpl. rewrite Ho, !sumZ_cons. unfold held. simpl. lia.
    + simplify_eq. apply counts_inv_iff. split; [|done]. simpl.
      eapply exact_release_event; [exact He|..].
      * intros q. rewrite holders_set_counts, Hh1. simpl. lia.
      * intros q. by apply holders_nonneg.
  - eapply inv_exec_send; [|exact Hall1|exact Hs]. eapply exact_ext; [exact He|].
    intros q. rewrite Hh1. simpl. lia.
  - simpl in Hhead. subst rest. case_decide as Hown; [|done]. simplify_eq.
    apply counts_inv_iff. split.
    + simpl. eapply exact_release; [exact He|..].
      * intros q. rewrite holders_set_counts, (holders_set_thread s t th) by done.
        unfold thread_net, held. rewrite Ho. simpl. rewrite sumZ_remove_one by done. lia.
      * intros q. apply holders_nonneg. apply threads_ok_insert; [done|]. apply thread_ok_nil; [done|apply (Hq' [])].
    + apply threads_ok_insert; [done|]. apply thread_ok_nil; [done|apply (Hq' [])].
  - destruct (nodes s !! j) as [n|] eqn:En; [|done]. simpl in Hs. destruct (running (base n)).
    + simplify_eq. eapply inv_thread; [done..| |].
      * by split.
      * intros q. unfold thread_net. simpl. rewrite Ho, !sumZ_cons. unfold held. simpl. lia.
    + simplify_eq. eapply inv_thread; [done..|]. intros q. rewrite Hnet. simpl. lia.
  - eapply inv_exec_control; [|exact Hs]. eapply inv_thread; [done..|].
    intros q. rewrite Hnet. simpl. lia.
Qed.

(** *** Calls of plugin and caller code *)
Lemma sumZ_replicate {A} (f : A → Z) n x : sumZ f (replicate n x) = (Z.of_nat n * f x)%Z.
Proof. induction n as [|n IH]; [done|]. cbn [replicate]. rewrite sumZ_cons, IH. lia. Qed.

Lemma sumZ_fmap {A B} (f : B → Z) (g : A → B) l : sumZ f (g <$> l) = sumZ (f ∘ g) l.
Proof. induction l as [|x l IH]; [done|]. rewrite fmap_cons, !sumZ_cons. by rewrite IH. Qed.

Lemma sumZ_const {A} (l : list A) c : sumZ (λ _, c) l = (Z.of_nat (length l) * c)%Z.
Proof. induction l as [|x l IH]; [done|]. rewrite sumZ_cons, IH. simpl. lia. Qed.

Lemma refs_input_all l targets ev :
  sumZ (op_refs l) (input_all targets ev) = (Z.of_nat (length targets) * ev_refs l ev)%Z.
Proof. unfold input_all. rewrite sumZ_fmap. apply (sumZ_const targets). Qed.

Lemma retains_input_all l targets ev : sumZ (op_retains l) (input_all targets ev) = 0%Z.
Proof.
  unfold input_all. rewrite sumZ_fmap. etrans; [apply (sumZ_const targets 0)|lia].
Qed.

Lemma ops_ok_inputs h targets ev : ops_ok h (input_all targets ev).
Proof.
  induction targets as [|j js IH]; [done|]. split_and!; [done| |done]. intros l.
  change (_ :: _) with (input_all (j :: js) ev). rewrite retains_input_all, refs_input_all.
  pose proof (ev_refs_nonneg l ev). lia.
Qed.

Lemma ops_ok_media h x k targets ev :
  ref_of ev = Some x → (0 < h x)%Z → k ≤ length targets →
  ops_ok h (replicate k (OpRetain x) ++ input_all targets ev).
Proof.
  intros Hr Hh. induction k as [|k IH]; intros Hk; [apply ops_ok_inputs|].
  split_and!; [done| |apply IH; lia]. intros l.
  change (_ :: _) with (replicate (S k) (OpRetain x) ++ input_all targets ev).
  rewrite !sumZ_app, !sumZ_replicate, retains_input_all, refs_input_all.
  unfold ev_refs. rewrite Hr. simpl op_refs. simpl op_retains.
  pose proof (here_nonneg x l). nia.
Qed.

Lemma ops_ok_flow_send h ctxErr n port ev :
  (∀ l, ref_of ev = Some l → 0 < h l)%Z → ops_ok h (flow_send ctxErr n port ev).
Proof.
  intros Hh. destruct (flow_send_shape ctxErr n port ev) as [ts ->].
  destruct (ref_of ev) as [l|] eqn:Hr; [|apply ops_ok_inputs].
  apply ops_ok_media; auto.
Qed.

(** Sends owe exactly the references they hand over. *)
Lemma flow_send_balanced l ctxErr n port ev :
  sumZ (op_refs l) (flow_send ctxErr n port ev) = sumZ (op_retains l) (flow_send ctxErr n port ev).
Proof.
  destruct (flow_send_shape ctxErr n port ev) as [ts ->].
  rewrite !sumZ_app, retains_input_all, refs_input_all. unfold ev_refs, retain_all.
  destruct (ref_of ev) as [x|]; [|simpl; lia]. rewrite !sumZ_replicate. simpl. lia.
Qed.

Lemma Broadcast_balanced l n ev :
  sumZ (op_refs l) (Broadcast_ops n ev) = sumZ (op_retains l) (Broadcast_ops n ev).
Proof.
  unfold Broadcast_ops. rewrite !sumZ_app.
  assert (sumZ (op_refs l) (match ref_of ev with Some x => [OpRelease x] | None => [] end) = 0%Z ∧
    sumZ (op_retains l) (match ref_of ev with Some x => [OpRelease x] | None => [] end) = 0%Z)
    as [-> ->] by by destruct (ref_of ev).
  f_equal. induction (seq 0 n) as [|j js IH]; [done|]. cbn [mbind list_bind]. rewrite !sumZ_app, IH.
  f_equal. unfold ev_refs. destruct (ref_of ev) as [x|] eqn:E; simpl; unfold ev_refs; rewrite E; lia.
Qed.

Lemma ops_ok_Broadcast h n ev :
  (∀ l, ref_of ev = Some l → 0 < h l)%Z → ops_ok h (Broadcast_ops n ev).
Proof.
  intros Hh. unfold Broadcast_ops. generalize (seq 0 n) as js. intros js.
  destruct (ref_of ev) as [x|] eqn:Hr; simpl.
  - assert (0 < h x)%Z as Hx by auto. clear Hh.
    induction js as [|j js IH]; simpl in *.
    { split_and!; [done| |done]. intros l. done. }
    set (tail := list_bind _ _ _ js ++ [OpRelease x]) in *.
    assert (∀ l, sumZ (op_retains l) tail ≤ sumZ (op_refs l) tail)%Z as Ht
      by (intros l; by eapply ops_ok_le).
    split_and!; [done| |done| |done]; intros l; specialize (Ht l);
      change (foldr (λ x a, (op_retains l x + a)%Z) 0%Z) with (sumZ (op_retains l));
      change (foldr (λ x a, (op_refs l x + a)%Z) 0%Z) with (sumZ (op_refs l));
      rewrite ?sumZ_cons; simpl; unfold ev_refs; rewrite Hr;
      pose proof (here_nonneg x l); lia.
  - rewrite app_nil_r. replace (list_bind nat flow_op (λ j, [OpInput j ev]) js) with (input_all js ev);
      [apply ops_ok_inputs|].
    clear Hh. induction js as [|j js IH]; [done|]. simpl. by rewrite <-IH.
Qed.

Lemma reaches_held th ev l : reaches th ev = true → ref_of ev = Some l → (0 < held th l)%Z.
Proof.
  unfold reaches. intros Hr He. rewrite He in Hr. apply bool_decide_eq_true in Hr.
  unfold held. destruct Hr as [Hc|Ho].
  - unfold cur_ref in Hc. destruct (cur th) as [e|]; simpl in Hc; [|done].
    unfold ev_refs. rewrite Hc, here_eq.
    pose proof (sumZ_nonneg' (λ x, here x l) (owned th)) as Hn.
    assert (∀ x, 0 ≤ here x l)%Z as Hh by auto with voce. specialize (Hn Hh). lia.
  - assert (here l l ≤ sumZ (λ x, here x l) (owned th))%Z as Hn.
    { apply (sumZ_elem (λ x, here x l)); [|done]. apply Forall_true. auto with voce. }
    rewrite here_eq in Hn. case_match; [pose proof (ev_refs_nonneg l e)|]; lia.
Qed.

Lemma owned_held th l : l ∈ owned th → (0 < held th l)%Z.
Proof.
  intros Ho. apply (reaches_held th (Audio l)); [|done]. apply bool_decide_eq_true. by right.
Qed.

Lemma user_code th :
  in_user_code th = true → ops th = [] ∧ (∀ os ow, quiet (set_ops os (set_owned ow th))).
Proof.
  unfold in_user_code, quiet. simpl. destruct (at_phase th), (ops th); naive_solver.
Qed.

Lemma user_quiet th ow : in_user_code th = true → quiet (set_owned ow th).
Proof. unfold in_user_code, quiet. simpl. destruct (at_phase th), (ops th); naive_solver. Qed.

(** Thread [t] exchanges its holdings; the count of [l] follows. *)
Lemma inv_release_thread s t th th' l :
  counts_inv s → threads s !! t = Some th → thread_ok th' →
  (∀ k, thread_net k th' = thread_net k th - here l k)%Z →
  counts_inv (set_counts (Release (counts s) l) (set_thread t th' s)).
Proof.
  rewrite !counts_inv_iff. intros [He Hall] Ht Hok Hnet.
  assert (Forall thread_ok (<[t:=th']> (threads s))) by by apply threads_ok_insert.
  split; [|done]. simpl. eapply exact_release; [exact He|..].
  - intros k. rewrite holders_set_counts, (holders_set_thread s t th) by done. rewrite Hnet. lia.
  - intros k. by apply holders_nonneg.
Qed.

Lemma inv_retain_thread s t th th' l m :
  counts_inv s → threads s !! t = Some th → thread_ok th' →
  (∀ k, thread_net k th' = thread_net k th + here l k)%Z →
  m = Retain (counts s) l → counts_inv (set_counts m (set_thread t th' s)).
Proof.
  rewrite !counts_inv_iff. intros [He Hall] Ht Hok Hnet ->.
  assert (Forall thread_ok (<[t:=th']> (threads s))) by by apply threads_ok_insert.
  split; [|done]. simpl. eapply exact_retain; [exact He|..].
  - intros k. rewrite holders_set_counts, (holders_set_thread s t th) by done. rewrite Hnet. lia.
  - rewrite holders_set_counts, (holders_set_thread s t th), Hnet, here_eq by done.
    pose proof (holders_nonneg s l Hall). lia.
Qed.

Lemma thread_ok_lookup s t th : counts_inv s → threads s !! t = Some th → thread_ok th.
Proof. intros [_ _ Hall] Ht. rewrite Forall_lookup in Hall. eauto. Qed.

Lemma inv_exec_pick c t th s s' :
  counts_inv s → threads s !! t = Some th → exec_pick c t th s = Some s' → counts_inv s'.
Proof.
  intros Hi Ht Hs. destruct (thread_ok_lookup _ _ _ Hi Ht) as [_ Hq].
  unfold exec_pick in Hs. unfold quiet in Hq. revert Hs Hq.
  destruct (at_phase th) eqn:Hp; try done.
  1,2: intros Hs [Hc Ho]; destruct (kind th) as [i|w|]; [| |done].
  1,3: destruct (nodes s !! i) as [[b [ln|]]|] eqn:En; simpl in Hs; [|done..]; by eapply inv_pick_loop.
  1,2: destruct (workers s !! w) as [wk|] eqn:Ew; simpl in Hs; [|done]; by eapply inv_pick_worker.
  intros Hs _. by eapply inv_pick_drain.
Qed.

Lemma inv_exec_go t th s s' :
  counts_inv s → threads s !! t = Some th → exec_go t th s = Some s' → counts_inv s'.
Proof.
  intros Hi Ht Hs. destruct (thread_ok_lookup _ _ _ Hi Ht) as [Hok Hq].
  assert (∀ p, cur th = None ∧ ops th = [] → counts_inv (set_thread t (set_phase p th) s)) as Hph.
  { intros p [Hc Ho]. eapply inv_thread; [done..| |done]. apply thread_ok_nil; [done|].
    unfold quiet. simpl. by destruct p. }
  unfold exec_go in Hs. unfold quiet in Hq. destruct (at_phase th) eqn:Hp; try done.
  - destruct (kind th); try done. destruct (nodes s !! n); simplify_eq/=. by apply Hph.
  - destruct (none_ready t th s); simplify_eq/=. by apply Hph.
  - destruct (kind th) as [i| |]; try done. destruct (nodes s !! i) as [nd|] eqn:En; simplify_eq/=.
    eapply inv_recv_node; [done..| |done]. apply thread_ok_nil; [apply Hq|done].
  - destruct (none_ready t th s); simplify_eq/=. by apply Hph.
Qed.

Lemma inv_user_ops s t th os :
  counts_inv s → threads s !! t = Some th → in_user_code th = true →
  ops_ok (held th) os → (∀ l, sumZ (op_refs l) os = sumZ (op_retains l) os) →
  counts_inv (set_thread t (set_ops os th) s).
Proof.
  intros Hi Ht Hu Hos Hb. destruct (user_code th Hu) as [Ho Hq].
  eapply inv_thread; [done..|split; [done|apply (Hq os (owned th))]|].
  intros l. unfold thread_net at 1. simpl. rewrite (thread_net_idle th) by done.
  rewrite Hb. unfold held. simpl. lia.
Qed.

(** Giving a reference away or taking one. *)
Lemma owned_net th ow l :
  ops th = [] → (thread_net l (set_owned ow th) =
    thread_net l th - sumZ (λ x, here x l) (owned th) + sumZ (λ x, here x l) ow)%Z.
Proof. intros Ho. rewrite !thread_net_idle by done. unfold held. simpl. lia. Qed.

Lemma user_step_inv s s' t f :
  user_step t f s = Some s' →
  ∃ th, threads s !! t = Some th ∧ in_user_code th = true ∧ f th = Some s' ∧
    ops th = [] ∧ (∀ os ow, quiet (set_ops os (set_owned ow th))).
Proof.
  intros Hs. unfold user_step in Hs. destruct (threads s !! t) as [th|] eqn:Ht; [|done].
  simpl in Hs. destruct (in_user_code th) eqn:Hu; [|done]. exists th.
  destruct (user_code th Hu). done.
Qed.

Lemma inv_LReturn s t th a n :
  counts_inv s → threads s !! t = Some th → at_phase th = PPlugin n a → ops th = [] →
  counts_inv (set_counts (match cur th with Some ev => release_event (counts s) ev | None => counts s end)
    (set_thread t (mkThread (kind th) (return_phase (kind th) a) None [] (owned th)) s)).
Proof.
  intros Hi Ht Hp Ho.
  set (th' := mkThread (kind th) (return_phase (kind th) a) None [] (owned th)).
  assert (thread_ok th') as Hok.
  { apply thread_ok_nil; [done|]. unfold quiet. simpl. by destruct a, (kind th). }
  pose proof Hi as [He Hall]%counts_inv_iff.
  assert (Forall thread_ok (<[t:=th']> (threads s))) as Hall' by by apply threads_ok_insert.
  apply counts_inv_iff. split; [|done]. simpl. unfold th'. destruct (cur th) as [ev|] eqn:Hc.
  - eapply exact_release_event; [exact He|..].
    + intros q. rewrite holders_set_counts, (holders_set_thread s t th) by done.
      rewrite !thread_net_idle by done. unfold held. rewrite Hc. simpl. lia.
    + intros q. by apply holders_nonneg.
  - eapply exact_ext; [exact He|]. intros q.
    rewrite holders_set_counts, (holders_set_thread s t th) by done.
    rewrite !thread_net_idle by done. unfold held. rewrite Hc. simpl. lia.
Qed.

Lemma inv_LGive s t t' th th' l :
  counts_inv s → t ≠ t' → threads s !! t = Some th → threads s !! t' = Some th' →
  in_user_code th = true → l ∈ owned th →
  counts_inv (set_thread t' (set_owned (l :: owned th') th')
    (set_thread t (set_owned (remove_one l (owned th)) th) s)).
Proof.
  intros Hi Hne Ht Ht' Hu Hl. destruct (user_code th Hu) as [Ho Hq].
  destruct (thread_ok_lookup _ _ _ Hi Ht') as [Hok' Hq'].
  pose proof Hi as [He Hall]%counts_inv_iff.
  assert (threads (set_thread t (set_owned (remove_one l (owned th)) th) s) !! t' = Some th') as Hl'
    by (simpl; by rewrite list_lookup_insert_ne).
  apply counts_inv_iff. split.
  - eapply exact_ext; [exact He|]. intros k.
    rewrite (holders_set_thread _ t' th' _ k Hl'), (holders_set_thread s t th _ k Ht).
    rewrite owned_net, sumZ_remove_one by done.
    unfold thread_net, held. simpl. unfold sumZ. simpl. lia.
  - simpl. apply Forall_insert; [apply Forall_insert; [done|]|].
    + apply thread_ok_nil; [done|]. by apply user_quiet.
    + split; [|done]. eapply ops_ok_mono; [|exact Hok']. intros k. unfold held. simpl.
      pose proof (here_nonneg l k). unfold sumZ. simpl. lia.
Qed.

Lemma inv_step_user lb s s' :
  counts_inv s → step lb s = Some s' →
  match lb with
  | LSend _ _ _ | LNew _ _ | LKeep _ _ | LDrop _ _ | LGive _ _ _ | LReturn _
  | LDeliver _ _ _ | LBroadcast _ _ | LControl _ _ _ => counts_inv s'
  | _ => True
  end.
Proof.
  intros Hi Hs. pose proof Hi as [He Hall]%counts_inv_iff.
  destruct lb as [| | |t port ev|t l|t l|t l|t t' l|t|t j ev|t ev|t j c| | |]; try done;
    simpl in Hs; apply user_step_inv in Hs as (th & Ht & Hu & Hf & Ho & Hq).
  - destruct (at_phase th); try done. destruct (nodes s !! n) as [nd|]; [|done]. simpl in Hf.
    destruct (reaches th ev) eqn:Hr; simplify_eq. apply inv_user_ops; [done..| |].
    + apply ops_ok_flow_send. intros l. by apply reaches_held.
    + intros l. apply flow_send_balanced.
  - case_decide as Hn; [|done]. simplify_eq.
    eapply (inv_retain_thread s t th _ l); [done..|apply thread_ok_nil; [done|by apply user_quiet]| |].
    + intros k. rewrite owned_net by done. unfold sumZ. simpl. lia.
    + unfold Retain. by rewrite Hn.
  - destruct (reaches th (Audio l)) eqn:Hr; [|done]. simplify_eq.
    eapply (inv_retain_thread s t th _ l); [done..|apply thread_ok_nil; [done|by apply user_quiet]| |done].
    intros k. rewrite owned_net by done. unfold sumZ. simpl. lia.
  - case_decide as Hl; [|done]. simplify_eq.
    eapply (inv_release_thread s t th _ l); [done..|apply thread_ok_nil; [done|by apply user_quiet]|].
    intros k. rewrite owned_net, sumZ_remove_one by done. lia.
  - case_decide as Hl; [|done]. destruct Hl as [Hl Hne].
    destruct (threads s !! t') as [th'|] eqn:Ht'; simplify_eq/=. by apply inv_LGive.
  - destruct (at_phase th) eqn:Hp; simplify_eq. by eapply inv_LReturn.
  - destruct (at_phase th) eqn:Hp; try done. destruct (ref_of ev) as [l|] eqn:Hr.
    + case_decide as Hl; [|done]. simplify_eq. eapply inv_thread; [done..| |].
      * split; [|apply (Hq [_] _)]. apply (ops_ok_inputs _ [j] ev).
      * intros k. rewrite (thread_net_idle th) by done. unfold thread_net, held. simpl.
        rewrite sumZ_remove_one by done. unfold ev_refs. rewrite Hr. lia.
    + simplify_eq. apply inv_user_ops; [done..|apply (ops_ok_inputs _ [j] ev)|].
      intros k. simpl. unfold ev_refs. by rewrite Hr.
  - assert (ops_ok (held th) (Broadcast_ops (length (nodes s)) ev) →
      counts_inv (set_thread t (set_ops (Broadcast_ops (length (nodes s)) ev) th) s)) as Hb.
    { intros. apply inv_user_ops; [done..|]. intros l. apply Broadcast_balanced. }
    destruct (at_phase th) eqn:Hp; try done. destruct (ref_of ev) as [l|] eqn:Hr.
    + case_decide as Hl; [|done]. simplify_eq. apply Hb, ops_ok_Broadcast.
      intros l' Hl'. simplify_eq. by apply owned_held.
    + simplify_eq. apply Hb, ops_ok_Broadcast. intros l Hl. congruence.
  - destruct (at_phase th); simplify_eq. apply inv_user_ops; [done..|by split_and!|done].
Qed.

Lemma inv_set_node_refs s j n n' :
  counts_inv s → nodes s !! j = Some n → (∀ l, node_refs l n' = node_refs l n) →
  counts_inv (set_node j n' s).
Proof.
  rewrite !counts_inv_iff. intros [He Hall] Hn Hr. split; [|done].
  eapply exact_ext; [exact He|]. intros l. rewrite (holders_set_node s j n) by done. rewrite Hr. lia.
Qed.

Lemma inv_step lb s s' : counts_inv s → step lb s = Some s' → counts_inv s'.
Proof.
  intros Hi Hs. pose proof (inv_step_user lb s s' Hi Hs) as Hu.
  destruct lb as [t c|t|t early k| | | | | | | | | |j|j|]; try exact Hu; simpl in Hs; clear Hu.
  - destruct (threads s !! t) eqn:Ht; [|done]. by eapply inv_exec_pick.
  - destruct (threads s !! t) eqn:Ht; [|done]. by eapply inv_exec_go.
  - destruct (threads s !! t) as [th|] eqn:Ht; [|done]. simpl in Hs.
    destruct (ops th) eqn:Ho; [done|]. by eapply inv_exec_op.
  - unfold node_Start in Hs. destruct (nodes s !! j) as [n|] eqn:En; [|done]. simpl in Hs.
    assert (counts_inv (set_node j (mkRNode (set_running true (base n)) (impl n)) s)) as Hi'
      by by eapply inv_set_node_refs.
    destruct (impl n) eqn:Him; simplify_eq; [|done].
    apply counts_inv_iff in Hi' as [He Hall]. apply counts_inv_iff. simpl in *. split.
    + eapply exact_ext; [exact He|]. intros l. unfold holders. simpl.
      rewrite sumZ_app. unfold thread_net, held. simpl. lia.
    + apply Forall_app. split; [done|]. constructor; [|done]. by apply thread_ok_nil.
  - unfold node_Stop in Hs. destruct (nodes s !! j) as [n|] eqn:En; [|done]. simplify_eq/=.
    eapply inv_set_node_refs; [done..|]. intros l. unfold node_refs. simpl.
    destruct (impl n) as [ln|]; [|done]. by destruct (running (base n) && negb (full (ctrlChan ln))).
  - simplify_eq. apply counts_inv_iff. by apply counts_inv_iff in Hi.
Qed.

Lemma inv_init ns ws q callers : counts_inv (init ns ws q callers).
Proof.
  apply counts_inv_iff. split.
  - split; [|done]. intros l. unfold holders. simpl. rewrite lookup_empty. simpl.
    rewrite sumZ_fmap, sumZ_replicate, sumZ_app, sumZ_replicate, sumZ_fmap.
    assert (sumZ (node_refs l ∘ (λ n, mkRNode (set_running false (base n))
      match impl n with LoopNode _ => LoopNode newLoopNode | i => i end)) ns = 0%Z) as ->.
    { induction ns as [|[b []] ns IH]; [done|..]; rewrite sumZ_cons, IH; done. }
    assert (∀ k, sumZ (thread_net l ∘ (λ w, mkThread (ThWorker w) PSelect None [] [])) k = 0%Z) as ->.
    { induction k as [|w k IH]; [done|]. rewrite sumZ_cons, IH. done. }
    unfold worker_refs, thread_net, held. simpl. lia.
  - simpl. apply Forall_app. split.
    + apply Forall_fmap, Forall_true. intros w. by apply thread_ok_nil.
    + apply Forall_replicate. by apply thread_ok_nil.
Qed.

Lemma run_inv (I : sys → Prop) ls s s' :
  (∀ lb s s', I s → step lb s = Some s' → I s') → I s → run ls s = Some s' → I s'.
Proof.
  intros Hstep. revert s. induction ls as [|lb ls IH]; intros s Hi; simpl; [naive_solver|].
  destruct (step lb s) as [s1|] eqn:E; [|done]. simpl. eauto.
Qed.

(** What a reference in a state is: in a queue, handled or held by code, or
    on its way to a node. *)
Definition referenced (s : sys) (l : loc) : Prop :=
  (∃ n, n ∈ nodes s ∧ (0 < node_refs l n)%Z) ∨
  (∃ w, w ∈ workers s ∧ (0 < worker_refs l w)%Z) ∨
  (∃ th, th ∈ threads s ∧ (0 < held th l ∨ 0 < sumZ (op_refs l) (ops th))%Z).

Lemma referenced_holders s l :
  Forall thread_ok (threads s) → referenced s l → (0 < holders s l)%Z.
Proof.
  intros Hall Hr. unfold holders.
  assert (Forall (λ n, 0 ≤ node_refs l n)%Z (nodes s)) as H1
    by (apply Forall_true; auto with voce).
  assert (Forall (λ n, 0 ≤ worker_refs l n)%Z (workers s)) as H2
    by (apply Forall_true; auto with voce).
  assert (Forall (λ th, 0 ≤ thread_net l th)%Z (threads s)) as H3.
  { eapply Forall_impl; [exact Hall|]. intros. by apply thread_net_nonneg. }
  pose proof (sumZ_nonneg _ _ H1). pose proof (sumZ_nonneg _ _ H2). pose proof (sumZ_nonneg _ _ H3).
  destruct Hr as [(n & Hn & Hp)|[(w & Hw & Hp)|(th & Hth & Hp)]].
  - pose proof (sumZ_elem _ _ _ H1 Hn). lia.
  - pose proof (sumZ_elem _ _ _ H2 Hw). lia.
  - pose proof (sumZ_elem _ _ _ H3 Hth). rewrite Forall_forall in Hall.
    pose proof (thread_net_bounds th l (Hall th Hth)). lia.
Qed.

(** C1: In every interleaving of read loops, scheduler workers, plugin
    handlers and callers, the reference count of a media object is exactly
    the number of references to it: the queues it waits in, the handlers
    working on it and the code that retained it.  So an object is never
    returned to the pool while anyone can still reach it. *)
Theorem media_counts_exact ns ws queueSize callers ls s l :
  run ls (init ns ws queueSize callers) = Some s →
  default 0%Z (counts s !! l) = holders s l ∧
  (referenced s l → ∃ n, counts s !! l = Some n ∧ (0 < n)%Z) ∧
  (counts s !! l = None → ¬ referenced s l).
Proof.
  intros Hrun. assert (counts_inv s) as [He Hp Hall].
  { eapply run_inv; [exact inv_step|apply inv_init|exact Hrun]. }
  split_and!.
  - apply He.
  - intros Hr%referenced_holders; [|done]. specialize (He l).
    destruct (counts s !! l) as [n|] eqn:E; simpl in He; [|lia]. exists n. by eauto.
  - intros Hn Hr%referenced_holders; [|done]. specialize (He l). rewrite Hn in He. simpl in He. lia.
Qed.

(** Two loop nodes, the first with an audio edge to the second. *)
Definition sample_loop (b : baseNode) : node := mkRNode b (LoopNode newLoopNode).
Definition sample_nodes : list node :=
  [sample_loop (addNextNode EventAudio 1 (newBaseNode "a")); sample_loop (newBaseNode "b")].

(** A caller creates audio 7 and gives it to node 0, whose plugin forwards it. *)
Definition sample_run : list label :=
  [LStart 0; LStart 1; LNew 0 7; LDeliver 0 0 (Audio 7); LOp 0 false 0; LOp 0 false 0;
   LGo 1; LGo 1; LPick 1 PickAudio; LSend 1 None (Audio 7);
   LOp 1 false 0; LOp 1 false 0; LOp 1 false 0].

Lemma media_counts_exact_witness :
  ∃ s, run sample_run (init sample_nodes 0 0 1) = Some s ∧ counts s !! 7 = Some 2%Z ∧
    default 0%Z (counts s !! 7) = holders s 7.
Proof.
  eexists. split; [vm_compute; reflexivity|]. split; [vm_compute; reflexivity|].
  apply (media_counts_exact sample_nodes 0 0 1 sample_run). vm_compute. reflexivity.
Defined.

(** ** The window between the guard of [Input] and its send

    [Input] tests [running] before it sends.  A loop that exits and drains its
    queues in between leaves the object in a queue nobody reads. *)
Definition leak_run : list label :=
  [LStart 0; LNew 0 7; LDeliver 0 0 (Audio 7); LOp 0 false 0;
   LStop 0; LGo 1; LGo 1; LReturn 1; LGo 1; LOp 0 false 0].

(** A stopped loop node can keep a media object in its queue for ever: the
    object was queued between the drain of the exiting loop and the guard its
    sender had already passed. *)
Theorem input_after_drain_leaks :
  ∃ s n ln, run leak_run (init sample_nodes 0 0 1) = Some s ∧
    (∃ th, threads s !! 1 = Some th ∧ at_phase th = PDead) ∧
    nodes s !! 0 = Some n ∧ impl n = LoopNode ln ∧ running (base n) = false ∧
    buffer (audioChan ln) = [7] ∧ counts s !! 7 = Some 1%Z.
Proof.
  do 3 eexists. split; [vm_compute; reflexivity|].
  split; [eexists; split; [vm_compute; reflexivity|reflexivity]|].
  split_and!; vm_compute; reflexivity.
Qed.
