(* ===== verification/Multi.v ===== *)
(** * Multi-track plugins ([internal/engine/multi.go])

    A track decouples the node's thread from a handler: [push] queues an item
    stamped with the track's epoch under a drop strategy, the track's own
    goroutine handles the items, and a signal of the track's list bumps the
    epoch and cancels the handler in progress.

    The node calls [push] and [OnSignal] from one thread (its read loop or its
    worker), so the machine has two threads: the node and the track. *)

From S2P Require Import Prelude EngineTypes Chan.

(** [stamp] is a ghost: the number of interruptions when the item was pushed. *)
Record internalData := mkItem { epoch_of : Z; data : nat; stamp : nat }.

(** ** The track's goroutine *)
Inductive reader :=
| RTop | RSelect
| RGot (itl : internalData)                 (** received, not yet checked *)
| RChecked (itl : internalData)             (** passed the pause and epoch checks *)
| RHandling (itl : internalData) (h : nat)  (** handler running with context [h] *)
| RReturned (h : nat)
| RDrain | RDead.

(** ** The node's thread *)
Inductive producer :=
| NIdle
| NPushing (itl : internalData)
| NDropping (itl : internalData)   (** the buffer was full: about to take the oldest item *)
| NCancel                          (** epoch bumped, [cancel.Swap(nil)] to come *).

Record track := mkTrack {
  ch : chan internalData;
  strategy : DropStrategy;
  epoch : Z;
  cancel : option nat;
  signal_names : list string;
  paused : bool;
  ctx_done : bool;
  node_at : producer;
  reader_at : reader;
  next_ctx : nat;
  cancelled : list nat;    (** contexts whose cancel function was called *)
  interrupts : nat;        (** ghost: interruptions so far *)
  pushed : list nat;       (** ghost: everything pushed *)
  disposed : list nat;     (** ghost: released (if reference counted) *)
  started : list (nat * nat) (** ghost: stamp of each item when it passed the checks,
                                 with the number of interruptions then *)
}.

Definition newStream (bufSize : nat) (st : DropStrategy) (sigs : list string) : track :=
  mkTrack (make_chan bufSize) st 0 None sigs false false NIdle RTop 0 [] 0 [] [] [].

Section updates.
Context (s : track).
Definition with_node (n : producer) : track :=
  mkTrack (ch s) (strategy s) (epoch s) (cancel s) (signal_names s) (paused s) (ctx_done s) n
    (reader_at s) (next_ctx s) (cancelled s) (interrupts s) (pushed s) (disposed s) (started s).
Definition with_reader (r : reader) : track :=
  mkTrack (ch s) (strategy s) (epoch s) (cancel s) (signal_names s) (paused s) (ctx_done s) (node_at s)
    r (next_ctx s) (cancelled s) (interrupts s) (pushed s) (disposed s) (started s).
Definition with_ch (c : chan internalData) : track :=
  mkTrack c (strategy s) (epoch s) (cancel s) (signal_names s) (paused s) (ctx_done s) (node_at s)
    (reader_at s) (next_ctx s) (cancelled s) (interrupts s) (pushed s) (disposed s) (started s).
(** [Release] of an item's data, when it is reference counted. *)
Definition dispose (itl : internalData) : track :=
  mkTrack (ch s) (strategy s) (epoch s) (cancel s) (signal_names s) (paused s) (ctx_done s) (node_at s)
    (reader_at s) (next_ctx s) (cancelled s) (interrupts s) (pushed s) (data itl :: disposed s) (started s).
Definition with_cancel (c : option nat) (cs : list nat) : track :=
  mkTrack (ch s) (strategy s) (epoch s) c (signal_names s) (paused s) (ctx_done s) (node_at s)
    (reader_at s) (next_ctx s) cs (interrupts s) (pushed s) (disposed s) (started s).
End updates.

(** ** push *)

(** [push]: load the epoch, then follow the strategy. *)
Definition push (d : nat) (s : track) : option track :=
  match node_at s with
  | NIdle =>
    Some (mkTrack (ch s) (strategy s) (epoch s) (cancel s) (signal_names s) (paused s) (ctx_done s)
      (NPushing (mkItem (epoch s) d (interrupts s)))
      (reader_at s) (next_ctx s) (cancelled s) (interrupts s) (d :: pushed s) (disposed s) (started s))
  | _ => None
  end.

(** One attempt of [pushDropNewest], [pushBlockIfFull] or [pushDropOldest];
    [k] picks the ready case of its [select], [early] whether the context
    check on entry saw the cancellation. *)
Definition push_attempt (early : bool) (k : nat) (s : track) : option track :=
  match node_at s with
  | NPushing itl =>
    let d := ctx_done s in
    match strategy s with
    | DropNewest =>
      o ← SendWithNonBlocking (early && d) d (ch s) itl !! k;
      match o with
      | Sent c => Some (with_node (with_ch s c) NIdle)
      | _ => Some (dispose (with_node s NIdle) itl)
      end
    | BlockIfFull =>
      o ← SendWithContext (early && d) d (ch s) itl !! k;
      match o with
      | Sent c => Some (with_node (with_ch s c) NIdle)
      | _ => Some (dispose (with_node s NIdle) itl)
      end
    | DropOldest =>
      o ← SendWithNonBlocking (early && d) d (ch s) itl !! k;
      match o with
      | Sent c => Some (with_node (with_ch s c) NIdle)
      | ErrSendBlocked => Some (with_node s (NDropping itl))
      | _ => Some (dispose (with_node s NIdle) itl)
      end
    end
  | NDropping itl =>
    match recv_case (ch s) with
    | Some (old, c) => Some (dispose (with_node (with_ch s c) (NPushing itl)) old)
    | None => Some (with_node s (NPushing itl))
    end
  | _ => None
  end.

(** ** interruptTrack *)
Definition interruptTrack (name : string) (s : track) : option track :=
  match node_at s with
  | NIdle =>
    if decide (name ∈ signal_names s) then
      Some (mkTrack (ch s) (strategy s) (int32 (epoch s + 1)) (cancel s) (signal_names s) (paused s)
        (ctx_done s) NCancel (reader_at s) (next_ctx s) (cancelled s) (S (interrupts s))
        (pushed s) (disposed s) (started s))
    else Some s
  | _ => None
  end.

(** The swap of the stored cancel function and its call. *)
Definition interrupt_cancel (s : track) : option track :=
  match node_at s with
  | NCancel =>
    Some (with_node (with_cancel s None
      (match cancel s with Some h => h :: cancelled s | None => cancelled s end)) NIdle)
  | _ => None
  end.

(** ** readLoop *)
Definition start_handler (itl : internalData) (s : track) : track :=
  mkTrack (ch s) (strategy s) (epoch s) (Some (next_ctx s)) (signal_names s) (paused s) (ctx_done s)
    (node_at s) (RHandling itl (next_ctx s)) (S (next_ctx s)) (cancelled s) (interrupts s)
    (pushed s) (disposed s) (started s).

Definition pass_checks (itl : internalData) (s : track) : track :=
  mkTrack (ch s) (strategy s) (epoch s) (cancel s) (signal_names s) (paused s) (ctx_done s)
    (node_at s) (RChecked itl) (next_ctx s) (cancelled s) (interrupts s)
    (pushed s) (disposed s) ((stamp itl, interrupts s) :: started s).

(** One atomic action of the goroutine; [pick_done] prefers the cancelled
    context in the [select]. *)
Definition readLoop (pick_done : bool) (s : track) : option track :=
  match reader_at s with
  | RTop => Some (with_reader s (if ctx_done s then RDrain else RSelect))
  | RSelect =>
    if pick_done then (if ctx_done s then Some (with_reader s RDrain) else None)
    else '(itl, c) ← recv_case (ch s); Some (with_reader (with_ch s c) (RGot itl))
  | RGot itl =>
    if paused s || negb (bool_decide (epoch_of itl = epoch s))
    then Some (dispose (with_reader s RTop) itl)
    else Some (pass_checks itl s)
  | RChecked itl => Some (start_handler itl s)
  | RHandling itl h => Some (dispose (with_reader s (RReturned h)) itl)
  | RReturned h => Some (with_reader (with_cancel s None (h :: cancelled s)) RTop)
  | RDrain =>
    match recv_case (ch s) with
    | Some (itl, c) => Some (dispose (with_ch s c) itl)
    | None => Some (with_reader s RDead)
    end
  | RDead => None
  end.

Definition OnPause_track (s : track) : track :=
  mkTrack (ch s) (strategy s) (epoch s) (cancel s) (signal_names s) true (ctx_done s) (node_at s)
    (reader_at s) (next_ctx s) (cancelled s) (interrupts s) (pushed s) (disposed s) (started s).
Definition OnResume_track (s : track) : track :=
  mkTrack (ch s) (strategy s) (epoch s) (cancel s) (signal_names s) false (ctx_done s) (node_at s)
    (reader_at s) (next_ctx s) (cancelled s) (interrupts s) (pushed s) (disposed s) (started s).
Definition cancel_ctx (s : track) : track :=
  mkTrack (ch s) (strategy s) (epoch s) (cancel s) (signal_names s) (paused s) true (node_at s)
    (reader_at s) (next_ctx s) (cancelled s) (interrupts s) (pushed s) (disposed s) (started s).

Inductive track_label :=
| TPush (d : nat) | TAttempt (early : bool) (k : nat)
| TSignal (name : string) | TCancel
| TRead (pick_done : bool)
| TPause | TResume | TDone.

Definition track_step (lb : track_label) (s : track) : option track :=
  match lb with
  | TPush d => push d s
  | TAttempt early k => push_attempt early k s
  | TSignal name => interruptTrack name s
  | TCancel => interrupt_cancel s
  | TRead p => readLoop p s
  | TPause => Some (OnPause_track s)
  | TResume => Some (OnResume_track s)
  | TDone => Some (cancel_ctx s)
  end.

Fixpoint track_run (ls : list track_label) (s : track) : option track :=
  match ls with
  | [] => Some s
  | lb :: ls => s' ← track_step lb s; track_run ls s'
  end.

(** ** The plugin around its tracks *)
Record MultiTrackPlugin := mkMulti {
  payloadTrack : option track;
  audioTrack : option track;
  videoTrack : option track;
}.

Inductive TrackOption :=
| WithPayloadTrack (bufSize : nat) (st : DropStrategy) (sigs : list string)
| WithAudioTrack (bufSize : nat) (st : DropStrategy) (sigs : list string)
| WithVideoTrack (bufSize : nat) (st : DropStrategy) (sigs : list string).

Definition apply_option (w : MultiTrackPlugin) (o : TrackOption) : MultiTrackPlugin :=
  match o with
  | WithPayloadTrack n st sigs => mkMulti (Some (newStream n st sigs)) (audioTrack w) (videoTrack w)
  | WithAudioTrack n st sigs => mkMulti (payloadTrack w) (Some (newStream n st sigs)) (videoTrack w)
  | WithVideoTrack n st sigs => mkMulti (payloadTrack w) (audioTrack w) (Some (newStream n st sigs))
  end.

(** [None]: the plugin is returned as it is. *)
Definition NewMultiTrackPlugin (plugin_nil : bool) (options : list TrackOption)
    : option MultiTrackPlugin :=
  if plugin_nil || bool_decide (options = []) then None
  else Some (foldl apply_option (mkMulti None None None) options).

(** The whole of [interruptTrack] when the goroutine does not move. *)
Definition interrupt_now (name : string) (s : track) : option track :=
  s1 ← interruptTrack name s;
  match node_at s1 with NCancel => interrupt_cancel s1 | _ => Some s1 end.

Definition on_track (f : track → option track) (t : option track) : option (option track) :=
  match t with None => Some None | Some s => s' ← f s; Some (Some s') end.

(** [OnSignal] interrupts the three tracks in turn. *)
Definition Multi_OnSignal (name : string) (w : MultiTrackPlugin) : option MultiTrackPlugin :=
  p ← on_track (interrupt_now name) (payloadTrack w);
  a ← on_track (interrupt_now name) (audioTrack w);
  v ← on_track (interrupt_now name) (videoTrack w);
  Some (mkMulti p a v).

Lemma track_run_inv (I : track → Prop) ls s s' :
  (∀ lb s s', I s → track_step lb s = Some s' → I s') → I s → track_run ls s = Some s' → I s'.
Proof.
  intros Hstep. revert s. induction ls as [|lb ls IH]; intros s Hi; simpl; [naive_solver|].
  destruct (track_step lb s) as [s1|] eqn:E; [|done]. simpl. eauto.
Qed.

(** ** Where an item can be *)
Definition node_item (n : producer) : list internalData :=
  match n with NPushing i | NDropping i => [i] | _ => [] end.
Definition reader_item (r : reader) : list internalData :=
  match r with RGot i | RChecked i | RHandling i _ => [i] | _ => [] end.

Definition live_items (s : track) : list internalData :=
  node_item (node_at s) ++ buffer (ch s) ++ reader_item (reader_at s).

Record track_inv (bufSize : nat) (s : track) : Prop := {
  tr_items : ∀ x, count_occ Nat.eq_dec (pushed s) x =
    count_occ Nat.eq_dec (disposed s ++ (data <$> live_items s)) x;
  tr_cap : chan_cap (ch s) = bufSize ∧ length (buffer (ch s)) ≤ bufSize;
  tr_open : closed (ch s) = false;
  tr_epoch : epoch s = int32 (Z.of_nat (interrupts s));
  tr_stamps : Forall (λ i, epoch_of i = int32 (Z.of_nat (stamp i)) ∧ stamp i ≤ interrupts s) (live_items s);
  tr_started : Forall (λ '(st, n), int32 (Z.of_nat st) = int32 (Z.of_nat n) ∧ st ≤ n) (started s);
}.

(** ** Preservation *)
Lemma int32_succ n : int32 (int32 n + 1) = int32 (n + 1).
Proof.
  unfold int32, swrap. change (32 - 1)%Z with 31%Z. f_equal.
  replace ((n + 2 ^ 31) `mod` 2 ^ 32 - 2 ^ 31 + 1 + 2 ^ 31)%Z with ((n + 2 ^ 31) `mod` 2 ^ 32 + 1)%Z by lia.
  rewrite Zplus_mod_idemp_l. f_equal. lia.
Qed.

(** Normalise the places of the items. *)
Ltac items :=
  unfold live_items in *; simpl in *;
  repeat progress (rewrite ?Forall_app, ?Forall_cons, ?Forall_nil in *; simpl in *).

Ltac count_items :=
  intros x; repeat match goal with H : ∀ x, count_occ _ _ x = _ |- _ => specialize (H x) end;
  unfold live_items in *; simpl in *;
  repeat (rewrite ?count_occ_app, ?fmap_app in *; simpl in *);
  repeat (case_match; simpl in *); lia.

Lemma sent_outcome {A} d1 d2 (c : chan A) v o :
  o ∈ SendWithContext d1 d2 c v ∨ o ∈ SendWithNonBlocking d1 d2 c v → closed c = false →
  match o with
  | Sent c' => c' = enqueue c v ∧ length (buffer c) < chan_cap c
  | Panicked => False
  | _ => True
  end.
Proof.
  rewrite SendWithNonBlocking_spec, SendWithContext_spec, send_case_spec. intros Ho Hc.
  rewrite Hc in Ho. destruct o; try done; [|naive_solver].
  assert (c0 = enqueue c v ∧ full c = false) as [-> Hf] by naive_solver.
  by apply full_false in Hf.
Qed.

(** An item that was queued. *)
Lemma inv_sent n s itl c :
  track_inv n s → node_at s = NPushing itl →
  c = enqueue (ch s) itl ∧ length (buffer (ch s)) < chan_cap (ch s) →
  track_inv n (with_node (with_ch s c) NIdle).
Proof.
  intros [Hit [Hcap Hlen] Hop Hep Hst Hsd] Hn [-> Hlt]. unfold live_items in Hit, Hst. rewrite Hn in *.
  split; simpl; try done.
  - count_items.
  - split; [done|]. rewrite length_app. simpl. lia.
  - items. tauto.
Qed.

(** An item that was given up by the node. *)
Lemma inv_disposed n s itl :
  track_inv n s → node_at s = NPushing itl → track_inv n (dispose (with_node s NIdle) itl).
Proof.
  intros [Hit [Hcap Hlen] Hop Hep Hst Hsd] Hn. unfold live_items in Hit, Hst. rewrite Hn in *.
  split; simpl; try done; [count_items|items; tauto].
Qed.

Lemma inv_push_attempt n early k s s' :
  track_inv n s → push_attempt early k s = Some s' → track_inv n s'.
Proof.
  intros Hi Hs. unfold push_attempt in Hs. destruct (node_at s) as [|itl|itl|] eqn:Hn; try done.
  - pose proof (tr_open _ _ Hi) as Hop.
    destruct (strategy s); (destruct (_ !! k) as [o|] eqn:Ho; [|done]); simpl in Hs;
      apply list_elem_of_lookup_2 in Ho.
    + pose proof (sent_outcome _ _ _ _ o (or_intror Ho) Hop).
      destruct o; simplify_eq; [by eapply inv_sent|by apply inv_disposed..].
    + pose proof (sent_outcome _ _ _ _ o (or_introl Ho) Hop).
      destruct o; simplify_eq; [by eapply inv_sent|by apply inv_disposed..].
    + pose proof (sent_outcome _ _ _ _ o (or_intror Ho) Hop).
      destruct o; simplify_eq; [by eapply inv_sent|by apply inv_disposed| |by apply inv_disposed].
      destruct Hi as [Hit Hcap _ Hep Hst Hsd]. unfold live_items in Hit, Hst. rewrite Hn in *.
      by split.
  - destruct Hi as [Hit [Hcap Hlen] Hop Hep Hst Hsd].
    destruct (recv_case (ch s)) as [[old c]|] eqn:E; simplify_eq.
    + apply recv_case_Some in E as (Hb & Hc & Hcl).
      unfold live_items in Hit, Hst. rewrite Hn, Hb in *.
      split; simpl; rewrite ?Hc, ?Hcl; try done; [count_items|simpl in *; lia|items; tauto].
    + unfold live_items in Hit, Hst. rewrite Hn in *. split; done.
Qed.

Lemma inv_readLoop n p s s' : track_inv n s → readLoop p s = Some s' → track_inv n s'.
Proof.
  intros [Hit [Hcap Hlen] Hop Hep Hst Hsd] Hs. unfold readLoop in Hs.
  unfold live_items in Hit, Hst. destruct (reader_at s) as [| |itl|itl|itl h|h| |] eqn:Hr; simpl in *.
  - simplify_eq. split; simpl; try done; unfold live_items; simpl; by destruct (ctx_done s).
  - destruct p.
    + destruct (ctx_done s); simplify_eq. by split.
    + destruct (recv_case (ch s)) as [[itl c]|] eqn:E; simplify_eq/=.
      apply recv_case_Some in E as (Hb & Hc & Hcl). rewrite Hb in *.
      split; simpl; rewrite ?Hc, ?Hcl; try done; [count_items|simpl in *; lia|items; tauto].
  - destruct (paused s || _) eqn:Hchk; simplify_eq.
    + split; simpl; try done; [count_items|items; tauto].
    + apply orb_false_iff in Hchk as [_ Hchk%negb_false_iff%bool_decide_eq_true].
      split; simpl; try done. constructor; [|done].
      rewrite !Forall_app, Forall_cons in Hst. destruct Hst as (_ & _ & [He Hle] & _).
      split; [congruence|done].
  - simplify_eq. by split.
  - simplify_eq. split; simpl; try done; [count_items|items; tauto].
  - simplify_eq. by split.
  - destruct (recv_case (ch s)) as [[itl c]|] eqn:E; simplify_eq/=.
    + apply recv_case_Some in E as (Hb & Hc & Hcl). rewrite Hb in *.
      split; simpl; rewrite ?Hc, ?Hcl, ?Hr; try done; [|simpl in *; lia|].
      * unfold live_items. simpl. rewrite Hr. count_items.
      * unfold live_items. simpl. rewrite Hr. items. tauto.
    + by split.
  - done.
Qed.

Lemma inv_track_step n lb s s' : track_inv n s → track_step lb s = Some s' → track_inv n s'.
Proof.
  intros Hi Hs. destruct lb as [d|early k|name| |p| | |]; simpl in Hs.
  - destruct Hi as [Hit [Hcap Hlen] Hop Hep Hst Hsd]. unfold push in Hs.
    unfold live_items in Hit, Hst. destruct (node_at s) eqn:Hn; simplify_eq. simpl in *.
    split; simpl; try done; [count_items|]. items. split; [split; [done|lia]|tauto].
  - by eapply inv_push_attempt.
  - destruct Hi as [Hit [Hcap Hlen] Hop Hep Hst Hsd]. unfold interruptTrack in Hs.
    unfold live_items in Hit, Hst. destruct (node_at s) eqn:Hn; try done.
    case_decide; simplify_eq; [|split; unfold live_items; rewrite ?Hn; done].
    split; unfold live_items; simpl; try done.
    + rewrite Hep, int32_succ. f_equal. lia.
    + eapply Forall_impl; [exact Hst|]. intros i [? ?]. split; [done|lia].
  - destruct Hi as [Hit [Hcap Hlen] Hop Hep Hst Hsd]. unfold interrupt_cancel in Hs.
    unfold live_items in Hit, Hst. destruct (node_at s) eqn:Hn; simplify_eq. by split.
  - by eapply inv_readLoop.
  - simplify_eq. by destruct Hi.
  - simplify_eq. by destruct Hi.
  - simplify_eq. by destruct Hi.
Qed.

Lemma inv_newStream n st sigs : track_inv n (newStream n st sigs).
Proof. split; simpl; try done. split; [done|lia]. Qed.

Lemma track_run_ok n st sigs ls s : track_run ls (newStream n st sigs) = Some s → track_inv n s.
Proof. intros Hr. eapply track_run_inv; [apply inv_track_step|apply inv_newStream|exact Hr]. Qed.

(** C12: Whatever the interleaving of the node and the track's goroutine and
    whatever the drop strategy, every item pushed into a track is either
    still in it (being pushed, queued or handled) or was released exactly
    once, and the queue never exceeds its configured size. *)
Theorem track_conserves_items n st sigs ls s :
  track_run ls (newStream n st sigs) = Some s →
  pushed s ≡ₚ disposed s ++ (data <$> live_items s) ∧ length (buffer (ch s)) ≤ n.
Proof.
  intros Hi%track_run_ok. split; [|apply (tr_cap _ _ Hi)].
  apply (Permutation_count_occ Nat.eq_dec). apply (tr_items _ _ Hi).
Qed.

Lemma int32_inj_below a b :
  (0 ≤ a)%Z → (a ≤ b < 2 ^ 32)%Z → int32 a = int32 b → a = b.
Proof.
  unfold int32, swrap. change (32 - 1)%Z with 31%Z. intros Ha Hb Heq.
  assert ((a + 2 ^ 31) `mod` 2 ^ 32 = (b + 2 ^ 31) `mod` 2 ^ 32)%Z as Hm by lia.
  rewrite !Z.mod_eq in Hm by lia.
  set (p := ((a + 2 ^ 31) / 2 ^ 32)%Z) in *. set (q := ((b + 2 ^ 31) / 2 ^ 32)%Z) in *.
  assert (b - a = 2 ^ 32 * (q - p))%Z by lia. assert (q - p = 0)%Z by nia. lia.
Qed.

Lemma started_bound ls s s' :
  Forall (λ '(_, k), k ≤ interrupts s) (started s) → track_run ls s = Some s' →
  Forall (λ '(_, k), k ≤ interrupts s') (started s').
Proof.
  intros H0 Hr. eapply (track_run_inv (λ s, Forall (λ '(_, k), k ≤ interrupts s) (started s)));
    [|exact H0|exact Hr].
  clear. intros lb s s' H Hs.
  destruct lb; simpl in Hs; unfold push, push_attempt, interruptTrack, interrupt_cancel, readLoop in Hs;
    repeat (case_match; simplify_eq/=; try done);
    try (apply bind_Some in Hs as ([] & _ & Hs)); repeat (case_match; simplify_eq/=; try done);
    simplify_eq/=; try done.
  - eapply Forall_impl; [exact H|]. intros [] ?. lia.
  - constructor; [lia|done].
Qed.

(** C13: An item that passes the checks of the track's goroutine was pushed
    after the last interruption of the track, as long as there were fewer than
    2^32 of them: what was queued when a signal interrupted the track is
    discarded. *)
Theorem interrupted_items_discarded n st sigs ls s pushed_at checked_at :
  track_run ls (newStream n st sigs) = Some s → (Z.of_nat (interrupts s) < 2 ^ 32)%Z →
  (pushed_at, checked_at) ∈ started s → pushed_at = checked_at.
Proof.
  intros Hr Hlt Hin. pose proof (tr_started _ _ (track_run_ok _ _ _ _ _ Hr)) as Hs.
  assert (Forall (λ '(_, k), k ≤ interrupts s) (started s)) as Hb
    by (eapply started_bound; [|exact Hr]; by constructor).
  rewrite Forall_forall in Hs, Hb. destruct (Hs _ Hin) as [Heq Hle].
  specialize (Hb _ Hin). simpl in Hb. apply int32_inj_below in Heq; lia.
Qed.

(** *** DropOldest *)

(** Pushing under [DropOldest] into a full queue, with the context alive
    and no one reading meanwhile, takes three attempts: the oldest item is
    released and the new one is queued behind the others. *)
Theorem drop_oldest_when_full s itl old rest :
  node_at s = NPushing itl → strategy s = DropOldest → ctx_done s = false →
  closed (ch s) = false → buffer (ch s) = old :: rest → S (length rest) = chan_cap (ch s) →
  ∃ s', track_run [TAttempt false 0; TAttempt false 0; TAttempt false 0] s = Some s' ∧
    buffer (ch s') = rest ++ [itl] ∧ disposed s' = data old :: disposed s ∧ node_at s' = NIdle.
Proof.
  intros Hn Hst Hd Hcl Hb Hfull. destruct s, ch0. simpl in *. subst.
  cbn -[SendWithNonBlocking]. rewrite nonblocking_full by (done || (simpl; lia)).
  cbn -[SendWithNonBlocking]. rewrite nonblocking_room by (done || (simpl; lia)).
  eexists. split; [reflexivity|]. done.
Qed.

(** ** The interruption window

    The goroutine checks the epoch before it stores the cancel function of
    its handler; an interruption in between bumps an epoch that was already
    checked and finds no cancel function to call. *)
Definition handling_stale (s : track) : Prop :=
  ∃ itl h, reader_at s = RHandling itl h ∧ stamp itl < interrupts s ∧
    (h ∉ cancelled s) ∧ node_at s = NIdle.

Definition race_run : list track_label :=
  [TPush 7; TAttempt false 0; TRead false; TRead false; TRead false;
   TSignal "interrupter"; TCancel; TRead false].

(** A signal that arrives between the epoch check and the store of the
    cancel function interrupts nothing: the handler of the older item starts
    after the interruption and its context is never cancelled by it. *)
Theorem interruption_can_be_missed :
  ∃ s, track_run race_run (newStream 4 BlockIfFull ["interrupter"]) = Some s ∧ handling_stale s.
Proof.
  eexists. split; [vm_compute; reflexivity|]. do 2 eexists. split; [vm_compute; reflexivity|].
  split; [vm_compute; lia|]. split; [|reflexivity]. apply not_elem_of_nil.
Qed.

Definition sample_track : list track_label :=
  [TPush 1; TAttempt false 0; TSignal "interrupter"; TCancel; TPush 2; TAttempt false 0;
   TRead false; TRead false; TRead false; TRead false; TRead false; TRead false].

Lemma track_conserves_items_witness :
  ∃ s, track_run sample_track (newStream 4 DropOldest ["interrupter"]) = Some s ∧
    pushed s = [2; 1] ∧ disposed s = [1] ∧ length (buffer (ch s)) ≤ 4.
Proof.
  eexists. split; [vm_compute; reflexivity|]. split; [vm_compute; reflexivity|].
  split; [vm_compute; reflexivity|].
  apply (track_conserves_items 4 DropOldest ["interrupter"] sample_track). vm_compute. reflexivity.
Defined.

Lemma interrupted_items_discarded_witness :
  ∃ s, track_run sample_track (newStream 4 DropOldest ["interrupter"]) = Some s ∧
    started s = [(1, 1)] ∧ 1 = 1.
Proof.
  eexists. split; [vm_compute; reflexivity|]. split; [vm_compute; reflexivity|].
  eapply (interrupted_items_discarded 4 DropOldest ["interrupter"] sample_track _ 1 1);
    [vm_compute; reflexivity|vm_compute; reflexivity|apply elem_of_cons; left; reflexivity].
Defined.

Definition full_track : track :=
  mkTrack (mkChan [mkItem 0 1 0; mkItem 0 2 0] 2 false) DropOldest 0 None [] false false
    (NPushing (mkItem 0 3 0)) RTop 0 [] 0 [3; 2; 1] [] [].

Lemma drop_oldest_when_full_witness :
  ∃ s', track_run [TAttempt false 0; TAttempt false 0; TAttempt false 0] full_track = Some s' ∧
    disposed s' = [1].
Proof.
  destruct (drop_oldest_when_full full_track (mkItem 0 3 0) (mkItem 0 1 0) [mkItem 0 2 0]
    eq_refl eq_refl eq_refl eq_refl eq_refl eq_refl) as (s' & Hr & _ & Hd & _).
  exists s'. split; [exact Hr|exact Hd].
Defined.

(** A signal the plugin receives while no track is being pushed to bumps
    the epoch of exactly the tracks that list it, cancels the context stored
    there, and leaves every other track as it was. *)
Theorem OnSignal_interrupts_listed name w :
  (∀ s, s ∈ option_list (payloadTrack w) ++ option_list (audioTrack w) ++ option_list (videoTrack w) →
    node_at s = NIdle) →
  ∃ w', Multi_OnSignal name w = Some w' ∧
    ∀ f, f ∈ [payloadTrack; audioTrack; videoTrack] →
      match f w, f w' with
      | None, None => True
      | Some s, Some s' =>
        if decide (name ∈ signal_names s)
        then epoch s' = int32 (epoch s + 1) ∧ cancel s' = None ∧ buffer (ch s') = buffer (ch s) ∧
          (∀ h, cancel s = Some h → h ∈ cancelled s')
        else s' = s
      | _, _ => False
      end.
Proof.
  intros Hidle. assert (∀ t, (∀ s, t = Some s → node_at s = NIdle) →
    ∃ t', on_track (interrupt_now name) t = Some t' ∧
      match t, t' with
      | None, None => True
      | Some s, Some s' =>
        if decide (name ∈ signal_names s)
        then epoch s' = int32 (epoch s + 1) ∧ cancel s' = None ∧ buffer (ch s') = buffer (ch s) ∧
          (∀ h, cancel s = Some h → h ∈ cancelled s')
        else s' = s
      | _, _ => False
      end) as Hone.
  { intros [s|] Hs; [|by exists None]. specialize (Hs s eq_refl).
    simpl. unfold interrupt_now, interruptTrack. rewrite Hs. case_decide; simpl.
    - eexists. split; [reflexivity|]. simpl. split_and!; try done. intros h ->. by left.
    - rewrite Hs. by exists (Some s). }
  destruct (Hone (payloadTrack w)) as (p & Hp & Hp'); [|destruct (Hone (audioTrack w)) as (a & Ha & Ha')];
    [| |destruct (Hone (videoTrack w)) as (v & Hv & Hv')].
  1-3: intros s Hs; apply Hidle; rewrite Hs; simpl; set_solver.
  exists (mkMulti p a v). unfold Multi_OnSignal. rewrite Hp. simpl. rewrite Ha. simpl. rewrite Hv.
  split; [done|]. intros f Hf. rewrite !elem_of_cons in Hf.
  destruct Hf as [->|[->|[->|?%elem_of_nil]]]; done.
Qed.

Lemma OnSignal_interrupts_listed_witness :
  let w := mkMulti (Some (newStream 4 BlockIfFull ["interrupter"])) None
             (Some (newStream 4 DropOldest [])) in
  ∃ w', Multi_OnSignal "interrupter" w = Some w' ∧ videoTrack w' = videoTrack w.
Proof.
  intros w. destruct (OnSignal_interrupts_listed "interrupter" w) as (w' & Hw & _).
  { simpl. intros s Hs. rewrite !elem_of_cons in Hs. destruct Hs as [->|[->|Hs]]; [reflexivity..|].
    apply elem_of_nil in Hs. destruct Hs. }
  exists w'. split; [exact Hw|]. vm_compute in Hw. injection Hw as <-. reflexivity.
Defined.
