(* ===== verification/Workflow.v ===== *)
(** * Workflows: construction and wiring ([internal/engine/workflow.go])

    [NewWorkflow] turns a validated graph into nodes and routing tables. *)

From Stdlib Require Import Ascii.
From S2P Require Import Prelude Property EngineTypes Graph Chan Node.

(** ** Worker selection ([scheduler.go]: NewScheduler)

    FNV-1a on 32 bits over the bytes of the node's name. *)
Definition fnv32a (name : string) : Z :=
  foldl (λ h b, uint32 (Z.lxor h (Z.of_nat (nat_of_ascii b)) * 16777619)) 2166136261%Z
    (String.list_ascii_of_string name).

Definition scheduler_workers (workerCount : Z) : Z :=
  if decide (workerCount ≤ 0)%Z then 1 else workerCount.

(** [int(h.Sum32()) % workerCount], with [workerCount] as [NewScheduler] fixed it. *)
Definition selector (workerCount : Z) (name : string) : Z :=
  fnv32a name `rem` scheduler_workers workerCount.

Lemma fnv32a_bound name : (0 ≤ fnv32a name < 2 ^ 32)%Z.
Proof.
  unfold fnv32a. generalize (String.list_ascii_of_string name). intros l.
  assert (0 ≤ 2166136261 < 2 ^ 32)%Z as H0 by lia. revert H0. generalize 2166136261%Z as h.
  induction l as [|b l IH]; intros h Hh; [done|]. simpl. apply IH, uint32_bound.
Qed.

Lemma selector_bound n name : (0 ≤ selector n name < scheduler_workers n)%Z.
Proof.
  unfold selector. assert (0 < scheduler_workers n)%Z.
  { unfold scheduler_workers. case_decide; lia. }
  apply Z.rem_bound_pos; [apply fnv32a_bound|done].
Qed.

Inductive workflow_error :=
| DuplicateID (id : string)
| DuplicateName (name : string)
| BuilderMissing (id : string)
| BuildFailed (plugin id : string) (e : string)
| EdgeSourceUnknown (id : string)
| EdgeTargetUnknown (id : string).

Section workflow.
Context {P : Type}.

(** A node of the workflow: its routing state, its plugin and, under the
    worker pool, the worker it is pinned to. *)
Record wnode := mkWNode { wbase : baseNode; wplugin : P; worker_idx : option Z }.

Record Workflow := mkWf {
  graph : Graph;
  wnodes : list wnode;
  indexMap : gmap string nat;
  nameMap : gmap string nat;
  sched : option Z;   (** number of workers of the pool, if there is one *)
}.

(** The number of workers [NewWorkflow] asks for. *)
Definition pool_size (g : Graph) : option Z :=
  if decide (SchedulerMode (GConfig g) = SchedulerModeWorkerPool) then
    let n := Z.of_nat (length (OrderedNodes g)) in
    let w := SchedulerWorkers (GConfig g) in
    Some (scheduler_workers (if decide (w < 1 ∨ n < w)%Z then ((n + 3) `quot` 4)%Z else w))
  else None.

Record init_state := mkInit {
  i_nodes : list wnode; i_index : gmap string nat; i_name : gmap string nat;
}.

(** One round of the loop of [initNodes]. *)
Definition init_node (sc : option Z) (builders : gmap string (PluginBuilder P))
    (st : init_state) (nodeCfg : NodeConfig) : result workflow_error init_state :=
  if decide (is_Some (i_index st !! ID nodeCfg)) then Err (DuplicateID (ID nodeCfg))
  else if decide (is_Some (i_name st !! Name nodeCfg)) then Err (DuplicateName (Name nodeCfg))
  else match builders !! ID nodeCfg with
  | None => Err (BuilderMissing (ID nodeCfg))
  | Some b =>
    let? ext := rmap_err (BuildFailed (Plugin nodeCfg) (ID nodeCfg)) (Build_plugin b (Config nodeCfg)) in
    let i := length (i_nodes st) in
    let wi := match sc with Some n => Some (selector n (Name nodeCfg)) | None => None end in
    Ok (mkInit (i_nodes st ++ [mkWNode (newBaseNode (Name nodeCfg)) ext wi])
          (<[ID nodeCfg := i]> (i_index st)) (<[Name nodeCfg := i]> (i_name st)))
  end.

Definition initNodes (sc : option Z) (g : Graph) (builders : gmap string (PluginBuilder P))
    : result workflow_error init_state :=
  range_fold (init_node sc builders) (mkInit [] ∅ ∅) (OrderedNodes g).

Definition map_base (f : baseNode → baseNode) (n : wnode) : wnode :=
  mkWNode (f (wbase n)) (wplugin n) (worker_idx n).

(** What an edge does to its source node. *)
Definition wire_edge (e : EdgeConfig) (toIdx : nat) : baseNode → baseNode :=
  if decide (SourcePort e = 0%Z) then addNextNode (EType e) toIdx
  else addNextPortNode (EType e) toIdx (SourcePort e).

Definition wireNodes (index : gmap string nat) (edges : list EdgeConfig) (ns : list wnode)
    : result workflow_error (list wnode) :=
  range_fold (λ ns edge,
    match index !! Source edge with
    | None => Err (EdgeSourceUnknown (Source edge))
    | Some fromIdx =>
      match index !! Target edge with
      | None => Err (EdgeTargetUnknown (Target edge))
      | Some toIdx => Ok (alter (map_base (wire_edge edge toIdx)) fromIdx ns)
      end
    end) ns edges.

Definition NewWorkflow (g : Graph) (builders : gmap string (PluginBuilder P))
    : result workflow_error Workflow :=
  let sc := pool_size g in
  let? st := initNodes sc g builders in
  let? ns := wireNodes (i_index st) (Edges (GConfig g)) (i_nodes st) in
  Ok (mkWf g (map_base setSocketWriter <$> ns) (i_index st) (i_name st) sc).

(** ** Specification *)

(** First occurrences, in order. *)
Definition first_occurrences (l : list nat) : list nat := foldl (λ acc x, add_once x acc) [] l.

(** The position of a node in the workflow. *)
Definition position (g : Graph) (id : string) : option nat :=
  fst <$> list_find (λ n, ID n = id) (OrderedNodes g).

(** Edges out of [src] of type [t] that node tables keep: all but those
    with a port out of range. *)
Definition kept_edge (src : string) (t : EventType) (e : EdgeConfig) : Prop :=
  Source e = src ∧ EType e = t ∧ (SourcePort e = 0 ∨ 0 ≤ SourcePort e < MaxPortCount)%Z.
#[export] Instance kept_edge_dec src t e : Decision (kept_edge src t e).
Proof. unfold kept_edge. apply _. Defined.
Definition port_edge (src : string) (t : EventType) (p : nat) (e : EdgeConfig) : Prop :=
  Source e = src ∧ EType e = t ∧ SourcePort e = Z.of_nat p ∧ p ≠ 0.
#[export] Instance port_edge_dec src t p e : Decision (port_edge src t p e).
Proof. unfold port_edge. apply _. Defined.

Definition targets (index : gmap string nat) (es : list EdgeConfig) : list nat :=
  omap (λ e, index !! Target e) es.

Lemma first_occurrences_spec l :
  NoDup (first_occurrences l) ∧ ∀ x, x ∈ first_occurrences l ↔ x ∈ l.
Proof.
  unfold first_occurrences. induction l as [|x l IH] using rev_ind.
  { split; [constructor|done]. }
  rewrite foldl_app. simpl. destruct IH as [Hnd Hin]. split; [by apply NoDup_add_once|].
  intros y. rewrite elem_of_add_once, Hin, elem_of_app, list_elem_of_singleton. tauto.
Qed.

Lemma first_occurrences_snoc l x :
  first_occurrences (l ++ [x]) = add_once x (first_occurrences l).
Proof. unfold first_occurrences. by rewrite foldl_app. Qed.

(** ** initNodes *)
Record init_ok (sc : option Z) (builders : gmap string (PluginBuilder P))
    (done : list NodeConfig) (st : init_state) : Prop := {
  io_nodes : Forall2 (λ c n, wbase n = newBaseNode (Name c) ∧
      (∃ b, builders !! ID c = Some b ∧ Build_plugin b (Config c) = Ok (wplugin n)) ∧
      worker_idx n = (λ k, selector k (Name c)) <$> sc) done (i_nodes st);
  io_index : ∀ id i, i_index st !! id = Some i ↔ ∃ c, done !! i = Some c ∧ ID c = id;
  io_name : ∀ nm i, i_name st !! nm = Some i ↔ ∃ c, done !! i = Some c ∧ Name c = nm;
  io_ids : NoDup (ID <$> done);
  io_names : NoDup (Name <$> done);
}.

Lemma snoc_index (f : NodeConfig → string) done c (m : gmap string nat) :
  (∀ id i, m !! id = Some i ↔ ∃ c, done !! i = Some c ∧ f c = id) → m !! f c = None →
  ∀ id i, <[f c := length done]> m !! id = Some i ↔ ∃ c', (done ++ [c]) !! i = Some c' ∧ f c' = id.
Proof.
  intros Hm Hn id i. rewrite lookup_insert. case_decide as Hid; [subst id|].
  - split.
    + intros [= <-]. exists c. by rewrite list_lookup_middle.
    + intros (c' & Hc' & Hf). apply lookup_snoc_Some in Hc' as [[_ Hl]|[-> _]]; [|done].
      assert (m !! f c = Some i); [|congruence]. apply Hm. eauto.
  - rewrite Hm. split; intros (c' & Hc' & Hf); exists c'; (split; [|done]).
    + apply lookup_app_l_Some. done.
    + apply lookup_snoc_Some in Hc' as [[_ Hl]|[_ ->]]; [done|congruence].
Qed.

Lemma NoDup_snoc_index (f : NodeConfig → string) done c (m : gmap string nat) :
  (∀ id i, m !! id = Some i ↔ ∃ c, done !! i = Some c ∧ f c = id) → m !! f c = None →
  NoDup (f <$> done) → NoDup (f <$> (done ++ [c])).
Proof.
  intros Hm Hn Hnd. rewrite fmap_app. apply NoDup_app. split_and!; [done| |apply NoDup_singleton].
  intros x Hx ->%list_elem_of_singleton. apply list_elem_of_fmap in Hx as (c' & Hf & Hc').
  apply list_elem_of_lookup in Hc' as [i Hi]. assert (m !! f c = Some i); [|congruence].
  apply Hm. eauto.
Qed.

Lemma init_node_ok sc builders done st c st' :
  init_ok sc builders done st → init_node sc builders st c = Ok st' →
  init_ok sc builders (done ++ [c]) st'.
Proof.
  intros [Hn Hi Hnm Hids Hnames] Hs. unfold init_node in Hs.
  case_decide as Hi0; [done|]. case_decide as Hn0; [done|].
  apply eq_None_not_Some in Hi0, Hn0.
  destruct (builders !! ID c) as [b|] eqn:Hb; [|done]. inv_ok. subst st'.
  pose proof (Forall2_length _ _ _ Hn) as Hlen. rewrite <-Hlen.
  split; simpl.
  - apply Forall2_app; [done|]. constructor; [|constructor]. simpl. split_and!; [done|by eauto|].
    by destruct sc.
  - by apply snoc_index.
  - by apply snoc_index.
  - by eapply NoDup_snoc_index.
  - by eapply NoDup_snoc_index.
Qed.

Lemma range_fold_ok sc builders cs done st st' :
  init_ok sc builders done st → range_fold (init_node sc builders) st cs = Ok st' →
  init_ok sc builders (done ++ cs) st'.
Proof.
  revert done st. induction cs as [|c cs IH]; intros done st Hok Hs; simpl in Hs.
  { simplify_eq. by rewrite app_nil_r. }
  inv_ok. eapply init_node_ok in Hok; [|done]. rewrite (cons_middle c), app_assoc. eauto.
Qed.

Lemma init_ok_nil sc builders : init_ok sc builders [] (mkInit [] ∅ ∅).
Proof.
  split; simpl; [constructor| | |constructor|constructor]; intros ? i; rewrite lookup_empty;
    (split; [done|]); by intros (? & ? & _).
Qed.

Lemma initNodes_ok sc g builders st :
  initNodes sc g builders = Ok st → init_ok sc builders (OrderedNodes g) st.
Proof. intros Hs. eapply (range_fold_ok sc builders _ []); [apply init_ok_nil|exact Hs]. Qed.

(** What [initNodes] needs to succeed. *)
Definition buildable (g : Graph) (builders : gmap string (PluginBuilder P)) : Prop :=
  NoDup (ID <$> OrderedNodes g) ∧ NoDup (Name <$> OrderedNodes g) ∧
  ∀ c, c ∈ OrderedNodes g → ∃ b p, builders !! ID c = Some b ∧ Build_plugin b (Config c) = Ok p.

Lemma initNodes_complete sc g builders :
  buildable g builders → ∃ st, initNodes sc g builders = Ok st.
Proof.
  intros (Hids & Hnames & Hb). unfold initNodes.
  assert (∀ cs done st, init_ok sc builders done st → done ++ cs = OrderedNodes g →
    ∃ st', range_fold (init_node sc builders) st cs = Ok st') as Hgen.
  2: { by eapply Hgen; [apply init_ok_nil|]. }
  induction cs as [|c cs IH]; intros done st Hok Heq; [by eexists|]. simpl.
  assert (∀ (f : NodeConfig → string) (m : gmap string nat), NoDup (f <$> OrderedNodes g) →
    (∀ id i, m !! id = Some i ↔ ∃ c, done !! i = Some c ∧ f c = id) → ¬ is_Some (m !! f c)) as Hnew.
  { intros f m Hnd Hm [i (c' & Hi & Hf)%Hm]. rewrite <-Heq, fmap_app in Hnd.
    apply NoDup_app in Hnd as (_ & Hd & _). eapply (Hd (f c)).
    - rewrite <-Hf. apply list_elem_of_fmap_2. by eapply list_elem_of_lookup_2.
    - simpl. by left. }
  destruct (Hb c) as (b & p & Hbb & Hp); [rewrite <-Heq; set_solver|].
  destruct (init_node sc builders st c) as [st'|e] eqn:E.
  - simpl. eapply IH; [by eapply init_node_ok|]. by rewrite <-app_assoc.
  - exfalso. unfold init_node in E. rewrite decide_False in E by (eapply Hnew; [done|apply Hok]).
    rewrite decide_False in E by (eapply Hnew; [done|apply Hok]). rewrite Hbb, Hp in E. done.
Qed.

(** ** wireNodes *)

(** The edges of node [i], with the indices of their targets. *)
Definition out_edges (index : gmap string nat) (i : nat) (edges : list EdgeConfig)
    : list (EdgeConfig * nat) :=
  omap (λ e, if decide (index !! Source e = Some i) then (pair e) <$> index !! Target e else None) edges.

Definition wire_all (es : list (EdgeConfig * nat)) (b : baseNode) : baseNode :=
  foldl (λ b '(e, j), wire_edge e j b) b es.

Lemma wireNodes_ok index edges ns ns' :
  wireNodes index edges ns = Ok ns' →
  length ns' = length ns ∧
  ∀ i n, ns !! i = Some n → ns' !! i = Some (map_base (wire_all (out_edges index i edges)) n).
Proof.
  unfold wireNodes. revert ns. induction edges as [|e es IH]; intros ns Hs; simpl in Hs.
  { simplify_eq. split; [done|]. intros i n ->. by destruct n. }
  apply rbind_ok in Hs as (ns1 & H1 & Hs).
  destruct (index !! Source e) as [from|] eqn:Ef; [|done].
  destruct (index !! Target e) as [to|] eqn:Et; [|done]. simplify_eq.
  apply IH in Hs as [Hlen Hs]. rewrite length_alter in Hlen. split; [done|].
  intros i n Hn. simpl. case_decide as Hi.
  - rewrite Ef in Hi. simplify_eq. rewrite Et. simpl.
    rewrite (Hs i (map_base (wire_edge e to) n)); [done|]. by rewrite list_lookup_alter_eq, Hn.
  - rewrite (Hs i n); [done|]. rewrite list_lookup_alter_ne by congruence. done.
Qed.

Lemma wireNodes_complete index edges (ns : list wnode) :
  Forall (λ e, is_Some (index !! Source e) ∧ is_Some (index !! Target e)) edges →
  ∃ ns', wireNodes index edges ns = Ok ns'.
Proof.
  unfold wireNodes. intros Hall. revert ns.
  induction Hall as [|e es [[i Hi] [j Hj]] _ IH]; intros ns; [by eexists|].
  simpl. rewrite Hi, Hj. simpl. apply IH.
Qed.

Definition named (t : EventType) : Prop := match t with EventOther _ => False | _ => True end.

Definition keeps (t : EventType) (e : EdgeConfig) : Prop :=
  EType e = t ∧ (SourcePort e = 0 ∨ 0 ≤ SourcePort e < MaxPortCount)%Z.
Definition on_port (t : EventType) (p : nat) (e : EdgeConfig) : Prop :=
  EType e = t ∧ SourcePort e = Z.of_nat p ∧ p ≠ 0.
#[export] Instance keeps_dec t e : Decision (keeps t e).
Proof. unfold keeps. apply _. Defined.
#[export] Instance on_port_dec t p e : Decision (on_port t p e).
Proof. unfold on_port. apply _. Defined.

Lemma routes_wire_edge e j b t :
  named t →
  routes (table (wire_edge e j b)) t =
    if decide (keeps t e) then add_once j (routes (table b) t) else routes (table b) t.
Proof.
  intros Ht. unfold wire_edge, keeps.
  assert (routes (table_add (EType e) j (table b)) t =
    if decide (EType e = t) then add_once j (routes (table b) t) else routes (table b) t) as Hadd.
  { rewrite routes_table_add. destruct (EType e), t; simpl in *; try done;
      by rewrite ?decide_False, ?decide_True by done. }
  destruct (decide (SourcePort e = 0%Z)) as [Hp|Hp]; unfold addNextNode, addNextPortNode, port_ok; cbn [table].
  - rewrite Hadd. repeat case_decide; naive_solver.
  - case_bool_decide as Hb; cbn [table].
    + rewrite Hadd. repeat case_decide; naive_solver.
    + rewrite decide_False by naive_solver. done.
Qed.

Lemma routes_wire_all es b t :
  named t →
  routes (table (wire_all es b)) t =
    foldl (λ acc x, add_once x acc) (routes (table b) t) (filter (λ ej, keeps t ej.1) es).*2.
Proof.
  intros Ht. unfold wire_all. revert b. induction es as [|[e j] es IH]; intros b; [done|].
  simpl. rewrite IH, filter_cons, routes_wire_edge by done. simpl. by case_decide.
Qed.

Lemma wire_edge_ports e j b :
  length (portTable b) = Z.to_nat MaxPortCount →
  length (portTable (wire_edge e j b)) = Z.to_nat MaxPortCount ∧
  ∀ p tb, portTable b !! p = Some tb →
    ∃ tb', portTable (wire_edge e j b) !! p = Some tb' ∧ ∀ t, named t →
      routes tb' t = if decide (on_port t p e) then add_once j (routes tb t) else routes tb t.
Proof.
  intros Hlen. unfold wire_edge, on_port. case_decide as Hp; simpl.
  - split; [done|]. intros p tb Htb. exists tb. split; [done|]. intros t Ht.
    rewrite decide_False by (intros (_ & ? & ?); lia). done.
  - unfold addNextPortNode, port_ok. case_bool_decide as Hb; simpl.
    + rewrite length_alter. split; [done|]. intros p tb Htb.
      destruct (decide (p = Z.to_nat (SourcePort e))) as [->|Hne].
      * exists (table_add (EType e) j tb). rewrite list_lookup_alter_eq, Htb. split; [done|].
        intros t Ht. rewrite routes_table_add.
        destruct (decide (EType e = t ∧ _)) as [(Het & _)|Hno].
        -- subst t. by destruct (EType e); simpl in *; rewrite ?decide_True by done.
        -- assert (EType e ≠ t) by (intros Het; apply Hno; split_and!; [done|lia|lia]).
           destruct (EType e), t; simpl in *; try done; by rewrite ?decide_False by done.
      * exists tb. rewrite list_lookup_alter_ne by done. split; [done|]. intros t Ht.
        rewrite decide_False by (intros (_ & ? & ?); lia). done.
    + split; [done|]. intros p tb Htb. exists tb. split; [done|]. intros t Ht.
      rewrite decide_False; [done|]. intros (_ & Hs & _). apply lookup_lt_Some in Htb. lia.
Qed.

Lemma wire_all_ports es b :
  length (portTable b) = Z.to_nat MaxPortCount →
  ∀ p tb, portTable b !! p = Some tb →
    ∃ tb', portTable (wire_all es b) !! p = Some tb' ∧ ∀ t, named t →
      routes tb' t =
        foldl (λ acc x, add_once x acc) (routes tb t) (filter (λ ej, on_port t p ej.1) es).*2.
Proof.
  unfold wire_all. revert b. induction es as [|[e j] es IH]; intros b Hlen p tb Htb.
  { exists tb. simpl. eauto. }
  simpl. destruct (wire_edge_ports e j b Hlen) as [Hlen' Hw].
  destruct (Hw p tb Htb) as (tb1 & Htb1 & Hr1).
  destruct (IH (wire_edge e j b) Hlen' p tb1 Htb1) as (tb' & Htb' & Hr').
  exists tb'. split; [done|]. intros t Ht. rewrite Hr', Hr1 by done.
  rewrite filter_cons. simpl. by case_decide.
Qed.

(** The edges of node [i] whose configuration satisfies [Q]. *)
Lemma out_edges_filter (Q : EdgeConfig → Prop) `{∀ e, Decision (Q e)} index i src edges :
  (∀ id, index !! id = Some i ↔ id = src) →
  (filter (λ ej, Q ej.1) (out_edges index i edges)).*2 =
    targets index (filter (λ e, Source e = src ∧ Q e) edges).
Proof.
  intros Hi. unfold out_edges, targets. induction edges as [|e es IH]; [done|].
  csimpl. rewrite (filter_cons _ e). destruct (decide (index !! Source e = Some i)) as [Hs|Hs].
  - apply Hi in Hs as Hs'. destruct (index !! Target e) as [j|] eqn:Ej; csimpl.
    + rewrite filter_cons. csimpl. destruct (decide (Q e)).
      * rewrite decide_True by done. csimpl. by rewrite Ej, IH.
      * rewrite decide_False by tauto. apply IH.
    + rewrite IH. case_decide; csimpl; rewrite ?Ej; done.
  - rewrite decide_False; [apply IH|]. intros [Hsrc _]. by apply Hs, Hi.
Qed.
End workflow.

(** ** Construction theorems *)
Section construction.
Context {P : Type}.

Lemma position_index (g : Graph) (builders : gmap string (PluginBuilder P)) sc st :
  init_ok sc builders (OrderedNodes g) st → ∀ id, i_index st !! id = position g id.
Proof.
  intros Hok id. unfold position. destruct (list_find _ _) as [[i c]|] eqn:E; simpl.
  - apply list_find_Some in E as (Hc & Hid & _). apply (io_index _ _ _ _ Hok). eauto.
  - apply list_find_None in E. apply eq_None_not_Some. intros [i (c & Hc & Hid)%(io_index _ _ _ _ Hok)].
    rewrite Forall_lookup in E. by eapply E.
Qed.

Lemma index_iff (builders : gmap string (PluginBuilder P)) sc done st i c :
  init_ok sc builders done st → done !! i = Some c →
  ∀ id, i_index st !! id = Some i ↔ id = ID c.
Proof.
  intros Hok Hc id. rewrite (io_index _ _ _ _ Hok). split; [|by intros ->; eauto].
  intros (c' & Hc' & <-). by simplify_eq.
Qed.

(** A workflow can be instantiated from a graph that [BuildGraph] returned
    exactly when node names are unique and every node's plugin can be built;
    wiring the edges never fails. *)
Theorem NewWorkflow_succeeds o1 o2 config (builders : gmap string (PluginBuilder P)) g :
  BuildGraph o1 o2 config builders = Ok g →
  (∃ w, NewWorkflow g builders = Ok w) ↔
  NoDup (Name <$> Nodes config) ∧
  ∀ n, n ∈ Nodes config → ∃ b p, builders !! ID n = Some b ∧ Build_plugin b (Config n) = Ok p.
Proof.
  intros Hg. pose proof Hg as [Hl (nodes & Hsort & ->)]%BuildGraph_ok.
  destruct (sort_ok o1 o2 config) as (nodes' & Hs & Hperm & _); [apply Hl|eapply legal_closed, Hl|].
  simplify_eq. destruct Hl as (Hnd & _ & _ & _ & Hedges).
  rewrite <-Hperm. setoid_rewrite <-Hperm. unfold NewWorkflow. split.
  - intros [w Hw]. inv_ok. apply initNodes_ok in H. simpl in H. split; [apply H|].
    intros n [i Hi]%list_elem_of_lookup. destruct H as [H2 _ _ _ _].
    eapply Forall2_lookup_l in H2 as (wn & _ & _ & (b & Hb & Hp) & _); [|exact Hi]. eauto.
  - intros [Hnames Hb].
    destruct (initNodes_complete (pool_size (mkGraph config nodes)) (mkGraph config nodes) builders)
      as [st Hst].
    { split_and!; simpl; [|done|done]. by rewrite Hperm. }
    rewrite Hst. simpl. apply initNodes_ok in Hst.
    destruct (wireNodes_complete (i_index st) (Edges config) (i_nodes st)) as [ns Hns].
    { eapply Forall_impl; [exact Hedges|]. intros e (_ & H1 & H2 & _).
      rewrite <-Hperm in H1, H2. simpl in *.
      split; [apply list_elem_of_fmap in H1 as (c & -> & [i Hi]%list_elem_of_lookup)
             |apply list_elem_of_fmap in H2 as (c & -> & [i Hi]%list_elem_of_lookup)];
        exists i; apply (io_index _ _ _ _ Hst); eauto. }
    rewrite Hns. simpl. eauto.
Qed.

(** C11: The routing tables of an instantiated workflow are its edges: the node
    at position [i] sends events of a type to the targets of its edges of that
    type, once each, in the order of the document, and its port [p] to the
    targets of the edges that leave through [p]. *)
Theorem NewWorkflow_wiring (g : Graph) (builders : gmap string (PluginBuilder P)) w i c t :
  NewWorkflow g builders = Ok w → OrderedNodes g !! i = Some c → named t →
  ∃ n, wnodes w !! i = Some n ∧ NodeName (wbase n) = Name c ∧
    routes (table (wbase n)) t =
      first_occurrences (targets (indexMap w) (filter (kept_edge (ID c) t) (Edges (GConfig g)))) ∧
    (∀ p, p < Z.to_nat MaxPortCount → ∃ tb, portTable (wbase n) !! p = Some tb ∧
      routes tb t =
        first_occurrences (targets (indexMap w) (filter (port_edge (ID c) t p) (Edges (GConfig g))))) ∧
    (∀ id, indexMap w !! id = position g id).
Proof.
  intros Hw Hc Ht. unfold NewWorkflow in Hw. inv_ok. subst w. rename x into st, x0 into ns.
  apply initNodes_ok in H. pose proof (index_iff _ _ _ _ _ _ H Hc) as Hidx.
  pose proof (position_index _ _ _ _ H) as Hpos.
  destruct H as [H2 _ _ _ _]. eapply Forall2_lookup_l in H2 as (wn & Hwn & Hb & _ & _); [|exact Hc].
  apply wireNodes_ok in H0 as [_ Hns]. apply Hns in Hwn. simpl.
  rewrite list_lookup_fmap, Hwn. eexists. split; [done|]. simpl. rewrite Hb.
  assert (∀ es b, NodeName (wire_all es b) = NodeName b) as Hname.
  { unfold wire_all. induction es as [|[e j] es IH]; intros b; [done|]. simpl. rewrite IH.
    unfold wire_edge, addNextPortNode. repeat case_match; done. }
  split_and!; [by rewrite Hname| | |done].
  - rewrite routes_wire_all by done. rewrite (out_edges_filter (keeps t) _ _ (ID c)) by done.
    by destruct t.
  - intros p Hp.
    destruct (wire_all_ports (out_edges (i_index st) i (Edges (GConfig g))) (newBaseNode (Name c))
      (length_replicate _ _) p empty_table) as (tb & Htb & Hr).
    { unfold newBaseNode. cbn [portTable]. by apply lookup_replicate_2. }
    exists tb. split; [done|]. rewrite Hr by done.
    rewrite (out_edges_filter (on_port t p) _ _ (ID c)) by done. by destruct t.
Qed.
End construction.

(** The graph of the sample workflow. *)
Definition sample_graph : Graph :=
  mkGraph sample_workflow (sample_node <$> ["a"; "b"; "c"; "d"; "e"]).

Lemma NewWorkflow_succeeds_witness :
  ∃ g, BuildGraph default_order default_order sample_workflow sample_builders = Ok g ∧
  ∃ w, NewWorkflow g sample_builders = Ok w.
Proof.
  eexists. split; [vm_compute; reflexivity|].
  apply (NewWorkflow_succeeds default_order default_order sample_workflow sample_builders);
    [vm_compute; reflexivity|]. split.
  - apply (bool_decide_unpack _). vm_compute. exact I.
  - intros n Hn. simpl in Hn. rewrite !elem_of_cons in Hn.
    destruct Hn as [->|[->|[->|[->|[->|Hn]]]]]; [do 2 eexists; split; vm_compute; reflexivity..|].
    apply elem_of_nil in Hn. destruct Hn.
Defined.

Lemma NewWorkflow_wiring_witness :
  ∃ w n, NewWorkflow sample_graph sample_builders = Ok w ∧
    wnodes w !! 0 = Some n ∧ routes (table (wbase n)) EventSignal = [2; 1].
Proof.
  assert (∃ w, NewWorkflow sample_graph sample_builders = Ok w) as [w Hw]
    by (eexists; vm_compute; reflexivity).
  destruct (NewWorkflow_wiring sample_graph sample_builders w 0 (sample_node "a") EventSignal Hw)
    as (n & Hn & _ & Hr & _); [vm_compute; reflexivity|exact I|].
  exists w, n. split; [exact Hw|]. split; [exact Hn|]. rewrite Hr.
  vm_compute in Hw. injection Hw as <-. vm_compute. reflexivity.
Defined.
