(* ===== verification/Lifecycle.v ===== *)
(** * Workflow lifecycle and output ([workflow.go], [node_loop.go], [node_scheduler.go])

    The first part states what a workflow asks of a node as an interface,
    shows that loop nodes and scheduler nodes implement it, and proves
    [Workflow.Start] and its rollback against the interface.  The second part
    is the concurrent life of a started workflow: writers, its consumer,
    [Pause], [Resume] and [Stop], interleaved in any order. *)

From S2P Require Import Prelude EngineTypes Chan Node Runtime.

(** ** The plugin's lifecycle hooks *)
Class PluginHooks (P : Type) := {
  OnStart : P → result string P;
  OnReady : P → P;
  OnStop : P → P;
}.

(** ** The node interface ([node.go]: Node) *)
Class NodeOps (N : Type) := {
  is_running : N → bool;
  Start : N → result string N;
  Ready : N → N;
  Stop : N → N;
}.

(** What a workflow relies on. *)
Class NodeLaws (N : Type) `{NodeOps N} := {
  Start_running : ∀ n n', Start n = Ok n' → is_running n' = true;
  Ready_running : ∀ n, is_running (Ready n) = is_running n;
  Stop_stopped : ∀ n, is_running (Stop n) = false;
}.

Section implementations.
Context `{PluginHooks P}.

Record loop_node := mkLN { ln_base : baseNode; ln_chans : loopNode; ln_plugin : P; ln_loops : nat }.

(** [loopNode.Start]: run [OnStart], mark the node running, start its loop. *)
Definition loop_Start (n : loop_node) : result string loop_node :=
  let? p := OnStart (ln_plugin n) in
  Ok (mkLN (set_running true (ln_base n)) (ln_chans n) p (S (ln_loops n))).

(** [baseNode.Ready]. *)
Definition loop_Ready (n : loop_node) : loop_node :=
  if running (ln_base n) then mkLN (ln_base n) (ln_chans n) (OnReady (ln_plugin n)) (ln_loops n) else n.

(** [loopNode.Stop]: the loop owns [OnStop]; it is woken through [ctrlChan]
    unless that is full. *)
Definition loop_Stop (n : loop_node) : loop_node :=
  if running (ln_base n) then
    let ch := ctrlChan (ln_chans n) in
    mkLN (set_running false (ln_base n))
      (if full ch then ln_chans n else set_ctrl (enqueue ch controlStop) (ln_chans n))
      (ln_plugin n) (ln_loops n)
  else mkLN (set_running false (ln_base n)) (ln_chans n) (ln_plugin n) (ln_loops n).

#[export] Instance loop_ops : NodeOps loop_node := {|
  is_running n := running (ln_base n);
  Start := loop_Start;
  Ready := loop_Ready;
  Stop := loop_Stop;
|}.

#[export] Instance loop_laws : NodeLaws loop_node.
Proof.
  split; simpl.
  - intros n n' Hs. unfold loop_Start in Hs. inv_ok. by subst.
  - intros n. unfold loop_Ready. by destruct (running (ln_base n)) eqn:E.
  - intros n. unfold loop_Stop. by destruct (running (ln_base n)).
Qed.

Record scheduler_node := mkSN { sn_base : baseNode; sn_worker : nat; sn_plugin : P }.

Definition sched_Start (n : scheduler_node) : result string scheduler_node :=
  let? p := OnStart (sn_plugin n) in
  Ok (mkSN (set_running true (sn_base n)) (sn_worker n) p).
Definition sched_Ready (n : scheduler_node) : scheduler_node :=
  if running (sn_base n) then mkSN (sn_base n) (sn_worker n) (OnReady (sn_plugin n)) else n.
(** [schedulerNode.Stop] runs [OnStop] itself, once. *)
Definition sched_Stop (n : scheduler_node) : scheduler_node :=
  mkSN (set_running false (sn_base n)) (sn_worker n)
    (if running (sn_base n) then OnStop (sn_plugin n) else sn_plugin n).

#[export] Instance sched_ops : NodeOps scheduler_node := {|
  is_running n := running (sn_base n);
  Start := sched_Start;
  Ready := sched_Ready;
  Stop := sched_Stop;
|}.

#[export] Instance sched_laws : NodeLaws scheduler_node.
Proof.
  split; simpl.
  - intros n n' Hs. unfold sched_Start in Hs. inv_ok. by subst.
  - intros n. unfold sched_Ready. by destruct (running (sn_base n)) eqn:E.
  - intros n. done.
Qed.
End implementations.
Arguments loop_node : clear implicits.
Arguments scheduler_node : clear implicits.

(** ** Workflow.Start *)
Inductive wf_event := EvStart (i : nat) | EvReady (i : nat) | EvStop (i : nat).

Section start.
Context {Nd : Type} `{NodeLaws Nd}.
Implicit Types ns : list Nd.

(** [clearStartError]: stop the nodes [index, ..., 0]. *)
Definition clearStartError (started : list Nd) : list Nd * list wf_event :=
  (Stop <$> started, EvStop <$> reverse (seq 0 (length started))).

(** The loop over the nodes; [started] are those already started. *)
Fixpoint start_nodes (started ns : list Nd) : list Nd * list wf_event * option (nat * string) :=
  match ns with
  | [] => (started, [], None)
  | n :: ns =>
    match Start n with
    | Err e => let '(st, lg) := clearStartError started in
               (st ++ n :: ns, lg, Some (length started, e))
    | Ok n' =>
      let '(res, lg, err) := start_nodes (started ++ [n']) ns in
      (res, EvStart (length started) :: lg, err)
    end
  end.

Record start_result := mkStart {
  sr_state : WorkflowState;
  sr_nodes : list Nd;
  sr_log : list wf_event;
  sr_error : option (nat * string);
  sr_refused : bool;   (** the state did not allow a start *)
}.

Definition wf_Start (st : WorkflowState) ns : start_result :=
  if decide (st = WorkflowStatePending) then
    match start_nodes [] ns with
    | (ns', lg, Some e) => mkStart WorkflowStateStopped ns' lg (Some e) false
    | (ns', lg, None) =>
      mkStart WorkflowStateRunning (Ready <$> ns') (lg ++ (EvReady <$> seq 0 (length ns'))) None false
    end
  else mkStart st ns [] None true.

Lemma start_nodes_spec started ns res lg err :
  start_nodes started ns = (res, lg, err) →
  match err with
  | None =>
    ∃ ns', Forall2 (λ n n', Start n = Ok n') ns ns' ∧ res = started ++ ns' ∧
      lg = EvStart <$> seq (length started) (length ns)
  | Some (k, e) =>
    ∃ ok n rest ok', ns = ok ++ n :: rest ∧ Forall2 (λ n n', Start n = Ok n') ok ok' ∧
      Start n = Err e ∧ k = length started + length ok ∧
      res = (Stop <$> (started ++ ok')) ++ n :: rest ∧
      lg = (EvStart <$> seq (length started) (length ok)) ++ (EvStop <$> reverse (seq 0 k))
  end.
Proof.
  revert started res lg err. induction ns as [|n ns IH]; intros started res lg err Hs; simpl in Hs.
  { simplify_eq. exists []. split_and!; [constructor|by rewrite app_nil_r|done]. }
  destruct (Start n) as [n'|e] eqn:En.
  - destruct (start_nodes (started ++ [n']) ns) as [[res' lg'] err'] eqn:E. simplify_eq.
    apply IH in E. rewrite length_app in E. simpl in E. destruct err as [[k e]|].
    + destruct E as (ok & nf & rest & ok' & -> & Hok & Hf & -> & -> & ->).
      exists (n :: ok), nf, rest, (n' :: ok'). split_and!; simpl; try done; [by constructor|lia|..].
      * by rewrite <-app_assoc.
      * rewrite Nat.add_1_r. by repeat f_equal.
    + destruct E as (ns' & Hns & -> & ->). exists (n' :: ns'). split_and!; [by constructor|..].
      * by rewrite <-app_assoc.
      * simpl. by rewrite Nat.add_1_r.
  - simplify_eq. exists [], n, ns, []. split_and!; try done; simpl; try lia;
      by rewrite ?app_nil_r, ?Nat.add_0_r.
Qed.

(** C10: Starting a pending workflow either starts every node in order and only
    then announces readiness to each, leaving all running, or, when node [k]
    fails, stops the nodes before it in reverse order, leaves the workflow
    stopped and no node running; any other state refuses the start and
    changes nothing.  Proved for every node implementation of the interface. *)
Theorem Start_all_or_nothing (st : WorkflowState) ns :
  Forall (λ n, is_running n = false) ns →
  let r := wf_Start st ns in
  (st ≠ WorkflowStatePending → sr_refused r = true ∧ sr_state r = st ∧ sr_nodes r = ns ∧ sr_log r = []) ∧
  (st = WorkflowStatePending → sr_refused r = false ∧ length (sr_nodes r) = length ns ∧
    match sr_error r with
    | None =>
      sr_state r = WorkflowStateRunning ∧ Forall (λ n, is_running n = true) (sr_nodes r) ∧
      sr_log r = (EvStart <$> seq 0 (length ns)) ++ (EvReady <$> seq 0 (length ns))
    | Some (k, e) =>
      sr_state r = WorkflowStateStopped ∧ Forall (λ n, is_running n = false) (sr_nodes r) ∧
      (∃ n, ns !! k = Some n ∧ Start n = Err e) ∧
      sr_log r = (EvStart <$> seq 0 k) ++ (EvStop <$> reverse (seq 0 k))
    end).
Proof.
  intros Hoff r. split.
  { intros Hst. unfold r, wf_Start. by rewrite decide_False. }
  intros ->. unfold r, wf_Start. rewrite decide_True by done.
  destruct (start_nodes [] ns) as [[res lg] err] eqn:E. apply start_nodes_spec in E.
  destruct err as [[k e]|]; simpl in *.
  - destruct E as (ok & n & rest & ok' & -> & Hok & Hf & -> & -> & ->).
    rewrite !length_app, length_fmap. simpl. rewrite (Forall2_length _ _ _ Hok).
    split_and!; try done.
    + apply Forall_app. split; [apply Forall_fmap, Forall_true; intros; apply Stop_stopped|].
      by apply Forall_app in Hoff as [_ ?].
    + exists n. rewrite <-(Forall2_length _ _ _ Hok). split; [by apply list_lookup_middle|done].
  - destruct E as (ns' & Hns & -> & ->). simpl. rewrite length_fmap, (Forall2_length _ _ _ Hns).
    split_and!; try done. apply Forall_fmap. eapply Forall2_Forall_r; [exact Hns|].
    apply Forall_true. intros n n' Hs. simpl. rewrite Ready_running. by eapply Start_running.
Qed.
End start.

(** A plugin that counts its hooks; number 9 refuses to start. *)
#[export] Instance nat_plugin : PluginHooks nat := {|
  OnStart n := if decide (n = 9) then Err "no device" else Ok n;
  OnReady := id;
  OnStop := id;
|}.

Lemma Start_all_or_nothing_witness :
  let ns := [mkSN (newBaseNode "a") 0 1; mkSN (newBaseNode "b") 0 9] in
  sr_error (wf_Start WorkflowStatePending ns) = Some (1, "no device") ∧
  sr_refused (wf_Start WorkflowStatePending ns) = false.
Proof.
  intros ns. split; [vm_compute; reflexivity|].
  apply (Start_all_or_nothing WorkflowStatePending ns); [|reflexivity].
  apply Forall_cons; split; [reflexivity|]. apply Forall_cons; split; [reflexivity|]. apply Forall_nil_2.
Defined.

(** ** A started workflow: Write, Pause, Resume, Stop *)
Definition outputBufferSize : nat := 1024.

Inductive wthread :=
| WIdle
| WCheck (p : nat)    (** [Write(p)], before its state check *)
| WSelect (p : nat)   (** past the check, before the [select] *)
| SCancel             (** [Stop] won the swap: cancel the context next *)
| SNodes (i : nat)    (** stopping node [i] next *)
| SClose
| SDrain
| WPanicked           (** a panic nobody recovers *).

Record wf := mkWfState {
  wf_state : WorkflowState;
  wf_cancelled : bool;
  output : chan nat;       (** packets by identity *)
  n_nodes : nat;
  wf_threads : list wthread;
  written : list nat;      (** ghost: every packet given to [Write] *)
  delivered : list nat;    (** ghost: received by the consumer of [Output()] *)
  released : list nat;     (** ghost: returned to the packet pool *)
  node_stops : list nat    (** ghost: nodes stopped, latest first *)
}.

Definition wf_init (n threads : nat) : wf :=
  mkWfState WorkflowStateRunning false (make_chan outputBufferSize) n (replicate threads WIdle) [] [] [] [].

Section wf_updates.
Context (s : wf).
Definition w_thread (t : nat) (th : wthread) : wf :=
  mkWfState (wf_state s) (wf_cancelled s) (output s) (n_nodes s) (<[t := th]> (wf_threads s))
    (written s) (delivered s) (released s) (node_stops s).
Definition w_state (st : WorkflowState) : wf :=
  mkWfState st (wf_cancelled s) (output s) (n_nodes s) (wf_threads s)
    (written s) (delivered s) (released s) (node_stops s).
Definition w_output (c : chan nat) : wf :=
  mkWfState (wf_state s) (wf_cancelled s) c (n_nodes s) (wf_threads s)
    (written s) (delivered s) (released s) (node_stops s).
Definition w_cancel : wf :=
  mkWfState (wf_state s) true (output s) (n_nodes s) (wf_threads s)
    (written s) (delivered s) (released s) (node_stops s).
Definition w_write (p : nat) : wf :=
  mkWfState (wf_state s) (wf_cancelled s) (output s) (n_nodes s) (wf_threads s)
    (p :: written s) (delivered s) (released s) (node_stops s).
Definition w_deliver (p : nat) : wf :=
  mkWfState (wf_state s) (wf_cancelled s) (output s) (n_nodes s) (wf_threads s)
    (written s) (p :: delivered s) (released s) (node_stops s).
Definition w_release (p : nat) : wf :=
  mkWfState (wf_state s) (wf_cancelled s) (output s) (n_nodes s) (wf_threads s)
    (written s) (delivered s) (p :: released s) (node_stops s).
Definition w_nodestop (i : nat) : wf :=
  mkWfState (wf_state s) (wf_cancelled s) (output s) (n_nodes s) (wf_threads s)
    (written s) (delivered s) (released s) (i :: node_stops s).
End wf_updates.

(** The next atomic action of a [Write] in progress; [k] picks among the ready
    cases of its [select].  A send on the closed channel panics and the
    deferred function releases the packet. *)
Definition Write (k t : nat) (th : wthread) (s : wf) : option wf :=
  match th with
  | WCheck p =>
    if decide (wf_state s = WorkflowStateRunning ∧ wf_cancelled s = false)
    then Some (w_thread s t (WSelect p))
    else Some (w_release (w_thread s t WIdle) p)
  | WSelect p =>
    o ← SendWithNonBlocking false (wf_cancelled s) (output s) p !! k;
    match o with
    | Sent c => Some (w_output (w_thread s t WIdle) c)
    | CtxErr | ErrSendBlocked | Panicked => Some (w_release (w_thread s t WIdle) p)
    end
  | _ => None
  end.

(** The next atomic action of a [Stop] in progress past its swap. *)
Definition Stop_step (t : nat) (th : wthread) (s : wf) : option wf :=
  match th with
  | SCancel => Some (w_thread (w_cancel s) t (SNodes 0))
  | SNodes i =>
    if decide (i < n_nodes s) then Some (w_thread (w_nodestop s i) t (SNodes (S i)))
    else Some (w_thread s t SClose)
  | SClose =>
    if closed (output s) then Some (w_thread s t WPanicked)
    else Some (w_thread (w_output s (close_chan (output s))) t SDrain)
  | SDrain =>
    match recv_case (output s) with
    | Some (p, c) => Some (w_release (w_output s c) p)
    | None => Some (w_thread s t WIdle)
    end
  | _ => None
  end.

Inductive wf_label :=
| WfWrite (t p : nat) | WfStop (t : nat) | WfPause (t : nat) | WfResume (t : nat)
| WfNext (t k : nat)
| WfReceive.

Definition wf_step (lb : wf_label) (s : wf) : option wf :=
  match lb with
  | WfWrite t p =>
    match wf_threads s !! t with
    | Some WIdle => Some (w_thread (w_write s p) t (WCheck p))
    | _ => None
    end
  | WfStop t =>
    match wf_threads s !! t with
    | Some WIdle =>
      if decide (wf_state s = WorkflowStateStopped) then Some s
      else Some (w_thread (w_state s WorkflowStateStopped) t SCancel)
    | _ => None
    end
  | WfPause t =>
    match wf_threads s !! t with
    | Some WIdle =>
      if decide (wf_state s = WorkflowStateRunning) then Some (w_state s WorkflowStatePaused) else Some s
    | _ => None
    end
  | WfResume t =>
    match wf_threads s !! t with
    | Some WIdle =>
      if decide (wf_state s = WorkflowStatePaused) then Some (w_state s WorkflowStateRunning) else Some s
    | _ => None
    end
  | WfNext t k =>
    th ← wf_threads s !! t;
    match th with
    | WCheck _ | WSelect _ => Write k t th s
    | _ => Stop_step t th s
    end
  | WfReceive =>
    '(p, c) ← recv_case (output s);
    Some (w_deliver (w_output s c) p)
  end.

Fixpoint wf_run (ls : list wf_label) (s : wf) : option wf :=
  match ls with
  | [] => Some s
  | lb :: ls => s' ← wf_step lb s; wf_run ls s'
  end.

(** ** Invariant *)
Definition in_hand (th : wthread) : list nat :=
  match th with WCheck p | WSelect p => [p] | _ => [] end.
(** A [Stop] that won the swap and has not closed the output yet. *)
Definition stopping (th : wthread) : nat :=
  match th with SCancel | SNodes _ | SClose => 1 | _ => 0 end.

Record wf_inv (s : wf) : Prop := {
  wi_items : ∀ x, count_occ Nat.eq_dec (written s) x =
    count_occ Nat.eq_dec (delivered s) x + count_occ Nat.eq_dec (released s) x +
    count_occ Nat.eq_dec (buffer (output s)) x + sum_list_with (λ th, count_occ Nat.eq_dec (in_hand th) x) (wf_threads s);
  wi_bound : length (buffer (output s)) ≤ chan_cap (output s);
  wi_stop : sum_list_with stopping (wf_threads s) + (if closed (output s) then 1 else 0) =
    if decide (wf_state s = WorkflowStateStopped) then 1 else 0;
  wi_cancelled : closed (output s) = true → wf_cancelled s = true;
  wi_sclose : ∀ th, th ∈ wf_threads s → (th = SClose ∨ ∃ i, th = SNodes i) → wf_cancelled s = true;
  wi_panic : (WPanicked ∉ wf_threads s);
  wi_empty : closed (output s) = true → (SDrain ∉ wf_threads s) → buffer (output s) = [];
}.

Lemma sum_list_with_insert {A} (f : A → nat) l i x y :
  l !! i = Some x → sum_list_with f (<[i := y]> l) + f x = sum_list_with f l + f y.
Proof.
  revert i. induction l as [|z l IH]; intros [|i] Hi; simplify_eq/=; [lia|].
  specialize (IH i Hi). lia.
Qed.

Lemma sum_list_with_elem {A} (f : A → nat) l x : x ∈ l → f x ≤ sum_list_with f l.
Proof. induction 1; simpl; lia. Qed.

Lemma elem_of_list_insert_inv {A} (l : list A) i x y : x ∈ <[i := y]> l → x = y ∨ x ∈ l.
Proof.
  revert i. induction l as [|z l IH]; intros [|i]; simpl; rewrite ?elem_of_cons; [tauto..|].
  intros [->|Hx]; [tauto|]. destruct (IH i Hx); tauto.
Qed.

Lemma not_elem_of_list_insert {A} (l : list A) i x x' y :
  l !! i = Some x → x ≠ y → y ∉ <[i := x']> l → y ∉ l.
Proof.
  intros Hi Hne Hn [j Hj]%list_elem_of_lookup. apply Hn, list_elem_of_lookup.
  exists j. rewrite list_lookup_insert_ne; [done|]. congruence.
Qed.

(** The obligations of a step that moves thread [t] from [th] to [th']. *)
Lemma wf_inv_thread s s' t th th' :
  wf_inv s → wf_threads s !! t = Some th → wf_threads s' = <[t := th']> (wf_threads s) →
  th' ≠ WPanicked →
  (∀ x, count_occ Nat.eq_dec (written s') x + count_occ Nat.eq_dec (delivered s) x +
      count_occ Nat.eq_dec (released s) x + count_occ Nat.eq_dec (buffer (output s)) x +
      count_occ Nat.eq_dec (in_hand th) x =
    count_occ Nat.eq_dec (written s) x + count_occ Nat.eq_dec (delivered s') x +
      count_occ Nat.eq_dec (released s') x + count_occ Nat.eq_dec (buffer (output s')) x +
      count_occ Nat.eq_dec (in_hand th') x) →
  length (buffer (output s')) ≤ chan_cap (output s') →
  stopping th' + (if closed (output s') then 1 else 0) +
    (if decide (wf_state s = WorkflowStateStopped) then 1 else 0) =
    stopping th + (if closed (output s) then 1 else 0) +
    (if decide (wf_state s' = WorkflowStateStopped) then 1 else 0) →
  (closed (output s') = true → wf_cancelled s' = true) →
  (wf_cancelled s = true → wf_cancelled s' = true) →
  (th' = SClose ∨ (∃ i, th' = SNodes i) → wf_cancelled s' = true) →
  (closed (output s') = true → (SDrain ∉ wf_threads s') → buffer (output s') = []) →
  wf_inv s'.
Proof.
  intros [Hit Hb Hst Hcc Hsc Hp He] Ht Hts Hnp Hit' Hb' Hst' Hcc' Hmono Hsc' He'.
  pose proof (λ f, sum_list_with_insert f _ t th th' Ht) as Hsum. split.
  - intros x. specialize (Hit x). specialize (Hit' x). rewrite Hts.
    specialize (Hsum (λ th, count_occ Nat.eq_dec (in_hand th) x)). lia.
  - done.
  - rewrite Hts. specialize (Hsum stopping). lia.
  - done.
  - rewrite Hts. intros th0 Hin Hor. apply elem_of_list_insert_inv in Hin as [->|Hin]; [auto|].
    apply Hmono. by eapply Hsc.
  - rewrite Hts. intros Hin. apply elem_of_list_insert_inv in Hin as [Heq|Hin]; congruence.
  - done.
Qed.

(** The buffer does not change and the thread was not draining. *)
Lemma wf_empty_keep s s' t th th' :
  wf_inv s → wf_threads s !! t = Some th → th ≠ SDrain →
  wf_threads s' = <[t := th']> (wf_threads s) → output s' = output s →
  closed (output s') = true → (SDrain ∉ wf_threads s') → buffer (output s') = [].
Proof.
  intros Hi Ht Hne Hts Ho. rewrite Ho, Hts. intros Hc Hn. apply (wi_empty _ Hi); [done|].
  by eapply not_elem_of_list_insert.
Qed.

Ltac count_packets := intros x; simpl; repeat case_match; lia.

Lemma inv_Write k t th s s' :
  wf_inv s → wf_threads s !! t = Some th → Write k t th s = Some s' → wf_inv s'.
Proof.
  intros Hi Ht Hs. unfold Write in Hs. destruct th as [|p|p| | | | |]; try done.
  - case_decide as Hd; simplify_eq; (eapply (wf_inv_thread s _ t _ _ Hi Ht); [done|done|count_packets|
      apply Hi|simpl; lia|apply Hi|done|naive_solver|]); by eapply (wf_empty_keep s).
  - destruct (_ !! k) as [o|] eqn:E; [|done]. simpl in Hs. apply list_elem_of_lookup_2 in E.
    destruct o as [c| | |]; simplify_eq.
    2-4: eapply (wf_inv_thread s _ t _ _ Hi Ht); [done|done|count_packets|
      apply Hi|simpl; lia|apply Hi|done|naive_solver|]; by eapply (wf_empty_keep s).
    apply SendWithNonBlocking_spec in E as [E|[? _]]; [|done].
    apply SendWithContext_spec in E as [[? _]|[_ E]]; [done|].
    apply send_case_spec in E as [[_ ?]|(Hc & Hf & ?)]; [done|]. simplify_eq.
    apply full_false in Hf as Hlt.
    eapply (wf_inv_thread s _ t _ _ Hi Ht); [done|done|..]; simpl.
    + intros x. rewrite count_occ_app. simpl. repeat case_match; lia.
    + rewrite length_app. simpl. lia.
    + lia.
    + by rewrite Hc.
    + done.
    + naive_solver.
    + by rewrite Hc.
Qed.

Lemma inv_Stop_step t th s s' :
  wf_inv s → wf_threads s !! t = Some th → Stop_step t th s = Some s' → wf_inv s'.
Proof.
  intros Hi Ht Hs. assert (th ∈ wf_threads s) as Hin by by eapply list_elem_of_lookup_2.
  destruct th as [|p|p| |i| | |]; try done; simpl in Hs.
  - simplify_eq. eapply (wf_inv_thread s _ t _ _ Hi Ht); [done|done|count_packets|
      apply Hi|simpl; lia|done|done|naive_solver|]. by eapply (wf_empty_keep s).
  - assert (wf_cancelled s = true) by (eapply (wi_sclose _ Hi); [done|by eauto]).
    case_decide; simplify_eq; (eapply (wf_inv_thread s _ t _ _ Hi Ht); [done|done|count_packets|
      apply Hi|simpl; lia|apply Hi|done|naive_solver|]); by eapply (wf_empty_keep s).
  - assert (wf_cancelled s = true) as Hcan by (eapply (wi_sclose _ Hi); [done|by eauto]).
    assert (closed (output s) = false) as Hcl.
    { pose proof (wi_stop _ Hi) as Hst. pose proof (sum_list_with_elem stopping _ _ Hin) as Hle.
      simpl in Hle. destruct (closed (output s)); [|done]. case_decide; lia. }
    rewrite Hcl in Hs. simplify_eq. eapply (wf_inv_thread s _ t _ _ Hi Ht); [done|done|count_packets|
      apply Hi|simpl; rewrite Hcl; lia|done|done|naive_solver|].
    simpl. intros _ Hn. exfalso. apply Hn, list_elem_of_lookup. exists t.
    apply list_lookup_insert_eq. by eapply lookup_lt_Some.
  - destruct (recv_case (output s)) as [[p c]|] eqn:E; simplify_eq.
    + apply recv_case_Some in E as (Hb & Hc & Hcl). destruct Hi as [Hit Hbd Hst Hcc Hsc Hp He].
      split; simpl; try done; rewrite ?Hc, ?Hcl; try done.
      * intros x. specialize (Hit x). rewrite Hb in Hit. simpl in *. repeat case_match; lia.
      * rewrite Hb in Hbd. simpl in Hbd. lia.
    + eapply (wf_inv_thread s _ t _ _ Hi Ht); [done|done|count_packets|
        apply Hi|simpl; lia|apply Hi|done|naive_solver|].
      intros _ _. simpl. unfold recv_case in E. by destruct (buffer (output s)).
Qed.

Lemma inv_wf_step lb s s' : wf_inv s → wf_step lb s = Some s' → wf_inv s'.
Proof.
  intros Hi Hs. destruct lb as [t p|t|t|t|t k|]; simpl in Hs.
  1-4: destruct (wf_threads s !! t) as [[]|] eqn:Ht; try done.
  - simplify_eq. eapply (wf_inv_thread s _ t _ _ Hi Ht); [done|done|count_packets|
      apply Hi|simpl; lia|apply Hi|done|naive_solver|]. by eapply (wf_empty_keep s).
  - case_decide as Hd; simplify_eq; [done|].
    eapply (wf_inv_thread s _ t _ _ Hi Ht); [done|done|count_packets|
      apply Hi| |apply Hi|done|naive_solver|by eapply (wf_empty_keep s)].
    simpl. rewrite decide_False by done. lia.
  - case_decide as Hd; simplify_eq; [|done]. destruct Hi as [Hit Hbd Hst Hcc Hsc Hp He].
    split; try done. simpl. rewrite Hst, Hd. done.
  - case_decide as Hd; simplify_eq; [|done]. destruct Hi as [Hit Hbd Hst Hcc Hsc Hp He].
    split; try done. simpl. rewrite Hst, Hd. done.
  - destruct (wf_threads s !! t) as [th|] eqn:Ht; [|done]. simpl in Hs.
    destruct th; [by eapply inv_Stop_step|by eapply inv_Write|by eapply inv_Write|
      by eapply inv_Stop_step..].
  - destruct (recv_case (output s)) as [[p c]|] eqn:E; simplify_eq/=.
    apply recv_case_Some in E as (Hb & Hc & Hcl). destruct Hi as [Hit Hbd Hst Hcc Hsc Hp He].
    split; simpl; try done; rewrite ?Hc, ?Hcl; try done.
    + intros x. specialize (Hit x). rewrite Hb in Hit. simpl in *. repeat case_match; lia.
    + rewrite Hb in Hbd. simpl in Hbd. lia.
    + intros Hcl' Hn. specialize (He Hcl' Hn). by rewrite Hb in He.
Qed.

Lemma inv_wf_init n threads : wf_inv (wf_init n threads).
Proof.
  assert (∀ f : wthread → nat, f WIdle = 0 → sum_list_with f (replicate threads WIdle) = 0) as Hz.
  { intros f Hf. induction threads as [|m IH]; simpl; lia. }
  assert (∀ th, th ∈ replicate threads WIdle → th = WIdle) as Hidle.
  { intros th Hin. by apply elem_of_replicate in Hin as [-> _]. }
  split; simpl; try done.
  - intros x. by rewrite Hz.
  - lia.
  - by rewrite Hz.
  - intros th Hin%Hidle. naive_solver.
  - intros Hin%Hidle. done.
Qed.

Lemma wf_run_ok n threads ls s : wf_run ls (wf_init n threads) = Some s → wf_inv s.
Proof.
  assert (∀ ls s s', wf_inv s → wf_run ls s = Some s' → wf_inv s') as Hgen.
  { clear. induction ls as [|lb ls IH]; intros s s' Hi; simpl; [naive_solver|].
    destruct (wf_step lb s) as [s1|] eqn:E; [|done]. simpl. apply IH. by eapply inv_wf_step. }
  intros Hr. eapply Hgen; [apply inv_wf_init|exact Hr].
Qed.

Lemma sum_list_with_bind {A} (f : wthread → list A) (g : list A → nat) l :
  (∀ a b, g (a ++ b) = g a + g b) → g [] = 0 → sum_list_with (λ th, g (f th)) l = g (l ≫= f).
Proof.
  intros Happ Hnil. induction l as [|x l IH]; csimpl; [done|]. by rewrite Happ, IH.
Qed.

(** C9: However writers, the consumer, pauses, resumes and stops of a running
    workflow interleave, every packet given to [Write] is exactly one of:
    received from the output, returned to the packet pool, queued, or still in
    the hands of the writer; the output never exceeds its buffer. *)
Theorem output_conserves_packets n threads ls s :
  wf_run ls (wf_init n threads) = Some s →
  written s ≡ₚ delivered s ++ released s ++ buffer (output s) ++ (wf_threads s ≫= in_hand) ∧
  length (buffer (output s)) ≤ chan_cap (output s).
Proof.
  intros Hi%wf_run_ok. split; [|apply Hi]. apply (Permutation_count_occ Nat.eq_dec). intros x.
  rewrite (wi_items _ Hi), !count_occ_app.
  rewrite (sum_list_with_bind in_hand (λ l, count_occ Nat.eq_dec l x));
    [lia|intros; apply count_occ_app|done].
Qed.

(** C5: [Stop] is safe to call from any number of threads at any time: exactly
    one call closes the output and none panics; when no call is draining any
    more, a closed output is empty and the context is cancelled, so every
    packet was delivered, released or is about to be released by its writer. *)
Theorem stop_closes_once_and_drains n threads ls s :
  wf_run ls (wf_init n threads) = Some s →
  (WPanicked ∉ wf_threads s) ∧
  (wf_state s = WorkflowStateStopped ↔
    closed (output s) = true ∨ ∃ th, th ∈ wf_threads s ∧ stopping th = 1) ∧
  (closed (output s) = true → (SDrain ∉ wf_threads s) →
    wf_cancelled s = true ∧ written s ≡ₚ delivered s ++ released s ++ (wf_threads s ≫= in_hand)).
Proof.
  intros Hr. pose proof (wf_run_ok _ _ _ _ Hr) as Hi. split_and!.
  - apply Hi.
  - pose proof (wi_stop _ Hi) as Hst. split.
    + intros Hs. rewrite Hs, decide_True in Hst by done. destruct (closed (output s)); [by left|right].
      assert (∀ l, sum_list_with stopping l = 1 → ∃ th, th ∈ l ∧ stopping th = 1) as Hex.
      { induction l as [|th l IH]; simpl; [done|]. intros Hsum. destruct (decide (stopping th = 1)).
        - exists th. split; [by left|done].
        - assert (stopping th = 0) by (destruct th; simpl in *; lia).
          destruct IH as (th' & ? & ?); [lia|]. exists th'. split; [by right|done]. }
      apply Hex. lia.
    + intros Hor. case_decide; [done|exfalso]. destruct Hor as [Hc|(th & Hin & Hs)].
      * rewrite Hc in Hst. lia.
      * pose proof (sum_list_with_elem stopping _ _ Hin). lia.
  - intros Hc Hn. split; [by apply (wi_cancelled _ Hi)|].
    pose proof (wi_empty _ Hi Hc Hn) as Hb.
    apply (Permutation_count_occ Nat.eq_dec). intros x.
    rewrite (wi_items _ Hi), Hb, !count_occ_app.
    rewrite (sum_list_with_bind in_hand (λ l, count_occ Nat.eq_dec l x));
      [simpl; lia|intros; apply count_occ_app|done].
Qed.

(** A write that passed its check races with a stop: its packet is released. *)
Definition race_stop : list wf_label :=
  [WfWrite 0 1; WfNext 0 0; WfNext 0 0; WfWrite 0 2; WfNext 0 0;
   WfStop 1; WfNext 1 0; WfNext 1 0; WfNext 1 0; WfReceive; WfNext 1 0; WfNext 1 0; WfNext 0 0].

Lemma output_conserves_packets_witness :
  ∃ s, wf_run race_stop (wf_init 1 2) = Some s ∧ delivered s = [1] ∧
    length (buffer (output s)) ≤ chan_cap (output s).
Proof.
  eexists. split; [vm_compute; reflexivity|]. split; [vm_compute; reflexivity|].
  apply (output_conserves_packets 1 2 race_stop). vm_compute. reflexivity.
Defined.

Lemma stop_closes_once_and_drains_witness :
  ∃ s, wf_run race_stop (wf_init 1 2) = Some s ∧ closed (output s) = true ∧
    (WPanicked ∉ wf_threads s).
Proof.
  eexists. split; [vm_compute; reflexivity|]. split; [vm_compute; reflexivity|].
  apply (stop_closes_once_and_drains 1 2 race_stop). vm_compute. reflexivity.
Defined.
