(* ===== verification/ConfigManager.v ===== *)
(** * Workflow documents ([internal/engine/manager.go])

    Two stores of workflow documents behind one interface: a directory of JSON
    files with in-memory maps, and two Redis hashes updated by Lua scripts.
    JSON encoding and UUIDs are library code: parameters of the model.  Paths
    are file names in the manager's directory (IDs without separators). *)

From S2P Require Import Prelude GoStrings Property EngineTypes Graph Registry.

Inductive config_error :=
| ResolveFailed (e : plugin_error)
| InvalidWorkflow (e : graph_error)
| WorkflowNotFound
| WorkflowNameExists
| MarshalFailed (e : string)
| IOFailed (what : string).

Definition set_id (id : string) (cfg : WorkflowConfig) : WorkflowConfig :=
  mkWorkflow id (WName cfg) (Version cfg) (Head cfg) (Nodes cfg) (Edges cfg)
    (SchedulerMode cfg) (SchedulerWorkers cfg).

(** [if strings.TrimSpace(cfg.ID) == "" { cfg.ID = uuid.New().String() }]. *)
Definition ensure_id (uuid : string) (cfg : WorkflowConfig) : WorkflowConfig :=
  if is_blank (WID cfg) then set_id uuid cfg else cfg.

Definition zero_config : WorkflowConfig := mkWorkflow "" "" "" "" [] [] "" 0.

Definition dotjson : string := ".json".
Definition file_of (id : string) : string := id +:+ dotjson.
Definition tmp_of (id : string) : string := file_of id +:+ ".tmp".

(** [strings.HasSuffix]. *)
Definition has_suffix (suf s : string) : bool :=
  bool_decide (String.list_ascii_of_string suf `suffix_of` String.list_ascii_of_string s).

(** The name is indexed under another ID. *)
Definition index_conflict (index : gmap string string) (name id : string) : bool :=
  match index !! name with Some id' => negb (bool_decide (id' = id)) | None => false end.

(** *** File names *)
Lemma list_ascii_app s1 s2 :
  String.list_ascii_of_string (s1 +:+ s2) =
  String.list_ascii_of_string s1 ++ String.list_ascii_of_string s2.
Proof. induction s1 as [|a s1 IH]; [done|]. simpl. by rewrite IH. Qed.

#[export] Instance file_of_inj : Inj (=) (=) file_of.
Proof.
  intros id1 id2 Heq. apply (f_equal String.list_ascii_of_string) in Heq.
  unfold file_of in Heq. rewrite !list_ascii_app in Heq. apply app_inv_tail in Heq.
  apply (f_equal String.string_of_list_ascii) in Heq.
  by rewrite !String.string_of_list_ascii_of_string in Heq.
Qed.

Lemma file_suffix id : has_suffix dotjson (file_of id) = true.
Proof.
  unfold has_suffix, file_of. rewrite list_ascii_app. apply bool_decide_eq_true_2.
  by apply suffix_app_r.
Qed.

Lemma tmp_no_suffix id : has_suffix dotjson (tmp_of id) = false.
Proof.
  unfold has_suffix, tmp_of. rewrite list_ascii_app. apply bool_decide_eq_false_2.
  intros [k Hk]. simpl in Hk.
  apply (f_equal reverse) in Hk. rewrite !reverse_app in Hk. simpl in Hk. done.
Qed.

Lemma tmp_not_file id id' : tmp_of id ≠ file_of id'.
Proof. intros Heq. pose proof (file_suffix id') as H. rewrite <-Heq, tmp_no_suffix in H. done. Qed.

(** ** The interface *)
Class WorkflowConfigManager (M : Type) := {
  cm_Get : M → string → result config_error WorkflowConfig;
  cm_GetWithName : M → string → result config_error WorkflowConfig;
  cm_List : M → list WorkflowConfig;
  cm_Save : M → string → WorkflowConfig → result config_error M;
  cm_Delete : M → string → M;
}.

(** The abstract document store: documents by ID, with distinct names. *)
Definition names_distinct (m : gmap string WorkflowConfig) : Prop :=
  ∀ id1 id2 c1 c2, m !! id1 = Some c1 → m !! id2 = Some c2 → WName c1 = WName c2 → id1 = id2.

Definition name_taken (m : gmap string WorkflowConfig) (name id : string) : Prop :=
  ∃ id' c, m !! id' = Some c ∧ WName c = name ∧ id' ≠ id.

(** What every implementation promises, in terms of its abstraction.  [check]
    is the validation of a document, [storable] holds of the documents its
    encoding keeps. *)
Class ConfigManagerLaws (M : Type) `{WorkflowConfigManager M}
    (check : WorkflowConfig → result config_error unit) (storable : WorkflowConfig → Prop) := {
  cm_wf : M → Prop;
  cm_abs : M → gmap string WorkflowConfig;
  cm_distinct : ∀ m, cm_wf m → names_distinct (cm_abs m);
  cm_get : ∀ m id, cm_wf m →
    cm_Get m id = match cm_abs m !! id with Some c => Ok c | None => Err WorkflowNotFound end;
  cm_get_name : ∀ m name, cm_wf m →
    (∃ id cfg, cm_abs m !! id = Some cfg ∧ WName cfg = name ∧ cm_GetWithName m name = Ok cfg) ∨
    ((∀ id cfg, cm_abs m !! id = Some cfg → WName cfg ≠ name) ∧ cm_GetWithName m name = Err WorkflowNotFound);
  cm_list : ∀ m, cm_wf m → cm_List m ≡ₚ (map_to_list (cm_abs m)).*2;
  cm_save_refused : ∀ m uuid cfg e, check cfg = Err e → cm_Save m uuid cfg = Err e;
  cm_save : ∀ m uuid cfg, cm_wf m → WName cfg ≠ "" → is_blank uuid = false → cm_abs m !! uuid = None →
    check cfg = Ok tt → storable (ensure_id uuid cfg) →
    (name_taken (cm_abs m) (WName cfg) (WID cfg) ∧ cm_Save m uuid cfg = Err WorkflowNameExists) ∨
    (¬ name_taken (cm_abs m) (WName cfg) (WID cfg) ∧ ∃ m', cm_Save m uuid cfg = Ok m' ∧ cm_wf m' ∧
      cm_abs m' = <[WID (ensure_id uuid cfg) := ensure_id uuid cfg]> (cm_abs m));
  cm_delete : ∀ m id, cm_wf m →
    cm_wf (cm_Delete m id) ∧ cm_abs (cm_Delete m id) = delete id (cm_abs m);
}.

Section managers.
Context {P : Type}.
Context (o : iter_order string nat) (o1 o2 : iter_order string Z).
Context (reg : option (registry P)).

(** The JSON library: [D] is the type of JSON texts, [cjson_name] what the Lua
    decoder reads as the name of a document. *)
Context {D : Type} `{Inhabited D}.
Context (marshal : WorkflowConfig → result string D).
Context (unmarshal : D → result string WorkflowConfig).
Context (cjson_name : D → string).

(** The checks both managers make before saving. *)
Definition check_config (cfg : WorkflowConfig) : result config_error unit :=
  let? builders := rmap_err ResolveFailed (ResolvePluginBuilders o reg (Nodes cfg)) in
  let? _ := rmap_err InvalidWorkflow (BuildGraph o1 o2 cfg builders) in
  Ok tt.

(** ** Files *)
Record fileWorkflowConfigManager := mkFM {
  configs : gmap string WorkflowConfig;
  nameMap : gmap string string;
  disk : gmap string D;
}.

Definition load_file (m : fileWorkflowConfigManager) (f : string * D) : fileWorkflowConfigManager :=
  if negb (has_suffix dotjson f.1) then m
  else match unmarshal f.2 with
  | Err _ => m
  | Ok cfg =>
    mkFM (<[WID cfg := cfg]> (configs m))
      (if decide (WName cfg = "") then nameMap m else <[WName cfg := WID cfg]> (nameMap m)) (disk m)
  end.

(** [load], over the directory [d] listed in any order. *)
Definition load (dir_order : iter_order string D) (d : gmap string D)
    : fileWorkflowConfigManager :=
  foldl load_file (mkFM ∅ ∅ d) (range_map dir_order d).

Definition file_Get (m : fileWorkflowConfigManager) (id : string) : result config_error WorkflowConfig :=
  match configs m !! id with Some c => Ok c | None => Err WorkflowNotFound end.

(** A missing entry of [configs] reads as the zero document. *)
Definition file_GetWithName (m : fileWorkflowConfigManager) (name : string)
    : result config_error WorkflowConfig :=
  match nameMap m !! name with
  | None => Err WorkflowNotFound
  | Some id => Ok (default zero_config (configs m !! id))
  end.

Definition file_List (lo : iter_order string WorkflowConfig) (m : fileWorkflowConfigManager)
    : list WorkflowConfig := (range_map lo (configs m)).*2.

(** [write_ok] and [rename_ok] say whether the two file operations succeed; a
    failed write may leave [junk] in the temporary file. *)
Definition file_Save (write_ok rename_ok : bool) (junk : D)
    (m : fileWorkflowConfigManager) (uuid : string) (cfg : WorkflowConfig)
    : result config_error unit * fileWorkflowConfigManager :=
  match check_config cfg with
  | Err e => (Err e, m)
  | Ok _ =>
    if index_conflict (nameMap m) (WName cfg) (WID cfg) then (Err WorkflowNameExists, m)
    else
      let cfg := ensure_id uuid cfg in
      match marshal cfg with
      | Err e => (Err (MarshalFailed e), m)
      | Ok data =>
        if negb write_ok then
          (Err (IOFailed "write"), mkFM (configs m) (nameMap m) (<[tmp_of (WID cfg) := junk]> (disk m)))
        else if negb rename_ok then
          (Err (IOFailed "rename"), mkFM (configs m) (nameMap m) (<[tmp_of (WID cfg) := data]> (disk m)))
        else
          let nm :=
            match configs m !! WID cfg with
            | Some old => if decide (WName old = WName cfg) then nameMap m else delete (WName old) (nameMap m)
            | None => nameMap m
            end in
          (Ok tt, mkFM (<[WID cfg := cfg]> (configs m)) (<[WName cfg := WID cfg]> nm)
                    (<[file_of (WID cfg) := data]> (delete (tmp_of (WID cfg)) (disk m))))
      end
  end.

(** [remove_err]: the file could not be removed, for another reason than
    being absent. *)
Definition file_Delete (remove_err : bool) (m : fileWorkflowConfigManager) (id : string)
    : result config_error unit * fileWorkflowConfigManager :=
  if remove_err then (Err (IOFailed "remove"), m)
  else
    let nm := match configs m !! id with
              | Some cfg => if decide (WName cfg = "") then nameMap m else delete (WName cfg) (nameMap m)
              | None => nameMap m
              end in
    (Ok tt, mkFM (delete id (configs m)) nm (delete (file_of id) (disk m))).

(** ** Redis *)
Record redisWorkflowConfigManager := mkRM {
  workflows : gmap string D;   (** the hash [voce:workflows] *)
  names : gmap string string;       (** the hash [voce:workflow_names] *)
}.

(** [luaSaveWorkflow]: [None] is the script's error reply. *)
Definition luaSaveWorkflow (id name : string) (json : D) (m : redisWorkflowConfigManager)
    : option redisWorkflowConfigManager :=
  if index_conflict (names m) name id then None
  else
    let nm :=
      match workflows m !! id with
      | Some old_json =>
        if decide (cjson_name old_json = name) then names m else delete (cjson_name old_json) (names m)
      | None => names m
      end in
    Some (mkRM (<[id := json]> (workflows m)) (<[name := id]> nm)).

Definition luaDeleteWorkflow (id : string) (m : redisWorkflowConfigManager) : redisWorkflowConfigManager :=
  mkRM (delete id (workflows m))
    (match workflows m !! id with
     | Some old_json => delete (cjson_name old_json) (names m)
     | None => names m
     end).

Definition redis_Get (m : redisWorkflowConfigManager) (id : string) : result config_error WorkflowConfig :=
  match workflows m !! id with
  | None => Err WorkflowNotFound
  | Some data => rmap_err MarshalFailed (unmarshal data)
  end.

Definition redis_GetWithName (m : redisWorkflowConfigManager) (name : string)
    : result config_error WorkflowConfig :=
  match names m !! name with
  | None => Err WorkflowNotFound
  | Some id => redis_Get m id
  end.

Definition redis_List (vals : list D) : list WorkflowConfig :=
  omap (λ d, match unmarshal d with Ok c => Some c | Err _ => None end) vals.

Definition redis_Save (m : redisWorkflowConfigManager) (uuid : string) (cfg : WorkflowConfig)
    : result config_error redisWorkflowConfigManager :=
  let? _ := check_config cfg in
  let cfg := ensure_id uuid cfg in
  let? data := rmap_err MarshalFailed (marshal cfg) in
  match luaSaveWorkflow (WID cfg) (WName cfg) data m with
  | Some m' => Ok m'
  | None => Err WorkflowNameExists
  end.

Definition redis_Delete (m : redisWorkflowConfigManager) (id : string) : redisWorkflowConfigManager :=
  luaDeleteWorkflow id m.

(** ** Both managers implement the interface *)

(** The documents that JSON keeps: they are encoded, and what is decoded is
    the same document, under the same name for the Lua script.  Not every
    document is one: a node without [Config] comes back with the text null. *)
Definition restored (cfg : WorkflowConfig) : Prop :=
  ∃ d, marshal cfg = Ok d ∧ unmarshal d = Ok cfg ∧ cjson_name d = WName cfg.

(** The name index mirrors the documents. *)
Definition index_mirrors (m : gmap string WorkflowConfig) (index : gmap string string) : Prop :=
  ∀ name id, index !! name = Some id ↔ ∃ c, m !! id = Some c ∧ WName c = name.

Definition well_named (m : gmap string WorkflowConfig) : Prop :=
  map_Forall (λ id c, WID c = id ∧ WName c ≠ "") m.

Lemma index_conflict_taken m index name id :
  index_mirrors m index → index_conflict index name id = true ↔ name_taken m name id.
Proof.
  intros Hm. unfold index_conflict, name_taken. split.
  - destruct (index !! name) as [id'|] eqn:E; [|done]. intros Hne.
    apply Hm in E as (c & Hc & Hn). exists id', c. case_bool_decide; naive_solver.
  - intros (id' & c & Hc & Hn & Hne). assert (index !! name = Some id') as -> by (apply Hm; eauto).
    by rewrite bool_decide_eq_false_2.
Qed.

Lemma mirrors_distinct m index : index_mirrors m index → names_distinct m.
Proof.
  intros Hm id1 id2 c1 c2 H1 H2 Hn. assert (index !! WName c1 = Some id1) by (apply Hm; eauto).
  assert (index !! WName c1 = Some id2) by (apply Hm; eauto). congruence.
Qed.

(** Saving [c] under its ID, dropping the old name from the index. *)
Lemma mirrors_save m index c :
  index_mirrors m index → ¬ name_taken m (WName c) (WID c) →
  index_mirrors (<[WID c := c]> m)
    (<[WName c := WID c]>
      (match m !! WID c with
       | Some old => if decide (WName old = WName c) then index else delete (WName old) index
       | None => index
       end)).
Proof.
  intros Hm Hnt name id. rewrite lookup_insert. case_decide as Hn; [subst name|].
  - split.
    + intros [= <-]. exists c. by rewrite lookup_insert_eq.
    + intros (c' & Hc' & Hn'). destruct (decide (id = WID c)) as [->|Hne]; [done|].
      rewrite lookup_insert_ne in Hc' by done. exfalso. apply Hnt. exists id, c'. eauto.
  - assert (∀ old, m !! WID c = Some old →
      delete (WName old) index !! name = Some id ↔ index !! name = Some id ∧ id ≠ WID c) as Hdel.
    { intros old Ho. rewrite lookup_delete. case_decide as Hd.
      - subst name. split; [done|]. intros [Hi Hne].
        assert (index !! WName old = Some (WID c)) by (apply Hm; eauto). congruence.
      - split; [|tauto]. intros Hi. split; [done|]. intros ->.
        apply Hm in Hi as (c' & Hc' & Hn'). congruence. }
    trans (index !! name = Some id ∧ id ≠ WID c).
    + destruct (m !! WID c) as [old|] eqn:Ho; [case_decide as Hd; [|by apply Hdel]|].
      * split; [|tauto]. intros Hi. split; [done|]. intros ->.
        apply Hm in Hi as (c' & Hc' & Hn'). congruence.
      * split; [|tauto]. intros Hi. split; [done|]. intros ->.
        apply Hm in Hi as (c' & Hc' & Hn'). congruence.
    + rewrite (Hm name id). split.
      * intros [(c' & Hc' & Hn') Hne]. exists c'. by rewrite lookup_insert_ne.
      * intros (c' & Hc' & Hn'). rewrite lookup_insert in Hc'. case_decide; [congruence|].
        split; [eauto|congruence].
Qed.

Lemma mirrors_delete m index id :
  index_mirrors m index →
  index_mirrors (delete id m)
    (match m !! id with Some c => delete (WName c) index | None => index end).
Proof.
  intros Hm name id'. trans (index !! name = Some id' ∧ id' ≠ id).
  - destruct (m !! id) as [c|] eqn:Hc.
    + rewrite lookup_delete. case_decide as Hd.
      * subst name. split; [done|]. intros [Hi Hne].
        assert (index !! WName c = Some id) by (apply Hm; eauto). congruence.
      * split; [|tauto]. intros Hi. split; [done|]. intros ->.
        apply Hm in Hi as (c' & Hc' & Hn'). congruence.
    + split; [|tauto]. intros Hi. split; [done|]. intros ->.
      apply Hm in Hi as (c' & Hc' & Hn'). congruence.
  - rewrite (Hm name id'). split.
    + intros [(c & Hc & Hn) Hne]. exists c. by rewrite lookup_delete_ne.
    + intros (c & Hc & Hn). rewrite lookup_delete in Hc. case_decide; [done|]. split; eauto.
Qed.

Lemma ensure_id_name uuid cfg : WName (ensure_id uuid cfg) = WName cfg.
Proof. unfold ensure_id. by destruct (is_blank (WID cfg)). Qed.

(** A fresh ID keeps the name check of the original document. *)
Lemma taken_ensure_id m uuid cfg :
  well_named m → map_Forall (λ id _, is_blank id = false) m → m !! uuid = None →
  name_taken m (WName cfg) (WID (ensure_id uuid cfg)) ↔ name_taken m (WName cfg) (WID cfg).
Proof.
  intros Hwn Hnb Hu. unfold ensure_id. destruct (is_blank (WID cfg)) eqn:Hb; [|done].
  unfold name_taken. simpl. split; intros (id & c & Hc & Hn & _); exists id, c; split_and!; try done.
  - intros ->. specialize (Hnb _ _ Hc). simpl in Hnb. congruence.
  - intros ->. congruence.
Qed.

Lemma ensure_id_nonblank uuid cfg : is_blank uuid = false → is_blank (WID (ensure_id uuid cfg)) = false.
Proof. intros Hu. unfold ensure_id. by destruct (is_blank (WID cfg)) eqn:E. Qed.

(** *** The file manager *)
Record file_wf (m : fileWorkflowConfigManager) : Prop := {
  fw_named : well_named (configs m);
  fw_ids : map_Forall (λ id _, is_blank id = false) (configs m);
  fw_index : index_mirrors (configs m) (nameMap m);
  fw_disk : ∀ id c, configs m !! id = Some c →
    ∃ d, disk m !! file_of id = Some d ∧ unmarshal d = Ok c;
  fw_files : ∀ f d, disk m !! f = Some d → has_suffix dotjson f = true →
    ∃ id, f = file_of id ∧ is_Some (configs m !! id);
}.

Lemma file_Save_cases w r junk m uuid cfg res m' :
  file_wf m → WName cfg ≠ "" → is_blank uuid = false → configs m !! uuid = None → restored (ensure_id uuid cfg) →
  file_Save w r junk m uuid cfg = (res, m') →
  file_wf m' ∧
  match res with
  | Ok _ => ¬ name_taken (configs m) (WName cfg) (WID cfg) ∧ check_config cfg = Ok tt ∧
      configs m' = <[WID (ensure_id uuid cfg) := ensure_id uuid cfg]> (configs m)
  | Err e => configs m' = configs m ∧ nameMap m' = nameMap m ∧
      (e = WorkflowNameExists → check_config cfg = Err WorkflowNameExists ∨
        name_taken (configs m) (WName cfg) (WID cfg)) ∧
      (check_config cfg = Ok tt → w = true → r = true → e = WorkflowNameExists)
  end.
Proof.
  intros Hwf Hname Hub Hu Hcodec Hs. pose proof Hwf as [Hwn Hids Hidx Hdisk Hfiles]. unfold file_Save in Hs.
  destruct (check_config cfg) as [[]|e] eqn:Hchk; [|simplify_eq; split_and!; naive_solver].
  destruct (index_conflict (nameMap m) (WName cfg) (WID cfg)) eqn:Hconf.
  { apply (index_conflict_taken _ _ _ _ Hidx) in Hconf. simplify_eq. split_and!; naive_solver. }
  assert (¬ name_taken (configs m) (WName cfg) (WID cfg)) as Hnt.
  { intros Ht%(index_conflict_taken _ _ _ _ Hidx). congruence. }
  set (c := ensure_id uuid cfg) in *. destruct Hcodec as (d & Hm & Hun & _). rewrite Hm in Hs.
  assert (∀ j, file_wf (mkFM (configs m) (nameMap m) (<[tmp_of (WID c) := j]> (disk m)))) as Htmp.
  { intros j. split; simpl; try done.
    - intros id c' Hc'. destruct (Hdisk id c' Hc') as (d' & Hd' & ?). exists d'. split; [|done].
      rewrite lookup_insert_ne; [done|]. apply tmp_not_file.
    - intros f d' Hf Hsuf. rewrite lookup_insert in Hf. case_decide; [|by eapply Hfiles].
      subst f. by rewrite tmp_no_suffix in Hsuf. }
  destruct w; [|simpl in Hs; simplify_eq; split_and!; naive_solver].
  destruct r; [|simpl in Hs; simplify_eq; split_and!; naive_solver].
  simpl in Hs. simplify_eq. split; [|done]. split; simpl.
  - apply map_Forall_insert_2; [|done]. split; [done|]. unfold c. by rewrite ensure_id_name.
  - apply map_Forall_insert_2; [|done]. by apply ensure_id_nonblank.
  - apply mirrors_save; [done|]. unfold c. rewrite ensure_id_name. by rewrite taken_ensure_id.
  - intros id c' Hc'. rewrite lookup_insert in Hc'. case_decide as Hid.
    + simplify_eq. exists d. by rewrite lookup_insert_eq.
    + destruct (Hdisk id c' Hc') as (d' & Hd' & ?). exists d'. split; [|done].
      rewrite lookup_insert_ne by (by intros ?%file_of_inj).
      rewrite lookup_delete_ne; [done|]. apply tmp_not_file.
  - intros f d' Hf Hsuf. rewrite lookup_insert in Hf. case_decide as Hff.
    + exists (WID c). by rewrite lookup_insert_eq.
    + apply lookup_delete_Some in Hf as [_ Hf]. destruct (Hfiles f d' Hf Hsuf) as (id & -> & Hid).
      exists id. split; [done|]. apply lookup_insert_is_Some'. by right.
Qed.

Lemma file_Delete_cases err m id res m' :
  file_wf m → file_Delete err m id = (res, m') →
  file_wf m' ∧ match res with Ok _ => configs m' = delete id (configs m) | Err _ => m' = m end.
Proof.
  intros Hwf Hs. pose proof Hwf as [Hwn Hids Hidx Hdisk Hfiles]. unfold file_Delete in Hs.
  destruct err; simplify_eq; [done|]. split; [|done].
  assert (match configs m !! id with
    | Some cfg => if decide (WName cfg = "") then nameMap m else delete (WName cfg) (nameMap m)
    | None => nameMap m end =
    match configs m !! id with Some c => delete (WName c) (nameMap m) | None => nameMap m end) as ->.
  { destruct (configs m !! id) as [c|] eqn:E; [|done]. destruct (Hwn _ _ E) as [_ Hn].
    by rewrite decide_False. }
  split; simpl.
  - by apply map_Forall_delete.
  - by apply map_Forall_delete.
  - by apply mirrors_delete.
  - intros id' c' [Hne Hc']%lookup_delete_Some. destruct (Hdisk id' c' Hc') as (d' & Hd' & ?).
    exists d'. split; [|done]. rewrite lookup_delete_ne; [done|]. by intros ?%file_of_inj.
  - intros f d [Hne Hf]%lookup_delete_Some Hsuf. destruct (Hfiles f d Hf Hsuf) as (id' & -> & Hid).
    exists id'. split; [done|]. rewrite lookup_delete_ne; [done|]. intros ->. done.
Qed.

(** The files can be written and removed; the maps are listed in any order. *)
#[export] Instance file_manager (lo : iter_order string WorkflowConfig) : WorkflowConfigManager fileWorkflowConfigManager := {|
  cm_Get := file_Get;
  cm_GetWithName := file_GetWithName;
  cm_List := file_List lo;
  cm_Save m uuid cfg :=
    match file_Save true true inhabitant m uuid cfg with
    | (Ok _, m') => Ok m'
    | (Err e, _) => Err e
    end;
  cm_Delete m id := (file_Delete false m id).2;
|}.

Program Definition file_laws lo :
    @ConfigManagerLaws _ (file_manager lo) check_config restored := {|
  cm_wf := file_wf;
  cm_abs := configs;
|}.
Next Obligation. intros lo m Hwf. eapply mirrors_distinct, Hwf. Qed.
Next Obligation. done. Qed.
Next Obligation.
  intros lo m name [Hwn _ Hidx _ _]. simpl. unfold file_GetWithName.
  destruct (nameMap m !! name) as [id|] eqn:E; [left|right].
  - apply Hidx in E as (c & Hc & Hn). exists id, c. by rewrite Hc.
  - split; [|done]. intros id c Hc Hn. assert (nameMap m !! name = Some id) by (apply Hidx; eauto). congruence.
Qed.
Next Obligation. intros lo m _. simpl. unfold file_List. by rewrite (range_map_perm lo). Qed.
Next Obligation. intros lo m uuid cfg e He. simpl. unfold file_Save. by rewrite He. Qed.
Next Obligation.
  intros lo m uuid cfg Hwf Hn Hub Hu Hv Hst. simpl.
  destruct (file_Save true true inhabitant m uuid cfg) as [[u|e] m'] eqn:Hs;
    apply file_Save_cases in Hs as [Hwf' Hs]; try done.
  - right. destruct Hs as (Hnt & _ & Habs). split; [done|]. eauto.
  - left. destruct Hs as (_ & _ & Hne & Hall). rewrite (Hall Hv eq_refl eq_refl) in *.
    split; [|done]. destruct (Hne eq_refl) as [?|?]; [congruence|done].
Qed.
Next Obligation.
  intros lo m id Hwf. simpl. destruct (file_Delete false m id) as [res m'] eqn:Hs.
  pose proof Hs as Hs'. apply file_Delete_cases in Hs as [? Hs]; [|done]. simpl.
  unfold file_Delete in Hs'. destruct res; simplify_eq. done.
Qed.

(** *** The Redis manager *)
Definition decode_doc (d : D) : option WorkflowConfig :=
  match unmarshal d with Ok c => Some c | Err _ => None end.

Definition redis_abs (m : redisWorkflowConfigManager) : gmap string WorkflowConfig :=
  omap decode_doc (workflows m).

Record redis_wf (m : redisWorkflowConfigManager) : Prop := {
  rw_docs : map_Forall (λ id d, ∃ c, unmarshal d = Ok c ∧ cjson_name d = WName c) (workflows m);
  rw_named : well_named (redis_abs m);
  rw_ids : map_Forall (λ id _, is_blank id = false) (redis_abs m);
  rw_index : index_mirrors (redis_abs m) (names m);
}.

(** The Lua scripts read the name of the stored document. *)
Lemma redis_old_name m id :
  redis_wf m →
  match workflows m !! id with Some d => Some (cjson_name d) | None => None end =
  WName <$> redis_abs m !! id.
Proof.
  intros [Hd _ _ _]. unfold redis_abs. rewrite lookup_omap.
  destruct (workflows m !! id) as [d|] eqn:E; simpl; [|done].
  destruct (Hd _ _ E) as (c & Hc & Hn). unfold decode_doc. by rewrite Hc, Hn.
Qed.

Lemma luaSaveWorkflow_ok m c d :
  redis_wf m → marshal c = Ok d → restored c → WName c ≠ "" → is_blank (WID c) = false →
  (name_taken (redis_abs m) (WName c) (WID c) ∧ luaSaveWorkflow (WID c) (WName c) d m = None) ∨
  (¬ name_taken (redis_abs m) (WName c) (WID c) ∧ ∃ m',
    luaSaveWorkflow (WID c) (WName c) d m = Some m' ∧ redis_wf m' ∧
    redis_abs m' = <[WID c := c]> (redis_abs m)).
Proof.
  intros Hwf Hmar Hcodec Hname Hblank. pose proof Hwf as [Hd Hwn Hids Hidx]. unfold luaSaveWorkflow.
  destruct (index_conflict (names m) (WName c) (WID c)) eqn:Hconf.
  { left. split; [|done]. by apply (index_conflict_taken _ _ _ _ Hidx). }
  right. assert (¬ name_taken (redis_abs m) (WName c) (WID c)) as Hnt.
  { intros Ht%(index_conflict_taken _ _ _ _ Hidx). congruence. }
  split; [done|]. eexists. split; [done|].
  destruct Hcodec as (d' & Hm' & Hun & Hcj). rewrite Hmar in Hm'. injection Hm' as <-.
  assert (redis_abs (mkRM (<[WID c := d]> (workflows m)) ∅) = <[WID c := c]> (redis_abs m)) as Habs.
  { unfold redis_abs. simpl. apply map_eq. intros id. rewrite lookup_omap, !lookup_insert.
    case_decide; simpl; [unfold decode_doc; by rewrite Hun|]. by rewrite lookup_omap. }
  pose proof (redis_old_name m (WID c) Hwf) as Hold.
  split; [|exact Habs]. split; simpl.
  - apply map_Forall_insert_2; [|done]. eauto.
  - change (well_named (redis_abs (mkRM (<[WID c := d]> (workflows m)) ∅))). rewrite Habs.
    by apply map_Forall_insert_2.
  - change (map_Forall (λ id _, is_blank id = false) (redis_abs (mkRM (<[WID c := d]> (workflows m)) ∅))).
    rewrite Habs. by apply map_Forall_insert_2.
  - unfold redis_abs in *. simpl in *. rewrite Habs. pose proof (mirrors_save _ _ c Hidx Hnt) as Hms.
    destruct (workflows m !! WID c) as [dd|]; simpl in Hold.
    + destruct (omap decode_doc (workflows m) !! WID c) as [old|]; [|done]. injection Hold as ->. done.
    + destruct (omap decode_doc (workflows m) !! WID c) as [old|]; done.
Qed.

Lemma luaDeleteWorkflow_ok m id :
  redis_wf m → redis_wf (luaDeleteWorkflow id m) ∧
  redis_abs (luaDeleteWorkflow id m) = delete id (redis_abs m).
Proof.
  intros Hwf. pose proof Hwf as [Hd Hwn Hids Hidx]. pose proof (redis_old_name m id Hwf) as Hold.
  assert (redis_abs (luaDeleteWorkflow id m) = delete id (redis_abs m)) as Habs.
  { unfold redis_abs. simpl. apply map_eq. intros id'. rewrite lookup_omap, !lookup_delete.
    case_decide; simpl; [done|]. by rewrite lookup_omap. }
  split; [|done]. split.
  - by apply map_Forall_delete.
  - rewrite Habs. by apply map_Forall_delete.
  - rewrite Habs. by apply map_Forall_delete.
  - rewrite Habs. pose proof (mirrors_delete _ _ id Hidx) as Hms. unfold luaDeleteWorkflow. simpl.
    unfold redis_abs in *. destruct (workflows m !! id) as [dd|]; simpl in Hold.
    + destruct (omap decode_doc (workflows m) !! id) as [old|]; [|done]. injection Hold as ->. done.
    + destruct (omap decode_doc (workflows m) !! id) as [old|]; done.
Qed.

#[export] Instance redis_manager (vo : iter_order string D) : WorkflowConfigManager redisWorkflowConfigManager := {|
  cm_Get := redis_Get;
  cm_GetWithName := redis_GetWithName;
  cm_List m := redis_List (range_map vo (workflows m)).*2;
  cm_Save := redis_Save;
  cm_Delete := redis_Delete;
|}.

Lemma redis_Get_abs m id :
  redis_wf m →
  redis_Get m id = match redis_abs m !! id with Some c => Ok c | None => Err WorkflowNotFound end.
Proof.
  intros [Hd _ _ _]. unfold redis_Get, redis_abs. rewrite lookup_omap.
  destruct (workflows m !! id) as [d|] eqn:E; simpl; [|done].
  destruct (Hd _ _ E) as (c & Hc & _). unfold decode_doc. by rewrite Hc.
Qed.

(** Listing the values of the hash gives the stored documents. *)
Lemma redis_List_abs m vo :
  redis_List (range_map vo (workflows m)).*2 ≡ₚ (map_to_list (redis_abs m)).*2.
Proof.
  unfold redis_List, redis_abs. rewrite (range_map_perm vo).
  induction (workflows m) as [|k d w Hk IH] using map_ind; [by rewrite omap_empty, !map_to_list_empty|].
  rewrite map_to_list_insert by done. rewrite omap_insert. csimpl.
  assert (omap decode_doc w !! k = None) as Hk' by by rewrite lookup_omap, Hk.
  unfold decode_doc at 1. destruct (unmarshal d) as [c|]; simpl.
  - rewrite map_to_list_insert by done. csimpl. by rewrite IH.
  - rewrite delete_id by done. exact IH.
Qed.

Program Definition redis_laws vo :
    @ConfigManagerLaws _ (redis_manager vo) check_config restored := {|
  cm_wf := redis_wf;
  cm_abs := redis_abs;
|}.
Next Obligation. intros vo m Hwf. eapply mirrors_distinct, Hwf. Qed.
Next Obligation. intros vo m id Hwf. by apply redis_Get_abs. Qed.
Next Obligation.
  intros vo m name Hwf. pose proof Hwf as [_ _ _ Hidx]. simpl. unfold redis_GetWithName.
  destruct (names m !! name) as [id|] eqn:E; [left|right].
  - rewrite redis_Get_abs by done. apply Hidx in E as (c & Hc & Hn). exists id, c. by rewrite Hc.
  - split; [|done]. intros id c Hc Hn. assert (names m !! name = Some id) by (apply Hidx; eauto). congruence.
Qed.
Next Obligation. intros vo m _. simpl. apply redis_List_abs. Qed.
Next Obligation. intros vo m uuid cfg e He. simpl. unfold redis_Save. by rewrite He. Qed.
Next Obligation.
  intros vo m uuid cfg Hwf Hn Hub Hu Hv Hst. simpl. unfold redis_Save. rewrite Hv. simpl.
  pose proof Hst as (d & Hm & _). rewrite Hm. simpl.
  pose proof (luaSaveWorkflow_ok m (ensure_id uuid cfg) d Hwf Hm Hst) as Hlua.
  rewrite ensure_id_name in Hlua. rewrite taken_ensure_id in Hlua; [|apply Hwf..|done].
  rewrite ensure_id_name. destruct Hlua as [[? ->]|(? & m' & -> & ? & ?)];
    [done|by apply ensure_id_nonblank|by left|right]. eauto.
Qed.
Next Obligation. intros vo m id Hwf. by apply luaDeleteWorkflow_ok. Qed.

(** ** Restarting the file manager *)
Definition empty_dir : fileWorkflowConfigManager := mkFM ∅ ∅ ∅.

(** The calls of a running server, whatever the file system answers. *)
Inductive file_step : fileWorkflowConfigManager → fileWorkflowConfigManager → Prop :=
| fs_save w r junk m uuid cfg res m' :
    WName cfg ≠ "" → is_blank uuid = false → configs m !! uuid = None → restored (ensure_id uuid cfg) →
    file_Save w r junk m uuid cfg = (res, m') → file_step m m'
| fs_delete err m id res m' : file_Delete err m id = (res, m') → file_step m m'.

Lemma file_reachable_wf m : rtc file_step empty_dir m → file_wf m.
Proof.
  intros Hr. eapply rtc_invariant; [|exact Hr|].
  - intros x y Hwf Hs. revert Hwf. destruct Hs as [? ? ? ? ? ? ? ? ? ? ? ? Hs|? ? ? ? ? Hs]; intros Hwf.
    + by apply file_Save_cases in Hs as [? _].
    + by apply file_Delete_cases in Hs as [? _].
  - split; simpl; [done..| | |].
    + intros name id. rewrite lookup_empty. split; [done|].
      intros (c & Hc & _). by rewrite lookup_empty in Hc.
    + done.
    + done.
Qed.

(** The documents of a directory listing. *)
Definition docs (l : list (string * D)) : list WorkflowConfig :=
  omap (λ fd, if has_suffix dotjson fd.1 then decode_doc fd.2 else None) l.

Lemma load_docs l m :
  Forall (λ c, WName c ≠ "") (docs l) →
  configs (foldl load_file m l) = foldl (λ m c, <[WID c := c]> m) (configs m) (docs l) ∧
  nameMap (foldl load_file m l) = foldl (λ m c, <[WName c := WID c]> m) (nameMap m) (docs l).
Proof.
  revert m. induction l as [|[f d] l IH]; intros m Hn; [done|]. unfold docs in *. csimpl in *.
  destruct (has_suffix dotjson f) eqn:Ef; csimpl in *.
  - unfold load_file at 2 4. simpl. rewrite Ef. simpl. unfold decode_doc in *.
    destruct (unmarshal d) as [c|]; [|by apply IH]. apply Forall_cons in Hn as [Hc Hn].
    destruct (IH (mkFM (<[WID c := c]> (configs m))
      (if decide (WName c = "") then nameMap m else <[WName c := WID c]> (nameMap m)) (disk m)) Hn)
      as [H1 H2].
    split; [exact H1|]. rewrite H2. simpl. by rewrite decide_False.
  - unfold load_file at 2 4. simpl. rewrite Ef. simpl. by apply IH.
Qed.

Lemma lookup_insert_all {V} (k : WorkflowConfig → string) (v : WorkflowConfig → V) l x y :
  NoDup (k <$> l) →
  foldl (λ m c, <[k c := v c]> m) (∅ : gmap string V) l !! x = Some y ↔
  ∃ c, c ∈ l ∧ k c = x ∧ v c = y.
Proof.
  induction l as [|c l IH] using rev_ind; intros Hnd.
  { simpl. rewrite lookup_empty. split; [done|]. by intros (c & ?%elem_of_nil & _). }
  rewrite fmap_app in Hnd. apply NoDup_app in Hnd as (Hnd & Hdis & _).
  rewrite foldl_app. simpl. rewrite lookup_insert.
  setoid_rewrite elem_of_app. setoid_rewrite list_elem_of_singleton. case_decide as Hk.
  - split; [intros [= <-]; eauto|]. intros (c' & [Hc'| ->] & Hk' & Hv'); [|congruence].
    exfalso. apply (Hdis (k c')); [by apply list_elem_of_fmap_2|]. simpl. rewrite Hk', <-Hk. by left.
  - rewrite IH by done. split; [intros (c' & ? & ?); eauto|].
    intros (c' & [?| ->] & ? & ?); [eauto|done].
Qed.

Lemma docs_files l :
  (∀ f d c, (f, d) ∈ l → has_suffix dotjson f = true → decode_doc d = Some c → f = file_of (WID c)) →
  (λ c, file_of (WID c)) <$> docs l `sublist_of` l.*1.
Proof.
  induction l as [|[f d] l IH]; intros Hf; [constructor|]. unfold docs in *. csimpl.
  assert ((λ c, file_of (WID c)) <$> omap
    (λ fd, if has_suffix dotjson fd.1 then decode_doc fd.2 else None) l `sublist_of` l.*1) as IH'.
  { apply IH. intros f' d' c Hin. apply Hf. by right. }
  destruct (has_suffix dotjson f) eqn:Ef; [|by constructor].
  destruct (decode_doc d) as [c|] eqn:Ed; [|by constructor].
  csimpl. rewrite <-(Hf f d c); [by constructor|by left|done|done].
Qed.

Lemma restart_ok dir_order m :
  file_wf m →
  configs (load dir_order (disk m)) = configs m ∧ nameMap (load dir_order (disk m)) = nameMap m.
Proof.
  intros [Hwn Hids Hidx Hdisk Hfiles]. set (l := range_map dir_order (disk m)).
  assert (∀ c, c ∈ docs l ↔ configs m !! WID c = Some c) as Hdocs.
  { intros c. unfold docs. rewrite list_elem_of_omap. split.
    - intros ([f d] & Hin%elem_of_range_map & Hc). simpl in *.
      destruct (has_suffix dotjson f) eqn:Ef; [|done].
      destruct (Hfiles f d Hin Ef) as (id & -> & [c' Hc']).
      destruct (Hdisk id c' Hc') as (d' & Hd' & Hun). simplify_eq.
      unfold decode_doc in Hc. rewrite Hun in Hc. simplify_eq.
      by destruct (Hwn _ _ Hc') as [-> _].
    - intros Hc. destruct (Hdisk _ _ Hc) as (d & Hd & Hun). exists (file_of (WID c), d).
      split; [by apply elem_of_range_map|]. simpl. rewrite file_suffix. unfold decode_doc. by rewrite Hun. }
  assert (NoDup (WID <$> docs l)) as Hnd.
  { apply (NoDup_fmap_1 file_of). rewrite <-list_fmap_compose. eapply sublist_NoDup.
    - apply (NoDup_fst_range_map dir_order (disk m)).
    - apply docs_files. intros f d c Hin%elem_of_range_map Hsuf Hc.
      destruct (Hfiles f d Hin Hsuf) as (id & -> & [c' Hc']).
      destruct (Hdisk id c' Hc') as (d' & Hd' & Hun). simplify_eq.
      unfold decode_doc in Hc. rewrite Hun in Hc. simplify_eq.
      by destruct (Hwn _ _ Hc') as [-> _]. }
  assert (NoDup (WName <$> docs l)) as Hndn.
  { apply NoDup_fmap_2_strong; [|by eapply NoDup_fmap_1].
    intros c1 c2 H1%Hdocs H2%Hdocs Hn.
    assert (WID c1 = WID c2) by (eapply mirrors_distinct; eauto). congruence. }
  destruct (load_docs l (mkFM ∅ ∅ (disk m))) as [H1 H2].
  { apply Forall_forall. intros c Hc%Hdocs. by destruct (Hwn _ _ Hc). }
  unfold load. fold l. rewrite H1, H2. simpl. split.
  - apply map_eq. intros id. apply option_eq. intros c.
    rewrite (lookup_insert_all WID (λ c, c)) by done. setoid_rewrite Hdocs. split.
    + by intros (c' & Hc' & <- & <-).
    + intros Hc. exists c. by destruct (Hwn _ _ Hc) as [-> _].
  - apply map_eq. intros name. apply option_eq. intros id.
    rewrite (lookup_insert_all WName WID) by done. setoid_rewrite Hdocs. rewrite (Hidx name id). split.
    + intros (c & Hc & <- & <-). eauto.
    + intros (c & Hc & <-). exists c. by destruct (Hwn _ _ Hc) as [-> _].
Qed.
End managers.

(** ** Clients of the interface *)
Section clients.
Context {M1 M2 : Type} `{WorkflowConfigManager M1} `{WorkflowConfigManager M2}.
Context (check : WorkflowConfig → result config_error unit) (storable : WorkflowConfig → Prop).
Context (L1 : ConfigManagerLaws M1 check storable) (L2 : ConfigManagerLaws M2 check storable).

(** Both are well formed and hold the same documents. *)
Definition same_documents (m1 : M1) (m2 : M2) : Prop :=
  cm_wf (ConfigManagerLaws := L1) m1 ∧ cm_wf (ConfigManagerLaws := L2) m2 ∧
  cm_abs (ConfigManagerLaws := L1) m1 = cm_abs (ConfigManagerLaws := L2) m2.

Lemma same_names m1 m2 name : same_documents m1 m2 → cm_GetWithName m1 name = cm_GetWithName m2 name.
Proof.
  intros (W1 & W2 & Habs).
  destruct (cm_get_name (ConfigManagerLaws := L1) m1 name W1) as [(id1 & c1 & H1 & N1 & ->)|[H1 ->]];
  destruct (cm_get_name (ConfigManagerLaws := L2) m2 name W2) as [(id2 & c2 & H2 & N2 & ->)|[H2 ->]].
  - rewrite <-Habs in H2. assert (id1 = id2) as ->; [|congruence].
    eapply (cm_distinct (ConfigManagerLaws := L1)); eauto. congruence.
  - rewrite Habs in H1. exfalso. by eapply H2.
  - rewrite <-Habs in H2. exfalso. by eapply H1.
  - done.
Qed.

(** A save of a document that can be stored has one outcome. *)
Lemma same_save m1 m2 uuid cfg :
  same_documents m1 m2 → WName cfg ≠ "" → is_blank uuid = false →
  cm_abs (ConfigManagerLaws := L1) m1 !! uuid = None → storable (ensure_id uuid cfg) →
  match cm_Save m1 uuid cfg, cm_Save m2 uuid cfg with
  | Ok m1', Ok m2' => same_documents m1' m2' ∧ cm_GetWithName m1' (WName cfg) = Ok (ensure_id uuid cfg)
  | Err e1, Err e2 => e1 = e2
  | _, _ => False
  end.
Proof.
  intros (W1 & W2 & Habs) Hn Hb Hu Hst. destruct (check cfg) as [[]|e] eqn:Hv.
  - destruct (cm_save (ConfigManagerLaws := L1) m1 uuid cfg W1 Hn Hb Hu Hv Hst)
      as [[T1 E1]|(T1 & m1' & E1 & W1' & A1)]; rewrite Habs in Hu;
    destruct (cm_save (ConfigManagerLaws := L2) m2 uuid cfg W2 Hn Hb Hu Hv Hst)
      as [[T2 E2]|(T2 & m2' & E2 & W2' & A2)]; rewrite E1, E2; try (rewrite Habs in *; done).
    split; [split_and!; [done..|by rewrite A1, A2, Habs]|].
    assert (cm_abs (ConfigManagerLaws := L1) m1' !! WID (ensure_id uuid cfg) = Some (ensure_id uuid cfg)) as Hc
      by by rewrite A1, lookup_insert_eq.
    destruct (cm_get_name (ConfigManagerLaws := L1) m1' (WName cfg) W1') as [(id & c & Hi & Hnm & ->)|[Hno _]].
    + assert (id = WID (ensure_id uuid cfg)) as ->; [|congruence].
      eapply (cm_distinct (ConfigManagerLaws := L1)); eauto. by rewrite ensure_id_name.
    + exfalso. eapply Hno; [exact Hc|]. by rewrite ensure_id_name.
  - by rewrite (cm_save_refused (ConfigManagerLaws := L1) m1 uuid cfg e Hv),
      (cm_save_refused (ConfigManagerLaws := L2) m2 uuid cfg e Hv).
Qed.

Lemma same_documents_ops m1 m2 :
  same_documents m1 m2 →
  (∀ id, cm_Get m1 id = cm_Get m2 id) ∧
  (∀ name, cm_GetWithName m1 name = cm_GetWithName m2 name) ∧
  cm_List m1 ≡ₚ cm_List m2 ∧
  (∀ id, same_documents (cm_Delete m1 id) (cm_Delete m2 id)).
Proof.
  intros Hs. pose proof Hs as (W1 & W2 & Habs). split_and!.
  - intros id. rewrite (cm_get (ConfigManagerLaws := L1)), (cm_get (ConfigManagerLaws := L2)) by done.
    by rewrite Habs.
  - intros name. by apply same_names.
  - by rewrite (cm_list (ConfigManagerLaws := L1)), (cm_list (ConfigManagerLaws := L2)), Habs.
  - intros id. destruct (cm_delete (ConfigManagerLaws := L1) m1 id W1) as [? E1].
    destruct (cm_delete (ConfigManagerLaws := L2) m2 id W2) as [? E2]. split_and!; [done..|].
    by rewrite E1, E2, Habs.
Qed.
End clients.

Section theorems.
Context {P : Type} (o : iter_order string nat) (o1 o2 : iter_order string Z).
Context (reg : option (registry P)).
Context {D : Type} `{Inhabited D}.
Context (marshal : WorkflowConfig → result string D).
Context (unmarshal : D → result string WorkflowConfig).
Context (cjson_name : D → string).
Context (lo : iter_order string WorkflowConfig) (vo : iter_order string D).

#[local] Instance FM : WorkflowConfigManager (fileWorkflowConfigManager (D := D)) :=
  file_manager o o1 o2 reg marshal lo.
#[local] Instance RM : WorkflowConfigManager (redisWorkflowConfigManager (D := D)) :=
  redis_manager o o1 o2 reg marshal unmarshal cjson_name vo.

(** C40: The file manager and the Redis manager are interchangeable for named
    documents that their JSON encoding restores, as long as the file system
    and Redis carry out what they are asked.  Holding the same documents, they
    answer lookups by ID and by name alike, errors included, list the same
    documents, up to order, and hold the same documents after a delete.  A
    save is refused by both for the same reason, an invalid document or a
    taken name, or done by both; then they hold the same documents again and
    the saved one is found under its name. *)
Theorem file_redis_agree fm rm :
  let L1 := file_laws o o1 o2 reg marshal unmarshal cjson_name lo in
  let L2 := redis_laws o o1 o2 reg marshal unmarshal cjson_name vo in
  same_documents _ _ L1 L2 fm rm →
  ((∀ id, cm_Get fm id = cm_Get rm id) ∧
   (∀ name, cm_GetWithName fm name = cm_GetWithName rm name) ∧
   cm_List fm ≡ₚ cm_List rm ∧
   (∀ id, same_documents _ _ L1 L2 (cm_Delete fm id) (cm_Delete rm id))) ∧
  (∀ uuid cfg, WName cfg ≠ "" → is_blank uuid = false → configs fm !! uuid = None →
    restored marshal unmarshal cjson_name (ensure_id uuid cfg) →
    match cm_Save fm uuid cfg, cm_Save rm uuid cfg with
    | Ok fm', Ok rm' => same_documents _ _ L1 L2 fm' rm' ∧
        cm_GetWithName fm' (WName cfg) = Ok (ensure_id uuid cfg)
    | Err e1, Err e2 => e1 = e2
    | _, _ => False
    end).
Proof.
  intros L1 L2 Hs. split; [by apply (same_documents_ops _ _ L1 L2)|].
  intros. by apply (same_save _ _ L1 L2).
Qed.

(** Restarting the file manager loses and invents nothing: whatever saves
    and deletes were made and whatever file operations failed, loading the
    directory in any order gives the documents and the name index the running
    manager had. *)
Theorem restart_preserves_documents dir_order m :
  rtc (file_step o o1 o2 reg marshal unmarshal cjson_name) empty_dir m →
  configs (load unmarshal dir_order (disk m)) = configs m ∧
  nameMap (load unmarshal dir_order (disk m)) = nameMap m.
Proof. intros Hr. by eapply restart_ok, file_reachable_wf. Qed.
End theorems.

(** A codec that, as JSON does, keeps all of a document but writes null for a
    node without configuration, and a document it restores. *)
Definition null_config (n : NodeConfig) : NodeConfig :=
  if decide (Config n = "") then mkNode (ID n) (Name n) (Namespace n) (Plugin n) "null" (Metadata n) else n.
Definition sample_marshal (c : WorkflowConfig) : result string WorkflowConfig :=
  Ok (mkWorkflow (WID c) (WName c) (Version c) (Head c) (null_config <$> Nodes c) (Edges c)
        (SchedulerMode c) (SchedulerWorkers c)).
Definition sample_doc : WorkflowConfig :=
  mkWorkflow "" "greeting" "1" "a" [mkNode "a" "a" "" "echo" "{}" None] [] "" 0.

#[export] Instance WorkflowConfig_inhabited : Inhabited WorkflowConfig := populate zero_config.

Lemma sample_restored : restored sample_marshal Ok WName (ensure_id "u-1" sample_doc).
Proof. eexists. split; [reflexivity|]. split; reflexivity. Qed.

(** Not every document is restored. *)
Lemma unconfigured_not_restored id name v : ¬ restored sample_marshal Ok WName
  (mkWorkflow id name v "a" [mkNode "a" "a" "" "echo" "" None] [] "" 0).
Proof. intros (d & Hm & Hu & _). vm_compute in Hm. injection Hm as <-. by injection Hu. Qed.

Lemma empty_file_wf :
  file_wf (Ok : WorkflowConfig → result string WorkflowConfig) empty_dir.
Proof.
  eapply (file_reachable_wf default_order default_order default_order (Some sample_registry)
    sample_marshal Ok WName). done.
Qed.

Lemma empty_redis_wf :
  redis_wf (Ok : WorkflowConfig → result string WorkflowConfig) WName (mkRM ∅ ∅).
Proof.
  split; [done..|]. intros name id. unfold redis_abs. simpl. rewrite omap_empty, !lookup_empty.
  split; [done|]. by intros (c & ? & _).
Qed.

Definition sample_FM : WorkflowConfigManager fileWorkflowConfigManager :=
  file_manager default_order default_order default_order (Some sample_registry)
    sample_marshal default_order.
Definition sample_RM : WorkflowConfigManager redisWorkflowConfigManager :=
  redis_manager default_order default_order default_order (Some sample_registry)
    sample_marshal Ok WName default_order.

Lemma file_redis_agree_witness :
  ∃ fm' rm', @cm_Save _ sample_FM empty_dir "u-1" sample_doc = Ok fm' ∧
    @cm_Save _ sample_RM (mkRM ∅ ∅) "u-1" sample_doc = Ok rm' ∧
    @cm_GetWithName _ sample_FM fm' "greeting" = Ok (ensure_id "u-1" sample_doc).
Proof.
  assert (∃ fm', @cm_Save _ sample_FM empty_dir "u-1" sample_doc = Ok fm') as [fm' Ef]
    by (eexists; vm_compute; reflexivity).
  assert (∃ rm', @cm_Save _ sample_RM (mkRM ∅ ∅) "u-1" sample_doc = Ok rm') as [rm' Er]
    by (eexists; vm_compute; reflexivity).
  exists fm', rm'. split; [exact Ef|]. split; [exact Er|].
  destruct (file_redis_agree default_order default_order default_order (Some sample_registry)
    sample_marshal Ok WName default_order default_order empty_dir (mkRM ∅ ∅)) as (_ & Hs).
  { split; [exact empty_file_wf|]. split; [exact empty_redis_wf|reflexivity]. }
  specialize (Hs "u-1" sample_doc ltac:(discriminate) eq_refl eq_refl sample_restored).
  change (FM default_order default_order default_order (Some sample_registry) sample_marshal default_order)
    with sample_FM in Hs.
  change (RM default_order default_order default_order (Some sample_registry) sample_marshal Ok WName default_order)
    with sample_RM in Hs.
  rewrite Ef, Er in Hs. exact (proj2 Hs).
Defined.

Lemma restart_preserves_documents_witness :
  ∃ m, rtc (file_step default_order default_order default_order (Some sample_registry) sample_marshal Ok WName)
        empty_dir m ∧ size (configs m) = 1 ∧
    configs (load Ok default_order (disk m)) = configs m.
Proof.
  set (r := file_Save default_order default_order default_order (Some sample_registry) sample_marshal
    true true zero_config empty_dir "u-1" sample_doc).
  exists r.2. assert (rtc (file_step default_order default_order default_order (Some sample_registry)
    sample_marshal Ok WName) empty_dir r.2) as Hr.
  { apply rtc_once. apply (fs_save _ _ _ _ _ _ _ true true zero_config empty_dir "u-1" sample_doc r.1 r.2);
      [discriminate|vm_compute; reflexivity..|exact sample_restored|apply surjective_pairing]. }
  split; [exact Hr|]. split; [vm_compute; reflexivity|].
  apply (restart_preserves_documents default_order default_order default_order (Some sample_registry)
    sample_marshal Ok WName default_order r.2 Hr).
Defined.

(** ** A document without a name *)
Definition unnamed_doc : WorkflowConfig :=
  mkWorkflow "id-1" "" "1" "a" [mkNode "a" "a" "" "echo" "{}" None] [] "" 0.

(** Deleting a document that was saved without a name leaves its entry in
    the name index of the file manager: looking the empty name up then
    succeeds with a document that does not exist. *)
Theorem delete_unnamed_keeps_index :
  let save := file_Save default_order default_order default_order (Some sample_registry)
                sample_marshal true true zero_config empty_dir "u-1" unnamed_doc in
  let del := file_Delete false save.2 "id-1" in
  save.1 = Ok tt ∧ del.1 = Ok tt ∧ file_Get del.2 "id-1" = Err WorkflowNotFound ∧
  file_GetWithName del.2 "" = Ok zero_config.
Proof. vm_compute. done. Qed.
