(* ===== verification/JsonMerge.v ===== *)
(** * Merging node configurations ([internal/engine/session.go]: deepMergeJSON, DeepMergeAST)

    The JSON tree is a type of the sonic library; what the merge uses of it is
    an interface: the member list of an object, lookup and update by key. *)

From S2P Require Import Prelude.

Class Ast (N : Type) := {
  is_object : N → bool;          (** [TypeSafe() == ast.V_OBJECT] *)
  members : N → list (string * N); (** what [ForEach] visits *)
  get_member : N → string → option N;
  set_member : N → string → N → N;
  depth : N → nat;
  distinct : N → Prop;           (** an object whose keys are distinct *)
}.

(** Documented behaviour of the tree operations. *)
Class AstLaws (N : Type) `{Ast N} := {
  get_set_eq : ∀ n k v, is_object n = true → get_member (set_member n k v) k = Some v;
  get_set_ne : ∀ n k k' v, is_object n = true → k ≠ k' →
    get_member (set_member n k v) k' = get_member n k';
  set_object : ∀ n k v, is_object n = true → is_object (set_member n k v) = true;
  get_members : ∀ n k v, is_object n = true → distinct n → get_member n k = Some v ↔ (k, v) ∈ members n;
  members_nodup : ∀ n, is_object n = true → distinct n → NoDup (members n).*1;
  members_depth : ∀ n k v, (k, v) ∈ members n → depth v < depth n;
}.

Section merge.
Context {N : Type} `{AstLaws N}.
Implicit Types base overlay : N.

(** [DeepMergeAST]: the base is updated in place; the result is the base
    afterwards.  One unit of fuel per level of the overlay is enough. *)
Fixpoint DeepMergeAST (fuel : nat) base overlay : N :=
  match fuel with
  | O => base
  | S fuel =>
    if negb (is_object base) || negb (is_object overlay) then base
    else
      foldl (λ base '(key, node),
        match get_member base key with
        | Some baseMember =>
          if is_object baseMember && is_object node
          then set_member base key (DeepMergeAST fuel baseMember node)
          else set_member base key node
        | None => set_member base key node
        end) base (members overlay)
  end.

Definition merge_nodes base overlay : N := DeepMergeAST (S (depth overlay)) base overlay.

(** [deepMergeJSON], with the parser and the printer of the library. *)
Definition deepMergeJSON (parse : string → result string N) (raw : N → result string string)
    (base overlay : string) : result string string :=
  if decide (base = "") then Ok overlay
  else if decide (overlay = "") then Ok base
  else
    let? baseNode := parse base in
    let? overlayNode := parse overlay in
    raw (merge_nodes baseNode overlayNode).

(** What the merge of one member is. *)
Definition merged_member (fuel : nat) (b : option N) (v : N) : N :=
  match b with
  | Some m => if is_object m && is_object v then DeepMergeAST fuel m v else v
  | None => v
  end.

Lemma fold_members fuel base kvs :
  is_object base = true → NoDup kvs.*1 →
  let step := λ base '(key, node),
    match get_member base key with
    | Some baseMember =>
      if is_object baseMember && is_object node
      then set_member base key (DeepMergeAST fuel baseMember node)
      else set_member base key node
    | None => set_member base key node
    end in
  let r := foldl step base kvs in
  is_object r = true ∧
  (∀ k, k ∉ kvs.*1 → get_member r k = get_member base k) ∧
  (∀ k v, (k, v) ∈ kvs → get_member r k = Some (merged_member fuel (get_member base k) v)).
Proof.
  intros Hb Hnd step. revert base Hb. induction kvs as [|[k v] kvs IH]; intros base Hb; simpl.
  { split_and!; [done..|]. by intros ? ? ?%elem_of_nil. }
  apply NoDup_cons in Hnd as [Hk Hnd].
  assert (step base (k, v) = set_member base k (merged_member fuel (get_member base k) v)) as Hstep.
  { unfold step, merged_member. destruct (get_member base k) as [m|]; [|done].
    by destruct (is_object m && is_object v). }
  change (match get_member base k with Some _ => _ | None => _ end) with (step base (k, v)).
  rewrite Hstep. set (base' := set_member base k _).
  assert (is_object base' = true) as Hb' by by apply set_object.
  destruct (IH Hnd base' Hb') as (H1 & H2 & H3). split_and!; [done|..].
  - intros k' Hk'. rewrite H2 by set_solver. unfold base'. rewrite get_set_ne; [done|done|set_solver].
  - intros k' v' [[= -> ->]|Hin]%elem_of_cons.
    + rewrite H2 by done. unfold base'. by rewrite get_set_eq.
    + rewrite (H3 k' v' Hin). f_equal. f_equal. unfold base'. apply get_set_ne; [done|].
      intros ->. apply Hk. apply list_elem_of_fmap. by exists (k', v').
Qed.

Lemma DeepMergeAST_members fuel base overlay :
  is_object base = true → is_object overlay = true → distinct overlay →
  is_object (DeepMergeAST (S fuel) base overlay) = true ∧
  ∀ k, get_member (DeepMergeAST (S fuel) base overlay) k =
    match get_member overlay k with
    | None => get_member base k
    | Some v => Some (merged_member fuel (get_member base k) v)
    end.
Proof.
  intros Hb Ho Hd. simpl. rewrite Hb, Ho. simpl.
  destruct (fold_members fuel base (members overlay) Hb (members_nodup _ Ho Hd)) as (H1 & H2 & H3).
  split; [done|]. intros k. destruct (get_member overlay k) as [v|] eqn:E.
  - apply H3. by apply get_members.
  - apply H2. intros ([k' v] & -> & Hin)%list_elem_of_fmap.
    apply (proj2 (get_members _ _ _ Ho Hd)) in Hin. simpl in E. congruence.
Qed.

(** More fuel than the overlay is deep changes nothing. *)
Lemma DeepMergeAST_fuel fuel fuel' base overlay :
  depth overlay < fuel → depth overlay < fuel' →
  DeepMergeAST fuel base overlay = DeepMergeAST fuel' base overlay.
Proof.
  revert fuel' base overlay. induction fuel as [|fuel IH]; intros [|fuel'] base overlay H1 H2; [lia..|].
  simpl. destruct (negb (is_object base) || negb (is_object overlay)); [done|].
  assert (∀ kvs, (∀ k v, (k, v) ∈ kvs → depth v < fuel ∧ depth v < fuel') →
    ∀ b, foldl (λ base '(key, node),
        match get_member base key with
        | Some baseMember =>
          if is_object baseMember && is_object node
          then set_member base key (DeepMergeAST fuel baseMember node)
          else set_member base key node
        | None => set_member base key node
        end) b kvs =
      foldl (λ base '(key, node),
        match get_member base key with
        | Some baseMember =>
          if is_object baseMember && is_object node
          then set_member base key (DeepMergeAST fuel' baseMember node)
          else set_member base key node
        | None => set_member base key node
        end) b kvs) as Hgen.
  { induction kvs as [|[k v] kvs IHk]; intros Hd b; [done|]. simpl.
    rewrite IHk by (intros k' v' Hin; apply (Hd k'); by right). f_equal.
    destruct (get_member b k) as [m|]; [|done]. destruct (is_object m && is_object v); [|done].
    f_equal. destruct (Hd k v); [by left|]. by apply IH. }
  apply Hgen. intros k v Hin. apply members_depth in Hin. lia.
Qed.

(** Merging an override into a node's configuration keeps every member the
    override does not name, takes the override's value for the others, and
    merges recursively where both values are objects. *)
Theorem merge_nodes_members base overlay :
  is_object base = true → is_object overlay = true → distinct overlay →
  is_object (merge_nodes base overlay) = true ∧
  ∀ k, get_member (merge_nodes base overlay) k =
    match get_member overlay k, get_member base k with
    | None, b => b
    | Some v, Some m => Some (if is_object m && is_object v then merge_nodes m v else v)
    | Some v, None => Some v
    end.
Proof.
  intros Hb Ho Hd. unfold merge_nodes at 1 2.
  destruct (DeepMergeAST_members (depth overlay) base overlay Hb Ho Hd) as [H1 H2].
  split; [done|]. intros k. rewrite H2. destruct (get_member overlay k) as [v|] eqn:Ev; [|done].
  unfold merged_member. destruct (get_member base k) as [m|]; [|done]. f_equal.
  destruct (is_object m && is_object v); [|done]. unfold merge_nodes.
  apply (get_members _ _ _ Ho Hd), members_depth in Ev. apply DeepMergeAST_fuel; lia.
Qed.
End merge.

(** ** JSON trees implement the interface *)
#[warnings="-register-all"]
Inductive json := JAtom (s : string) | JObj (kvs : list (string * json)).

Fixpoint lookup_kv (k : string) (kvs : list (string * json)) : option json :=
  match kvs with
  | [] => None
  | (k', v) :: kvs => if decide (k' = k) then Some v else lookup_kv k kvs
  end.
Fixpoint update_kv (k : string) (v : json) (kvs : list (string * json)) : list (string * json) :=
  match kvs with
  | [] => [(k, v)]
  | (k', v') :: kvs => if decide (k' = k) then (k, v) :: kvs else (k', v') :: update_kv k v kvs
  end.
Fixpoint json_depth (j : json) : nat :=
  match j with
  | JAtom _ => 0
  | JObj kvs => S (foldr (λ kv d, Nat.max (json_depth kv.2) d) 0 kvs)
  end.

#[export] Instance json_ast : Ast json := {|
  is_object j := match j with JObj _ => true | _ => false end;
  members j := match j with JObj kvs => kvs | _ => [] end;
  get_member j k := match j with JObj kvs => lookup_kv k kvs | _ => None end;
  set_member j k v := match j with JObj kvs => JObj (update_kv k v kvs) | j => j end;
  depth := json_depth;
  distinct j := match j with JObj kvs => NoDup kvs.*1 | _ => True end;
|}.

#[export] Instance json_laws : AstLaws json.
Proof.
  split.
  - intros [|kvs] k v Ho; [done|]. simpl. induction kvs as [|[k' v'] kvs IH]; simpl.
    + by rewrite decide_True.
    + destruct (decide (k' = k)) as [->|]; simpl; [by rewrite decide_True|rewrite decide_False by done; by apply IH].
  - intros [|kvs] k k' v Ho Hne; [done|]. simpl. induction kvs as [|[k1 v1] kvs IH]; simpl.
    + by rewrite decide_False.
    + destruct (decide (k1 = k)) as [->|]; simpl; [by rewrite !(decide_False (P := k = k'))|by rewrite IH].
  - by intros [|kvs] k v Ho.
  - intros [|kvs] k v Ho Hd; [done|]. simpl in *. clear Ho.
    induction kvs as [|[k1 v1] kvs IH]; simpl; [by rewrite elem_of_nil|].
    apply NoDup_cons in Hd as [Hk Hd]. rewrite elem_of_cons. case_decide as Hkk.
    + subst. split; [intros [= ->]; by left|]. intros [[= ->]|Hin]; [done|].
      exfalso. apply Hk, list_elem_of_fmap. by exists (k, v).
    + rewrite IH by done. split; [by right|]. intros [[= -> ->]|?]; done.
  - by intros [|kvs].
  - intros [|kvs] k v Hin; simpl in *; [by apply elem_of_nil in Hin|].
    induction kvs as [|[k1 v1] kvs IH]; [by apply elem_of_nil in Hin|].
    simpl. apply elem_of_cons in Hin as [[= -> ->]|Hin]; [lia|]. specialize (IH Hin). lia.
Qed.

Definition sample_base : json :=
  JObj [("model", JAtom "m1"); ("voice", JObj [("lang", JAtom "en"); ("speed", JAtom "1")])].
Definition sample_overlay : json := JObj [("voice", JObj [("speed", JAtom "2")])].

Lemma merge_nodes_members_witness :
  merge_nodes sample_base sample_overlay =
    JObj [("model", JAtom "m1"); ("voice", JObj [("lang", JAtom "en"); ("speed", JAtom "2")])] ∧
  get_member (merge_nodes sample_base sample_overlay) "model" = Some (JAtom "m1").
Proof.
  split; [reflexivity|].
  destruct (merge_nodes_members sample_base sample_overlay) as [_ H];
    [reflexivity|reflexivity|apply NoDup_singleton|].
  rewrite (H "model"). reflexivity.
Defined.
