(* ===== verification/EngineSession.v ===== *)
(** * Sessions ([internal/engine/session.go])

    The session manager creates a started workflow per session key, hands the
    session out by key, and stops the workflows of sessions that are removed,
    idle for too long, or left when the manager stops.  Sessions and workflows
    are shared by pointer and live in heaps. *)

From S2P Require Import Prelude GoStrings Property EngineTypes Graph Registry Chan Node.
From S2P Require Import Runtime Workflow Lifecycle ConfigManager JsonMerge.

Inductive session_error :=
| FindConfig (e : config_error)
| ResolveBuilders (e : plugin_error)
| GraphFailed (e : graph_error)
| NewWorkflowFailed (e : workflow_error)
| StartFailed (node : nat) (e : string).

(** What the manager needs of a workflow: its state and whether its context
    was cancelled. *)
Record wfrec := mkWfRec { w_st : WorkflowState; w_cancelled : bool }.

(** [Workflow.Stop] on a workflow nobody else uses. *)
Definition Workflow_Stop (w : wfrec) : wfrec :=
  if decide (w_st w = WorkflowStateStopped) then w else mkWfRec WorkflowStateStopped true.

Record Session := mkSession {
  Key : string;
  SWorkflow : nat;     (** address of the workflow *)
  LastActive : Z;
  CreatedAt : Z;       (** milliseconds *)
  busy : bool;
}.

Definition UpdateActivity (now : Z) (s : Session) : Session :=
  mkSession (Key s) (SWorkflow s) now (CreatedAt s) (busy s).

(** [busy.CompareAndSwap(false, true)]. *)
Definition Acquire (s : Session) : bool * Session :=
  if busy s then (false, s)
  else (true, mkSession (Key s) (SWorkflow s) (LastActive s) (CreatedAt s) true).
Definition Release_session (s : Session) : Session :=
  mkSession (Key s) (SWorkflow s) (LastActive s) (CreatedAt s) false.

(** ** Observers *)
Record observers := mkObs { slots : list (option nat); obs_count : nat }.

Definition initial_observers : observers := mkObs (replicate 4 None) 0.

Definition addObserver (obs : observers) (fn : nat) : Z * observers :=
  if decide (obs_count obs = length (slots obs)) then
    (Z.of_nat (length (slots obs)), mkObs (slots obs ++ [Some fn]) (S (obs_count obs)))
  else match list_find (λ s, s = None) (slots obs) with
  | Some (i, _) => (Z.of_nat i, mkObs (<[i := Some fn]> (slots obs)) (S (obs_count obs)))
  | None => ((-1)%Z, obs)
  end.

(** [RemoveCreatedObserver], [RemoveDeletedObserver]. *)
Definition removeObserver (obs : observers) (index : Z) : observers :=
  if decide (index < 0 ∨ Z.of_nat (length (slots obs)) ≤ index)%Z then obs
  else match slots obs !! Z.to_nat index with
  | Some (Some _) => mkObs (<[Z.to_nat index := None]> (slots obs)) (obs_count obs - 1)
  | _ => obs
  end.

(** The observers a notification calls, in slot order. *)
Definition live_observers (obs : observers) : list nat :=
  if decide (0 < obs_count obs) then omap id (slots obs) else [].

Inductive notification := Created (fn sid : nat) | Deleted (fn sid : nat).

Record SessionManager := mkSM {
  sessions : gmap string nat;
  sess_heap : gmap nat Session;
  wf_heap : gmap nat wfrec;
  next : nat;                  (** next free address *)
  timeout : Z;                 (** milliseconds *)
  onCreated : observers;
  onDeleted : observers;
  sm_cancelled : bool;
  active : Z;                  (** the gauge [sessions.active] *)
  notified : list notification;
}.

Definition NewSessionManager (timeout : Z) : SessionManager :=
  mkSM ∅ ∅ ∅ 0 timeout initial_observers initial_observers false 0 [].

(** Stop the workflow of a session. *)
Definition stop_workflow (s : Session) (h : gmap nat wfrec) : gmap nat wfrec :=
  alter Workflow_Stop (SWorkflow s) h.

Definition set_session (sid : nat) (s : Session) (sm : SessionManager) : SessionManager :=
  mkSM (sessions sm) (<[sid := s]> (sess_heap sm)) (wf_heap sm) (next sm) (timeout sm)
    (onCreated sm) (onDeleted sm) (sm_cancelled sm) (active sm) (notified sm).

(** ** Creating a session *)
Section create.
Context {P : Type} `{PluginHooks P} {M : Type} `{WorkflowConfigManager M}.
Context (o : iter_order string nat) (o1 o2 : iter_order string Z).
Context (reg : option (registry P)).
(** The JSON merge of a node's configuration with its override. *)
Context (merge : string → string → result string string).

(** [cloneAndMergeConfig]: overrides by node name; a failed merge keeps the
    node's configuration. *)
Definition cloneAndMergeConfig (cfg : WorkflowConfig) (properties : gmap string string) : WorkflowConfig :=
  mkWorkflow (WID cfg) (WName cfg) (Version cfg) (Head cfg)
    ((λ nd, match properties !! Name nd with
            | Some nodeProps =>
              match merge (Config nd) nodeProps with
              | Ok c => mkNode (ID nd) (Name nd) (Namespace nd) (Plugin nd) c (Metadata nd)
              | Err _ => nd
              end
            | None => nd
            end) <$> Nodes cfg)
    (Edges cfg) (SchedulerMode cfg) (SchedulerWorkers cfg).

(** The runtime nodes of a workflow. *)
Definition rt_node : Type := loop_node P + scheduler_node P.
#[export] Instance rt_ops : NodeOps rt_node := {|
  is_running n := match n with inl n => is_running n | inr n => is_running n end;
  Start n := match n with
             | inl n => let? n' := Start n in Ok (inl n')
             | inr n => let? n' := Start n in Ok (inr n')
             end;
  Ready n := match n with inl n => inl (Ready n) | inr n => inr (Ready n) end;
  Stop n := match n with inl n => inl (Stop n) | inr n => inr (Stop n) end;
|}.

#[export] Instance rt_laws : NodeLaws rt_node.
Proof.
  split.
  - intros [n|n] n' Hs.
    + apply (rbind_ok (Start n)) in Hs as (x & Hx & [= <-]). exact (Start_running _ _ Hx).
    + apply (rbind_ok (Start n)) in Hs as (x & Hx & [= <-]). exact (Start_running _ _ Hx).
  - intros [n|n]; exact (Ready_running n).
  - intros [n|n]; exact (Stop_stopped n).
Qed.

Definition instantiate (w : Workflow) : list rt_node :=
  (λ n : wnode, match worker_idx n with
    | Some i => inr (mkSN (wbase n) (Z.to_nat i) (wplugin n))
    | None => inl (mkLN (wbase n) newLoopNode (wplugin n) 0)
    end) <$> wnodes w.

(** From a document to a started workflow; the second component is the
    workflow object, which exists as soon as [NewWorkflow] succeeded. *)
Definition launch (cfg : WorkflowConfig) : result session_error unit * option wfrec :=
  match
    let? builders := rmap_err ResolveBuilders (ResolvePluginBuilders o reg (Nodes cfg)) in
    let? g := rmap_err GraphFailed (BuildGraph o1 o2 cfg builders) in
    rmap_err NewWorkflowFailed (NewWorkflow g builders)
  with
  | Err e => (Err e, None)
  | Ok w =>
    let r := wf_Start WorkflowStatePending (instantiate w) in
    (match sr_error r with Some (k, e) => Err (StartFailed k e) | None => Ok tt end,
     Some (mkWfRec (sr_state r) false))
  end.

(** [now] is the clock in milliseconds; [time.Now().Unix()] counts seconds. *)
Definition CreateSession (m : M) (now : Z) (key name : string) (properties : gmap string string)
    (sm : SessionManager) : result session_error nat * SessionManager :=
  match cm_GetWithName m name with
  | Err e => (Err (FindConfig e), sm)
  | Ok cfg =>
    match launch (cloneAndMergeConfig cfg properties) with
    | (Err e, None) => (Err e, sm)
    | (Err e, Some w) =>
      (Err e, mkSM (sessions sm) (sess_heap sm) (<[next sm := w]> (wf_heap sm)) (S (next sm))
        (timeout sm) (onCreated sm) (onDeleted sm) (sm_cancelled sm) (active sm) (notified sm))
    | (Ok _, ow) =>
      let sid := next sm in
      let s := mkSession key sid (now `quot` 1000) now false in
      (Ok sid, mkSM (<[key := sid]> (sessions sm)) (<[sid := s]> (sess_heap sm))
        (<[sid := default (mkWfRec WorkflowStateRunning false) ow]> (wf_heap sm)) (S sid)
        (timeout sm) (onCreated sm) (onDeleted sm) (sm_cancelled sm) (active sm + 1)
        (((λ fn, Created fn sid) <$> live_observers (onCreated sm)) ++ notified sm))
    end
  end.
End create.

(** ** The other operations *)
Definition LoadSession (now : Z) (key : string) (sm : SessionManager) : option nat * SessionManager :=
  match sessions sm !! key with
  | None => (None, sm)
  | Some sid =>
    (Some sid, match sess_heap sm !! sid with
               | Some s => set_session sid (UpdateActivity now s) sm
               | None => sm
               end)
  end.

(** Deletion of one session from the map, with its notifications; the
    workflow is stopped after the observers ran. *)
Definition discard (sid : nat) (sm : SessionManager) : SessionManager :=
  match sess_heap sm !! sid with
  | None => sm
  | Some s =>
    mkSM (sessions sm) (sess_heap sm) (stop_workflow s (wf_heap sm)) (next sm) (timeout sm)
      (onCreated sm) (onDeleted sm) (sm_cancelled sm) (active sm - 1)
      (((λ fn, Deleted fn sid) <$> live_observers (onDeleted sm)) ++ notified sm)
  end.

Definition unmap (keys : list string) (sm : SessionManager) : SessionManager :=
  mkSM (foldr delete (sessions sm) keys) (sess_heap sm) (wf_heap sm) (next sm) (timeout sm)
    (onCreated sm) (onDeleted sm) (sm_cancelled sm) (active sm) (notified sm).

Definition RemoveSession (key : string) (sm : SessionManager) : SessionManager :=
  match sessions sm !! key with
  | None => sm
  | Some sid => discard sid (unmap [key] sm)
  end.

(** [now - s.LastActive.Load() >= duration]. *)
Definition idle (now : Z) (sm : SessionManager) (sid : nat) : bool :=
  match sess_heap sm !! sid with
  | Some s => negb (bool_decide (now - LastActive s < timeout sm)%Z)
  | None => false
  end.

Definition Cleanup (so : iter_order string nat) (now : Z) (sm : SessionManager) : SessionManager :=
  let expired := filter (λ kv, idle now sm kv.2 = true) (range_map so (sessions sm)) in
  foldl (λ sm sid, discard sid sm) (unmap expired.*1 sm) expired.*2.

(** [SessionManager.Stop]: every workflow is stopped, no observer is called. *)
Definition StopManager (so : iter_order string nat) (sm : SessionManager) : SessionManager :=
  mkSM ∅ (sess_heap sm)
    (foldl (λ h sid, match sess_heap sm !! sid with Some s => stop_workflow s h | None => h end)
      (wf_heap sm) (range_map so (sessions sm)).*2)
    (next sm) (timeout sm) (onCreated sm) (onDeleted sm) true
    (active sm - Z.of_nat (size (sessions sm))) (notified sm).

Definition Count (sm : SessionManager) : nat := size (sessions sm).

(** ** Invariant of the manager *)
Record sm_inv (sm : SessionManager) : Prop := {
  smi_map : ∀ key sid, sessions sm !! key = Some sid →
    ∃ s, sess_heap sm !! sid = Some s ∧ Key s = key;
  smi_heap : ∀ sid s, sess_heap sm !! sid = Some s →
    SWorkflow s = sid ∧ sid < next sm ∧
    ∃ w, wf_heap sm !! sid = Some w ∧
      (w_st w = WorkflowStateStopped → w_cancelled w = true) ∧
      (sessions sm !! Key s = Some sid ∨ w_st w = WorkflowStateStopped);
  smi_wf : ∀ wid, is_Some (wf_heap sm !! wid) → wid < next sm;
  smi_active : active sm = Z.of_nat (size (sessions sm));
}.

Lemma Workflow_Stop_stopped w : w_st (Workflow_Stop w) = WorkflowStateStopped.
Proof. unfold Workflow_Stop. by case_decide. Qed.

Lemma Workflow_Stop_cancelled w :
  (w_st w = WorkflowStateStopped → w_cancelled w = true) → w_cancelled (Workflow_Stop w) = true.
Proof. unfold Workflow_Stop. case_decide; auto. Qed.

Lemma Workflow_Stop_idemp w : Workflow_Stop (Workflow_Stop w) = Workflow_Stop w.
Proof. unfold Workflow_Stop at 1. by rewrite Workflow_Stop_stopped, decide_True. Qed.

Definition stop_all (h : gmap nat wfrec) (L : list nat) : gmap nat wfrec :=
  foldl (λ h sid, alter Workflow_Stop sid h) h L.

Lemma lookup_stop_all h L x :
  stop_all h L !! x = if decide (x ∈ L) then Workflow_Stop <$> h !! x else h !! x.
Proof.
  unfold stop_all. revert h. induction L as [|y L IH]; intros h; cbn [foldl].
  { rewrite decide_False; [done|apply not_elem_of_nil]. }
  rewrite IH. destruct (decide (x = y)) as [->|Hne].
  - rewrite lookup_alter_eq. rewrite (decide_True (P := y ∈ y :: L)) by by left.
    case_decide; [|done]. destruct (h !! y); simpl; [by rewrite Workflow_Stop_idemp|done].
  - rewrite lookup_alter_ne by done. repeat case_decide; set_solver.
Qed.

(** The effect of discarding the sessions [L]. *)
Lemma discard_all sm L :
  (∀ sid, sid ∈ L → ∃ s, sess_heap sm !! sid = Some s ∧ SWorkflow s = sid) →
  let sm' := foldl (λ sm sid, discard sid sm) sm L in
  sessions sm' = sessions sm ∧ sess_heap sm' = sess_heap sm ∧ next sm' = next sm ∧
  timeout sm' = timeout sm ∧ wf_heap sm' = stop_all (wf_heap sm) L ∧
  active sm' = (active sm - Z.of_nat (length L))%Z.
Proof.
  revert sm. induction L as [|sid L IH]; intros sm HL; simpl.
  { split_and!; try done. lia. }
  destruct (HL sid) as (s & Hs & Hw); [by left|].
  assert (discard sid sm = mkSM (sessions sm) (sess_heap sm) (alter Workflow_Stop sid (wf_heap sm))
    (next sm) (timeout sm) (onCreated sm) (onDeleted sm) (sm_cancelled sm) (active sm - 1)
    (((λ fn, Deleted fn sid) <$> live_observers (onDeleted sm)) ++ notified sm)) as Hd.
  { unfold discard, stop_workflow. by rewrite Hs, Hw. }
  rewrite Hd. destruct (IH (mkSM (sessions sm) (sess_heap sm) (alter Workflow_Stop sid (wf_heap sm))
    (next sm) (timeout sm) (onCreated sm) (onDeleted sm) (sm_cancelled sm) (active sm - 1)
    (((λ fn, Deleted fn sid) <$> live_observers (onDeleted sm)) ++ notified sm)))
    as (-> & -> & -> & -> & -> & ->).
  { intros sid' Hin. apply HL. by right. }
  simpl. split_and!; try done. lia.
Qed.

Lemma size_foldr_delete (m : gmap string nat) ks :
  NoDup ks → (∀ k, k ∈ ks → is_Some (m !! k)) → size (foldr delete m ks) + length ks = size m.
Proof.
  intros Hnd. induction Hnd as [|k ks Hk Hnd IH]; intros Hin; simpl; [lia|].
  destruct (Hin k) as [v Hv]; [by left|].
  assert (foldr delete m ks !! k = Some v) as Hv' by (by rewrite lookup_foldr_delete_not_elem_of).
  rewrite map_size_delete_Some by eauto.
  assert (size (foldr delete m ks) ≠ 0) by (intros E%map_size_empty_inv; by rewrite E in Hv').
  rewrite <-IH by (intros; apply Hin; by right). lia.
Qed.

(** Discarding any set of mapped sessions together with their keys. *)
Lemma inv_discard sm kvs :
  sm_inv sm → NoDup kvs.*1 → (∀ k sid, (k, sid) ∈ kvs → sessions sm !! k = Some sid) →
  sm_inv (foldl (λ sm sid, discard sid sm) (unmap kvs.*1 sm) kvs.*2).
Proof.
  intros Hi Hnd Hin. pose proof Hi as [Hmap Hheap Hwf Hact].
  destruct (discard_all (unmap kvs.*1 sm) kvs.*2) as (E1 & E2 & E3 & E4 & E5 & E6).
  { intros sid ([k sid'] & -> & Hk)%list_elem_of_fmap. simpl. apply Hin in Hk.
    destruct (Hmap _ _ Hk) as (s & Hs & _). exists s. split; [done|]. by apply Hheap. }
  simpl in *. set (sm' := foldl _ _ _) in *. split.
  - rewrite E1, E2. intros key sid Hk. apply lookup_foldr_delete_Some in Hk as [_ Hk]. by apply Hmap.
  - rewrite E1, E2, E3, E5. intros sid s Hs. destruct (Hheap sid s Hs) as (Hw & Hlt & w & Hww & Hsc & Hor).
    split_and!; [done..|]. rewrite lookup_stop_all, Hww. case_decide as Hm; simpl.
    + eexists. split; [done|]. rewrite Workflow_Stop_stopped. split; [|by right].
      intros _. by apply Workflow_Stop_cancelled.
    + exists w. split_and!; [done..|]. destruct Hor as [Hk|]; [left|by right].
      apply lookup_foldr_delete_Some. split; [|done].
      intros ([k sid'] & Heq & Hkv)%list_elem_of_fmap. simpl in Heq. subst k.
      pose proof (Hin _ _ Hkv) as Hk'. rewrite Hk in Hk'. injection Hk' as <-.
      apply Hm, list_elem_of_fmap. by exists (Key s, sid).
  - rewrite E3, E5. intros wid [w Hw]. rewrite lookup_stop_all in Hw. apply Hwf.
    case_decide; [|by eauto]. apply fmap_Some in Hw as (w' & ? & _). eauto.
  - rewrite E1, E6, Hact.
    assert (size (foldr delete (sessions sm) kvs.*1) + length kvs.*1 = size (sessions sm)) as Hsz.
    { apply size_foldr_delete; [done|]. intros k ([k' sid] & -> & Hk)%list_elem_of_fmap. eauto. }
    rewrite !length_fmap in *. lia.
Qed.

(** ** Steps *)
Section steps.
Context {P : Type} `{PluginHooks P} {M : Type} `{WorkflowConfigManager M}.
Context (o : iter_order string nat) (o1 o2 : iter_order string Z).
Context (reg : option (registry P)).
Context (merge : string → string → result string string).

(** The calls of the program on a session manager.  Keys are fresh random
    identifiers; [sm_state] is a pause or a resume of a session's workflow by
    its connection. *)
Inductive sm_step : SessionManager → SessionManager → Prop :=
| sm_create (m : M) now key name props sm r sm' :
    sessions sm !! key = None →
    CreateSession o o1 o2 reg merge m now key name props sm = (r, sm') → sm_step sm sm'
| sm_load now key sm : sm_step sm (LoadSession now key sm).2
| sm_remove key sm : sm_step sm (RemoveSession key sm)
| sm_cleanup so now sm : sm_step sm (Cleanup so now sm)
| sm_stop so sm : sm_step sm (StopManager so sm)
| sm_busy sid s b sm :
    sess_heap sm !! sid = Some s →
    sm_step sm (set_session sid (mkSession (Key s) (SWorkflow s) (LastActive s) (CreatedAt s) b) sm)
| sm_state wid w st sm :
    wf_heap sm !! wid = Some w → w_st w ≠ WorkflowStateStopped → st ≠ WorkflowStateStopped →
    sm_step sm (mkSM (sessions sm) (sess_heap sm) (<[wid := mkWfRec st (w_cancelled w)]> (wf_heap sm))
      (next sm) (timeout sm) (onCreated sm) (onDeleted sm) (sm_cancelled sm) (active sm) (notified sm)).

Lemma launch_ok cfg ow :
  launch o o1 o2 reg cfg = (Ok tt, ow) → ow = Some (mkWfRec WorkflowStateRunning false).
Proof.
  unfold launch. destruct (rbind _ _) as [w|e]; [|done].
  unfold wf_Start. rewrite decide_True by done.
  destruct (start_nodes [] (instantiate w)) as [[ns lg] [[k e]|]]; simpl; [done|]. by intros [= <-].
Qed.

Lemma inv_set_session sm sid s s' :
  sm_inv sm → sess_heap sm !! sid = Some s → Key s' = Key s → SWorkflow s' = SWorkflow s →
  sm_inv (set_session sid s' sm).
Proof.
  intros [Hmap Hheap Hwf Hact] Hs Hk Hw. split; simpl; try done.
  - intros key sid' Hks. destruct (Hmap _ _ Hks) as (s0 & Hs0 & Hk0). rewrite lookup_insert.
    case_decide; [|eauto]. subst. exists s'. split; [done|congruence].
  - intros sid' s0 Hs0. rewrite lookup_insert in Hs0. case_decide; [|by apply Hheap].
    simplify_eq. rewrite Hk, Hw. by apply Hheap.
Qed.

Lemma inv_CreateSession (m : M) now key name props sm r sm' :
  sm_inv sm → sessions sm !! key = None →
  CreateSession o o1 o2 reg merge m now key name props sm = (r, sm') → sm_inv sm'.
Proof.
  intros Hi Hkey Hs. unfold CreateSession in Hs. destruct (cm_GetWithName m name) as [cfg|]; [|by simplify_eq].
  destruct (launch _ _ _ _ _) as [[[]|e] ow] eqn:El.
  - apply launch_ok in El as ->. simplify_eq. destruct Hi as [Hmap Hheap Hwf Hact].
    assert (sess_heap sm !! next sm = None) as Hnh.
    { apply eq_None_not_Some. intros [s Hs]. apply Hheap in Hs as (_ & Hlt & _). lia. }
    split; simpl.
    + intros key' sid Hk. rewrite lookup_insert in Hk. case_decide; simplify_eq.
      * eexists. by rewrite lookup_insert_eq.
      * destruct (Hmap _ _ Hk) as (s & Hs & ?). exists s. rewrite lookup_insert_ne; [done|congruence].
    + intros sid s Hs. rewrite lookup_insert in Hs. case_decide; simplify_eq; simpl.
      * split_and!; [done|lia|]. eexists. rewrite !lookup_insert_eq. split_and!; [done|done|by left].
      * destruct (Hheap _ _ Hs) as (? & ? & w & Hw & Hc & Hor). split_and!; [done|lia|].
        exists w. rewrite lookup_insert_ne by done. split_and!; [done..|].
        destruct Hor as [Hk|]; [left|by right]. rewrite lookup_insert_ne; [done|]. congruence.
    + intros wid Hw. apply lookup_insert_is_Some' in Hw as [<-|Hw]; [lia|]. apply Hwf in Hw. lia.
    + rewrite map_size_insert_None by done. lia.
  - destruct ow as [w|]; simplify_eq; [|done]. destruct Hi as [Hmap Hheap Hwf Hact]. split; simpl; try done.
    + intros sid s Hs. destruct (Hheap _ _ Hs) as (? & ? & w' & Hw & Hc & Hor). split_and!; [done|lia|].
      exists w'. rewrite lookup_insert_ne by lia. done.
    + intros wid Hw. apply lookup_insert_is_Some' in Hw as [<-|Hw]; [lia|]. apply Hwf in Hw. lia.
Qed.

Lemma inv_StopManager so sm : sm_inv sm → sm_inv (StopManager so sm).
Proof.
  intros [Hmap Hheap Hwf Hact].
  assert (∀ L h, (∀ sid, sid ∈ L → ∃ s, sess_heap sm !! sid = Some s ∧ SWorkflow s = sid) →
    foldl (λ h sid, match sess_heap sm !! sid with Some s => stop_workflow s h | None => h end) h L =
    stop_all h L) as Hfold.
  { unfold stop_all. induction L as [|sid L IH]; intros h HL; [done|]. simpl.
    destruct (HL sid) as (s & Hs & Hw); [by left|]. rewrite Hs. unfold stop_workflow. rewrite Hw.
    apply IH. intros. apply HL. by right. }
  assert (∀ sid, sid ∈ (range_map so (sessions sm)).*2 ↔ ∃ k, sessions sm !! k = Some sid) as Hin.
  { intros sid. rewrite list_elem_of_fmap. split.
    - intros ([k sid'] & -> & Hk%elem_of_range_map). eauto.
    - intros [k Hk]. exists (k, sid). by rewrite elem_of_range_map. }
  unfold StopManager. rewrite Hfold.
  2:{ intros sid [k Hk]%Hin. destruct (Hmap _ _ Hk) as (s & Hs & _). exists s. split; [done|by apply Hheap]. }
  split; simpl.
  - done.
  - intros sid s Hs. destruct (Hheap sid s Hs) as (Hw & Hlt & w & Hww & Hsc & Hor).
    split_and!; [done..|]. rewrite lookup_stop_all, Hww. case_decide as Hm; simpl.
    + eexists. split; [done|]. rewrite Workflow_Stop_stopped. split; [|by right].
      intros _. by apply Workflow_Stop_cancelled.
    + exists w. split_and!; [done..|]. right. destruct Hor as [Hk|]; [|done].
      exfalso. apply Hm, Hin. eauto.
  - intros wid [w Hw]. rewrite lookup_stop_all in Hw. apply Hwf.
    case_decide; [|by eauto]. apply fmap_Some in Hw as (w' & ? & _). eauto.
  - rewrite map_size_empty. lia.
Qed.

Lemma Cleanup_expired so now sm :
  let expired := filter (λ kv, idle now sm kv.2 = true) (range_map so (sessions sm)) in
  NoDup expired.*1 ∧ ∀ k sid, (k, sid) ∈ expired ↔ sessions sm !! k = Some sid ∧ idle now sm sid = true.
Proof.
  split.
  - eapply sublist_NoDup; [apply (NoDup_fst_range_map so (sessions sm))|apply fmap_sublist, sublist_filter].
  - intros k sid. rewrite list_elem_of_filter, elem_of_range_map. simpl. tauto.
Qed.

Lemma inv_sm_step sm sm' : sm_inv sm → sm_step sm sm' → sm_inv sm'.
Proof.
  intros Hi Hs. revert Hi. destruct Hs as [m now key name props sm r sm' Hk Hc|now key sm|key sm|so now sm
    |so sm|sid s b sm Hs|wid w st sm Hw H1 H2]; intros Hi.
  - by eapply inv_CreateSession.
  - unfold LoadSession. destruct (sessions sm !! key) as [sid|]; [|done]. simpl.
    destruct (sess_heap sm !! sid) as [s|] eqn:Es; [|done]. by eapply inv_set_session.
  - unfold RemoveSession. destruct (sessions sm !! key) as [sid|] eqn:Ek; [|done].
    apply (inv_discard sm [(key, sid)] Hi); simpl; [apply NoDup_singleton|].
    intros k sid' Hin. apply list_elem_of_singleton in Hin. by simplify_eq.
  - unfold Cleanup. destruct (Cleanup_expired so now sm) as [Hnd Hin].
    apply inv_discard; [done..|]. intros k sid [? _]%Hin. done.
  - by apply inv_StopManager.
  - by eapply inv_set_session.
  - destruct Hi as [Hmap Hheap Hwf Hact]. split; simpl; try done.
    + intros sid s Hs. destruct (Hheap _ _ Hs) as (? & ? & w' & Hw' & Hc & Hor). split_and!; [done..|].
      rewrite lookup_insert. case_decide; [|eauto]. subst. simplify_eq. eexists. split; [done|].
      simpl. split; [done|]. destruct Hor; [by left|done].
    + intros wid' Hw'. apply lookup_insert_is_Some' in Hw' as [<-|?]; eauto.
Qed.

Lemma sm_reachable_inv timeout sm : rtc sm_step (NewSessionManager timeout) sm → sm_inv sm.
Proof.
  intros Hr. eapply rtc_invariant; [apply inv_sm_step|exact Hr|].
  split; simpl; [done|done| |done]. intros wid [w Hw]. by rewrite lookup_empty in Hw.
Qed.

(** C14: No workflow outlives its session: in every history of creations,
    lookups, removals, cleanups, pauses and resumes, a session that is no
    longer registered has its workflow stopped and its context cancelled, and
    the active-session gauge is the number of registered sessions. *)
Theorem no_orphan_workflow timeout sm :
  rtc sm_step (NewSessionManager timeout) sm →
  active sm = Z.of_nat (Count sm) ∧
  ∀ sid s, sess_heap sm !! sid = Some s → sessions sm !! Key s ≠ Some sid →
    wf_heap sm !! SWorkflow s = Some (mkWfRec WorkflowStateStopped true).
Proof.
  intros Hi%sm_reachable_inv. split; [apply Hi|]. intros sid s Hs Hne.
  destruct (smi_heap _ Hi sid s Hs) as (-> & _ & w & Hw & Hc & [?|Hst]); [done|].
  rewrite Hw. f_equal. destruct w; simpl in *. rewrite Hst, Hc by done. done.
Qed.

(** A cleanup at time [now] unregisters exactly the sessions that were not
    active within the timeout, whatever the iteration order of the map, and
    stops their workflows. *)
Theorem Cleanup_exact timeout sm so now :
  rtc sm_step (NewSessionManager timeout) sm →
  let sm' := Cleanup so now sm in
  (∀ key sid, sessions sm' !! key = Some sid ↔
    sessions sm !! key = Some sid ∧ ∃ s, sess_heap sm !! sid = Some s ∧
      (now - LastActive s < EngineSession.timeout sm)%Z) ∧
  (∀ key sid, sessions sm !! key = Some sid → sessions sm' !! key = None →
    wf_heap sm' !! sid = Some (mkWfRec WorkflowStateStopped true)).
Proof.
  intros Hr. pose proof (sm_reachable_inv _ _ Hr) as Hi. pose proof Hi as [Hmap Hheap _ _]. intros sm'.
  destruct (Cleanup_expired so now sm) as [Hnd Hin].
  set (expired := filter _ (range_map so (sessions sm))) in *.
  destruct (discard_all (unmap expired.*1 sm) expired.*2) as (E1 & E2 & _ & _ & E5 & _).
  { intros sid ([k sid'] & -> & [Hk _]%Hin)%list_elem_of_fmap. simpl.
    destruct (Hmap _ _ Hk) as (s & Hs & _). exists s. split; [done|]. by apply Hheap. }
  simpl in *. assert (sm' = foldl (λ sm sid, discard sid sm) (unmap expired.*1 sm) expired.*2) as Hsm' by done.
  rewrite Hsm'. clear Hsm'. split.
  - intros key sid. rewrite E1, lookup_foldr_delete_Some. split.
    + intros [Hne Hk]. split; [done|]. destruct (Hmap _ _ Hk) as (s & Hs & _). exists s. split; [done|].
      destruct (idle now sm sid) eqn:Hidle.
      * exfalso. apply Hne, list_elem_of_fmap. exists (key, sid). split; [done|]. by apply Hin.
      * unfold idle in Hidle. rewrite Hs in Hidle. by apply negb_false_iff, bool_decide_eq_true in Hidle.
    + intros (Hk & s & Hs & Hlt). split; [|done].
      intros ([k sid'] & -> & [Hk' Hidle]%Hin)%list_elem_of_fmap. simpl in Hk. simplify_eq.
      unfold idle in Hidle. rewrite Hs in Hidle. apply negb_true_iff, bool_decide_eq_false in Hidle. done.
  - intros key sid Hk Hk'. rewrite E1 in Hk'. rewrite E5, lookup_stop_all.
    destruct (Hmap _ _ Hk) as (s & Hs & _). destruct (Hheap _ _ Hs) as (_ & _ & w & Hw & Hc & _).
    rewrite decide_True.
    + rewrite Hw. simpl. f_equal. unfold Workflow_Stop. case_decide as Hst; [|done].
      destruct w; simpl in *. rewrite Hst, Hc by done. done.
    + assert (key ∈ expired.*1) as ([k sid'] & -> & Hkv)%list_elem_of_fmap.
      { destruct (decide (key ∈ expired.*1)); [done|].
        rewrite lookup_foldr_delete_not_elem_of in Hk' by done. congruence. }
      apply list_elem_of_fmap. exists (k, sid'). split; [|done]. apply Hin in Hkv as [Hkv _].
      simpl in *. congruence.
Qed.
End steps.

(** ** Observers *)
Definition observers_wf (obs : observers) : Prop := obs_count obs = length (omap id (slots obs)).

Lemma omap_id_insert (l : list (option nat)) i (fn : nat) :
  l !! i = Some None → length (omap id (<[i := Some fn]> l)) = S (length (omap id l)).
Proof.
  revert i. induction l as [|x l IH]; intros [|i] Hi; simplify_eq/=; [done|].
  destruct x; simpl; by rewrite IH.
Qed.

Lemma omap_id_remove (l : list (option nat)) i (fn : nat) :
  l !! i = Some (Some fn) → S (length (omap id (<[i := None]> l))) = length (omap id l).
Proof.
  revert i. induction l as [|x l IH]; intros [|i] Hi; simplify_eq/=; [done|].
  specialize (IH i Hi). destruct x; simpl; by rewrite <-IH.
Qed.

Lemma omap_id_full (l : list (option nat)) :
  Forall (λ s, s ≠ None) l → length (omap id l) = length l.
Proof. induction 1 as [|[x|] l Hx _ IH]; simpl; [done|f_equal; exact IH|done]. Qed.

(** Adding an observer always succeeds, in a free slot or a new one, and
    leaves the others where they are; the counter stays the number of
    registered observers, so a notification calls each of them. *)
Theorem addObserver_registers obs fn :
  observers_wf obs →
  let '(idx, obs') := addObserver obs fn in
  observers_wf obs' ∧ (0 ≤ idx)%Z ∧ slots obs' !! Z.to_nat idx = Some (Some fn) ∧
  (∀ i g, slots obs !! i = Some (Some g) → slots obs' !! i = Some (Some g)) ∧
  live_observers obs' = omap id (slots obs') ∧ observers_wf (removeObserver obs' idx).
Proof.
  intros Hwf. unfold addObserver.
  assert (∀ obs' i, observers_wf obs' → slots obs' !! i = Some (Some fn) →
    observers_wf (removeObserver obs' (Z.of_nat i))) as Hrem.
  { intros obs' i Hwf' Hi. unfold removeObserver, observers_wf in *.
    apply lookup_lt_Some in Hi as Hlt. rewrite decide_False by lia. rewrite Nat2Z.id, Hi. simpl.
    pose proof (omap_id_remove _ _ _ Hi). lia. }
  assert (∀ obs' : observers, 0 < obs_count obs' → live_observers obs' = omap id (slots obs')) as Hlive.
  { intros obs' Hpos. unfold live_observers. by rewrite decide_True. }
  unfold observers_wf in *. case_decide as Hc; simpl.
  - set (obs' := mkObs (slots obs ++ [Some fn]) (S (obs_count obs))).
    assert (observers_wf obs') as Hwf'.
    { unfold observers_wf. simpl. rewrite omap_app, length_app. simpl. lia. }
    assert (slots obs' !! length (slots obs) = Some (Some fn)) as Hi by (by apply list_lookup_middle).
    rewrite Nat2Z.id. split_and!; [done|lia|done| |apply Hlive; simpl; lia|by apply Hrem].
    intros i g Hg. simpl. by apply lookup_app_l_Some.
  - destruct (list_find _ _) as [[i x]|] eqn:E.
    + apply list_find_Some in E as (Hi & -> & _).
      set (obs' := mkObs (<[i := Some fn]> (slots obs)) (S (obs_count obs))).
      assert (observers_wf obs') as Hwf'.
      { unfold observers_wf. simpl. rewrite omap_id_insert by done. lia. }
      assert (slots obs' !! i = Some (Some fn)) as Hi'.
      { simpl. apply list_lookup_insert_eq. by eapply lookup_lt_Some. }
      rewrite Nat2Z.id. split_and!; [done|lia|done| |apply Hlive; simpl; lia|by apply Hrem].
      intros j g Hg. simpl. rewrite list_lookup_insert_ne; [done|]. congruence.
    + exfalso. apply list_find_None in E. apply Hc. rewrite Hwf. by apply omap_id_full.
Qed.

(** ** The timestamp of a new session *)
Section fresh.
Context {P : Type} `{PluginHooks P} {M : Type} `{WorkflowConfigManager M}.
Context (o : iter_order string nat) (o1 o2 : iter_order string Z).
Context (reg : option (registry P)) (merge : string → string → result string string).

(** A cleanup at the very moment a session was created removes it: its
    last activity was stored in seconds and is compared in milliseconds.  It
    takes a timeout longer than the distance between the two scales, more than
    fifty years for today's clock, to keep it. *)
Theorem fresh_session_is_evicted (m : M) now key name props sm sid sm' so :
  (timeout sm ≤ now - now `quot` 1000)%Z →
  CreateSession o o1 o2 reg merge m now key name props sm = (Ok sid, sm') →
  sessions sm' !! key = Some sid ∧ sessions (Cleanup so now sm') !! key = None.
Proof.
  intros Ht Hs. unfold CreateSession in Hs. destruct (cm_GetWithName m name) as [cfg|]; [|done].
  destruct (launch _ _ _ _ _) as [[[]|e] ow] eqn:El; [|by destruct ow]. simplify_eq. simpl.
  split; [by rewrite lookup_insert_eq|]. unfold Cleanup.
  set (sm' := mkSM _ _ _ _ _ _ _ _ _ _). set (expired := filter _ _).
  assert (∀ L s, sessions (foldl (λ sm sid, discard sid sm) s L) = sessions s) as Hd.
  { induction L as [|x L IH]; intros s; [done|]. simpl. rewrite IH. unfold discard. by case_match. }
  rewrite Hd. simpl. apply lookup_foldr_delete. apply list_elem_of_fmap. exists (key, next sm).
  split; [done|]. apply list_elem_of_filter. rewrite elem_of_range_map. simpl.
  rewrite lookup_insert_eq. split; [|done]. unfold idle. simpl. rewrite lookup_insert_eq. simpl.
  rewrite bool_decide_eq_false_2 by lia. done.
Qed.

(** When a node refuses to start, the workflow object is left stopped with
    its context alive, and stopping it again does nothing: the context and the
    scheduler workers that live on it are only released with the manager's own
    context. *)
Theorem failed_start_keeps_context (m : M) now key name props sm k e sm' :
  CreateSession o o1 o2 reg merge m now key name props sm = (Err (StartFailed k e), sm') →
  ∃ w, wf_heap sm' !! next sm = Some w ∧ w_cancelled w = false ∧ Workflow_Stop w = w ∧
    sessions sm' = sessions sm.
Proof.
  intros Hs. unfold CreateSession in Hs. destruct (cm_GetWithName m name) as [cfg|]; [|done].
  destruct (launch _ _ _ _ _) as [[[]|e'] ow] eqn:El; [done|].
  unfold launch in El. destruct (rbind _ _) as [w|e''] eqn:Eb.
  - destruct (sr_error _) as [[k' e'']|] eqn:Er; [|done]. simplify_eq. simpl.
    eexists. rewrite lookup_insert_eq. split_and!; [done..| |done].
    unfold Workflow_Stop. rewrite decide_True; [done|]. simpl.
    unfold wf_Start in *. rewrite decide_True in * by done.
    by destruct (start_nodes [] (instantiate w)) as [[ns lg] [[]|]].
  - simplify_eq. exfalso. apply rbind_err in Eb as [Eb|(? & _ & Eb)].
    { by destruct (ResolvePluginBuilders _ _ _). }
    apply rbind_err in Eb as [Eb|(? & _ & Eb)]; [by destruct (BuildGraph _ _ _ _)|].
    by destruct (NewWorkflow _ _).
Qed.
End fresh.

(** *** A concrete session *)
#[export] Instance unit_plugin : PluginHooks unit := {| OnStart u := Ok u; OnReady := id; OnStop := id |}.

Definition sample_manager : fileWorkflowConfigManager :=
  (file_Save default_order default_order default_order (Some sample_registry)
    sample_marshal true true zero_config empty_dir "u-1" sample_doc).2.

Definition sample_create (now : Z) (key : string) (sm : SessionManager) :=
  @CreateSession unit _ _ sample_FM default_order default_order default_order (Some sample_registry)
    (λ _ ov, Ok ov) sample_manager now key "greeting" ∅ sm.

Definition sample_step := @sm_step unit _ _ sample_FM default_order default_order default_order
  (Some sample_registry) (λ _ ov, Ok ov).

(** Two sessions, one of them loaded at time 1700000090000. *)
Definition sample_sm : SessionManager :=
  (LoadSession 1700000090000 "s1" (sample_create 1700000001000 "s2"
    (sample_create 1700000000000 "s1" (NewSessionManager 60000)).2).2).2.

Lemma sample_sm_reachable : rtc sample_step (NewSessionManager 60000) sample_sm.
Proof.
  eapply rtc_l; [eapply (sm_create _ _ _ _ _ sample_manager 1700000000000 "s1" "greeting" ∅); [done|
    apply surjective_pairing]|].
  eapply rtc_l; [eapply (sm_create _ _ _ _ _ sample_manager 1700000001000 "s2" "greeting" ∅); [|
    apply surjective_pairing]; vm_compute; reflexivity|].
  apply rtc_once. apply sm_load.
Qed.

Lemma no_orphan_workflow_witness :
  sessions sample_sm !! "s1" = Some 0 ∧ active sample_sm = 2%Z ∧
  active sample_sm = Z.of_nat (Count sample_sm).
Proof.
  split; [vm_compute; reflexivity|]. split; [vm_compute; reflexivity|].
  apply (no_orphan_workflow default_order default_order default_order (Some sample_registry)
    (λ _ ov, Ok ov) 60000 sample_sm sample_sm_reachable).
Defined.

Lemma Cleanup_exact_witness :
  sessions (Cleanup default_order 1700000100000 sample_sm) !! "s1" = Some 0 ∧
  wf_heap (Cleanup default_order 1700000100000 sample_sm) !! 1 = Some (mkWfRec WorkflowStateStopped true).
Proof.
  split; [vm_compute; reflexivity|].
  destruct (Cleanup_exact default_order default_order default_order (Some sample_registry)
    (λ _ ov, Ok ov) 60000 sample_sm default_order 1700000100000 sample_sm_reachable) as [_ H].
  apply (H "s2" 1); vm_compute; reflexivity.
Defined.

Lemma addObserver_registers_witness :
  (addObserver initial_observers 7).1 = 0%Z ∧ observers_wf (addObserver initial_observers 7).2.
Proof.
  split; [reflexivity|].
  exact (proj1 (addObserver_registers initial_observers 7 eq_refl)).
Defined.

Lemma fresh_session_is_evicted_witness :
  let r := sample_create 1700000000000 "s1" (NewSessionManager 60000) in
  r.1 = Ok 0 ∧ sessions (Cleanup default_order 1700000000000 r.2) !! "s1" = None.
Proof.
  intros r. assert (r.1 = Ok 0) as Hr by (vm_compute; reflexivity). split; [exact Hr|].
  apply (fresh_session_is_evicted (M := fileWorkflowConfigManager) (H0 := sample_FM)
    default_order default_order default_order (Some sample_registry) (λ _ ov, Ok ov)
    sample_manager 1700000000000 "s1" "greeting" ∅ (NewSessionManager 60000) 0 r.2 default_order).
  - vm_compute. discriminate.
  - rewrite <-Hr. apply surjective_pairing.
Defined.

(** A plugin that never starts. *)
Definition dead_hooks : PluginHooks unit := {| OnStart _ := Err "no device"; OnReady := id; OnStop := id |}.

Lemma failed_start_keeps_context_witness :
  let r := @CreateSession unit dead_hooks _ sample_FM default_order default_order default_order
             (Some sample_registry) (λ _ ov, Ok ov) sample_manager 1700000000000 "s1" "greeting" ∅
             (NewSessionManager 60000) in
  r.1 = Err (StartFailed 0 "no device") ∧
  ∃ w, wf_heap r.2 !! 0 = Some w ∧ w_cancelled w = false.
Proof.
  intros r. assert (r.1 = Err (StartFailed 0 "no device")) as Hr by (vm_compute; reflexivity).
  split; [exact Hr|].
  destruct (@failed_start_keeps_context unit dead_hooks _ sample_FM
    default_order default_order default_order (Some sample_registry) (λ _ ov, Ok ov)
    sample_manager 1700000000000 "s1" "greeting" ∅ (NewSessionManager 60000) 0 "no device" r.2)
    as (w & Hw & Hc & _).
  - rewrite <-Hr. apply surjective_pairing.
  - exists w. split; [exact Hw|exact Hc].
Defined.
