(* ===== verification/Schema.v ===== *)
(** * Schema objects: properties, signals and payloads

    [internal/schema/interface.go], [signal.go], [payload.go] and
    [helper.go].  A property set is an append-only slice of entries that is
    searched from its end; [Set] stores a snapshot of the value; an object
    that was made read-only rejects [Set], and [Mutable] hands out a copy of
    it.  The abstract view of a property set is a finite map ([view]).

    Signals and payloads live in a store of objects ([Named]), because the
    same pointer is handed to several nodes: what [ReadOnly] promises is a
    statement about every later state of the store. *)

From S2P Require Import Prelude.
From S2P Require Import GoSlice.

(** ** Values of type [any] *)

(** The dynamic types [snapshot] distinguishes; every other Go value is
    [VOther] with an identifier of its type and value. *)
Inductive int_type := Int | Int8 | Int16 | Int32 | Int64 | Uint | Uint8 | Uint16 | Uint32 | Uint64 | Uintptr.
Inductive anyv :=
| VInt (t : int_type) (z : Z)
| VBool (b : bool)
| VFloat32 (bits : Z)
| VFloat64 (bits : Z)
| VString (s : string)
| VTime (ns : Z)
| VDuration (ns : Z)
| VBytes (bs : list Z)
| VBufferPtr (bs : list Z)
| VBuffer (bs : list Z)
| VBuilderPtr (s : string)
| VBuilder (s : string)
| VRaw (bs : list Z)            (* json.RawMessage *)
| VOther (ty : string) (id : Z).

#[export] Instance int_type_eq_dec : EqDecision int_type.
Proof. solve_decision. Defined.
#[export] Instance anyv_eq_dec : EqDecision anyv.
Proof. solve_decision. Defined.

(** The errors of the package; [EPanic] is a Go panic. *)
Inductive schema_error :=
| ErrKeyNotFound
| ErrTypeMismatch
| ErrNotSerializedBytes
| ErrReadOnly
| ECodec (code : Z)
| EUnmarshalProperty (k : string) (e : schema_error)
| EPanic (message : string).

(** What [snapshot] leaves unchanged: the immutable Go values. *)
Definition immutable (v : anyv) : bool :=
  match v with
  | VInt _ _ | VBool _ | VFloat32 _ | VFloat64 _ | VString _ | VTime _ | VDuration _ => true
  | _ => false
  end.

Record entry := mkEntry { key : string; val : anyv }.
Definition nil_entry : entry := mkEntry "" (VBool false).
Record builtinProperties := mkProps { entries : slice entry; readonly : bool }.

Definition props_wf (b : builtinProperties) : Prop := slice_wf (entries b).

(** [for i := len(b.entries) - 1; i >= 0; i--]: the list is the reversed
    entries. *)
Fixpoint get_loop (k : string) (es : list entry) : option anyv :=
  match es with
  | [] => None
  | e :: es => if decide (key e = k) then Some (val e) else get_loop k es
  end.

Definition Get (b : builtinProperties) (k : string) : option anyv :=
  get_loop k (reverse (contents (entries b))).

Definition empty_props : builtinProperties := mkProps nil_slice false.

Definition Clone (b : builtinProperties) : builtinProperties :=
  if decide (len (entries b) = 0) then empty_props
  else mkProps (copy_to (make_slice nil_entry (len (entries b))) (contents (entries b))) false.

(** [copyTo] leaves the read-only flag of the destination. *)
Definition copyTo (b dst : builtinProperties) : builtinProperties :=
  mkProps (copy_to (make_room nil_entry (entries dst) (len (entries b))) (contents (entries b)))
    (readonly dst).

Definition checkReadOnly (b : builtinProperties) (message : string) : result schema_error unit :=
  if readonly b then Err (EPanic message) else Ok tt.
Definition isReadOnly (b : builtinProperties) : bool := readonly b.
Definition setReadOnly (b : builtinProperties) : builtinProperties := mkProps (entries b) true.
Definition resetReadOnly (b : builtinProperties) : builtinProperties := mkProps (entries b) false.

(** [GetAs[T]]: [as_T] is the type assertion [val.(T)]. *)
Definition GetAs {T} (zero : T) (as_T : anyv → option T) (b : builtinProperties)
    (k : string) (defaultVal : list T) : T :=
  let fallback := match defaultVal with d :: _ => d | [] => zero end in
  match Get b k with
  | None => fallback
  | Some v => match as_T v with Some t => t | None => fallback end
  end.

(** ** Operations that use the JSON codec

    [Marshal] and the two [Unmarshal] instances stand for
    [github.com/bytedance/sonic]; [grow] is the growth policy of [append]. *)
Section codec.
Context (Marshal : anyv → result schema_error (list Z)).
Context (MarshalMap : gmap string anyv → result schema_error (list Z)).
Context (UnmarshalMap : list Z → result schema_error (gmap string anyv)).
Context {D : Type} (UnmarshalInto : list Z → D → result schema_error D).
Context (grow : nat → nat → nat).
Implicit Types b : builtinProperties.

Definition snapshot (v : anyv) : result schema_error anyv :=
  match v with
  | VInt _ _ | VBool _ | VFloat32 _ | VFloat64 _ | VString _ | VTime _ | VDuration _ => Ok v
  | VBytes bs | VBufferPtr bs | VBuffer bs => Ok (VBytes bs)
  | VBuilderPtr s | VBuilder s => Ok (VString s)
  | VRaw _ | VOther _ _ => let? bs := Marshal v in Ok (VBytes bs)
  end.

Definition Set_ b (k : string) (v : anyv) : result schema_error builtinProperties :=
  if readonly b then Err ErrReadOnly
  else let? dst := snapshot v in
       Ok (mkProps (append nil_entry grow (entries b) (mkEntry k dst)) (readonly b)).

Definition Bind b (k : string) (dst : D) : result schema_error D :=
  match Get b k with
  | None => Err ErrKeyNotFound
  | Some (VBytes bs) => UnmarshalInto bs dst
  | Some _ => Err ErrNotSerializedBytes
  end.

(** What an entry's value becomes in the map handed to the encoder. *)
Definition embed (v : anyv) : anyv := match v with VBytes bs => VRaw bs | _ => v end.

Fixpoint collect_loop (es : list entry) (seen : gset string) (m : gmap string anyv)
    : gmap string anyv :=
  match es with
  | [] => m
  | e :: es => if decide (key e ∈ seen) then collect_loop es seen m
               else collect_loop es ({[key e]} ∪ seen) (<[key e := embed (val e)]> m)
  end.

Definition empty_object : list Z := [123; 125]%Z.  (* {} *)
Definition MarshalJSON b : result schema_error (list Z) :=
  if decide (len (entries b) = 0) then Ok empty_object
  else MarshalMap (collect_loop (reverse (contents (entries b))) ∅ ∅).

Definition UnmarshalJSON (o : iter_order string anyv) b (data : list Z)
    : result schema_error builtinProperties :=
  let? m := UnmarshalMap data in
  range_fold (λ b '(k, v), rmap_err (EUnmarshalProperty k) (Set_ b k v)) b (range_map o m).

(** ** The abstract view *)

(** A property set as the finite map its readers see. *)
Definition view b : gmap string anyv :=
  foldl (λ m e, <[key e := val e]> m) ∅ (contents (entries b)).

Lemma get_loop_foldl k es :
  get_loop k (reverse es) = foldl (λ m e, <[key e := val e]> m) (∅ : gmap string anyv) es !! k.
Proof.
  induction es as [|e es IH] using rev_ind; [done|].
  rewrite reverse_snoc, foldl_snoc. simpl. case_decide as Hk.
  - subst. by rewrite lookup_insert_eq.
  - by rewrite lookup_insert_ne by done.
Qed.

Lemma Get_view b k : Get b k = view b !! k.
Proof. apply get_loop_foldl. Qed.

Lemma view_entries b es : contents (entries b) = es → view b = foldl (λ m e, <[key e := val e]> m) ∅ es.
Proof. unfold view. by intros ->. Qed.

Lemma props_Clone_contents b : props_wf b → contents (entries (Clone b)) = contents (entries b).
Proof.
  intros Hwf. unfold Clone. case_decide as Hl; simpl.
  - unfold contents. by rewrite Hl.
  - apply contents_copy_to; [apply make_slice_wf|]. simpl. by rewrite length_contents.
Qed.

Lemma Clone_wf b : props_wf (Clone b).
Proof. unfold props_wf, Clone. case_decide; simpl; auto with voce. Qed.

Lemma copyTo_contents b dst :
  props_wf b → contents (entries (copyTo b dst)) = contents (entries b).
Proof.
  intros Hwf. simpl. rewrite <-(length_contents (entries b)) by done.
  apply contents_make_room_copy.
Qed.

Lemma copyTo_wf b dst : props_wf (copyTo b dst).
Proof. unfold props_wf. simpl. auto with voce. Qed.

Lemma Set_ok b k v b' :
  props_wf b → Set_ b k v = Ok b' →
  readonly b = false ∧ readonly b' = false ∧ props_wf b' ∧
  ∃ dst, snapshot v = Ok dst ∧ view b' = <[k := dst]> (view b).
Proof.
  intros Hwf. unfold Set_. destruct (readonly b) eqn:Hr; [done|].
  intros (dst & Hs & [= <-])%rbind_ok. simpl. repeat split; [|exists dst].
  - by apply append_wf.
  - split; [done|]. unfold view. simpl. rewrite contents_append by done.
    by rewrite foldl_snoc.
Qed.

Lemma embed_collect es seen m :
  dom m = seen →
  collect_loop es seen m = m ∪ (embed <$> foldl (λ m e, <[key e := val e]> m) ∅ (reverse es)).
Proof.
  revert seen m. induction es as [|e es IH]; intros seen m Hd.
  - cbn. by rewrite fmap_empty, (right_id_L ∅ (∪)).
  - cbn [collect_loop]. rewrite reverse_cons, foldl_snoc, fmap_insert. case_decide as Hk.
    + rewrite IH by done. subst seen. apply elem_of_dom in Hk as [v Hv].
      apply map_eq. intros i. rewrite !lookup_union.
      destruct (decide (i = key e)) as [->|]; [|by rewrite lookup_insert_ne].
      rewrite Hv, lookup_insert_eq. by destruct ((embed <$> _) !! key e).
    + rewrite IH by (rewrite dom_insert_L; set_solver).
      rewrite <-insert_union_l, <-insert_union_r; [done|].
      subst seen. by apply not_elem_of_dom.
Qed.

Lemma MarshalJSON_view b :
  props_wf b →
  MarshalJSON b = if decide (len (entries b) = 0) then Ok empty_object
                  else MarshalMap (embed <$> view b).
Proof.
  intros _. unfold MarshalJSON. case_decide; [done|].
  rewrite embed_collect by (by rewrite dom_empty_L).
  by rewrite reverse_involutive, (left_id_L ∅ (∪)).
Qed.

(** Setting the members of a list of pairs without repeated keys. *)
Lemma range_Set_view xs b b' :
  props_wf b → NoDup xs.*1 →
  range_fold (λ b '(k, v), rmap_err (EUnmarshalProperty k) (Set_ b k v)) b xs = Ok b' →
  props_wf b' ∧
  ∀ k, match list_to_map (M:=gmap string anyv) xs !! k with
       | Some v => ∃ dst, snapshot v = Ok dst ∧ view b' !! k = Some dst
       | None => view b' !! k = view b !! k
       end.
Proof.
  revert b. induction xs as [|[k v] xs IH]; intros b Hwf Hnd; simpl; [naive_solver|].
  inversion_clear Hnd as [|?? Hk Hnd'].
  intros (b1 & Hb1%rmap_err_ok & Hr)%rbind_ok.
  apply Set_ok in Hb1 as (_ & _ & Hwf1 & dst & Hs & Hv); [|done].
  destruct (IH b1 Hwf1 Hnd' Hr) as [Hwf' HIH]. split; [done|]. intros k'.
  specialize (HIH k'). destruct (decide (k' = k)) as [->|Hne].
  - rewrite lookup_insert_eq. rewrite not_elem_of_list_to_map_1 in HIH by done.
    exists dst. split; [done|]. by rewrite HIH, Hv, lookup_insert_eq.
  - rewrite lookup_insert_ne by done.
    destruct (list_to_map xs !! k') eqn:E; [done|].
    by rewrite HIH, Hv, lookup_insert_ne.
Qed.

(** C27: A property set implements a finite map with copy-in values.  [Get]
    reads the map; [Set] on a writable set inserts the snapshot of the value
    and on a read-only one fails without a change; [MarshalJSON] encodes
    exactly the map, byte values embedded as raw JSON; a successful
    [UnmarshalJSON] leaves the snapshot of every member of the document and
    the previous value of every other key, whatever order the runtime
    iterates the document in. *)
Theorem properties_refine_map b (o : iter_order string anyv) :
  props_wf b →
  (∀ k, Get b k = view b !! k) ∧
  (∀ k v, readonly b = true → Set_ b k v = Err ErrReadOnly) ∧
  (∀ k v dst, readonly b = false → snapshot v = Ok dst →
     ∃ b', Set_ b k v = Ok b' ∧ props_wf b' ∧ view b' = <[k := dst]> (view b)) ∧
  (len (entries b) ≠ 0 → MarshalJSON b = MarshalMap (embed <$> view b)) ∧
  (∀ data m b', UnmarshalMap data = Ok m → UnmarshalJSON o b data = Ok b' →
     ∀ k, match m !! k with
          | Some v => ∃ dst, snapshot v = Ok dst ∧ Get b' k = Some dst
          | None => Get b' k = Get b k
          end).
Proof.
  intros Hwf. split; [intros; apply Get_view|]. split; [|split; [|split]].
  - intros k v Hr. unfold Set_. by rewrite Hr.
  - intros k v dst Hr Hs.
    assert (∃ b', Set_ b k v = Ok b') as [b' Hb'].
    { unfold Set_. rewrite Hr, Hs. simpl. eauto. }
    destruct (Set_ok _ _ _ _ Hwf Hb') as (_ & _ & Hwf' & dst' & Hs' & Hv).
    rewrite Hs in Hs'. injection Hs' as <-. eauto.
  - intros Hl. rewrite MarshalJSON_view by done. by rewrite decide_False.
  - intros data m b' Hm. unfold UnmarshalJSON. rewrite Hm. simpl. intros Hr k.
    destruct (range_Set_view _ _ _ Hwf (NoDup_fst_range_map o m) Hr) as [_ Hv].
    specialize (Hv k).
    rewrite (list_to_map_proper _ (map_to_list m)), list_to_map_to_list in Hv;
      [|apply NoDup_fst_range_map|apply range_map_perm].
    destruct (m !! k); [|by rewrite !Get_view]. destruct Hv as (dst & ? & ?).
    exists dst. by rewrite Get_view.
Qed.
End codec.

(** ** A concrete codec, for evaluation: it encodes a value as one byte and
    decodes every document as the same object. *)
Definition demo_Marshal (v : anyv) : result schema_error (list Z) := Ok [42%Z].
Definition demo_MarshalMap (m : gmap string anyv) : result schema_error (list Z) :=
  Ok [Z.of_nat (size m)].
Definition demo_UnmarshalMap (data : list Z) : result schema_error (gmap string anyv) :=
  Ok {["text" := VString "hi"; "n" := VFloat64 7]}.
Definition demo_grow (old need : nat) : nat := 2 * old.

Definition demo_props : builtinProperties :=
  mkProps (mkSlice [mkEntry "text" (VString "old"); mkEntry "id" (VBytes [1; 2]%Z);
                    mkEntry "text" (VString "new"); nil_entry] 3) false.

Lemma properties_refine_map_witness :
  Get demo_props "text" = Some (VString "new") ∧
  ∃ b', UnmarshalJSON demo_Marshal demo_UnmarshalMap demo_grow default_order demo_props [] = Ok b' ∧
    Get b' "text" = Some (VString "hi") ∧ Get b' "id" = Some (VBytes [1; 2]%Z).
Proof.
  assert (props_wf demo_props) as Hwf by (unfold props_wf, slice_wf; vm_compute; lia).
  destruct (properties_refine_map demo_Marshal demo_MarshalMap demo_UnmarshalMap demo_grow
    demo_props default_order Hwf) as (_ & _ & _ & _ & HU).
  split; [reflexivity|].
  destruct (UnmarshalJSON demo_Marshal demo_UnmarshalMap demo_grow default_order demo_props [])
    as [b'|] eqn:E; [|exfalso; vm_compute in E; discriminate].
  exists b'. split; [done|]. split.
  - destruct (HU [] _ b' eq_refl E "text") as (dst & [= <-] & ->). reflexivity.
  - rewrite (HU [] _ b' eq_refl E "id"). reflexivity.
Defined.

(** ** Signals and payloads

    [signal.go] and [payload.go] differ in their names only.  [UnmarshalJSON]
    and [Pack] reach an object through [Set], one call per member. *)
Module Named.
Inductive kind := KSignal | KPayload.
Record object := mkObject { obj_kind : kind; props : builtinProperties; name : string }.

#[export] Instance kind_eq_dec : EqDecision kind.
Proof. solve_decision. Defined.

Definition object_wf (o : object) : Prop := props_wf (props o).
Definition store_wf (st : gmap nat object) : Prop := map_Forall (λ _, object_wf) st.

Definition alloc (st : gmap nat object) (o : object) : gmap nat object * nat :=
  let i := fresh (dom st) in (<[i := o]> st, i).
Definition NewSignal (st : gmap nat object) (n : string) : gmap nat object * nat :=
  alloc st (mkObject KSignal empty_props n).
Definition NewPayload (st : gmap nat object) (n : string) : gmap nat object * nat :=
  alloc st (mkObject KPayload empty_props n).

(** [Mutable]: the object itself while it is writable, a clone afterwards. *)
Definition Mutable (st : gmap nat object) (i : nat) : option (gmap nat object * nat) :=
  b ← st !! i;
  Some (if isReadOnly (props b)
        then alloc st (mkObject (obj_kind b) (Clone (props b)) (name b))
        else (st, i)).

Definition ReadOnly (st : gmap nat object) (i : nat) : option (gmap nat object * nat) :=
  b ← st !! i;
  Some (<[i := mkObject (obj_kind b) (setReadOnly (props b)) (name b)]> st, i).

Section ops.
Context (Marshal : anyv → result schema_error (list Z)) (grow : nat → nat → nat).

Definition Set_object (st : gmap nat object) (i : nat) (k : string) (v : anyv)
    : option (result schema_error (gmap nat object)) :=
  b ← st !! i;
  Some (let? p := Set_ Marshal grow (props b) k v in
        Ok (<[i := mkObject (obj_kind b) p (name b)]> st)).

(** One call of the interface, by any holder of the pointer. *)
Inductive call := CNewSignal (n : string) | CNewPayload (n : string)
  | CMutable (i : nat) | CReadOnly (i : nat) | CSet (i : nat) (k : string) (v : anyv).

(** The store after a call, and the pointer it returned; a call on a pointer
    that was never handed out does not happen. *)
Definition exec (st : gmap nat object) (c : call) : gmap nat object * option nat :=
  match c with
  | CNewSignal n => let '(st', i) := NewSignal st n in (st', Some i)
  | CNewPayload n => let '(st', i) := NewPayload st n in (st', Some i)
  | CMutable i => match Mutable st i with Some (st', j) => (st', Some j) | None => (st, None) end
  | CReadOnly i => match ReadOnly st i with Some (st', j) => (st', Some j) | None => (st, None) end
  | CSet i k v => match Set_object st i k v with
                  | Some (Ok st') => (st', None)
                  | _ => (st, None)
                  end
  end.

Definition run (st : gmap nat object) (cs : list call) : gmap nat object := foldl (λ st c, (exec st c).1) st cs.

Lemma alloc_other st o i b : st !! i = Some b → (alloc st o).1 !! i = Some b.
Proof.
  intros Hi. simpl. rewrite lookup_insert_ne; [done|]. intros <-.
  apply (is_fresh (dom st)), elem_of_dom. eauto.
Qed.

Lemma alloc_wf st o : store_wf st → object_wf o → store_wf (alloc st o).1.
Proof. intros. by apply map_Forall_insert_2. Qed.

Lemma exec_wf st c : store_wf st → store_wf (exec st c).1.
Proof.
  intros Hwf. destruct c as [n|n|i|i|i k v]; cbn.
  1,2: apply (alloc_wf st); [done|exact (@nil_slice_wf entry)].
  - unfold Mutable. destruct (st !! i) as [b|] eqn:Hi; cbn; [|done].
    destruct (isReadOnly (props b)); cbn; [|done].
    apply (alloc_wf st); [done|apply Clone_wf].
  - unfold ReadOnly. destruct (st !! i) as [b|] eqn:Hi; cbn; [|done].
    apply map_Forall_insert_2; [|done]. exact (Hwf i b Hi).
  - unfold Set_object. destruct (st !! i) as [b|] eqn:Hi; cbn; [|done].
    destruct (Set_ Marshal grow (props b) k v) as [p|] eqn:Hs; cbn; [|done].
    apply map_Forall_insert_2; [|done].
    by destruct (Set_ok _ _ _ _ _ _ (Hwf i b Hi) Hs) as (_ & _ & ? & _).
Qed.

(** No call changes a read-only object. *)
Lemma exec_frozen st c i b :
  st !! i = Some b → readonly (props b) = true → (exec st c).1 !! i = Some b.
Proof.
  intros Hi Hr. destruct c as [n|n|j|j|j k v]; cbn.
  1,2: by apply (alloc_other st).
  - unfold Mutable. destruct (st !! j) as [b'|] eqn:Hj; cbn; [|done].
    destruct (isReadOnly (props b')); cbn; [|done]. by apply (alloc_other st).
  - unfold ReadOnly. destruct (st !! j) as [b'|] eqn:Hj; cbn; [|done].
    destruct (decide (i = j)) as [->|]; [|by rewrite lookup_insert_ne].
    simplify_eq. rewrite lookup_insert_eq. destruct b as [? [? r] ?]. simpl in Hr. by subst.
  - unfold Set_object. destruct (st !! j) as [b'|] eqn:Hj; cbn; [|done].
    destruct (Set_ Marshal grow (props b') k v) as [p|] eqn:Hs; cbn; [|done].
    destruct (decide (i = j)) as [->|]; [|by rewrite lookup_insert_ne].
    simplify_eq. unfold Set_ in Hs. by rewrite Hr in Hs.
Qed.

Lemma run_wf cs st : store_wf st → store_wf (run st cs).
Proof. revert st. induction cs as [|c cs IH]; intros st; simpl; auto using exec_wf. Qed.

Lemma run_frozen cs st i b :
  st !! i = Some b → readonly (props b) = true → run st cs !! i = Some b.
Proof. revert st. induction cs as [|c cs IH]; intros st; simpl; auto using exec_frozen. Qed.

(** Isolation of shared signals and payloads.  Once an object is
    read-only, no sequence of calls by any holder of any pointer changes
    what its readers see; [Mutable] on it returns a new pointer to a
    writable object with the same name and properties, and a [Set] through
    that pointer takes effect there and leaves the original as it was. *)
Theorem readonly_is_isolated st cs i b :
  store_wf st → st !! i = Some b → readonly (props b) = true →
  run st cs !! i = Some b ∧
  ∃ st' j c, Mutable (run st cs) i = Some (st', j) ∧ j ≠ i ∧ run st cs !! j = None ∧
    st' !! j = Some c ∧ name c = name b ∧ obj_kind c = obj_kind b ∧
    readonly (props c) = false ∧ (∀ k, Get (props c) k = Get (props b) k) ∧
    ∀ k v dst, snapshot Marshal v = Ok dst →
      ∃ st'' c', Set_object st' j k v = Some (Ok st'') ∧ st'' !! i = Some b ∧
        st'' !! j = Some c' ∧ Get (props c') k = Some dst ∧
        ∀ k', k' ≠ k → Get (props c') k' = Get (props b) k'.
Proof.
  intros Hwf Hi Hr. pose proof (run_frozen cs _ _ _ Hi Hr) as Hi'.
  pose proof (run_wf cs _ Hwf) as Hwf'. split; [done|].
  set (s := run st cs) in *. set (j := fresh (dom s)).
  assert (s !! j = None) as Hj by (apply not_elem_of_dom, is_fresh).
  assert (j ≠ i) as Hne by congruence.
  set (c := mkObject (obj_kind b) (Clone (props b)) (name b)).
  assert (readonly (Clone (props b)) = false) as Hc by (unfold Clone; by case_decide).
  assert (∀ k, Get (Clone (props b)) k = Get (props b) k) as Hg.
  { intros k. unfold Get. rewrite props_Clone_contents; [done|]. exact (Hwf' i b Hi'). }
  exists (<[j := c]> s), j, c. split.
  { unfold Mutable. rewrite Hi'. cbn. unfold isReadOnly. by rewrite Hr. }
  rewrite lookup_insert_eq. repeat (split; [done|]).
  intros k v dst Hs.
  assert (∃ p, Set_ Marshal grow (props c) k v = Ok p) as [p Hp].
  { unfold Set_. simpl. rewrite Hc, Hs. simpl. eauto. }
  destruct (Set_ok _ _ _ _ _ _ (Clone_wf (props b)) Hp) as (_ & _ & _ & dst' & Hs' & Hv).
  rewrite Hs in Hs'. injection Hs' as <-.
  eexists _, _. split; [unfold Set_object; rewrite lookup_insert_eq; cbn [mbind option_bind]; rewrite Hp; reflexivity|].
  rewrite !lookup_insert_eq, !(lookup_insert_ne _ j i) by done.
  split; [done|]. split; [reflexivity|]. simpl.
  rewrite Get_view, Hv, lookup_insert_eq. split; [done|].
  intros k' Hk. rewrite Get_view, Hv, lookup_insert_ne, <-Get_view by done. apply Hg.
Qed.
End ops.

Lemma readonly_is_isolated_witness :
  ∃ st b, st !! 0 = Some b ∧ Get (props b) "text" = Some (VString "hi") ∧
    run demo_Marshal demo_grow st [CSet 0 "text" (VString "x"); CMutable 0; CSet 1 "text" (VString "y")] !! 0
      = Some b.
Proof.
  set (st := run demo_Marshal demo_grow ∅
    [CNewPayload "asr_result"; CSet 0 "text" (VString "hi"); CReadOnly 0]).
  destruct (st !! 0) as [b|] eqn:E; [|exfalso; vm_compute in E; discriminate].
  exists st, b. split; [done|]. split; [vm_compute in E; injection E as <-; reflexivity|].
  apply (readonly_is_isolated demo_Marshal demo_grow st); [|done|vm_compute in E; injection E as <-; reflexivity].
  apply run_wf. done.
Defined.
End Named.
