(* ===== verification/Media.v ===== *)
(** * Reference-counted media objects and their pools

    [internal/schema/audio.go] and [video.go].  Both object types follow one
    protocol: a constructor takes an object from a [sync.Pool] and overwrites
    its fields, holders [Retain] and [Release] it, the last [Release]
    recycles it into a pool, [ReadOnly] freezes it and [Mutable] copies a
    frozen object.  The protocol is the interface [PooledMedia]; its theorems
    are proved once against the laws [PooledMediaLaws], which modules [Audio]
    and [Video] discharge from the code of the two files.

    Objects are pointers into a heap, since the same object is in several
    queues at once.  A caller is assumed to hold a reference to the object it
    uses ([legal]); module [Runtime] proves that of the engine. *)

From stdpp Require Import functions.
From S2P Require Import Prelude.
From S2P Require Import GoSlice.
From S2P Require Import Schema.

Open Scope Z_scope.

(** ** The interface

    [V] is the object, [C] names its pools. *)
Class PooledMedia (V C : Type) := {
  count : V → Z;                              (* the atomic counter *)
  set_count : Z → V → V;
  frozen : V → bool;                          (* the read-only flag *)
  factory : C → V;                            (* what the pool creates *)
  Recycle : V → V;
  classify : V → C;                           (* the pool Release chooses *)
  ctor : Type;                                (* constructor calls *)
  ctor_class : ctor → C;
  ctor_init : ctor → V → V;                   (* its field writes *)
  setter : Type;                              (* setter calls *)
  apply : setter → V → result schema_error V;
  copy_into : V → V → result schema_error V;  (* field writes of Mutable *)
  shown : Type;
  visible : V → shown;                        (* what the readers see *)
  media_wf : V → Prop;
  clean : V → Prop;                           (* the state of a pooled object *)
}.

Class PooledMediaLaws (V C : Type) `{!PooledMedia V C} := {
  count_set_count n v : count (set_count n v) = n;
  frozen_set_count n v : frozen (set_count n v) = frozen v;
  classify_set_count n v : classify (set_count n v) = classify v;
  visible_set_count n v : visible (set_count n v) = visible v;
  wf_set_count n v : media_wf v → media_wf (set_count n v);
  clean_facts v : clean v → media_wf v ∧ count v = 0 ∧ frozen v = false;
  clean_factory c : clean (factory c);
  clean_Recycle v : media_wf v → clean (Recycle v);
  ctor_facts k v : clean v →
    media_wf (ctor_init k v) ∧ count (ctor_init k v) = 1 ∧
    classify (ctor_init k v) = ctor_class k ∧ frozen (ctor_init k v) = false;
  apply_facts s v v' : media_wf v → apply s v = Ok v' →
    media_wf v' ∧ count v' = count v ∧ classify v' = classify v ∧
    (frozen v = true → frozen v' = true ∧ visible v' = visible v);
  copy_facts v d : media_wf v → clean d →
    ∃ d', copy_into v d = Ok d' ∧ media_wf d' ∧ count d' = 1 ∧
          classify d' = classify v ∧ frozen d' = false ∧ visible d' = visible v;
}.

(** ** The pools and the heap *)
Section machine.
Context {V C : Type} `{!EqDecision C, !PooledMedia V C}.

Record world := mkWorld {
  heap : gmap nat V;
  pools : C → list nat;        (* the pointers a sync.Pool holds *)
  active : C → Z;              (* the up-down counters of metrics.go *)
}.

Definition empty_world : world := mkWorld ∅ (λ _, []) (λ _, 0).

Definition set_heap (w : world) (h : gmap nat V) : world := mkWorld h (pools w) (active w).

Definition acquire (c : C) (pick : option nat) (w : world) : world * nat :=
  let '(i, p) := TypedPool.Acquire (fresh (dom (heap w))) pick (pools w c) in
  (mkWorld (match heap w !! i with
            | Some _ => heap w
            | None => <[i := factory c]> (heap w)
            end)
     (<[c := p]> (pools w)) (<[c := active w c + 1]> (active w)), i).

Definition construct (k : ctor) (pick : option nat) (w : world) : world * nat :=
  let '(w, i) := acquire (ctor_class k) pick w in
  (set_heap w (alter (ctor_init k) i (heap w)), i).

Definition Retain (i : nat) (w : world) : world :=
  set_heap w (alter (λ v, set_count (int32 (count v + 1)) v) i (heap w)).

Definition Release (i : nat) (w : world) : world :=
  match heap w !! i with
  | None => w
  | Some v =>
    let v := set_count (int32 (count v - 1)) v in
    if decide (0 < count v) then set_heap w (<[i := v]> (heap w))
    else let c := classify v in
         mkWorld (<[i := Recycle v]> (heap w)) (<[c := i :: pools w c]> (pools w))
           (<[c := active w c - 1]> (active w))
  end.

Definition mutate (s : setter) (i : nat) (w : world) : result schema_error world :=
  match heap w !! i with
  | None => Ok w
  | Some v => let? v := apply s v in Ok (set_heap w (<[i := v]> (heap w)))
  end.

(** [Mutable]: the object itself, or a copy of it in an object of its own
    size class. *)
Definition Mutable (i : nat) (pick : option nat) (w : world) : result schema_error (world * nat) :=
  match heap w !! i with
  | None => Ok (w, i)
  | Some v =>
    if frozen v then
      let '(w, j) := acquire (classify v) pick w in
      match heap w !! j with
      | None => Ok (w, j)
      | Some d => let? d := copy_into v d in Ok (set_heap w (<[j := d]> (heap w)), j)
      end
    else Ok (w, i)
  end.

(** ** Histories *)
Definition live (w : world) (i : nat) : Prop := ∃ v, heap w !! i = Some v ∧ 0 < count v.

Inductive step : world → world → Prop :=
| step_new k pick w : step w (construct k pick w).1
| step_retain i v w : heap w !! i = Some v → 0 < count v < 2 ^ 31 - 1 → step w (Retain i w)
| step_release i w : live w i → step w (Release i w)
| step_set s i w w' : live w i → mutate s i w = Ok w' → step w w'
| step_mutable i pick w w' j : live w i → Mutable i pick w = Ok (w', j) → step w w'
(* the collector empties a pool *)
| step_gc c p w : p `sublist_of` pools w c →
    step w (mkWorld (heap w) (<[c := p]> (pools w)) (active w)).

Definition is_live (c : C) (v : V) : bool := bool_decide (0 < count v ∧ classify v = c).
(** The objects in use of one size class. *)
Definition n_live (c : C) (h : gmap nat V) : Z :=
  Z.of_nat (size (filter (λ iv, is_live c iv.2 = true) h)).

Record world_ok (w : world) : Prop := {
  ok_wf i v : heap w !! i = Some v → media_wf v;
  ok_count i v : heap w !! i = Some v → 0 ≤ count v < 2 ^ 31;
  ok_nodup c : NoDup (pools w c);
  ok_pooled c i : i ∈ pools w c → ∃ v, heap w !! i = Some v ∧ count v = 0 ∧ clean v;
  ok_single c1 c2 i : i ∈ pools w c1 → i ∈ pools w c2 → c1 = c2;
  ok_active c : active w c = n_live c (heap w);
}.

(** *** Counting *)
Lemma n_live_insert c h i v :
  n_live c (<[i := v]> h) =
    n_live c (delete i h) + (if is_live c v then 1 else 0).
Proof.
  rewrite <-insert_delete_eq. unfold n_live.
  assert (delete i h !! i = None) as Hi by apply lookup_delete_eq.
  destruct (is_live c v) eqn:E.
  - rewrite map_filter_insert_True by done. rewrite map_size_insert_None; [lia|].
    apply map_lookup_filter_None. eauto.
  - rewrite map_filter_insert_False by (simpl; congruence).
    rewrite delete_id by done. lia.
Qed.

Lemma n_live_lookup c h i v :
  h !! i = Some v → n_live c h = n_live c (delete i h) + (if is_live c v then 1 else 0).
Proof. intros Hi. rewrite <-(insert_id h i v) at 1 by done. apply n_live_insert. Qed.

Lemma n_live_update c h i v v' :
  h !! i = Some v →
  n_live c (<[i := v']> h) =
    n_live c h - (if is_live c v then 1 else 0) + (if is_live c v' then 1 else 0).
Proof. intros Hi. rewrite n_live_insert, (n_live_lookup c h i v Hi). lia. Qed.

Lemma is_live_dead c v : count v = 0 → is_live c v = false.
Proof. intros Hc. apply bool_decide_eq_false. lia. Qed.

Lemma is_live_same c v v' :
  0 < count v → 0 < count v' → classify v' = classify v → is_live c v' = is_live c v.
Proof.
  intros ?? Hc. unfold is_live. rewrite Hc. apply bool_decide_ext. naive_solver.
Qed.

Context `{!PooledMediaLaws V C}.

(** *** The invariant *)
Lemma empty_world_ok : world_ok empty_world.
Proof.
  split; simpl; try set_solver; constructor.
Qed.

(** Changing a live object that stays live keeps the invariant. *)
Lemma update_live_ok w i v v' :
  world_ok w → heap w !! i = Some v → 0 < count v → media_wf v' →
  0 < count v' < 2 ^ 31 → classify v' = classify v →
  world_ok (set_heap w (<[i := v']> (heap w))).
Proof.
  intros [Hwf Hcnt Hnd Hp Hs Ha] Hi Hv Hwf' Hv' Hc. split; simpl; auto.
  - intros j u. rewrite lookup_insert_Some. naive_solver.
  - intros j u. rewrite lookup_insert_Some. intros [[<- <-]|[_ ?]]; [lia|eauto].
  - intros c j Hj. destruct (Hp c j Hj) as (u & Hu & ?).
    rewrite lookup_insert_ne; [eauto|]. intros <-. simplify_eq. lia.
  - intros c. rewrite Ha, (n_live_update _ _ _ _ _ Hi), (is_live_same c v v') by (done || lia). lia.
Qed.

(** What [acquire] hands out: a clean object that nobody holds. *)
Lemma acquire_facts w c pick w1 i :
  world_ok w → acquire c pick w = (w1, i) →
  (∀ v, heap w !! i = Some v → count v = 0) ∧
  (∃ v, heap w1 !! i = Some v ∧ clean v) ∧
  (∀ c', n_live c' (heap w1) = n_live c' (heap w)) ∧
  (∀ j, j ≠ i → heap w1 !! j = heap w !! j) ∧
  (∀ c', NoDup (pools w1 c') ∧ (∀ j, j ∈ pools w1 c' → j ∈ pools w c' ∧ j ≠ i)) ∧
  active w1 = <[c := active w c + 1]> (active w).
Proof.
  intros Hok. unfold acquire, TypedPool.Acquire.
  assert (∀ c', fresh (dom (heap w)) ∉ pools w c') as Hfresh.
  { intros c' (v & Hv & _)%(ok_pooled _ Hok). apply (is_fresh (dom (heap w))), elem_of_dom. eauto. }
  assert (heap w !! fresh (dom (heap w)) = None) as Hnone by apply not_elem_of_dom, is_fresh.
  assert (∀ c', n_live c' (<[fresh (dom (heap w)) := factory c]> (heap w)) = n_live c' (heap w)) as Hn.
  { intros c'. rewrite n_live_insert, delete_id by done. rewrite is_live_dead; [lia|].
    apply clean_facts, clean_factory. }
  destruct (pick ≫= λ n, pools w c !! n) as [n|] eqn:E.
  - apply bind_Some in E as (k & -> & E). rewrite E. intros [= <- <-]. simpl.
    assert (n ∈ pools w c) as Hin by (by eapply list_elem_of_lookup_2).
    destruct (ok_pooled _ Hok c n Hin) as (v & Hv & Hc & Hcl). rewrite Hv.
    split; [naive_solver|]. split; [by exists v|]. split; [done|]. split; [done|]. split; [|done].
    intros c'. destruct (decide (c' = c)) as [->|Hne].
    + rewrite fn_lookup_insert. pose proof (ok_nodup _ Hok c) as Hnd.
      rewrite <-(take_drop_middle _ _ _ E) in Hnd. rewrite delete_take_drop.
      apply NoDup_app in Hnd as (? & Hx & ?). apply NoDup_cons in H0 as [? ?].
      split; [apply NoDup_app; set_solver|]. intros j Hj.
      split; [rewrite <-(take_drop_middle _ _ _ E); set_solver|]. set_solver.
    + rewrite fn_lookup_insert_ne by done. split; [apply (ok_nodup _ Hok)|].
      intros j Hj. split; [done|]. intros ->. by pose proof (ok_single _ Hok c' c n Hj Hin).
  - assert ((match pick with
             | Some i => match pools w c !! i with
                         | Some v => (v, delete i (pools w c))
                         | None => (fresh (dom (heap w)), pools w c)
                         end
             | None => (fresh (dom (heap w)), pools w c)
             end) = (fresh (dom (heap w)), pools w c)) as ->.
    { destruct pick as [n|]; simpl in *; [by rewrite E|done]. }
    intros [= <- <-]. simpl. rewrite Hnone. split; [done|]. split; [|split; [done|split; [|split; [|done]]]].
    + eexists. rewrite lookup_insert_eq. split; [done|]. apply clean_factory.
    + intros j Hj. by rewrite lookup_insert_ne.
    + intros c'. destruct (decide (c' = c)) as [->|Hne];
        [rewrite fn_lookup_insert|rewrite fn_lookup_insert_ne by done];
        (split; [apply (ok_nodup _ Hok)|]; intros j Hj; split; [done|]; intros ->; by eapply Hfresh).
Qed.

(** Filling the acquired object makes it the only new live one. *)
Lemma fill_ok w c pick w1 i v' :
  world_ok w → acquire c pick w = (w1, i) →
  media_wf v' → count v' = 1 → classify v' = c →
  world_ok (set_heap w1 (<[i := v']> (heap w1))).
Proof.
  intros Hok Hacq Hwf' Hc' Hcl'.
  destruct (acquire_facts _ _ _ _ _ Hok Hacq) as (_ & (v & Hv & Hclean) & Hn & Hother & Hpool & Hact).
  destruct (clean_facts v Hclean) as (_ & Hc0 & _).
  split; simpl.
  - intros j u. rewrite lookup_insert_Some. intros [[<- <-]|[Hne Hu]]; [done|].
    rewrite Hother in Hu by done. by eapply (ok_wf _ Hok).
  - intros j u. rewrite lookup_insert_Some. intros [[<- <-]|[Hne Hu]]; [lia|].
    rewrite Hother in Hu by done. by eapply (ok_count _ Hok).
  - intros c'. apply Hpool.
  - intros c' j [Hj Hne]%Hpool. rewrite lookup_insert_ne, Hother by done.
    by eapply (ok_pooled _ Hok).
  - intros c1 c2 j [H1 _]%Hpool [H2 _]%Hpool. by eapply (ok_single _ Hok).
  - intros c'. rewrite Hact, (n_live_update _ _ _ _ _ Hv), Hn, (is_live_dead c' v) by done.
    unfold is_live. rewrite Hc', Hcl'. destruct (decide (c' = c)) as [->|Hne].
    + rewrite fn_lookup_insert, (ok_active _ Hok), bool_decide_true by (split; [lia|done]). lia.
    + rewrite fn_lookup_insert_ne by done.
      rewrite (ok_active _ Hok), bool_decide_false by naive_solver. lia.
Qed.

Lemma construct_facts w k pick w1 i :
  world_ok w → construct k pick w = (w1, i) →
  world_ok w1 ∧ (∀ v, heap w !! i = Some v → count v = 0) ∧
  (∃ v, clean v ∧ heap w1 !! i = Some (ctor_init k v)) ∧
  (∀ j, j ≠ i → heap w1 !! j = heap w !! j).
Proof.
  intros Hok. unfold construct. destruct (acquire _ _ _) as [w0 i0] eqn:Hacq. intros [= <- <-].
  destruct (acquire_facts _ _ _ _ _ Hok Hacq) as (Hdead & (v & Hv & Hclean) & _ & Hother & _).
  destruct (ctor_facts k v Hclean) as (? & ? & ? & ?).
  assert (alter (ctor_init k) i0 (heap w0) = <[i0 := ctor_init k v]> (heap w0)) as ->.
  { apply map_eq. intros j. rewrite lookup_insert. case_decide as Hj; subst.
    - by rewrite lookup_alter_eq, Hv.
    - by rewrite lookup_alter_ne. }
  split; [by eapply fill_ok|]. split; [done|]. split.
  - exists v. simpl. by rewrite lookup_insert_eq.
  - intros j Hj. simpl. rewrite lookup_insert_ne by done. by apply Hother.
Qed.

Lemma Mutable_facts w i v pick w1 j :
  world_ok w → heap w !! i = Some v → 0 < count v → frozen v = true →
  Mutable i pick w = Ok (w1, j) →
  world_ok w1 ∧ (∀ u, heap w !! j = Some u → count u = 0) ∧
  (∃ d, heap w1 !! j = Some d ∧ count d = 1 ∧ frozen d = false ∧ visible d = visible v) ∧
  (∀ j', j' ≠ j → heap w1 !! j' = heap w !! j').
Proof.
  intros Hok Hi Hcnt Hf. unfold Mutable. rewrite Hi, Hf.
  destruct (acquire _ _ _) as [w0 j0] eqn:Hacq.
  destruct (acquire_facts _ _ _ _ _ Hok Hacq) as (Hdead & (d & Hd & Hclean) & _ & Hother & _).
  rewrite Hd. destruct (copy_facts v d (ok_wf _ Hok _ _ Hi) Hclean) as (d' & -> & ? & ? & ? & ? & ?).
  intros [= <- <-]. split; [by eapply fill_ok|]. split; [done|]. split.
  - exists d'. simpl. by rewrite lookup_insert_eq.
  - intros j' Hj. simpl. rewrite lookup_insert_ne by done. by apply Hother.
Qed.

Lemma Mutable_returns w i v pick :
  world_ok w → heap w !! i = Some v → ∃ w1 j, Mutable i pick w = Ok (w1, j).
Proof.
  intros Hok Hi. unfold Mutable. rewrite Hi. destruct (frozen v); [|eauto].
  destruct (acquire _ _ _) as [w0 j0] eqn:Hacq.
  destruct (acquire_facts _ _ _ _ _ Hok Hacq) as (_ & (d & Hd & Hclean) & _).
  rewrite Hd. destruct (copy_facts v d (ok_wf _ Hok _ _ Hi) Hclean) as (d' & -> & _).
  simpl. eauto.
Qed.

Lemma Retain_ok w i v :
  world_ok w → heap w !! i = Some v → 0 < count v < 2 ^ 31 - 1 →
  Retain i w = set_heap w (<[i := set_count (count v + 1) v]> (heap w)) ∧ world_ok (Retain i w).
Proof.
  intros Hok Hi Hc.
  assert (Retain i w = set_heap w (<[i := set_count (count v + 1) v]> (heap w))) as ->.
  { unfold Retain. f_equal. apply map_eq. intros j. rewrite lookup_insert.
    case_decide as Hj; subst; [|by rewrite lookup_alter_ne].
    rewrite lookup_alter_eq, Hi. simpl. by rewrite int32_small by lia. }
  split; [done|]. eapply update_live_ok; [done..|lia| | |].
  - apply wf_set_count. by eapply (ok_wf _ Hok).
  - rewrite count_set_count. lia.
  - apply classify_set_count.
Qed.

(** [Release] of a shared reference, and of the last one. *)
Lemma Release_ok w i v :
  world_ok w → heap w !! i = Some v → 0 < count v →
  world_ok (Release i w) ∧ (∀ j, j ≠ i → heap (Release i w) !! j = heap w !! j) ∧
  (1 < count v → heap (Release i w) !! i = Some (set_count (count v - 1) v)) ∧
  (count v = 1 → ∃ u, heap (Release i w) !! i = Some u ∧ clean u ∧
     i ∈ pools (Release i w) (classify v)).
Proof.
  intros Hok Hi Hc. pose proof (ok_count _ Hok _ _ Hi).
  unfold Release. rewrite Hi. rewrite !count_set_count, int32_small by lia.
  case_decide as Hp; simpl.
  - split.
    { eapply update_live_ok; [done..| | |].
      - apply wf_set_count. by eapply (ok_wf _ Hok).
      - rewrite count_set_count. lia.
      - apply classify_set_count. }
    split; [intros j Hj; by rewrite lookup_insert_ne|]. rewrite lookup_insert_eq.
    split; [done|lia].
  - set (r := Recycle _). rewrite classify_set_count. set (c := classify v).
    assert (clean r) as Hclean.
    { apply clean_Recycle, wf_set_count. by eapply (ok_wf _ Hok). }
    destruct (clean_facts r Hclean) as (Hwfr & Hr0 & _).
    assert (∀ c', i ∉ pools w c') as Hnot.
    { intros c' (u & Hu & Hu0 & _)%(ok_pooled _ Hok). simplify_eq. lia. }
    split; [|split; [intros j Hj; by rewrite lookup_insert_ne|split; [lia|]]].
    2:{ intros _. exists r. rewrite lookup_insert_eq. split; [done|]. split; [done|].
        rewrite fn_lookup_insert. set_solver. }
    assert (∀ c' j, j ∈ (<[c := i :: pools w c]> (pools w)) c' →
              j = i ∧ c' = c ∨ j ∈ pools w c' ∧ j ≠ i) as Hin.
    { intros c' j. destruct (decide (c' = c)) as [->|];
        [rewrite fn_lookup_insert|rewrite fn_lookup_insert_ne by done].
      - rewrite elem_of_cons. intros [->|Hj]; [by left|]. right. split; [done|].
        intros ->. by eapply Hnot.
      - intros Hj. right. split; [done|]. intros ->. by eapply Hnot. }
    split; simpl.
    + intros j u. rewrite lookup_insert_Some. intros [[<- <-]|[? ?]]; [done|]. by eapply (ok_wf _ Hok).
    + intros j u. rewrite lookup_insert_Some.
      intros [[<- <-]|[? ?]]; [lia|]. by eapply (ok_count _ Hok).
    + intros c'. destruct (decide (c' = c)) as [->|];
        [rewrite fn_lookup_insert|rewrite fn_lookup_insert_ne by done]; [|by apply (ok_nodup _ Hok)].
      apply NoDup_cons. split; [apply Hnot|by apply (ok_nodup _ Hok)].
    + intros c' j [[-> ->]|[Hj Hne]]%Hin; [rewrite lookup_insert_eq; eauto|].
      rewrite lookup_insert_ne by done. by eapply (ok_pooled _ Hok).
    + intros c1 c2 j [[-> ->]|[H1 ?]]%Hin [[? ->]|[H2 ?]]%Hin; try done. by eapply (ok_single _ Hok).
    + intros c'. rewrite (n_live_update _ _ _ _ _ Hi), (is_live_dead c' r) by done.
      unfold is_live. destruct (decide (c' = c)) as [->|];
        [rewrite fn_lookup_insert, bool_decide_true|
         rewrite fn_lookup_insert_ne, bool_decide_false by naive_solver];
        rewrite ?(ok_active _ Hok); try lia. done.
Qed.

Lemma mutate_ok w s i v w' :
  world_ok w → heap w !! i = Some v → 0 < count v → mutate s i w = Ok w' →
  world_ok w' ∧ (∀ j, j ≠ i → heap w' !! j = heap w !! j) ∧
  ∃ v', heap w' !! i = Some v' ∧ apply s v = Ok v' ∧ count v' = count v.
Proof.
  intros Hok Hi Hc. unfold mutate. rewrite Hi. intros (v' & Hv' & [= <-])%rbind_ok.
  destruct (apply_facts _ _ _ (ok_wf _ Hok _ _ Hi) Hv') as (? & Hc' & ? & _).
  pose proof (ok_count _ Hok _ _ Hi).
  split; [eapply update_live_ok; try done; lia|].
  split; [intros j Hj; simpl; by rewrite lookup_insert_ne|].
  exists v'. simpl. by rewrite lookup_insert_eq.
Qed.

Lemma step_ok w w' : world_ok w → step w w' → world_ok w'.
Proof.
  intros Hok Hst. revert Hok. destruct Hst as [k pick w|i v w Hi Hc|i w (v & Hi & Hc)|s i w w' (v & Hi & Hc) Hm|i pick w w' j (v & Hi & Hc) Hm|c p w Hp]; intros Hok.
  - destruct (construct k pick w) as [w1 i] eqn:E. by apply (construct_facts _ _ _ _ _ Hok E).
  - by apply (Retain_ok w i v).
  - by apply (Release_ok w i v).
  - by apply (mutate_ok w s i v w').
  - destruct (frozen v) eqn:Hf; [by apply (Mutable_facts w i v pick w' j)|].
    unfold Mutable in Hm. rewrite Hi, Hf in Hm. by simplify_eq.
  - destruct Hok as [Hwf Hcnt Hnd Hpl Hs Ha].
    assert (∀ c' j, j ∈ (<[c := p]> (pools w)) c' → j ∈ pools w c') as Hsub.
    { intros c' j. destruct (decide (c' = c)) as [->|];
        [rewrite fn_lookup_insert; intros; by eapply elem_of_sublist|by rewrite fn_lookup_insert_ne]. }
    split; simpl; eauto.
    intros c'. destruct (decide (c' = c)) as [->|];
      [rewrite fn_lookup_insert|by rewrite fn_lookup_insert_ne].
    by eapply sublist_NoDup.
Qed.

Lemma reachable_ok w : rtc step empty_world w → world_ok w.
Proof. intros Hr. exact (rtc_invariant step world_ok _ _ step_ok Hr empty_world_ok). Qed.

(** A step that leaves [i] in use does not change what a frozen [i] shows. *)
Lemma step_frozen w w' i v :
  world_ok w → heap w !! i = Some v → 0 < count v → frozen v = true →
  step w w' → live w' i →
  ∃ v', heap w' !! i = Some v' ∧ frozen v' = true ∧ visible v' = visible v.
Proof.
  intros Hok Hi Hc Hf Hst. revert Hok Hi.
  destruct Hst as [k pick w|j u w Hj Hcj|j w (u & Hj & Hcj)|s j w w' (u & Hj & Hcj) Hm|j pick w w' l (u & Hj & Hcj) Hm|c p w Hp];
    intros Hok Hi Hlive.
  - destruct (construct k pick w) as [w1 l] eqn:E.
    destruct (construct_facts _ _ _ _ _ Hok E) as (_ & Hdead & _ & Ho).
    exists v. simpl. rewrite Ho; [done|]. intros ->. specialize (Hdead _ Hi). lia.
  - destruct (Retain_ok w j u) as [-> _]; [done..|]. simpl. rewrite lookup_insert.
    case_decide; [|eauto]. simplify_eq. eexists. split; [done|].
    by rewrite frozen_set_count, visible_set_count.
  - destruct (Release_ok w j u) as (_ & Ho & Hs & Hl); [done..|].
    destruct (decide (i = j)) as [->|]; [|rewrite Ho by done; eauto]. simplify_eq.
    destruct (decide (count u = 1)) as [H1|].
    + destruct (Hl H1) as (u' & Hu' & Hcl & _). destruct Hlive as (u'' & Hu'' & Hc'').
      destruct (clean_facts u' Hcl) as (_ & ? & _). simplify_eq. lia.
    + rewrite Hs by lia. eexists. split; [done|]. by rewrite frozen_set_count, visible_set_count.
  - destruct (mutate_ok w s j u w') as (_ & Ho & u' & Hu' & Ha & _); [done..|].
    destruct (decide (i = j)) as [->|]; [|rewrite Ho by done; eauto]. simplify_eq.
    exists u'. split; [done|]. eapply apply_facts; [|done..]. by eapply (ok_wf _ Hok).
  - destruct (frozen u) eqn:Hfu.
    + destruct (Mutable_facts w j u pick w' l) as (_ & Hdead & _ & Ho); [done..|].
      exists v. rewrite Ho; [done|]. intros ->. specialize (Hdead _ Hi). lia.
    + unfold Mutable in Hm. rewrite Hj, Hfu in Hm. simplify_eq. eauto.
  - simpl. eauto.
Qed.

(** Histories during which [i] stays in use. *)
Definition step_holding (i : nat) (w w' : world) : Prop := step w w' ∧ live w' i.

Lemma frozen_stable w w' i v :
  world_ok w → heap w !! i = Some v → 0 < count v → frozen v = true →
  rtc (step_holding i) w w' →
  world_ok w' ∧ ∃ v', heap w' !! i = Some v' ∧ 0 < count v' ∧ frozen v' = true ∧ visible v' = visible v.
Proof.
  intros Hok Hi Hc Hf Hr. revert v Hok Hi Hc Hf.
  induction Hr as [|w w1 w2 [Hst Hl] _ IH]; intros v Hok Hi Hc Hf;
    [split; [done|by exists v]|].
  destruct (step_frozen _ _ _ _ Hok Hi Hc Hf Hst Hl) as (v1 & Hv1 & Hf1 & Hs1).
  destruct Hl as (v1' & Hv1' & Hc1). rewrite Hv1 in Hv1'. injection Hv1' as <-.
  rewrite <-Hs1. apply (IH v1); auto. by eapply step_ok.
Qed.
End machine.

Arguments world : clear implicits.

(** A frozen media object is stable while it is in use, for every
    implementation of the protocol: whatever other holders do (constructors,
    setters, retains, releases, copies, collector runs), as long as its
    count stays positive its readers see the same bytes, properties and
    fields; [Mutable] on it returns, and its result is another object that
    nobody held, writable, with one reference and the same visible state,
    while the original stays as it is. *)
Theorem frozen_media_stable {V C} `{!EqDecision C, !PooledMedia V C, !PooledMediaLaws V C}
    (w w' : world V C) i v pick :
  rtc step empty_world w → heap w !! i = Some v → 0 < count v → frozen v = true →
  rtc (step_holding i) w w' →
  (∃ v', heap w' !! i = Some v' ∧ frozen v' = true ∧ visible v' = visible v) ∧
  ∃ w'' j d, Mutable i pick w' = Ok (w'', j) ∧ ¬ live w' j ∧ heap w'' !! i = heap w' !! i ∧
    heap w'' !! j = Some d ∧ count d = 1 ∧ frozen d = false ∧ visible d = visible v.
Proof.
  intros Hr Hi Hc Hf Hh. apply reachable_ok in Hr.
  destruct (frozen_stable _ _ _ _ Hr Hi Hc Hf Hh) as (Hok & v' & Hv' & Hc' & Hf' & Hs').
  split; [eauto|]. destruct (Mutable_returns w' i v' pick Hok Hv') as (w'' & j & Hm).
  destruct (Mutable_facts w' i v' pick w'' j) as (_ & Hdead & (d & Hd & ? & ? & Hs) & Ho); [done..|].
  exists w'', j, d. rewrite Hd, Hs, Hs'. repeat split; try done.
  - intros (u & Hu & ?). specialize (Hdead u Hu). lia.
  - apply Ho. intros ->. specialize (Hdead _ Hv'). lia.
Qed.

(** The gauges of active objects are exact: in every reachable state the
    counter of a size class is the number of objects of that class in use,
    every pooled object is clean and unused, and no object is pooled twice. *)
Theorem active_gauges_exact {V C} `{!EqDecision C, !PooledMedia V C, !PooledMediaLaws V C}
    (w : world V C) :
  rtc step empty_world w →
  ∀ c, active w c = Z.of_nat (size (filter (λ iv, is_live c iv.2 = true) (heap w))) ∧
       NoDup (pools w c) ∧
       ∀ i, i ∈ pools w c → (∃ v, heap w !! i = Some v ∧ clean v) ∧
         ¬ live w i ∧ ∀ c', i ∈ pools w c' → c' = c.
Proof.
  intros Hok%reachable_ok c. split; [apply (ok_active _ Hok)|]. split; [apply (ok_nodup _ Hok)|].
  intros i Hi. destruct (ok_pooled _ Hok _ _ Hi) as (v & Hv & H0 & Hcl).
  split; [eauto|]. split; [intros (u & ? & ?); simplify_eq; lia|].
  intros c' Hi'. by eapply (ok_single _ Hok).
Qed.

(** ** audio.go *)
Module Audio.
Definition audioRecycleCap : nat := Z.to_nat (64 * 1024).
Definition entriesRecycleCap : nat := 256.

Record builtinAudio := mkAudio {
  props : builtinProperties; name : string; buffer : slice Z;
  sampleRate : Z; channels : Z; duration : Z; refs : Z;
}.

Definition new_audio : builtinAudio := mkAudio empty_props "" nil_slice 0 0 0 0.

(** The field writes of [NewAudio] after [audioPool.Acquire]. *)
Definition init_audio (n : string) (sr ch : Z) (v : builtinAudio) : builtinAudio :=
  mkAudio (props v) n (buffer v) sr ch (duration v) 1.

(** The entries a recycled object keeps for reuse. *)
Definition recycle_entries (es : slice entry) : slice entry :=
  if decide (entriesRecycleCap ≤ cap es)%nat then nil_slice else reslice es 0.

Definition Recycle_audio (b : builtinAudio) : builtinAudio :=
  mkAudio (mkProps (recycle_entries (entries (props b))) false) ""
    (if decide (audioRecycleCap < cap (buffer b))%nat then nil_slice else reslice (buffer b) 0)
    0 0 0 0.

Definition Bytes (b : builtinAudio) : list Z := contents (buffer b).

Definition SetBytes (b : builtinAudio) (bs : list Z) : result schema_error builtinAudio :=
  let? _ := checkReadOnly (props b) "schema: call SetBytes on readonly audio" in
  Ok (mkAudio (props b) (name b) (copy_to (make_room 0 (buffer b) (length bs)) bs)
        (sampleRate b) (channels b) (duration b) (refs b)).
Definition SetDuration (b : builtinAudio) (d : Z) : result schema_error builtinAudio :=
  let? _ := checkReadOnly (props b) "schema: call SetDuration on readonly audio" in
  Ok (mkAudio (props b) (name b) (buffer b) (sampleRate b) (channels b) d (refs b)).
Definition SetSampleRate (b : builtinAudio) (sr : Z) : result schema_error builtinAudio :=
  let? _ := checkReadOnly (props b) "schema: call SetSampleRate on readonly audio" in
  Ok (mkAudio (props b) (name b) (buffer b) sr (channels b) (duration b) (refs b)).
Definition SetChannels (b : builtinAudio) (c : Z) : result schema_error builtinAudio :=
  let? _ := checkReadOnly (props b) "schema: call SetChannels on readonly audio" in
  Ok (mkAudio (props b) (name b) (buffer b) (sampleRate b) c (duration b) (refs b)).
Definition ReadOnly (b : builtinAudio) : builtinAudio :=
  mkAudio (setReadOnly (props b)) (name b) (buffer b) (sampleRate b) (channels b) (duration b) (refs b).
Definition with_props (p : builtinProperties) (b : builtinAudio) : builtinAudio :=
  mkAudio p (name b) (buffer b) (sampleRate b) (channels b) (duration b) (refs b).

(** The writes of [Mutable] into the object [NewAudio] returned. *)
Definition copy_audio (b new : builtinAudio) : result schema_error builtinAudio :=
  let new := init_audio (name b) (sampleRate b) (channels b) new in
  let new := with_props (copyTo (props b) (props new)) new in
  let? new := SetBytes new (Bytes b) in
  Ok (mkAudio (props new) (name new) (buffer new) (sampleRate new) (channels new) (duration b) (refs new)).

Inductive audio_setter :=
| ASetBytes (bs : list Z) | ASetDuration (d : Z) | ASetSampleRate (sr : Z)
| ASetChannels (c : Z) | ASet (k : string) (v : anyv) | AReadOnly.

(** What a reader of an [Audio] can observe, its reference count apart. *)
Definition audio_visible (b : builtinAudio) : string * list Z * Z * Z * Z * gmap string anyv :=
  (name b, Bytes b, sampleRate b, channels b, duration b, view (props b)).

Definition audio_wf (b : builtinAudio) : Prop := props_wf (props b) ∧ slice_wf (buffer b).
Definition audio_clean (b : builtinAudio) : Prop :=
  audio_wf b ∧ refs b = 0 ∧ readonly (props b) = false ∧
  audio_visible b = ("", [], 0, 0, 0, ∅).

Section instance.
Context (Marshal : anyv → result schema_error (list Z)) (grow : nat → nat → nat).

Definition apply_audio (s : audio_setter) (b : builtinAudio) : result schema_error builtinAudio :=
  match s with
  | ASetBytes bs => SetBytes b bs
  | ASetDuration d => SetDuration b d
  | ASetSampleRate sr => SetSampleRate b sr
  | ASetChannels c => SetChannels b c
  | ASet k v => let? p := Set_ Marshal grow (props b) k v in Ok (with_props p b)
  | AReadOnly => Ok (ReadOnly b)
  end.

#[local] Instance audio_media : PooledMedia builtinAudio unit := {
  count := refs;
  set_count n b := mkAudio (props b) (name b) (buffer b) (sampleRate b) (channels b) (duration b) n;
  frozen b := isReadOnly (props b);
  factory _ := new_audio;
  Recycle := Recycle_audio;
  classify _ := tt;
  ctor := string * Z * Z;
  ctor_class _ := tt;
  ctor_init '(n, sr, ch) := init_audio n sr ch;
  setter := audio_setter;
  apply := apply_audio;
  copy_into := copy_audio;
  shown := string * list Z * Z * Z * Z * gmap string anyv;
  visible := audio_visible;
  media_wf := audio_wf;
  clean := audio_clean;
}.

Lemma recycle_entries_spec es : slice_wf (recycle_entries es) ∧ contents (recycle_entries es) = [].
Proof. unfold recycle_entries. case_decide; (split; [unfold slice_wf; simpl; lia|done]). Qed.

Lemma apply_audio_facts s b b' :
  audio_wf b → apply_audio s b = Ok b' →
  audio_wf b' ∧ refs b' = refs b ∧
  (readonly (props b) = true → readonly (props b') = true ∧ audio_visible b' = audio_visible b).
Proof.
  intros [Hp Hb].
  destruct s as [bs|d|sr|c|k v|]; cbn -[Set_]; unfold SetBytes, SetDuration, SetSampleRate, SetChannels, checkReadOnly.
  1-4: destruct (readonly (props b)) eqn:Hr; [done|]; intros [= <-]; cbn; rewrite Hr;
    (split; [split; cbn; auto with voce|done]).
  - intros (p & Hset & [= <-])%rbind_ok. destruct (Set_ok _ _ _ _ _ _ Hp Hset) as (Hr & _ & ? & _).
    rewrite Hr. done.
  - intros [= <-]. done.
Qed.

Lemma copy_audio_facts b d :
  audio_wf b → audio_clean d →
  ∃ d', copy_audio b d = Ok d' ∧ audio_wf d' ∧ refs d' = 1 ∧
        readonly (props d') = false ∧ audio_visible d' = audio_visible b.
Proof.
  intros [Hp Hb] ([Hp' Hb'] & _ & Hr & _). unfold copy_audio, SetBytes, checkReadOnly. cbn. rewrite Hr. cbn.
  eexists. split; [reflexivity|]. split; [|split; [done|split; [done|]]].
  - split; cbn; [apply copyTo_wf|auto with voce].
  - unfold audio_visible, Bytes. cbn -[contents copy_to copyTo view]. rewrite contents_make_room_copy. f_equal.
    apply view_entries. by apply copyTo_contents.
Qed.

#[local] Instance audio_laws : PooledMediaLaws builtinAudio unit.
Proof.
  split; cbn; try done.
  - intros v ([? ?] & ? & ? & ?). done.
  - intros _. split; [|done]. split; exact nil_slice_wf.
  - intros v [Hp Hb]. destruct (recycle_entries_spec (entries (props v))) as [Hw Hc].
    split; [split; [done|]; cbn; case_decide; unfold slice_wf; cbn; lia|].
    split; [done|]. split; [done|]. unfold audio_visible, Bytes, view. cbn. rewrite Hc.
    by case_decide.
  - intros [[n sr] ch] v ([Hp Hb] & _ & Hr & _). done.
  - intros s v v' Hwf Ha. destruct (apply_audio_facts _ _ _ Hwf Ha) as (? & ? & ?). done.
  - intros v d Hwf Hcl. destruct (copy_audio_facts v d Hwf Hcl) as (d' & ? & ? & ? & ? & ?). eauto 10.
Qed.

(** [NewAudio]. *)
Definition NewAudio (n : string) (sr ch : Z) (pick : option nat) (w : world builtinAudio unit)
    : world builtinAudio unit * nat := construct (n, sr, ch) pick w.

(** Pool hygiene.  In every reachable state, whatever object the pool
    returns, a new audio object was held by nobody, has one reference, is
    writable, has the requested name and format, no bytes, no duration and
    no properties of its previous life; every other object is untouched. *)
Theorem NewAudio_is_clean w n sr ch pick w' i :
  rtc step empty_world w → NewAudio n sr ch pick w = (w', i) →
  ¬ live w i ∧ (∀ j, j ≠ i → heap w' !! j = heap w !! j) ∧
  ∃ b, heap w' !! i = Some b ∧ name b = n ∧ sampleRate b = sr ∧ channels b = ch ∧
    duration b = 0 ∧ Bytes b = [] ∧ refs b = 1 ∧ readonly (props b) = false ∧
    ∀ k, Get (props b) k = None.
Proof.
  intros Hok%reachable_ok Hnew.
  destruct (construct_facts _ _ _ _ _ Hok Hnew) as (_ & Hdead & (v & Hcl & Hv) & Ho).
  split; [intros (u & Hu & ?); specialize (Hdead u Hu); lia|]. split; [done|].
  destruct Hcl as (_ & _ & Hr & Hs). unfold audio_visible in Hs.
  eexists. split; [exact Hv|]. cbn. injection Hs as ? Hb ? ? Hd Hview. repeat (split; [done|]).
  intros k. by rewrite Get_view, Hview, lookup_empty.
Qed.
End instance.
End Audio.

(** ** video.go *)
Module Video.
(** The three size classes and the pixels they go up to. *)
Inductive size_class := SD | HD | FHD.
#[export] Instance size_class_eq_dec : EqDecision size_class.
Proof. solve_decision. Defined.

Definition sdVideoPixels : Z := 640 * 480.
Definition hdVideoPixels : Z := 1280 * 720.
Definition fhdVideoPixels : Z := 1920 * 1080.

Definition class_of (pixels : Z) : size_class :=
  if decide (pixels ≤ sdVideoPixels) then SD
  else if decide (pixels ≤ hdVideoPixels) then HD else FHD.

Definition class_bytes (c : size_class) : nat :=
  Z.to_nat (match c with SD => sdVideoPixels | HD => hdVideoPixels | FHD => fhdVideoPixels end * 3 / 2).

Record builtinVideo := mkVideo {
  props : builtinProperties; name : string; height : Z; width : Z;
  data : slice Z; duration : Z; refs : Z;
}.

Definition new_video (c : size_class) : builtinVideo :=
  mkVideo empty_props "" 0 0 (make_slice 0 (class_bytes c)) 0 0.

(** The field writes of [NewVideo] after [acquireVideo]. *)
Definition init_video (n : string) (h w d : Z) (v : builtinVideo) : builtinVideo :=
  mkVideo (props v) n h w (data v) d 1.

Definition Recycle_video (b : builtinVideo) : builtinVideo :=
  mkVideo (mkProps (Audio.recycle_entries (entries (props b))) false) "" 0 0
    (reslice (data b) 0) 0 0.

(** [s[lo:hi]], a panic when the bounds are out of range. *)
Definition slice_expr (s : slice Z) (lo hi : Z) : result schema_error (list Z) :=
  if decide (0 ≤ lo ∧ lo ≤ hi ∧ hi ≤ Z.of_nat (cap s))
  then Ok (take (Z.to_nat (hi - lo)) (drop (Z.to_nat lo) (arr s)))
  else Err (EPanic "slice bounds out of range").

Definition YBytes (b : builtinVideo) : result schema_error (list Z) :=
  let size := int64 (width b * height b) in
  if decide (Z.of_nat (len (data b)) < size) then Ok []
  else slice_expr (data b) 0 size.
Definition UBytes (b : builtinVideo) : result schema_error (list Z) :=
  let pixels := int64 (width b * height b) in
  let size := Z.quot pixels 4 in
  if decide (Z.of_nat (len (data b)) < int64 (pixels + size)) then Ok []
  else slice_expr (data b) pixels (int64 (pixels + size)).
Definition VBytes (b : builtinVideo) : result schema_error (list Z) :=
  let pixels := int64 (width b * height b) in
  let size := Z.quot pixels 4 in
  let hi := int64 (pixels + int64 (size * 2)) in
  if decide (Z.of_nat (len (data b)) < hi) then Ok []
  else slice_expr (data b) (int64 (pixels + size)) hi.

Definition with_data (s : slice Z) (b : builtinVideo) : builtinVideo :=
  mkVideo (props b) (name b) (height b) (width b) s (duration b) (refs b).
Definition with_props (p : builtinProperties) (b : builtinVideo) : builtinVideo :=
  mkVideo p (name b) (height b) (width b) (data b) (duration b) (refs b).

Definition setData (b : builtinVideo) (src : list Z) : builtinVideo :=
  with_data (copy_to (make_room 0 (data b) (length src)) src) b.

(** [copy(s[off:off+len(l)], l)]. *)
Definition copy_at (s : slice Z) (off : nat) (l : list Z) : slice Z :=
  mkSlice (take off (arr s) ++ l ++ drop (off + length l) (arr s)) (len s).

Definition SetYUV (b : builtinVideo) (y u v : list Z) : result schema_error builtinVideo :=
  let? _ := checkReadOnly (props b) "schema: call SetYUV on readonly video" in
  let d := make_room 0 (data b) (length y + length u + length v) in
  let d := copy_at d 0 y in
  let d := copy_at d (length y) u in
  Ok (with_data (copy_at d (length y + length u) v) b).

Definition SetDuration (b : builtinVideo) (d : Z) : result schema_error builtinVideo :=
  let? _ := checkReadOnly (props b) "schema: call SetDuration on readonly video" in
  Ok (mkVideo (props b) (name b) (height b) (width b) (data b) d (refs b)).
Definition ReadOnly (b : builtinVideo) : builtinVideo := with_props (setReadOnly (props b)) b.

(** The writes of [Mutable] into the frame [acquireVideo] returned. *)
Definition copy_video (b frame : builtinVideo) : result schema_error builtinVideo :=
  let frame := mkVideo (props frame) (name b) (height b) (width b) (data frame) (duration b) (refs frame) in
  let frame := with_props (copyTo (props b) (props frame)) frame in
  let frame := setData frame (contents (data b)) in
  Ok (mkVideo (props frame) (name frame) (height frame) (width frame) (data frame) (duration frame) 1).

Inductive video_setter :=
| VSetYUV (y u v : list Z) | VSetDuration (d : Z) | VSet (k : string) (v : anyv) | VReadOnly.

Definition video_visible (b : builtinVideo) : string * Z * Z * list Z * Z * gmap string anyv :=
  (name b, height b, width b, contents (data b), duration b, view (props b)).
Definition video_wf (b : builtinVideo) : Prop := props_wf (props b) ∧ slice_wf (data b).
(** A pooled frame shows no byte of its previous life. *)
Definition video_clean (b : builtinVideo) : Prop :=
  video_wf b ∧ refs b = 0 ∧ readonly (props b) = false ∧
  Forall (λ x, x = 0) (contents (data b)) ∧ view (props b) = ∅.

(** *** The planes *)
Lemma copy_at_arr s off l :
  (off + length l ≤ cap s)%nat → cap (copy_at s off l) = cap s.
Proof.
  unfold cap, copy_at. simpl. intros. rewrite !length_app, length_take, length_drop. lia.
Qed.

Lemma SetYUV_data b y u v b' :
  SetYUV b y u v = Ok b' →
  contents (data b') = y ++ u ++ v ∧ slice_wf (data b') ∧
  len (data b') = (length y + length u + length v)%nat.
Proof.
  unfold SetYUV, checkReadOnly. destruct (readonly (props b)); [done|]. cbn [rbind]. intros [= <-].
  set (n := (length y + length u + length v)%nat). set (d := make_room 0 (data b) n).
  assert (n ≤ length (arr d))%nat as Hn.
  { pose proof (make_room_wf 0 (data b) n) as H. unfold slice_wf, cap in H.
    by rewrite len_make_room in H. }
  assert (len d = n) as Hlen by apply len_make_room. clearbody d.
  unfold n in *. cbn [data with_data].
  assert (arr (copy_at (copy_at (copy_at d 0 y) (length y) u) (length y + length u) v)
    = y ++ u ++ v ++ drop (length y + length u + length v) (arr d)) as Ha.
  { unfold copy_at. cbn [arr]. rewrite take_0. cbn [app]. rewrite Nat.add_0_l.
    rewrite take_app_length, drop_app_ge, drop_drop by lia.
    rewrite (app_assoc y u), take_app_length' by (rewrite length_app; lia).
    rewrite drop_app_ge, drop_drop by (rewrite length_app; lia).
    rewrite <-!(assoc_L (++)), length_app. do 4 f_equal. lia. }
  unfold contents, slice_wf, cap. rewrite Ha. cbn [len copy_at]. rewrite Hlen.
  split; [|split; [|done]].
  - rewrite !(app_assoc y), !(app_assoc (y ++ u)), take_app_length'; [done|].
    rewrite !length_app. lia.
  - rewrite !length_app, length_drop. lia.
Qed.
(** The planes of a frame whose bytes have the size its dimensions ask for. *)
Lemma planes_of b y u v :
  slice_wf (data b) → contents (data b) = y ++ u ++ v →
  0 ≤ width b * height b → 2 * (width b * height b) < 2 ^ 63 →
  Z.of_nat (length y) = width b * height b →
  Z.of_nat (length u) = width b * height b / 4 → Z.of_nat (length v) = width b * height b / 4 →
  YBytes b = Ok y ∧ UBytes b = Ok u ∧ VBytes b = Ok v.
Proof.
  intros Hwf Hc H0 Hmax Hy Hu Hv.
  pose proof (length_contents _ Hwf) as Hlen. rewrite Hc, !length_app in Hlen.
  assert (∃ rest, arr (data b) = y ++ u ++ v ++ rest) as [rest Ha].
  { exists (drop (len (data b)) (arr (data b))).
    rewrite <-(take_drop (len (data b)) (arr (data b))) at 1.
    unfold contents in Hc. by rewrite Hc, <-!(assoc_L (++)). }
  unfold slice_wf, cap in Hwf. pose proof (Z.mul_div_le (width b * height b) 4 ltac:(lia)).
  unfold YBytes, UBytes, VBytes, slice_expr, cap.
  rewrite Z.quot_div_nonneg by (rewrite ?int64_small; lia).
  rewrite !(int64_small (width b * height b)) by lia. rewrite <-Hu.
  rewrite (int64_small (_ * 2)), !int64_small by lia.
  repeat split; rewrite decide_False, decide_True by lia; rewrite Ha; f_equal.
  - apply take_app_length'. lia.
  - rewrite drop_app_length' by lia. apply take_app_length'. lia.
  - rewrite (app_assoc y), drop_app_length' by (rewrite length_app; lia).
    apply take_app_length'. lia.
Qed.

Section instance.
Context (Marshal : anyv → result schema_error (list Z)) (grow : nat → nat → nat).

Definition apply_video (s : video_setter) (b : builtinVideo) : result schema_error builtinVideo :=
  match s with
  | VSetYUV y u v => SetYUV b y u v
  | VSetDuration d => SetDuration b d
  | VSet k v => let? p := Set_ Marshal grow (props b) k v in Ok (with_props p b)
  | VReadOnly => Ok (ReadOnly b)
  end.

#[local] Instance video_media : PooledMedia builtinVideo size_class := {
  count := refs;
  set_count n b := mkVideo (props b) (name b) (height b) (width b) (data b) (duration b) n;
  frozen b := isReadOnly (props b);
  factory := new_video;
  Recycle := Recycle_video;
  classify b := class_of (int64 (width b * height b));
  ctor := string * Z * Z * Z;
  ctor_class '(_, h, w, _) := class_of (int64 (h * w));
  ctor_init '(n, h, w, d) := init_video n h w d;
  setter := video_setter;
  apply := apply_video;
  copy_into := copy_video;
  shown := string * Z * Z * list Z * Z * gmap string anyv;
  visible := video_visible;
  media_wf := video_wf;
  clean := video_clean;
}.

Lemma apply_video_facts s b b' :
  video_wf b → apply_video s b = Ok b' →
  video_wf b' ∧ refs b' = refs b ∧ width b' = width b ∧ height b' = height b ∧
  (readonly (props b) = true → readonly (props b') = true ∧ video_visible b' = video_visible b).
Proof.
  intros [Hp Hb]. destruct s as [y u v|d|k v|].
  - intros Hs. pose proof Hs as Hs'. revert Hs'. cbn [apply_video]. unfold SetYUV, checkReadOnly.
    destruct (readonly (props b)) eqn:Hr; [done|]. intros _.
    destruct (SetYUV_data _ _ _ _ _ Hs) as (_ & Hwf & _). revert Hs.
    cbn [apply_video]. unfold SetYUV, checkReadOnly. rewrite Hr. cbn [rbind].
    intros [= <-]. done.
  - cbn [apply_video]. unfold SetDuration, checkReadOnly. destruct (readonly (props b)); [done|].
    cbn [rbind]. intros [= <-]. done.
  - intros (p & Hset & [= <-])%rbind_ok. destruct (Set_ok _ _ _ _ _ _ Hp Hset) as (Hr & _ & ? & _).
    rewrite Hr. done.
  - intros [= <-]. done.
Qed.

Lemma copy_video_facts b d :
  video_wf b → video_clean d →
  ∃ d', copy_video b d = Ok d' ∧ video_wf d' ∧ refs d' = 1 ∧ width d' = width b ∧
        height d' = height b ∧ readonly (props d') = false ∧ video_visible d' = video_visible b.
Proof.
  intros [Hp Hb] ([Hp' Hb'] & _ & Hr & _). eexists. split; [reflexivity|].
  split; [|split; [done|split; [done|split; [done|split; [exact Hr|]]]]].
  - split; cbn -[copyTo copy_to]; [apply copyTo_wf|auto with voce].
  - unfold video_visible. cbn -[contents copy_to copyTo view].
    rewrite contents_make_room_copy. f_equal. apply view_entries. by apply copyTo_contents.
Qed.

#[local] Instance video_laws : PooledMediaLaws builtinVideo size_class.
Proof.
  split; try done.
  - intros v (? & ? & ? & ?). done.
  - intros c. split; [split; [exact nil_slice_wf|apply make_slice_wf]|]. split; [done|]. split; [done|].
    split; [|done]. cbn [factory video_media new_video data]. rewrite contents_make_slice.
    apply Forall_replicate. done.
  - intros v [Hp Hb]. destruct (Audio.recycle_entries_spec (entries (props v))) as [Hw Hc].
    split; [split; [done|]; unfold slice_wf; cbn; lia|].
    split; [done|]. split; [done|]. split; [constructor|]. unfold view. cbn -[contents].
    by rewrite Hc.
  - intros [[[n h] w] d] v ([Hp Hb] & _ & Hr & _). cbn.
    split; [done|]. split; [done|]. by rewrite Z.mul_comm.
  - intros s v v' Hwf Ha. destruct (apply_video_facts _ _ _ Hwf Ha) as (? & ? & Hw & Hh & ?).
    cbn. by rewrite Hw, Hh.
  - intros v d Hwf Hcl. destruct (copy_video_facts v d Hwf Hcl) as (d' & ? & ? & ? & Hw & Hh & ? & ?).
    exists d'. cbn. by rewrite Hw, Hh.
Qed.

(** [NewVideo]. *)
Definition NewVideo (n : string) (h w d : Z) (pick : option nat) (wd : world builtinVideo size_class)
    : world builtinVideo size_class * nat := construct (n, h, w, d) pick wd.

(** A frame taken from any of the pools in any reachable state shows no
    byte and no property of its previous life, and after [SetYUV] with the
    planes of a 4:2:0 picture its readers get exactly those planes, its
    dimensions and its name, whatever the size class and whatever larger or
    smaller picture the recycled buffer held. *)
Theorem NewVideo_planes wd n h w d pick wd' i y u v :
  rtc step empty_world wd → NewVideo n h w d pick wd = (wd', i) →
  0 ≤ w * h → 2 * (w * h) < 2 ^ 63 → Z.of_nat (length y) = w * h →
  Z.of_nat (length u) = w * h / 4 → Z.of_nat (length v) = w * h / 4 →
  (∃ b, heap wd' !! i = Some b ∧ Forall (λ x, x = 0) (contents (data b)) ∧
        ∀ k, Get (props b) k = None) ∧
  ∃ wd'' b, mutate (VSetYUV y u v) i wd' = Ok wd'' ∧ heap wd'' !! i = Some b ∧
    name b = n ∧ height b = h ∧ width b = w ∧ refs b = 1 ∧
    YBytes b = Ok y ∧ UBytes b = Ok u ∧ VBytes b = Ok v.
Proof.
  intros Hok%reachable_ok Hnew H0 Hmax Hy Hu Hv.
  destruct (construct_facts _ _ _ _ _ Hok Hnew) as (Hok' & Hdead & (f & Hcl & Hf) & _).
  destruct Hcl as (_ & _ & Hr & Hz & Hview). split.
  { eexists. split; [exact Hf|]. split; [exact Hz|]. intros k. cbn. by rewrite Get_view, Hview, lookup_empty. }
  set (b0 := init_video n h w d f).
  assert (∃ b', SetYUV b0 y u v = Ok b') as [b' Hb'].
  { unfold SetYUV, checkReadOnly. cbn [props b0 init_video]. rewrite Hr. cbn [rbind]. eauto. }
  destruct (SetYUV_data _ _ _ _ _ Hb') as (Hc & Hwf & _).
  assert (name b' = n ∧ height b' = h ∧ width b' = w ∧ refs b' = 1) as (? & Hh & Hw & ?).
  { revert Hb'. unfold SetYUV, checkReadOnly. cbn [props b0 init_video]. rewrite Hr.
    cbn [rbind]. intros [= <-]. done. }
  exists (set_heap wd' (<[i := b']> (heap wd'))), b'. split.
  { unfold mutate. rewrite Hf. cbn [apply video_media apply_video ctor_init].
    fold b0. by rewrite Hb'. }
  split; [apply lookup_insert_eq|]. repeat (split; [done|]).
  apply planes_of; try done; rewrite ?Hh, ?Hw; done.
Qed.
End instance.
End Video.

(** ** A concrete history *)
#[local] Instance demo_audio : PooledMedia Audio.builtinAudio unit :=
  Audio.audio_media demo_Marshal demo_grow.
#[local] Instance demo_audio_laws : PooledMediaLaws Audio.builtinAudio unit :=
  Audio.audio_laws demo_Marshal demo_grow.

Definition force {W} (d : W) (r : result schema_error W) : W :=
  match r with Ok w => w | Err _ => d end.

(** An audio object is created, filled, frozen; [demo_w3] is the result. *)
Definition demo_w1 : world Audio.builtinAudio unit :=
  (Audio.NewAudio demo_Marshal demo_grow "input" 16000 1 None empty_world).1.
Definition demo_w2 : world Audio.builtinAudio unit :=
  force empty_world (mutate (Audio.ASetBytes [1; 2; 3] : setter (PooledMedia:=demo_audio)) 0 demo_w1).
Definition demo_w3 : world Audio.builtinAudio unit :=
  force empty_world (mutate (Audio.AReadOnly : setter (PooledMedia:=demo_audio)) 0 demo_w2).

Lemma demo_live w b : heap w !! 0%nat = Some b → bool_decide (0 < Audio.refs b) = true → live w 0.
Proof. intros Hb Hc%bool_decide_eq_true. by exists b. Qed.

Lemma demo_w1_reachable : rtc step empty_world demo_w1.
Proof. eapply rtc_once, (step_new (("input", 16000, 1) : ctor (PooledMedia:=demo_audio)) None). Qed.

Lemma demo_w3_reachable : rtc step empty_world demo_w3.
Proof.
  etrans; [apply demo_w1_reachable|].
  eapply rtc_l; [apply (step_set (Audio.ASetBytes [1; 2; 3] : setter (PooledMedia:=demo_audio)) 0 demo_w1 demo_w2)|].
  - eapply demo_live; [reflexivity|reflexivity].
  - reflexivity.
  - apply rtc_once, (step_set (Audio.AReadOnly : setter (PooledMedia:=demo_audio)) 0 demo_w2 demo_w3).
    + eapply demo_live; [reflexivity|reflexivity].
    + reflexivity.
Qed.

Lemma frozen_media_stable_witness :
  ∃ w'' j (d : Audio.builtinAudio), Mutable 0 None (Retain 0 demo_w3) = Ok (w'', j) ∧ j ≠ 0%nat ∧
    heap w'' !! j = Some d ∧ Audio.Bytes d = [1; 2; 3].
Proof.
  destruct (heap demo_w3 !! 0%nat) as [b|] eqn:E; [|discriminate E].
  assert (b = Audio.mkAudio (mkProps nil_slice true) "input" (mkSlice [1; 2; 3] 3) 16000 1 0 1) as Hb.
  { vm_compute in E. injection E as <-. reflexivity. }
  assert (0 < count b < 2 ^ 31 - 1) as Hc by (rewrite Hb; cbn; lia).
  destruct (frozen_media_stable demo_w3 (Retain 0 demo_w3) 0 b None)
    as (_ & w'' & j & d & Hm & Hl & _ & Hd & _ & _ & Hv).
  - exact demo_w3_reachable.
  - done.
  - lia.
  - by rewrite Hb.
  - apply rtc_once. split; [by apply (step_retain 0 b)|].
    eapply demo_live; [reflexivity|reflexivity].
  - exists w'', j, d. split; [done|]. split; [|split; [done|]].
    + intros ->. apply Hl. eapply demo_live; [reflexivity|reflexivity].
    + rewrite Hb in Hv. by injection Hv.
Defined.

Lemma active_gauges_exact_witness :
  active demo_w3 tt = 1 ∧
  active demo_w3 tt = Z.of_nat (size (filter (λ iv, is_live tt iv.2 = true) (heap demo_w3))).
Proof. split; [reflexivity|]. apply (active_gauges_exact demo_w3 demo_w3_reachable tt). Defined.

Lemma NewAudio_is_clean_witness :
  (Audio.NewAudio demo_Marshal demo_grow "tts" 24000 1 (Some 0%nat) (Release 0 demo_w3)).2 = 0%nat ∧
  ∃ b, heap (Audio.NewAudio demo_Marshal demo_grow "tts" 24000 1 (Some 0%nat) (Release 0 demo_w3)).1 !! 0%nat
    = Some b ∧ Audio.Bytes b = [].
Proof.
  assert (rtc step empty_world (Release 0 demo_w3)) as Hr.
  { eapply rtc_r; [exact demo_w3_reachable|]. apply step_release.
    eapply demo_live; [reflexivity|reflexivity]. }
  split; [reflexivity|].
  destruct (Audio.NewAudio_is_clean demo_Marshal demo_grow (Release 0 demo_w3) "tts" 24000 1 (Some 0%nat)
    (Audio.NewAudio demo_Marshal demo_grow "tts" 24000 1 (Some 0%nat) (Release 0 demo_w3)).1 0%nat Hr)
    as (_ & _ & b & Hb & _ & _ & _ & _ & Hbytes & _); [reflexivity|].
  exists b. done.
Defined.

Lemma NewVideo_planes_witness :
  ∃ (w : world Video.builtinVideo Video.size_class) b, heap w !! 0%nat = Some b ∧ Video.YBytes b = Ok [1; 2; 3; 4] ∧ Video.UBytes b = Ok [5] ∧
    Video.VBytes b = Ok [6].
Proof.
  destruct (Video.NewVideo demo_Marshal demo_grow "cam" 2 2 40 None empty_world) as [w1 i] eqn:E.
  assert (i = 0%nat) as ->.
  { assert (i = (Video.NewVideo demo_Marshal demo_grow "cam" 2 2 40 None empty_world).2) as -> by (by rewrite E).
    reflexivity. }
  destruct (Video.NewVideo_planes demo_Marshal demo_grow empty_world "cam" 2 2 40 None w1 0
    [1; 2; 3; 4] [5] [6]) as (_ & w2 & b & _ & Hb & _ & _ & _ & _ & ? & ? & ?); try done.
  exists w2, b. done.
Defined.
