(* ===== verification/ShardedMap.v ===== *)
(** * Sharded map: pkg/syncx/sharded_map.go

    A map split over shards, each behind its own lock; every operation is
    one critical section of the shard its key hashes to, so a history of
    operations is the sequence of their critical sections.  The abstract
    specification is a single finite map ([abs]); each operation implements
    its counterpart for every hash function and every number of shards, and
    [Range] visits each entry once even while its callback deletes. *)

From S2P Require Import Prelude.

(** FNV-1a over 64 bits, the default hash of a key's printed form. *)
Definition fnv64a (bs : list Z) : Z :=
  fold_left (λ h b, uint64 (Z.lxor h b * 1099511628211)) bs 14695981039346656037%Z.

Section ShardedMap.
Context {K : Type} `{Countable K} {V : Type}.

Record ShardedMap := {
  shards : list (gmap K V);
  hash : K → Z;
}.

(** [fmt.Sprint], the printed form of a key, is the argument [Sprint]. *)
Definition defaultHash (Sprint : K → list Z) (key : K) : Z := fnv64a (Sprint key).

Definition NewShardedMap (Sprint : K → list Z) (shardCount : Z) (h : option (K → Z)) :
    ShardedMap :=
  let shardCount := if (shardCount <=? 0)%Z then 1%Z else shardCount in
  {| shards := replicate (Z.to_nat shardCount) ∅;
     hash := match h with Some h => h | None => defaultHash Sprint end |}.

Definition shard (m : ShardedMap) (key : K) : nat :=
  if decide (length (shards m) = 1) then 0
  else Z.to_nat (uint64 (hash m key) `mod` Z.of_nat (length (shards m))).

(** The entries of a shard; a shard index out of range would panic, which
    [shard_lt] rules out. *)
Definition entries (m : ShardedMap) (i : nat) : gmap K V := shards m !!! i.

Definition set_entries (m : ShardedMap) (i : nat) (e : gmap K V) : ShardedMap :=
  {| shards := <[i := e]> (shards m); hash := hash m |}.

Definition Store (m : ShardedMap) (key : K) (value : V) : ShardedMap :=
  let i := shard m key in
  set_entries m i (<[key := value]> (entries m i)).

Definition Load (m : ShardedMap) (key : K) : option V :=
  entries m (shard m key) !! key.

Definition Delete (m : ShardedMap) (key : K) : ShardedMap :=
  let i := shard m key in
  set_entries m i (delete key (entries m i)).

(** [fn] returns [None] for [keep = false]. *)
Definition Update (m : ShardedMap) (key : K) (fn : option V → option V) : ShardedMap * bool :=
  let i := shard m key in
  let value := entries m i !! key in
  match fn value with
  | None =>
      (if bool_decide (is_Some value) then set_entries m i (delete key (entries m i)) else m,
       bool_decide (is_Some value))
  | Some next => (set_entries m i (<[key := next]> (entries m i)), true)
  end.

(** [Range] calls back into the program: [W] is the state the callback can
    change and [get] the map inside it.  A shard is copied under its lock
    when the loop reaches it, and the callback runs on the copy. *)
Section Range.
Context {W : Type} (get : W → ShardedMap) (o : iter_order K V)
  (fn : W → K → V → W * bool).

Fixpoint range_snapshot (s : W) (snapshot : list (K * V)) : W * bool :=
  match snapshot with
  | [] => (s, true)
  | (k, v) :: rest =>
      let '(s', continue) := fn s k v in
      if continue then range_snapshot s' rest else (s', false)
  end.

Fixpoint range_shards (s : W) (idx : list nat) : W :=
  match idx with
  | [] => s
  | i :: idx =>
      let '(s', continue) := range_snapshot s (range_map o (entries (get s) i)) in
      if continue then range_shards s' idx else s'
  end.

Definition Range (s : W) : W := range_shards s (seq 0 (length (shards (get s)))).
End Range.

(** ** Well-formed maps and the map they stand for *)
Record wf (m : ShardedMap) : Prop := {
  wf_shards : 0 < length (shards m);
  wf_home : ∀ i k v, entries m i !! k = Some v → i = shard m k;
}.

Definition abs (m : ShardedMap) : gmap K V := ⋃ (shards m).

Lemma shard_lt m k : 0 < length (shards m) → shard m k < length (shards m).
Proof.
  intros Hlen. unfold shard. case_decide; [lia|].
  pose proof (Z.mod_pos_bound (uint64 (hash m k)) (Z.of_nat (length (shards m)))). lia.
Qed.

Lemma shard_set m i e k : shard (set_entries m i e) k = shard m k.
Proof. unfold shard. cbn. by rewrite length_insert. Qed.

Lemma entries_set m i e j :
  i < length (shards m) →
  entries (set_entries m i e) j = if decide (j = i) then e else entries m j.
Proof.
  intros Hi. unfold entries. cbn. case_decide; subst.
  - by apply list_lookup_total_insert_eq.
  - by apply list_lookup_total_insert_ne.
Qed.

Lemma entries_lookup m i k v :
  entries m i !! k = Some v → ∃ e, shards m !! i = Some e ∧ e !! k = Some v.
Proof.
  unfold entries. rewrite list_lookup_total_alt.
  destruct (shards m !! i) as [e|]; cbn; [eauto|by rewrite lookup_empty].
Qed.

Lemma union_list_lookup (l : list (gmap K V)) k v :
  (∀ i j e e' v', l !! i = Some e → l !! j = Some e' → e !! k = Some v' → is_Some (e' !! k) → i = j) →
  (⋃ l) !! k = Some v ↔ ∃ i e, l !! i = Some e ∧ e !! k = Some v.
Proof.
  induction l as [|e l IH]; intros Hu; cbn.
  - rewrite lookup_empty. split; [done|]. by intros (i & e & Hi & ?).
  - rewrite lookup_union_Some_raw, IH; [|intros i j; intros; eapply (inj S), (Hu (S i) (S j)); eauto].
    split.
    + intros [Hv|(Hn & i & e' & Hi & Hv)]; [by exists 0, e|by exists (S i), e'].
    + intros ([|i] & e' & Hi & Hv); cbn in Hi; [left; congruence|].
      right. split; [|eauto]. destruct (e !! k) as [v'|] eqn:He; [|done].
      by pose proof (Hu 0 (S i) e e' v' eq_refl Hi He (mk_is_Some _ _ Hv)).
Qed.

Lemma abs_lookup m k : wf m → abs m !! k = Load m k.
Proof.
  intros [Hlen Hhome]. apply option_eq. intros v. unfold abs, Load.
  rewrite union_list_lookup.
  - split.
    + intros (i & e & Hi & Hv).
      assert (entries m i !! k = Some v) as He
        by (unfold entries; by rewrite (list_lookup_total_correct _ _ _ Hi)).
      by rewrite <-(Hhome _ _ _ He).
    + intros Hv. destruct (entries_lookup _ _ _ _ Hv) as (e & ? & ?); eauto.
  - intros i j e e' v' Hi Hj Hv [v'' Hv']. trans (shard m k); [|symmetry];
      (eapply Hhome; unfold entries; erewrite list_lookup_total_correct by eassumption; eassumption).
Qed.

(** Replacing the home shard of [k] by one that differs only at [k]. *)
Lemma wf_set m k e :
  wf m → (∀ k', k' ≠ k → e !! k' = entries m (shard m k) !! k') →
  wf (set_entries m (shard m k) e).
Proof.
  intros [Hlen Hhome] He. pose proof (shard_lt m k Hlen) as Hk. split.
  - cbn. by rewrite length_insert.
  - intros i k' v. rewrite entries_set, shard_set by done. case_decide as Hi; subst; [|apply Hhome].
    destruct (decide (k' = k)) as [->|Hne]; [done|]. rewrite He by done. apply Hhome.
Qed.

Lemma abs_set m k e k' :
  wf m → (∀ k', k' ≠ k → e !! k' = entries m (shard m k) !! k') →
  abs (set_entries m (shard m k) e) !! k' = if decide (k' = k) then e !! k else abs m !! k'.
Proof.
  intros Hwf He. pose proof (shard_lt m k (wf_shards _ Hwf)) as Hk.
  rewrite !abs_lookup by auto using wf_set. unfold Load. rewrite shard_set, entries_set by done.
  destruct (decide (k' = k)) as [->|Hne]; [by rewrite decide_True|].
  case_decide as Hs; [|done]. rewrite He by done. by rewrite Hs.
Qed.

Lemma New_wf Sprint n h : wf (NewShardedMap Sprint n h).
Proof.
  split; cbn.
  - rewrite length_replicate. destruct (n <=? 0)%Z eqn:?; lia.
  - intros i k v (e & He & Hv)%entries_lookup. apply lookup_replicate in He as [-> _].
    by rewrite lookup_empty in Hv.
Qed.

Lemma New_abs Sprint n h : abs (NewShardedMap Sprint n h) = ∅.
Proof.
  apply map_eq. intros k. rewrite lookup_empty. rewrite abs_lookup by apply New_wf.
  destruct (Load _ k) as [v|] eqn:Hv; [|done]. apply entries_lookup in Hv as (e & He & Hv).
  apply lookup_replicate in He as [-> _]. by rewrite lookup_empty in Hv.
Qed.

Lemma Store_wf m k v : wf m → wf (Store m k v).
Proof. intros ?. apply wf_set; [done|]. intros. by rewrite lookup_insert_ne. Qed.

Lemma Store_abs m k v : wf m → abs (Store m k v) = <[k := v]> (abs m).
Proof.
  intros ?. apply map_eq. intros k'. unfold Store.
  rewrite abs_set by (done || intros; by rewrite lookup_insert_ne).
  case_decide; subst; by rewrite ?lookup_insert_eq, ?lookup_insert_ne.
Qed.

Lemma Delete_wf m k : wf m → wf (Delete m k).
Proof. intros ?. apply wf_set; [done|]. intros. by rewrite lookup_delete_ne. Qed.

Lemma Delete_abs m k : wf m → abs (Delete m k) = delete k (abs m).
Proof.
  intros ?. apply map_eq. intros k'. unfold Delete.
  rewrite abs_set by (done || intros; by rewrite lookup_delete_ne).
  case_decide; subst; by rewrite ?lookup_delete_eq, ?lookup_delete_ne.
Qed.

Lemma Update_spec m k fn :
  Update m k fn =
  match fn (Load m k) with
  | None => (if bool_decide (is_Some (Load m k)) then Delete m k else m, bool_decide (is_Some (Load m k)))
  | Some next => (Store m k next, true)
  end.
Proof. done. Qed.

Lemma Update_wf m k fn : wf m → wf (Update m k fn).1.
Proof.
  intros. rewrite Update_spec. destruct (fn _); cbn [fst]; [by apply Store_wf|].
  case_bool_decide; auto using Delete_wf.
Qed.

(** [Update] is a partial alteration of the abstract map. *)
Lemma Update_abs m k fn : wf m → abs (Update m k fn).1 = partial_alter fn k (abs m).
Proof.
  intros Hwf. rewrite Update_spec. apply map_eq. intros k'.
  destruct (fn (Load m k)) as [v|] eqn:Hfn; cbn [fst].
  - rewrite Store_abs by done. destruct (decide (k' = k)) as [->|].
    + by rewrite lookup_insert_eq, lookup_partial_alter_eq, abs_lookup.
    + by rewrite lookup_insert_ne, lookup_partial_alter_ne.
  - assert (∀ k', abs (if bool_decide (is_Some (Load m k)) then Delete m k else m) !! k' = delete k (abs m) !! k') as ->.
    { intros k''. case_bool_decide as Hs; [by rewrite Delete_abs|].
      rewrite delete_id; [done|]. by rewrite abs_lookup, eq_None_not_Some. }
    destruct (decide (k' = k)) as [->|].
    + by rewrite lookup_delete_eq, lookup_partial_alter_eq, abs_lookup.
    + by rewrite lookup_delete_ne, lookup_partial_alter_ne.
Qed.

(** ** Histories of operations *)
Inductive map_op :=
| OpStore (k : K) (v : V)
| OpLoad (k : K)
| OpDelete (k : K)
| OpUpdate (k : K) (fn : option V → option V).

Inductive map_ret :=
| RNone
| RValue (v : option V)
| RBool (b : bool).

Definition exec_sharded (m : ShardedMap) (op : map_op) : ShardedMap * map_ret :=
  match op with
  | OpStore k v => (Store m k v, RNone)
  | OpLoad k => (m, RValue (Load m k))
  | OpDelete k => (Delete m k, RNone)
  | OpUpdate k fn => let '(m', b) := Update m k fn in (m', RBool b)
  end.

(** The specification: the same operations of one finite map.  [Update]
    reports whether the key was or is present. *)
Definition exec_map (m : gmap K V) (op : map_op) : gmap K V * map_ret :=
  match op with
  | OpStore k v => (<[k := v]> m, RNone)
  | OpLoad k => (m, RValue (m !! k))
  | OpDelete k => (delete k m, RNone)
  | OpUpdate k fn =>
      (partial_alter fn k m, RBool (bool_decide (is_Some (m !! k) ∨ is_Some (fn (m !! k)))))
  end.

Fixpoint run_ops {M : Type} (exec : M → map_op → M * map_ret) (m : M) (ops : list map_op) :
    M * list map_ret :=
  match ops with
  | [] => (m, [])
  | op :: ops =>
      let '(m, r) := exec m op in
      let '(m, rs) := run_ops exec m ops in
      (m, r :: rs)
  end.

Lemma exec_sharded_sim m op :
  wf m →
  wf (exec_sharded m op).1 ∧
  exec_map (abs m) op = (abs (exec_sharded m op).1, (exec_sharded m op).2).
Proof.
  intros Hwf. destruct op as [k v|k|k|k fn]; cbn [exec_sharded exec_map fst snd].
  - split; [by apply Store_wf|]. by rewrite Store_abs.
  - split; [done|]. by rewrite abs_lookup.
  - split; [by apply Delete_wf|]. by rewrite Delete_abs.
  - pose proof (Update_wf m k fn Hwf) as Hw. pose proof (Update_abs m k fn Hwf) as Ha.
    assert ((Update m k fn).2 =
      bool_decide (is_Some (abs m !! k) ∨ is_Some (fn (abs m !! k)))) as Hb.
    { rewrite abs_lookup, Update_spec by done. destruct (fn (Load m k)) eqn:Hf; cbn [snd].
      - symmetry. apply bool_decide_eq_true. eauto.
      - apply bool_decide_ext. split; [by left|]. by intros [?|[? ?]]. }
    destruct (Update m k fn) as [m' b]. cbn in *. subst b. by rewrite Ha.
Qed.

Lemma run_sharded_sim m ops :
  wf m →
  run_ops exec_map (abs m) ops =
    (abs (run_ops exec_sharded m ops).1, (run_ops exec_sharded m ops).2) ∧
  wf (run_ops exec_sharded m ops).1.
Proof.
  revert m. induction ops as [|op ops IH]; intros m Hwf; cbn; [done|].
  destruct (exec_sharded_sim m op Hwf) as [Hw ->].
  destruct (exec_sharded m op) as [m' r]. cbn in *. destruct (IH m' Hw) as [-> ?].
  by destruct (run_ops exec_sharded m' ops).
Qed.

(** ** Iteration *)

(** A callback that changes at most the shard of the key it is given, as
    one that deletes or updates its own key does. *)
Definition own_key {W} (get : W → ShardedMap) (fn : W → K → V → W * bool) : Prop :=
  ∀ s k v, let s' := (fn s k v).1 in
    length (shards (get s')) = length (shards (get s)) ∧ hash (get s') = hash (get s) ∧
    ∀ i, i ≠ shard (get s) k → entries (get s') i = entries (get s) i.

Section Range_lemmas.
Context {W : Type} (get : W → ShardedMap) (o : iter_order K V) (fn : W → K → V → W * bool).
Context (Hown : own_key get fn).

Lemma range_snapshot_app s l1 l2 :
  range_snapshot fn s (l1 ++ l2) =
  let '(s', c) := range_snapshot fn s l1 in
  if c then range_snapshot fn s' l2 else (s', false).
Proof.
  revert s. induction l1 as [|[k v] l1 IH]; intros s; cbn; [by destruct (range_snapshot _ _ _)|].
  destruct (fn s k v) as [s' []]; [apply IH|done].
Qed.

Lemma range_snapshot_frame s l i :
  (∀ k v, (k, v) ∈ l → shard (get s) k ≠ i) →
  entries (get (range_snapshot fn s l).1) i = entries (get s) i ∧
  ∀ k, shard (get (range_snapshot fn s l).1) k = shard (get s) k.
Proof.
  revert s. induction l as [|[k v] l IH]; intros s Hl; cbn; [done|].
  destruct (Hown s k v) as (Hlen & Hh & He). destruct (fn s k v) as [s' c]. cbn in *.
  assert (∀ k, shard (get s') k = shard (get s) k) as Hs by (intros; unfold shard; by rewrite Hlen, Hh).
  assert (entries (get s') i = entries (get s) i) as Hi.
  { apply He. intros ->. by apply (Hl k v); [left|]. }
  destruct c; cbn; [|done]. destruct (IH s') as [-> Hs'].
  - intros k' v' Hin. rewrite Hs. apply (Hl k' v'). by right.
  - split; [done|]. intros k'. by rewrite Hs', Hs.
Qed.

(** What the loop visits, computed from the map it starts with. *)
Definition visits (m : ShardedMap) (idx : list nat) : list (K * V) :=
  idx ≫= λ i, range_map o (entries m i).

Lemma range_shards_visits m s idx :
  NoDup idx → wf m →
  (∀ k, shard (get s) k = shard m k) → (∀ i, i ∈ idx → entries (get s) i = entries m i) →
  range_shards get o fn s idx = (range_snapshot fn s (visits m idx)).1.
Proof.
  intros Hnd Hwf. revert s. induction Hnd as [|i idx Hi Hnd IH]; intros s Hs He; cbn; [done|].
  rewrite (He i) by left. rewrite range_snapshot_app.
  assert (∀ j, j ∈ idx → ∀ k v, (k, v) ∈ range_map o (entries m i) → shard (get s) k ≠ j) as Hne.
  { intros j Hj k v Hin ->%eq_sym. apply elem_of_range_map in Hin.
    apply (wf_home _ Hwf) in Hin as ->. by rewrite Hs in Hj. }
  pose proof (λ j Hj, range_snapshot_frame s _ j (Hne j Hj)) as Hf.
  destruct idx as [|j idx].
  - cbn. by destruct (range_snapshot fn s _) as [s' []].
  - pose proof (Hf j ltac:(left)) as [_ Hsh].
    assert (∀ j', j' ∈ j :: idx →
      entries (get (range_snapshot fn s (range_map o (entries m i))).1) j' = entries m j') as Hen.
    { intros j' Hj'. destruct (Hf j' Hj') as [-> _]. apply He. by right. }
    destruct (range_snapshot fn s _) as [s' []]; [|done].
    apply IH; [|done]. intros k. cbn in Hsh. by rewrite Hsh.
Qed.

Lemma visits_perm m :
  wf m → visits m (seq 0 (length (shards m))) ≡ₚ map_to_list (abs m).
Proof.
  intros Hwf. apply NoDup_Permutation; [|apply NoDup_map_to_list|].
  - pose proof (NoDup_seq 0 (length (shards m))) as Hnd.
    induction Hnd as [|i idx Hi Hnd IH]; [constructor|]. cbn. apply NoDup_app.
    split; [apply NoDup_range_map|split; [|done]].
    intros [k v] Hin (j & Hj & Hidx)%list_elem_of_bind.
    apply elem_of_range_map in Hin. apply elem_of_range_map in Hj.
    apply (wf_home _ Hwf) in Hin as ->. apply (wf_home _ Hwf) in Hj as ->. done.
  - intros [k v]. rewrite elem_of_map_to_list, abs_lookup by done. unfold visits.
    rewrite list_elem_of_bind. split.
    + intros (i & Hin & _). apply elem_of_range_map in Hin. unfold Load.
      by rewrite <-(wf_home _ Hwf _ _ _ Hin).
    + intros Hv. exists (shard m k). split; [by apply elem_of_range_map|].
      apply elem_of_seq. pose proof (shard_lt m k (wf_shards _ Hwf)). lia.
Qed.

Lemma Range_visits s :
  wf (get s) →
  ∃ visited, visited ≡ₚ map_to_list (abs (get s)) ∧
    Range get o fn s = (range_snapshot fn s visited).1.
Proof.
  intros Hwf. exists (visits (get s) (seq 0 (length (shards (get s))))).
  split; [by apply visits_perm|]. apply range_shards_visits; [apply NoDup_seq|done..].
Qed.
End Range_lemmas.
End ShardedMap.
Arguments ShardedMap K {_ _} V.
#[global] Arguments Store : simpl never.
#[global] Arguments Load : simpl never.
#[global] Arguments Delete : simpl never.
#[global] Arguments Update : simpl never.
#[global] Arguments abs : simpl never.

(** A sharded map behaves as one map: for every number of shards, every
    hash function and every sequence of stores, loads, deletions and updates,
    the values returned are those of a single finite map subjected to the
    same operations, and the shards hold its entries. *)
Theorem sharded_map_refines_map `{Countable K} {V : Type} (Sprint : K → list Z)
    (shardCount : Z) (h : option (K → Z)) (ops : list (map_op (K := K) (V := V))) :
  let m := run_ops exec_sharded (NewShardedMap Sprint shardCount h) ops in
  run_ops exec_map ∅ ops = (abs m.1, m.2).
Proof.
  intros m. rewrite <-(New_abs Sprint shardCount h).
  apply run_sharded_sim, New_wf.
Qed.

(** A loop over a sharded map whose callback changes only the entry it is
    given (it may delete it) visits every entry present at the start exactly
    once, in some order, and stops early only when the callback says so. *)
Theorem Range_visits_each_once `{Countable K} {V W : Type}
    (get : W → ShardedMap K V) (o : iter_order K V) (fn : W → K → V → W * bool) (s : W) :
  own_key get fn → wf (get s) →
  ∃ visited, visited ≡ₚ map_to_list (abs (get s)) ∧
    Range get o fn s = (range_snapshot fn s visited).1.
Proof. intros. by apply Range_visits. Qed.

Lemma own_key_Delete `{Countable K} {V : Type} (p : K → V → bool) :
  own_key id (λ (m : ShardedMap K V) k v, (if p k v then Delete m k else m, true)).
Proof.
  intros m k v. cbn. destruct (p k v); cbn; [|done]. unfold Delete. cbn. rewrite length_insert.
  split_and!; [done..|]. intros i Hi. by apply list_lookup_total_insert_ne.
Qed.

Definition demo_map : ShardedMap Z bool := Store (NewShardedMap (λ k, [k]) 4 None) 7%Z true.
Definition demo_sweep (m : ShardedMap Z bool) (k : Z) (v : bool) : ShardedMap Z bool * bool :=
  (if v then Delete m k else m, true).

Lemma Range_visits_each_once_witness :
  ∃ visited, visited ≡ₚ map_to_list (abs demo_map) ∧
    Range id default_order demo_sweep demo_map = (range_snapshot demo_sweep demo_map visited).1.
Proof.
  apply (Range_visits_each_once id default_order demo_sweep demo_map).
  - apply (own_key_Delete (λ _ v, v)).
  - apply Store_wf, New_wf.
Defined.
