(* ===== verification/Backoff.v ===== *)
(** * Retry policy: pkg/retry/reconnect.go

    The exponential backoff used by the gateway's connections, by the
    registrar of worker machines and by speech recognition.  Durations are
    [int64] nanoseconds, the multiplier is a [float64], the clock an
    argument.  With the default multiplier the delays are exactly
    [min(initial * 2^n, max)], so no delay ever exceeds the cap, and a reset
    starts the sequence again. *)

From S2P Require Import Prelude.
From S2P Require Import GoFloat.

Record Backoff := {
  initial : Z;
  max : Z;
  multiplier : float64;
  current : Z;
  nextRetry : option Z; (* [None] is the zero [time.Time], before every instant *)
}.

Definition NewBackoff (initial max : Z) (multiplier : list float64) : Backoff :=
  {| initial := initial;
     max := max;
     multiplier :=
       match multiplier with
       | m :: _ => if float64_gt m float64_one then m else float64_two
       | [] => float64_two
       end;
     current := initial;
     nextRetry := None |}.

Definition advance (b : Backoff) : Backoff :=
  let c := int64_of_float64 (float64_mul (float64_of_int64 (current b)) (multiplier b)) in
  {| initial := initial b; max := max b; multiplier := multiplier b;
     current := if (max b <? c)%Z then max b else c;
     nextRetry := nextRetry b |}.

Definition Try (now : Z) (b : Backoff) : bool :=
  match nextRetry b with
  | None => true
  | Some t => negb (now <? t)%Z
  end.

Definition Fail_ (now : Z) (b : Backoff) : Backoff :=
  advance
    {| initial := initial b; max := max b; multiplier := multiplier b; current := current b;
       nextRetry := Some (now + current b)%Z |}.

(** [Wait] fixes the delay and advances before it blocks; whether the
    context ends first is up to the environment ([cancelled]). *)
Inductive wait_error := ErrContext.

Definition Wait (cancelled : bool) (b : Backoff) : Backoff * Z * result wait_error unit :=
  (advance b, current b, if cancelled then Err ErrContext else Ok tt).

Definition Reset_ (b : Backoff) : Backoff :=
  {| initial := initial b; max := max b; multiplier := multiplier b;
     current := initial b; nextRetry := None |}.

(** ** Histories *)
Inductive backoff_op :=
| OpTry (now : Z)
| OpFail (now : Z)
| OpWait (cancelled : bool)
| OpReset.

Definition exec (b : Backoff) (op : backoff_op) : Backoff :=
  match op with
  | OpTry _ => b
  | OpFail now => Fail_ now b
  | OpWait c => (Wait c b).1.1
  | OpReset => Reset_ b
  end.

(** The number of advances since the last reset. *)
Definition failures (ops : list backoff_op) : nat :=
  fold_left (λ n op,
    match op with
    | OpTry _ => n
    | OpFail _ | OpWait _ => S n
    | OpReset => 0
    end) ops 0.

(** The delay the [n]-th attempt in a row has to wait. *)
Definition ideal_delay (initial max : Z) (n : nat) : Z :=
  match n with
  | O => initial
  | S _ => Z.min (initial * 2 ^ Z.of_nat n) max
  end.

Definition regular (initial max : Z) : Prop := (0 ≤ initial < 2 ^ 52 ∧ 0 ≤ max < 2 ^ 52)%Z.

Lemma ideal_delay_range i m n :
  regular i m → (0 ≤ ideal_delay i m n ≤ Z.max i m)%Z.
Proof.
  intros [Hi Hm]. destruct n as [|n]; cbn [ideal_delay]; [lia|].
  pose proof (Z.pow_pos_nonneg 2 (Z.of_nat (S n))). nia.
Qed.

Lemma ideal_delay_advance i m n :
  regular i m →
  ideal_delay i m (S n) = Z.min (2 * ideal_delay i m n) m.
Proof.
  intros [Hi Hm]. cbn [ideal_delay]. rewrite Nat2Z.inj_succ, Z.pow_succ_r by lia.
  destruct n as [|n]; cbn [ideal_delay]; [lia|].
  pose proof (Z.pow_pos_nonneg 2 (Z.of_nat (S n))). nia.
Qed.

(** The state after any history: the delay is the ideal one. *)
Record at_failure (i m : Z) (n : nat) (b : Backoff) : Prop := {
  at_initial : initial b = i;
  at_max : max b = m;
  at_mult : multiplier b = float64_two;
  at_current : current b = ideal_delay i m n;
}.

Lemma advance_at i m n b :
  regular i m → at_failure i m n b → at_failure i m (S n) (advance b).
Proof.
  intros Hreg [Hi Hm Hmu Hc]. split; try done. cbn [current advance].
  rewrite Hc, Hmu, Hm. pose proof (ideal_delay_range i m n Hreg) as Hr.
  rewrite double_exact by (destruct Hreg; lia). rewrite ideal_delay_advance by done.
  destruct (Z.ltb_spec m (2 * ideal_delay i m n)); lia.
Qed.

Lemma Fail_at i m n now b :
  regular i m → at_failure i m n b → at_failure i m (S n) (Fail_ now b).
Proof. intros Hreg Hat. apply advance_at; [done|]. by destruct Hat. Qed.

Lemma exec_at i m ops b n :
  regular i m → at_failure i m n b →
  at_failure i m
    (fold_left (λ n op, match op with OpTry _ => n | OpFail _ | OpWait _ => S n | OpReset => 0 end) ops n)
    (fold_left exec ops b).
Proof.
  intros Hreg. revert b n. induction ops as [|op ops IH]; intros b n Hat; cbn; [done|].
  apply IH. destruct op; cbn [exec Wait fst]; [done| | |].
  - by apply Fail_at.
  - by apply advance_at.
  - destruct Hat. by split.
Qed.

(** After any history of attempts, failures, waits and resets of a
    backoff with the default multiplier, the next delay is exactly the
    initial delay doubled once per failure since the last reset, cut at the
    maximum; float rounding never shows, and no delay exceeds the larger of
    the initial and the maximal delay or is negative. *)
Theorem backoff_delays_bounded i m ops :
  (0 ≤ i < 2 ^ 52)%Z → (0 ≤ m < 2 ^ 52)%Z →
  let b := fold_left exec ops (NewBackoff i m []) in
  current b = ideal_delay i m (failures ops) ∧ (0 ≤ current b ≤ Z.max i m)%Z.
Proof.
  intros Hi Hm b. assert (regular i m) as Hreg by done.
  destruct (exec_at i m ops (NewBackoff i m []) 0 Hreg) as [_ _ _ Hc]; [by split|].
  fold (failures ops) in Hc. fold b in Hc. rewrite Hc. eauto using ideal_delay_range.
Qed.

(** The connections of the gateway: 500 ms doubling up to 10 s. *)
Lemma backoff_delays_bounded_witness :
  current (fold_left exec [OpFail 0; OpTry 7; OpWait false; OpFail 9; OpFail 9; OpFail 9]
    (NewBackoff 500000000 10000000000 [])) = 10000000000%Z.
Proof.
  destruct (backoff_delays_bounded 500000000 10000000000
    [OpFail 0; OpTry 7; OpWait false; OpFail 9; OpFail 9; OpFail 9]) as [H _]; [lia..|].
  etransitivity; [apply H|]. vm_compute. reflexivity.
Defined.

(** A failed attempt is retried only after its delay. *)
Lemma Fail_then_Try now later b :
  Try later (Fail_ now b) = (now + current b <=? later)%Z.
Proof. cbn. by rewrite Z.leb_antisym. Qed.
