(* ===== verification/Heap.v ===== *)
(** * Priority queues: container/heap

    The Go standard library's binary heap over [heap.Interface].  The
    functions [up], [down], [Push], [Fix] and [Remove] act on a container
    through its methods only; [HeapInterface] is that interface, and
    [HeapLaws] what its implementations promise: [Swap] exchanges two
    positions and [Less] compares their keys.  The connection pool of the
    gateway implements it. *)

From S2P Require Import Prelude.

(** ** Exchanging two positions of a list *)
Section swap.
Context {A : Type}.
Implicit Types l : list A.

Definition list_swap (i j : nat) l : list A :=
  match l !! i, l !! j with
  | Some a, Some b => <[i := b]> (<[j := a]> l)
  | _, _ => l
  end.

Lemma length_list_swap i j l : length (list_swap i j l) = length l.
Proof. unfold list_swap. repeat case_match; rewrite ?length_insert; done. Qed.

Lemma lookup_list_swap i j k l :
  i < length l → j < length l →
  list_swap i j l !! k = if decide (k = i) then l !! j else if decide (k = j) then l !! i else l !! k.
Proof.
  intros [a Ha]%lookup_lt_is_Some [b Hb]%lookup_lt_is_Some. unfold list_swap. rewrite Ha, Hb.
  pose proof (lookup_lt_Some _ _ _ Ha). pose proof (lookup_lt_Some _ _ _ Hb).
  destruct (decide (k = i)) as [->|].
  - apply list_lookup_insert_eq. rewrite length_insert. lia.
  - rewrite list_lookup_insert_ne by done. destruct (decide (k = j)) as [->|].
    + apply list_lookup_insert_eq. lia.
    + by rewrite list_lookup_insert_ne.
Qed.

Lemma list_swap_perm i j l : list_swap i j l ≡ₚ l.
Proof.
  unfold list_swap. destruct (l !! i) as [a|] eqn:Ha; [|done].
  destruct (l !! j) as [b|] eqn:Hb; [|done].
  by apply Permutation_insert_swap.
Qed.
End swap.

Lemma list_swap_fmap {A B} (f : A → B) i j (l : list A) : f <$> list_swap i j l = list_swap i j (f <$> l).
Proof.
  unfold list_swap. rewrite !list_lookup_fmap.
  destruct (l !! i), (l !! j); simpl; by rewrite ?list_fmap_insert.
Qed.

(** ** heap.Interface *)
Class HeapInterface (H : Type) := {
  Len : H → nat;
  Less : H → nat → nat → bool;
  Swap : H → nat → nat → H;
}.

Class HeapLaws (H K : Type) `{!HeapInterface H, !Inhabited K} (keys : H → list K) (leb : K → K → bool) := {
  Len_keys h : Len h = length (keys h);
  Less_keys h i j : i < Len h → j < Len h →
    Less h i j = negb (leb (keys h !!! j) (keys h !!! i));
  Swap_keys h i j : i < Len h → j < Len h → keys (Swap h i j) = list_swap i j (keys h);
  leb_total a b : leb a b = true ∨ leb b a = true;
  leb_trans a b c : leb a b = true → leb b c = true → leb a c = true;
}.

(** ** The functions of container/heap *)
Section heap.
Context {H : Type} `{!HeapInterface H}.

Definition parent (j : nat) : nat := (j - 1) / 2.

Fixpoint up (fuel : nat) (h : H) (j : nat) : H :=
  match fuel with
  | O => h
  | S fuel =>
    let i := parent j in
    if decide (i = j) then h
    else if Less h j i then up fuel (Swap h i j) i else h
  end.

(** [down] returns the position at which it stopped. *)
Fixpoint down (fuel : nat) (h : H) (i n : nat) : H * nat :=
  match fuel with
  | O => (h, i)
  | S fuel =>
    let j1 := 2 * i + 1 in
    if decide (n ≤ j1) then (h, i)
    else
      let j2 := j1 + 1 in
      let j := if decide (j2 < n) then (if Less h j2 j1 then j2 else j1) else j1 in
      if Less h j i then down fuel (Swap h i j) j n else (h, i)
  end.

Definition heap_up (h : H) (j : nat) : H := up (S j) h j.
(** [down] visits increasing positions below [n]: [n] rounds are enough. *)
Definition heap_down (h : H) (i0 n : nat) : H * bool :=
  let '(h, i) := down n h i0 n in (h, bool_decide (i0 < i)).

Definition Fix (h : H) (i : nat) : H :=
  let '(h, moved) := heap_down h i (Len h) in if moved then h else heap_up h i.

(** [Push] and [Remove] around the container's own [Push] and [Pop]. *)
Definition heap_Push {A} (push : H → A → H) (h : H) (x : A) : H :=
  let h := push h x in heap_up h (Len h - 1).

Definition heap_Remove {A} (pop : H → H * A) (h : H) (i : nat) : H * A :=
  let n := Len h - 1 in
  pop (if decide (n ≠ i) then
         let h := Swap h i n in
         let '(h, moved) := heap_down h i n in if moved then h else heap_up h i
       else h).

(** The exchanges of positions below [n]. *)
Inductive swaps (n : nat) : H → H → Prop :=
| swaps_refl h : swaps n h h
| swaps_step h i j h' : i < n → j < n → swaps n (Swap h i j) h' → swaps n h h'.

Lemma swaps_trans n h1 h2 h3 : swaps n h1 h2 → swaps n h2 h3 → swaps n h1 h3.
Proof. induction 1; eauto using swaps. Qed.

Lemma swaps_mono n m h h' : n ≤ m → swaps n h h' → swaps m h h'.
Proof. intros Hnm. induction 1 as [|h i j h1 Hi Hj _ IH]; [constructor|].
  apply (swaps_step m h i j); [lia|lia|done].
Qed.

Lemma parent_le j : parent j ≤ j.
Proof. unfold parent. pose proof (Nat.Div0.div_le_upper_bound (j - 1) 2 j). lia. Qed.

Lemma parent_lt j : 0 < j → parent j < j.
Proof. intros. unfold parent. apply Nat.Div0.div_lt_upper_bound. lia. Qed.

Lemma parent_child k i : parent k = i → 0 < k → k = 2 * i + 1 ∨ k = 2 * i + 2.
Proof.
  unfold parent. intros <- Hk. pose proof (Nat.div_mod (k - 1) 2 ltac:(lia)).
  pose proof (Nat.mod_upper_bound (k - 1) 2 ltac:(lia)). lia.
Qed.

Lemma parent_of_child i : parent (2 * i + 1) = i ∧ parent (2 * i + 2) = i.
Proof.
  unfold parent. replace (2 * i + 1 - 1) with (i * 2) by lia.
  replace (2 * i + 2 - 1) with (1 + i * 2) by lia.
  rewrite Nat.div_mul, Nat.div_add by lia. done.
Qed.

Lemma up_swaps fuel h j n : j < n → swaps n h (up fuel h j).
Proof.
  revert h j. induction fuel as [|fuel IH]; intros h j Hj; simpl; [constructor|].
  case_decide; [constructor|]. destruct (Less h j (parent j)); [|constructor].
  pose proof (parent_le j). eapply swaps_step; [| |apply IH]; lia.
Qed.

Lemma down_swaps fuel h i n : i < n → swaps n h (down fuel h i n).1.
Proof.
  revert h i. induction fuel as [|fuel IH]; intros h i Hi; simpl; [constructor|].
  case_decide as Hn; [constructor|].
  set (j := if decide _ then _ else _).
  assert (j < n) as Hj by (unfold j; repeat case_match; lia).
  destruct (Less h j i); [|constructor].
  eapply swaps_step; [| |apply IH]; done.
Qed.
End heap.

(** ** Correctness *)
Section correct.
Context {H K : Type} `{!HeapInterface H, !Inhabited K} (keys : H → list K) (leb : K → K → bool).
Context `{!HeapLaws H K keys leb}.

Notation "'key' h k" := (keys h !!! k) (at level 9, h at level 0, k at level 0).

(** The order between a position and its parent. *)
Definition edge (h : H) (k : nat) : Prop := leb (key h (parent k)) (key h k) = true.
(** The first [n] positions form a heap. *)
Definition is_heap (n : nat) (h : H) : Prop := ∀ k, 0 < k < n → edge h k.

Lemma leb_refl a : leb a a = true.
Proof. by destruct (leb_total a a). Qed.

Lemma leb_false a b : leb a b = false → leb b a = true.
Proof. intros Hab. destruct (leb_total a b); congruence. Qed.

Lemma key_Swap h i j k :
  i < Len h → j < Len h →
  key (Swap h i j) k = if decide (k = i) then key h j else if decide (k = j) then key h i else key h k.
Proof.
  intros Hi Hj. rewrite Swap_keys by done. rewrite !list_lookup_total_alt, lookup_list_swap
    by (by rewrite <-Len_keys). repeat case_decide; done.
Qed.

Lemma Len_Swap h i j : i < Len h → j < Len h → Len (Swap h i j) = Len h.
Proof. intros. by rewrite !Len_keys, Swap_keys, length_list_swap. Qed.

Lemma swaps_Len n h h' : n ≤ Len h → swaps n h h' → Len h' = Len h.
Proof.
  intros Hn Hs. induction Hs as [|h i j h' Hi Hj _ IH]; [done|].
  rewrite IH, ?Len_Swap by (rewrite ?Len_Swap; lia). done.
Qed.

(** Exchanges below [n] permute the keys and keep the rest in place. *)
Lemma swaps_keys n h h' : n ≤ Len h → swaps n h h' →
  keys h' ≡ₚ keys h ∧ ∀ k, n ≤ k → keys h' !! k = keys h !! k.
Proof.
  intros Hn Hs. induction Hs as [|h i j h' Hi Hj _ IH]; [done|].
  destruct IH as [IH1 IH2]; [rewrite Len_Swap; lia|].
  rewrite Swap_keys in * by lia. split.
  - by rewrite IH1, list_swap_perm.
  - intros k Hk. rewrite IH2, lookup_list_swap by (rewrite <-?Len_keys; lia).
    rewrite !decide_False by lia. done.
Qed.

(** The root of a heap is a minimum. *)
Lemma root_least n h k : is_heap n h → k < n → leb (key h 0) (key h k) = true.
Proof.
  intros Hh. induction (lt_wf k) as [k _ IH]. intros Hk.
  destruct (decide (k = 0)) as [->|]; [apply leb_refl|].
  pose proof (parent_lt k ltac:(lia)). eapply leb_trans; [apply (IH (parent k)); lia|].
  apply Hh. lia.
Qed.

(** Only the edge above [j] may be out of order, and the children of [j]
    are above its parent. *)
Definition up_ready (n : nat) (h : H) (j : nat) : Prop :=
  (∀ k, 0 < k < n → k ≠ j → edge h k) ∧
  (∀ k, 0 < k < n → parent k = j → 0 < j → leb (key h (parent j)) (key h k) = true).

Lemma up_heap fuel n h j :
  j < n → n ≤ Len h → j < fuel → up_ready n h j → is_heap n (up fuel h j).
Proof.
  revert h j. induction fuel as [|fuel IH]; intros h j Hj Hn Hf [H1 H2]; [lia|]. simpl.
  destruct (decide (parent j = j)) as [E|E].
  { assert (j = 0) as -> by (destruct j; [done|]; pose proof (parent_lt (S j)); lia).
    intros k Hk. apply H1; lia. }
  pose proof (parent_le j). assert (0 < j) as Hpos by (destruct j; [done|lia]).
  rewrite Less_keys by lia. destruct (leb _ _) eqn:El; simpl.
  { intros k Hk. destruct (decide (k = j)) as [->|]; [exact El|by apply H1]. }
  apply leb_false in El. apply IH; [lia|rewrite Len_Swap; lia|lia|]. split.
  - intros k Hk Hne. unfold edge. pose proof (parent_lt k ltac:(lia)).
    rewrite !key_Swap by lia. destruct (decide (k = j)) as [->|Hkj].
    + rewrite (decide_False (P:=j = parent j)), (decide_True (P:=parent j = parent j)) by lia.
      done.
    + rewrite (decide_False (P:=k = parent j)) by lia.
      destruct (decide (parent k = parent j)) as [Ep|].
      * eapply leb_trans; [exact El|]. rewrite <-Ep. by apply H1.
      * destruct (decide (parent k = j)) as [Ek|]; [by apply H2|by apply H1].
  - intros k Hk Hpk Hp. rewrite !key_Swap by lia.
    pose proof (parent_lt (parent j) Hp).
    rewrite (decide_False (P:=parent (parent j) = parent j)), (decide_False (P:=parent (parent j) = j)) by lia.
    pose proof (parent_lt k ltac:(lia)).
    rewrite (decide_False (P:=k = parent j)) by lia.
    assert (leb (key h (parent (parent j))) (key h (parent j)) = true) as Hpp by (apply H1; lia).
    destruct (decide (k = j)) as [->|]; [done|].
    eapply leb_trans; [exact Hpp|]. rewrite <-Hpk. apply H1; lia.
Qed.

(** Only the edges below [i] may be out of order, and at the start ([i =
    i0]) the one above it; the children of [i] are above its parent. *)
Definition down_ready (n : nat) (h : H) (i0 i : nat) : Prop :=
  (∀ k, 0 < k < n → parent k ≠ i → (i = i0 → k ≠ i0) → edge h k) ∧
  (∀ k, 0 < k < n → parent k = i → 0 < i → leb (key h (parent i)) (key h k) = true).

Lemma down_ge fuel h i n : i ≤ (down fuel h i n).2.
Proof.
  revert h i. induction fuel as [|fuel IH]; intros h i; simpl; [lia|].
  case_decide; [simpl; lia|]. set (j := if decide _ then _ else _).
  assert (i < j) by (unfold j; repeat case_match; lia).
  destruct (Less h j i); simpl; [|lia]. etrans; [|apply IH]. lia.
Qed.

(** The child [down] compares with is the smaller one. *)
Lemma smaller_child h i n :
  n ≤ Len h → 2 * i + 1 < n →
  let j := if decide (2 * i + 1 + 1 < n) then (if Less h (2 * i + 1 + 1) (2 * i + 1) then 2 * i + 1 + 1 else 2 * i + 1)
           else 2 * i + 1 in
  parent j = i ∧ i < j < n ∧ ∀ k, 0 < k < n → parent k = i → leb (key h j) (key h k) = true.
Proof.
  intros Hn Hc j. destruct (parent_of_child i) as [Hp1 Hp2].
  assert (j = 2 * i + 1 ∨ j = 2 * i + 2 ∧ 2 * i + 2 < n) as Hj.
  { unfold j. repeat case_match; try lia. }
  split; [destruct Hj as [->|[-> _]]; done|]. split; [lia|].
  intros k Hk Hpk. apply parent_child in Hpk; [|lia]. unfold j.
  destruct (decide (2 * i + 1 + 1 < n)) as [Hlt|Hge].
  2:{ assert (k = 2 * i + 1) as -> by lia. apply leb_refl. }
  rewrite Less_keys by lia.
  destruct (leb (key h (2 * i + 1)) (key h (2 * i + 1 + 1))) eqn:El; cbn [negb].
  - destruct Hpk as [->| ->]; [apply leb_refl|].
    by replace (2 * i + 2) with (2 * i + 1 + 1) by lia.
  - replace (2 * i + 2) with (2 * i + 1 + 1) in Hpk by lia.
    destruct Hpk as [->| ->]; [by apply leb_false|apply leb_refl].
Qed.

Lemma down_heap fuel n h i0 i :
  i < n → n ≤ Len h → n - i ≤ fuel → i0 ≤ i → down_ready n h i0 i →
  let r := down fuel h i n in
  (r.2 = i0 → up_ready n r.1 i0) ∧ (i0 < r.2 → is_heap n r.1).
Proof.
  revert h i. induction fuel as [|fuel IH]; intros h i Hi Hn Hf H0 [H1 H2]; [lia|]. cbn [down].
  (* stopping at [i]: its children are not smaller *)
  assert (∀ h', h' = h → (∀ k, 0 < k < n → parent k = i → edge h k) →
    (i = i0 → up_ready n h' i0) ∧ (i0 < i → is_heap n h')) as Hstop.
  { intros h' -> Hch. split.
    - intros ->. split; [|done]. intros k Hk Hne.
      destruct (decide (parent k = i0)); [by apply Hch|]. by apply H1.
    - intros Hlt k Hk. destruct (decide (parent k = i)); [by apply Hch|]. apply H1; [done..|lia]. }
  case_decide as Hc.
  { apply Hstop; [done|]. intros k Hk Hp. destruct (parent_child k i Hp); lia. }
  pose proof (smaller_child h i n Hn ltac:(lia)) as Hj. cbv zeta in Hj |- *.
  set (j := if decide _ then _ else _) in *. destruct Hj as (Hpj & Hij & Hmin).
  rewrite Less_keys by lia. destruct (leb (key h i) (key h j)) eqn:El; cbn [negb].
  { apply Hstop; [done|]. intros k Hk Hp. unfold edge. rewrite Hp.
    eapply leb_trans; [exact El|]. by apply Hmin. }
  apply leb_false in El.
  assert (down_ready n (Swap h i j) i0 j) as Hr.
  { split.
    - intros k Hk Hpk _. unfold edge. pose proof (parent_lt k ltac:(lia)).
      rewrite !key_Swap by lia. rewrite (decide_False (P:=parent k = j)) by done.
      destruct (decide (k = i)) as [->|Hki].
      + rewrite (decide_False (P:=parent i = i)) by lia. apply H2; lia.
      + destruct (decide (k = j)) as [->|Hkj].
        * rewrite Hpj, decide_True by done. exact El.
        * destruct (decide (parent k = i)) as [Ep|]; [by apply Hmin|]. apply H1; try done. congruence.
    - intros k Hk Hpk Hpos. pose proof (parent_lt k ltac:(lia)).
      rewrite Hpj, !key_Swap by lia. rewrite (decide_True (P:=i = i)) by done.
      rewrite (decide_False (P:=k = i)), (decide_False (P:=k = j)) by lia.
      rewrite <-Hpk. apply H1; [lia|lia|intros <-; lia]. }
  destruct (IH (Swap h i j) j) as [_ IHb]; [lia|rewrite Len_Swap; lia|lia|lia|done|].
  pose proof (down_ge fuel (Swap h i j) j n). split; [lia|]. intros _. apply IHb. lia.
Qed.

(** A position whose key changed in an otherwise ordered heap. *)
Definition fix_ready (n : nat) (h : H) (i : nat) : Prop :=
  (∀ k, 0 < k < n → parent k ≠ i → k ≠ i → edge h k) ∧
  (∀ k, 0 < k < n → parent k = i → 0 < i → leb (key h (parent i)) (key h k) = true).

Lemma heap_fix n h i :
  i < n → n ≤ Len h → fix_ready n h i →
  let '(h', moved) := heap_down h i n in
  let r := if moved then h' else heap_up h' i in
  is_heap n r ∧ swaps n h r.
Proof.
  intros Hi Hn [H1 H2]. unfold heap_down, heap_up.
  pose proof (down_swaps n h i n Hi) as Hs.
  destruct (down_heap n n h i i Hi Hn ltac:(lia) ltac:(lia)) as [Ha Hb].
  { split; [|done]. intros k Hk Hp Hne. apply H1; auto. }
  pose proof (down_ge n h i n) as Hge.
  destruct (down n h i n) as [h' e]. cbn [fst snd] in *. case_bool_decide as Hmv.
  - auto.
  - assert (e = i) as -> by lia. pose proof (swaps_Len n h h' Hn Hs).
    split; [apply up_heap; [lia|lia|lia|auto]|].
    eapply swaps_trans; [done|]. by apply up_swaps.
Qed.

Lemma is_heap_mono n m h : n ≤ m → is_heap m h → is_heap n h.
Proof. intros Hnm Hh k Hk. apply Hh. lia. Qed.

(** The edges that do not touch [i] are those of the old heap. *)
Lemma fix_ready_agree n h0 h i :
  is_heap n h0 → (∀ k, k < n → k ≠ i → key h k = key h0 k) → fix_ready n h i.
Proof.
  intros Hh Hk. split.
  - intros k Hkn Hp Hne. unfold edge. pose proof (parent_lt k ltac:(lia)).
    rewrite !Hk by lia. by apply Hh.
  - intros k Hkn Hp Hi. pose proof (parent_lt k ltac:(lia)). pose proof (parent_lt i ltac:(lia)).
    rewrite !Hk by lia. eapply leb_trans; [apply (Hh i); lia|].
    pose proof (Hh k Hkn) as He. unfold edge in He. by rewrite Hp in He.
Qed.

(** [heap.Fix] restores a heap after one key changed. *)
Lemma Fix_heap h0 h i :
  Len h = Len h0 → i < Len h → is_heap (Len h0) h0 →
  (∀ k, k < Len h → k ≠ i → key h k = key h0 k) →
  is_heap (Len (Fix h i)) (Fix h i) ∧ swaps (Len h) h (Fix h i).
Proof.
  intros Hl Hi Hh Hk. pose proof (heap_fix (Len h) h i Hi ltac:(lia)) as HF.
  unfold Fix. destruct (heap_down h i (Len h)) as [h' moved].
  destruct HF as [HF Hs]. { eapply fix_ready_agree; [|exact Hk]. by rewrite Hl. }
  split; [|done]. by rewrite (swaps_Len _ _ _ (le_n _) Hs).
Qed.

(** [heap.Push] keeps a heap when the container's [Push] appends. *)
Lemma Push_heap {A} (push : H → A → H) h x k :
  keys (push h x) = keys h ++ [k] → is_heap (Len h) h →
  is_heap (Len (heap_Push push h x)) (heap_Push push h x) ∧
  swaps (Len (push h x)) (push h x) (heap_Push push h x).
Proof.
  intros Hpush Hh. unfold heap_Push, heap_up. set (h' := push h x) in *.
  assert (Len h' = S (Len h)) as Hl.
  { rewrite !Len_keys, Hpush, length_app. simpl. lia. }
  pose proof (up_swaps (S (Len h' - 1)) h' (Len h' - 1) (Len h') ltac:(lia)) as Hs.
  split; [|done]. rewrite (swaps_Len _ _ _ (le_n _) Hs).
  assert (∀ k, k < Len h → key h' k = key h k) as Hagree.
  { intros i Hi. rewrite Hpush, lookup_total_app_l; [done|]. by rewrite <-Len_keys. }
  apply up_heap; [lia..|]. split.
  - intros i Hi Hne. unfold edge. pose proof (parent_lt i ltac:(lia)).
    rewrite !Hagree by lia. apply Hh. lia.
  - intros i Hi Hp Hpos. destruct (parent_child i _ Hp); lia.
Qed.

(** The heap [heap.Remove] leaves to the container's [Pop]: the position is
    exchanged with the last one, and the others are put in order again. *)
Lemma Remove_heap {A} (pop : H → H * A) h i :
  let n := Len h - 1 in
  i < Len h → is_heap (Len h) h →
  ∃ h', heap_Remove pop h i = pop h' ∧ is_heap n h' ∧
        (i = n ∧ h' = h ∨ i ≠ n ∧ swaps n (Swap h i n) h').
Proof.
  intros n Hi Hh. unfold heap_Remove. fold n. case_decide as Hn.
  - assert (n < Len h) as Hlast by lia. assert (Len (Swap h i n) = Len h) as Hl by (by apply Len_Swap).
    pose proof (heap_fix n (Swap h i n) i ltac:(lia) ltac:(lia)) as HF.
    destruct (heap_down (Swap h i n) i n) as [h1 moved]. cbv zeta in HF |- *.
    exists (if moved then h1 else heap_up h1 i).
    destruct HF as [HF Hs].
    { apply (fix_ready_agree n h); [eapply is_heap_mono; [|done]; lia|].
      intros k Hk Hne. rewrite key_Swap by lia. rewrite !decide_False by lia. done. }
    auto.
  - assert (n = i) as <- by lia. exists h. split; [done|].
    split; [eapply is_heap_mono; [|done]; lia|]. auto.
Qed.
End correct.
