(* ===== verification/IndexedHeap.v ===== *)
(** * Heaps whose items know their position

    Both connection pools keep their connections in a container/heap whose
    items record their index, so that an item can be moved or removed when
    its rank changes.  [IndexedHeap] is what the two containers have in
    common: a queue of addresses, a column of indexes, the items behind the
    addresses and their ranks.  The lemmas say what [Fix], [Push] and
    [Remove] of container/heap do to such a container. *)

From S2P Require Import Prelude.
From S2P Require Import Heap.

Class IndexedHeap (H I K : Type) `{!HeapInterface H, !Inhabited K}
    (queue : H → list nat) (idx : H → gmap nat Z) (items : H → I)
    (rank_of : I → nat → K) (leb : K → K → bool) := {
  ih_Len h : Len h = length (queue h);
  ih_Less h i j a b : queue h !! i = Some a → queue h !! j = Some b →
    Less h i j = negb (leb (rank_of (items h) b) (rank_of (items h) a));
  ih_Swap h i j a b : queue h !! i = Some a → queue h !! j = Some b →
    queue (Swap h i j) = list_swap i j (queue h) ∧
    idx (Swap h i j) = <[a := Z.of_nat j]> (<[b := Z.of_nat i]> (idx h)) ∧
    items (Swap h i j) = items h;
  ih_total a b : leb a b = true ∨ leb b a = true;
  ih_trans a b c : leb a b = true → leb b c = true → leb a c = true;
}.

Section indexed.
Context {H I K : Type} `{!HeapInterface H, !Inhabited K}
  (queue : H → list nat) (idx : H → gmap nat Z) (items : H → I) (rank_of : I → nat → K) (leb : K → K → bool).
Context `{!IndexedHeap H I K queue idx items rank_of leb}.

Definition ranks_of (h : H) : list K := (λ c, rank_of (items h) c) <$> queue h.

Lemma ranks_of_lookup h i c : queue h !! i = Some c → ranks_of h !!! i = rank_of (items h) c.
Proof. intros Hc. unfold ranks_of. apply list_lookup_total_correct. by rewrite list_lookup_fmap, Hc. Qed.

#[local] Instance indexed_laws : HeapLaws H K ranks_of leb.
Proof.
  split.
  - intros h. unfold ranks_of. by rewrite length_fmap, ih_Len.
  - intros h i j Hi Hj. rewrite ih_Len in Hi, Hj.
    destruct (lookup_lt_is_Some_2 _ _ Hi) as [a Ha]. destruct (lookup_lt_is_Some_2 _ _ Hj) as [b Hb].
    rewrite (ranks_of_lookup _ _ _ Ha), (ranks_of_lookup _ _ _ Hb). by apply ih_Less.
  - intros h i j Hi Hj. rewrite ih_Len in Hi, Hj.
    destruct (lookup_lt_is_Some_2 _ _ Hi) as [a Ha]. destruct (lookup_lt_is_Some_2 _ _ Hj) as [b Hb].
    destruct (ih_Swap h i j a b Ha Hb) as (Eq & _ & Ei). unfold ranks_of.
    by rewrite Eq, Ei, list_swap_fmap.
  - apply ih_total.
  - apply ih_trans.
Qed.

(** Every queued item knows its position, and parents rank first. *)
Definition indexed (h : H) : Prop :=
  NoDup (queue h) ∧ ∀ i c, queue h !! i = Some c → idx h !! c = Some (Z.of_nat i).
Definition heap_ordered (h : H) : Prop := is_heap ranks_of leb (Len h) h.

Lemma indexed_Swap h i j : i < Len h → j < Len h → indexed h → indexed (Swap h i j).
Proof.
  rewrite ih_Len. intros Hi Hj [Hnd Hx].
  destruct (lookup_lt_is_Some_2 _ _ Hi) as [a Ha]. destruct (lookup_lt_is_Some_2 _ _ Hj) as [b Hb].
  destruct (ih_Swap h i j a b Ha Hb) as (Eq & Ex & _).
  split; [rewrite Eq; by rewrite list_swap_perm|].
  intros k c. rewrite Eq, Ex, lookup_list_swap by done. destruct (decide (k = i)) as [->|].
  - rewrite Hb. intros [= <-]. destruct (decide (a = b)) as [->|].
    + rewrite lookup_insert_eq. by rewrite (NoDup_lookup _ _ _ _ Hnd Ha Hb).
    + by rewrite lookup_insert_ne, lookup_insert_eq.
  - destruct (decide (k = j)) as [->|].
    + rewrite Ha. intros [= <-]. by rewrite lookup_insert_eq.
    + intros Hc. rewrite !lookup_insert_ne; [auto| |].
      * intros ->. by pose proof (NoDup_lookup _ _ _ _ Hnd Hb Hc).
      * intros ->. by pose proof (NoDup_lookup _ _ _ _ Hnd Ha Hc).
Qed.

Lemma swaps_indexed n h h' :
  n ≤ Len h → swaps n h h' →
  items h' = items h ∧ queue h' ≡ₚ queue h ∧ (indexed h → indexed h') ∧
  ∀ k, n ≤ k → queue h' !! k = queue h !! k.
Proof.
  intros Hn Hs. induction Hs as [|h i j h' Hi Hj _ IH]; [done|].
  assert (i < length (queue h) ∧ j < length (queue h)) as [Hi' Hj'] by (rewrite <-ih_Len; lia).
  destruct (lookup_lt_is_Some_2 _ _ Hi') as [a Ha]. destruct (lookup_lt_is_Some_2 _ _ Hj') as [b Hb].
  destruct (ih_Swap h i j a b Ha Hb) as (Eq & _ & Ei).
  destruct IH as (IH1 & IH2 & IH3 & IH4).
  { rewrite ih_Len, Eq, length_list_swap, <-ih_Len. done. }
  split; [by rewrite IH1|]. split; [rewrite IH2, Eq; apply list_swap_perm|].
  split; [intros Hx; apply IH3, indexed_Swap; [lia..|done]|].
  intros k Hk. rewrite IH4, Eq, lookup_list_swap by done. by rewrite !decide_False by lia.
Qed.

Lemma indexed_position h c :
  indexed h → c ∈ queue h → ∃ i, queue h !! i = Some c ∧ idx h !!! c = Z.of_nat i.
Proof.
  intros [_ Hx] [i Hi]%list_elem_of_lookup. exists i. split; [done|]. apply lookup_total_correct. auto.
Qed.

(** Changing the rank of one queued item and fixing its position. *)
Lemma Fix_indexed h h1 c :
  indexed h → heap_ordered h → c ∈ queue h →
  queue h1 = queue h → idx h1 = idx h →
  (∀ c', c' ≠ c → rank_of (items h1) c' = rank_of (items h) c') →
  let h2 := Fix h1 (Z.to_nat (idx h1 !!! c)) in
  indexed h2 ∧ heap_ordered h2 ∧ queue h2 ≡ₚ queue h ∧ items h2 = items h1.
Proof.
  intros Hx Hh Hc Eq Ex Er h2. destruct (indexed_position h c Hx Hc) as (i & Hi & Hidx).
  pose proof (lookup_lt_Some _ _ _ Hi) as Hlt.
  unfold h2. rewrite Ex, Hidx, Nat2Z.id.
  assert (indexed h1) as Hx1 by (by unfold indexed; rewrite Eq, Ex).
  destruct (Fix_heap ranks_of leb h h1 i) as [Hh2 Hs].
  - by rewrite !ih_Len, Eq.
  - by rewrite ih_Len, Eq.
  - done.
  - intros k Hk Hne. rewrite ih_Len, Eq in Hk. destruct (lookup_lt_is_Some_2 _ _ Hk) as [c' Hc'].
    rewrite (ranks_of_lookup h _ _ Hc'), (ranks_of_lookup h1 k c') by (by rewrite Eq).
    apply Er. intros ->. destruct Hx as [Hnd _]. by pose proof (NoDup_lookup _ _ _ _ Hnd Hi Hc').
  - destruct (swaps_indexed _ _ _ (le_n _) Hs) as (Hit & Hq & Hx' & _).
    split_and!; [auto|done|by rewrite Hq, Eq|done].
Qed.

(** Pushing a new item with a container's [Push] that appends it. *)
Lemma Push_indexed (push : H → nat → H) h h1 c :
  indexed h → heap_ordered h → c ∉ queue h →
  queue h1 = queue h → idx h1 = idx h →
  (∀ c', c' ≠ c → rank_of (items h1) c' = rank_of (items h) c') →
  queue (push h1 c) = queue h1 ++ [c] → idx (push h1 c) = <[c := Z.of_nat (length (queue h1))]> (idx h1) →
  items (push h1 c) = items h1 →
  let h2 := heap_Push push h1 c in
  indexed h2 ∧ heap_ordered h2 ∧ queue h2 ≡ₚ c :: queue h ∧ items h2 = items h1.
Proof.
  intros [Hnd Hx] Hh Hc Eq Ex Er Pq Px Pi h2.
  assert (ranks_of h1 = ranks_of h) as Hr.
  { unfold ranks_of. rewrite Eq. apply list_fmap_ext. intros i c' Hc'. apply Er. intros ->.
    apply Hc. by eapply list_elem_of_lookup_2. }
  destruct (Push_heap ranks_of leb push h1 c (rank_of (items h1) c)) as [Hh2 Hs].
  { unfold ranks_of. by rewrite Pq, Pi, fmap_app. }
  { intros k Hk. rewrite ih_Len, Eq, <-ih_Len in Hk. specialize (Hh k Hk). unfold edge in *. by rewrite Hr. }
  assert (indexed (push h1 c)) as Hx1.
  { split; rewrite ?Pq, ?Px, Eq, ?Ex.
    - apply NoDup_app. split; [done|]. split; [|apply NoDup_singleton].
      by intros x Hx' ->%list_elem_of_singleton.
    - intros i c' Hi. apply lookup_app_Some in Hi as [Hi|[Hge Hi]].
      + rewrite lookup_insert_ne; [by apply Hx|]. intros ->. apply Hc. by eapply list_elem_of_lookup_2.
      + apply list_lookup_singleton_Some in Hi as [? <-]. rewrite lookup_insert_eq. f_equal. lia. }
  destruct (swaps_indexed _ _ _ (le_n _) Hs) as (Hit & Hq & Hx' & _).
  split_and!; [by apply Hx'|done| |by rewrite <-Pi]. unfold h2. rewrite Hq, Pq, Eq. by rewrite (comm (++)).
Qed.

(** What remains when the last item of a heap is popped. *)
Lemma pop_last (h' h2 : H) c :
  indexed h' → is_heap ranks_of leb (length (queue h') - 1) h' →
  queue h' !! (length (queue h') - 1) = Some c →
  queue h2 = take (length (queue h') - 1) (queue h') → idx h2 = <[c := (-1)%Z]> (idx h') → items h2 = items h' →
  indexed h2 ∧ heap_ordered h2 ∧ queue h' ≡ₚ c :: queue h2.
Proof.
  intros [Hnd Hx] Hh Hlast Eq Ex Ei. set (n := length (queue h') - 1) in *.
  assert (queue h' = take n (queue h') ++ [c]) as Hsplit.
  { rewrite <-(take_drop n (queue h')) at 1. f_equal. rewrite (drop_S _ _ _ Hlast), drop_ge by lia. done. }
  split; [|split].
  - rewrite Hsplit in Hnd. apply NoDup_app in Hnd as (Hnd1 & Hnot & _). split; rewrite Eq, ?Ex; [done|].
    intros k c' Hk. pose proof Hk as Hk'. apply lookup_take_Some in Hk as [Hk Hkn].
    rewrite lookup_insert_ne; [by apply Hx|]. intros ->.
    apply (Hnot c'); [by eapply list_elem_of_lookup_2|]. by apply list_elem_of_singleton.
  - intros k Hk. rewrite ih_Len, Eq, length_take in Hk. specialize (Hh k ltac:(lia)).
    unfold edge in *. pose proof (parent_lt k ltac:(lia)).
    assert (∀ j, j < n → ranks_of h2 !!! j = ranks_of h' !!! j) as Hr.
    { intros j Hj. destruct (lookup_lt_is_Some_2 (queue h') j ltac:(lia)) as [cj Hcj].
      rewrite (ranks_of_lookup h' _ _ Hcj), (ranks_of_lookup h2 j cj), Ei; [done|].
      rewrite Eq. by rewrite lookup_take_lt. }
    by rewrite !Hr by lia.
  - rewrite Hsplit at 1. rewrite Eq. by rewrite (comm (++)).
Qed.

(** Removing an item with a container's [Pop] that takes the last one. *)
Lemma Remove_indexed {A} (pop : H → H * A) h c :
  (∀ h c, queue h !! (length (queue h) - 1) = Some c →
     queue (pop h).1 = take (length (queue h) - 1) (queue h) ∧
     idx (pop h).1 = <[c := (-1)%Z]> (idx h) ∧ items (pop h).1 = items h) →
  indexed h → heap_ordered h → c ∈ queue h →
  let h2 := (heap_Remove pop h (Z.to_nat (idx h !!! c))).1 in
  (0 ≤ idx h !!! c)%Z ∧ indexed h2 ∧ heap_ordered h2 ∧ queue h ≡ₚ c :: queue h2 ∧ items h2 = items h.
Proof.
  intros Hpop Hx Hh Hc h2. destruct (indexed_position h c Hx Hc) as (i & Hi & Hidx).
  pose proof (lookup_lt_Some _ _ _ Hi) as Hlt. unfold h2. rewrite Hidx, Nat2Z.id. split; [lia|].
  destruct (Remove_heap ranks_of leb pop h i) as (h' & -> & Hh' & Hs); [by rewrite ih_Len|exact Hh|].
  rewrite ih_Len in Hh', Hs. set (n := length (queue h) - 1) in *.
  assert (items h' = items h ∧ queue h' ≡ₚ queue h ∧ indexed h' ∧ queue h' !! n = Some c)
    as (Hit & Hq & Hx' & Hlast).
  { destruct Hs as [[-> ->]|[Hne Hs]]; [done|].
    destruct (lookup_lt_is_Some_2 (queue h) n ltac:(lia)) as [z Hz].
    destruct (ih_Swap h i n c z Hi Hz) as (Eq & _ & Ei).
    assert (Len (Swap h i n) = length (queue h)) as Hl by (by rewrite ih_Len, Eq, length_list_swap).
    destruct (swaps_indexed n (Swap h i n) h' ltac:(lia) Hs) as (Hit & Hq & Hx' & Hk).
    split_and!; [by rewrite Hit|rewrite Hq, Eq; apply list_swap_perm| |].
    - apply Hx', indexed_Swap; [rewrite ih_Len; lia..|done].
    - rewrite Hk, Eq, lookup_list_swap by lia. by rewrite decide_False, decide_True by lia. }
  assert (length (queue h') = length (queue h)) as Hl by (by rewrite Hq).
  destruct (Hpop h' c) as (Pq & Px & Pi); [by rewrite Hl|].
  destruct (pop_last h' (pop h').1 c Hx') as (R1 & R2 & R3); [by rewrite Hl| |done..|].
  - by rewrite Hl.
  - split_and!; [done|done|by rewrite <-Hq|by rewrite Pi].
Qed.
End indexed.
