(* ===== verification/GatewayPool.v ===== *)
(** * The gateway's connection pool

    [internal/gateway/pool.go]: one pool per machine multiplexes sessions
    over WebSocket connections.  Sessions are bound to the least loaded
    usable connection, which the pool keeps at the root of a heap; sessions
    for which no connection has room wait, and the pool dials more
    connections when the target load is reached.

    The objects the code shares by pointer are addresses here: connections
    (with the state their WebSocket callbacks change at any time), and
    session bindings (the handles sessions keep).  The fields of a
    [pooledConnection] are kept under the address of its connection; its
    field [index], which only the heap writes, is the column [idx] of the
    heap.  Each method body that holds the mutex is one atomic operation. *)

From S2P Require Import Prelude.
From S2P Require Import Protocol.
From S2P Require Import Heap.
From S2P Require Import IndexedHeap.

Open Scope Z_scope.

(** ** Configuration *)
Record ConnectionPoolConfig := mkConfig {
  MinConnections : Z; TargetSessionsPerConnection : Z; MaxSessionsPerConnection : Z;
  MaxConnections : Z; IdleTimeout : Z; CleanupInterval : Z;
}.

Definition defaultMinConnections : Z := 1.
Definition defaultTargetSessionsPerConnection : Z := 16.
Definition defaultMaxSessionsPerConnection : Z := 64.
Definition defaultIdleTimeout : Z := 30 * 10 ^ 9.
Definition defaultCleanupInterval : Z := 5 * 10 ^ 9.

Definition or_default (x d : Z) : Z := if decide (x ≤ 0) then d else x.

Definition defaultConnectionPoolConfig (cfg : ConnectionPoolConfig) : ConnectionPoolConfig :=
  let max_s := or_default (MaxSessionsPerConnection cfg) defaultMaxSessionsPerConnection in
  let target := or_default (TargetSessionsPerConnection cfg) defaultTargetSessionsPerConnection in
  mkConfig (or_default (MinConnections cfg) defaultMinConnections)
    (if decide (max_s < target) then max_s else target) max_s
    (MaxConnections cfg) (or_default (IdleTimeout cfg) defaultIdleTimeout)
    (or_default (CleanupInterval cfg) defaultCleanupInterval).

Definition connectionPriorityActive : Z := 0.
Definition connectionPriorityConnecting : Z := 1.
Definition connectionPriorityUnavailable : Z := 2.

Section pool.
Context {Key : Type} `{Countable Key}.

(** ** Pooled connections and their heap *)
Record pooledConnection := mkItem {
  id : Z; state : ConnectionState; load : Z; priority : Z;
  idleSince : option Z;            (* the zero time is [None] *)
  sessions : gset Key;
}.
#[export] Instance pooledConnection_inhabited : Inhabited pooledConnection :=
  populate (mkItem 0 ConnectionUnknown 0 0 None ∅).

Record connectionMinHeap := mkHeap {
  queue : list nat; idx : gmap nat Z; items : gmap nat pooledConnection;
}.

(** The order of [Less]: by priority, then load, then id. *)
Definition rank (it : pooledConnection) : Z * Z * Z := (priority it, load it, id it).
Definition rank_leb (a b : Z * Z * Z) : bool :=
  let '(p1, l1, i1) := a in
  let '(p2, l2, i2) := b in
  if decide (p1 = p2) then (if decide (l1 = l2) then i1 <=? i2 else l1 <? l2) else p1 <? p2.
Definition ranks (h : connectionMinHeap) : list (Z * Z * Z) :=
  (λ c, rank (items h !!! c)) <$> queue h.

Definition heap_Less (h : connectionMinHeap) (i j : nat) : bool :=
  let a := items h !!! (queue h !!! i) in
  let b := items h !!! (queue h !!! j) in
  if decide (priority a ≠ priority b) then priority a <? priority b
  else if decide (load a ≠ load b) then load a <? load b
  else id a <? id b.

Definition heap_Swap (h : connectionMinHeap) (i j : nat) : connectionMinHeap :=
  match queue h !! i, queue h !! j with
  | Some a, Some b =>
    mkHeap (list_swap i j (queue h)) (<[a := Z.of_nat j]> (<[b := Z.of_nat i]> (idx h))) (items h)
  | _, _ => h
  end.

#[export] Instance connectionMinHeap_interface : HeapInterface connectionMinHeap := {
  Len h := length (queue h);
  Less := heap_Less;
  Swap := heap_Swap;
}.

(** [Push] and [Pop] of the container. *)
Definition minheap_Push (h : connectionMinHeap) (c : nat) : connectionMinHeap :=
  mkHeap (queue h ++ [c]) (<[c := Z.of_nat (length (queue h))]> (idx h)) (items h).
Definition minheap_Pop (h : connectionMinHeap) : connectionMinHeap * option nat :=
  let last := (length (queue h) - 1)%nat in
  match queue h !! last with
  | Some c => (mkHeap (take last (queue h)) (<[c := -1]> (idx h)) (items h), Some c)
  | None => (h, None)
  end.

(** ** The pool *)
Record gauges := mkGauges {
  connectionsActive : Z; connectionsConnecting : Z; sessionsRouted : Z;
  pendingDialsGauge : Z; reconnects : Z;
}.

Record ConnectionPool := mkPool {
  config : ConnectionPoolConfig;
  nextID : Z;
  connections : gset nat;
  pq : connectionMinHeap;
  routes : gmap Key nat;
  bindings : gmap Key nat;          (* addresses of SessionBindings *)
  closed : bool;
  pendingDials : Z;
  metrics : gauges;
  (* shared objects *)
  handles : gmap nat (option nat);  (* SessionBinding.conn *)
  conns : gmap nat ConnectionState; (* Connection.state *)
  dialing : nat;                    (* goroutines in startDial *)
}.

Implicit Types p : ConnectionPool.

Definition set_pq p h := mkPool (config p) (nextID p) (connections p) h (routes p) (bindings p)
  (closed p) (pendingDials p) (metrics p) (handles p) (conns p) (dialing p).
Definition set_routes p r g := mkPool (config p) (nextID p) (connections p) (pq p) r (bindings p)
  (closed p) (pendingDials p) g (handles p) (conns p) (dialing p).
Definition set_handles p hs := mkPool (config p) (nextID p) (connections p) (pq p) (routes p) (bindings p)
  (closed p) (pendingDials p) (metrics p) hs (conns p) (dialing p).
Definition set_bindings p b hs := mkPool (config p) (nextID p) (connections p) (pq p) (routes p) b
  (closed p) (pendingDials p) (metrics p) hs (conns p) (dialing p).
Definition set_metrics p g := mkPool (config p) (nextID p) (connections p) (pq p) (routes p) (bindings p)
  (closed p) (pendingDials p) g (handles p) (conns p) (dialing p).
Definition set_connections p cs h := mkPool (config p) (nextID p) cs h (routes p) (bindings p)
  (closed p) (pendingDials p) (metrics p) (handles p) (conns p) (dialing p).
Definition set_conns p cs := mkPool (config p) (nextID p) (connections p) (pq p) (routes p) (bindings p)
  (closed p) (pendingDials p) (metrics p) (handles p) cs (dialing p).
(** [pendingDials] with its gauge, and the dialing goroutines. *)
Definition set_pending p (d : Z) (n : nat) := mkPool (config p) (nextID p) (connections p) (pq p) (routes p)
  (bindings p) (closed p) (pendingDials p + d)
  (mkGauges (connectionsActive (metrics p)) (connectionsConnecting (metrics p)) (sessionsRouted (metrics p))
     (pendingDialsGauge (metrics p) + d) (reconnects (metrics p)))
  (handles p) (conns p) n.

Definition add_routed (g : gauges) (d : Z) : gauges :=
  mkGauges (connectionsActive g) (connectionsConnecting g) (sessionsRouted g + d) (pendingDialsGauge g) (reconnects g).
(** The counter of connections in state [st], the others being uncounted. *)
Definition add_state (st : ConnectionState) (d : Z) (g : gauges) : gauges :=
  match st with
  | ConnectionActive => mkGauges (connectionsActive g + d) (connectionsConnecting g) (sessionsRouted g) (pendingDialsGauge g) (reconnects g)
  | ConnectionConnecting => mkGauges (connectionsActive g) (connectionsConnecting g + d) (sessionsRouted g) (pendingDialsGauge g) (reconnects g)
  | _ => g
  end.
Definition add_reconnect (g : gauges) : gauges :=
  mkGauges (connectionsActive g) (connectionsConnecting g) (sessionsRouted g) (pendingDialsGauge g) (reconnects g + 1).

Definition State p (c : nat) : ConnectionState := default ConnectionUnknown (conns p !! c).

Definition item p (c : nat) : pooledConnection := items (pq p) !!! c.
Definition upd_item (c : nat) (f : pooledConnection → pooledConnection) p : ConnectionPool :=
  set_pq p (mkHeap (queue (pq p)) (idx (pq p)) (alter f c (items (pq p)))).
Definition len_conns p : Z := Z.of_nat (size (connections p)).

Definition selectLocked p : option nat :=
  match queue (pq p) !! 0%nat with
  | None => None
  | Some c => if decide (priority (item p c) = connectionPriorityUnavailable) then None else Some c
  end.

Definition priorityLocked p (c : nat) (it : pooledConnection) : Z :=
  if decide (MaxSessionsPerConnection (config p) ≤ load it) then connectionPriorityUnavailable
  else match State p c with
       | ConnectionActive => connectionPriorityActive
       | ConnectionConnecting => connectionPriorityConnecting
       | _ => connectionPriorityUnavailable
       end.

Definition with_priority (pr : Z) (it : pooledConnection) : pooledConnection :=
  mkItem (id it) (state it) (load it) pr (idleSince it) (sessions it).

(** [heap.Fix(&p.queue, item.index)] after the priority is recomputed. *)
Definition refreshLocked (c : nat) p : ConnectionPool :=
  let p := upd_item c (λ it, with_priority (priorityLocked p c it) it) p in
  set_pq p (Fix (pq p) (Z.to_nat (idx (pq p) !!! c))).

Definition attachLocked (key : Key) (b : nat) (c : nat) p : ConnectionPool :=
  let p := set_routes p (<[key := c]> (routes p)) (add_routed (metrics p) 1) in
  let p := upd_item c (λ it, mkItem (id it) (state it) (load it + 1) (priority it) None ({[key]} ∪ sessions it)) p in
  let p := set_handles p (<[b := Some c]> (handles p)) in
  refreshLocked c p.

Fixpoint assign_loop (bs : list (Key * nat)) p : ConnectionPool :=
  match bs with
  | [] => p
  | (key, b) :: bs =>
    match routes p !! key with
    | Some _ => assign_loop bs p
    | None =>
      match selectLocked p with
      | None => p
      | Some c => assign_loop bs (attachLocked key b c p)
      end
    end
  end.
Definition assignPendingLocked (o : iter_order Key nat) p : ConnectionPool :=
  assign_loop (range_map o (bindings p)) p.

(** The result says whether a dial was reserved; the caller then starts
    [startDial] on a goroutine. *)
Definition reserveDialLocked p : bool * ConnectionPool :=
  if decide (0 < pendingDials p ∨ closed p = true ∨
             (0 < MaxConnections (config p) ∧ MaxConnections (config p) ≤ len_conns p + pendingDials p))
  then (false, p)
  else (true, set_pending p 1 (S (dialing p))).

Definition reserveScaleLocked p : bool * ConnectionPool :=
  if decide (0 < pendingDials p) then (false, p)
  else match selectLocked p with
       | None => (false, p)
       | Some c =>
         if decide (priority (item p c) ≠ connectionPriorityActive ∨
                    load (item p c) < TargetSessionsPerConnection (config p))
         then (false, p) else reserveDialLocked p
       end.

Definition newSessionBinding (key : Key) (conn : option nat) p : ConnectionPool * nat :=
  let b := fresh (dom (handles p)) in
  (set_bindings p (<[key := b]> (bindings p)) (<[b := conn]> (handles p)), b).

Definition Bind (key : Key) p : ConnectionPool * nat :=
  match bindings p !! key with
  | Some b => (p, b)
  | None =>
    let '(p, b) := newSessionBinding key None p in
    match selectLocked p with
    | Some c =>
      let p := attachLocked key b c p in
      (if decide (priority (item p c) = connectionPriorityActive) then (reserveScaleLocked p).2 else p, b)
    | None => ((reserveDialLocked p).2, b)
    end
  end.

Definition TryBind (key : Key) p : ConnectionPool * option nat * bool :=
  match bindings p !! key with
  | Some b =>
    (p, Some b, match handles p !! b with
                | Some (Some c) => bool_decide (State p c = ConnectionActive)
                | _ => false
                end)
  | None =>
    match selectLocked p with
    | None => ((reserveDialLocked p).2, None, false)
    | Some c =>
      if decide (priority (item p c) ≠ connectionPriorityActive ∨ State p c ≠ ConnectionActive)
      then (p, None, false)
      else
        let '(p, b) := newSessionBinding key (Some c) p in
        let p := attachLocked key b c p in
        ((reserveScaleLocked p).2, Some b, true)
    end
  end.

Definition Unbind (o : iter_order Key nat) (now : Z) (key : Key) p : ConnectionPool :=
  let p := set_bindings p (delete key (bindings p)) (handles p) in
  match routes p !! key with
  | None => p
  | Some c =>
    let p := set_routes p (delete key (routes p)) (metrics p) in
    let p := upd_item c (λ it, mkItem (id it) (state it) (load it) (priority it) (idleSince it) (sessions it ∖ {[key]})) p in
    let p :=
      if decide (0 < load (item p c)) then
        let p := upd_item c (λ it, mkItem (id it) (state it) (load it - 1) (priority it) (idleSince it) (sessions it)) p in
        refreshLocked c (set_metrics p (add_routed (metrics p) (-1)))
      else p in
    let p :=
      if decide (load (item p c) = 0)
      then upd_item c (λ it, mkItem (id it) (state it) (load it) (priority it) (Some now) (sessions it)) p
      else p in
    assignPendingLocked o p
  end.

Definition recordConnectionRemovalLocked (c : nat) p : ConnectionPool :=
  let p := set_metrics p (add_state (state (item p c)) (-1) (metrics p)) in
  upd_item c (λ it, mkItem (id it) ConnectionClosed (load it) (priority it) (idleSince it) (sessions it)) p.

(** The loop over [item.sessions]; its rounds commute. *)
Definition drop_route (c : nat) (key : Key) p : ConnectionPool :=
  if decide (routes p !! key = Some c) then
    set_handles (set_routes p (delete key (routes p)) (add_routed (metrics p) (-1)))
      (match bindings p !! key with
       | Some b => <[b := None]> (handles p)
       | None => handles p
       end)
  else p.

Definition removeLocked (c : nat) p : ConnectionPool :=
  if decide (c ∉ connections p) then p
  else
    let i := idx (pq p) !!! c in
    let p := set_connections p (connections p ∖ {[c]})
               (if decide (0 ≤ i) then (heap_Remove minheap_Pop (pq p) (Z.to_nat i)).1 else pq p) in
    let p := recordConnectionRemovalLocked c p in
    let p := foldr (drop_route c) p (elements (sessions (item p c))) in
    upd_item c (λ it, mkItem (id it) (state it) (load it) (priority it) (idleSince it) ∅) p.

Definition syncConnectionState (o : iter_order Key nat) (c : nat) p : ConnectionPool :=
  if decide (c ∉ connections p) then p
  else
    let st := State p c in
    let old := state (item p c) in
    let p :=
      if decide (old ≠ st) then
        let g := add_state st 1 (add_state old (-1) (metrics p)) in
        let g := if decide (old = ConnectionActive ∧ st = ConnectionConnecting) then add_reconnect g else g in
        upd_item c (λ it, mkItem (id it) st (load it) (priority it) (idleSince it) (sessions it)) (set_metrics p g)
      else p in
    if decide (st = ConnectionClosed) then assignPendingLocked o (removeLocked c p)
    else refreshLocked c p.

(** [startDial] when [newConnection] fails, and when it returns. *)
Definition startDial_failed p : ConnectionPool := set_pending p (-1) (dialing p - 1)%nat.

Definition startDial (o : iter_order Key nat) p : ConnectionPool :=
  let c := fresh (dom (conns p)) in
  let p := set_pending p (-1) (dialing p - 1)%nat in
  if closed p then set_conns p (<[c := ConnectionClosed]> (conns p))
  else
    let p := set_conns p (<[c := ConnectionConnecting]> (conns p)) in
    let it := mkItem (nextID p + 1) (State p c) 0 0 None ∅ in
    let it := with_priority (priorityLocked p c it) it in
    let p := set_metrics p (add_state (state it) 1 (metrics p)) in
    let h := pq p in
    let h := heap_Push minheap_Push (mkHeap (queue h) (idx h) (<[c := it]> (items h))) c in
    let p := mkPool (config p) (nextID p + 1) ({[c]} ∪ connections p) h (routes p) (bindings p) (closed p)
               (pendingDials p) (metrics p) (handles p) (conns p) (dialing p) in
    assignPendingLocked o p.

(** [cleanupIdle]: [cs] is the order in which the runtime visits the map. *)
Definition idle_expired (now : Z) (c : nat) p : Prop :=
  MinConnections (config p) < len_conns p ∧ load (item p c) = 0 ∧
  match idleSince (item p c) with
  | Some t => IdleTimeout (config p) ≤ now - t
  | None => False
  end.
#[export] Instance idle_expired_dec now c p : Decision (idle_expired now c p).
Proof. unfold idle_expired. destruct (idleSince (item p c)); apply _. Defined.

Definition cleanupIdle (now : Z) (cs : list nat) p : ConnectionPool :=
  foldl (λ p c, if decide (idle_expired now c p) then removeLocked c p else p) p cs.

(** [Shutdown]: the swap of the flag, then the part under the mutex. *)
Definition Shutdown_begin p : ConnectionPool :=
  mkPool (config p) (nextID p) (connections p) (pq p) (routes p) (bindings p) true (pendingDials p)
    (metrics p) (handles p) (conns p) (dialing p).

Definition clear_handles (bs : gmap Key nat) (hs : gmap nat (option nat)) : gmap nat (option nat) :=
  map_fold (λ _ b hs, <[b := None]> hs) hs bs.

Definition Shutdown_locked p : ConnectionPool :=
  let hs := clear_handles (bindings p) (handles p) in
  let p := foldr recordConnectionRemovalLocked p (elements (connections p)) in
  let g := add_routed (metrics p) (- Z.of_nat (size (routes p))) in
  mkPool (config p) (nextID p) ∅ (mkHeap [] (idx (pq p)) (items (pq p))) ∅ ∅ (closed p) (pendingDials p)
    g hs (conns p) (dialing p).

Definition startMinConnections p : ConnectionPool :=
  let n := Z.to_nat (MinConnections (config p) - (len_conns p + pendingDials p)) in
  set_pending p (Z.of_nat n) (n + dialing p)%nat.

Definition newConnectionPool (cfg : ConnectionPoolConfig) : ConnectionPool :=
  mkPool (defaultConnectionPoolConfig cfg) 0 ∅ (mkHeap [] ∅ ∅) ∅ ∅ false 0 (mkGauges 0 0 0 0 0) ∅ ∅ 0.
Definition NewConnectionPool (cfg : ConnectionPoolConfig) : ConnectionPool :=
  startMinConnections (newConnectionPool cfg).

Record ConnectionPoolSnapshot := mkSnapshot {
  SnapID : Z; SnapState : ConnectionState; SnapSessions : Z; SnapIdleSince : Z;
}.
(** [UnixMilli] of a time in nanoseconds; the zero time reads 0. *)
Definition Snapshots p : list ConnectionPoolSnapshot :=
  (λ c, mkSnapshot (id (item p c)) (State p c) (load (item p c)) (default 0 ((λ t, t / 10 ^ 6) <$> idleSince (item p c))))
    <$> elements (connections p).

(** ** The heap of the pool *)
Lemma ranks_lookup h i :
  (i < length (queue h))%nat → ranks h !!! i = rank (items h !!! (queue h !!! i)).
Proof.
  intros [c Hc]%lookup_lt_is_Some. unfold ranks.
  rewrite (list_lookup_total_correct _ _ _ Hc). apply list_lookup_total_correct.
  by rewrite list_lookup_fmap, Hc.
Qed.

#[local] Instance connectionMinHeap_indexed :
  IndexedHeap connectionMinHeap (gmap nat pooledConnection) (Z * Z * Z)
    queue idx items (λ its c, rank (its !!! c)) rank_leb.
Proof.
  split.
  - done.
  - intros h i j a b Ha Hb. cbn. unfold heap_Less. rewrite (list_lookup_total_correct _ _ _ Ha),
      (list_lookup_total_correct _ _ _ Hb). unfold rank, rank_leb. repeat case_decide; lia.
  - intros h i j a b Ha Hb. cbn. unfold heap_Swap. by rewrite Ha, Hb.
  - intros [[p1 l1] i1] [[p2 l2] i2]. unfold rank_leb. repeat case_decide; lia.
  - intros [[p1 l1] i1] [[p2 l2] i2] [[p3 l3] i3]. unfold rank_leb. repeat case_decide; lia.
Qed.

#[local] Instance connectionMinHeap_laws : HeapLaws connectionMinHeap (Z * Z * Z) ranks rank_leb.
Proof. exact (indexed_laws queue idx items (λ its c, rank (its !!! c)) rank_leb). Qed.

(** Every pooled connection knows its position, and parents rank first. *)
Definition indexed (h : connectionMinHeap) : Prop := IndexedHeap.indexed queue idx h.
Definition heap_ordered (h : connectionMinHeap) : Prop := is_heap ranks rank_leb (Len h) h.

(** Changing the fields of one queued item and fixing its position. *)
Lemma Fix_pool h f c :
  indexed h → heap_ordered h → c ∈ queue h →
  let h1 := mkHeap (queue h) (idx h) (alter f c (items h)) in
  let h2 := Fix h1 (Z.to_nat (idx h1 !!! c)) in
  indexed h2 ∧ heap_ordered h2 ∧ queue h2 ≡ₚ queue h ∧ items h2 = alter f c (items h).
Proof.
  intros Hx Hh Hc h1.
  apply (Fix_indexed queue idx items (λ its c, rank (its !!! c)) rank_leb h h1 c Hx Hh Hc); try done.
  intros c' Hne. cbn. by rewrite lookup_total_alter_ne.
Qed.

(** Pushing a new item. *)
Lemma Push_pool h c it :
  indexed h → heap_ordered h → c ∉ queue h →
  let h1 := mkHeap (queue h) (idx h) (<[c := it]> (items h)) in
  let h2 := heap_Push minheap_Push h1 c in
  indexed h2 ∧ heap_ordered h2 ∧ queue h2 ≡ₚ c :: queue h ∧ items h2 = <[c := it]> (items h).
Proof.
  intros Hx Hh Hc h1.
  apply (Push_indexed queue idx items (λ its c, rank (its !!! c)) rank_leb minheap_Push h h1 c Hx Hh Hc); try done.
  intros c' Hne. cbn. by rewrite lookup_total_insert_ne.
Qed.

(** Removing an item. *)
Lemma Remove_pool h c :
  indexed h → heap_ordered h → c ∈ queue h →
  let h2 := (heap_Remove minheap_Pop h (Z.to_nat (idx h !!! c))).1 in
  0 ≤ idx h !!! c ∧ indexed h2 ∧ heap_ordered h2 ∧ queue h ≡ₚ c :: queue h2 ∧ items h2 = items h.
Proof.
  apply (Remove_indexed queue idx items (λ its c, rank (its !!! c)) rank_leb minheap_Pop).
  intros h' c' Hc'. unfold minheap_Pop. by rewrite Hc'.
Qed.

(** ** The invariant of the pool *)

(** The pooled connections recorded in state [st]. *)
Definition n_state (st : ConnectionState) p : Z :=
  Z.of_nat (size (filter (λ c, state (item p c) = st) (connections p))).

(** The cached priority: a full connection is unavailable, and only a full
    or closed one is. *)
Definition prio_ok p (c : nat) : Prop :=
  priority (item p c) ≤ connectionPriorityUnavailable ∧
  (MaxSessionsPerConnection (config p) ≤ load (item p c) →
     priority (item p c) = connectionPriorityUnavailable) ∧
  (priority (item p c) = connectionPriorityUnavailable →
     MaxSessionsPerConnection (config p) ≤ load (item p c) ∨ State p c = ConnectionClosed).

Record books p : Prop := {
  bk_max : 0 < MaxSessionsPerConnection (config p);
  bk_some c : c ∈ connections p → is_Some (items (pq p) !! c);
  bk_conn c : c ∈ connections p → State p c ≠ ConnectionUnknown;
  bk_load c : c ∈ connections p →
    load (item p c) = Z.of_nat (size (sessions (item p c))) ∧
    load (item p c) ≤ MaxSessionsPerConnection (config p);
  bk_prio c : c ∈ connections p → prio_ok p c;
  bk_sess c k : c ∈ connections p → k ∈ sessions (item p c) ↔ routes p !! k = Some c;
  bk_route k c : routes p !! k = Some c → c ∈ connections p ∧
    ∃ b, bindings p !! k = Some b ∧ handles p !! b = Some (Some c);
  bk_wait k b : bindings p !! k = Some b → routes p !! k = None → handles p !! b = Some None;
  bk_inj k1 k2 b : bindings p !! k1 = Some b → bindings p !! k2 = Some b → k1 = k2;
  bk_routed : sessionsRouted (metrics p) = Z.of_nat (size (routes p));
  bk_active : connectionsActive (metrics p) = n_state ConnectionActive p;
  bk_connecting : connectionsConnecting (metrics p) = n_state ConnectionConnecting p;
  bk_pending : pendingDialsGauge (metrics p) = pendingDials p ∧ pendingDials p = Z.of_nat (dialing p);
  bk_bound : 0 < MaxConnections (config p) →
    len_conns p + pendingDials p ≤ Z.max (MaxConnections (config p)) (MinConnections (config p));
}.

(** The heap holds the pooled connections, in order. *)
Record queue_ok p : Prop := {
  qk_idx : indexed (pq p);
  qk_heap : heap_ordered (pq p);
  qk_elem c : c ∈ queue (pq p) ↔ c ∈ connections p;
}.

Definition waiting p (k : Key) : Prop := is_Some (bindings p !! k) ∧ routes p !! k = None.
(** Nobody waits while a connection is usable. *)
Definition no_waste p : Prop :=
  ∀ k c, waiting p k → c ∈ connections p → priority (item p c) = connectionPriorityUnavailable.

Definition pool_ok p : Prop := books p ∧ queue_ok p ∧ no_waste p.

(** *** Items *)
Lemma item_upd c c' f p :
  is_Some (items (pq p) !! c) →
  item (upd_item c f p) c' = if decide (c' = c) then f (item p c) else item p c'.
Proof.
  intros [it Hit]. unfold item, upd_item. cbn. case_decide as Hc; subst.
  - rewrite (lookup_total_correct _ _ _ Hit). apply lookup_total_correct.
    by rewrite lookup_alter_eq, Hit.
  - by rewrite lookup_total_alter_ne.
Qed.

Lemma upd_item_id c p : upd_item c (λ it, it) p = p.
Proof. unfold upd_item. rewrite alter_id by done. by destruct p as [? ? ? [? ? ?]]. Qed.

(** Fields that do not enter the order. *)
Lemma upd_item_queue c f p :
  queue_ok p → is_Some (items (pq p) !! c) → (∀ it, rank (f it) = rank it) →
  queue_ok (upd_item c f p).
Proof.
  intros [Hx Hh He] Hc Hr. split; [exact Hx| |exact He].
  assert (ranks (pq (upd_item c f p)) = ranks (pq p)) as E.
  { unfold ranks. cbn. apply list_fmap_ext. intros i c' _.
    destruct (decide (c' = c)) as [->|]; [|by rewrite lookup_total_alter_ne].
    destruct Hc as [it Hit]. rewrite (lookup_total_correct _ _ _ Hit).
    rewrite (lookup_total_correct (alter _ _ _) c (f it)); [done|]. by rewrite lookup_alter_eq, Hit. }
  intros k Hk. specialize (Hh k Hk). unfold edge in *. by rewrite E.
Qed.

Lemma alter_twice (g f : pooledConnection → pooledConnection) c (m : gmap nat pooledConnection) :
  alter g c (alter f c m) = alter (λ it, g (f it)) c m.
Proof.
  apply map_eq. intros i. destruct (decide (i = c)) as [->|].
  - rewrite !lookup_alter_eq. by destruct (m !! c).
  - by rewrite !lookup_alter_ne.
Qed.

(** What [refreshLocked] does after the fields of the item changed. *)
Lemma refresh_spec c f p :
  queue_ok p → c ∈ connections p →
  ∃ h, refreshLocked c (upd_item c f p) = set_pq p h ∧
    queue_ok (set_pq p h) ∧
    items h = alter (λ it, with_priority (priorityLocked p c (f it)) (f it)) c (items (pq p)).
Proof.
  intros [Hx Hh He] Hc.
  destruct (Fix_pool (pq p) (λ it, with_priority (priorityLocked p c (f it)) (f it)) c Hx Hh)
    as (Hx2 & Hh2 & Hq2 & Hi2); [by apply He|]. cbn [idx] in *.
  eexists. split; [|split; [|exact Hi2]].
  - unfold refreshLocked, upd_item. cbn. rewrite alter_twice. reflexivity.
  - split; [exact Hx2|exact Hh2|]. intros c'. cbn [set_pq pq connections]. by rewrite Hq2.
Qed.

Lemma item_refresh c f p h c' :
  is_Some (items (pq p) !! c) →
  items h = alter (λ it, with_priority (priorityLocked p c (f it)) (f it)) c (items (pq p)) →
  item (set_pq p h) c' =
    if decide (c' = c) then with_priority (priorityLocked p c (f (item p c))) (f (item p c)) else item p c'.
Proof.
  intros Hs Hh. unfold item at 1. cbn [set_pq pq]. rewrite Hh.
  exact (item_upd c c' (λ it, with_priority (priorityLocked p c (f it)) (f it)) p Hs).
Qed.

Lemma prio_computed p c it :
  State p c ≠ ConnectionUnknown →
  let pr := priorityLocked p c it in
  pr ≤ connectionPriorityUnavailable ∧
  (MaxSessionsPerConnection (config p) ≤ load it → pr = connectionPriorityUnavailable) ∧
  (pr = connectionPriorityUnavailable →
     MaxSessionsPerConnection (config p) ≤ load it ∨ State p c = ConnectionClosed).
Proof.
  intros Hst. unfold priorityLocked, connectionPriorityUnavailable, connectionPriorityActive, connectionPriorityConnecting.
  case_decide; [repeat split; auto; lia|]. destruct (State p c); repeat split; auto; try done; lia.
Qed.

(** *** Selection *)

(** The connection [selectLocked] returns is usable and least in the order
    of the heap; when it returns none, none is usable. *)
Lemma select_spec p :
  books p → queue_ok p →
  match selectLocked p with
  | Some c => c ∈ connections p ∧ priority (item p c) < connectionPriorityUnavailable ∧
      ∀ c', c' ∈ connections p → rank_leb (rank (item p c)) (rank (item p c')) = true
  | None => ∀ c, c ∈ connections p → priority (item p c) = connectionPriorityUnavailable
  end.
Proof.
  intros Hb [Hx Hh He].
  assert (∀ c c', queue (pq p) !! 0%nat = Some c → c' ∈ connections p →
    rank_leb (rank (item p c)) (rank (item p c')) = true) as Hroot.
  { intros c c' H0 Hc'. apply He in Hc'. apply list_elem_of_lookup in Hc' as [k Hk].
    pose proof (lookup_lt_Some _ _ _ H0). pose proof (lookup_lt_Some _ _ _ Hk).
    pose proof (root_least ranks rank_leb (Len (pq p)) (pq p) k Hh ltac:(cbn; lia)) as Hr.
    rewrite !ranks_lookup in Hr by done.
    by rewrite (list_lookup_total_correct _ _ _ H0), (list_lookup_total_correct _ _ _ Hk) in Hr. }
  unfold selectLocked. destruct (queue (pq p) !! 0%nat) as [c|] eqn:E.
  - assert (c ∈ connections p) as Hc by (apply He; by eapply list_elem_of_lookup_2).
    destruct (bk_prio p Hb c Hc) as [Hle _]. case_decide as Hu.
    + intros c' Hc'. specialize (Hroot c c' eq_refl Hc').
      destruct (bk_prio p Hb c' Hc') as [Hle' _].
      unfold rank_leb, rank in Hroot. repeat case_decide; lia.
    + split; [done|]. split; [lia|]. eauto.
  - intros c Hc. apply He in Hc. apply lookup_ge_None in E.
    apply list_elem_of_lookup in Hc as [k Hk%lookup_lt_Some]. lia.
Qed.

(** *** Attaching a session *)
Definition attach_item (k : Key) (it : pooledConnection) : pooledConnection :=
  mkItem (id it) (state it) (load it + 1) (priority it) None ({[k]} ∪ sessions it).
Definition attach_books (k : Key) (b c : nat) p : ConnectionPool :=
  set_handles (set_routes p (<[k := c]> (routes p)) (add_routed (metrics p) 1)) (<[b := Some c]> (handles p)).

Lemma attach_spec k b c p :
  queue_ok p → c ∈ connections p →
  ∃ h, attachLocked k b c p = set_pq (attach_books k b c p) h ∧
    queue_ok (set_pq (attach_books k b c p) h) ∧
    items h = alter (λ it, with_priority (priorityLocked p c (attach_item k it)) (attach_item k it)) c (items (pq p)).
Proof.
  intros Hq Hc.
  destruct (refresh_spec c (attach_item k) (attach_books k b c p)) as (h & E & Hq' & Hi); [by destruct Hq|done|].
  exists h. split; [|done]. rewrite <-E. reflexivity.
Qed.

(** Counting by recorded state only reads the states. *)
Lemma n_state_ext st p p' :
  connections p' = connections p → (∀ c, c ∈ connections p → state (item p' c) = state (item p c)) →
  n_state st p' = n_state st p.
Proof.
  intros Hc Hs. unfold n_state. rewrite Hc. do 2 f_equal. apply set_eq. intros c.
  rewrite !elem_of_filter. split; intros [Hst Hin]; (split; [|done]); rewrite <-Hst; rewrite Hs by done; done.
Qed.

Lemma attach_ok k b c p :
  books p → queue_ok p → bindings p !! k = Some b → routes p !! k = None →
  c ∈ connections p → priority (item p c) < connectionPriorityUnavailable →
  books (attachLocked k b c p) ∧ queue_ok (attachLocked k b c p).
Proof.
  intros Hb Hq Hk Hr Hc Hp. destruct (attach_spec k b c p Hq Hc) as (h & -> & Hq' & Hi).
  split; [|done]. pose proof (bk_some p Hb c Hc) as Hsome.
  assert (∀ c', item (set_pq (attach_books k b c p) h) c' =
    if decide (c' = c) then with_priority (priorityLocked p c (attach_item k (item p c))) (attach_item k (item p c))
    else item p c') as Hit by (intros c'; exact (item_refresh c (attach_item k) p h c' Hsome Hi)).
  destruct (bk_load p Hb c Hc) as [Hl Hmax].
  assert (k ∉ sessions (item p c)) as Hnot by (rewrite (bk_sess p Hb c k Hc); congruence).
  assert (load (item p c) < MaxSessionsPerConnection (config p)) as Hroom.
  { destruct (bk_prio p Hb c Hc) as (_ & Hf & _).
    destruct (decide (MaxSessionsPerConnection (config p) ≤ load (item p c))) as [Hge|]; [|lia].
    specialize (Hf Hge). lia. }
  assert (∀ k' b', bindings p !! k' = Some b' → k' ≠ k → b' ≠ b) as Hinj.
  { intros k' b' Hk' Hne ->. apply Hne. by eapply (bk_inj p Hb). }
  split; cbn [set_pq attach_books set_handles set_routes config connections pq routes bindings metrics
    handles conns pendingDials dialing add_routed sessionsRouted connectionsActive connectionsConnecting
    pendingDialsGauge].
  - apply (bk_max p Hb).
  - intros c' Hc'. rewrite Hi. destruct (decide (c' = c)) as [->|].
    + rewrite lookup_alter_eq. by apply fmap_is_Some.
    + rewrite lookup_alter_ne by done. by apply (bk_some p Hb).
  - apply (bk_conn p Hb).
  - intros c' Hc'. rewrite Hit. case_decide; [|by apply (bk_load p Hb)]. subst.
    cbn. rewrite size_union by set_solver. rewrite size_singleton. lia.
  - intros c' Hc'. unfold prio_ok. rewrite Hit. case_decide; [|by apply (bk_prio p Hb)]. subst.
    exact (prio_computed p c (attach_item k (item p c)) (bk_conn p Hb c Hc)).
  - intros c' k' Hc'. rewrite Hit. pose proof (bk_sess p Hb c' k' Hc') as Hs. case_decide as Hcc.
    + subst. cbn. rewrite elem_of_union, elem_of_singleton, Hs.
      destruct (decide (k' = k)) as [->|]; [rewrite lookup_insert_eq; naive_solver|].
      rewrite lookup_insert_ne by done. naive_solver.
    + rewrite Hs. destruct (decide (k' = k)) as [->|]; [|by rewrite lookup_insert_ne].
      rewrite lookup_insert_eq, Hr. split; [done|]. naive_solver.
  - intros k' c'. rewrite lookup_insert_Some. intros [[<- <-]|[Hne Hr']].
    + split; [done|]. exists b. by rewrite lookup_insert_eq.
    + destruct (bk_route p Hb k' c' Hr') as (? & b' & Hb' & Hh'). split; [done|]. exists b'.
      rewrite lookup_insert_ne; [done|]. intros <-. by eapply Hinj.
  - intros k' b' Hb'. rewrite lookup_insert_None. intros [Hr' Hne].
    rewrite lookup_insert_ne; [by eapply (bk_wait p Hb)|]. intros <-. by eapply Hinj.
  - apply (bk_inj p Hb).
  - rewrite map_size_insert_None by done. rewrite (bk_routed p Hb). lia.
  - rewrite (bk_active p Hb). symmetry. apply n_state_ext; [done|]. intros c' _. rewrite Hit. by case_decide; subst.
  - rewrite (bk_connecting p Hb). symmetry. apply n_state_ext; [done|]. intros c' _. rewrite Hit. by case_decide; subst.
  - apply (bk_pending p Hb).
  - apply (bk_bound p Hb).
Qed.

(** *** Assigning the waiting sessions *)
Lemma assign_loop_ok bs p :
  books p → queue_ok p → NoDup bs.*1 → (∀ k b, (k, b) ∈ bs → bindings p !! k = Some b) →
  let p' := assign_loop bs p in
  books p' ∧ queue_ok p' ∧ bindings p' = bindings p ∧
  (∀ k, routes p !! k ≠ None → routes p' !! k ≠ None) ∧
  (selectLocked p' = None ∨ ∀ k b, (k, b) ∈ bs → routes p' !! k ≠ None).
Proof.
  revert p. induction bs as [|[k b] bs IH]; intros p Hb Hq Hnd Hin; cbn [assign_loop].
  { split; [done|]. split; [done|]. split; [done|]. split; [done|]. right. set_solver. }
  inversion_clear Hnd as [|?? Hk Hnd'].
  destruct (routes p !! k) as [c|] eqn:Hr.
  { destruct (IH p Hb Hq Hnd') as (? & ? & ? & Hmono & Hend); [set_solver|].
    repeat (split; [done|]). destruct Hend as [|Hend]; [by left|]. right.
    intros k' b' [[= -> ->]|Hin']%elem_of_cons; [apply Hmono; congruence|eauto]. }
  pose proof (select_spec p Hb Hq) as Hsel. destruct (selectLocked p) as [c|] eqn:Es.
  2:{ repeat (split; [done|]). by left. }
  destruct Hsel as (Hc & Hp & _).
  assert (bindings p !! k = Some b) as Hkb by (apply Hin; set_solver).
  destruct (attach_ok k b c p Hb Hq Hkb Hr Hc Hp) as [Hb1 Hq1].
  destruct (attach_spec k b c p Hq Hc) as (h & E & _).
  assert (bindings (attachLocked k b c p) = bindings p) as Hbind by (by rewrite E).
  assert (routes (attachLocked k b c p) = <[k := c]> (routes p)) as Hroute by (by rewrite E).
  destruct (IH _ Hb1 Hq1 Hnd') as (? & ? & Hbi & Hmono & Hend).
  { intros k' b' Hin'. rewrite Hbind. apply Hin. set_solver. }
  split; [done|]. split; [done|]. split; [congruence|]. split.
  - intros k' Hk'. apply Hmono. rewrite Hroute. destruct (decide (k' = k)) as [->|];
      [by rewrite lookup_insert_eq|by rewrite lookup_insert_ne].
  - destruct Hend as [|Hend]; [by left|]. right.
    intros k' b' [[= -> ->]|Hin']%elem_of_cons; [|eauto].
    apply Hmono. by rewrite Hroute, lookup_insert_eq.
Qed.

Lemma assignPending_ok o p :
  books p → queue_ok p → pool_ok (assignPendingLocked o p).
Proof.
  intros Hb Hq. destruct (assign_loop_ok (range_map o (bindings p)) p Hb Hq) as (Hb' & Hq' & Hbi & _ & Hend).
  { apply NoDup_fst_range_map. }
  { intros k b. by rewrite elem_of_range_map. }
  split; [done|]. split; [done|]. intros k c [[b Hk] Hr] Hc.
  destruct Hend as [Hs|Hall].
  - pose proof (select_spec _ Hb' Hq') as Hsel. unfold assignPendingLocked in *. rewrite Hs in Hsel. by apply Hsel.
  - exfalso. apply (Hall k b); [|done]. apply elem_of_range_map.
    unfold assignPendingLocked in Hk. by rewrite Hbi in Hk.
Qed.

(** *** Dials *)
Lemma set_pending_ok p d n :
  pool_ok p → pendingDials p + d = Z.of_nat n →
  (0 < MaxConnections (config p) →
   len_conns p + pendingDials p + d ≤ Z.max (MaxConnections (config p)) (MinConnections (config p))) →
  pool_ok (set_pending p d n).
Proof.
  intros ([] & Hq & Hw) Hn Hm. split; [|split; [by destruct Hq|done]].
  split; try done; cbn; [lia|]. intros. unfold len_conns. cbn. specialize (Hm ltac:(done)).
  unfold len_conns in Hm. lia.
Qed.

Lemma reserveDial_ok p : pool_ok p → pool_ok (reserveDialLocked p).2.
Proof.
  intros Hok. unfold reserveDialLocked. case_decide as Hd; [done|]. cbn [snd].
  destruct (bk_pending p (proj1 Hok)) as [_ Hp].
  apply set_pending_ok; [done|lia|]. lia.
Qed.

Lemma reserveScale_ok p : pool_ok p → pool_ok (reserveScaleLocked p).2.
Proof.
  intros Hok. unfold reserveScaleLocked. case_decide; [done|].
  destruct (selectLocked p); [|done]. case_decide; [done|]. by apply reserveDial_ok.
Qed.

(** *** Bind and TryBind *)
Lemma bound_handle p k b : books p → bindings p !! k = Some b → is_Some (handles p !! b).
Proof.
  intros Hb Hk. destruct (routes p !! k) as [c|] eqn:Hr.
  - destruct (bk_route p Hb k c Hr) as (_ & b' & ? & ?). simplify_eq. eauto.
  - rewrite (bk_wait p Hb k b Hk Hr). eauto.
Qed.

Lemma unbound_unrouted p k : books p → bindings p !! k = None → routes p !! k = None.
Proof.
  intros Hb Hk. destruct (routes p !! k) as [c|] eqn:Hr; [|done].
  destruct (bk_route p Hb k c Hr) as (_ & b & ? & _). congruence.
Qed.

Lemma newBinding_ok k p p1 b :
  books p → queue_ok p → bindings p !! k = None → newSessionBinding k None p = (p1, b) →
  books p1 ∧ queue_ok p1 ∧ p1 = set_bindings p (<[k := b]> (bindings p)) (<[b := None]> (handles p)).
Proof.
  intros Hb Hq Hk [= <- <-]. set (b := fresh _). split; [|split; [by destruct Hq|done]].
  pose proof (unbound_unrouted p k Hb Hk) as Hr.
  assert (∀ k' b', bindings p !! k' = Some b' → b' ≠ b) as Hfresh.
  { intros k' b' Hk' ->. destruct (bound_handle p k' b Hb Hk') as [x Hx].
    apply (is_fresh (dom (handles p))), elem_of_dom. fold b. eauto. }
  destruct Hb as []. split; try done; cbn.
  - intros k' c Hr'. destruct (bk_route0 k' c Hr') as (? & b' & ? & ?). split; [done|]. exists b'.
    rewrite !lookup_insert_ne; [done|..]; [intros <-; by eapply Hfresh|congruence].
  - intros k' b'. rewrite lookup_insert_Some. intros [[<- <-]|[Hne Hk']] Hr'.
    + by rewrite lookup_insert_eq.
    + rewrite lookup_insert_ne by (intros <-; by eapply Hfresh). eauto.
  - intros k1 k2 b'. rewrite !lookup_insert_Some.
    intros [[<- <-]|[? H1]] [[<- E]|[? H2]]; eauto.
    + exfalso. by eapply Hfresh.
    + subst b'. exfalso. by eapply Hfresh.
Qed.

(** Binding a new session to the selected connection: nobody waits then. *)
Lemma bind_selected k p b c :
  pool_ok p → bindings p !! k = None → b = fresh (dom (handles p)) → selectLocked p = Some c →
  let p1 := set_bindings p (<[k := b]> (bindings p)) (<[b := None]> (handles p)) in
  pool_ok (attachLocked k b c p1) ∧ (∀ k', ¬ waiting (attachLocked k b c p1) k') ∧
  handles (attachLocked k b c p1) !! b = Some (Some c).
Proof.
  intros (Hb & Hq & Hw) Hk -> Hsel p1. set (b := fresh _) in *.
  destruct (newBinding_ok k p p1 b Hb Hq Hk eq_refl) as (Hb1 & Hq1 & _).
  pose proof (select_spec p Hb Hq) as Hs. rewrite Hsel in Hs. destruct Hs as (Hc & Hp & _).
  assert (routes p !! k = None) as Hr by (by apply unbound_unrouted).
  destruct (attach_ok k b c p1 Hb1 Hq1) as [Hb2 Hq2]; [apply lookup_insert_eq|done..|].
  destruct (attach_spec k b c p1 Hq1 Hc) as (h & E & _).
  assert (∀ k', ¬ waiting (attachLocked k b c p1) k') as Hno.
  { intros k' [[b' Hk'] Hr']. rewrite E in Hk', Hr'. cbn in Hk', Hr'.
    apply lookup_insert_None in Hr' as [Hr' Hne]. rewrite lookup_insert_ne in Hk' by done.
    specialize (Hw k' c). rewrite Hw in Hp; [lia| |done]. split; eauto. }
  split; [|split; [done|]].
  - split; [done|]. split; [done|]. intros k' c' Hk'. by apply Hno in Hk'.
  - rewrite E. cbn. apply lookup_insert_eq.
Qed.

Lemma Bind_ok k p : pool_ok p → pool_ok (Bind k p).1.
Proof.
  intros Hok. unfold Bind. destruct (bindings p !! k) as [b|] eqn:Hk; [done|].
  destruct (newSessionBinding k None p) as [p1 b] eqn:E.
  assert (b = fresh (dom (handles p))) as Eb by (by injection E).
  destruct Hok as (Hb & Hq & Hw).
  destruct (newBinding_ok k p p1 b Hb Hq Hk E) as (Hb1 & Hq1 & ->). clear E.
  change (selectLocked (set_bindings p (<[k:=b]> (bindings p)) (<[b:=None]> (handles p)))) with (selectLocked p).
  destruct (selectLocked p) as [c|] eqn:Es; cbn [fst].
  - destruct (bind_selected k p b c) as (Hok & _); [done..|].
    case_decide; [by apply reserveScale_ok|done].
  - apply reserveDial_ok. split; [done|]. split; [done|]. intros k' c _ Hc.
    pose proof (select_spec p Hb Hq) as Hs. rewrite Es in Hs. by apply Hs.
Qed.

Lemma TryBind_ok k p : pool_ok p → pool_ok (TryBind k p).1.1.
Proof.
  intros Hok. unfold TryBind. destruct (bindings p !! k) as [b|] eqn:Hk; [done|].
  destruct (selectLocked p) as [c|] eqn:Es; [|by apply reserveDial_ok].
  case_decide; [done|]. unfold newSessionBinding. cbn [fst snd]. apply reserveScale_ok.
  set (b := fresh _).
  assert (∀ x, attachLocked k b c (set_bindings p (<[k:=b]> (bindings p)) (<[b:=x]> (handles p))) =
    attachLocked k b c (set_bindings p (<[k:=b]> (bindings p)) (<[b:=None]> (handles p)))) as ->.
  { intros x. unfold attachLocked, set_bindings. cbn. by rewrite !insert_insert_eq. }
  by destruct (bind_selected k p b c) as (? & _).
Qed.

(** *** Unbind *)

(** The fields the books are about. *)
Definition same_books (i j : pooledConnection) : Prop :=
  state i = state j ∧ load i = load j ∧ priority i = priority j ∧ sessions i = sessions j.

Lemma books_items p h :
  books p → (∀ c, c ∈ connections p → is_Some (items h !! c)) →
  (∀ c, c ∈ connections p → same_books (items h !!! c) (item p c)) →
  books (set_pq p h).
Proof.
  intros Hb Hs Hsame.
  assert (∀ c, c ∈ connections p → same_books (item (set_pq p h) c) (item p c)) as Hsame' by done.
  destruct Hb as []. split; try done; cbn -[item].
  - intros c Hc. destruct (Hsame' c Hc) as (_ & -> & _ & ->). auto.
  - intros c Hc. unfold prio_ok. destruct (Hsame' c Hc) as (_ & -> & -> & _). by apply bk_prio0.
  - intros c k Hc. destruct (Hsame' c Hc) as (_ & _ & _ & ->). auto.
  - rewrite bk_active0. symmetry. apply n_state_ext; [done|]. intros c Hc. by destruct (Hsame' c Hc).
  - rewrite bk_connecting0. symmetry. apply n_state_ext; [done|]. intros c Hc. by destruct (Hsame' c Hc).
Qed.

Lemma upd_books c f p :
  books p → c ∈ connections p → (∀ it, same_books (f it) it) → books (upd_item c f p).
Proof.
  intros Hb Hc Hf. apply books_items; [done| |]; cbn; intros c' Hc'.
  - destruct (decide (c' = c)) as [->|]; [|rewrite lookup_alter_ne by done; by apply (bk_some p Hb)].
    rewrite lookup_alter_eq. apply fmap_is_Some. by apply (bk_some p Hb).
  - change (same_books (item (upd_item c f p) c') (item p c')).
    rewrite item_upd by (by apply (bk_some p Hb)). case_decide; [|done]. subst. apply Hf.
Qed.

Definition unbind_item (k : Key) (it : pooledConnection) : pooledConnection :=
  mkItem (id it) (state it) (load it - 1) (priority it) (idleSince it) (sessions it ∖ {[k]}).
Definition unbind_books (k : Key) p : ConnectionPool :=
  set_routes (set_bindings p (delete k (bindings p)) (handles p)) (delete k (routes p)) (add_routed (metrics p) (-1)).

Lemma unbind_books_ok k c p h :
  books p → routes p !! k = Some c →
  items h = alter (λ it, with_priority (priorityLocked p c (unbind_item k it)) (unbind_item k it)) c (items (pq p)) →
  books (set_pq (unbind_books k p) h).
Proof.
  intros Hb Hr Hi. destruct (bk_route p Hb k c Hr) as (Hc & b & Hkb & _).
  pose proof (bk_some p Hb c Hc) as Hsome.
  assert (∀ c', item (set_pq (unbind_books k p) h) c' =
    if decide (c' = c) then with_priority (priorityLocked p c (unbind_item k (item p c))) (unbind_item k (item p c))
    else item p c') as Hit by (intros c'; exact (item_refresh c (unbind_item k) p h c' Hsome Hi)).
  destruct (bk_load p Hb c Hc) as [Hl Hmax].
  assert (k ∈ sessions (item p c)) as Hin by (by apply (bk_sess p Hb)).
  split; cbn [set_pq unbind_books set_bindings set_routes config connections pq routes bindings metrics
    handles conns pendingDials dialing add_routed sessionsRouted connectionsActive connectionsConnecting
    pendingDialsGauge].
  - apply (bk_max p Hb).
  - intros c' Hc'. rewrite Hi. destruct (decide (c' = c)) as [->|].
    + rewrite lookup_alter_eq. by apply fmap_is_Some.
    + rewrite lookup_alter_ne by done. by apply (bk_some p Hb).
  - apply (bk_conn p Hb).
  - intros c' Hc'. rewrite Hit. case_decide; [|by apply (bk_load p Hb)]. subst.
    cbn. rewrite size_difference by set_solver. rewrite size_singleton.
    assert (size (sessions (item p c)) ≠ 0%nat) by (rewrite size_non_empty_iff; set_solver). lia.
  - intros c' Hc'. unfold prio_ok. rewrite Hit. case_decide; [|by apply (bk_prio p Hb)]. subst.
    exact (prio_computed p c (unbind_item k (item p c)) (bk_conn p Hb c Hc)).
  - intros c' k' Hc'. rewrite Hit. pose proof (bk_sess p Hb c' k' Hc') as Hs.
    destruct (decide (k' = k)) as [->|]; [rewrite lookup_delete_eq|rewrite lookup_delete_ne by done].
    + case_decide; subst; [cbn; set_solver|]. rewrite Hs, Hr. naive_solver.
    + case_decide; subst; [|done]. cbn. rewrite <-Hs. set_solver.
  - intros k' c' [Hne Hr']%lookup_delete_Some.
    destruct (bk_route p Hb k' c' Hr') as (? & b' & ? & ?). split; [done|]. exists b'.
    by rewrite lookup_delete_ne.
  - intros k' b' [Hne Hb']%lookup_delete_Some. rewrite lookup_delete_ne by done. by apply (bk_wait p Hb).
  - intros k1 k2 b' [? ?]%lookup_delete_Some [? ?]%lookup_delete_Some. by eapply (bk_inj p Hb).
  - rewrite map_size_delete_Some by eauto. rewrite (bk_routed p Hb).
    assert (size (routes p) ≠ 0%nat) by (rewrite map_size_ne_0_lookup; eauto). lia.
  - rewrite (bk_active p Hb). symmetry. apply n_state_ext; [done|]. intros c' _. rewrite Hit. by case_decide; subst.
  - rewrite (bk_connecting p Hb). symmetry. apply n_state_ext; [done|]. intros c' _. rewrite Hit. by case_decide; subst.
  - apply (bk_pending p Hb).
  - apply (bk_bound p Hb).
Qed.

(** Dropping a binding that is not routed. *)
Lemma drop_binding_ok k p :
  pool_ok p → routes p !! k = None → pool_ok (set_bindings p (delete k (bindings p)) (handles p)).
Proof.
  intros (Hb & Hq & Hw) Hr. split; [|split; [by destruct Hq|]].
  - destruct Hb as []. split; try done; cbn.
    + intros k' c Hr'. destruct (bk_route0 k' c Hr') as (? & b & ? & ?). split; [done|]. exists b.
      rewrite lookup_delete_ne; [done|congruence].
    + intros k' b' [? ?]%lookup_delete_Some. eauto.
    + intros k1 k2 b [? ?]%lookup_delete_Some [? ?]%lookup_delete_Some. eauto.
  - intros k' c [[b Hk'] Hr'] Hc. cbn in Hk', Hr'. apply lookup_delete_Some in Hk' as [? ?].
    apply (Hw k' c); [|done]. split; eauto.
Qed.

Lemma Unbind_ok o now k p : pool_ok p → pool_ok (Unbind o now k p).
Proof.
  intros Hok. unfold Unbind. cbn [set_bindings routes].
  destruct (routes p !! k) as [c|] eqn:Hr; [|by apply drop_binding_ok].
  destruct Hok as (Hb & Hq & _). destruct (bk_route p Hb k c Hr) as (Hc & _).
  pose proof (bk_some p Hb c Hc) as Hsome.
  set (p1 := set_routes (set_bindings p (delete k (bindings p)) (handles p)) (delete k (routes p)) (metrics p)).
  rewrite !(item_upd c c _ p1) by exact Hsome. rewrite (decide_True (P:=c = c)) by done. cbn [load].
  change (item p1 c) with (item p c).
  destruct (bk_load p Hb c Hc) as [Hl _].
  assert (k ∈ sessions (item p c)) as Hin by (by apply (bk_sess p Hb)).
  assert (size (sessions (item p c)) ≠ 0%nat) by (rewrite size_non_empty_iff; set_solver).
  rewrite !(decide_True (P:=0 < load (item p c))) by lia.
  match goal with |- context [refreshLocked c ?q] => set (p2 := q) end.
  assert (p2 = upd_item c (unbind_item k) (unbind_books k p)) as ->.
  { unfold p2, upd_item, p1. cbn. by rewrite alter_twice. }
  destruct (refresh_spec c (unbind_item k) (unbind_books k p)) as (h & -> & Hq' & Hi); [by destruct Hq|done|].
  assert (books (set_pq (unbind_books k p) h)) as Hb' by (by eapply unbind_books_ok).
  set (p3 := set_pq (unbind_books k p) h) in *.
  apply assignPending_ok; case_decide; try done.
  - apply upd_books; [done|done|]. by intros it.
  - apply upd_item_queue; [done|by apply (bk_some p3 Hb')|done].
Qed.

(** *** Removal of a connection *)

(** What changes when routes are dropped. *)
Definition only_routes p p' : Prop :=
  ∃ r hs d, p' = set_handles (set_routes p r (add_routed (metrics p) d)) hs ∧
            d = Z.of_nat (size r) - Z.of_nat (size (routes p)).

Lemma add_routed_twice g d d' : add_routed (add_routed g d) d' = add_routed g (d + d').
Proof. unfold add_routed. cbn. f_equal. lia. Qed.

Lemma add_routed_0 g : add_routed g 0 = g.
Proof. destruct g. unfold add_routed. cbn. f_equal. lia. Qed.

Lemma drop_routes_spec c ks p :
  (∀ k1 k2 b, bindings p !! k1 = Some b → bindings p !! k2 = Some b → k1 = k2) →
  let p' := foldr (drop_route c) p ks in
  only_routes p p' ∧
  (∀ k, routes p' !! k = if decide (k ∈ ks ∧ routes p !! k = Some c) then None else routes p !! k) ∧
  (∀ k b, bindings p !! k = Some b →
     handles p' !! b = if decide (k ∈ ks ∧ routes p !! k = Some c) then Some None else handles p !! b).
Proof.
  intros Hinj. induction ks as [|k0 ks IH]; cbn [foldr].
  { split; [|split].
    - exists (routes p), (handles p), 0. rewrite add_routed_0. split; [by destruct p|lia].
    - intros k. rewrite decide_False; [done|]. set_solver.
    - intros k b _. rewrite decide_False; [done|]. set_solver. }
  destruct IH as ((r & hs & d & E & Hd) & Hr & Hh). set (q := foldr (drop_route c) p ks) in *.
  assert (bindings q = bindings p) as Hbq by (by rewrite E).
  assert (routes q = r) as Hrq by (by rewrite E). assert (handles q = hs) as Hhq by (by rewrite E).
  unfold drop_route. rewrite (Hr k0). destruct (decide (k0 ∈ ks ∧ routes p !! k0 = Some c)) as [Hin|Hout].
  { (* dropped before *)
    rewrite decide_False by done. split; [by exists r, hs, d|]. split.
    - intros k. rewrite Hr. apply decide_ext. set_solver.
    - intros k b Hk. rewrite (Hh k b Hk). apply decide_ext. set_solver. }
  case_decide as Hk0.
  2:{ split; [by exists r, hs, d|]. split.
      - intros k. rewrite Hr. apply decide_ext. set_solver.
      - intros k b Hk. rewrite (Hh k b Hk). apply decide_ext. set_solver. }
  assert (routes q !! k0 = Some c) as Hrk0 by (rewrite Hr, decide_False by done; done).
  split; [|split].
  - exists (delete k0 r), (match bindings q !! k0 with Some b => <[b:=None]> (handles q) | None => handles q end), (d - 1).
    split.
    + rewrite E. unfold set_handles, set_routes. cbn. by rewrite add_routed_twice.
    + rewrite map_size_delete_Some by (rewrite <-Hrq; eauto). subst r.
      assert (size (routes q) ≠ 0%nat) by (rewrite map_size_ne_0_lookup; eauto). lia.
  - intros k. cbn [set_handles set_routes routes]. destruct (decide (k = k0)) as [->|Hne].
    + rewrite lookup_delete_eq, decide_True; [done|]. split; [set_solver|done].
    + rewrite lookup_delete_ne, Hr by done. apply decide_ext. set_solver.
  - intros k b Hk. cbn [set_handles handles]. rewrite Hbq. destruct (decide (k = k0)) as [->|Hne].
    + rewrite Hk, lookup_insert_eq, decide_True; [done|]. split; [set_solver|done].
    + assert (match bindings p !! k0 with Some b0 => <[b0:=None]> (handles q) | None => handles q end !! b = handles q !! b) as ->.
      { destruct (bindings p !! k0) as [b0|] eqn:E0; [|done].
        rewrite lookup_insert_ne; [done|]. intros ->. apply Hne. by eapply Hinj. }
      rewrite (Hh k b Hk). apply decide_ext. set_solver.
Qed.

Lemma n_state_remove st c p p' :
  c ∈ connections p → connections p' = connections p ∖ {[c]} →
  (∀ c', c' ∈ connections p' → state (item p' c') = state (item p c')) →
  n_state st p' = n_state st p - (if decide (state (item p c) = st) then 1 else 0).
Proof.
  intros Hc Hcs Hs. unfold n_state. rewrite Hcs.
  assert (filter (λ c', state (item p' c') = st) (connections p ∖ {[c]}) =
          filter (λ c', state (item p c') = st) (connections p) ∖ {[c]}) as ->.
  { apply set_eq. intros c'. rewrite elem_of_difference, !elem_of_filter, elem_of_difference.
    split; [intros [Hst Hin]; rewrite Hs in Hst by (rewrite Hcs; set_solver); set_solver|].
    intros [[Hst Hin] Hne]. split; [rewrite Hs by (rewrite Hcs; set_solver); done|set_solver]. }
  case_decide as Hst.
  - rewrite size_difference by (intros x; rewrite elem_of_singleton, elem_of_filter; naive_solver).
    rewrite size_singleton.
    assert (size (filter (λ c', state (item p c') = st) (connections p)) ≠ 0%nat); [|lia].
    rewrite size_non_empty_iff. intros E. assert (c ∈ (∅ : gset nat)); [|set_solver].
    rewrite <-E. by apply elem_of_filter.
  - rewrite difference_disjoint_L; [lia|]. intros x. rewrite elem_of_singleton, elem_of_filter. naive_solver.
Qed.

Lemma add_state_facts st d g :
  connectionsActive (add_state st d g) = connectionsActive g + (if decide (st = ConnectionActive) then d else 0) ∧
  connectionsConnecting (add_state st d g) = connectionsConnecting g + (if decide (st = ConnectionConnecting) then d else 0) ∧
  sessionsRouted (add_state st d g) = sessionsRouted g ∧
  pendingDialsGauge (add_state st d g) = pendingDialsGauge g.
Proof. destruct st; repeat case_decide; try done; cbn; repeat split; lia. Qed.

(** The pool [q] is [p] without [c], the routes to [c] dropped. *)
Record removed (c : nat) p q : Prop := {
  rm_item c' : c' ≠ c → item q c' = item p c' ∧ items (pq q) !! c' = items (pq p) !! c';
  rm_conns : connections q = connections p ∖ {[c]};
  rm_bindings : bindings q = bindings p;
  rm_routes k : routes q !! k = if decide (routes p !! k = Some c) then None else routes p !! k;
  rm_handles k b : bindings p !! k = Some b →
    handles q !! b = if decide (routes p !! k = Some c) then Some None else handles p !! b;
  rm_metrics : metrics q = add_routed (add_state (state (item p c)) (-1) (metrics p))
                             (Z.of_nat (size (routes q)) - Z.of_nat (size (routes p)));
  rm_rest c' : config q = config p ∧ State q c' = State p c' ∧ pendingDials q = pendingDials p ∧
    dialing q = dialing p;
  rm_queue : queue_ok q;
}.

Lemma removed_queue_ok c p q h :
  indexed h → heap_ordered h → queue (pq p) ≡ₚ c :: queue h → items h = items (pq p) → queue_ok p →
  queue (pq q) = queue h → idx (pq q) = idx h →
  (∀ c', c' ≠ c → items (pq q) !! c' = items (pq p) !! c') → connections q = connections p ∖ {[c]} →
  queue_ok q.
Proof.
  intros Hx2 Hh2 Hq2 Hi2 [[Hnd _] _ He] Hqu Hid Hitems Hcs.
  rewrite Hq2 in Hnd. apply NoDup_cons in Hnd as [Hnot _].
  assert (ranks (pq q) = ranks h) as Hra.
  { unfold ranks. rewrite Hqu. apply list_fmap_ext. intros i c' Hi'.
    assert (c' ≠ c) as Hne by (intros ->; by apply Hnot, (list_elem_of_lookup_2 _ i)).
    rewrite !lookup_total_alt, Hitems, Hi2 by done. done. }
  split.
  - unfold indexed, IndexedHeap.indexed. rewrite Hqu, Hid. exact Hx2.
  - intros k Hk. cbn in Hk. rewrite Hqu in Hk. specialize (Hh2 k Hk). unfold edge in *. by rewrite Hra.
  - intros c'. rewrite Hqu, Hcs, elem_of_difference, <-He, Hq2, elem_of_cons, elem_of_singleton.
    split; [|naive_solver]. intros Hin. split; [by right|]. by intros ->.
Qed.

Lemma removeLocked_removed c p :
  books p → queue_ok p → c ∈ connections p → removed c p (removeLocked c p).
Proof.
  intros Hb Hq Hc. pose proof Hq as [Hx Hh He]. unfold removeLocked. rewrite decide_False by (by intros []).
  destruct (Remove_pool (pq p) c Hx Hh) as (Hpos & Hx2 & Hh2 & Hq2 & Hi2); [by apply He|].
  rewrite decide_True by done. set (h := (heap_Remove _ _ _).1) in *. clearbody h.
  set (p2 := recordConnectionRemovalLocked c _).
  assert (item (set_connections p (connections p ∖ {[c]}) h) c = item p c) as Hit1
    by (unfold item; cbn; by rewrite Hi2).
  assert (sessions (item p2 c) = sessions (item p c)) as ->.
  { unfold p2, recordConnectionRemovalLocked. rewrite item_upd.
    - rewrite (decide_True (P:=c = c)) by done. cbn [sessions]. exact (f_equal sessions Hit1).
    - cbn. rewrite Hi2. by apply (bk_some p Hb). }
  set (ks := elements (sessions (item p c))).
  destruct (drop_routes_spec c ks p2) as ((r & hs & d & E & Hd) & Hr & Hhs); [apply (bk_inj p Hb)|].
  set (p3 := foldr (drop_route c) p2 ks) in *.
  assert (∀ k, (k ∈ ks ∧ routes p !! k = Some c) ↔ routes p !! k = Some c) as Hks.
  { intros k. split; [by intros []|]. intros Hk. split; [|done].
    apply elem_of_elements. by apply (bk_sess p Hb). }
  set (p4 := upd_item c _ p3).
  assert (∀ c', c' ≠ c → items (pq p4) !! c' = items (pq p) !! c') as Hitems.
  { intros c' Hne. unfold p4. cbn. rewrite E. cbn. by rewrite !lookup_alter_ne, Hi2. }
  split.
  - intros c' Hne. split; [|by apply Hitems]. unfold item. by rewrite !lookup_total_alt, Hitems.
  - unfold p4. cbn. by rewrite E.
  - unfold p4. cbn. by rewrite E.
  - intros k. change (routes p4) with (routes p3). rewrite Hr. apply decide_ext, Hks.
  - intros k b Hk. change (handles p4) with (handles p3). rewrite (Hhs k b Hk). apply decide_ext, Hks.
  - change (routes p2) with (routes p) in Hd. rewrite <-Hit1. unfold p4. cbn. rewrite E. cbn. by rewrite Hd.
  - intros x. unfold p4, State. cbn. by rewrite E.
  - apply (removed_queue_ok c p p4 h); try done; unfold p4; cbn; by rewrite E.
Qed.

Lemma removed_books c p q : books p → c ∈ connections p → removed c p q → books q.
Proof.
  intros Hb Hc [Hit Hcs Hbi Hr Hh Hme Hfr _].
  assert (∀ c', c' ∈ connections q → c' ∈ connections p ∧ c' ≠ c) as Hin by (rewrite Hcs; set_solver).
  destruct (add_state_facts (state (item p c)) (-1) (metrics p)) as (Ha & Hco & Hro & Hpe).
  destruct (Hfr 0%nat) as (Hcf & _ & Hpd & Hdl).
  assert (∀ c', c' ∈ connections q → state (item q c') = state (item p c')) as Hst.
  { intros c' [_ Hne]%Hin. by rewrite (proj1 (Hit c' Hne)). }
  split; rewrite ?Hbi, ?Hcf, ?Hpd, ?Hdl, ?Hme;
    cbn [add_routed sessionsRouted connectionsActive connectionsConnecting pendingDialsGauge].
  - apply (bk_max p Hb).
  - intros c' [Hc' Hne]%Hin. rewrite (proj2 (Hit c' Hne)). by apply (bk_some p Hb).
  - intros c' [Hc' Hne]%Hin. destruct (Hfr c') as (_ & -> & _). by apply (bk_conn p Hb).
  - intros c' [Hc' Hne]%Hin. rewrite (proj1 (Hit c' Hne)). by apply (bk_load p Hb).
  - intros c' [Hc' Hne]%Hin. unfold prio_ok. rewrite (proj1 (Hit c' Hne)).
    destruct (Hfr c') as (-> & -> & _). by apply (bk_prio p Hb).
  - intros c' k [Hc' Hne]%Hin. rewrite (proj1 (Hit c' Hne)), Hr, (bk_sess p Hb c' k Hc').
    destruct (decide (routes p !! k = Some c)) as [Hk|]; [|done]. rewrite Hk. split; [by intros [= ->]|done].
  - intros k c'. rewrite Hr. destruct (decide (routes p !! k = Some c)) as [Hk|Hk]; [done|]. intros Hk'.
    destruct (bk_route p Hb k c' Hk') as (? & b & Hbk & Hhb). split; [rewrite Hcs; set_solver|].
    exists b. split; [done|]. rewrite (Hh k b Hbk). by rewrite decide_False.
  - intros k b Hk. rewrite Hr, (Hh k b Hk).
    destruct (decide (routes p !! k = Some c)); [done|]. by apply (bk_wait p Hb).
  - apply (bk_inj p Hb).
  - rewrite Hro, (bk_routed p Hb). lia.
  - rewrite Ha, (bk_active p Hb), (n_state_remove _ c p q Hc Hcs Hst).
    destruct (decide (state (item p c) = ConnectionActive)); lia.
  - rewrite Hco, (bk_connecting p Hb), (n_state_remove _ c p q Hc Hcs Hst).
    destruct (decide (state (item p c) = ConnectionConnecting)); lia.
  - rewrite Hpe. apply (bk_pending p Hb).
  - intros Hm. pose proof (bk_bound p Hb Hm). unfold len_conns in *. rewrite Hcs.
    pose proof (subseteq_size (connections p ∖ {[c]}) (connections p) ltac:(set_solver)). lia.
Qed.

(** An idle connection carries no session: nobody starts to wait. *)
Lemma remove_idle_ok c p : pool_ok p → load (item p c) = 0 → pool_ok (removeLocked c p).
Proof.
  intros (Hb & Hq & Hw) Hl. destruct (decide (c ∈ connections p)) as [Hc|Hc].
  2:{ unfold removeLocked. by rewrite decide_True. }
  pose proof (removeLocked_removed c p Hb Hq Hc) as Hrm. pose proof Hrm as [Hit Hcs Hbi Hr _ _ _ Hq'].
  split; [by eapply removed_books|]. split; [done|].
  intros k c' [Hk Hkr] Hc'. rewrite Hcs in Hc'. rewrite Hbi in Hk.
  rewrite (proj1 (Hit c' ltac:(set_solver))). apply (Hw k); [|set_solver]. split; [done|].
  rewrite Hr in Hkr. destruct (decide (routes p !! k = Some c)) as [Hrc|]; [|done].
  apply (bk_sess p Hb c k Hc) in Hrc. destruct (bk_load p Hb c Hc) as [Hs _].
  assert (size (sessions (item p c)) ≠ 0%nat) by (rewrite size_non_empty_iff; set_solver). lia.
Qed.

Lemma cleanupIdle_ok now cs p : pool_ok p → pool_ok (cleanupIdle now cs p).
Proof.
  revert p. induction cs as [|c cs IH]; intros p Hok; [done|]. cbn. apply IH.
  destruct (decide (idle_expired now c p)) as [(_ & Hl & _)|]; [|done]. by apply remove_idle_ok.
Qed.

(** *** State changes *)
Lemma n_state_split st c p :
  c ∈ connections p →
  n_state st p = Z.of_nat (size (filter (λ c', state (item p c') = st) (connections p ∖ {[c]}))) +
                 (if decide (state (item p c) = st) then 1 else 0).
Proof.
  intros Hc. unfold n_state. set (F := λ c', state (item p c') = st).
  destruct (decide (state (item p c) = st)) as [Hst|Hst].
  - assert (filter F (connections p) = {[c]} ∪ filter F (connections p ∖ {[c]})) as ->.
    { apply set_eq. intros x. rewrite elem_of_union, elem_of_singleton, !elem_of_filter, elem_of_difference.
      destruct (decide (x = c)) as [->|]; set_solver. }
    rewrite size_union by (intros x; rewrite elem_of_singleton, elem_of_filter; set_solver).
    rewrite size_singleton. lia.
  - assert (filter F (connections p) = filter F (connections p ∖ {[c]})) as ->; [|lia].
    apply set_eq. intros x. rewrite !elem_of_filter, elem_of_difference.
    destruct (decide (x = c)) as [->|]; set_solver.
Qed.

Definition with_state (st : ConnectionState) (it : pooledConnection) : pooledConnection :=
  mkItem (id it) st (load it) (priority it) (idleSince it) (sessions it).

(** Recording the new state of a connection with its gauges. *)
Lemma record_state_ok c p g :
  pool_ok p → c ∈ connections p → state (item p c) ≠ State p c →
  (g = add_state (State p c) 1 (add_state (state (item p c)) (-1) (metrics p)) ∨
   g = add_reconnect (add_state (State p c) 1 (add_state (state (item p c)) (-1) (metrics p)))) →
  pool_ok (upd_item c (with_state (State p c)) (set_metrics p g)).
Proof.
  intros (Hb & Hq & Hw) Hc Hne Hg. set (st := State p c) in *. set (old := state (item p c)) in *.
  pose proof (bk_some p Hb c Hc) as Hsome. set (q := upd_item c (with_state st) (set_metrics p g)).
  assert (∀ c', item q c' = if decide (c' = c) then with_state st (item p c) else item p c') as Hit
    by (intros c'; exact (item_upd c c' (with_state st) (set_metrics p g) Hsome)).
  assert (connectionsActive g = connectionsActive (metrics p) - (if decide (old = ConnectionActive) then 1 else 0)
            + (if decide (st = ConnectionActive) then 1 else 0) ∧
          connectionsConnecting g = connectionsConnecting (metrics p) - (if decide (old = ConnectionConnecting) then 1 else 0)
            + (if decide (st = ConnectionConnecting) then 1 else 0) ∧
          sessionsRouted g = sessionsRouted (metrics p) ∧ pendingDialsGauge g = pendingDialsGauge (metrics p))
    as (Ha & Hco & Hro & Hpe).
  { destruct (add_state_facts old (-1) (metrics p)) as (? & ? & ? & ?).
    destruct (add_state_facts st 1 (add_state old (-1) (metrics p))) as (? & ? & ? & ?).
    destruct Hg as [-> | ->]; cbn [add_reconnect connectionsActive connectionsConnecting sessionsRouted pendingDialsGauge];
      repeat split; repeat case_decide; lia. }
  assert (∀ s, n_state s q = n_state s p - (if decide (old = s) then 1 else 0) + (if decide (st = s) then 1 else 0)) as Hn.
  { intros s. rewrite (n_state_split s c q Hc), (n_state_split s c p Hc), (Hit c), (decide_True (P:=c = c)) by done.
    cbn [state with_state]. fold old.
    assert (filter (λ c', state (item q c') = s) (connections q ∖ {[c]}) =
            filter (λ c', state (item p c') = s) (connections p ∖ {[c]})) as ->; [|lia].
    apply set_eq. intros x. rewrite !elem_of_filter, Hit.
    destruct (decide (x = c)) as [->|]; [|done]. split; intros [_ [_ Hx]%elem_of_difference]; set_solver. }
  split; [|split].
  - split; cbn [q upd_item set_pq set_metrics config connections routes bindings metrics handles conns pendingDials dialing].
    + apply (bk_max p Hb).
    + intros c' Hc'. cbn. destruct (decide (c' = c)) as [->|];
        [rewrite lookup_alter_eq; by apply fmap_is_Some|rewrite lookup_alter_ne by done; by apply (bk_some p Hb)].
    + apply (bk_conn p Hb).
    + intros c' Hc'. fold q. rewrite Hit. destruct (decide (c' = c)) as [->|]; by apply (bk_load p Hb).
    + intros c' Hc'. fold q. unfold prio_ok. rewrite Hit. destruct (decide (c' = c)) as [->|]; by apply (bk_prio p Hb).
    + intros c' k Hc'. fold q. rewrite Hit. destruct (decide (c' = c)) as [->|]; by apply (bk_sess p Hb).
    + apply (bk_route p Hb).
    + apply (bk_wait p Hb).
    + apply (bk_inj p Hb).
    + rewrite Hro. apply (bk_routed p Hb).
    + fold q. rewrite Hn, <-(bk_active p Hb). done.
    + fold q. rewrite Hn, <-(bk_connecting p Hb). done.
    + rewrite Hpe. apply (bk_pending p Hb).
    + apply (bk_bound p Hb).
  - apply upd_item_queue; [by destruct Hq|done|done].
  - intros k c' Hk Hc'. rewrite Hit. destruct (decide (c' = c)) as [->|]; [by apply (Hw k c)|by apply (Hw k c')].
Qed.

(** Recomputing the priority of a connection that is not closed. *)
Lemma refresh_ok c p :
  pool_ok p → c ∈ connections p → State p c ≠ ConnectionClosed → pool_ok (refreshLocked c p).
Proof.
  intros (Hb & Hq & Hw) Hc Hst. rewrite <-(upd_item_id c p).
  destruct (refresh_spec c (λ it, it) p Hq Hc) as (h & -> & Hq' & Hi).
  pose proof (bk_some p Hb c Hc) as Hsome.
  pose proof (item_refresh c (λ it, it) p h) as Hit. cbn beta in Hit.
  specialize (fun c' => Hit c' Hsome Hi). split; [|split; [done|]].
  - destruct Hb as []. split; try done; cbn [set_pq config connections routes bindings metrics handles conns pendingDials dialing].
    + intros c' Hc'. cbn. rewrite Hi. destruct (decide (c' = c)) as [->|];
        [rewrite lookup_alter_eq; by apply fmap_is_Some|rewrite lookup_alter_ne by done; auto].
    + intros c' Hc'. rewrite Hit. destruct (decide (c' = c)) as [->|]; by apply bk_load0.
    + intros c' Hc'. unfold prio_ok. rewrite Hit. destruct (decide (c' = c)) as [->|]; [|by apply bk_prio0].
      exact (prio_computed p c (item p c) (bk_conn0 c Hc)).
    + intros c' k Hc'. rewrite Hit. destruct (decide (c' = c)) as [->|]; by apply bk_sess0.
    + rewrite bk_active0. symmetry. apply n_state_ext; [done|]. intros c' _. rewrite Hit. by destruct (decide (c' = c)) as [->|].
    + rewrite bk_connecting0. symmetry. apply n_state_ext; [done|]. intros c' _. rewrite Hit. by destruct (decide (c' = c)) as [->|].
  - intros k c' Hk Hc'. rewrite Hit. destruct (decide (c' = c)) as [->|]; [|by apply (Hw k c')].
    cbn [priority with_priority]. destruct (bk_prio p Hb c Hc) as (_ & _ & Hfull).
    destruct (Hfull (Hw k c Hk Hc)) as [Hl|]; [|done].
    by apply (prio_computed p c (item p c) (bk_conn p Hb c Hc)).
Qed.

Lemma sync_ok o c p : pool_ok p → pool_ok (syncConnectionState o c p).
Proof.
  intros Hok. unfold syncConnectionState. case_decide as Hc; [done|].
  destruct (decide (c ∈ connections p)) as [Hin|]; [|done]. clear Hc.
  set (old := state (item p c)).
  set (q := if decide (old ≠ State p c) then _ else p).
  assert (pool_ok q ∧ connections q = connections p ∧ State q c = State p c) as (Hok' & Hcs & Hst).
  { unfold q. case_decide as Hne; [|done]. split; [|done]. apply (record_state_ok c p); [done|done|done|].
    case_decide; auto. }
  case_decide as Hcl.
  - destruct Hok' as (Hb & Hq & _).
    assert (removed c q (removeLocked c q)) as Hrm by (apply removeLocked_removed; [done..|by rewrite Hcs]).
    apply assignPending_ok; [|apply Hrm]. eapply removed_books; [done|by rewrite Hcs|done].
  - apply refresh_ok; [done|by rewrite Hcs|by rewrite Hst].
Qed.

(** *** A dial that completes *)
Lemma set_conns_ok c s p :
  pool_ok p → c ∉ connections p ∨ (s ≠ ConnectionUnknown ∧ (State p c = ConnectionClosed → s = ConnectionClosed)) →
  pool_ok (set_conns p (<[c := s]> (conns p))).
Proof.
  intros (Hb & Hq & Hw) Hs. set (q := set_conns p _).
  assert (∀ c', c' ∈ connections p → State q c' ≠ ConnectionUnknown ∧
    (State p c' = ConnectionClosed → State q c' = ConnectionClosed)) as Hst.
  { intros c' Hc'. pose proof (bk_conn p Hb c' Hc'). unfold State, q in *. cbn.
    destruct (decide (c' = c)) as [->|]; [|by rewrite lookup_insert_ne].
    rewrite lookup_insert_eq. cbn. destruct Hs as [|[]]; [done|]. auto. }
  split; [|split; [by destruct Hq|done]]. destruct Hb as []. split; try done.
  - intros c' Hc'. by apply Hst.
  - intros c' Hc'. destruct (bk_prio0 c' Hc') as (? & ? & Hfull). split; [done|]. split; [done|].
    intros Hp. destruct (Hfull Hp); [by left|]. right. by apply Hst.
Qed.

Lemma fresh_conn p : books p → fresh (dom (conns p)) ∉ connections p.
Proof.
  intros Hb Hc. apply (bk_conn p Hb) in Hc as Hst. apply Hst. unfold State.
  rewrite (not_elem_of_dom_1 (D:=gset nat)); [done|]. apply is_fresh.
Qed.

(** The pool with a new connection [c] of id [n]. *)
Definition push_conn (n : Z) (c : nat) p : ConnectionPool :=
  let it := mkItem n (State p c) 0 0 None ∅ in
  let it := with_priority (priorityLocked p c it) it in
  let h := heap_Push minheap_Push (mkHeap (queue (pq p)) (idx (pq p)) (<[c := it]> (items (pq p)))) c in
  mkPool (config p) n ({[c]} ∪ connections p) h (routes p) (bindings p) (closed p)
    (pendingDials p) (add_state (state it) 1 (metrics p)) (handles p) (conns p) (dialing p).

Lemma push_conn_ok n c p :
  books p → queue_ok p → c ∉ connections p → State p c = ConnectionConnecting →
  (0 < MaxConnections (config p) →
   len_conns p + 1 + pendingDials p ≤ Z.max (MaxConnections (config p)) (MinConnections (config p))) →
  books (push_conn n c p) ∧ queue_ok (push_conn n c p).
Proof.
  intros Hb [Hx Hh He] Hc Hst Hbound. unfold push_conn. rewrite Hst. cbn [state with_priority].
  set (it := mkItem n ConnectionConnecting 0 0 None ∅).
  set (it' := with_priority (priorityLocked p c it) it).
  destruct (Push_pool (pq p) c it' Hx Hh) as (Hx2 & Hh2 & Hq2 & Hi2); [by rewrite He|].
  set (h := heap_Push _ _ _) in *. clearbody h. set (q := mkPool _ _ _ _ _ _ _ _ _ _ _ _).
  assert (∀ c', item q c' = if decide (c' = c) then it' else item p c') as Hit.
  { intros c'. unfold item. change (pq q) with h. rewrite Hi2. case_decide; subst;
      [by rewrite lookup_total_insert_eq|by rewrite lookup_total_insert_ne]. }
  assert (∀ k, routes p !! k ≠ Some c) as Hnr by (intros k Hk; by apply Hc, (bk_route p Hb k c)).
  assert (∀ s, n_state s q = n_state s p + (if decide (s = ConnectionConnecting) then 1 else 0)) as Hn.
  { intros s. assert (c ∈ connections q) as Hcq by (cbn; set_solver).
    rewrite (n_state_split s c q Hcq), (Hit c), (decide_True (P:=c = c)) by done. cbn [state it' it with_priority].
    assert (filter (λ c', state (item q c') = s) (connections q ∖ {[c]}) =
            filter (λ c', state (item p c') = s) (connections p)) as ->.
    { apply set_eq. intros x. rewrite !elem_of_filter, Hit. change (connections q) with ({[c]} ∪ connections p).
      destruct (decide (x = c)) as [->|]; set_solver. }
    unfold n_state. destruct (decide (s = ConnectionConnecting)) as [->|Hns];
      [rewrite decide_True by done; lia|rewrite decide_False by congruence; lia]. }
  split.
  2:{ split; [exact Hx2|exact Hh2|]. intros c'. change (pq q) with h. rewrite Hq2, elem_of_cons, He. cbn. set_solver. }
  assert (∀ c', c' ∈ connections q → c' = c ∨ c' ≠ c ∧ c' ∈ connections p) as Hin.
  { intros c'. cbn. destruct (decide (c' = c)); set_solver. }
  pose proof (bk_max p Hb) as Hmax.
  split; try (by destruct Hb).
  - intros c' Hc'. cbn. rewrite Hi2. destruct (Hin c' Hc') as [->|[Hne ?]];
      [rewrite lookup_insert_eq; eauto|rewrite lookup_insert_ne by done; by apply (bk_some p Hb)].
  - intros c' Hc'. change (State q c') with (State p c').
    destruct (Hin c' Hc') as [->|[Hne ?]]; [by rewrite Hst|by apply (bk_conn p Hb)].
  - intros c' Hc'. rewrite Hit. destruct (Hin c' Hc') as [->|[Hne ?]].
    + rewrite decide_True by done. cbn. rewrite size_empty. lia.
    + rewrite decide_False by done. by apply (bk_load p Hb).
  - intros c' Hc'. unfold prio_ok. rewrite Hit. destruct (Hin c' Hc') as [->|[Hne ?]].
    + rewrite decide_True by done. apply (prio_computed p c it). by rewrite Hst.
    + rewrite decide_False by done. by apply (bk_prio p Hb).
  - intros c' k Hc'. rewrite Hit. change (routes q) with (routes p). destruct (Hin c' Hc') as [->|[Hne ?]].
    + rewrite decide_True by done. cbn. split; [set_solver|]. intros Hk. by apply Hnr in Hk.
    + rewrite decide_False by done. by apply (bk_sess p Hb).
  - intros k c' Hk. destruct (bk_route p Hb k c' Hk) as [? ?]. split; [cbn; set_solver|done].
  - rewrite Hn, <-(bk_active p Hb), decide_False by done. cbn. lia.
  - rewrite Hn, <-(bk_connecting p Hb), decide_True by done. cbn. lia.
  - intros Hm. unfold len_conns. cbn. rewrite size_union by set_solver. rewrite size_singleton.
    specialize (Hbound Hm). unfold len_conns in Hbound. cbn in *. lia.
Qed.

Lemma startDial_ok o p : pool_ok p → (0 < dialing p)%nat → pool_ok (startDial o p).
Proof.
  intros Hok Hd. unfold startDial. set (c := fresh _).
  pose proof (fresh_conn p (proj1 Hok)) as Hfr. fold c in Hfr.
  destruct (bk_pending p (proj1 Hok)) as [_ Hp].
  assert (pool_ok (set_pending p (-1) (dialing p - 1))) as Hok1.
  { apply set_pending_ok; [done|lia|]. intros Hm. pose proof (bk_bound p (proj1 Hok) Hm). lia. }
  change (closed (set_pending p (-1) (dialing p - 1))) with (closed p).
  destruct (closed p) eqn:Hcl; [apply set_conns_ok; auto|].
  pose proof (set_conns_ok c ConnectionConnecting _ Hok1 (or_introl Hfr)) as (Hb2 & Hq2 & _).
  set (q := set_conns _ _) in *.
  destruct (push_conn_ok (nextID q + 1) c q Hb2 Hq2) as [Hb3 Hq3]; [done| | |by apply assignPending_ok].
  - unfold State, q. cbn. by rewrite lookup_insert_eq.
  - intros Hm. pose proof (bk_bound p (proj1 Hok) Hm). unfold len_conns, q in *. cbn in *. lia.
Qed.

(** *** Shutdown *)
Definition count_state (st : ConnectionState) p (cs : list nat) : Z :=
  Z.of_nat (length (filter (λ c, state (item p c) = st) cs)).

Lemma record_removals cs p :
  NoDup cs → (∀ c, c ∈ cs → is_Some (items (pq p) !! c)) →
  let q := foldr recordConnectionRemovalLocked p cs in
  (∃ h g, q = set_metrics (set_pq p h) g) ∧
  (∀ c, c ∉ cs → item q c = item p c ∧ items (pq q) !! c = items (pq p) !! c) ∧
  connectionsActive (metrics q) = connectionsActive (metrics p) - count_state ConnectionActive p cs ∧
  connectionsConnecting (metrics q) = connectionsConnecting (metrics p) - count_state ConnectionConnecting p cs ∧
  sessionsRouted (metrics q) = sessionsRouted (metrics p) ∧
  pendingDialsGauge (metrics q) = pendingDialsGauge (metrics p).
Proof.
  induction cs as [|c cs IH]; intros Hnd Hs; cbn [foldr].
  { split; [exists (pq p), (metrics p); by destruct p|]. unfold count_state. cbn. split; [done|]. repeat split; lia. }
  inversion_clear Hnd as [|?? Hc Hnd'].
  destruct IH as ((h & g & E) & Hit & Ha & Hco & Hro & Hpe); [done|set_solver|].
  set (q := foldr _ p cs) in *. destruct (Hit c Hc) as [Hic Hlc].
  unfold recordConnectionRemovalLocked. rewrite Hic.
  destruct (add_state_facts (state (item p c)) (-1) (metrics q)) as (Ha' & Hco' & Hro' & Hpe').
  split; [|split].
  - eexists _, _. rewrite E. unfold upd_item, set_metrics, set_pq. cbn. reflexivity.
  - intros c' Hc'. destruct (Hit c') as [Hi Hl]; [set_solver|]. rewrite item_upd.
    + rewrite decide_False by set_solver. cbn. rewrite lookup_alter_ne by set_solver. done.
    + cbn. rewrite Hlc. apply Hs. set_solver.
  - cbn [upd_item set_pq metrics set_metrics]. rewrite Ha', Hco', Hro', Hpe', Ha, Hco, Hro, Hpe.
    unfold count_state. rewrite !filter_cons. repeat split; try lia.
    + destruct (decide (state (item p c) = ConnectionActive)); cbn [length]; lia.
    + destruct (decide (state (item p c) = ConnectionConnecting)); cbn [length]; lia.
Qed.

Lemma count_state_elements st p : count_state st p (elements (connections p)) = n_state st p.
Proof.
  unfold count_state, n_state. f_equal. symmetry.
  unfold size, set_size. cbn. apply Permutation_length.
  apply NoDup_Permutation; [apply NoDup_elements|apply NoDup_filter, NoDup_elements|].
  intros x. rewrite elem_of_elements, elem_of_filter, list_elem_of_filter, elem_of_elements. done.
Qed.

Lemma Shutdown_ok p : pool_ok p → pool_ok (Shutdown_locked p).
Proof.
  intros (Hb & Hq & Hw). unfold Shutdown_locked.
  destruct (record_removals (elements (connections p)) p) as ((h & g & E) & _ & Ha & Hco & Hro & Hpe).
  { apply NoDup_elements. } { intros c Hc%elem_of_elements. by apply (bk_some p Hb). }
  rewrite !count_state_elements, <-?(bk_active p Hb), <-?(bk_connecting p Hb) in *.
  set (q := foldr _ p _) in *.
  assert (config q = config p ∧ routes q = routes p ∧ pendingDials q = pendingDials p ∧ dialing q = dialing p)
    as (Hcf & Hrt & Hpd & Hdl) by (by rewrite E).
  assert (∀ st h' cf nid r bs cl pd g' hs cn dl, n_state st (mkPool cf nid ∅ h' r bs cl pd g' hs cn dl) = 0) as Hn0
    by done.
  split; [|split].
  - destruct (bk_pending p Hb). pose proof (bk_max p Hb). pose proof (bk_routed p Hb).
    split; cbn; rewrite ?Hcf; try done; try lia.
    + rewrite Hrt, map_size_empty. lia.
    + rewrite Hn0. lia.
    + rewrite Hn0. lia.
    + intros Hm. pose proof (bk_bound p Hb Hm). unfold len_conns in *. cbn. rewrite size_empty. lia.
  - split; cbn; [split; [constructor|done]|intros k; cbn; lia|set_solver].
  - intros k c [[b Hk] _]. done.
Qed.

(** ** Histories *)

(** What the callbacks of a connection may do to its state. *)
Inductive conn_change : ConnectionState → ConnectionState → Prop :=
| conn_open : conn_change ConnectionConnecting ConnectionActive
| conn_drop : conn_change ConnectionActive ConnectionConnecting
| conn_close s : s ≠ ConnectionUnknown → conn_change s ConnectionClosed.

(** One atomic operation: the methods, a dial that fails or completes, a
    state change by the WebSocket callbacks, and the callback's report of
    it, which may come at any time. *)
Inductive pool_step : ConnectionPool → ConnectionPool → Prop :=
| st_bind k p : pool_step p (Bind k p).1
| st_try_bind k p : pool_step p (TryBind k p).1.1
| st_unbind o now k p : pool_step p (Unbind o now k p)
| st_dial_failed p : (0 < dialing p)%nat → pool_step p (startDial_failed p)
| st_dial o p : (0 < dialing p)%nat → pool_step p (startDial o p)
| st_conn c s p : conn_change (State p c) s → pool_step p (set_conns p (<[c := s]> (conns p)))
| st_sync o c p : pool_step p (syncConnectionState o c p)
| st_cleanup now cs p : pool_step p (cleanupIdle now cs p)
| st_shutdown_begin p : pool_step p (Shutdown_begin p)
| st_shutdown p : closed p = true → pool_step p (Shutdown_locked p).

Lemma step_pool_ok p p' : pool_ok p → pool_step p p' → pool_ok p'.
Proof.
  intros Hok Hst. revert Hok.
  destruct Hst as [k p|k p|o now k p|p Hd|o p Hd|c s p Hs|o c p|now cs p|p|p Hc]; intros Hok.
  - by apply Bind_ok.
  - by apply TryBind_ok.
  - by apply Unbind_ok.
  - destruct (bk_pending p (proj1 Hok)). apply set_pending_ok; [done|lia|].
    intros Hm. pose proof (bk_bound p (proj1 Hok) Hm). lia.
  - by apply startDial_ok.
  - apply set_conns_ok; [done|]. right. inversion Hs; subst; split; congruence.
  - by apply sync_ok.
  - by apply cleanupIdle_ok.
  - destruct Hok as (Hb & Hq & Hw). split; [by destruct Hb|]. split; [by destruct Hq|done].
  - by apply Shutdown_ok.
Qed.

Lemma default_config_pos cfg :
  0 < MaxSessionsPerConnection (defaultConnectionPoolConfig cfg) ∧
  0 < MinConnections (defaultConnectionPoolConfig cfg).
Proof.
  unfold defaultConnectionPoolConfig, or_default. cbn.
  unfold defaultMaxSessionsPerConnection, defaultMinConnections. repeat case_decide; lia.
Qed.

Lemma new_pool_ok cfg : pool_ok (NewConnectionPool cfg).
Proof.
  destruct (default_config_pos cfg) as [Hmax Hmin]. unfold NewConnectionPool, startMinConnections.
  assert (pool_ok (newConnectionPool cfg)) as Hok.
  { split; [|split].
    - split; try done; try set_solver.
      intros _. unfold len_conns. cbn -[defaultConnectionPoolConfig]. rewrite size_empty. lia.
    - split; cbn; [split; [constructor|done]|intros k; cbn; lia|set_solver].
    - intros k c [[b Hk] _]. done. }
  set (n := Z.to_nat _). apply set_pending_ok; [done|..]; cbn -[defaultConnectionPoolConfig]; unfold len_conns;
    cbn -[defaultConnectionPoolConfig]; rewrite ?size_empty; [lia|].
  unfold n, len_conns. cbn -[defaultConnectionPoolConfig]. rewrite size_empty. lia.
Qed.

Lemma pool_reachable_ok cfg p : rtc pool_step (NewConnectionPool cfg) p → pool_ok p.
Proof. intros Hr. exact (rtc_invariant pool_step pool_ok _ _ step_pool_ok Hr (new_pool_ok cfg)). Qed.

(** ** Properties *)

(** C7: The books of the pool are exact after any history of binds, unbinds,
    dials, connection changes, reports, cleanups and shutdowns in any order.
    A connection carries exactly the sessions routed to it, as many as its
    load says and at most the configured maximum; the handle of every bound
    session points to the connection it is routed to and is empty while it
    waits; the counters are the numbers of routed sessions, of connections
    per recorded state and of dials in flight; and connections and dials
    together stay within the limit. *)
Theorem pool_accounts_exact cfg p :
  rtc pool_step (NewConnectionPool cfg) p →
  (∀ c, c ∈ connections p →
     load (item p c) = Z.of_nat (size (sessions (item p c))) ∧
     load (item p c) ≤ MaxSessionsPerConnection (config p) ∧
     ∀ k, k ∈ sessions (item p c) ↔ routes p !! k = Some c) ∧
  (∀ k b, bindings p !! k = Some b → handles p !! b = Some (routes p !! k)) ∧
  (∀ k c, routes p !! k = Some c → c ∈ connections p ∧ is_Some (bindings p !! k)) ∧
  sessionsRouted (metrics p) = Z.of_nat (size (routes p)) ∧
  connectionsActive (metrics p) = n_state ConnectionActive p ∧
  connectionsConnecting (metrics p) = n_state ConnectionConnecting p ∧
  pendingDialsGauge (metrics p) = Z.of_nat (dialing p) ∧
  (0 < MaxConnections (config p) →
   len_conns p + Z.of_nat (dialing p) ≤ Z.max (MaxConnections (config p)) (MinConnections (config p))).
Proof.
  intros (Hb & _ & _)%pool_reachable_ok. destruct (bk_pending p Hb) as [Hg Hd].
  split; [|split; [|split; [|split; [|split; [|split; [|split]]]]]].
  - intros c Hc. destruct (bk_load p Hb c Hc). split; [done|]. split; [done|].
    intros k. by apply (bk_sess p Hb).
  - intros k b Hk. destruct (routes p !! k) as [c|] eqn:Hr; [|by apply (bk_wait p Hb k)].
    destruct (bk_route p Hb k c Hr) as (_ & b' & Hb' & Hh). congruence.
  - intros k c Hr. destruct (bk_route p Hb k c Hr) as (? & b & ? & _). eauto.
  - apply (bk_routed p Hb).
  - apply (bk_active p Hb).
  - apply (bk_connecting p Hb).
  - by rewrite Hg.
  - rewrite <-Hd. apply (bk_bound p Hb).
Qed.

(** C21: No session waits needlessly: in every reachable state, a bound
    session without a connection means that every pooled connection carries
    its maximum of sessions or was closed. *)
Theorem no_needless_wait cfg p k :
  rtc pool_step (NewConnectionPool cfg) p →
  is_Some (bindings p !! k) → routes p !! k = None →
  ∀ c, c ∈ connections p →
    load (item p c) = MaxSessionsPerConnection (config p) ∨ State p c = ConnectionClosed.
Proof.
  intros (Hb & _ & Hw)%pool_reachable_ok Hk Hr c Hc.
  destruct (bk_prio p Hb c Hc) as (_ & _ & Hfull). destruct (bk_load p Hb c Hc) as [_ Hle].
  destruct (Hfull (Hw k c (conj Hk Hr) Hc)); [left; lia|by right].
Qed.

(** A new session is bound to the best connection: [Bind] routes it to a
    connection with room whose cached priority is least, and whose load is
    least among those of that priority (an active connection before one that
    is connecting); it leaves the session waiting only when every connection
    is full or closed. *)
Theorem Bind_picks_least_loaded cfg p k :
  rtc pool_step (NewConnectionPool cfg) p → bindings p !! k = None →
  match handles (Bind k p).1 !! (Bind k p).2 with
  | Some (Some c) =>
    routes (Bind k p).1 !! k = Some c ∧ c ∈ connections p ∧
    load (item p c) < MaxSessionsPerConnection (config p) ∧
    ∀ c', c' ∈ connections p → priority (item p c) < priority (item p c') ∨
      priority (item p c) = priority (item p c') ∧ load (item p c) ≤ load (item p c')
  | Some None =>
    routes (Bind k p).1 !! k = None ∧
    ∀ c, c ∈ connections p →
      load (item p c) = MaxSessionsPerConnection (config p) ∨ State p c = ConnectionClosed
  | None => False
  end.
Proof.
  intros Hok%pool_reachable_ok Hk. pose proof Hok as (Hb & Hq & _). unfold Bind. rewrite Hk.
  pose proof (select_spec p Hb Hq) as Hs. unfold newSessionBinding.
  set (b := fresh _). set (p1 := set_bindings p _ _).
  change (selectLocked p1) with (selectLocked p).
  assert (∀ q, handles (reserveDialLocked q).2 = handles q ∧ routes (reserveDialLocked q).2 = routes q) as Hrd.
  { intros q. unfold reserveDialLocked. by case_decide. }
  assert (∀ q, handles (reserveScaleLocked q).2 = handles q ∧ routes (reserveScaleLocked q).2 = routes q) as Hrs.
  { intros q. unfold reserveScaleLocked. case_decide; [done|]. destruct (selectLocked q); [|done].
    by case_decide. }
  destruct (selectLocked p) as [c|] eqn:Es; cbn [fst snd].
  - destruct Hs as (Hc & Hp & Hmin).
    destruct (bind_selected k p b c Hok Hk eq_refl Es) as ((Hb2 & _) & _ & Hh). fold p1 in Hb2, Hh.
    set (q := attachLocked k b c p1) in *.
    assert (handles (if decide (priority (item q c) = connectionPriorityActive) then (reserveScaleLocked q).2 else q)
      = handles q) as -> by (case_decide; [apply Hrs|done]).
    assert (routes (if decide (priority (item q c) = connectionPriorityActive) then (reserveScaleLocked q).2 else q)
      = routes q) as -> by (case_decide; [apply Hrs|done]).
    rewrite Hh. assert (queue_ok p1) as Hq1 by (by destruct Hq).
    destruct (attach_spec k b c p1 Hq1 Hc) as (h & E & _).
    split; [unfold q; rewrite E; apply lookup_insert_eq|]. split; [done|]. split.
    + destruct (bk_prio p Hb c Hc) as (_ & Hf & _).
      destruct (decide (MaxSessionsPerConnection (config p) ≤ load (item p c))) as [Hge|]; [|lia].
      specialize (Hf Hge). lia.
    + intros c' Hc'. specialize (Hmin c' Hc'). unfold rank_leb, rank in Hmin.
      repeat case_decide; lia.
  - destruct (Hrd p1) as [-> ->]. unfold p1. cbn [set_bindings handles routes]. rewrite lookup_insert_eq.
    split; [by apply unbound_unrouted|]. intros c Hc.
    destruct (bk_prio p Hb c Hc) as (_ & _ & Hfull). destruct (bk_load p Hb c Hc) as [_ Hle].
    destruct (Hfull (Hs c Hc)); [left; lia|by right].
Qed.

(** A pool that was shut down. *)
Definition dead p : Prop :=
  closed p = true ∧ connections p = ∅ ∧ queue (pq p) = [] ∧ routes p = ∅.

Lemma dead_select p : dead p → selectLocked p = None.
Proof. intros (_ & _ & Hq & _). unfold selectLocked. by rewrite Hq. Qed.

Lemma dead_reserve p : dead p → reserveDialLocked p = (false, p).
Proof. intros (Hc & _). unfold reserveDialLocked. rewrite decide_True; [done|]. auto. Qed.

Lemma dead_set_bindings b hs p : dead p → dead (set_bindings p b hs).
Proof. done. Qed.

Lemma step_dead p p' : dead p → pool_step p p' → dead p'.
Proof.
  intros Hd Hst. revert Hd.
  destruct Hst as [k p|k p|o now k p|p Hl|o p Hl|c s p Hs|o c p|now cs p|p|p Hc]; intros Hd;
    pose proof Hd as (Hcl & Hcs & Hq & Hr).
  - unfold Bind. destruct (bindings p !! k); [done|]. unfold newSessionBinding.
    rewrite dead_select by (by apply dead_set_bindings). cbn [fst].
    rewrite dead_reserve by (by apply dead_set_bindings). by apply dead_set_bindings.
  - unfold TryBind. destruct (bindings p !! k); [done|]. rewrite dead_select by done. cbn [fst].
    by rewrite dead_reserve.
  - unfold Unbind. change (routes (set_bindings p (delete k (bindings p)) (handles p))) with (routes p).
    by rewrite Hr, lookup_empty.
  - done.
  - unfold startDial. change (closed (set_pending p (-1) (dialing p - 1))) with (closed p). by rewrite Hcl.
  - done.
  - unfold syncConnectionState. rewrite Hcs, decide_True; [done|set_solver].
  - unfold cleanupIdle. revert p Hd Hcl Hcs Hq Hr. induction cs as [|c cs IH]; intros p Hd Hcl Hcs Hq Hr; [done|].
    cbn.
    assert (removeLocked c p = p) as -> by (unfold removeLocked; rewrite decide_True; [done|set_solver]).
    assert ((if decide (idle_expired now c p) then p else p) = p) as -> by (by case_decide). by apply IH.
  - done.
  - split; [|split; [done|split; [done|done]]]. cbn. rewrite <-Hcl. clear Hc Hcl.
    induction (elements (connections p)) as [|c cs IH]; [done|]. cbn. exact IH.
Qed.

(** A shutdown is final: once its locked part has run, and whatever
    dials complete and sessions are bound afterwards, the pool has no
    connection and no route, its counters of connections and routed sessions
    are zero, and every bound session's handle is empty. *)
Theorem shutdown_is_final cfg p p' :
  rtc pool_step (NewConnectionPool cfg) p → closed p = true →
  rtc pool_step (Shutdown_locked p) p' →
  connections p' = ∅ ∧ routes p' = ∅ ∧
  connectionsActive (metrics p') = 0 ∧ connectionsConnecting (metrics p') = 0 ∧
  sessionsRouted (metrics p') = 0 ∧
  ∀ k b, bindings p' !! k = Some b → handles p' !! b = Some None.
Proof.
  intros Hr Hcl Hr'.
  assert (dead (Shutdown_locked p)) as Hd0.
  { split; [|done]. cbn. rewrite <-Hcl. clear. induction (elements (connections p)) as [|c cs IH]; [done|].
    cbn. exact IH. }
  destruct (rtc_invariant pool_step dead _ _ step_dead Hr' Hd0) as (_ & Hcs & _ & Hrt).
  assert (pool_ok p') as (Hb & _ & _).
  { eapply (rtc_invariant pool_step pool_ok); [apply step_pool_ok|exact Hr'|].
    apply Shutdown_ok. by eapply pool_reachable_ok. }
  assert (∀ st, n_state st p' = 0) as Hn.
  { intros st. unfold n_state. by rewrite Hcs. }
  split; [done|]. split; [done|]. rewrite (bk_active p' Hb), (bk_connecting p' Hb), (bk_routed p' Hb), !Hn, Hrt.
  repeat (split; [done|]). intros k b Hk. apply (bk_wait p' Hb k b Hk). by rewrite Hrt, lookup_empty.
Qed.
End pool.

(** ** A concrete pool: two sessions per connection, at most one connection *)
Definition demo_cfg : ConnectionPoolConfig := mkConfig 1 2 2 1 0 0.
Definition demo_start : ConnectionPool (Key:=nat) := NewConnectionPool demo_cfg.
Definition demo_dialed : ConnectionPool (Key:=nat) := startDial default_order demo_start.
Definition demo_bound (n : nat) : ConnectionPool (Key:=nat) :=
  foldr (λ k p, (Bind k p).1) demo_dialed (seq 1 n).

Lemma demo_bound_reachable n : rtc pool_step (NewConnectionPool demo_cfg) (demo_bound n).
Proof.
  unfold demo_bound. induction (seq 1 n) as [|k ks IH]; cbn [foldr].
  - apply rtc_once, (st_dial default_order demo_start). vm_compute. lia.
  - eapply rtc_r; [exact IH|]. apply st_bind.
Qed.

Lemma pool_accounts_exact_witness :
  sessionsRouted (metrics (demo_bound 3)) = 2 ∧
  sessionsRouted (metrics (demo_bound 3)) = Z.of_nat (size (routes (demo_bound 3))).
Proof.
  split; [vm_compute; reflexivity|].
  by destruct (pool_accounts_exact demo_cfg (demo_bound 3) (demo_bound_reachable 3)) as (_ & _ & _ & ? & _).
Defined.

Lemma no_needless_wait_witness :
  routes (demo_bound 3) !! 1%nat = None ∧
  (load (item (demo_bound 3) 0) = 2 ∨ State (demo_bound 3) 0 = ConnectionClosed).
Proof.
  split; [vm_compute; reflexivity|].
  apply (no_needless_wait demo_cfg (demo_bound 3) 1%nat (demo_bound_reachable 3)).
  - vm_compute. eauto.
  - vm_compute. reflexivity.
  - apply (bool_decide_unpack _). vm_compute. exact I.
Defined.

Lemma Bind_picks_least_loaded_witness :
  bindings (demo_bound 1) !! 7%nat = None ∧ routes (Bind 7%nat (demo_bound 1)).1 !! 7%nat = Some 0%nat.
Proof.
  assert (bindings (demo_bound 1) !! 7%nat = None) as Hk by (vm_compute; reflexivity). split; [exact Hk|].
  pose proof (Bind_picks_least_loaded demo_cfg (demo_bound 1) 7%nat (demo_bound_reachable 1) Hk) as Hp.
  destruct (handles (Bind 7%nat (demo_bound 1)).1 !! (Bind 7%nat (demo_bound 1)).2) as [[c|]|] eqn:E;
    vm_compute in E; try discriminate E.
  injection E as <-. exact (proj1 Hp).
Defined.

Lemma shutdown_is_final_witness :
  closed (Shutdown_begin (demo_bound 2)) = true ∧
  routes (Bind 9%nat (Shutdown_locked (Shutdown_begin (demo_bound 2)))).1 = ∅.
Proof.
  split; [vm_compute; reflexivity|].
  apply (shutdown_is_final demo_cfg (Shutdown_begin (demo_bound 2))).
  - eapply rtc_r; [apply demo_bound_reachable|]. apply st_shutdown_begin.
  - vm_compute. reflexivity.
  - apply rtc_once, st_bind.
Defined.
