(* ===== verification/GatewayConn.v ===== *)
(** * A connection of the gateway to a machine: internal/gateway/connection.go

    Frames: [write] assembles the session key and the parts of a message in
    a pooled buffer; [OnMessage] splits them again.

    Life of a connection: the WebSocket callbacks, the reconnect goroutine,
    [Close] and the first dial run concurrently on the same object, whose
    state and socket are two atomics.  Each of them is a task whose steps
    are the accesses to these atomics; [step] runs one step of one task.
    The WebSocket library is used as documented: a successful dial calls
    [OnOpen], and [OnClose] of a socket comes after its [OnOpen] returned,
    whether the peer or this side closed it. *)

From S2P Require Import Prelude.
From S2P Require Import GoSlice.
From S2P Require Import Protocol.

(** ** Frames *)

(** [copy(s[offset:], b)]. *)
Definition copy_at (s : slice Z) (offset : nat) (b : list Z) : slice Z * nat :=
  let k := min (len s - offset) (length b) in
  (mkSlice (take offset (arr s) ++ take k b ++ drop (offset + k) (arr s)) (len s), k).

Fixpoint copy_parts (s : slice Z) (offset : nat) (bs : list (list Z)) : slice Z :=
  match bs with
  | [] => s
  | b :: bs => let '(s, k) := copy_at s offset b in copy_parts s (offset + k) bs
  end.

(** The pooled buffer after [write] filled it. *)
Definition fill (buffer : slice Z) (key : list Z) (bs : list (list Z)) : slice Z :=
  let required := SessionKeySize + sum_list_with length bs in
  let buffer := make_room 0%Z buffer required in
  let '(buffer, offset) := copy_at buffer 0 (take SessionKeySize key) in
  copy_parts buffer offset bs.

Inductive write_result :=
| Written (frame : list Z)  (* handed to the socket *)
| NothingToWrite
| ErrConnectionNotActive.

Definition write (st : ConnectionState) (socket : option nat) (buffer : slice Z)
    (key : list Z) (bs : list (list Z)) : write_result :=
  if decide (st ≠ ConnectionActive ∨ socket = None) then ErrConnectionNotActive
  else if decide (length bs = 0) then NothingToWrite
  else Written (contents (fill buffer key bs)).

Definition Write st socket buffer key (data : list Z) : write_result :=
  write st socket buffer key [data].

Definition WritePacket st socket buffer key (packet : Packet) : write_result :=
  write st socket buffer key [(Header packet).2; contents (Payload packet)].

(** [OnMessage]: what is handed to the dispatcher. *)
Definition OnMessage (binary : bool) (dispatcher : bool) (data : list Z) :
    option (list Z * list Z) :=
  if decide (binary = false ∨ length data < SessionKeySize) then None
  else if dispatcher then Some (take SessionKeySize data, drop SessionKeySize data)
  else None.

Lemma copy_parts_contents s offset bs done_ :
  take offset (arr s) = done_ → offset ≤ len s →
  len s = offset + sum_list_with length bs → slice_wf s →
  contents (copy_parts s offset bs) = done_ ++ mjoin bs.
Proof.
  revert s offset done_. induction bs as [|b bs IH]; intros s off done_ Hd Hle Hlen Hwf; cbn.
  - cbn in Hlen. rewrite app_nil_r. unfold contents. by rewrite Hlen, Nat.add_0_r.
  - cbn in Hlen. unfold slice_wf, cap in Hwf.
    replace (min (len s - off) (length b)) with (length b) by lia.
    rewrite (firstn_all b). rewrite (IH _ _ (done_ ++ b)); [by rewrite <-app_assoc|..]; cbn.
    + rewrite Hd. rewrite app_assoc. subst done_.
      rewrite take_app_le by (rewrite length_app, length_take; lia).
      apply take_ge. rewrite length_app, length_take. lia.
    + lia.
    + lia.
    + unfold slice_wf, cap. cbn. rewrite !length_app, length_take, length_drop. lia.
Qed.

(** Whatever the pooled buffer held, the frame is the key and the parts. *)
Lemma fill_contents buffer key bs :
  length key = SessionKeySize → contents (fill buffer key bs) = key ++ mjoin bs.
Proof.
  intros Hk. unfold fill. rewrite take_ge by lia.
  assert (∃ n, n = SessionKeySize + sum_list_with length bs) as [n Hn] by eauto. rewrite <-Hn.
  pose proof (make_room_wf 0%Z buffer n) as Hwf. pose proof (len_make_room 0%Z buffer n) as Hlen.
  destruct (make_room 0%Z buffer n) as [a l]. cbn [len] in Hlen. subst l.
  unfold copy_at. cbn [len arr]. replace (min (n - 0) (length key)) with (length key) by lia.
  rewrite (firstn_all key). apply copy_parts_contents; cbn [len arr take]; [|lia..|].
  - by rewrite take_0, app_nil_l, take_app_length.
  - unfold slice_wf, cap in *. cbn [arr len] in *. rewrite take_0, app_nil_l, length_app, length_drop. lia.
Qed.

Lemma OnMessage_frame key data :
  length key = SessionKeySize → OnMessage true true (key ++ data) = Some (key, data).
Proof.
  intros Hk. unfold OnMessage. rewrite decide_False.
  - f_equal. f_equal; [by rewrite <-Hk, take_app_length|by rewrite <-Hk, drop_app_length].
  - rewrite length_app. intros [|]; [done|lia].
Qed.

(** ** The state machine *)
Inductive task :=
| StartDial                (* the pool's startDial, before its check of closed *)
| DialFirst                (* p.connect(conn) *)
| LoopTop                  (* reconnectLoop: the guard *)
| LoopDial                 (* c.Connect() *)
| LoopWait                 (* backoff.Wait *)
| Opening (s : nat)        (* OnOpen, before the compare-and-swap *)
| Opened (s : nat)         (* before socket.Store *)
| NotifyOpen
| Dropped                  (* OnClose won its compare-and-swap, before socket.Store(nil) *)
| NotifyDrop
| CloseLoad                (* Close, before socket.Load *)
| CloseSocket (s : nat)    (* before socket.Close *)
| CloseStore               (* before socket.Store(nil) *)
| NotifyClose.

Inductive observation := ConnectionOpen | ConnectionClose.

Record Connection := mkConn {
  state : ConnectionState;
  socket : option nat;
  ctx_done : bool;
  (* the environment *)
  tasks : list task;
  live : gset nat;           (* sockets neither side has closed *)
  closing : gset nat;        (* closed here, [OnClose] still to come *)
  used : gset nat;           (* every socket so far *)
  observed : list observation;
}.

Definition newPoolConnection : Connection :=
  mkConn ConnectionConnecting None false [StartDial] ∅ ∅ ∅ [].

Definition with_tasks (c : Connection) ts :=
  mkConn (state c) (socket c) (ctx_done c) ts (live c) (closing c) (used c) (observed c).
Definition with_state (c : Connection) st :=
  mkConn st (socket c) (ctx_done c) (tasks c) (live c) (closing c) (used c) (observed c).
Definition with_socket (c : Connection) s :=
  mkConn (state c) s (ctx_done c) (tasks c) (live c) (closing c) (used c) (observed c).
Definition observe (c : Connection) e :=
  mkConn (state c) (socket c) (ctx_done c) (tasks c) (live c) (closing c) (used c) (observed c ++ [e]).
Definition close_socket (c : Connection) (s : nat) :=
  mkConn (state c) (socket c) (ctx_done c) (tasks c) (live c ∖ {[s]})
    (if decide (s ∈ live c) then {[s]} ∪ closing c else closing c) (used c) (observed c).
Definition add_socket (c : Connection) (s : nat) :=
  mkConn (state c) (socket c) (ctx_done c) (tasks c) ({[s]} ∪ live c) (closing c) ({[s]} ∪ used c) (observed c).
Definition forget_socket (c : Connection) (s : nat) :=
  mkConn (state c) (socket c) (ctx_done c) (tasks c) (live c ∖ {[s]}) (closing c ∖ {[s]}) (used c) (observed c).

(** [Connect]: the dial succeeds on a new socket or fails. *)
Definition Connect (ok : bool) (failed : list task) (c : Connection) : Connection * list task :=
  if ok then let s := fresh (used c) in (add_socket c s, [Opening s]) else (c, failed).

(** [reconnectLoop]: the guard of the loop. *)
Definition reconnectLoop_top (c : Connection) : Connection * list task :=
  if decide (ctx_done c = true ∨ state c ≠ ConnectionConnecting) then (c, []) else (c, [LoopDial]).

(** [OnOpen]. *)
Definition OnOpen_swap (s : nat) (c : Connection) : Connection * list task :=
  if decide (state c = ConnectionConnecting) then (with_state c ConnectionActive, [Opened s])
  else (close_socket c s, []).

(** [OnClose]: the compare-and-swap that decides whether to reconnect. *)
Definition OnClose_swap (c : Connection) : Connection * list task :=
  if decide (state c = ConnectionActive) then (with_state c ConnectionConnecting, [Dropped])
  else (c, []).

(** [Close]: the swap that makes it idempotent. *)
Definition Close_swap (c : Connection) : Connection * list task :=
  if decide (state c = ConnectionClosed) then (c, [])
  else (with_state c ConnectionClosed, [CloseLoad]).

(** One step of a task; [ok] is the choice of the environment (a dial that
    succeeds, a pool that is still open, a wait that ends normally). *)
Definition run (ok : bool) (t : task) (c : Connection) : Connection * list task :=
  match t with
  | StartDial => if ok then (c, [DialFirst]) else Close_swap c
  | DialFirst => Connect ok [LoopTop] c
  | LoopTop => reconnectLoop_top c
  | LoopDial => Connect ok [LoopWait] c
  | LoopWait => if ok then (c, [LoopTop]) else if ctx_done c then (c, []) else (c, [LoopWait])
  | Opening s => OnOpen_swap s c
  | Opened s => (with_socket c (Some s), [NotifyOpen])
  | NotifyOpen => (observe c ConnectionOpen, [])
  | Dropped => (with_socket c None, [NotifyDrop])
  | NotifyDrop => (observe c ConnectionClose, [LoopTop])
  | CloseLoad => match socket c with Some s => (c, [CloseSocket s]) | None => (c, [NotifyClose]) end
  | CloseSocket s => (close_socket c s, [CloseStore])
  | CloseStore => (with_socket c None, [NotifyClose])
  | NotifyClose => (observe c ConnectionClose, [])
  end.

Definition opening_of (t : task) : option nat :=
  match t with Opening s | Opened s => Some s | _ => None end.

Inductive label :=
| Run (i : nat) (ok : bool)
| SocketClosed (s : nat)   (* the library calls OnClose *)
| CallClose
| Cancel.

Definition step (l : label) (c : Connection) : option Connection :=
  match l with
  | Run i ok =>
      t ← tasks c !! i;
      let '(c', ts) := run ok t c in
      Some (with_tasks c' (take i (tasks c) ++ ts ++ drop (S i) (tasks c)))
  | SocketClosed s =>
      if decide (s ∈ live c ∪ closing c ∧ Some s ∉ opening_of <$> tasks c) then
        let '(c', ts) := OnClose_swap (forget_socket c s) in
        Some (with_tasks c' (tasks c ++ ts))
      else None
  | CallClose =>
      let '(c', ts) := Close_swap c in Some (with_tasks c' (tasks c ++ ts))
  | Cancel =>
      Some (mkConn (state c) (socket c) true (tasks c) (live c) (closing c) (used c) (observed c))
  end.

Definition steps (c c' : Connection) : Prop := ∃ l, step l c = Some c'.

(** ** The invariant *)

(** Tasks that will dial, unless the connection is closed or cancelled. *)
Definition reconnecting (t : task) : nat :=
  match t with
  | StartDial | DialFirst | LoopTop | LoopDial | LoopWait | Dropped | NotifyDrop => 1
  | _ => 0
  end.
Definition is_opening (t : task) : nat := match t with Opening _ => 1 | _ => 0 end.
Definition is_opened (t : task) : nat := match t with Opened _ => 1 | _ => 0 end.
Definition is_close (t : task) : nat :=
  match t with CloseLoad | CloseSocket _ | CloseStore | NotifyClose => 1 | _ => 0 end.

Definition count (f : task → nat) (c : Connection) : nat := sum_list_with f (tasks c).
#[local] Arguments count : simpl never.

(** What the atomics say while the connection is not closed. *)
Record running (c : Connection) : Prop := {
  r_closing : closing c = ∅;
  r_close : count is_close c = 0;
  r_socket : ∀ t s, t ∈ tasks c → opening_of t = Some s → s ∈ live c;
}.

Definition connecting_ok (c : Connection) : Prop :=
  size (live c) = count is_opening c ∧ count is_opened c = 0 ∧
  (ctx_done c = false → count reconnecting c + count is_opening c = 1).

Definition active_ok (c : Connection) : Prop :=
  count reconnecting c = 0 ∧ count is_opening c = 0 ∧ size (live c) = 1 ∧
  ((count is_opened c = 1) ∨
   (count is_opened c = 0 ∧ ∃ s, socket c = Some s ∧ s ∈ live c)).

Record conn_ok (c : Connection) : Prop := {
  ok_used : live c ⊆ used c;
  ok_one : size (live c) + count reconnecting c ≤ 1;
  ok_running : state c ≠ ConnectionClosed → running c;
  ok_state :
    match state c with
    | ConnectionConnecting => connecting_ok c
    | ConnectionActive => active_ok c
    | ConnectionClosed => True
    | ConnectionUnknown => False
    end;
}.

Lemma new_conn_ok : conn_ok newPoolConnection.
Proof.
  split; cbn.
  - set_solver.
  - unfold count. cbn. rewrite size_empty. lia.
  - intros _. split; [done|done|]. intros t s ->%list_elem_of_singleton. done.
  - unfold connecting_ok, count. cbn. rewrite size_empty. auto.
Qed.

Lemma count_split f c l1 t l2 :
  tasks c = l1 ++ t :: l2 → count f c = f t + (sum_list_with f l1 + sum_list_with f l2).
Proof. intros Ht. unfold count. rewrite Ht, sum_list_with_app. cbn. lia. Qed.

Lemma count_new f c l1 ts l2 :
  count f (with_tasks c (l1 ++ ts ++ l2)) =
  sum_list_with f ts + (sum_list_with f l1 + sum_list_with f l2).
Proof. unfold count. cbn. rewrite !sum_list_with_app. lia. Qed.

Lemma count_end f c l1 l2 :
  count f (with_tasks c (l1 ++ l2)) = sum_list_with f l1 + sum_list_with f l2.
Proof. apply (count_new f c l1 [] l2). Qed.

Lemma count_one f c l1 t l2 :
  count f (with_tasks c (l1 ++ t :: l2)) = f t + (sum_list_with f l1 + sum_list_with f l2).
Proof. etrans; [apply (count_new f c l1 [t] l2)|]. cbn. lia. Qed.

Lemma size_add_socket c :
  live c ⊆ used c → size ({[fresh (used c)]} ∪ live c) = S (size (live c)).
Proof.
  intros Hu. pose proof (is_fresh (used c)). rewrite size_union; [by rewrite size_singleton|set_solver].
Qed.

(** The invariant with the counts of the other tasks as unknowns. *)
Ltac open_ok H Ht :=
  destruct H as [Hu Hone Hrun Hst]; unfold connecting_ok, active_ok in Hst;
  rewrite ?(count_split reconnecting _ _ _ _ Ht), ?(count_split is_opening _ _ _ _ Ht),
    ?(count_split is_opened _ _ _ _ Ht) in Hst;
  rewrite ?(count_split reconnecting _ _ _ _ Ht) in Hone.

Lemma running_new c c' l1 t ts l2 :
  running c → tasks c = l1 ++ t :: l2 → closing c' = closing c →
  sum_list_with is_close ts = 0 → live c ⊆ live c' →
  (∀ t' s, t' ∈ ts → opening_of t' = Some s → s ∈ live c') →
  running (with_tasks c' (l1 ++ ts ++ l2)).
Proof.
  intros [Hc Hcl Hs] Ht Hc' Hts Hl Hnew. split; cbn; [by rewrite Hc'| |].
  - rewrite count_new, Hts. rewrite (count_split _ _ _ _ _ Ht) in Hcl. lia.
  - intros t' s Hin Ho. rewrite !elem_of_app in Hin. destruct Hin as [Hin|[Hin|Hin]]; [|eauto|];
      apply Hl, (Hs t'); rewrite ?Ht; set_solver.
Qed.

(** A step of a task that is not a part of [Close] and leaves the sockets,
    the state and the number of each kind of task alone. *)
Lemma neutral_step c l1 t l2 t' :
  conn_ok c → tasks c = l1 ++ t :: l2 →
  reconnecting t' = reconnecting t → is_opening t' = is_opening t → is_opened t' = is_opened t →
  is_close t' = is_close t → opening_of t' = opening_of t →
  conn_ok (with_tasks c (l1 ++ [t'] ++ l2)).
Proof.
  intros Hok Ht H1 H2 H3 H4 H5. destruct Hok as [Hu Hone Hrun Hst].
  assert (∀ f, f t' = f t → count f (with_tasks c (l1 ++ [t'] ++ l2)) = count f c) as Hc.
  { intros f Hf. rewrite count_new, (count_split _ _ _ _ _ Ht). cbn. lia. }
  split; cbn -[count].
  - done.
  - by rewrite Hc.
  - intros Hn. destruct (Hrun Hn) as [R1 R2 R3]. split; cbn -[count]; [done|by rewrite Hc|].
    intros x s Hin Ho. assert (x ∈ l1 ∨ x = t' ∨ x ∈ l2) as Hin' by set_solver.
    destruct Hin' as [Hx|[->|Hx]]; [|rewrite H5 in Ho|]; eapply R3; eauto; rewrite Ht; set_solver.
  - unfold connecting_ok, active_ok in *. destruct (state c); rewrite ?Hc by done; done.
Qed.

(** A task that ends. *)
Lemma end_step c c' l1 t l2 :
  conn_ok c → tasks c = l1 ++ t :: l2 →
  state c' = state c → socket c' = socket c → ctx_done c' = ctx_done c → live c' = live c →
  closing c' = closing c → used c' = used c →
  is_opening t = 0 → is_opened t = 0 →
  (reconnecting t = 1 → ctx_done c = true ∨ state c ≠ ConnectionConnecting) →
  conn_ok (with_tasks c' (l1 ++ l2)).
Proof.
  intros Hok Ht E1 E2 E3 E4 E5 E6 H1 H2 H3. open_ok Hok Ht.
  split; cbn -[count]; rewrite ?E1, ?E2, ?E3, ?E4, ?E6; [done| | |].
  - rewrite count_end. cbn. lia.
  - intros Hn. apply (running_new c c' l1 t [] l2); [by apply Hrun|done|done|done|by rewrite E4|].
    intros t' s Hin. by apply elem_of_nil in Hin.
  - destruct (state c); try done; unfold connecting_ok, active_ok; rewrite !count_end;
      cbn; rewrite ?E2, ?E3, ?E4; destruct_and!; split_and!; try lia.
    + match goal with H : _ ∨ _ |- _ => destruct H as [?|[? ?]] end; [left; lia|right; split; [lia|done]].
    + intros Hctx. match goal with H : _ = false → _ |- _ => specialize (H Hctx) end.
      destruct (reconnecting t) as [|[|n]] eqn:Hr; [lia| |lia].
      destruct (H3 eq_refl); [congruence|done].
Qed.

Lemma Connect_ok ok failed c c' ts l1 t l2 :
  conn_ok c → tasks c = l1 ++ t :: l2 → reconnecting t = 1 → opening_of t = None →
  is_close t = 0 → is_opening t = 0 → is_opened t = 0 →
  reconnecting failed = 1 → opening_of failed = None →
  is_close failed = 0 → is_opening failed = 0 → is_opened failed = 0 →
  Connect ok [failed] c = (c', ts) →
  conn_ok (with_tasks c' (l1 ++ ts ++ l2)).
Proof.
  intros Hok Ht Hr Ho Hcl Hop Hod Fr Fo Fcl Fop Fod. unfold Connect. destruct ok; intros [= <- <-].
  2:{ eapply neutral_step; eauto; congruence. }
  open_ok Hok Ht. pose proof (size_add_socket c Hu) as Hsz.
  split; cbn -[count].
  - set_solver.
  - rewrite count_one. cbn. lia.
  - intros Hn. apply (running_new c (add_socket c (fresh (used c))) l1 t [Opening _] l2); [by apply Hrun|done|done|done|cbn; set_solver|].
    intros t' s ->%list_elem_of_singleton [= <-]. cbn. set_solver.
  - destruct (state c); try done; unfold connecting_ok, active_ok; rewrite !count_one; cbn.
    + lia.
    + destruct_and!. split_and!; lia.
Qed.

Lemma OnOpen_ok s c c' ts l1 l2 :
  conn_ok c → tasks c = l1 ++ Opening s :: l2 → OnOpen_swap s c = (c', ts) →
  conn_ok (with_tasks c' (l1 ++ ts ++ l2)).
Proof.
  intros Hok Ht. unfold OnOpen_swap. open_ok Hok Ht. cbn in Hst, Hone. case_decide as Hs; intros [= <- <-].
  - rewrite Hs in Hst. destruct Hst as (Hlive & Hod & _). split; cbn; [done|rewrite count_one; cbn; lia| |].
    + intros _. apply (running_new c _ l1 (Opening s) [Opened s] l2); [apply Hrun; congruence|done..|].
      intros t' s' ->%list_elem_of_singleton [= <-]. apply (r_socket c ltac:(apply Hrun; congruence) (Opening s)); [|done].
      rewrite Ht. set_solver.
    + unfold active_ok. rewrite !count_one. cbn. split_and!; [lia..|]. left. lia.
  - assert (state c = ConnectionClosed) as Hc.
    { destruct (state c); try done. lia. }
    split; cbn; [set_solver| | |by rewrite Hc].
    + rewrite count_end. pose proof (subseteq_size (live c ∖ {[s]}) (live c)). 
      assert (live c ∖ {[s]} ⊆ live c) by set_solver. intuition lia.
    + by rewrite Hc.
Qed.

(** In state closed only the number of dials and sockets matters. *)
Lemma closed_ok c : live c ⊆ used c → size (live c) + count reconnecting c ≤ 1 →
  state c = ConnectionClosed → conn_ok c.
Proof. intros Hu H1 Hs. split; try done; by rewrite Hs. Qed.

Lemma close_task_closed c l1 t l2 :
  conn_ok c → tasks c = l1 ++ t :: l2 → is_close t = 1 → state c = ConnectionClosed.
Proof.
  intros [_ _ Hrun _] Ht Hc. destruct (decide (state c = ConnectionClosed)) as [|Hn]; [done|].
  pose proof (r_close _ (Hrun Hn)) as H0. rewrite (count_split _ _ _ _ _ Ht) in H0. lia.
Qed.

Lemma run_ok ok t c c' ts l1 l2 :
  conn_ok c → tasks c = l1 ++ t :: l2 → run ok t c = (c', ts) →
  conn_ok (with_tasks c' (l1 ++ ts ++ l2)).
Proof.
  intros Hok Ht Hr. destruct t; cbn in Hr.
  - destruct ok; [injection Hr as <- <-; by eapply neutral_step|].
    unfold Close_swap in Hr. case_decide as Hs; injection Hr as <- <-.
    + eapply end_step; eauto. intros _. right. by rewrite Hs.
    + open_ok Hok Ht. cbn in Hone. apply closed_ok; cbn; [done| |done]. rewrite count_one. cbn. lia.
  - by apply (Connect_ok ok LoopTop c c' ts l1 DialFirst l2).
  - unfold reconnectLoop_top in Hr. case_decide as Hs; injection Hr as <- <-.
    + by eapply end_step.
    + by eapply neutral_step.
  - by apply (Connect_ok ok LoopWait c c' ts l1 LoopDial l2).
  - destruct ok; [injection Hr as <- <-; by eapply neutral_step|].
    destruct (ctx_done c) eqn:Hd; injection Hr as <- <-.
    + eapply end_step; eauto.
    + by eapply neutral_step.
  - by eapply OnOpen_ok.
  - injection Hr as <- <-. pose proof Hok as Hok'. open_ok Hok Ht. cbn in Hst, Hone.
    split; cbn; [done|rewrite count_one; cbn; lia| |].
    + intros Hn. by apply (running_new c _ l1 (Opened s) [NotifyOpen] l2);
        [apply Hrun|done..|intros t' s' ->%list_elem_of_singleton].
    + unfold connecting_ok, active_ok. rewrite !count_one. cbn. destruct (state c) eqn:Hs; try done; [|lia].
      destruct Hst as (? & ? & ? & Hd). split_and!; try lia. right. split; [lia|]. exists s. split; [done|].
      apply (r_socket c ltac:(apply Hrun; congruence) (Opened s)); [|done]. rewrite Ht. set_solver.
  - injection Hr as <- <-. by eapply (end_step c).
  - injection Hr as <- <-. open_ok Hok Ht. cbn in Hst, Hone.
    split; cbn; [done|rewrite count_one; cbn; lia| |].
    + intros Hn. by apply (running_new c _ l1 Dropped [NotifyDrop] l2);
        [apply Hrun|done..|intros t' s' ->%list_elem_of_singleton].
    + unfold connecting_ok, active_ok. rewrite !count_one. cbn. destruct (state c) eqn:Hs; try done.
      lia.
  - injection Hr as <- <-.
    apply (neutral_step (observe c ConnectionClose) l1 NotifyDrop l2 LoopTop); try done.
    destruct Hok as [? ? Hrun ?]. split; try done. intros Hn. by destruct (Hrun Hn).
  - pose proof (close_task_closed _ _ _ _ Hok Ht eq_refl) as Hc. open_ok Hok Ht. cbn in Hone.
    destruct (socket c); injection Hr as <- <-; apply closed_ok; try done; cbn; rewrite count_one; cbn; lia.
  - pose proof (close_task_closed _ _ _ _ Hok Ht eq_refl) as Hc. open_ok Hok Ht. cbn in Hone.
    injection Hr as <- <-. apply closed_ok; cbn; [set_solver| |done]. rewrite count_one. cbn.
    pose proof (subseteq_size (live c ∖ {[s]}) (live c) ltac:(set_solver)). lia.
  - pose proof (close_task_closed _ _ _ _ Hok Ht eq_refl) as Hc. open_ok Hok Ht. cbn in Hone.
    injection Hr as <- <-. apply closed_ok; try done; cbn; rewrite count_one; cbn; lia.
  - pose proof (close_task_closed _ _ _ _ Hok Ht eq_refl) as Hc. open_ok Hok Ht. cbn in Hone.
    injection Hr as <- <-. apply closed_ok; try done; cbn; rewrite count_end; cbn; lia.
Qed.

Lemma elem_of_size_pos (s : nat) (X : gset nat) : s ∈ X → 0 < size X.
Proof.
  intros Hs. destruct (decide (size X = 0)) as [Hz|]; [|lia].
  apply size_empty_inv in Hz. exfalso. by apply Hz, elem_of_empty in Hs.
Qed.

Lemma no_opening s c :
  running c → size (live c) = 1 → s ∈ live c ∪ closing c → Some s ∉ opening_of <$> tasks c →
  count is_opened c = 0 ∧ count is_opening c = 0.
Proof.
  intros [Hcl _ Hs] Hsz Hin Hno. rewrite Hcl in Hin. assert (s ∈ live c) as Hin' by set_solver. clear Hin Hcl.
  apply size_1_elem_of in Hsz as [s0 Hl%leibniz_equiv]. rewrite Hl in Hin', Hs.
  unfold count. induction (tasks c) as [|t ts IH]; [done|].
  destruct (IH) as [IH1 IH2].
  { intros t' s' Ht'. apply (Hs t'). by right. }
  { rewrite fmap_cons in Hno. set_solver. }
  cbn. rewrite IH1, IH2.
  assert (∀ s', opening_of t = Some s' → False) as Ht.
  { intros s' Ht. pose proof (Hs t s' ltac:(by left) Ht) as Hs'.
    rewrite fmap_cons, Ht in Hno. assert (s' = s) by set_solver. set_solver. }
  destruct t; try done; exfalso; by eapply Ht.
Qed.

Lemma OnClose_ok s c c' ts :
  conn_ok c → s ∈ live c ∪ closing c → Some s ∉ opening_of <$> tasks c →
  OnClose_swap (forget_socket c s) = (c', ts) → conn_ok (with_tasks c' (tasks c ++ ts)).
Proof.
  intros [Hu H1 Hrun Hst] Hin Hno. unfold OnClose_swap. cbn.
  pose proof (subseteq_size (live c ∖ {[s]}) (live c) ltac:(set_solver)) as Hsub.
  destruct (state c) eqn:Hs; rewrite ?decide_False, ?(decide_True (P := ConnectionActive = ConnectionActive)) by done;
    intros [= <- <-]; rewrite ?app_nil_r.
  - done.
  - destruct Hst as (Hr & Ho & Hsz & _).
    destruct (no_opening s c) as [Hod _]; [apply Hrun; congruence|done..|].
    assert (∀ f, count f (with_tasks c (tasks c ++ [Dropped])) = count f c + f Dropped) as Hc.
    { intros f. unfold count. cbn. rewrite sum_list_with_app. cbn. lia. }
    unfold count in Hc. cbn in Hc. destruct (Hrun ltac:(congruence)) as [R1 R2 R3].
    assert (s ∈ live c) as Hs' by set_solver.
    assert (size (live c ∖ {[s]}) = 0) as H0.
    { rewrite size_difference, size_singleton, Hsz by set_solver. done. }
    split; unfold connecting_ok, count; cbn; rewrite ?Hc; unfold count in *.
    + set_solver.
    + rewrite H0, Hr. cbn. lia.
    + intros _. split; cbn; unfold count; cbn; [set_solver|rewrite Hc, R2; done|].
      intros t s' Ht Ho'. exfalso.
      apply elem_of_app in Ht as [Ht|Ht]; [|by apply list_elem_of_singleton in Ht as ->].
      apply size_1_elem_of in Hsz as [s0 Hl%leibniz_equiv]. pose proof (R3 t s' Ht Ho') as Hs0.
      apply Hno. rewrite Hl in Hs', Hs0. apply elem_of_singleton in Hs', Hs0. subst.
      rewrite <-Ho'. by apply list_elem_of_fmap_2.
    + rewrite H0, Hr, Ho, Hod. cbn. lia.
  - exfalso. destruct Hst as (Hsz & _). destruct (Hrun ltac:(congruence)) as [R1 R2 R3].
    assert (s ∈ live c) as Hs' by set_solver.
    destruct (no_opening s c) as [_ H0]; [apply Hrun; congruence| |done..|].
    + pose proof (elem_of_size_pos _ _ Hs'). lia.
    + pose proof (elem_of_size_pos _ _ Hs'). lia.
  - apply closed_ok; cbn; [set_solver| |done]. unfold count in *. cbn. lia.
Qed.

Lemma step_conn_ok c c' : conn_ok c → steps c c' → conn_ok c'.
Proof.
  intros Hok [l Hl]. destruct l as [i ok|s| |]; cbn in Hl.
  - apply bind_Some in Hl as (t & Hi & Hl). destruct (run ok t c) as [c1 ts] eqn:Hr. simplify_eq.
    eapply run_ok; [done| |done]. by rewrite take_drop_middle.
  - case_decide as Hs; [|done]. destruct Hs as [Hin Hno].
    destruct (OnClose_swap _) as [c1 ts] eqn:Hr. simplify_eq. by eapply OnClose_ok.
  - unfold Close_swap in Hl. case_decide as Hs; simplify_eq; cbn.
    + rewrite app_nil_r. by destruct c.
    + destruct Hok as [Hu H1 _ _]. apply closed_ok; cbn; [done| |done].
      unfold count in *. cbn. rewrite sum_list_with_app. cbn. lia.
  - simplify_eq. destruct Hok as [Hu H1 Hrun Hst]. split; cbn; [done|done| |].
    + intros Hn. destruct (Hrun Hn). by split.
    + destruct (state c); try done. destruct Hst as (? & ? & _). by split_and!.
Qed.

Lemma conn_reachable_ok c : rtc steps newPoolConnection c → conn_ok c.
Proof. intros Hr. eapply (rtc_invariant steps conn_ok); [apply step_conn_ok|done|apply new_conn_ok]. Qed.

Lemma closed_stays c c' : state c = ConnectionClosed → steps c c' → state c' = ConnectionClosed.
Proof.
  intros Hs [l Hl]. destruct l as [i ok|s| |]; cbn in Hl.
  - apply bind_Some in Hl as (t & Hi & Hl). destruct (run ok t c) as [c1 ts] eqn:Hr. simplify_eq. cbn.
    destruct t, ok; cbn in Hr; unfold Connect, Close_swap, reconnectLoop_top, OnOpen_swap in Hr;
      repeat case_decide; repeat case_match; simplify_eq/=; congruence.
  - case_decide; [|done]. unfold OnClose_swap in Hl. cbn in Hl. rewrite decide_False in Hl by congruence. by simplify_eq.
  - unfold Close_swap in Hl. rewrite decide_True in Hl by done. by simplify_eq.
  - by simplify_eq.
Qed.

(** ** Reports to the pool *)

(** The reports made and those a task is about to make. *)
Definition is_open_report (o : observation) : nat := match o with ConnectionOpen => 1 | ConnectionClose => 0 end.
Definition is_close_report (o : observation) : nat := match o with ConnectionOpen => 0 | ConnectionClose => 1 end.
Definition will_open (t : task) : nat := match t with Opened _ | NotifyOpen => 1 | _ => 0 end.
Definition will_close (t : task) : nat :=
  match t with Dropped | NotifyDrop | CloseLoad | CloseSocket _ | CloseStore | NotifyClose => 1 | _ => 0 end.
Definition opens (c : Connection) : nat := sum_list_with is_open_report (observed c) + count will_open c.
Definition closes (c : Connection) : nat := sum_list_with is_close_report (observed c) + count will_close c.

(** Openings and closings alternate: one opening more than closings while the
    connection is active, and as many while it is connecting; a connection
    closed before it opened reports a closing without an opening. *)
Definition reports_ok (c : Connection) : Prop :=
  match state c with
  | ConnectionActive => opens c = S (closes c)
  | ConnectionConnecting => opens c = closes c
  | ConnectionClosed => closes c = opens c ∨ closes c = S (opens c)
  | ConnectionUnknown => False
  end.

Lemma run_reports ok t c c' ts l1 l2 :
  reports_ok c → tasks c = l1 ++ t :: l2 → run ok t c = (c', ts) →
  reports_ok (with_tasks c' (l1 ++ ts ++ l2)).
Proof.
  intros Hok Ht Hr. unfold reports_ok, opens, closes in *.
  rewrite (count_split will_open _ _ _ _ Ht), (count_split will_close _ _ _ _ Ht) in Hok. rewrite !count_new.
  destruct t, ok; cbn in Hr; unfold Connect, Close_swap, reconnectLoop_top, OnOpen_swap in Hr;
    repeat case_decide; repeat case_match; simplify_eq/=; rewrite ?sum_list_with_app; cbn;
    repeat match goal with E : state _ = _ |- _ => rewrite E in * end; try done; try lia;
    destruct (state c); try done; try lia.
Qed.

Lemma step_reports c c' : reports_ok c → steps c c' → reports_ok c'.
Proof.
  intros Hok [l Hl]. destruct l as [i ok|s| |]; cbn in Hl.
  - apply bind_Some in Hl as (t & Hi & Hl). destruct (run ok t c) as [c1 ts] eqn:Hr. simplify_eq.
    eapply run_reports; [done| |done]. by rewrite take_drop_middle.
  - case_decide as Hs; [|done]. unfold OnClose_swap in Hl. cbn in Hl.
    case_decide as Ha; simplify_eq; unfold reports_ok, opens, closes, count in *; cbn; rewrite ?sum_list_with_app; cbn.
    + rewrite Ha in Hok. lia.
    + rewrite !Nat.add_0_r. done.
  - unfold Close_swap in Hl. case_decide as Hs; simplify_eq; unfold reports_ok, opens, closes, count in *; cbn;
      rewrite ?sum_list_with_app; cbn.
    + rewrite !Nat.add_0_r. done.
    + destruct (state c); try done; lia.
  - by simplify_eq.
Qed.

Lemma reachable_reports c : rtc steps newPoolConnection c → reports_ok c.
Proof. intros Hr. by eapply (rtc_invariant steps reports_ok); [apply step_reports|done|]. Qed.

(** ** Properties *)

(** The tasks that are dialing the machine right now. *)
Definition dials (c : Connection) : nat :=
  count (λ t, match t with DialFirst | LoopDial => 1 | _ => 0 end) c.

Lemma dials_le c : dials c ≤ count reconnecting c.
Proof.
  unfold dials, count. induction (tasks c) as [|t ts IH]; [done|]. cbn. destruct t; cbn; lia.
Qed.

Lemma count_elem f c : count f c ≠ 0 → ∃ t, t ∈ tasks c ∧ f t ≠ 0.
Proof.
  unfold count. induction (tasks c) as [|t ts IH]; cbn; [done|]. intros Hn.
  destruct (decide (f t = 0)) as [Ht|Ht].
  - destruct IH as (t' & ? & ?); [lia|]. exists t'. split; [by right|done].
  - exists t. split; [by left|done].
Qed.


Fixpoint run_labels (ls : list label) (c : Connection) : option Connection :=
  match ls with
  | [] => Some c
  | l :: ls => c' ← step l c; run_labels ls c'
  end.

Lemma run_labels_steps ls c c' : run_labels ls c = Some c' → rtc steps c c'.
Proof.
  revert c. induction ls as [|l ls IH]; intros c; cbn; [intros [= ->]; constructor|].
  intros (c1 & Hl & Hc)%bind_Some. eapply rtc_l; [by exists l|auto].
Qed.

(** A first dial fails, the loop succeeds and [OnOpen] publishes socket 0. *)
Definition demo_opened : Connection :=
  default newPoolConnection (run_labels
    [Run 0 true; Run 0 false; Run 0 true; Run 0 true; Run 0 true; Run 0 true] newPoolConnection).

Lemma demo_opened_reachable : rtc steps newPoolConnection demo_opened.
Proof.
  apply (run_labels_steps [Run 0 true; Run 0 false; Run 0 true; Run 0 true; Run 0 true; Run 0 true]).
  vm_compute. reflexivity.
Qed.


(** A [Close] between the compare-and-swap and the store of [OnOpen] finds no
    socket to close; [OnOpen] then publishes one.  All tasks end, the
    connection is closed, and its socket stays open. *)
Theorem close_can_leak_socket :
  ∃ c s, run_labels
    [Run 0 true; Run 0 true; Run 0 true;  (* dial, OnOpen's compare-and-swap *)
     CallClose; Run 1 true; Run 1 true;   (* Close, to its end *)
     Run 0 true; Run 0 true]              (* OnOpen stores the socket and notifies *)
    newPoolConnection = Some c ∧
    state c = ConnectionClosed ∧ tasks c = [] ∧ socket c = Some s ∧ s ∈ live c.
Proof.
  eexists _, 0. split; [vm_compute; reflexivity|]. split_and!; [done..|].
  vm_compute. reflexivity.
Qed.

(** The gateway's frames come back as the key and the bytes that were
    written, whatever the pooled buffer held. *)
Lemma Write_OnMessage socket buffer key data :
  length key = SessionKeySize → is_Some socket →
  ∃ frame, Write ConnectionActive socket buffer key data = Written frame ∧
    OnMessage true true frame = Some (key, data).
Proof.
  intros Hk [s ->]. unfold Write, write. rewrite decide_False by naive_solver. cbn -[fill].
  eexists. split; [done|]. rewrite fill_contents by done. cbn. rewrite app_nil_r. by apply OnMessage_frame.
Qed.

Lemma WritePacket_frame socket buffer key packet :
  length key = SessionKeySize → is_Some socket →
  WritePacket ConnectionActive socket buffer key packet = Written (key ++ Marshal packet).
Proof.
  intros Hk [s ->]. unfold WritePacket, write. rewrite decide_False by naive_solver. cbn -[fill].
  rewrite fill_contents by done. cbn. by rewrite app_nil_r.
Qed.
