(* ===== verification/Gateway.v ===== *)
(** * The gateway: sessions, machines and request handlers

    internal/gateway/session.go, machine.go, manager.go and handler.go over
    the connection pool ([GatewayPool]), the frames of a connection
    ([GatewayConn]) and the sharded map ([ShardedMap]).

    Sessions and machines are shared by pointer and live in heaps; the
    session table maps keys to sessions, the machine registry identifiers to
    machines.  What leaves the gateway is the list [g_wire].  HTTP, JSON and
    UUID parsing are arguments of the handlers that call them: the answer of
    the machine, the session identifier in it, the parsed key. *)

From S2P Require Import Prelude.
From S2P Require Import GoSlice.
From S2P Require Import Protocol.
From S2P Require Import ShardedMap.
From S2P Require Import GatewayPool.
From S2P Require Import GatewayConn.

Open Scope Z_scope.

(** ** Data *)
Inductive MachineState := MachineStateActive | MachineStateSuspended | MachineStateTerminated.
#[export] Instance MachineState_dec : EqDecision MachineState.
Proof. solve_decision. Defined.

Definition MachineState_String (m : MachineState) : string :=
  match m with
  | MachineStateActive => "active"
  | MachineStateSuspended => "suspended"
  | MachineStateTerminated => "terminated"
  end.

Inductive SessionState :=
| SessionIdle | SessionPending | SessionReady | SessionClosing | SessionClosed.
#[export] Instance SessionState_dec : EqDecision SessionState.
Proof. solve_decision. Defined.

Definition SessionState_String (s : SessionState) : string :=
  match s with
  | SessionIdle => "idle"
  | SessionPending => "pending"
  | SessionReady => "ready"
  | SessionClosing => "closing"
  | SessionClosed => "closed"
  end.

(** Instants and durations are nanoseconds. *)
Definition UnixMilli (t : Z) : Z := t `div` 10 ^ 6.

Definition SessionKey : Type := list Z.
Definition Pool : Type := GatewayPool.ConnectionPool (Key := SessionKey).

Record Machine := mkMachine {
  m_ID : string;
  m_Host : string;
  m_Port : Z;
  m_Pool : Pool;
  m_socket : option nat;
  m_state : MachineState;
  m_sessions : gset SessionKey;
  m_lastHeartbeat : Z;
}.

Record Session := mkSession {
  s_key : SessionKey;
  s_binding : option nat;
  s_machine : option nat;
  s_client : option nat;
  s_createdAt : Z;
  s_lastActiveAt : Z;
  s_state : SessionState;
  s_connectCount : Z;
}.

Inductive wire_event :=
| ToMachine (machine conn : nat) (frame : list Z)
| ToClient (socket : nat) (data : list Z)
| CloseClient (socket : nat)
| PongClient (socket : nat)
| PingMachine (socket : nat)
| DeleteOnMachine (machine : nat) (key : SessionKey).

Record Gateway := mkGateway {
  g_machines : gmap nat Machine;
  g_items : gmap string nat;
  g_sessions : gmap nat Session;
  g_shards : ShardedMap SessionKey nat;
  g_active : Z;                (* gatewaySessionMetrics *)
  g_clients : Z;               (* clientConnections *)
  g_wire : list wire_event;
}.

Definition on_machines f g := mkGateway (f (g_machines g)) (g_items g) (g_sessions g) (g_shards g)
  (g_active g) (g_clients g) (g_wire g).
Definition on_items f g := mkGateway (g_machines g) (f (g_items g)) (g_sessions g) (g_shards g)
  (g_active g) (g_clients g) (g_wire g).
Definition on_sessions f g := mkGateway (g_machines g) (g_items g) (f (g_sessions g)) (g_shards g)
  (g_active g) (g_clients g) (g_wire g).
Definition set_shards m g := mkGateway (g_machines g) (g_items g) (g_sessions g) m
  (g_active g) (g_clients g) (g_wire g).
Definition addActive d g := mkGateway (g_machines g) (g_items g) (g_sessions g) (g_shards g)
  (g_active g + d) (g_clients g) (g_wire g).
Definition addClients d g := mkGateway (g_machines g) (g_items g) (g_sessions g) (g_shards g)
  (g_active g) (g_clients g + d) (g_wire g).
Definition emit es g := mkGateway (g_machines g) (g_items g) (g_sessions g) (g_shards g)
  (g_active g) (g_clients g) (g_wire g ++ es).
Definition upd_machine (a : nat) f g := on_machines (alter f a) g.
Definition upd_session (a : nat) f g := on_sessions (alter f a) g.

(** ** Machines *)
Definition with_pool (p : Pool) (m : Machine) : Machine :=
  mkMachine (m_ID m) (m_Host m) (m_Port m) p (m_socket m) (m_state m) (m_sessions m) (m_lastHeartbeat m).
Definition with_mstate (st : MachineState) (m : Machine) : Machine :=
  mkMachine (m_ID m) (m_Host m) (m_Port m) (m_Pool m) (m_socket m) st (m_sessions m) (m_lastHeartbeat m).

Record ServerConfig := mkServerConfig {
  PoolMinConnections : Z; PoolTargetSessionsPerConnection : Z; PoolMaxSessionsPerConnection : Z;
  PoolMaxConnections : Z; PoolIdleTimeout : Z; PoolCleanupInterval : Z; SuspendTimeout : Z;
}.

(** [NewMachine]; creating the pool fails only without an engine. *)
Definition NewMachine (engine : bool) (cfg : ServerConfig) (id host : string) (port : Z) : option Machine :=
  if engine then
    Some (mkMachine id host port
      (NewConnectionPool (GatewayPool.mkConfig (PoolMinConnections cfg) (PoolTargetSessionsPerConnection cfg)
         (PoolMaxSessionsPerConnection cfg) (PoolMaxConnections cfg) (PoolIdleTimeout cfg)
         (PoolCleanupInterval cfg)))
      None MachineStateSuspended ∅ 0)
  else None.

Definition m_Sessions (m : Machine) : Z := int32 (Z.of_nat (size (m_sessions m))).

Definition AddSession (key : SessionKey) (m : Machine) : Machine :=
  mkMachine (m_ID m) (m_Host m) (m_Port m) (m_Pool m) (m_socket m) (m_state m)
    ({[key]} ∪ m_sessions m) (m_lastHeartbeat m).

Definition RemoveSession (key : SessionKey) (m : Machine) : Machine :=
  mkMachine (m_ID m) (m_Host m) (m_Port m) (m_Pool m) (m_socket m) (m_state m)
    (m_sessions m ∖ {[key]}) (m_lastHeartbeat m).

Definition m_OnPong (now : Z) (m : Machine) : Machine :=
  mkMachine (m_ID m) (m_Host m) (m_Port m) (m_Pool m) (m_socket m) (m_state m) (m_sessions m) (UnixMilli now).

Definition m_OnOpen (now : Z) (socket : nat) (m : Machine) : Machine :=
  mkMachine (m_ID m) (m_Host m) (m_Port m) (m_Pool m) (Some socket) MachineStateActive (m_sessions m)
    (UnixMilli now).

Definition m_OnClose (m : Machine) : Machine :=
  mkMachine (m_ID m) (m_Host m) (m_Port m) (m_Pool m) None MachineStateSuspended (m_sessions m)
    (m_lastHeartbeat m).

(** [Heartbeat]: the socket that is pinged, or [ErrMachineNotActive]. *)
Definition Heartbeat (m : Machine) : option nat :=
  if decide (m_state m = MachineStateActive) then m_socket m else None.

Record MachineSnapshot := mkMachineSnapshot {
  ms_ID : string; ms_Host : string; ms_Port : Z; ms_State : MachineState; ms_Sessions : Z;
  ms_LastHeartbeat : Z; ms_Pool : list ConnectionPoolSnapshot;
}.
Definition m_Snapshot (m : Machine) : MachineSnapshot :=
  mkMachineSnapshot (m_ID m) (m_Host m) (m_Port m) (m_state m) (m_Sessions m) (m_lastHeartbeat m)
    (Snapshots (m_Pool m)).

(** [ConnectionPool.Shutdown] to its end: the connections are closed last. *)
Definition pool_Shutdown (p : Pool) : Pool :=
  if closed p then p
  else
    let cs := GatewayPool.connections p in
    let p := Shutdown_locked (Shutdown_begin p) in
    set_conns p (set_fold (λ c m, <[c := ConnectionClosed]> m) (conns p) cs).

(** ** Sessions *)
Definition set_sstate (st : SessionState) (s : Session) : Session :=
  mkSession (s_key s) (s_binding s) (s_machine s) (s_client s) (s_createdAt s) (s_lastActiveAt s) st
    (s_connectCount s).
Definition set_client (c : option nat) (s : Session) : Session :=
  mkSession (s_key s) (s_binding s) (s_machine s) c (s_createdAt s) (s_lastActiveAt s) (s_state s)
    (s_connectCount s).
Definition touch (now : Z) (s : Session) : Session :=
  mkSession (s_key s) (s_binding s) (s_machine s) (s_client s) (s_createdAt s) (UnixMilli now) (s_state s)
    (s_connectCount s).
Definition count_connect (s : Session) : Session :=
  mkSession (s_key s) (s_binding s) (s_machine s) (s_client s) (s_createdAt s) (s_lastActiveAt s) (s_state s)
    (int32 (s_connectCount s + 1)).

Definition NewSession (now : Z) (key : SessionKey) (binding machine : option nat) : Session :=
  mkSession key binding machine None now (UnixMilli now) SessionIdle 0.

(** [Acquire]: the compare-and-swap that admits one client. *)
Definition Acquire (s : Session) : Session * bool :=
  if decide (s_state s = SessionIdle) then (set_sstate SessionPending s, true) else (s, false).

Definition Release (s : Session) : Session * bool :=
  if decide (s_state s ≠ SessionReady ∧ s_state s ≠ SessionPending) then (s, false)
  else (set_sstate SessionIdle s, true).

Section gateway.
(** The socket a connection has published and the pooled write buffer, both
    chosen by the environment at each write. *)
Context (published : nat → nat → option nat) (buffer : slice Z).
(** The order of the loop that assigns waiting sessions in the pool. *)
Context (o : iter_order SessionKey nat).
Implicit Types g : Gateway.

(** [Session.Connection] through the binding the pool keeps. *)
Definition s_Connection g (s : Session) : option (nat * nat) :=
  b ← s_binding s;
  a ← s_machine s;
  m ← g_machines g !! a;
  c ← mjoin (handles (m_Pool m) !! b);
  Some (a, c).

Definition conn_State g (ac : nat * nat) : ConnectionState :=
  match g_machines g !! ac.1 with
  | Some m => GatewayPool.State (m_Pool m) ac.2
  | None => ConnectionUnknown
  end.

Definition connectionState g (conn : option (nat * nat)) : ConnectionState :=
  match conn with
  | None => ConnectionClosed
  | Some ac => conn_State g ac
  end.

Definition send_frame (ac : nat * nat) (r : write_result) g : Gateway :=
  match r with
  | Written frame => emit [ToMachine ac.1 ac.2 frame] g
  | _ => g
  end.

(** A packet from the pool with only its type set. *)
Definition control_packet (t : Z) : Packet :=
  mkPacket t (Encode new_packet) (Protocol.Size new_packet) (Payload new_packet) (header new_packet).

Definition WritePacket_to g (ac : nat * nat) (key : SessionKey) (t : Z) : Gateway :=
  send_frame ac
    (WritePacket (conn_State g ac) (published ac.1 ac.2) buffer key (control_packet t)) g.

Definition notify_machine (a : nat) (t : Z) g : Gateway :=
  match g_sessions g !! a with
  | None => g
  | Some s => match s_Connection g s with
              | None => g
              | Some ac => WritePacket_to g ac (s_key s) t
              end
  end.

Definition close_client (s : Session) g : Gateway :=
  match s_client s with Some c => emit [CloseClient c] g | None => g end.

Definition s_Close (a : nat) g : Gateway :=
  match g_sessions g !! a with
  | None => g
  | Some s =>
      if decide (s_state s = SessionClosed) then g
      else notify_machine a TypeClose (close_client s (upd_session a (set_sstate SessionClosed) g))
  end.

Definition OnClientOpen (now : Z) (a socket : nat) g : Gateway :=
  match g_sessions g !! a with
  | None => g
  | Some s =>
      let count := int32 (s_connectCount s + 1) in
      let g := upd_session a (λ s, set_client (Some socket) (touch now (set_sstate SessionReady (count_connect s)))) g in
      let g := addClients 1 g in
      if decide (1 < count) then notify_machine a TypeResume g else g
  end.

Definition OnClientClose (a : nat) g : Gateway :=
  match g_sessions g !! a with
  | None => g
  | Some s =>
      let g := addClients (-1) (upd_session a (set_client None) g) in
      if decide (s_state s = SessionClosed) then g
      else notify_machine a TypePause (upd_session a (λ s, (Release s).1) g)
  end.

Definition OnClientPing (now : Z) (a socket : nat) g : Gateway :=
  emit [PongClient socket] (upd_session a (touch now) g).

(** The checks [OnClientMessage] makes on a message before forwarding it. *)
Definition client_frame_ok (binary : bool) (data : list Z) : bool :=
  binary && bool_decide (PacketHeaderSize ≤ length data)%nat
  && bool_decide (nthb data 0 = MagicNumber1 ∧ nthb data 1 = MagicNumber2)
  && bool_decide (Uint32 (nthb data 4) (nthb data 5) (nthb data 6) (nthb data 7)
                  = uint32 (Z.of_nat (length (drop PacketHeaderSize data)))).

Definition OnClientMessage (now : Z) (a : nat) (binary : bool) (data : list Z) g : Gateway :=
  if client_frame_ok binary data then
    match g_sessions g !! a with
    | None => g
    | Some s =>
        match s_machine s ≫= λ ma, g_machines g !! ma, s_Connection g s with
        | Some m, Some ac =>
            if decide (m_state m ≠ MachineStateActive ∨ conn_State g ac ≠ ConnectionActive) then g
            else send_frame ac
                   (Write (conn_State g ac) (published ac.1 ac.2) buffer (s_key s) data)
                   (upd_session a (touch now) g)
        | _, _ => g
        end
    end
  else g.

(** ** Session manager *)
Definition be64 (bs : list Z) : Z := foldl (λ z b, Z.lor (Z.shiftl z 8) b) 0 bs.

Definition session_hash (key : SessionKey) : Z :=
  Z.lxor (be64 (take 8 key)) (be64 (drop 8 key)).

Definition NewSessionManager : ShardedMap SessionKey nat :=
  NewShardedMap (λ key, key) 64 (Some session_hash).

Definition sm_Load g (key : SessionKey) : option nat := ShardedMap.Load (g_shards g) key.

Definition sm_Store (a : nat) g : Gateway :=
  match g_sessions g !! a with
  | None => g
  | Some s =>
      let added := bool_decide (sm_Load g (s_key s) = None) in
      let '(m, _) := Update (g_shards g) (s_key s) (λ _, Some a) in
      let g := set_shards m g in
      if added then addActive 1 g else g
  end.

(** [s.machine.Pool.Unbind(s.key)] and [s.machine.RemoveSession(s.key)]. *)
Definition unbind_machine (now : Z) (s : Session) g : Gateway :=
  match s_machine s with
  | None => g
  | Some ma =>
      upd_machine ma (λ m, RemoveSession (s_key s) (with_pool (Unbind o now (s_key s) (m_Pool m)) m)) g
  end.

Definition sm_Delete (now : Z) (key : SessionKey) g : Gateway :=
  let found := sm_Load g key in
  let '(m, removed) := Update (g_shards g) key (λ _, None) in
  if removed then
    match found ≫= λ a, (a,.) <$> g_sessions g !! a with
    | None => g (* a nil session: unreachable *)
    | Some (a, s) =>
        addActive (-1) (unbind_machine now s (s_Close a (set_shards m g)))
    end
  else g.

(** [cleanup]: the expired sessions are collected first. *)
Definition s_expired (threshold : Z) (s : Session) : bool :=
  (0 <? s_lastActiveAt s) && (s_lastActiveAt s <? threshold).

Definition collect_expired (threshold : Z) g (acc : list SessionKey) (key : SessionKey) (a : nat) :
    list SessionKey * bool :=
  (match g_sessions g !! a with
   | Some s => if s_expired threshold s then acc ++ [s_key s] else acc
   | None => acc
   end, true).

Definition sm_cleanup (ord : iter_order SessionKey nat) (now timeout : Z) g : Gateway :=
  let threshold := UnixMilli (now - timeout) in
  let expired := Range (λ _, g_shards g) ord (collect_expired threshold g) [] in
  foldl (λ g key, sm_Delete now key g) g expired.

Definition sm_Count (ord : iter_order SessionKey nat) g : Z :=
  Range (λ _ : Z, g_shards g) ord (λ n _ _, (n + 1, true)) 0.

(** [DispatchMessage], a frame from a machine. *)
Definition DispatchMessage (now : Z) (key : SessionKey) (data : list Z) g : Gateway :=
  match sm_Load g key ≫= λ a, (a,.) <$> g_sessions g !! a with
  | None => g
  | Some (a, s) =>
      match UnmarshalHeader new_packet data with
      | (_, Some _) => g
      | (packet, None) =>
          if decide (Type_ packet = TypeClose) then
            sm_Delete now key (close_client s (upd_session a (set_sstate SessionClosed) g))
          else
            match s_client s with
            | Some c => if decide (s_state s = SessionReady) then emit [ToClient c data] g else g
            | None => g
            end
      end
  end.

(** ** Machine manager *)

(** [RangeMachines]: what its callback is given, in the order of the map. *)
Definition machine_list (ord : iter_order string nat) g : list (nat * Machine) :=
  omap (λ '(_, a), (a,.) <$> g_machines g !! a) (range_map ord (g_items g)).

Definition LoadMachine g (id : string) : option nat := g_items g !! id.
Definition StoreMachine (id : string) (a : nat) g : Gateway := on_items (insert id a) g.
Definition DeleteMachine (id : string) g : Gateway := on_items (delete id) g.

Definition sendHeartbeats (ord : iter_order string nat) g : Gateway :=
  emit (omap (λ '(_, m), PingMachine <$> Heartbeat m) (machine_list ord g)) g.

Definition m_expired (threshold : Z) (m : Machine) : bool :=
  (0 <? m_lastHeartbeat m) && (m_lastHeartbeat m <? threshold).

(** One round of the second loop of [cleanupMachines]. *)
Definition terminate (now : Z) (id : string) g : Gateway :=
  match LoadMachine g id with
  | None => g
  | Some a =>
      let g := upd_machine a (with_mstate MachineStateTerminated) g in
      let sessionKeys := match g_machines g !! a with Some m => elements (m_sessions m) | None => [] end in
      let g := foldl (λ g key, sm_Delete now key g) g sessionKeys in
      let g := upd_machine a (λ m, with_pool (pool_Shutdown (m_Pool m)) m) g in
      DeleteMachine id g
  end.

Definition cleanupMachines (ord : iter_order string nat) (now timeout : Z) g : Gateway :=
  let threshold := UnixMilli (now - timeout) in
  let expired := (filter (λ '(id, a), m_expired threshold <$> g_machines g !! a = Some true)
                    (range_map ord (g_items g))).*1 in
  foldl (λ g id, terminate now id g) g expired.

Definition least_step (best : option nat * Z) (am : nat * Machine) : option nat * Z :=
  if decide (m_state am.2 ≠ MachineStateActive) then best
  else if decide (m_Sessions am.2 < best.2) then (Some am.1, m_Sessions am.2) else best.

Definition LeastSessions (ord : iter_order string nat) g : option nat :=
  (foldl least_step (None, 2 ^ 31 - 1) (machine_list ord g)).1.

Definition Random (ord : iter_order string nat) g : option nat :=
  fst <$> List.find (λ am, bool_decide (m_state am.2 = MachineStateActive)) (machine_list ord g).

Inductive gateway_error :=
| ErrMachineAlreadyActive | ErrMachineIDConflict | ErrEngine
| ErrNoActiveMachines | ErrMachineRequest | ErrInvalidResponse | ErrInvalidSessionID
| ErrDataLinkUnavailable | ErrBadSessionID | ErrSessionNotFound | ErrSessionConnected
| ErrUpgrade | ErrInvalidPort.

Definition checkMachine (m : Machine) (host : string) (port : Z) : result gateway_error unit :=
  if decide (m_state m ≠ MachineStateSuspended ∧ m_state m ≠ MachineStateActive)
  then Err ErrMachineAlreadyActive
  else if decide (m_Host m ≠ host ∨ m_Port m ≠ port) then Err ErrMachineIDConflict
  else Ok tt.

(** [AcquireMachine]: the registered machine, or a new one; the two lookups
    are one here, the second being there for the race with a concurrent
    registration, which also ends in one of these two outcomes. *)
Definition AcquireMachine (engine : bool) (cfg : ServerConfig) (id host : string) (port : Z) g :
    result gateway_error (Gateway * nat) :=
  match g_items g !! id ≫= λ a, (a,.) <$> g_machines g !! a with
  | Some (a, m) => let? _ := checkMachine m host port in Ok (g, a)
  | None =>
      match NewMachine engine cfg id host port with
      | None => Err ErrEngine
      | Some m =>
          let a := fresh (dom (g_machines g)) in
          Ok (on_items (insert id a) (on_machines (insert a m) g), a)
      end
  end.

(** ** Handlers *)

(** The answer of a machine to a proxied request: its status and, for a
    creation, the [session_id] of a body that decodes. *)
Record answer := mkAnswer { StatusCode : Z; session_id : option string }.
Definition StatusOK : Z := 200.

Record StateResponse := mkStateResponse {
  Machines : Z; ActiveMachines : Z; ClientConnections : Z; Sessions : Z;
  MachineStates : list MachineSnapshot;
}.

Definition HandleState (ord : iter_order string nat) (sord : iter_order SessionKey nat) g : StateResponse :=
  let ms := (machine_list ord g).*2 in
  mkStateResponse (Z.of_nat (length ms))
    (Z.of_nat (length (filter (λ m, m_state m = MachineStateActive) ms)))
    (g_clients g) (sm_Count sord g) (m_Snapshot <$> ms).

Definition ProxyToAny (ord : iter_order string nat) g : result gateway_error nat :=
  match Random ord g with Some a => Ok a | None => Err ErrNoActiveMachines end.

(** [HandleSessionCreate] after the machine answered: the three accesses to
    shared state, in order. *)
Definition create_bind (a : nat) (key : SessionKey) g : Gateway * option nat * bool :=
  match g_machines g !! a with
  | None => (g, None, false)
  | Some m =>
      let '(p, b, ok) := TryBind key (m_Pool m) in
      (upd_machine a (with_pool p) g, b, ok)
  end.

Definition create_store (now : Z) (a : nat) (key : SessionKey) (b : option nat) g : Gateway :=
  let sa := fresh (dom (g_sessions g)) in
  sm_Store sa (on_sessions (insert sa (NewSession now key b (Some a))) g).

Definition create_add (a : nat) (key : SessionKey) g : Gateway := upd_machine a (AddSession key) g.

Definition HandleSessionCreate (ord : iter_order string nat) (ParseSessionKey : string → option SessionKey)
    (now : Z) (request : nat → option answer) g : Gateway * result gateway_error Z :=
  match LeastSessions ord g with
  | None => (g, Err ErrNoActiveMachines)
  | Some a =>
      match request a with
      | None => (g, Err ErrMachineRequest)
      | Some resp =>
          if decide (StatusCode resp ≠ StatusOK) then (g, Ok (StatusCode resp))
          else
            match session_id resp with
            | None => (g, Err ErrInvalidResponse)
            | Some sid =>
                match ParseSessionKey sid with
                | None => (g, Err ErrInvalidSessionID)
                | Some key =>
                    let '(g, b, ok) := create_bind a key g in
                    if ok then (create_add a key (create_store now a key b g), Ok (StatusCode resp))
                    else (emit [DeleteOnMachine a key] g, Err ErrDataLinkUnavailable)
                end
            end
      end
  end.

Definition getSessionFromRequest (parsed : option SessionKey) g : result gateway_error nat :=
  match parsed with
  | None => Err ErrBadSessionID
  | Some key => match sm_Load g key with Some a => Ok a | None => Err ErrSessionNotFound end
  end.

(** [proxySessionLogic]: the effect runs only when the machine says 200. *)
Definition proxySessionLogic (resp : option answer) (onSuccess : Gateway → Gateway) g :
    Gateway * result gateway_error Z :=
  match resp with
  | None => (g, Err ErrMachineRequest)
  | Some r => (if decide (StatusCode r = StatusOK) then onSuccess g else g, Ok (StatusCode r))
  end.

Definition HandleSessionRenew (now : Z) (parsed : option SessionKey) (resp : option answer) g :
    Gateway * result gateway_error Z :=
  match getSessionFromRequest parsed g with
  | Err e => (g, Err e)
  | Ok a => proxySessionLogic resp (upd_session a (touch now)) g
  end.

Definition HandleSessionDelete (now : Z) (parsed : option SessionKey) (resp : option answer) g :
    Gateway * result gateway_error Z :=
  match getSessionFromRequest parsed g with
  | Err e => (g, Err e)
  | Ok a => proxySessionLogic resp
              (λ g, match g_sessions g !! a with Some s => sm_Delete now (s_key s) g | None => g end) g
  end.

Definition defaultMachinePort : Z := 7001.

(** [HandleRegister] up to the upgrade of the control socket, whose
    [OnOpen] is [m_OnOpen]; identifier and host default as in the query, an
    unparsable port is an error. *)
Definition HandleRegister (engine upgraded : bool) (cfg : ServerConfig) (now : Z) (socket : nat)
    (id host new_id client_ip : string) (port : option (option Z)) g : Gateway * result gateway_error nat :=
  let id := if decide (id = ""%string) then new_id else id in
  let host := if decide (host = ""%string) then client_ip else host in
  match port with
  | Some None => (g, Err ErrInvalidPort)
  | _ =>
      match AcquireMachine engine cfg id host (default defaultMachinePort (mjoin port)) g with
      | Err e => (g, Err e)
      | Ok (g, a) =>
          if upgraded then (upd_machine a (m_OnOpen now socket) g, Ok a) else (g, Err ErrUpgrade)
      end
  end.

(** [HandleRealtime]: a client is admitted once; a failed upgrade gives the
    session back.  [OnClientOpen] follows a successful upgrade. *)
Definition HandleRealtime (upgraded : bool) (parsed : option SessionKey) g :
    Gateway * result gateway_error nat :=
  match getSessionFromRequest parsed g with
  | Err e => (g, Err e)
  | Ok a =>
      match g_sessions g !! a with
      | None => (g, Err ErrSessionNotFound)
      | Some s =>
          if (Acquire s).2 then
            let g := upd_session a (λ s, (Acquire s).1) g in
            if upgraded then (g, Ok a)
            else (upd_session a (λ s, (Release s).1) g, Err ErrUpgrade)
          else (g, Err ErrSessionConnected)
      end
  end.
End gateway.
