(* ===== verification/GatewayWorld.v ===== *)
(** * The gateway as a whole

    Requests, callbacks and background loops of the gateway act on the same
    tables.  A [world] is the gateway with what is under way in it: session
    creations between their steps (the pool is bound first, the session
    stored next, the machine's list extended last), and the clients that are
    admitted or connected.  Every other method runs as one step.  The
    invariant [world_ok] ties the session table, the counters, the machines'
    session lists and the bindings of the pools together. *)

From S2P Require Import Prelude.
From S2P Require Import GoSlice.
From S2P Require Import Protocol.
From S2P Require Import ShardedMap.
From S2P Require Import GatewayPool.
From S2P Require Import GatewayConn.
From S2P Require Import Gateway.

Open Scope Z_scope.

(** ** What the gateway uses of a pool *)
Definition keeps (p p' : Pool) : Prop := bindings p' = bindings p ∧ closed p' = closed p.

#[local] Instance keeps_refl : Reflexive keeps.
Proof. done. Qed.
#[local] Instance keeps_trans : Transitive keeps.
Proof. intros p q r [H1 H2] [H3 H4]. split; congruence. Qed.

Lemma keeps_attach k b c p : keeps p (attachLocked k b c p).
Proof. done. Qed.

Lemma keeps_assign_loop bs p : keeps p (assign_loop bs p).
Proof.
  revert p. induction bs as [|[k b] bs IH]; intros p; cbn; [done|].
  destruct (routes p !! k); [apply IH|]. destruct (selectLocked p); [|done].
  etrans; [|apply IH]. apply keeps_attach.
Qed.

Lemma keeps_reserveDial p : keeps p (reserveDialLocked p).2.
Proof. unfold reserveDialLocked. by case_decide. Qed.

Lemma keeps_reserveScale p : keeps p (reserveScaleLocked p).2.
Proof.
  unfold reserveScaleLocked. case_decide; [done|]. destruct (selectLocked p); [|done].
  case_decide; [done|apply keeps_reserveDial].
Qed.

Lemma keeps_remove c p : keeps p (removeLocked c p).
Proof.
  unfold removeLocked. case_decide; [done|]. cbv zeta.
  match goal with |- keeps _ (upd_item _ _ ?q) => trans q; [|done] end.
  match goal with |- keeps _ (foldr _ ?q ?l) => trans q; [done|]; generalize l; intros ks; generalize q; intros q0 end.
  induction ks as [|k ks IH]; cbn; [done|]. etrans; [apply IH|]. unfold drop_route. by case_decide.
Qed.

(** The steps a pool takes on its own. *)
Inductive background : Pool → Pool → Prop :=
| bg_dial_failed p : (0 < dialing p)%nat → background p (startDial_failed p)
| bg_dial o p : (0 < dialing p)%nat → background p (startDial o p)
| bg_conn c s p : conn_change (State p c) s → background p (set_conns p (<[c := s]> (conns p)))
| bg_sync o c p : background p (syncConnectionState o c p)
| bg_cleanup now cs p : background p (cleanupIdle now cs p).

Lemma background_step p p' : background p p' → pool_step p p'.
Proof. destruct 1; by constructor. Qed.

Lemma background_keeps p p' : background p p' → keeps p p'.
Proof.
  destruct 1 as [p _|o p _|c s p _|o c p|now cs p]; [done| |done| |].
  - unfold startDial. cbv zeta. cbn [closed set_pending].
    destruct (closed p) eqn:Hc; [by split|]. etrans; [|apply keeps_assign_loop]. split; [done|by cbn].
  - unfold syncConnectionState. case_decide; [done|]. cbv zeta.
    assert (∀ q, keeps p q → keeps p
      (if decide (State p c = ConnectionClosed) then assignPendingLocked o (removeLocked c q) else refreshLocked c q)) as Hq.
    { intros q Hq. case_decide; [|by trans q].
      etrans; [exact Hq|]. etrans; [apply keeps_remove|]. apply keeps_assign_loop. }
    apply Hq. destruct (decide (GatewayPool.state (item p c) ≠ State p c)); by split.
  - unfold cleanupIdle. revert p. induction cs as [|c cs IH]; intros p; cbn; [done|].
    etrans; [|apply IH]. case_decide; [apply keeps_remove|done].
Qed.

Lemma Unbind_keeps o now k (p : Pool) :
  bindings (Unbind o now k p) = delete k (bindings p) ∧ closed (Unbind o now k p) = closed p.
Proof.
  unfold Unbind. cbv zeta. cbn [routes set_bindings].
  destruct (routes p !! k) as [c|]; [|done].
  match goal with |- bindings (assignPendingLocked _ ?q) = _ ∧ _ =>
    destruct (keeps_assign_loop (range_map o (bindings q)) q) as [E1 E2] end.
  unfold assignPendingLocked. rewrite E1, E2. split; repeat case_decide; done.
Qed.

Lemma TryBind_keeps k (p : Pool) :
  closed (TryBind k p).1.1 = closed p ∧
  (∀ k', k' ≠ k → bindings (TryBind k p).1.1 !! k' = bindings p !! k') ∧
  ((TryBind k p).2 = true → is_Some (TryBind k p).1.2 ∧ bindings (TryBind k p).1.1 !! k = (TryBind k p).1.2) ∧
  ((TryBind k p).2 = false → bindings (TryBind k p).1.1 = bindings p).
Proof.
  unfold TryBind. destruct (bindings p !! k) as [b|] eqn:Hk.
  { cbn. by split_and!. }
  destruct (selectLocked p) as [c|]; cbn.
  - case_decide; cbn; [done|].
    match goal with |- context [reserveScaleLocked ?q] => destruct (keeps_reserveScale q) as [E1 E2] end.
    rewrite E1, E2. cbn. split_and!; try done.
    + intros k' Hne. by rewrite lookup_insert_ne.
    + intros _. by rewrite lookup_insert_eq.
  - destruct (keeps_reserveDial p) as [E1 E2]. rewrite E1, E2. by split_and!.
Qed.

Lemma Shutdown_closed p : closed (pool_Shutdown p) = true.
Proof.
  unfold pool_Shutdown. destruct (closed p) eqn:Hc; [done|]. cbn.
  induction (elements (connections p)) as [|c cs IH]; [done|exact IH].
Qed.

Lemma Shutdown_bindings p k : is_Some (bindings (pool_Shutdown p) !! k) → is_Some (bindings p !! k).
Proof.
  unfold pool_Shutdown. destruct (closed p) eqn:Hc; [done|]. cbn. rewrite lookup_empty. by intros [? ?].
Qed.

Lemma pool_Shutdown_ok p : pool_ok p → pool_ok (pool_Shutdown p).
Proof.
  intros Hok. unfold pool_Shutdown. destruct (closed p) eqn:Hc; [done|].
  assert (pool_ok (Shutdown_locked (Shutdown_begin p))) as Hok1.
  { apply Shutdown_ok, (step_pool_ok p); [done|constructor]. }
  revert Hok1. set (q := Shutdown_locked (Shutdown_begin p)). cbv zeta. intros Hok1.
  assert (GatewayPool.connections q = ∅) as Hcs by done.
  clearbody q. generalize (conns q) at 1. intros m.
  assert (∀ cs, pool_ok (set_conns q cs)) as H; [|apply H].
  intros cs. destruct Hok1 as (Hb & Hq & Hw). split; [|split; [by destruct Hq|done]].
  destruct Hb. split; try done; cbn; rewrite Hcs; set_solver.
Qed.

(** ** Worlds *)
Record world := mkWorld {
  w_g : Gateway;
  w_used : gset SessionKey;                     (* keys handed out so far *)
  w_store : gmap SessionKey (nat * option nat); (* bound, not yet stored *)
  w_add : gmap SessionKey nat;                  (* stored, not yet listed *)
  w_admitted : gset nat;                        (* upgraded, [OnClientOpen] to come *)
  w_connected : gmap nat nat;                   (* sockets between open and close *)
}.

Definition new_gateway : Gateway := mkGateway ∅ ∅ ∅ NewSessionManager 0 0 [].
Definition new_world : world := mkWorld new_gateway ∅ ∅ ∅ ∅ ∅.

Definition set_g (g : Gateway) (w : world) : world :=
  mkWorld g (w_used w) (w_store w) (w_add w) (w_admitted w) (w_connected w).

(** One step.  Session identifiers are fresh UUIDs of the machines; a client
    is opened once after it was admitted and closed once after that. *)
Inductive w_step : world → world → Prop :=
| ws_register w engine up cfg now socket id host new_id ip port :
    w_step w (set_g (HandleRegister engine up cfg now socket id host new_id ip port (w_g w)).1 w)
| ws_machine_close w a : w_step w (set_g (upd_machine a m_OnClose (w_g w)) w)
| ws_pong w a now : w_step w (set_g (upd_machine a (m_OnPong now) (w_g w)) w)
| ws_heartbeats w ord : w_step w (set_g (sendHeartbeats ord (w_g w)) w)
| ws_pool w a f :
    (∀ m, g_machines (w_g w) !! a = Some m → background (m_Pool m) (f (m_Pool m))) →
    w_step w (set_g (upd_machine a (λ m, with_pool (f (m_Pool m)) m) (w_g w)) w)
| ws_bind w a key g b ok :
    key ∉ w_used w → is_Some (g_machines (w_g w) !! a) →
    create_bind a key (w_g w) = (g, b, ok) →
    w_step w (mkWorld g ({[key]} ∪ w_used w)
      (if ok then <[key := (a, b)]> (w_store w) else w_store w) (w_add w) (w_admitted w) (w_connected w))
| ws_store w a key b now :
    w_store w !! key = Some (a, b) →
    w_step w (mkWorld (create_store now a key b (w_g w)) (w_used w) (delete key (w_store w))
      (<[key := a]> (w_add w)) (w_admitted w) (w_connected w))
| ws_add w a key :
    w_add w !! key = Some a →
    w_step w (mkWorld (create_add a key (w_g w)) (w_used w) (w_store w) (delete key (w_add w))
      (w_admitted w) (w_connected w))
| ws_renew w now parsed resp : w_step w (set_g (HandleSessionRenew now parsed resp (w_g w)).1 w)
| ws_delete w published buffer o now parsed resp :
    w_step w (set_g (HandleSessionDelete published buffer o now parsed resp (w_g w)).1 w)
| ws_cleanup w published buffer o ord now timeout :
    w_step w (set_g (sm_cleanup published buffer o ord now timeout (w_g w)) w)
| ws_machines w published buffer o ord now timeout :
    w_step w (set_g (cleanupMachines published buffer o ord now timeout (w_g w)) w)
| ws_dispatch w published buffer o now key data :
    w_step w (set_g (DispatchMessage published buffer o now key data (w_g w)) w)
| ws_realtime w up parsed g r :
    HandleRealtime up parsed (w_g w) = (g, r) →
    w_step w (mkWorld g (w_used w) (w_store w) (w_add w)
      (match r with Ok a => {[a]} ∪ w_admitted w | Err _ => w_admitted w end) (w_connected w))
| ws_client_open w published buffer now a socket :
    a ∈ w_admitted w →
    w_step w (mkWorld (OnClientOpen published buffer now a socket (w_g w)) (w_used w) (w_store w) (w_add w)
      (w_admitted w ∖ {[a]}) (<[a := socket]> (w_connected w)))
| ws_client_close w published buffer a socket :
    w_connected w !! a = Some socket →
    w_step w (mkWorld (OnClientClose published buffer a (w_g w)) (w_used w) (w_store w) (w_add w)
      (w_admitted w) (delete a (w_connected w)))
| ws_client_ping w now a socket : w_step w (set_g (OnClientPing now a socket (w_g w)) w)
| ws_client_message w published buffer now a binary data :
    w_step w (set_g (OnClientMessage published buffer now a binary data (w_g w)) w).

(** ** The invariant *)
Definition bound (k : SessionKey) (b : option nat) (m : Machine) : Prop :=
  closed (m_Pool m) = true ∨ (is_Some b ∧ bindings (m_Pool m) !! k = b).

(** A stored session: its key, its machine, its binding, and the machine's list. *)
Definition stored_ok w (k : SessionKey) (a : nat) : Prop :=
  ∃ s ma m, g_sessions (w_g w) !! a = Some s ∧ s_key s = k ∧ s_machine s = Some ma ∧
    g_machines (w_g w) !! ma = Some m ∧ bound k (s_binding s) m ∧
    (w_add w !! k = Some ma ∨ k ∈ m_sessions m).

Record tables_ok w : Prop := {
  t_wf : ShardedMap.wf (g_shards (w_g w));
  t_active : g_active (w_g w) = Z.of_nat (size (abs (g_shards (w_g w))));
  t_stored k a : sm_Load (w_g w) k = Some a → stored_ok w k a ∧ k ∈ w_used w ∧ w_store w !! k = None;
  t_pending k a b : w_store w !! k = Some (a, b) →
    k ∈ w_used w ∧ ∃ m, g_machines (w_g w) !! a = Some m ∧ bound k b m;
  t_adding k a : w_add w !! k = Some a → k ∈ w_used w ∧ w_store w !! k = None;
  t_pools a m : g_machines (w_g w) !! a = Some m →
    pool_ok (m_Pool m) ∧ ∀ k, is_Some (bindings (m_Pool m) !! k) → k ∈ w_used w;
}.

Record clients_ok w : Prop := {
  c_count : g_clients (w_g w) = Z.of_nat (size (w_connected w));
  c_client a s : g_sessions (w_g w) !! a = Some s →
    s_client s = w_connected w !! a ∧
    (s_state s = SessionIdle → (a ∉ w_admitted w) ∧ w_connected w !! a = None);
  c_known a : (a ∈ w_admitted w) ∨ is_Some (w_connected w !! a) → is_Some (g_sessions (w_g w) !! a);
  c_once a : a ∈ w_admitted w → w_connected w !! a = None;
}.

Definition world_ok w : Prop := tables_ok w ∧ clients_ok w.

(** ** Changes that matter to neither *)

(** Sessions with other times, counts or states, but no session set idle. *)
Definition s_le (s s' : Session) : Prop :=
  s_key s' = s_key s ∧ s_binding s' = s_binding s ∧ s_machine s' = s_machine s ∧
  s_client s' = s_client s ∧ (s_state s' = SessionIdle → s_state s = SessionIdle).

(** Machines with another state, socket or heartbeat, or whose pool made a
    background step. *)
Definition m_le (m m' : Machine) : Prop :=
  m_sessions m' = m_sessions m ∧ keeps (m_Pool m) (m_Pool m') ∧ (pool_ok (m_Pool m) → pool_ok (m_Pool m')).

Definition heap_le {A} (R : A → A → Prop) (h h' : gmap nat A) : Prop :=
  (∀ a x', h' !! a = Some x' → ∃ x, h !! a = Some x ∧ R x x') ∧
  (∀ a x, h !! a = Some x → ∃ x', h' !! a = Some x' ∧ R x x').

Record g_le (g g' : Gateway) : Prop := {
  le_shards : g_shards g' = g_shards g;
  le_active : g_active g' = g_active g;
  le_clients : g_clients g' = g_clients g;
  le_machines : heap_le m_le (g_machines g) (g_machines g');
  le_sessions : heap_le s_le (g_sessions g) (g_sessions g');
}.

#[local] Instance s_le_refl : Reflexive s_le.
Proof. done. Qed.
#[local] Instance m_le_refl : Reflexive m_le.
Proof. done. Qed.

Lemma heap_le_refl {A} (R : A → A → Prop) h : Reflexive R → heap_le R h h.
Proof. intros HR. split; eauto. Qed.

Lemma heap_le_alter {A} (R : A → A → Prop) f a h :
  Reflexive R → (∀ x, h !! a = Some x → R x (f x)) → heap_le R h (alter f a h).
Proof.
  intros HR Hf. split; intros a' x; (destruct (decide (a' = a)) as [->|]; [rewrite lookup_alter_eq|rewrite lookup_alter_ne by done]).
  - intros (x0 & H0 & ->)%fmap_Some. eauto.
  - eauto.
  - intros Hx. rewrite Hx. cbn. eauto.
  - eauto.
Qed.

Lemma g_le_tables w g' : g_le (w_g w) g' → tables_ok w → tables_ok (set_g g' w).
Proof.
  intros [Hs Ha _ [Hm1 Hm2] [Hs1 Hs2]] [T1 T2 T3 T4 T5 T6].
  assert (∀ k b m m', m_le m m' → bound k b m → bound k b m') as Hbound.
  { intros k b m m' (_ & [E1 E2] & _) [Hc|[? Hk]]; [left; congruence|right]. split; [done|]. congruence. }
  split; cbn; rewrite ?Hs, ?Ha; try done.
  - unfold sm_Load. cbn. rewrite Hs. intros k a Hk. destruct (T3 k a Hk) as [(s & ma & m & E1 & E2 & E3 & E4 & E5 & E6) ?].
    split; [|done]. destruct (Hs2 _ _ E1) as (s' & E1' & L1 & L2 & L3 & _).
    destruct (Hm2 _ _ E4) as (m' & E4' & Lm). exists s', ma, m'. cbn. split_and!; try congruence.
    + rewrite L2. eauto.
    + destruct Lm as (-> & _). done.
  - intros k a b Hk. destruct (T4 k a b Hk) as (? & m & Hm & Hb). split; [done|].
    destruct (Hm2 _ _ Hm) as (m' & ? & ?). eauto.
  - intros a m' Hm'. destruct (Hm1 _ _ Hm') as (m & Hm & _ & [E1 _] & Hok). destruct (T6 a m Hm).
    split; [auto|]. by rewrite E1.
Qed.

Lemma g_le_clients w g' : g_le (w_g w) g' → clients_ok w → clients_ok (set_g g' w).
Proof.
  intros [_ _ Hc _ [Hs1 Hs2]] [C1 C2 C3 C4]. split; cbn; rewrite ?Hc; try done.
  - intros a s' Hs'. destruct (Hs1 _ _ Hs') as (s & Hs & _ & _ & _ & E & Hi).
    destruct (C2 a s Hs) as [E1 E2]. split; [congruence|]. eauto.
  - intros a Ha. destruct (C3 a Ha) as [s Hs]. destruct (Hs2 _ _ Hs) as (s' & -> & _). done.
Qed.

Lemma g_le_ok w g' : g_le (w_g w) g' → world_ok w → world_ok (set_g g' w).
Proof. intros Hle [Ht Hc]. split; eauto using g_le_tables, g_le_clients. Qed.

#[local] Instance s_le_trans : Transitive s_le.
Proof. intros x y z (? & ? & ? & ? & L1) (? & ? & ? & ? & L2). split_and!; try congruence. auto. Qed.
#[local] Instance m_le_trans : Transitive m_le.
Proof. intros x y z (? & ? & L1) (? & ? & L2). split_and!; [congruence|by etrans|auto]. Qed.

Lemma heap_le_trans {A} (R : A → A → Prop) h1 h2 h3 :
  Transitive R → heap_le R h1 h2 → heap_le R h2 h3 → heap_le R h1 h3.
Proof.
  intros HR [A1 A2] [B1 B2]. split.
  - intros a x3 (x2 & (x1 & ? & ?)%A1 & ?)%B1. eauto.
  - intros a x1 (x2 & (x3 & ? & ?)%B2 & ?)%A2. eauto.
Qed.

#[local] Instance g_le_refl : Reflexive g_le.
Proof. intros g. split; try done; apply heap_le_refl; apply _. Qed.
#[local] Instance g_le_trans : Transitive g_le.
Proof.
  intros x y z [? ? ? ? ?] [? ? ? ? ?]. split; try congruence; eapply heap_le_trans; eauto; apply _.
Qed.

(** Only the wire differs. *)
Definition same_but_wire (g g' : Gateway) : Prop := ∃ es, g' = emit es g.

Lemma wire_le g g' : same_but_wire g g' → g_le g g'.
Proof. intros [es ->]. split; try done; apply heap_le_refl, _. Qed.

Lemma wire_refl g : same_but_wire g g.
Proof. exists []. unfold emit. rewrite app_nil_r. by destruct g. Qed.

Lemma notify_wire published buffer a t g : same_but_wire g (notify_machine published buffer a t g).
Proof.
  unfold notify_machine, WritePacket_to, send_frame.
  repeat case_match; eauto using wire_refl; by eexists.
Qed.

Lemma upd_session_le a f g : (∀ s, s_le s (f s)) → g_le g (upd_session a f g).
Proof.
  intros Hf. split; try done; cbn; [apply heap_le_refl, _|apply heap_le_alter; [apply _|auto]].
Qed.

Lemma upd_machine_le a f g :
  (∀ m, g_machines g !! a = Some m → m_le m (f m)) → g_le g (upd_machine a f g).
Proof.
  intros Hf. split; try done; cbn; [apply heap_le_alter; [apply _|auto]|apply heap_le_refl, _].
Qed.

Lemma s_Close_le published buffer a g : g_le g (s_Close published buffer a g).
Proof.
  unfold s_Close. destruct (g_sessions g !! a) as [s|]; [|done]. case_decide; [done|].
  etrans; [|apply wire_le, notify_wire]. etrans; [apply (upd_session_le a (set_sstate SessionClosed)); by intros|].
  apply wire_le. unfold close_client. destruct (s_client s); [by eexists|apply wire_refl].
Qed.

(** ** Deleting a session *)
Lemma sm_Load_abs g k : ShardedMap.wf (g_shards g) → sm_Load g k = abs (g_shards g) !! k.
Proof. intros. by rewrite abs_lookup. Qed.

Lemma Unbind_machine_pools o now w ma m k :
  tables_ok w → g_machines (w_g w) !! ma = Some m →
  pool_ok (Unbind o now k (m_Pool m)) ∧
  ∀ k', is_Some (bindings (Unbind o now k (m_Pool m)) !! k') → k' ∈ w_used w.
Proof.
  intros Ht Hm. destruct (t_pools w Ht ma m Hm) as [Hok Hk]. split; [by apply Unbind_ok|].
  intros k' [b Hb]. destruct (Unbind_keeps o now k (m_Pool m)) as [E _]. rewrite E in Hb.
  apply lookup_delete_Some in Hb as [_ Hb]. eauto.
Qed.

(** Forgetting a stored key: the table, the counter, the pool and the list. *)
Definition forget (o : iter_order SessionKey nat) (now : Z) (k : SessionKey) (ma : nat) (g : Gateway) : Gateway :=
  addActive (-1)
    (upd_machine ma (λ m, RemoveSession k (with_pool (Unbind o now k (m_Pool m)) m))
      (set_shards (ShardedMap.Delete (g_shards g) k) g)).

Lemma forget_tables o now k a ma s w :
  tables_ok w → sm_Load (w_g w) k = Some a → g_sessions (w_g w) !! a = Some s → s_machine s = Some ma →
  tables_ok (set_g (forget o now k ma (w_g w)) w).
Proof.
  intros Ht Hk Hs Hma. pose proof Ht as [T1 T2 T3 T4 T5 T6].
  assert (∀ k' b m, k' ≠ k → bound k' b m →
    bound k' b (RemoveSession k (with_pool (Unbind o now k (m_Pool m)) m))) as Hbound.
  { intros k' b m Hne. unfold bound. cbn. destruct (Unbind_keeps o now k (m_Pool m)) as [-> ->].
    by rewrite lookup_delete_ne. }
  assert (sm_Load (set_shards (ShardedMap.Delete (g_shards (w_g w)) k) (w_g w)) k = None) as Hnone.
  { rewrite sm_Load_abs by (by apply Delete_wf). cbn. by rewrite Delete_abs, lookup_delete_eq. }
  assert (∀ k', k' ≠ k → sm_Load (set_shards (ShardedMap.Delete (g_shards (w_g w)) k) (w_g w)) k'
    = sm_Load (w_g w) k') as Hother.
  { intros k' Hne. rewrite !sm_Load_abs by (cbn; auto using Delete_wf). cbn.
    by rewrite Delete_abs, lookup_delete_ne. }
  split; cbn.
  - by apply Delete_wf.
  - rewrite T2, Delete_abs by done. rewrite (map_size_delete_Some k (abs _)).
    + assert (0 < size (abs (g_shards (w_g w))))%nat; [|lia].
      apply Nat.neq_0_lt_0. rewrite map_size_non_empty_iff. intros He.
      rewrite sm_Load_abs, He in Hk by done. done.
    + rewrite <-sm_Load_abs by done. by eexists.
  - intros k' a' Hk'. change (sm_Load _ k') with (sm_Load (set_shards (ShardedMap.Delete (g_shards (w_g w)) k) (w_g w)) k') in Hk'.
    destruct (decide (k' = k)) as [->|Hne]; [congruence|]. rewrite Hother in Hk' by done.
    destruct (T3 k' a' Hk') as [(s' & ma' & m' & E1 & E2 & E3 & E4 & E5 & E6) ?]. split; [|done].
    destruct (decide (ma' = ma)) as [->|Hma'].
    + eexists s', ma, _. cbn. rewrite lookup_alter_eq, E4. cbn. split_and!; eauto.
      destruct E6 as [|E6]; [by left|right]. cbn. set_solver.
    + exists s', ma', m'. cbn. rewrite lookup_alter_ne by done. by split_and!.
  - intros k' a' b Hp. destruct (T4 k' a' b Hp) as (Hu & m' & Hm' & Hb). split; [done|].
    assert (k' ≠ k) as Hne.
    { intros ->. destruct (T3 k a Hk) as (_ & _ & Hn). congruence. }
    destruct (decide (a' = ma)) as [->|].
    + rewrite lookup_alter_eq, Hm'. cbn. eauto.
    + rewrite lookup_alter_ne by done. eauto.
  - done.
  - intros a' m'. destruct (decide (a' = ma)) as [->|].
    + rewrite lookup_alter_eq. intros (m & Hm & ->)%fmap_Some. cbn. by eapply Unbind_machine_pools.
    + rewrite lookup_alter_ne by done. apply T6.
Qed.

Lemma notify_shards published buffer a t m g :
  notify_machine published buffer a t (set_shards m g) = set_shards m (notify_machine published buffer a t g).
Proof.
  unfold notify_machine, WritePacket_to, send_frame, s_Connection, conn_State. cbn.
  repeat case_match; done.
Qed.

Lemma s_Close_shards published buffer a m g :
  s_Close published buffer a (set_shards m g) = set_shards m (s_Close published buffer a g).
Proof.
  unfold s_Close. cbn. destruct (g_sessions g !! a) as [s|]; [|done]. case_decide; [done|].
  rewrite <-notify_shards. unfold close_client. by destruct (s_client s).
Qed.

(** [Delete] closes the session and forgets its key. *)
Lemma sm_Delete_eq published buffer o now k g a s ma :
  sm_Load g k = Some a → g_sessions g !! a = Some s → s_machine s = Some ma → s_key s = k →
  sm_Delete published buffer o now k g = forget o now k ma (s_Close published buffer a g).
Proof.
  intros Hk Hs Hma Hkey. unfold sm_Delete. rewrite Update_spec. fold (sm_Load g k). rewrite Hk.
  rewrite bool_decide_true by done. cbn [fst snd]. cbn. rewrite Hs. cbn.
  rewrite s_Close_shards. unfold unbind_machine, forget. rewrite Hma, Hkey.
  by rewrite (le_shards _ _ (s_Close_le published buffer a g)).
Qed.

Lemma sm_Delete_none published buffer o now k g :
  sm_Load g k = None → sm_Delete published buffer o now k g = g.
Proof.
  intros Hk. unfold sm_Delete. rewrite Update_spec. fold (sm_Load g k). rewrite Hk.
  by rewrite bool_decide_false by (by intros [? ?]).
Qed.

Lemma sm_Delete_cases published buffer o now k w :
  tables_ok w →
  sm_Load (w_g w) k = None ∧ sm_Delete published buffer o now k (w_g w) = w_g w ∨
  ∃ a s ma g1, sm_Load (w_g w) k = Some a ∧ g_sessions (w_g w) !! a = Some s ∧ s_machine s = Some ma ∧
    g_le (w_g w) g1 ∧ g1 = s_Close published buffer a (w_g w) ∧
    sm_Delete published buffer o now k (w_g w) = forget o now k ma g1.
Proof.
  intros Ht. destruct (sm_Load (w_g w) k) as [a|] eqn:Hk; [right|left; split; [done|by apply sm_Delete_none]].
  destruct (t_stored w Ht k a Hk) as [(s & ma & m & E1 & E2 & E3 & _) _].
  exists a, s, ma, (s_Close published buffer a (w_g w)). split_and!; try done.
  - apply s_Close_le.
  - by eapply sm_Delete_eq.
Qed.

Lemma sm_Delete_ok published buffer o now k w :
  world_ok w → world_ok (set_g (sm_Delete published buffer o now k (w_g w)) w).
Proof.
  intros [Ht Hc]. destruct (sm_Delete_cases published buffer o now k w Ht)
    as [[_ ->]|(a & s & ma & g1 & Hk & Hs & Hma & Hle & _ & ->)]; [by destruct w|].
  destruct (g_le_ok w g1 Hle (conj Ht Hc)) as [Ht1 Hc1].
  destruct (proj2 (le_sessions _ _ Hle) a s Hs) as (s1 & Hs1 & _ & _ & E & _). split.
  - apply (forget_tables o now k a ma s1 (set_g g1 w)); cbn; [done| |done|congruence].
    unfold sm_Load. by rewrite (le_shards _ _ Hle).
  - by destruct Hc1.
Qed.

(** ** The other steps *)
Lemma deletes_ok published buffer o now ks w :
  world_ok w → world_ok (set_g (foldl (λ g k, sm_Delete published buffer o now k g) (w_g w) ks) w).
Proof.
  revert w. induction ks as [|k ks IH]; intros w Hw; cbn; [by destruct w|].
  apply (IH (set_g (sm_Delete published buffer o now k (w_g w)) w)). by apply sm_Delete_ok.
Qed.

Lemma upd_machine_tables a f w :
  tables_ok w →
  (∀ m, g_machines (w_g w) !! a = Some m →
     m_sessions m ⊆ m_sessions (f m) ∧ (∀ k b, bound k b m → bound k b (f m)) ∧
     pool_ok (m_Pool (f m)) ∧ ∀ k, is_Some (bindings (m_Pool (f m)) !! k) → k ∈ w_used w) →
  tables_ok (set_g (upd_machine a f (w_g w)) w).
Proof.
  intros [T1 T2 T3 T4 T5 T6] Hf. split; cbn; try done.
  - intros k a' Hk. destruct (T3 k a' Hk) as [(s & ma & m & E1 & E2 & E3 & E4 & E5 & E6) ?]. split; [|done].
    destruct (decide (ma = a)) as [->|].
    + destruct (Hf m E4) as (F1 & F2 & _). eexists s, a, _. cbn. rewrite lookup_alter_eq, E4.
      split_and!; eauto. destruct E6; [by left|right; set_solver].
    + exists s, ma, m. cbn. rewrite lookup_alter_ne by done. by split_and!.
  - intros k a' b Hp. destruct (T4 k a' b Hp) as (Hu & m & Hm & Hb). split; [done|].
    destruct (decide (a' = a)) as [->|]; [|rewrite lookup_alter_ne by done; eauto].
    destruct (Hf m Hm) as (_ & F2 & _). rewrite lookup_alter_eq, Hm. cbn. eauto.
  - intros a' m'. destruct (decide (a' = a)) as [->|]; [|rewrite lookup_alter_ne by done; eauto].
    rewrite lookup_alter_eq. intros (m & Hm & ->)%fmap_Some. by apply (Hf m Hm).
Qed.

Lemma upd_machine_clients a f w : clients_ok w → clients_ok (set_g (upd_machine a f (w_g w)) w).
Proof. by intros []. Qed.

Lemma terminate_ok published buffer o now id w :
  world_ok w → world_ok (set_g (terminate published buffer o now id (w_g w)) w).
Proof.
  intros Hw. unfold terminate. destruct (LoadMachine (w_g w) id) as [a|]; [|by destruct w].
  set (g1 := upd_machine a (with_mstate MachineStateTerminated) (w_g w)).
  assert (world_ok (set_g g1 w)) as Hw1.
  { apply g_le_ok; [|done]. apply upd_machine_le. by intros. }
  set (ks := match g_machines g1 !! a with Some m => elements (m_sessions m) | None => [] end).
  pose proof (deletes_ok published buffer o now ks (set_g g1 w) Hw1) as Hw2. cbn in Hw2.
  set (g2 := foldl _ g1 ks) in *.
  assert (world_ok (set_g (upd_machine a (λ m, with_pool (pool_Shutdown (m_Pool m)) m) g2) w)) as [Ht3 Hc3].
  { destruct Hw2 as [Ht2 Hc2]. split; [|by apply (upd_machine_clients a _ (set_g g2 w))].
    apply (upd_machine_tables a _ (set_g g2 w) Ht2). intros m Hm. cbn in Hm |- *.
    destruct (t_pools _ Ht2 a m Hm) as [Hok Hu]. split; [done|]. split; [left; apply Shutdown_closed|].
    split; [by apply pool_Shutdown_ok|]. intros k Hk. by apply Hu, Shutdown_bindings. }
  split; [by destruct Ht3|by destruct Hc3].
Qed.

Lemma terminates_ok published buffer o now ids w :
  world_ok w → world_ok (set_g (foldl (λ g id, terminate published buffer o now id g) (w_g w) ids) w).
Proof.
  revert w. induction ids as [|id ids IH]; intros w Hw; cbn; [by destruct w|].
  apply (IH (set_g (terminate published buffer o now id (w_g w)) w)). by apply terminate_ok.
Qed.

(** *** Registration *)
Lemma new_machine_ok engine cfg id host port m :
  NewMachine engine cfg id host port = Some m → pool_ok (m_Pool m) ∧ bindings (m_Pool m) = ∅.
Proof. unfold NewMachine. destruct engine; [|done]. intros [= <-]. split; [apply new_pool_ok|done]. Qed.

Lemma add_machine_ok a m w :
  world_ok w → g_machines (w_g w) !! a = None → pool_ok (m_Pool m) → bindings (m_Pool m) = ∅ →
  world_ok (set_g (on_machines (insert a m) (w_g w)) w).
Proof.
  intros [[T1 T2 T3 T4 T5 T6] Hc] Ha Hok Hb. split; [|by destruct Hc].
  assert (∀ a' m', g_machines (w_g w) !! a' = Some m' → <[a := m]> (g_machines (w_g w)) !! a' = Some m') as Hkeep.
  { intros a' m' Hm'. rewrite lookup_insert_ne; [done|congruence]. }
  split; cbn; try done.
  - intros k a' Hk. destruct (T3 k a' Hk) as [(s & ma & m' & E1 & E2 & E3 & E4 & E5 & E6) ?]. split; [|done].
    exists s, ma, m'. split_and!; auto.
  - intros k a' b Hp. destruct (T4 k a' b Hp) as (Hu & m' & Hm' & ?). eauto.
  - intros a' m' [[<- <-]|[_ Hm']]%lookup_insert_Some; [|eauto]. rewrite Hb. split; [done|].
    intros k [? Hk]. by rewrite lookup_empty in Hk.
Qed.

Lemma register_ok engine up cfg now socket id host new_id ip port w :
  world_ok w → world_ok (set_g (HandleRegister engine up cfg now socket id host new_id ip port (w_g w)).1 w).
Proof.
  intros Hw. unfold HandleRegister.
  assert (world_ok (set_g (w_g w) w)) as Hw0 by (by destruct w).
  set (id' := if decide _ then _ else id). set (host' := if decide _ then _ else host).
  assert (∀ p, world_ok (set_g (match AcquireMachine engine cfg id' host' p (w_g w) with
    | Ok (g, a) => if up then (upd_machine a (m_OnOpen now socket) g, Ok a) else (g, Err ErrUpgrade)
    | Err e => (w_g w, Err e) end).1 w)) as Hacq.
  { intros p. unfold AcquireMachine.
    assert (∀ g a, world_ok (set_g g w) →
      world_ok (set_g (if up then (upd_machine a (m_OnOpen now socket) g, Ok a) else (g, @Err gateway_error nat ErrUpgrade)).1 w)) as Hup.
    { intros g a Hg. destruct up; [|done]. cbn.
      apply (g_le_ok (set_g g w)); [|done]. by apply upd_machine_le. }
    destruct (g_items (w_g w) !! id' ≫= _) as [[a m]|].
    - destruct (checkMachine m host' p); cbn; [by apply Hup|done].
    - destruct (NewMachine engine cfg id' host' p) as [m|] eqn:Hm; [|done]. apply Hup.
      destruct (new_machine_ok _ _ _ _ _ _ Hm).
      apply (add_machine_ok (fresh (dom (g_machines (w_g w)))) m) in Hw as [Ht Hc]; [split; [by destruct Ht|by destruct Hc]| |done|done].
      apply not_elem_of_dom, is_fresh. }
  destruct port as [[p|]|]; [apply Hacq|done|apply Hacq].
Qed.

(** *** Creation *)
Lemma bind_ok w a key g b ok :
  world_ok w → key ∉ w_used w → is_Some (g_machines (w_g w) !! a) →
  create_bind a key (w_g w) = (g, b, ok) →
  world_ok (mkWorld g ({[key]} ∪ w_used w)
    (if ok then <[key := (a, b)]> (w_store w) else w_store w) (w_add w) (w_admitted w) (w_connected w)).
Proof.
  intros [[T1 T2 T3 T4 T5 T6] Hc] Hfresh [m Hm]. unfold create_bind. rewrite Hm.
  pose proof (TryBind_keeps key (m_Pool m)) as (K1 & K2 & K3 & K4).
  pose proof (TryBind_ok key (m_Pool m)) as Hok.
  destruct (TryBind key (m_Pool m)) as [[p b'] ok']. cbn in K1, K2, K3, K4, Hok. intros [= <- -> ->].
  split; [|by destruct Hc]. destruct (T6 a m Hm) as [Hpool Hbind].
  assert (∀ k b0, k ≠ key → bound k b0 m → bound k b0 (with_pool p m)) as Hbound.
  { intros k b0 Hne [Hcl|[? Hb0]]; [left; cbn; congruence|right]. cbn. split; [done|]. by rewrite K2. }
  assert (w_store w !! key = None) as Hns.
  { destruct (w_store w !! key) as [[a' b0]|] eqn:Hp; [|done]. by destruct (T4 _ _ _ Hp). }
  split; cbn; try done.
  - intros k a' Hk. destruct (T3 k a' Hk) as [(s & ma & m' & E1 & E2 & E3 & E4 & E5 & E6) [Hu Hn]].
    assert (k ≠ key) by congruence. split; [|split; [set_solver|]].
    2:{ destruct ok; [by rewrite lookup_insert_ne|done]. }
    destruct (decide (ma = a)) as [->|].
    + replace m' with m in * by congruence. exists s, a, (with_pool p m). cbn.
      rewrite lookup_alter_eq, Hm. split_and!; auto.
    + exists s, ma, m'. cbn. rewrite lookup_alter_ne by done. by split_and!.
  - intros k a' b0 Hp.
    assert (k = key ∧ a' = a ∧ b0 = b ∧ ok = true ∨ k ≠ key ∧ w_store w !! k = Some (a', b0)) as [(-> & -> & -> & ->)|[Hne Hp']].
    { destruct (decide (k = key)) as [->|Hne]; destruct ok; simplify_map_eq; auto. }
    + split; [set_solver|]. rewrite lookup_alter_eq, Hm. eexists. split; [done|]. right. cbn. by apply K3.
    + destruct (T4 k a' b0 Hp') as (Hu & m' & Hm' & Hb). split; [set_solver|].
      destruct (decide (a' = a)) as [->|]; [|rewrite lookup_alter_ne by done; eauto].
      replace m' with m in * by congruence. rewrite lookup_alter_eq, Hm. cbn. eauto.
  - intros k a' Ha. destruct (T5 k a' Ha) as [Hu Hn]. assert (k ≠ key) by congruence.
    split; [set_solver|]. destruct ok; [by rewrite lookup_insert_ne|done].
  - intros a' m'. destruct (decide (a' = a)) as [->|].
    + rewrite lookup_alter_eq, Hm. intros [= <-]. cbn. split; [auto|]. intros k [b0 Hk].
      destruct (decide (k = key)) as [->|]; [set_solver|]. rewrite K2 in Hk by done.
      apply elem_of_union_r, Hbind. by eexists.
    + rewrite lookup_alter_ne by done. intros Hm'. destruct (T6 a' m' Hm') as [? Hb]. split; [done|].
      intros k Hk. apply elem_of_union_r. auto.
Qed.

Lemma store_ok w a key b now :
  world_ok w → w_store w !! key = Some (a, b) →
  world_ok (mkWorld (create_store now a key b (w_g w)) (w_used w) (delete key (w_store w))
    (<[key := a]> (w_add w)) (w_admitted w) (w_connected w)).
Proof.
  intros [[T1 T2 T3 T4 T5 T6] [C1 C2 C3 C4]] Hp. destruct (T4 _ _ _ Hp) as (Hu & m & Hm & Hb).
  unfold create_store, sm_Store. set (sa := fresh (dom (g_sessions (w_g w)))).
  assert (g_sessions (w_g w) !! sa = None) as Hsa by apply not_elem_of_dom, is_fresh.
  cbn [g_sessions on_sessions]. rewrite lookup_insert_eq. cbn [s_key NewSession].
  assert (sm_Load (w_g w) key = None) as Hnone.
  { destruct (sm_Load (w_g w) key) as [a'|] eqn:Hl; [|done]. destruct (T3 _ _ Hl) as (_ & _ & ?). congruence. }
  change (sm_Load (on_sessions _ (w_g w)) key) with (sm_Load (w_g w) key). rewrite Hnone.
  rewrite bool_decide_true by done. cbn [g_shards on_sessions]. rewrite Update_spec.
  assert (∀ k, sm_Load (set_shards (ShardedMap.Store (g_shards (w_g w)) key sa) (w_g w)) k =
    if decide (k = key) then Some sa else sm_Load (w_g w) k) as Hload.
  { intros k. rewrite !sm_Load_abs by (cbn; auto using Store_wf). cbn. rewrite Store_abs by done.
    case_decide; subst; by rewrite ?lookup_insert_eq, ?lookup_insert_ne. }
  split; split; cbn; try done.
  - by apply Store_wf.
  - rewrite T2, Store_abs by done. rewrite map_size_insert_None; [lia|]. by rewrite <-sm_Load_abs.
  - intros k a' Hk.
    change (sm_Load _ k) with (sm_Load (set_shards (ShardedMap.Store (g_shards (w_g w)) key sa) (w_g w)) k) in Hk.
    rewrite Hload in Hk. case_decide as Hkey.
    + injection Hk as <-. subst k. split; [|by rewrite lookup_delete_eq].
      eexists _, a, m. cbn. rewrite lookup_insert_eq. split_and!; try done. left. by rewrite lookup_insert_eq.
    + destruct (T3 k a' Hk) as [(s & ma & m' & E1 & E2 & E3 & E4 & E5 & E6) [? ?]].
      split; [|by rewrite lookup_delete_ne]. exists s, ma, m'. cbn.
      rewrite !lookup_insert_ne by congruence. by split_and!.
  - intros k a' b' [Hne Hk]%lookup_delete_Some. eauto.
  - intros k a' [[<- <-]|[Hne Hk]]%lookup_insert_Some; [by rewrite lookup_delete_eq|].
    rewrite lookup_delete_ne by done. eauto.
  - intros a' s [[<- <-]|[Hne Hs]]%lookup_insert_Some; [|eauto]. cbn.
    assert ((sa ∉ w_admitted w) ∧ w_connected w !! sa = None) as [H1 H2]; [|by rewrite H2].
    split; [intros Hin|apply eq_None_not_Some; intros Hin];
      (destruct (C3 sa) as [? ?]; [auto|congruence]).
  - intros a' Ha. destruct (C3 a' Ha) as [s Hs]. rewrite lookup_insert_ne; [done|congruence].
Qed.

Lemma add_ok w a key :
  world_ok w → w_add w !! key = Some a →
  world_ok (mkWorld (create_add a key (w_g w)) (w_used w) (w_store w) (delete key (w_add w))
    (w_admitted w) (w_connected w)).
Proof.
  intros [Ht Hc] Ha.
  assert (tables_ok (set_g (create_add a key (w_g w)) w)) as Ht1.
  { apply upd_machine_tables; [done|]. intros m Hm. destruct (t_pools w Ht a m Hm). cbn. split; [set_solver|done]. }
  split; [|by destruct Hc]. destruct Ht as [_ _ T3 _ _ _]. destruct Ht1 as [U1 U2 U3 U4 U5 U6].
  split; cbn in *; try done.
  - intros k a' Hk. destruct (U3 k a' Hk) as [(s & ma & m' & E1 & E2 & E3 & E4 & E5 & E6) ?]. split; [|done].
    exists s, ma, m'. split_and!; try done. destruct E6 as [E6|E6]; [|by right]. cbn in E6, E4 |- *.
    destruct (decide (k = key)) as [->|]; [right|left; by rewrite lookup_delete_ne].
    replace ma with a in * by congruence. rewrite lookup_alter_eq in E4.
    apply fmap_Some in E4 as (m & _ & ->). cbn. set_solver.
  - intros k a' [_ Hk]%lookup_delete_Some. eauto.
Qed.

(** *** Clients *)
Lemma tables_sessions w w' :
  tables_ok w → w_used w' = w_used w → w_store w' = w_store w → w_add w' = w_add w →
  g_shards (w_g w') = g_shards (w_g w) → g_active (w_g w') = g_active (w_g w) →
  g_machines (w_g w') = g_machines (w_g w) →
  (∀ a s, g_sessions (w_g w) !! a = Some s → ∃ s', g_sessions (w_g w') !! a = Some s' ∧
     s_key s' = s_key s ∧ s_binding s' = s_binding s ∧ s_machine s' = s_machine s) →
  tables_ok w'.
Proof.
  intros [T1 T2 T3 T4 T5 T6] Eu Es Ea Esh Eac Em Hs.
  split; rewrite ?Esh, ?Eac, ?Em, ?Eu, ?Es, ?Ea; try done.
  intros k a. unfold sm_Load. rewrite Esh. intros Hk.
  destruct (T3 k a Hk) as [(s & ma & m & E1 & E2 & E3 & E4 & E5 & E6) ?]. split; [|done].
  destruct (Hs a s E1) as (s' & Hs' & F1 & F2 & F3). exists s', ma, m. rewrite Em, Ea.
  by split_and!; try congruence.
Qed.

Lemma alter_core (a : nat) (f : Session → Session) (h : gmap nat Session) :
  (∀ s, s_key (f s) = s_key s ∧ s_binding (f s) = s_binding s ∧ s_machine (f s) = s_machine s) →
  ∀ a' s, h !! a' = Some s → ∃ s', alter f a h !! a' = Some s' ∧
    s_key s' = s_key s ∧ s_binding s' = s_binding s ∧ s_machine s' = s_machine s.
Proof.
  intros Hf a' s Hs. destruct (decide (a' = a)) as [->|].
  - rewrite lookup_alter_eq, Hs. eexists. split; [done|apply Hf].
  - rewrite lookup_alter_ne by done. eauto.
Qed.

Lemma alter_alter (a : nat) (f f' : Session → Session) (h : gmap nat Session) :
  alter f a (alter f' a h) = alter (λ s, f (f' s)) a h.
Proof.
  apply map_eq. intros a'. destruct (decide (a' = a)) as [->|]; [|by rewrite !lookup_alter_ne].
  rewrite !lookup_alter_eq. by destruct (h !! a).
Qed.

Lemma alter_known (a : nat) (f : Session → Session) (h : gmap nat Session) a' :
  is_Some (h !! a') → is_Some (alter f a h !! a').
Proof. destruct (decide (a' = a)) as [->|]; [rewrite lookup_alter_eq, fmap_is_Some|rewrite lookup_alter_ne by done]; done. Qed.

Lemma Release_core s :
  s_key (Release s).1 = s_key s ∧ s_binding (Release s).1 = s_binding s ∧ s_machine (Release s).1 = s_machine s ∧
  s_client (Release s).1 = s_client s.
Proof. unfold Release. by case_decide. Qed.

Lemma realtime_ok w up parsed g r :
  world_ok w → HandleRealtime up parsed (w_g w) = (g, r) →
  world_ok (mkWorld g (w_used w) (w_store w) (w_add w)
    (match r with Ok a => {[a]} ∪ w_admitted w | Err _ => w_admitted w end) (w_connected w)).
Proof.
  intros Hw. unfold HandleRealtime.
  destruct (getSessionFromRequest parsed (w_g w)) as [a|]; [|intros [= <- <-]; by destruct w].
  destruct (g_sessions (w_g w) !! a) as [s|] eqn:Hs; [|intros [= <- <-]; by destruct w].
  unfold Acquire at 1. case_decide as Hidle; cbn [snd]; [|intros [= <- <-]; by destruct w].
  pose proof Hw as [Ht Hc]. destruct Hc as [C1 C2 C3 C4]. destruct (C2 a s Hs) as [Ec Hi]. destruct (Hi Hidle) as [Hna Hnc].
  assert (alter (λ s, (Acquire s).1) a (g_sessions (w_g w)) = <[a := set_sstate SessionPending s]> (g_sessions (w_g w))) as Eacq.
  { apply map_eq. intros a'. destruct (decide (a' = a)) as [->|].
    - rewrite lookup_alter_eq, lookup_insert_eq, Hs. cbn. unfold Acquire. by rewrite decide_True.
    - by rewrite lookup_alter_ne, lookup_insert_ne. }
  destruct up; intros [= <- <-].
  - split.
    + eapply tables_sessions; [exact Ht|done..|]. cbn. apply alter_core. intros s'. unfold Acquire. by case_decide.
    + split; cbn; [done| | |].
      * rewrite Eacq. intros a' s' [[<- <-]|[Hne Hs']]%lookup_insert_Some; cbn; [done|].
        destruct (C2 a' s' Hs') as [? Hi']. split; [done|]. intros Hst. destruct (Hi' Hst). split; [set_solver|done].
      * intros a' Ha'. apply alter_known. destruct Ha' as [Ha'|Ha']; [|auto].
        apply elem_of_union in Ha' as [->%elem_of_singleton|Ha']; [by eexists|auto].
      * intros a' [->%elem_of_singleton|Ha']%elem_of_union; auto.
  - assert (alter (λ s, (Release s).1) a (alter (λ s, (Acquire s).1) a (g_sessions (w_g w)))
      = <[a := set_sstate SessionIdle s]> (g_sessions (w_g w))) as Erel.
    { rewrite Eacq. apply map_eq. intros a'. destruct (decide (a' = a)) as [->|].
      - by rewrite lookup_alter_eq, !lookup_insert_eq.
      - by rewrite lookup_alter_ne, !lookup_insert_ne. }
    split.
    + eapply tables_sessions; [exact Ht|done..|]. cbn. rewrite Erel. intros a' s' Hs'.
      destruct (decide (a' = a)) as [->|]; [|rewrite lookup_insert_ne by done; eauto].
      rewrite lookup_insert_eq. replace s' with s by congruence. by eexists.
    + split; cbn; rewrite ?Erel; [done| | |done].
      * intros a' s' [[<- <-]|[Hne Hs']]%lookup_insert_Some; cbn; [done|eauto].
      * intros a' Ha'. destruct (decide (a' = a)) as [->|]; [by rewrite lookup_insert_eq|].
        rewrite lookup_insert_ne by done. auto.
Qed.

Lemma open_ok_ published buffer now a socket w :
  world_ok w → a ∈ w_admitted w →
  world_ok (mkWorld (OnClientOpen published buffer now a socket (w_g w)) (w_used w) (w_store w) (w_add w)
    (w_admitted w ∖ {[a]}) (<[a := socket]> (w_connected w))).
Proof.
  intros [Ht [C1 C2 C3 C4]] Ha. destruct (C3 a (or_introl Ha)) as [s Hs]. unfold OnClientOpen. rewrite Hs.
  set (f := λ s, set_client (Some socket) (touch now (set_sstate SessionReady (count_connect s)))).
  set (g1 := addClients 1 (upd_session a f (w_g w))).
  set (w1 := mkWorld g1 (w_used w) (w_store w) (w_add w) (w_admitted w ∖ {[a]}) (<[a := socket]> (w_connected w))).
  assert (world_ok w1) as Hw1.
  { split.
    - eapply tables_sessions; [exact Ht|done..|]. cbn. by apply alter_core.
    - split; cbn.
      + rewrite C1, map_size_insert_None by auto. lia.
      + intros a' s'. destruct (decide (a' = a)) as [->|Hne].
        * rewrite lookup_alter_eq, Hs. intros [= <-]. by rewrite lookup_insert_eq.
        * rewrite lookup_alter_ne, lookup_insert_ne by done. intros Hs'. destruct (C2 a' s' Hs') as [? Hi].
          split; [done|]. intros Hst. destruct (Hi Hst). split; [set_solver|done].
      + intros a' Ha'. apply alter_known. destruct (decide (a' = a)) as [->|]; [by eexists|].
        apply C3. rewrite lookup_insert_ne in Ha' by done. set_solver.
      + intros a' [Ha' Hne%not_elem_of_singleton]%elem_of_difference. rewrite lookup_insert_ne by done. auto. }
  case_decide; [|done]. change (world_ok (set_g (notify_machine published buffer a TypeResume g1) w1)).
  apply g_le_ok; [apply wire_le, notify_wire|done].
Qed.

Lemma close_ok_ published buffer a socket w :
  world_ok w → w_connected w !! a = Some socket →
  world_ok (mkWorld (OnClientClose published buffer a (w_g w)) (w_used w) (w_store w) (w_add w)
    (w_admitted w) (delete a (w_connected w))).
Proof.
  intros [Ht [C1 C2 C3 C4]] Ha. destruct (C3 a (or_intror (mk_is_Some _ _ Ha))) as [s Hs].
  unfold OnClientClose. rewrite Hs.
  assert (∀ f : Session → Session, (∀ s, s_key (f s) = s_key s ∧ s_binding (f s) = s_binding s ∧ s_machine (f s) = s_machine s ∧ s_client (f s) = s_client s) →
    world_ok (mkWorld (upd_session a f (addClients (-1) (upd_session a (set_client None) (w_g w)))) (w_used w) (w_store w) (w_add w)
      (w_admitted w) (delete a (w_connected w)))) as Hf.
  { intros f Hf. split.
    - eapply tables_sessions; [exact Ht|done..|]. cbn. intros a' s' Hs'. rewrite alter_alter.
      apply alter_core; [|done]. intros s0. destruct (Hf (set_client None s0)) as (? & ? & ? & ?). done.
    - split; cbn.
      + rewrite C1, (map_size_delete_Some a) by eauto.
        assert (0 < size (w_connected w))%nat; [|lia].
        apply Nat.neq_0_lt_0. rewrite map_size_non_empty_iff. intros He. by rewrite He in Ha.
      + intros a' s'. rewrite alter_alter. destruct (decide (a' = a)) as [->|Hne].
        * rewrite lookup_alter_eq, Hs. intros [= <-]. rewrite lookup_delete_eq. cbn.
          destruct (Hf (set_client None s)) as (_ & _ & _ & ->). split; [done|]. intros _. split; [|done].
          intros Hin. specialize (C4 a Hin). congruence.
        * rewrite lookup_alter_ne, lookup_delete_ne by done. apply C2.
      + intros a' Ha'. apply alter_known, alter_known, C3. destruct Ha' as [?|[x Hx]]; [by left|right].
        apply lookup_delete_Some in Hx as [_ Hx]. by eexists.
      + intros a' Hin. specialize (C4 a' Hin). destruct (decide (a' = a)) as [->|]; [congruence|].
        by rewrite lookup_delete_ne. }
  case_decide as Hcl.
  - pose proof (Hf (λ s, s) ltac:(done)) as Hw1.
    replace (upd_session a (λ s, s) _) with (addClients (-1) (upd_session a (set_client None) (w_g w))) in Hw1; [done|].
    unfold upd_session, on_sessions, addClients. cbn. f_equal. symmetry. apply map_eq. intros a'.
    destruct (decide (a' = a)) as [->|]; [rewrite !lookup_alter_eq|by rewrite !lookup_alter_ne].
    by destruct (g_sessions (w_g w) !! a).
  - specialize (Hf (λ s, (Release s).1) Release_core).
    match type of Hf with world_ok ?w1 => set (w2 := w1) in Hf end.
    change (world_ok (set_g (notify_machine published buffer a TypePause (w_g w2)) w2)).
    apply g_le_ok; [apply wire_le, notify_wire|done].
Qed.

Lemma send_le ac r g : g_le g (send_frame ac r g).
Proof. apply wire_le. destruct r; [by eexists|apply wire_refl..]. Qed.

Lemma dispatch_ok published buffer o now key data w :
  world_ok w → world_ok (set_g (DispatchMessage published buffer o now key data (w_g w)) w).
Proof.
  intros Hw. assert (world_ok (set_g (w_g w) w)) as Hw0 by (by destruct w). unfold DispatchMessage.
  destruct (sm_Load (w_g w) key ≫= _) as [[a s]|]; [|done].
  destruct (UnmarshalHeader new_packet data) as [packet [e|]]; [done|]. case_decide.
  - set (g1 := close_client s (upd_session a (set_sstate SessionClosed) (w_g w))).
    apply (sm_Delete_ok published buffer o now key (set_g g1 w)). apply g_le_ok; [|done].
    etrans; [apply (upd_session_le a (set_sstate SessionClosed)); by intros|].
    apply wire_le. unfold g1, close_client. destruct (s_client s); [by eexists|apply wire_refl].
  - destruct (s_client s); [|done]. case_decide; [|done]. apply g_le_ok; [|done]. apply wire_le. by eexists.
Qed.

Lemma message_le published buffer now a binary data g :
  g_le g (OnClientMessage published buffer now a binary data g).
Proof.
  unfold OnClientMessage. destruct (client_frame_ok binary data); [|done].
  destruct (g_sessions g !! a) as [s|]; [|done]. destruct (s_machine s ≫= _); [|done].
  destruct (s_Connection g s); [|done]. case_decide; [done|].
  etrans; [apply (upd_session_le a (touch now)); by intros|apply send_le].
Qed.

Lemma step_world_ok w w' : world_ok w → w_step w w' → world_ok w'.
Proof.
  intros Hw Hst. revert Hw. destruct Hst; intros Hw.
  - by apply register_ok.
  - apply g_le_ok; [|done]. by apply upd_machine_le.
  - apply g_le_ok; [|done]. by apply upd_machine_le.
  - apply g_le_ok; [|done]. apply wire_le. by eexists.
  - apply g_le_ok; [|done]. apply upd_machine_le. intros m Hm.
    split; [done|]. cbn. split; [by apply background_keeps, H|]. intros Hok.
    by eapply step_pool_ok, background_step, H.
  - by apply bind_ok.
  - by apply store_ok.
  - by apply add_ok.
  - unfold HandleSessionRenew. destruct (getSessionFromRequest parsed (w_g w)) as [a|]; [|by destruct w].
    destruct resp as [r|]; [|by destruct w]. cbn. case_decide; [|by destruct w].
    apply g_le_ok; [|done]. by apply upd_session_le.
  - unfold HandleSessionDelete. destruct (getSessionFromRequest parsed (w_g w)) as [a|]; [|by destruct w].
    destruct resp as [r|]; [|by destruct w]. cbn. case_decide; [|by destruct w].
    destruct (g_sessions (w_g w) !! a); [by apply sm_Delete_ok|by destruct w].
  - by apply deletes_ok.
  - by apply terminates_ok.
  - by apply dispatch_ok.
  - by eapply realtime_ok.
  - by apply open_ok_.
  - by eapply close_ok_.
  - apply g_le_ok; [|done]. unfold OnClientPing.
    etrans; [apply (upd_session_le a (touch now)); by intros|]. apply wire_le. by eexists.
  - apply g_le_ok; [|done]. apply message_le.
Qed.

Lemma new_world_ok : world_ok new_world.
Proof.
  assert (∀ k, sm_Load new_gateway k = None) as Hn.
  { intros k. rewrite sm_Load_abs by apply New_wf. cbn [g_shards new_gateway]. unfold NewSessionManager.
    by rewrite New_abs, lookup_empty. }
  split; split; try done; cbn -[NewSessionManager].
  - apply New_wf.
  - intros k a. by rewrite Hn.
  - intros a [Ha|[? Ha]]; [set_solver|done].
Qed.

Lemma w_reachable_ok w : rtc w_step new_world w → world_ok w.
Proof. intros Hr. exact (rtc_invariant w_step world_ok _ _ step_world_ok Hr new_world_ok). Qed.

(** ** Counting and looking up *)
Lemma Count_size ord g :
  ShardedMap.wf (g_shards g) → sm_Count ord g = Z.of_nat (size (abs (g_shards g))).
Proof.
  intros Hwf. unfold sm_Count.
  destruct (Range_visits (λ _ : Z, g_shards g) ord (λ n _ _, (n + 1, true))) with (s := 0) as (l & Hl & ->);
    [done|done|].
  rewrite <-length_map_to_list, <-Hl. clear Hl.
  assert (∀ n, (range_snapshot (λ (n : Z) (_ : SessionKey) (_ : nat), (n + 1, true)) n l).1 = n + Z.of_nat (length l)) as ->; [|lia].
  induction l as [|[k a] l IH]; intros n; cbn; [lia|]. rewrite IH. lia.
Qed.

(** The connection of a stored session is where its pool routes it. *)
Lemma stored_route w k a :
  world_ok w → sm_Load (w_g w) k = Some a →
  ∃ s ma m, g_sessions (w_g w) !! a = Some s ∧ s_key s = k ∧ s_machine s = Some ma ∧
    g_machines (w_g w) !! ma = Some m ∧
    (closed (m_Pool m) = true ∨ s_Connection (w_g w) s = (ma,.) <$> routes (m_Pool m) !! k) ∧
    (w_add w !! k = Some ma ∨ k ∈ m_sessions m).
Proof.
  intros [Ht _] Hk. destruct (t_stored w Ht k a Hk) as [(s & ma & m & E1 & E2 & E3 & E4 & E5 & E6) _].
  exists s, ma, m. split_and!; try done. destruct E5 as [E5|[[b Hb] E5]]; [by left|right].
  destruct (t_pools w Ht ma m E4) as [(Hbk & _ & _) _].
  unfold s_Connection. rewrite Hb, E3. cbn. rewrite E4. cbn. rewrite Hb in E5.
  destruct (routes (m_Pool m) !! k) as [c|] eqn:Hr; cbn.
  - destruct (bk_route _ Hbk k c Hr) as (_ & b' & Hb' & Hh). replace b with b' by congruence. by rewrite Hh.
  - by rewrite (bk_wait _ Hbk k b E5 Hr).
Qed.

(** ** Properties *)

(** C2: The tables of the gateway agree in every history of registrations,
    session creations (in their three steps), deletions, cleanups, machine
    time-outs, machine and client messages, client connections and background
    work of the pools.  The session counter is the number of stored sessions,
    which is also what [Count] reports; every stored session is found under
    its own key, belongs to a known machine and is listed there (or its
    creation is about to list it); unless that machine was shut down, the
    connection its packets take is the one its pool routes it to; the counter
    of clients is the number of connected clients; and each session's client
    is the connected one, with neither an admitted nor a connected client
    while the session is idle. *)
Theorem gateway_tables_consistent w :
  rtc w_step new_world w →
  (∀ ord, sm_Count ord (w_g w) = g_active (w_g w)) ∧
  (∀ k a, sm_Load (w_g w) k = Some a →
     ∃ s ma m, g_sessions (w_g w) !! a = Some s ∧ s_key s = k ∧ s_machine s = Some ma ∧
       g_machines (w_g w) !! ma = Some m ∧
       (closed (m_Pool m) = true ∨ s_Connection (w_g w) s = (ma,.) <$> routes (m_Pool m) !! k) ∧
       (w_add w !! k = Some ma ∨ k ∈ m_sessions m)) ∧
  g_clients (w_g w) = Z.of_nat (size (w_connected w)) ∧
  (∀ a s, g_sessions (w_g w) !! a = Some s →
     s_client s = w_connected w !! a ∧
     (s_state s = SessionIdle → (a ∉ w_admitted w) ∧ w_connected w !! a = None)).
Proof.
  intros Hok%w_reachable_ok. pose proof Hok as [Ht Hc]. split; [|split; [|split]].
  - intros ord. rewrite Count_size by apply (t_wf w Ht). symmetry. apply (t_active w Ht).
  - intros k a. by apply stored_route.
  - apply (c_count w Hc).
  - apply (c_client w Hc).
Qed.

(** C23: A session has one client at a time: while a client is admitted or
    connected, every further realtime request for the session is refused and
    changes nothing, and the socket packets go to is that client's. *)
Theorem one_client_per_session w up k a :
  rtc w_step new_world w → sm_Load (w_g w) k = Some a →
  (a ∈ w_admitted w) ∨ is_Some (w_connected w !! a) →
  HandleRealtime up (Some k) (w_g w) = (w_g w, Err ErrSessionConnected) ∧
  s_client <$> g_sessions (w_g w) !! a = Some (w_connected w !! a).
Proof.
  intros [Ht Hc]%w_reachable_ok Hk Ha. destruct (c_known w Hc a Ha) as [s Hs].
  destruct (c_client w Hc a s Hs) as [Ec Hi]. rewrite Hs. cbn. split; [|by rewrite Ec].
  unfold HandleRealtime, getSessionFromRequest. rewrite Hk, Hs. unfold Acquire.
  rewrite decide_False; [done|]. intros [Hn Hnone]%Hi. destruct Ha as [?|[? ?]]; congruence.
Qed.

(** ** Cleanup of sessions *)
Lemma sm_Load_forget o now k ma g k' :
  ShardedMap.wf (g_shards g) →
  sm_Load (forget o now k ma g) k' = if decide (k' = k) then None else sm_Load g k'.
Proof.
  intros Hwf. change (sm_Load (forget o now k ma g) k') with (ShardedMap.Load (ShardedMap.Delete (g_shards g) k) k').
  rewrite <-abs_lookup, Delete_abs by auto using Delete_wf.
  case_decide; subst; [by rewrite lookup_delete_eq|]. rewrite lookup_delete_ne by done. by apply abs_lookup.
Qed.

Lemma sm_Load_Delete published buffer o now k w k' :
  tables_ok w →
  sm_Load (sm_Delete published buffer o now k (w_g w)) k' = if decide (k' = k) then None else sm_Load (w_g w) k'.
Proof.
  intros Ht. destruct (sm_Delete_cases published buffer o now k w Ht)
    as [[Hn ->]|(a & s & ma & g1 & Hk & Hs & Hma & Hle & _ & ->)].
  - case_decide; by subst.
  - rewrite sm_Load_forget by (rewrite (le_shards _ _ Hle); apply (t_wf w Ht)).
    unfold sm_Load. by rewrite (le_shards _ _ Hle).
Qed.

Lemma sm_Load_deletes published buffer o now ks w k :
  world_ok w →
  sm_Load (foldl (λ g k, sm_Delete published buffer o now k g) (w_g w) ks) k =
    if decide (k ∈ ks) then None else sm_Load (w_g w) k.
Proof.
  revert w. induction ks as [|k0 ks IH]; intros w Hw; cbn; [done|].
  pose proof (IH (set_g (sm_Delete published buffer o now k0 (w_g w)) w) (sm_Delete_ok _ _ _ _ _ _ Hw)) as IH'.
  cbn [w_g set_g] in IH'. rewrite IH', sm_Load_Delete by apply Hw.
  destruct (decide (k ∈ ks)), (decide (k = k0)), (decide (k ∈ k0 :: ks)); set_solver.
Qed.

(** The collected keys are those of the expired sessions. *)
Lemma collect_spec threshold g acc l :
  (range_snapshot (collect_expired threshold g) acc l).1 =
  acc ++ omap (λ '(_, a), s ← g_sessions g !! a; if s_expired threshold s then Some (s_key s) else None) l.
Proof.
  revert acc. induction l as [|[k a] l IH]; intros acc; cbn; [by rewrite app_nil_r|].
  rewrite IH. destruct (g_sessions g !! a) as [s|]; cbn; [|done].
  destruct (s_expired threshold s); [by rewrite <-app_assoc|done].
Qed.

Lemma cleanup_expired ord threshold w k :
  tables_ok w →
  k ∈ Range (λ _, g_shards (w_g w)) ord (collect_expired threshold (w_g w)) [] ↔
  ∃ a s, sm_Load (w_g w) k = Some a ∧ g_sessions (w_g w) !! a = Some s ∧ s_expired threshold s = true.
Proof.
  intros Ht. destruct (Range_visits (λ _, g_shards (w_g w)) ord (collect_expired threshold (w_g w)))
    with (s := @nil SessionKey) as (l & Hl & ->); [done|apply (t_wf w Ht)|].
  rewrite collect_spec. cbn [app]. rewrite list_elem_of_omap. setoid_rewrite sm_Load_abs; [|apply (t_wf w Ht)].
  split.
  - intros ([k' a] & Hin & Hx). rewrite Hl, elem_of_map_to_list in Hin.
    apply bind_Some in Hx as (s & Hs & Hx). destruct (s_expired threshold s) eqn:He; [|done]. injection Hx as <-.
    rewrite <-sm_Load_abs in Hin by apply (t_wf w Ht).
    destruct (t_stored w Ht k' a Hin) as [(s' & ma & m & E1 & E2 & _) _]. replace s' with s in * by congruence.
    exists a, s. rewrite <-sm_Load_abs by apply (t_wf w Ht). by rewrite E2.
  - intros (a & s & Ha & Hs & He). exists (k, a). rewrite Hl, elem_of_map_to_list. split; [done|]. cbn.
    rewrite Hs. cbn. rewrite He. rewrite <-sm_Load_abs in Ha by apply (t_wf w Ht).
    destruct (t_stored w Ht k a Ha) as [(s' & ma & m & E1 & E2 & _) _]. f_equal. congruence.
Qed.

(** The periodic cleanup removes exactly the sessions whose last activity
    is older than the time-out, for every iteration order of the shards, and
    leaves every other session under its key. *)
Theorem session_cleanup_exact published buffer o ord now timeout w k :
  rtc w_step new_world w →
  sm_Load (sm_cleanup published buffer o ord now timeout (w_g w)) k =
  match sm_Load (w_g w) k with
  | Some a =>
      if bool_decide (s_expired (UnixMilli (now - timeout)) <$> g_sessions (w_g w) !! a = Some true)
      then None else Some a
  | None => None
  end.
Proof.
  intros Hw%w_reachable_ok. unfold sm_cleanup. rewrite sm_Load_deletes by done.
  destruct Hw as [Ht _]. destruct (decide _) as [Hin|Hin]; rewrite (cleanup_expired _ _ _ _ Ht) in Hin.
  - destruct Hin as (a & s & -> & Hs & He). rewrite Hs. cbn. by rewrite He.
  - destruct (sm_Load (w_g w) k) as [a|] eqn:Ha; [|done]. rewrite bool_decide_false; [done|].
    intros (s & Hs & He)%fmap_Some. naive_solver.
Qed.

(** ** Machines whose heartbeat timed out *)
Lemma wire_machines g g' : same_but_wire g g' → g_machines g' = g_machines g ∧ g_items g' = g_items g.
Proof. by intros [es ->]. Qed.

Lemma s_Close_machines published buffer a g :
  g_machines (s_Close published buffer a g) = g_machines g ∧ g_items (s_Close published buffer a g) = g_items g.
Proof.
  unfold s_Close. destruct (g_sessions g !! a) as [s|]; [|done]. case_decide; [done|].
  destruct (wire_machines _ _ (notify_wire published buffer a TypeClose
    (close_client s (upd_session a (set_sstate SessionClosed) g)))) as [-> ->].
  unfold close_client. by destruct (s_client s).
Qed.

(** A deletion shortens the lists of sessions and keeps the rest. *)
Lemma Delete_machines published buffer o now k w :
  tables_ok w →
  let g' := sm_Delete published buffer o now k (w_g w) in
  g_items g' = g_items (w_g w) ∧ dom (g_machines g') = dom (g_machines (w_g w)) ∧
  ∀ a m, g_machines (w_g w) !! a = Some m → ∃ m', g_machines g' !! a = Some m' ∧
    m_state m' = m_state m ∧ m_sessions m' ⊆ m_sessions m ∧
    ∀ k', k' ∈ m_sessions m → k' ∈ m_sessions m' ∨ sm_Load g' k' = None.
Proof.
  intros Ht. destruct (sm_Delete_cases published buffer o now k w Ht)
    as [[_ ->]|(a & s & ma & g1 & Hk & Hs & Hma & Hle & E1 & E)]; [split_and!; [done|done|]; eauto 10|].
  intros g'. pose proof (sm_Load_Delete published buffer o now k w k Ht) as Hgone. rewrite decide_True in Hgone by done.
  destruct (s_Close_machines published buffer a (w_g w)) as [Em Ei]. rewrite <-E1 in Em, Ei.
  unfold g' in *. rewrite E in *. cbn. split_and!; [by rewrite Ei|by rewrite dom_alter_L, Em|]. intros a' m Hm. rewrite Em.
  destruct (decide (a' = ma)) as [->|]; [|rewrite lookup_alter_ne by done; eauto 10].
  rewrite lookup_alter_eq, Hm. eexists. split; [done|]. cbn. split; [done|]. split; [set_solver|].
  intros k' Hk'. destruct (decide (k' = k)) as [->|]; [by right|left; set_solver].
Qed.

Lemma deletes_machines published buffer o now ks w :
  world_ok w →
  let g' := foldl (λ g k, sm_Delete published buffer o now k g) (w_g w) ks in
  g_items g' = g_items (w_g w) ∧ dom (g_machines g') = dom (g_machines (w_g w)) ∧
  ∀ a m, g_machines (w_g w) !! a = Some m → ∃ m', g_machines g' !! a = Some m' ∧
    m_state m' = m_state m ∧ m_sessions m' ⊆ m_sessions m ∧
    ∀ k', k' ∈ m_sessions m → k' ∈ m_sessions m' ∨ sm_Load g' k' = None.
Proof.
  revert w. induction ks as [|k ks IH]; intros w Hw; cbn; [split_and!; [done|done|]; eauto 10|].
  destruct (Delete_machines published buffer o now k w (proj1 Hw)) as (Ei & Ed & Em).
  pose proof (λ k', sm_Load_deletes published buffer o now ks _ k' (sm_Delete_ok published buffer o now k w Hw)) as Hl.
  cbn in Hl.
  specialize (IH (set_g (sm_Delete published buffer o now k (w_g w)) w) (sm_Delete_ok _ _ _ _ _ _ Hw)).
  cbn in IH. destruct IH as (Ei' & Ed' & Em'). split_and!; [by rewrite Ei'|by rewrite Ed'|].
  intros a m Hm. destruct (Em a m Hm) as (m1 & Hm1 & S1 & L1 & G1). destruct (Em' a m1 Hm1) as (m2 & Hm2 & S2 & L2 & G2).
  exists m2. split_and!; [done|congruence|set_solver|]. intros k' Hk'.
  destruct (G1 k' Hk') as [Hin|Hnone]; [auto|right].
  rewrite Hl. case_decide; [done|exact Hnone].
Qed.

(** The session is in the list of the machine registered as [id]. *)
Definition listed (id : string) (g : Gateway) (k : SessionKey) : bool :=
  match g_items g !! id ≫= λ a, g_machines g !! a with
  | Some m => bool_decide (k ∈ m_sessions m)
  | None => false
  end.

Record after_terminate (id : string) (g g' : Gateway) : Prop := {
  at_items : g_items g' = delete id (g_items g);
  at_machine a m : g_items g !! id = Some a → g_machines g !! a = Some m →
    ∃ m', g_machines g' !! a = Some m' ∧ m_state m' = MachineStateTerminated ∧ closed (m_Pool m') = true;
  at_dom : dom (g_machines g') = dom (g_machines g);
  at_load k : sm_Load g' k = if listed id g k then None else sm_Load g k;
  at_other a m : g_machines g !! a = Some m → ∃ m', g_machines g' !! a = Some m' ∧
    m_sessions m' ⊆ m_sessions m ∧ ∀ k, k ∈ m_sessions m → k ∈ m_sessions m' ∨ sm_Load g' k = None;
}.

Lemma terminate_spec published buffer o now id w :
  world_ok w → after_terminate id (w_g w) (terminate published buffer o now id (w_g w)).
Proof.
  intros Hw. unfold terminate, LoadMachine. destruct (g_items (w_g w) !! id) as [a|] eqn:Hid.
  2:{ split; [by rewrite delete_id|congruence|done| |eauto 10]. intros k. unfold listed. by rewrite Hid. }
  set (g1 := upd_machine a (with_mstate MachineStateTerminated) (w_g w)).
  assert (world_ok (set_g g1 w)) as Hw1 by (apply g_le_ok; [by apply upd_machine_le|done]).
  set (ks := match g_machines g1 !! a with Some m => elements (m_sessions m) | None => [] end).
  pose proof (deletes_machines published buffer o now ks _ Hw1) as (Ei & Ed & Em).
  pose proof (λ k, sm_Load_deletes published buffer o now ks _ k Hw1) as Hl. cbn [w_g set_g] in Ei, Ed, Em, Hl.
  set (g2 := foldl _ g1 ks) in *.
  assert (∀ k, sm_Load (DeleteMachine id (upd_machine a (λ m, with_pool (pool_Shutdown (m_Pool m)) m) g2)) k = sm_Load g2 k) as Hld
    by done.
  split; cbn.
  - by rewrite Ei.
  - intros a' m Ha' Hm. replace a' with a in * by congruence.
    destruct (Em a (with_mstate MachineStateTerminated m)) as (m2 & Hm2 & Hs2 & _).
    { cbn. by rewrite lookup_alter_eq, Hm. }
    rewrite lookup_alter_eq, Hm2. eexists. split; [done|]. cbn. split; [by rewrite Hs2|apply Shutdown_closed].
  - rewrite dom_alter_L, Ed. cbn. by rewrite dom_alter_L.
  - intros k. rewrite Hld, Hl. unfold listed. rewrite Hid. cbn.
    assert (ks = match g_machines (w_g w) !! a with Some m => elements (m_sessions m) | None => [] end) as Hks.
    { unfold ks. cbn. rewrite lookup_alter_eq. by destruct (g_machines (w_g w) !! a). }
    rewrite Hks. destruct (g_machines (w_g w) !! a) as [m|].
    + destruct (decide (k ∈ elements (m_sessions m))) as [Hin|Hin]; rewrite elem_of_elements in Hin;
        [by rewrite bool_decide_true|by rewrite bool_decide_false].
    + rewrite decide_False by set_solver. done.
  - intros a' m Hm. assert (∃ m1, g_machines g1 !! a' = Some m1 ∧ m_sessions m1 = m_sessions m) as (m1 & Hm1 & Es).
    { cbn. destruct (decide (a' = a)) as [->|]; [rewrite lookup_alter_eq, Hm|rewrite lookup_alter_ne by done]; eauto. }
    destruct (Em a' m1 Hm1) as (m2 & Hm2 & _ & Hsub & Hg). rewrite Es in Hsub, Hg.
    destruct (decide (a' = a)) as [->|]; [rewrite lookup_alter_eq, Hm2|rewrite lookup_alter_ne by done]; eauto 10.
Qed.

(** What the loop over the expired machines does to one key. *)
Lemma terminates_load published buffer o now ids w k :
  world_ok w →
  let g' := foldl (λ g id, terminate published buffer o now id g) (w_g w) ids in
  (Exists (λ id, listed id (w_g w) k = true) ids → sm_Load g' k = None) ∧
  (Forall (λ id, listed id (w_g w) k = false) ids → sm_Load g' k = sm_Load (w_g w) k) ∧
  (sm_Load (w_g w) k = None → sm_Load g' k = None) ∧
  ∀ id, g_items g' !! id = if decide (id ∈ ids) then None else g_items (w_g w) !! id.
Proof.
  revert w. induction ids as [|id ids IH]; intros w Hw; cbn -[decide].
  { split_and!; [by intros ?%Exists_nil|done|done|]. intros id. by rewrite decide_False by set_solver. }
  destruct (terminate_spec published buffer o now id w Hw) as [Ai Am Ad Al Ao].
  specialize (IH (set_g (terminate published buffer o now id (w_g w)) w) (terminate_ok _ _ _ _ _ _ Hw)).
  cbn [w_g set_g] in IH. set (g1 := terminate published buffer o now id (w_g w)) in *.
  destruct IH as (I1 & I2 & I3 & I4).
  assert (∀ id', id' ≠ id → listed id' (w_g w) k = true → listed id' g1 k = true ∨ sm_Load g1 k = None) as Hstay.
  { intros id' Hne. unfold listed. rewrite Ai, lookup_delete_ne by done. destruct (g_items (w_g w) !! id') as [a|]; [|done].
    cbn. destruct (g_machines (w_g w) !! a) as [m|] eqn:Hm; [|done]. intros Hin%bool_decide_eq_true.
    destruct (Ao a m Hm) as (m' & -> & _ & Hg). destruct (Hg k Hin); [left; by rewrite bool_decide_true|by right]. }
  assert (∀ id', listed id' (w_g w) k = false → listed id' g1 k = false) as Hnot.
  { intros id'. unfold listed. rewrite Ai. destruct (decide (id' = id)) as [->|]; [by rewrite lookup_delete_eq|].
    rewrite lookup_delete_ne by done. destruct (g_items (w_g w) !! id') as [a|]; [|done]. cbn.
    destruct (g_machines (w_g w) !! a) as [m|] eqn:Hm.
    - destruct (Ao a m Hm) as (m' & -> & Hsub & _). intros Hn%bool_decide_eq_false. apply bool_decide_eq_false. set_solver.
    - intros _. destruct (g_machines g1 !! a) as [m'|] eqn:Hm'; [|done]. exfalso.
      apply not_elem_of_dom in Hm. apply elem_of_dom_2 in Hm'. congruence. }
  split_and!.
  - intros [Hx|Hx]%Exists_cons.
    + apply I3. rewrite Al, Hx. done.
    + destruct (decide (listed id (w_g w) k = true)) as [Hx'|Hx']; [apply I3; by rewrite Al, Hx'|].
      apply Exists_exists in Hx as (id' & Hin & Hx). destruct (Hstay id') as [Hs|Hs]; [congruence|done| |].
      * apply I1, Exists_exists. eauto.
      * by apply I3.
  - intros [Hx Hxs]%Forall_cons. rewrite I2, Al, Hx; [done|]. eapply Forall_impl; [exact Hxs|]. auto.
  - intros Hn. apply I3. rewrite Al. by case_match.
  - intros id'. rewrite I4, Ai. destruct (decide (id' ∈ ids)) as [Hin|Hin].
    + by rewrite decide_True by (by right).
    + destruct (decide (id' = id)) as [->|Hne].
      * by rewrite lookup_delete_eq, decide_True by left.
      * rewrite lookup_delete_ne by done. rewrite decide_False; [done|]. by rewrite not_elem_of_cons.
Qed.

Lemma expired_ids ord threshold g id :
  id ∈ (filter (λ '(_, a), m_expired threshold <$> g_machines g !! a = Some true)
          (range_map ord (g_items g))).*1 ↔
  ∃ a m, g_items g !! id = Some a ∧ g_machines g !! a = Some m ∧ m_expired threshold m = true.
Proof.
  rewrite list_elem_of_fmap. split.
  - intros ([id' a] & -> & [Hx Hin]%list_elem_of_filter). apply elem_of_range_map in Hin.
    apply fmap_Some in Hx as (m & Hm & ?). cbn. eauto.
  - intros (a & m & Hi & Hm & Hx). exists (id, a). split; [done|]. apply list_elem_of_filter.
    rewrite elem_of_range_map. split; [by rewrite Hm, <-Hx|done].
Qed.

(** The clean-up of machines removes from the registry exactly those
    whose last heartbeat is older than the time-out; every session such a
    machine lists is removed from the session table, and no other session
    is. *)
Theorem machine_cleanup_exact published buffer o ord now timeout w :
  rtc w_step new_world w →
  let g := w_g w in
  let g' := cleanupMachines published buffer o ord now timeout g in
  let expired id := ∃ a m, g_items g !! id = Some a ∧ g_machines g !! a = Some m ∧
    m_expired (UnixMilli (now - timeout)) m = true in
  (∀ id, expired id → LoadMachine g' id = None) ∧
  (∀ id, ¬ expired id → LoadMachine g' id = LoadMachine g id) ∧
  (∀ k id, expired id → listed id g k = true → sm_Load g' k = None) ∧
  (∀ k, (∀ id, expired id → listed id g k = false) → sm_Load g' k = sm_Load g k).
Proof.
  intros Hw%w_reachable_ok g g' expired. unfold g', cleanupMachines.
  set (ids := (filter _ _).*1).
  assert (∀ id, id ∈ ids ↔ expired id) as Hids by (intros; apply expired_ids).
  pose proof (λ k, terminates_load published buffer o now ids w k Hw) as Hl. cbn -[decide] in Hl.
  unfold LoadMachine. split_and!.
  - intros id Hx%Hids. destruct (Hl []) as (_ & _ & _ & Hi). unfold g. by rewrite Hi, decide_True.
  - intros id Hx. destruct (Hl []) as (_ & _ & _ & Hi). unfold g. rewrite Hi, decide_False; [done|].
    by rewrite Hids.
  - intros k id Hx%Hids Hk. destruct (Hl k) as (I1 & _). apply I1, Exists_exists. eauto.
  - intros k Hk. destruct (Hl k) as (_ & I2 & _). apply I2, Forall_forall. intros id Hin. by apply Hk, Hids.
Qed.

(** The invariant of the loop in [LeastSessions]. *)
Definition least_inv (l : list (nat * Machine)) (best : option nat * Z) : Prop :=
  match best.1 with
  | Some a => ∃ m, (a, m) ∈ l ∧ m_state m = MachineStateActive ∧ best.2 = m_Sessions m ∧
      ∀ a' m', (a', m') ∈ l → m_state m' = MachineStateActive → m_Sessions m ≤ m_Sessions m'
  | None => best.2 = 2 ^ 31 - 1 ∧ ∀ a' m', (a', m') ∈ l → m_state m' ≠ MachineStateActive
  end.

Lemma elem_of_snoc_cases (P : Prop) (l : list (nat * Machine)) a m a' m' :
  (a', m') ∈ l ++ [(a, m)] → ((a', m') ∈ l → P) → (a' = a → m' = m → P) → P.
Proof.
  intros Hin H1 H2. apply elem_of_app in Hin as [Hin|Hin]; [auto|].
  apply list_elem_of_singleton in Hin. injection Hin as -> ->. auto.
Qed.

Lemma least_step_inv l a m best :
  m_Sessions m < 2 ^ 31 - 1 → least_inv l best → least_inv (l ++ [(a, m)]) (least_step best (a, m)).
Proof.
  intros Hlt. destruct best as [[b|] z]; unfold least_inv, least_step; cbn.
  - intros (mb & Hb & Hact & -> & Hmin). case_decide as Hst; [|case_decide as Hz]; cbn.
    + exists mb. split_and!; [apply elem_of_app; by left|done..|]. intros a' m' Hin Ha.
      eapply elem_of_snoc_cases; [exact Hin|eauto|]. congruence.
    + exists m. split_and!; [apply elem_of_app; right; by left|done|done|].
      intros a' m' Hin Ha. eapply elem_of_snoc_cases; [exact Hin| |by intros -> ->].
      intros Hl. specialize (Hmin _ _ Hl Ha). lia.
    + exists mb. split_and!; [apply elem_of_app; by left|done..|]. intros a' m' Hin Ha.
      eapply elem_of_snoc_cases; [exact Hin|eauto|]. intros -> ->. lia.
  - intros [-> Hnone]. case_decide as Hst; cbn.
    + split; [done|]. intros a' m' Hin. eapply elem_of_snoc_cases; [exact Hin|eauto|]. by intros -> ->.
    + rewrite decide_True by lia. cbn. exists m.
      split_and!; [apply elem_of_app; right; by left|done|done|].
      intros a' m' Hin Ha. eapply elem_of_snoc_cases; [exact Hin| |by intros -> ->].
      intros Hl. by destruct (Hnone _ _ Hl).
Qed.

Lemma least_fold_inv l :
  (∀ a m, (a, m) ∈ l → m_Sessions m < 2 ^ 31 - 1) → least_inv l (foldl least_step (None, 2 ^ 31 - 1) l).
Proof.
  induction l as [|[a m] l IH] using rev_ind; intros Hs.
  - cbn. split; [done|]. by intros ? ? ?%elem_of_nil.
  - rewrite foldl_snoc. apply least_step_inv.
    + apply (Hs a). apply elem_of_app. right. by left.
    + apply IH. intros a' m' Hin. apply (Hs a'). apply elem_of_app. by left.
Qed.

(** A new session goes to a machine with the fewest sessions: whatever
    order the registry is visited in, [LeastSessions] returns an active
    registered machine that no active registered machine undercuts, and
    returns none only when no machine is active (list lengths below the
    32-bit limit). *)
Theorem LeastSessions_is_least ord g :
  (∀ a m, g_machines g !! a = Some m → Z.of_nat (size (m_sessions m)) < 2 ^ 31 - 1) →
  match LeastSessions ord g with
  | Some a => ∃ m, (a, m) ∈ machine_list ord g ∧ m_state m = MachineStateActive ∧
      ∀ a' m', (a', m') ∈ machine_list ord g → m_state m' = MachineStateActive →
        (size (m_sessions m) ≤ size (m_sessions m'))%nat
  | None => ∀ a' m', (a', m') ∈ machine_list ord g → m_state m' ≠ MachineStateActive
  end.
Proof.
  intros Hsmall. unfold LeastSessions.
  assert (∀ a m, (a, m) ∈ machine_list ord g → m_Sessions m = Z.of_nat (size (m_sessions m)) ∧ m_Sessions m < 2 ^ 31 - 1) as Hs.
  { intros a m ([id a'] & Hin & Hx)%list_elem_of_omap. apply fmap_Some in Hx as (m' & Hm & [= <- <-]).
    specialize (Hsmall _ _ Hm). unfold m_Sessions. rewrite int32_small; lia. }
  pose proof (least_fold_inv (machine_list ord g) (λ a m Hin, proj2 (Hs a m Hin))) as Hinv.
  unfold least_inv in Hinv. destruct (foldl _ _ _).1 as [a|].
  - destruct Hinv as (m & Hin & Ha & _ & Hmin). exists m. split_and!; [done..|]. intros a' m' Hin' Ha'.
    specialize (Hmin _ _ Hin' Ha'). destruct (Hs _ _ Hin), (Hs _ _ Hin'). lia.
  - by destruct Hinv.
Qed.

Lemma UnmarshalHeader_wire q t e body :
  Z.of_nat (length body) < 2 ^ 32 →
  UnmarshalHeader q (wire t e body) =
    (mkPacket t e (Z.of_nat (length body)) (Payload q) (header q), None).
Proof.
  intros Hsz. unfold UnmarshalHeader, wire. rewrite decide_False by (unfold PacketHeaderSize; cbn; lia).
  rewrite decide_False by (unfold nthb; cbn; naive_solver).
  unfold nthb. cbn -[Uint32 Z.of_nat PacketHeaderSize]. rewrite Uint32_PutUint32, uint32_small by lia.
  rewrite decide_False; [done|]. unfold PacketHeaderSize. cbn [Protocol.Size]. lia.
Qed.

(** A close frame from the machine ends the session without an echo: the
    session is removed and marked closed, its client (if any) is
    disconnected, and nothing is sent back to the machine. *)
Theorem machine_close_is_quiet published buffer o now k data w a s :
  rtc w_step new_world w → sm_Load (w_g w) k = Some a → g_sessions (w_g w) !! a = Some s →
  valid_frame data → nthb data 2 = TypeClose →
  let g' := DispatchMessage published buffer o now k data (w_g w) in
  sm_Load g' k = None ∧ s_state <$> g_sessions g' !! a = Some SessionClosed ∧
  g_wire g' = g_wire (w_g w) ++ match s_client s with Some c => [CloseClient c] | None => [] end.
Proof.
  intros Hw%w_reachable_ok Hk Hs Hf Hty g'. unfold g', DispatchMessage. rewrite Hk. cbn. rewrite Hs. cbn.
  destruct Hf as (t & e & body & -> & Hsz). rewrite UnmarshalHeader_wire by done. cbn in Hty |- *.
  rewrite decide_True by done.
  set (g1 := close_client s (upd_session a (set_sstate SessionClosed) (w_g w))).
  assert (g_le (w_g w) g1) as Hle.
  { etrans; [apply (upd_session_le a (set_sstate SessionClosed)); by intros|].
    apply wire_le. unfold g1, close_client. destruct (s_client s); [by eexists|apply wire_refl]. }
  pose proof (g_le_ok w g1 Hle Hw) as Hw1.
  assert (sm_Load g1 k = Some a) as Hk1 by (unfold sm_Load; by rewrite (le_shards _ _ Hle)).
  assert (g_sessions g1 !! a = Some (set_sstate SessionClosed s)) as Hs1.
  { unfold g1, close_client. destruct (s_client s); cbn; by rewrite lookup_alter_eq, Hs. }
  destruct (sm_Delete_cases published buffer o now k (set_g g1 w) (proj1 Hw1))
    as [[? _]|(a' & s' & ma & g2 & Hk' & Hs' & _ & _ & Hg2 & E)]; cbn in *; [congruence|].
  assert (g2 = g1) as ->.
  { replace a' with a in * by congruence. subst g2. unfold s_Close. rewrite Hs1. by rewrite decide_True. }
  rewrite E. split_and!.
  - rewrite sm_Load_forget by (rewrite (le_shards _ _ Hle); apply (t_wf w (proj1 Hw))). by rewrite decide_True.
  - cbn. by rewrite Hs1.
  - cbn. unfold g1, close_client. destruct (s_client s); [done|by rewrite app_nil_r].
Qed.

(** ** A concrete gateway *)

(** One machine, one active connection, one session. *)
Definition demo_key : SessionKey := [1;2;3;4;5;6;7;8;9;10;11;12;13;14;15;16].
Definition demo_server : ServerConfig := mkServerConfig 0 0 0 0 0 0 0.
Definition on_pool (f : Pool → Pool) (w : world) : world :=
  set_g (upd_machine 0 (λ m, with_pool (f (m_Pool m)) m) (w_g w)) w.

Definition demo_registered : world :=
  set_g (HandleRegister true true demo_server (10 ^ 9) 0 "m" "h" "" "" None (w_g new_world)).1 new_world.
Definition demo_dial : world := on_pool (startDial default_order) demo_registered.
Definition demo_up : world := on_pool (λ p, set_conns p (<[0%nat := ConnectionActive]> (conns p))) demo_dial.
Definition demo_ready : world := on_pool (syncConnectionState default_order 0) demo_up.
Definition demo_bound_world : world :=
  let '(g, b, ok) := create_bind 0 demo_key (w_g demo_ready) in
  mkWorld g ({[demo_key]} ∪ w_used demo_ready)
    (if ok then <[demo_key := (0%nat, b)]> (w_store demo_ready) else w_store demo_ready)
    (w_add demo_ready) (w_admitted demo_ready) (w_connected demo_ready).
Definition demo_stored : world :=
  mkWorld (create_store (10 ^ 9) 0 demo_key (Some 0%nat) (w_g demo_bound_world)) (w_used demo_bound_world)
    (delete demo_key (w_store demo_bound_world)) (<[demo_key := 0%nat]> (w_add demo_bound_world))
    (w_admitted demo_bound_world) (w_connected demo_bound_world).
Definition list_session (w : world) : world :=
  mkWorld (create_add 0 demo_key (w_g w)) (w_used w) (w_store w) (delete demo_key (w_add w))
    (w_admitted w) (w_connected w).
Definition demo_created : world := list_session demo_stored.
Definition demo_admitted : world :=
  mkWorld (HandleRealtime true (Some demo_key) (w_g demo_created)).1 (w_used demo_created) (w_store demo_created)
    (w_add demo_created) ({[0%nat]} ∪ w_admitted demo_created) (w_connected demo_created).

Lemma on_pool_step f (w : world) (P : Pool → bool) :
  (∀ p, P p = true → background p (f p)) →
  (λ m, P (m_Pool m)) <$> g_machines (w_g w) !! 0%nat = Some true →
  w_step w (on_pool f w).
Proof. intros Hf Hm. apply ws_pool. intros m Hm'. rewrite Hm' in Hm. injection Hm as Hm. auto. Qed.

Lemma demo_bound_reachable_w : rtc w_step new_world demo_bound_world.
Proof.
  eapply rtc_l; [apply ws_register|]. fold demo_registered.
  eapply rtc_l; [apply (on_pool_step (startDial default_order) demo_registered (λ p, bool_decide (0 < dialing p)%nat))|].
  { intros p Hp%bool_decide_eq_true. by constructor. }
  { vm_compute. reflexivity. }
  eapply rtc_l; [apply (on_pool_step (λ p, set_conns p (<[0%nat := ConnectionActive]> (conns p))) demo_dial
    (λ p, bool_decide (State p 0 = ConnectionConnecting)))|].
  { intros p Hp%bool_decide_eq_true. constructor. rewrite Hp. constructor. }
  { vm_compute. reflexivity. }
  eapply rtc_l; [apply (on_pool_step (syncConnectionState default_order 0) demo_up (λ _, true))|].
  { intros p _. constructor. }
  { vm_compute. reflexivity. }
  apply rtc_once. fold demo_ready. unfold demo_bound_world.
  destruct (create_bind 0 demo_key (w_g demo_ready)) as [[g b] ok] eqn:E.
  apply ws_bind; [|vm_compute; eauto|exact E].
  apply (proj1 (bool_decide_eq_false (demo_key ∈ w_used demo_ready))). vm_compute. reflexivity.
Qed.

Lemma demo_stored_reachable : rtc w_step new_world demo_stored.
Proof.
  eapply rtc_r; [apply demo_bound_reachable_w|]. apply ws_store. vm_compute. reflexivity.
Qed.

Lemma demo_created_reachable : rtc w_step new_world demo_created.
Proof. eapply rtc_r; [apply demo_stored_reachable|]. apply ws_add. vm_compute. reflexivity. Qed.

Lemma demo_admitted_reachable : rtc w_step new_world demo_admitted.
Proof.
  eapply rtc_r; [apply demo_created_reachable|]. unfold demo_admitted.
  destruct (HandleRealtime true (Some demo_key) (w_g demo_created)) as [g r] eqn:E.
  assert (r = Ok 0%nat) as ->.
  { assert ((HandleRealtime true (Some demo_key) (w_g demo_created)).2 = Ok 0%nat) as H by (vm_compute; reflexivity).
    by rewrite E in H. }
  pose proof (ws_realtime demo_created true (Some demo_key) g (Ok 0%nat) E) as Hst. exact Hst.
Qed.

Definition no_socket : nat → nat → option nat := λ _ _, None.

Lemma gateway_tables_consistent_witness :
  sm_Count default_order (w_g demo_created) = 1 ∧ g_active (w_g demo_created) = 1.
Proof.
  destruct (gateway_tables_consistent demo_created demo_created_reachable) as [H _].
  rewrite H. split; vm_compute; reflexivity.
Defined.

Lemma one_client_per_session_witness :
  HandleRealtime true (Some demo_key) (w_g demo_admitted) = (w_g demo_admitted, Err ErrSessionConnected).
Proof.
  apply (one_client_per_session demo_admitted true demo_key 0 demo_admitted_reachable).
  - vm_compute. reflexivity.
  - left. apply elem_of_union_l, elem_of_singleton. reflexivity.
Defined.

Lemma session_cleanup_exact_witness :
  sm_Load (sm_cleanup no_socket nil_slice default_order default_order (10 ^ 12) (10 ^ 9) (w_g demo_created)) demo_key
  = None.
Proof.
  etransitivity; [apply (session_cleanup_exact _ _ _ _ _ _ demo_created demo_key demo_created_reachable)|].
  vm_compute. reflexivity.
Defined.

Lemma machine_cleanup_exact_witness :
  LoadMachine (cleanupMachines no_socket nil_slice default_order default_order (10 ^ 12) (10 ^ 9) (w_g demo_created))
    "m" = None.
Proof.
  refine (proj1 (machine_cleanup_exact no_socket nil_slice default_order default_order (10 ^ 12) (10 ^ 9)
    demo_created demo_created_reachable) "m"%string _).
  assert (m_expired (UnixMilli (10 ^ 12 - 10 ^ 9)) <$> g_machines (w_g demo_created) !! 0%nat = Some true) as H
    by (vm_compute; reflexivity).
  apply fmap_Some in H as (m & Hm & Hx). exists 0%nat, m. split; [vm_compute; reflexivity|]. auto.
Defined.

Lemma LeastSessions_is_least_witness :
  LeastSessions default_order (w_g demo_created) = Some 0%nat ∧
  match LeastSessions default_order (w_g demo_created) with Some _ => True | None => False end.
Proof.
  assert (LeastSessions default_order (w_g demo_created) = Some 0%nat) as E by (vm_compute; reflexivity).
  split; [exact E|].
  pose proof (LeastSessions_is_least default_order (w_g demo_created)) as H. rewrite E in H.
  destruct H as (m & _); [|exact I].
  intros a m Hm. assert (map_Forall (λ _ m, Z.of_nat (size (m_sessions m)) < 2 ^ 31 - 1) (g_machines (w_g demo_created))) as HF.
  { eapply bool_decide_eq_true_1. vm_compute. reflexivity. }
  exact (HF a m Hm).
Defined.

Lemma machine_close_is_quiet_witness :
  sm_Load (DispatchMessage no_socket nil_slice default_order 0 demo_key (Protocol.wire TypeClose 0 []) (w_g demo_created))
    demo_key = None.
Proof.
  assert (is_Some (g_sessions (w_g demo_created) !! 0%nat)) as [s Hs] by (vm_compute; eauto).
  apply (machine_close_is_quiet no_socket nil_slice default_order 0 demo_key (Protocol.wire TypeClose 0 []) demo_created 0 s
    demo_created_reachable); [vm_compute; reflexivity|exact Hs| |reflexivity].
  exists TypeClose, 0, []. split; [reflexivity|]. vm_compute. reflexivity.
Defined.

(** A session deleted between the last two steps of its creation is listed
    by its machine for good: nothing is under way any more, the session is
    gone, and the machine still counts it. *)
Theorem late_listing_leaks :
  ∃ w, rtc w_step new_world w ∧ w_store w = ∅ ∧ w_add w = ∅ ∧
    sm_Load (w_g w) demo_key = None ∧
    (λ m, bool_decide (demo_key ∈ m_sessions m)) <$> g_machines (w_g w) !! 0%nat = Some true.
Proof.
  exists (list_session (set_g (HandleSessionDelete no_socket nil_slice default_order 0 (Some demo_key)
    (Some (mkAnswer StatusOK None)) (w_g demo_stored)).1 demo_stored)).
  split; [|vm_compute; by split_and!].
  eapply rtc_r; [eapply rtc_r; [apply demo_stored_reachable|apply ws_delete]|].
  apply ws_add. vm_compute. reflexivity.
Qed.
