(* ===== verification/MachinePool.v ===== *)
(** * The machine's side of the connection pool: internal/machine/pool.go

    A worker machine accepts the gateway's pool connections and answers each
    session on one of them.  [ConnectionManager] keeps the accepted
    connections in a heap by load; a session is assigned to the least loaded
    active connection on its first packet and stays there until the session
    or the connection goes away.

    Connections are addresses, with the state their WebSocket callbacks
    change at any time; the fields of a [heapConnection] are kept under the
    address of its connection, and its field [index], which only the heap
    writes, in the column [idx].  Each method body that holds the mutex is
    one atomic operation. *)

From S2P Require Import Prelude.
From S2P Require Import Protocol.
From S2P Require Import Heap.
From S2P Require Import IndexedHeap.

Open Scope Z_scope.

Section machine_pool.
Context {Key : Type} `{Countable Key}.

(** ** The heap *)
Record heapConnection := mkItem { id : Z; load : Z; sessions : gset Key }.
#[export] Instance heapConnection_inhabited : Inhabited heapConnection := populate (mkItem 0 0 ∅).

Record connectionMinHeap := mkHeap {
  queue : list nat; idx : gmap nat Z; items : gmap nat heapConnection;
}.

Definition heap_Less (h : connectionMinHeap) (i j : nat) : bool :=
  let a := items h !!! (queue h !!! i) in
  let b := items h !!! (queue h !!! j) in
  if decide (load a ≠ load b) then load a <? load b else id a <? id b.

Definition heap_Swap (h : connectionMinHeap) (i j : nat) : connectionMinHeap :=
  match queue h !! i, queue h !! j with
  | Some a, Some b =>
    mkHeap (list_swap i j (queue h)) (<[a := Z.of_nat j]> (<[b := Z.of_nat i]> (idx h))) (items h)
  | _, _ => h
  end.

#[export] Instance machineHeap_interface : HeapInterface connectionMinHeap := {
  Len h := length (queue h);
  Less := heap_Less;
  Swap := heap_Swap;
}.

Definition heap_push (h : connectionMinHeap) (c : nat) : connectionMinHeap :=
  mkHeap (queue h ++ [c]) (<[c := Z.of_nat (length (queue h))]> (idx h)) (items h).
Definition heap_pop (h : connectionMinHeap) : connectionMinHeap * option nat :=
  let last := (length (queue h) - 1)%nat in
  match queue h !! last with
  | Some c => (mkHeap (take last (queue h)) (<[c := -1]> (idx h)) (items h), Some c)
  | None => (h, None)
  end.

Definition rank (it : heapConnection) : Z * Z := (load it, id it).
Definition rank_leb (a b : Z * Z) : bool := if decide (a.1 = b.1) then a.2 <=? b.2 else a.1 <? b.1.
Definition item_rank (its : gmap nat heapConnection) (c : nat) : Z * Z := rank (its !!! c).

#[export] Instance machineHeap_indexed :
  IndexedHeap connectionMinHeap (gmap nat heapConnection) (Z * Z) queue idx items item_rank rank_leb.
Proof.
  split.
  - done.
  - intros h i j a b Ha Hb. cbn. unfold heap_Less. rewrite (list_lookup_total_correct _ _ _ Ha),
      (list_lookup_total_correct _ _ _ Hb). unfold item_rank, rank, rank_leb. cbn. repeat case_decide; lia.
  - intros h i j a b Ha Hb. cbn. unfold heap_Swap. by rewrite Ha, Hb.
  - intros [l1 i1] [l2 i2]. unfold rank_leb. cbn. repeat case_decide; lia.
  - intros [l1 i1] [l2 i2] [l3 i3]. unfold rank_leb. cbn. repeat case_decide; lia.
Qed.

(** ** The manager *)
Record ConnectionManager := mkManager {
  nextID : Z;
  connections : gset nat;
  routes : gmap Key nat;
  active : connectionMinHeap;
  connectionsActive : Z;   (* machinePoolMetrics *)
  sessionsRouted : Z;
  conns : gmap nat ConnectionState; (* Connection.state *)
}.
Implicit Types m : ConnectionManager.

Definition NewConnectionManager : ConnectionManager := mkManager 0 ∅ ∅ (mkHeap [] ∅ ∅) 0 0 ∅.

Definition State m (c : nat) : ConnectionState := default ConnectionUnknown (conns m !! c).
Definition item m (c : nat) : heapConnection := items (active m) !!! c.

Definition set_active m h := mkManager (nextID m) (connections m) (routes m) h
  (connectionsActive m) (sessionsRouted m) (conns m).
Definition set_routes m r n := mkManager (nextID m) (connections m) r (active m)
  (connectionsActive m) n (conns m).
Definition set_state (c : nat) st m := mkManager (nextID m) (connections m) (routes m) (active m)
  (connectionsActive m) (sessionsRouted m) (<[c := st]> (conns m)).
Definition upd_item (c : nat) (f : heapConnection → heapConnection) m : ConnectionManager :=
  set_active m (mkHeap (queue (active m)) (idx (active m)) (alter f c (items (active m)))).
Definition fix_item (c : nat) m : ConnectionManager :=
  set_active m (Fix (active m) (Z.to_nat (idx (active m) !!! c))).

Definition Store (c : nat) m : ConnectionManager :=
  if decide (c ∈ connections m) then m
  else
    let n := uint64 (nextID m + 1) in
    let h := active m in
    mkManager n ({[c]} ∪ connections m) (routes m)
      (heap_Push heap_push (mkHeap (queue h) (idx h) (<[c := mkItem n 0 ∅]> (items h))) c)
      (connectionsActive m + 1) (sessionsRouted m) (conns m).

(** The loop over [item.sessions]; its rounds commute. *)
Definition drop_route (c : nat) (key : Key) m : ConnectionManager :=
  if decide (routes m !! key = Some c) then set_routes m (delete key (routes m)) (sessionsRouted m - 1) else m.

Definition removeConnectionLocked (c : nat) m : ConnectionManager :=
  if decide (c ∉ connections m) then m
  else
    let i := idx (active m) !!! c in
    let m := mkManager (nextID m) (connections m ∖ {[c]}) (routes m)
               (if decide (0 ≤ i) then (heap_Remove heap_pop (active m) (Z.to_nat i)).1 else active m)
               (connectionsActive m - 1) (sessionsRouted m) (conns m) in
    let m := foldr (drop_route c) m (elements (sessions (item m c))) in
    upd_item c (λ it, mkItem (id it) (load it) ∅) m.

Definition Remove (c : nat) m : ConnectionManager :=
  if decide (c ∈ connections m) then removeConnectionLocked c m else m.

Definition releaseLocked (key : Key) (c : nat) m : ConnectionManager :=
  if decide (routes m !! key ≠ Some c) then m
  else
    let m := set_routes m (delete key (routes m)) (sessionsRouted m) in
    let m := upd_item c (λ it, mkItem (id it) (load it) (sessions it ∖ {[key]})) m in
    if decide (0 < load (item m c)) then
      let m := upd_item c (λ it, mkItem (id it) (load it - 1) (sessions it)) m in
      fix_item c (set_routes m (routes m) (sessionsRouted m - 1))
    else m.

Definition Release (key : Key) m : ConnectionManager :=
  match routes m !! key with
  | None => m
  | Some c => releaseLocked key c m
  end.

(** The body of the loop of [Select] for a usable root. *)
Definition assign (key : Key) (c : nat) m : ConnectionManager :=
  let m := set_routes m (<[key := c]> (routes m)) (sessionsRouted m) in
  let m := upd_item c (λ it, mkItem (id it) (load it + 1) ({[key]} ∪ sessions it)) m in
  fix_item c (set_routes m (routes m) (sessionsRouted m + 1)).

Fixpoint select_loop (fuel : nat) (key : Key) m : ConnectionManager * option nat :=
  match fuel with
  | O => (m, None)
  | S fuel =>
    match queue (active m) !! 0%nat with
    | None => (m, None)
    | Some c =>
      if decide (State m c ≠ ConnectionActive) then select_loop fuel key (removeConnectionLocked c m)
      else (assign key c m, Some c)
    end
  end.

(** Every round of the loop but the last removes a connection, so one more
    round than there are connections is enough. *)
Definition select_fuel m : nat := S (length (queue (active m))).

Definition Select (key : Key) m : ConnectionManager * option nat :=
  match routes m !! key with
  | Some c =>
    if decide (State m c = ConnectionActive) then (m, Some c)
    else let m := removeConnectionLocked c m in select_loop (select_fuel m) key m
  | None => select_loop (select_fuel m) key m
  end.

Definition Lookup (key : Key) m : ConnectionManager * option nat :=
  match routes m !! key with
  | None => (m, None)
  | Some c =>
    if decide (State m c = ConnectionActive) then (m, Some c) else (removeConnectionLocked c m, None)
  end.

(** [onSessionDelete]: [ok c] says whether a write on connection [c]
    succeeds; the connections written to are returned. *)
Definition onSessionDelete (ok : nat → bool) (key : Key) m : ConnectionManager * list nat :=
  let '(m, conn) := match Lookup key m with
                    | (m, Some c) => (m, Some c)
                    | (m, None) => Select key m
                    end in
  match conn with
  | None => (Release key m, [])
  | Some c =>
    if ok c then (Release key m, [c])
    else
      let '(m, conn) := Select key (Remove c m) in
      match conn with
      | None => (Release key m, [c])
      | Some c' =>
        if ok c' then (Release key m, [c; c'])
        else (Release key (Remove c' m), [c; c'])
      end
  end.

(** The callbacks of a connection: the state is stored before the manager is
    told. *)
Definition OnOpen_state (c : nat) m : ConnectionManager := set_state c ConnectionActive m.
Definition OnClose_state (c : nat) m : ConnectionManager := set_state c ConnectionClosed m.

(** ** The invariant *)
Record pool_ok m : Prop := {
  pk_some c : c ∈ connections m → is_Some (items (active m) !! c);
  pk_load c : c ∈ connections m → load (item m c) = Z.of_nat (size (sessions (item m c)));
  pk_sess c k : c ∈ connections m → k ∈ sessions (item m c) ↔ routes m !! k = Some c;
  pk_route k c : routes m !! k = Some c → c ∈ connections m;
  pk_active : connectionsActive m = Z.of_nat (size (connections m));
  pk_routed : sessionsRouted m = Z.of_nat (size (routes m));
  pk_idx : indexed queue idx (active m);
  pk_heap : heap_ordered queue items item_rank rank_leb (active m);
  pk_elem c : c ∈ queue (active m) ↔ c ∈ connections m;
}.

Lemma new_ok : pool_ok NewConnectionManager.
Proof.
  split; cbn; try set_solver; try done. split; [constructor|done].
Qed.

Lemma mp_item_upd c f m c' :
  is_Some (items (active m) !! c) → item (upd_item c f m) c' = if decide (c' = c) then f (item m c) else item m c'.
Proof.
  intros [it Hit]. unfold item. cbn. case_decide; subst; [|by apply lookup_total_alter_ne].
  rewrite !lookup_total_alt, lookup_alter_eq, Hit. done.
Qed.

(** Changing one pooled item and restoring the heap. *)
Lemma refit c f m :
  pool_ok m → c ∈ connections m →
  let h := mkHeap (queue (active m)) (idx (active m)) (alter f c (items (active m))) in
  let h' := Fix h (Z.to_nat (idx h !!! c)) in
  indexed queue idx h' ∧ heap_ordered queue items item_rank rank_leb h' ∧
  queue h' ≡ₚ queue (active m) ∧ items h' = alter f c (items (active m)).
Proof.
  intros Hok Hc h. apply (Fix_indexed queue idx items item_rank rank_leb (active m) h c); try done.
  - apply (pk_idx m Hok).
  - apply (pk_heap m Hok).
  - by apply (pk_elem m Hok).
  - intros c' Hne. unfold item_rank. cbn. by rewrite lookup_total_alter_ne.
Qed.

(** The books after the items changed at [c] only and the heap was restored. *)
Lemma refit_ok c f m r n :
  pool_ok m → c ∈ connections m →
  let h := mkHeap (queue (active m)) (idx (active m)) (alter f c (items (active m))) in
  (load (f (item m c)) = Z.of_nat (size (sessions (f (item m c))))) →
  (∀ k, k ∈ sessions (f (item m c)) ↔ r !! k = Some c) →
  (∀ k c', c' ≠ c → r !! k = Some c' ↔ routes m !! k = Some c') →
  n = Z.of_nat (size r) →
  pool_ok (mkManager (nextID m) (connections m) r (Fix h (Z.to_nat (idx h !!! c)))
    (connectionsActive m) n (conns m)).
Proof.
  intros Hok Hc h Hload Hsess Hother Hn. destruct (refit c f m Hok Hc) as (Hx & Hh & Hq & Hit). fold h in Hx, Hh, Hq, Hit.
  set (h' := Fix h (Z.to_nat (idx h !!! c))) in *. clearbody h'. clear h.
  assert (∀ c', items h' !!! c' = if decide (c' = c) then f (item m c) else item m c') as Hitem.
  { intros c'. rewrite Hit. apply (mp_item_upd c f m c'). by apply (pk_some m Hok). }
  split; cbn; unfold item; cbn.
  - intros c' Hc'. rewrite Hit. destruct (decide (c' = c)) as [->|].
    + rewrite lookup_alter_eq, fmap_is_Some. by apply (pk_some m Hok).
    + rewrite lookup_alter_ne by done. by apply (pk_some m Hok).
  - intros c' Hc'. rewrite Hitem. case_decide; [done|]. by apply (pk_load m Hok).
  - intros c' k Hc'. rewrite Hitem. case_decide as Hcc; [subst; apply Hsess|].
    rewrite Hother by done. by apply (pk_sess m Hok).
  - intros k c' Hk. destruct (decide (c' = c)) as [->|]; [done|]. eapply (pk_route m Hok), Hother; eauto.
  - apply (pk_active m Hok).
  - done.
  - done.
  - done.
  - intros c'. rewrite Hq. apply (pk_elem m Hok).
Qed.

Lemma assign_ok key c m :
  pool_ok m → c ∈ connections m → routes m !! key = None → pool_ok (assign key c m).
Proof.
  intros Hok Hc Hk. assert (key ∉ sessions (item m c)) as Hn.
  { rewrite (pk_sess m Hok) by done. congruence. }
  apply (refit_ok c (λ it, mkItem (id it) (load it + 1) ({[key]} ∪ sessions it)) m
    (<[key := c]> (routes m)) (sessionsRouted m + 1) Hok Hc); cbn.
  - rewrite (pk_load m Hok) by done. rewrite size_union by set_solver. rewrite size_singleton. lia.
  - intros k. rewrite elem_of_union, elem_of_singleton, (pk_sess m Hok) by done.
    destruct (decide (k = key)) as [->|]; [rewrite lookup_insert_eq|rewrite lookup_insert_ne by done]; naive_solver.
  - intros k c' Hne. destruct (decide (k = key)) as [->|]; [rewrite lookup_insert_eq|by rewrite lookup_insert_ne].
    naive_solver.
  - rewrite (pk_routed m Hok), map_size_insert_None by done. lia.
Qed.

Lemma release_ok key c m : pool_ok m → pool_ok (releaseLocked key c m).
Proof.
  intros Hok. unfold releaseLocked. case_decide as Hr; [done|].
  pose proof (pk_route m Hok _ _ Hr) as Hc. cbv zeta.
  assert (key ∈ sessions (item m c)) as Hin by (by apply (pk_sess m Hok)).
  pose proof (pk_some m Hok c Hc) as Hsome. pose proof (pk_load m Hok c Hc) as Hl.
  assert (0 < Z.of_nat (size (sessions (item m c)))) as Hpos.
  { assert (size ({[key]} : gset Key) ≤ size (sessions (item m c)))%nat by (apply subseteq_size; set_solver).
    rewrite size_singleton in *. lia. }
  rewrite decide_True.
  2:{ rewrite mp_item_upd by done. rewrite decide_True by done. cbn. change (item (set_routes _ _ _) c) with (item m c). lia. }
  pose proof (refit_ok c (λ it, mkItem (id it) (load it - 1) (sessions it ∖ {[key]})) m
    (delete key (routes m)) (sessionsRouted m - 1) Hok Hc) as Hfit. cbn in Hfit.
  unfold fix_item, upd_item, set_active, set_routes. cbn.
  replace (alter (λ it, mkItem (id it) (load it - 1) (sessions it)) c
    (alter (λ it, mkItem (id it) (load it) (sessions it ∖ {[key]})) c (items (active m))))
    with (alter (λ it, mkItem (id it) (load it - 1) (sessions it ∖ {[key]})) c (items (active m))).
  2:{ apply map_eq. intros c'. destruct (decide (c' = c)) as [->|]; [|by rewrite !lookup_alter_ne].
      rewrite !lookup_alter_eq. by destruct (items (active m) !! c). }
  apply Hfit.
  - rewrite size_difference by set_solver. rewrite size_singleton. lia.
  - intros k. rewrite elem_of_difference, elem_of_singleton, (pk_sess m Hok) by done.
    destruct (decide (k = key)) as [->|]; [rewrite lookup_delete_eq|rewrite lookup_delete_ne by done]; naive_solver.
  - intros k c' Hne. destruct (decide (k = key)) as [->|]; [rewrite lookup_delete_eq|by rewrite lookup_delete_ne].
    naive_solver.
  - rewrite (pk_routed m Hok), (map_size_delete_Some key) by eauto.
    assert (0 < size (routes m))%nat; [|lia].
    apply Nat.neq_0_lt_0. rewrite map_size_non_empty_iff. intros He. by rewrite He in Hr.
Qed.

Lemma Store_ok c m : pool_ok m → pool_ok (Store c m).
Proof.
  intros Hok. unfold Store. case_decide as Hc; [done|]. cbv zeta. set (n := uint64 (nextID m + 1)).
  assert (c ∉ queue (active m)) as Hq by (by rewrite (pk_elem m Hok)).
  destruct (Push_indexed queue idx items item_rank rank_leb heap_push (active m)
    (mkHeap (queue (active m)) (idx (active m)) (<[c := mkItem n 0 ∅]> (items (active m)))) c)
    as (Hx & Hh & Hp & Hit); [apply (pk_idx m Hok)|apply (pk_heap m Hok)|done|done|done| |done|done|done|].
  { intros c' Hne. unfold item_rank. cbn. by rewrite lookup_total_insert_ne. }
  set (h' := heap_Push _ _ _) in *. clearbody h'. cbn in Hit.
  assert (∀ k, routes m !! k ≠ Some c) as Hnr by (intros k Hk; by apply (pk_route m Hok) in Hk).
  assert (∀ c', items h' !!! c' = if decide (c' = c) then mkItem n 0 ∅ else item m c') as Hitem.
  { intros c'. rewrite Hit. case_decide; subst; [apply lookup_total_insert_eq|by apply lookup_total_insert_ne]. }
  split; cbn; unfold item; cbn.
  - intros c' [->%elem_of_singleton|Hc']%elem_of_union; rewrite Hit; [by rewrite lookup_insert_eq|].
    rewrite lookup_insert_ne by congruence. by apply (pk_some m Hok).
  - intros c' Hc'. rewrite Hitem. case_decide; [done|]. apply (pk_load m Hok). set_solver.
  - intros c' k Hc'. rewrite Hitem. case_decide; [subst; cbn|apply (pk_sess m Hok); set_solver].
    split; [set_solver|]. intros Hk. by destruct (Hnr k).
  - intros k c' Hk. apply (pk_route m Hok) in Hk. set_solver.
  - rewrite size_union, size_singleton, (pk_active m Hok) by set_solver. lia.
  - apply (pk_routed m Hok).
  - done.
  - done.
  - intros c'. rewrite Hp, elem_of_cons, (pk_elem m Hok). set_solver.
Qed.

(** The routes through [c] go; nothing else of the manager changes. *)
Lemma mp_drop_routes_spec c ks m :
  NoDup ks → (∀ k, k ∈ ks → routes m !! k = Some c) → sessionsRouted m = Z.of_nat (size (routes m)) →
  ∃ r, foldr (drop_route c) m ks = set_routes m r (Z.of_nat (size r)) ∧
    ∀ k, r !! k = if decide (k ∈ ks) then None else routes m !! k.
Proof.
  intros Hnd Hks Hn. induction Hnd as [|k ks Hk Hnd IH]; cbn.
  - exists (routes m). rewrite <-Hn. split; [by destruct m|]. intros k. by rewrite decide_False by set_solver.
  - destruct IH as (r & -> & Hr); [intros k' Hk'; apply Hks; by right|].
    assert (r !! k = Some c) as Hrk by (rewrite Hr, decide_False by done; apply Hks; by left).
    exists (delete k r). unfold drop_route. cbn. rewrite decide_True by done. split.
    + unfold set_routes. cbn. f_equal. rewrite (map_size_delete_Some k) by eauto.
      assert (0 < size r)%nat; [|lia].
      apply Nat.neq_0_lt_0. rewrite map_size_non_empty_iff. intros He. by rewrite He in Hrk.
    + intros k'. destruct (decide (k' = k)) as [->|].
      * rewrite lookup_delete_eq, decide_True by left. done.
      * rewrite lookup_delete_ne, Hr by done. destruct (decide (k' ∈ ks)) as [Hin|Hin].
        -- by rewrite decide_True by (by right).
        -- rewrite decide_False; [done|]. by rewrite not_elem_of_cons.
Qed.

Lemma remove_spec c m :
  pool_ok m → c ∈ connections m →
  let m' := removeConnectionLocked c m in
  pool_ok m' ∧ connections m' = connections m ∖ {[c]} ∧ conns m' = conns m ∧
  (length (queue (active m')) < length (queue (active m)))%nat ∧
  (∀ k, routes m' !! k = if decide (routes m !! k = Some c) then None else routes m !! k) ∧
  ∀ c', c' ≠ c → item m' c' = item m c'.
Proof.
  intros Hok Hc m'. unfold m', removeConnectionLocked. rewrite decide_False by (intros Hn; by apply Hn). cbv zeta.
  destruct (Remove_indexed queue idx items item_rank rank_leb heap_pop (active m) c)
    as (Hpos & Hx & Hh & Hq & Hit); [|apply (pk_idx m Hok)|apply (pk_heap m Hok)|by apply (pk_elem m Hok)|].
  { intros h' c' Hc'. unfold heap_pop. by rewrite Hc'. }
  rewrite (decide_True (P := 0 ≤ _)) by done. set (h2 := (heap_Remove _ _ _).1) in *. clearbody h2.
  set (m1 := mkManager (nextID m) (connections m ∖ {[c]}) (routes m) h2 (connectionsActive m - 1) (sessionsRouted m) (conns m)).
  assert (item m1 c = item m c) as Hic by (unfold item, m1; cbn; by rewrite Hit). rewrite Hic.
  destruct (mp_drop_routes_spec c (elements (sessions (item m c))) m1) as (r & -> & Hr).
  { apply NoDup_elements. }
  { intros k Hk%elem_of_elements. by apply (pk_sess m Hok). }
  { apply (pk_routed m Hok). }
  assert (∀ k, r !! k = if decide (routes m !! k = Some c) then None else routes m !! k) as Hroute.
  { intros k. rewrite Hr. destruct (decide (routes m !! k = Some c)) as [Hk|Hk].
    - rewrite decide_True; [done|]. by apply elem_of_elements, (pk_sess m Hok).
    - rewrite decide_False; [done|]. intros Hin%elem_of_elements. by apply (pk_sess m Hok) in Hin. }
  assert (∀ c', c' ≠ c → item (upd_item c (λ it, mkItem (id it) (load it) ∅) (set_routes m1 r (Z.of_nat (size r)))) c' = item m c') as Hother.
  { intros c' Hne. unfold item. cbn. rewrite lookup_total_alter_ne by done. by rewrite Hit. }
  pose proof (pk_idx m Hok) as [Hnd _]. rewrite Hq in Hnd. apply NoDup_cons in Hnd as [Hnot _].
  assert (∀ c' (k : Key), c' ≠ c → r !! k = Some c' ↔ routes m !! k = Some c') as Hro.
  { intros c' k Hne. rewrite Hroute. case_decide; [|done]. split; [done|congruence]. }
  assert (length (queue (active m)) = S (length (queue h2))) as Hlen by (by rewrite Hq).
  split; [|split_and!; [done|done|cbn; lia|done|done]]. split.
  - intros c' Hc'. cbn in Hc' |- *. rewrite lookup_alter_ne by set_solver. rewrite Hit. apply (pk_some m Hok). set_solver.
  - intros c' Hc'. cbn in Hc'. rewrite Hother by set_solver. apply (pk_load m Hok). set_solver.
  - intros c' k Hc'. cbn in Hc'. rewrite Hother by set_solver. cbn. rewrite Hro by set_solver.
    apply (pk_sess m Hok). set_solver.
  - intros k c' Hk. cbn in Hk |- *. rewrite Hroute in Hk. case_decide; [done|].
    apply elem_of_difference. split; [by eapply (pk_route m Hok)|]. rewrite elem_of_singleton. congruence.
  - cbn. rewrite (pk_active m Hok), size_difference, size_singleton by set_solver.
    assert (size ({[c]} : gset nat) ≤ size (connections m))%nat by (apply subseteq_size; set_solver).
    rewrite size_singleton in *. lia.
  - done.
  - exact Hx.
  - intros k Hk. specialize (Hh k Hk). unfold edge in *. cbn in Hk.
    assert (∀ j, (j < length (queue h2))%nat → ranks_of queue items item_rank
      (active (upd_item c (λ it, mkItem (id it) (load it) ∅) (set_routes m1 r (Z.of_nat (size r))))) !!! j
      = ranks_of queue items item_rank h2 !!! j) as Hj.
    { intros j Hj. destruct (lookup_lt_is_Some_2 _ _ Hj) as [cj Hcj].
      rewrite (ranks_of_lookup queue items item_rank h2 _ _ Hcj), (ranks_of_lookup queue items item_rank _ j cj) by done.
      unfold item_rank. cbn. rewrite lookup_total_alter_ne; [done|]. intros ->.
      apply Hnot. by eapply list_elem_of_lookup_2. }
    pose proof (parent_lt k ltac:(lia)). by rewrite !Hj by lia.
  - intros c'. cbn. rewrite elem_of_difference, elem_of_singleton, <-(pk_elem m Hok), Hq, elem_of_cons.
    split; [intros Hin; split; [by right|by intros ->]|naive_solver].
Qed.

(** ** Selection *)
Lemma root_load m c c' :
  pool_ok m → queue (active m) !! 0%nat = Some c → c' ∈ connections m → load (item m c) ≤ load (item m c').
Proof.
  intros Hok H0 Hc'. apply (pk_elem m Hok) in Hc'. apply list_elem_of_lookup in Hc' as [i Hi].
  pose proof (root_least (HeapLaws0 := indexed_laws queue idx items item_rank rank_leb)
    (ranks_of queue items item_rank) rank_leb _ _ i (pk_heap m Hok)) as Hr.
  rewrite (ranks_of_lookup queue items item_rank _ _ _ H0), (ranks_of_lookup queue items item_rank _ _ _ Hi) in Hr.
  specialize (Hr (lookup_lt_Some _ _ _ Hi)). unfold item_rank, rank_leb, rank in Hr. cbn in Hr.
  unfold item. case_decide; lia.
Qed.

(** What [Select] promises of its result for a key without a route. *)
Definition selected (key : Key) m (r : option nat) m' : Prop :=
  pool_ok m' ∧ conns m' = conns m ∧ routes m' !! key = r ∧
  match r with
  | Some c => c ∈ connections m ∧ State m c = ConnectionActive ∧
      ∀ c', c' ∈ connections m → State m c' = ConnectionActive → load (item m c) ≤ load (item m c')
  | None => (∀ c, c ∈ connections m → State m c ≠ ConnectionActive) ∧ connections m' = ∅
  end.

Lemma select_loop_spec fuel key m :
  pool_ok m → routes m !! key = None → (length (queue (active m)) < fuel)%nat →
  selected key m (select_loop fuel key m).2 (select_loop fuel key m).1.
Proof.
  revert m. induction fuel as [|fuel IH]; intros m Hok Hk Hf; [lia|]. cbn.
  destruct (queue (active m) !! 0%nat) as [c|] eqn:H0.
  - assert (c ∈ connections m) as Hc by (apply (pk_elem m Hok); by eapply list_elem_of_lookup_2).
    case_decide as Hst.
    + destruct (remove_spec c m Hok Hc) as (Hok1 & Ecs & Econns & Hlen & Hr & Hi).
      set (m1 := removeConnectionLocked c m) in *.
      assert (∀ c', State m1 c' = State m c') as Hs1 by (intros; unfold State; by rewrite Econns).
      destruct (IH m1 Hok1) as (S1 & S2 & S3 & S4); [rewrite Hr; by case_decide|lia|].
      split; [done|]. split; [by rewrite S2|]. split; [done|].
      destruct (select_loop fuel key m1).2 as [c1|].
      * destruct S4 as (Hc1 & Ha1 & Hmin). rewrite Ecs in Hc1. apply elem_of_difference in Hc1 as [Hc1 Hne%not_elem_of_singleton].
        rewrite Hs1 in Ha1. split_and!; [done|done|]. intros c' Hc' Ha'.
        assert (c' ≠ c) as Hne' by congruence. rewrite <-(Hi c1), <-(Hi c') by done.
        apply Hmin; [rewrite Ecs; set_solver|by rewrite Hs1].
      * destruct S4 as [Hnone Hemp]. split; [|done]. intros c' Hc'. destruct (decide (c' = c)) as [->|]; [done|].
        rewrite <-Hs1. apply Hnone. rewrite Ecs. set_solver.
    + cbn. split_and!; [by apply assign_ok|done| |done|done|].
      * cbn. apply lookup_insert_eq.
      * intros c' Hc' _. by apply root_load.
  - cbn. split_and!; [done..| |].
    + intros c Hc. apply (pk_elem m Hok) in Hc. destruct (queue (active m)); [set_solver|done].
    + apply set_eq. intros c. rewrite <-(pk_elem m Hok). destruct (queue (active m)); [set_solver|done].
Qed.

Lemma Select_spec key m :
  pool_ok m →
  (∃ c, routes m !! key = Some c ∧ State m c = ConnectionActive ∧ Select key m = (m, Some c)) ∨
  (∀ c, routes m !! key = Some c → State m c ≠ ConnectionActive) ∧
    selected key m (Select key m).2 (Select key m).1.
Proof.
  intros Hok. unfold Select. destruct (routes m !! key) as [c|] eqn:Hk.
  2:{ right. split; [done|]. apply select_loop_spec; [done|done|unfold select_fuel; lia]. }
  case_decide as Hst; [left; eauto|right]. split; [by intros c' [= <-]|].
  pose proof (pk_route m Hok _ _ Hk) as Hc.
  destruct (remove_spec c m Hok Hc) as (Hok1 & Ecs & Econns & _ & Hr & Hi). cbv zeta.
  set (m1 := removeConnectionLocked c m) in *.
  assert (∀ c', State m1 c' = State m c') as Hs1 by (intros; unfold State; by rewrite Econns).
  destruct (select_loop_spec (select_fuel m1) key m1 Hok1) as (S1 & S2 & S3 & S4).
  { rewrite Hr. by rewrite decide_True. } { unfold select_fuel. lia. }
  split; [done|]. split; [by rewrite S2|]. split; [done|].
  destruct (select_loop (select_fuel m1) key m1).2 as [c1|].
  - destruct S4 as (Hc1 & Ha1 & Hmin). rewrite Ecs in Hc1. apply elem_of_difference in Hc1 as [Hc1 Hne%not_elem_of_singleton].
    rewrite Hs1 in Ha1. split_and!; [done|done|]. intros c' Hc' Ha'.
    assert (c' ≠ c) as Hne' by congruence. rewrite <-(Hi c1), <-(Hi c') by done.
    apply Hmin; [rewrite Ecs; set_solver|by rewrite Hs1].
  - destruct S4 as [Hnone Hemp]. split; [|done]. intros c' Hc'. destruct (decide (c' = c)) as [->|]; [done|].
    rewrite <-Hs1. apply Hnone. rewrite Ecs. set_solver.
Qed.

Lemma Select_ok key m : pool_ok m → pool_ok (Select key m).1.
Proof. intros Hok. destruct (Select_spec key m Hok) as [(c & _ & _ & ->)|[_ (? & _)]]; done. Qed.

Lemma Remove_ok c m : pool_ok m → pool_ok (Remove c m).
Proof. intros Hok. unfold Remove. case_decide; [by apply remove_spec|done]. Qed.

Lemma Lookup_ok key m : pool_ok m → pool_ok (Lookup key m).1.
Proof.
  intros Hok. unfold Lookup. destruct (routes m !! key) as [c|] eqn:Hk; [|done].
  case_decide; [done|]. apply remove_spec; [done|]. by eapply (pk_route m Hok).
Qed.

Lemma mp_Release_ok key m : pool_ok m → pool_ok (Release key m).
Proof. intros Hok. unfold Release. destruct (routes m !! key); [by apply release_ok|done]. Qed.

Lemma set_state_ok c st m : pool_ok m → pool_ok (set_state c st m).
Proof. by intros []. Qed.

(** One atomic operation; a connection's state changes at any time. *)
Inductive pool_step : ConnectionManager → ConnectionManager → Prop :=
| st_store c m : pool_step m (Store c m)
| st_remove c m : pool_step m (Remove c m)
| st_select k m : pool_step m (Select k m).1
| st_lookup k m : pool_step m (Lookup k m).1
| st_release k m : pool_step m (Release k m)
| st_state c st m : pool_step m (set_state c st m).

Lemma mp_step_pool_ok m m' : pool_ok m → pool_step m m' → pool_ok m'.
Proof.
  intros Hok Hst. revert Hok.
  destruct Hst; eauto using Store_ok, Remove_ok, Select_ok, Lookup_ok, mp_Release_ok, set_state_ok.
Qed.

Lemma mp_reachable_ok m : rtc pool_step NewConnectionManager m → pool_ok m.
Proof. intros Hr. exact (rtc_invariant pool_step pool_ok _ _ mp_step_pool_ok Hr new_ok). Qed.

(** ** Properties *)

Lemma parent_first m i c p :
  pool_ok m → (0 < i)%nat → queue (active m) !! i = Some c →
  queue (active m) !! ((i - 1) / 2)%nat = Some p →
  load (item m p) < load (item m c) ∨
  (load (item m p) = load (item m c) ∧ id (item m p) ≤ id (item m c)).
Proof.
  intros Hok Hi Hc Hp.
  assert (edge (ranks_of queue items item_rank) rank_leb (active m) i) as He.
  { apply (pk_heap m Hok). pose proof (lookup_lt_Some _ _ _ Hc). cbn. lia. }
  unfold edge, parent in He.
  rewrite (ranks_of_lookup queue items item_rank _ _ _ Hc), (ranks_of_lookup queue items item_rank _ _ _ Hp) in He.
  unfold item_rank, rank, rank_leb in He. cbn in He. unfold item. case_decide; lia.
Qed.

(** C8: The machine's pool keeps exact books in every interleaving of accepted
    and closed connections, selections, lookups and releases: a session is
    routed to a pooled connection only, a connection's load is the number of
    sessions routed to it, the counters are the numbers of pooled connections
    and of routed sessions, the heap holds each pooled connection once, at the
    index the connection records, and is ordered by load and, among equal
    loads, by age. *)
Theorem machine_pool_exact m :
  rtc pool_step NewConnectionManager m →
  (∀ k c, routes m !! k = Some c → c ∈ connections m) ∧
  (∀ c, c ∈ connections m → load (item m c) = Z.of_nat (size (sessions (item m c))) ∧
     ∀ k, k ∈ sessions (item m c) ↔ routes m !! k = Some c) ∧
  connectionsActive m = Z.of_nat (size (connections m)) ∧
  sessionsRouted m = Z.of_nat (size (routes m)) ∧
  NoDup (queue (active m)) ∧ (∀ c, c ∈ queue (active m) ↔ c ∈ connections m) ∧
  (∀ i c, queue (active m) !! i = Some c → idx (active m) !! c = Some (Z.of_nat i)) ∧
  (∀ i c p, (0 < i)%nat → queue (active m) !! i = Some c →
     queue (active m) !! ((i - 1) / 2)%nat = Some p →
     load (item m p) < load (item m c) ∨
     (load (item m p) = load (item m c) ∧ id (item m p) ≤ id (item m c))).
Proof.
  intros Hok%mp_reachable_ok. split_and!.
  - apply (pk_route m Hok).
  - intros c Hc. split; [by apply (pk_load m Hok)|]. intros k. by apply (pk_sess m Hok).
  - apply (pk_active m Hok).
  - apply (pk_routed m Hok).
  - apply (pk_idx m Hok).
  - apply (pk_elem m Hok).
  - apply (pk_idx m Hok).
  - intros i c p. by apply parent_first.
Qed.

(** [Select] always returns: a session keeps its connection while that is
    active; otherwise it gets an active connection with the least load of all
    active ones, dead connections in front of it being dropped on the way;
    and it gets none only when no pooled connection is active. *)
Theorem Select_least_loaded m key :
  rtc pool_step NewConnectionManager m →
  match (Select key m).2 with
  | Some c =>
      State m c = ConnectionActive ∧ routes (Select key m).1 !! key = Some c ∧
      (routes m !! key = Some c ∨
       ∀ c', c' ∈ connections m → State m c' = ConnectionActive → load (item m c) ≤ load (item m c'))
  | None => ∀ c, c ∈ connections m → State m c ≠ ConnectionActive
  end.
Proof.
  intros Hok%mp_reachable_ok.
  destruct (Select_spec key m Hok) as [(c & Hk & Ha & ->)|(_ & _ & _ & Hk & Hs)]; cbn; [auto|].
  destruct (Select key m).2 as [c|]; [|by destruct Hs]. destruct Hs as (_ & Ha & Hmin). auto.
Qed.

(** ** Telling the gateway that a session ended *)
Lemma Release_routes key m : routes (Release key m) !! key = None.
Proof.
  unfold Release. destruct (routes m !! key) as [c|] eqn:Hk; [|done]. unfold releaseLocked.
  rewrite decide_False by congruence. cbv zeta. case_decide; cbn; by rewrite lookup_delete_eq.
Qed.

Lemma Release_conns key m : conns (Release key m) = conns m.
Proof.
  unfold Release. destruct (routes m !! key) as [c|]; [|done]. unfold releaseLocked.
  case_decide; [done|]. cbv zeta. by case_decide.
Qed.

Lemma Remove_conns c m : pool_ok m → conns (Remove c m) = conns m.
Proof. intros Hok. unfold Remove. case_decide as Hc; [|done]. by destruct (remove_spec c m Hok Hc) as (_ & _ & ? & _). Qed.

Lemma Select_some key m c :
  pool_ok m → (Select key m).2 = Some c → State m c = ConnectionActive ∧ conns (Select key m).1 = conns m.
Proof.
  intros Hok Hs. destruct (Select_spec key m Hok) as [(c' & _ & Ha & E)|(_ & _ & Ec & _ & Hsel)].
  - rewrite E in Hs |- *. injection Hs as <-. done.
  - rewrite Hs in Hsel. by destruct Hsel as (_ & ? & _).
Qed.

(** The first two steps of [onSessionDelete]. *)
Lemma Lookup_or_Select key m :
  pool_ok m →
  let '(m1, conn) := match Lookup key m with (m, Some c) => (m, Some c) | (m, None) => Select key m end in
  pool_ok m1 ∧ ∀ c, conn = Some c → State m c = ConnectionActive ∧ conns m1 = conns m.
Proof.
  intros Hok. unfold Lookup. destruct (routes m !! key) as [c|] eqn:Hk.
  - case_decide as Ha; [split; [done|]; by intros c' [= <-]|].
    pose proof (pk_route m Hok _ _ Hk) as Hc. destruct (remove_spec c m Hok Hc) as (Hok1 & _ & Ec & _).
    pose proof (Select_ok key _ Hok1). pose proof (λ c, Select_some key _ c Hok1) as Hs.
    destruct (Select key (removeConnectionLocked c m)) as [m1 conn] eqn:E. split; [done|].
    intros c' ->. destruct (Hs c') as [H1 H2]; [done|]. unfold State in H1. rewrite Ec in H1, H2. done.
  - pose proof (Select_ok key _ Hok). pose proof (λ c, Select_some key m c Hok) as Hs.
    destruct (Select key m) as [m1 conn]. split; [done|]. intros c ->. by apply Hs.
Qed.

(** When a session ends, the machine tries to tell the gateway on an
    active connection and, if that write fails, on one other; whatever
    happens, the session has no route afterwards and the books stay exact.  A
    write is attempted on active connections only, at most twice, and a
    second time only after the first failed. *)
Theorem session_end_releases m key ok :
  rtc pool_step NewConnectionManager m →
  let m' := (onSessionDelete ok key m).1 in
  let ws := (onSessionDelete ok key m).2 in
  routes m' !! key = None ∧ sessionsRouted m' = Z.of_nat (size (routes m')) ∧
  (length ws ≤ 2)%nat ∧ (∀ c, c ∈ ws → State m c = ConnectionActive) ∧
  (∀ c c', ws = [c; c'] → ok c = false).
Proof.
  intros Hok%mp_reachable_ok. unfold onSessionDelete.
  pose proof (Lookup_or_Select key m Hok) as H1.
  destruct (match Lookup key m with (m, Some c) => (m, Some c) | (m, None) => Select key m end) as [m1 [c|]].
  2:{ destruct H1 as [Hok1 _]. cbn. rewrite (pk_routed _ (mp_Release_ok key m1 Hok1)).
      split_and!; [apply Release_routes|done|lia|set_solver|done]. }
  destruct H1 as [Hok1 Hc]. destruct (Hc c eq_refl) as [Ha Ec]. destruct (ok c) eqn:Hw.
  { cbn. rewrite (pk_routed _ (mp_Release_ok key m1 Hok1)).
    split_and!; [apply Release_routes|done|lia| |done]. by intros c' ->%list_elem_of_singleton. }
  pose proof (Remove_ok c m1 Hok1) as Hok2. pose proof (Select_ok key _ Hok2) as Hok3.
  pose proof (λ c', Select_some key _ c' Hok2) as Hs.
  destruct (Select key (Remove c m1)) as [m3 [c'|]].
  2:{ cbn in Hok3 |- *. rewrite (pk_routed _ (mp_Release_ok key m3 Hok3)).
      split_and!; [apply Release_routes|done|lia| |done]. by intros c' ->%list_elem_of_singleton. }
  cbn in Hok3. destruct (Hs c' eq_refl) as [Ha' _]. unfold State in Ha'. rewrite Remove_conns, Ec in Ha' by done.
  assert (∀ x, x ∈ [c; c'] → State m x = ConnectionActive) as Hact.
  { intros x Hx. apply elem_of_cons in Hx as [->|Hx]; [done|]. by apply list_elem_of_singleton in Hx as ->. }
  assert (∀ q, pool_ok q → sessionsRouted (Release key q) = Z.of_nat (size (routes (Release key q)))) as Hbooks
    by (intros q Hq; apply pk_routed; by apply mp_Release_ok).
  destruct (ok c'); cbn; (split_and!; [apply Release_routes|auto using Remove_ok|lia|done|by intros ? ? [= <- _]]).
Qed.
End machine_pool.

(** ** A concrete pool: two connections, one of them dead *)
Definition demo_pool : ConnectionManager (Key := nat) :=
  set_state 1 ConnectionClosed (Store 2 (set_state 2 ConnectionActive (Store 1 (set_state 1 ConnectionActive NewConnectionManager)))).

Lemma demo_pool_reachable : rtc pool_step NewConnectionManager demo_pool.
Proof. unfold demo_pool. do 5 (eapply rtc_r; [|constructor]). apply rtc_refl. Qed.

(** Three sessions on two connections, and one of them over again. *)
Definition busy_pool : ConnectionManager (Key := nat) :=
  Release 5%nat (Select 7%nat (Select 6%nat (Select 5%nat
    (Store 2 (set_state 2 ConnectionActive (Store 1 (set_state 1 ConnectionActive NewConnectionManager)))) ).1 ).1 ).1.

Lemma busy_pool_reachable : rtc pool_step NewConnectionManager busy_pool.
Proof. 
  unfold busy_pool. eapply rtc_r; [|apply st_release]. do 3 (eapply rtc_r; [|apply st_select]).
  do 2 (eapply rtc_r; [|apply st_store]; eapply rtc_r; [|apply st_state]). apply rtc_refl.
Qed.

Lemma machine_pool_exact_witness :
  sessionsRouted busy_pool = 2 ∧ load (item busy_pool 1%nat) = 1 ∧ load (item busy_pool 2%nat) = 1 ∧
  routes busy_pool !! 6%nat = Some 2%nat ∧ queue (active busy_pool) = [1%nat; 2%nat] ∧
  idx (active busy_pool) !! 2%nat = Some 1.
Proof.
  destruct (machine_pool_exact busy_pool busy_pool_reachable) as (_ & _ & _ & -> & _ & _ & Hidx & _).
  split_and!; [vm_compute; reflexivity..|]. apply (Hidx 1%nat). vm_compute. reflexivity.
Defined.

Lemma Select_least_loaded_witness :
  (Select 5%nat demo_pool).2 = Some 2%nat ∧ State demo_pool 2 = ConnectionActive.
Proof.
  pose proof (Select_least_loaded demo_pool 5%nat demo_pool_reachable) as H.
  assert ((Select 5%nat demo_pool).2 = Some 2%nat) as E by (vm_compute; reflexivity). rewrite E in H.
  split; [exact E|apply H].
Defined.

Lemma session_end_releases_witness :
  routes (onSessionDelete (λ _, false) 5%nat demo_pool).1 !! 5%nat = None ∧
  (onSessionDelete (λ _, false) 5%nat demo_pool).2 = [2%nat].
Proof.
  split; [|vm_compute; reflexivity].
  exact (proj1 (session_end_releases demo_pool 5%nat (λ _, false) demo_pool_reachable)).
Defined.

(** Two failed writes end the search although a third connection is up. *)
Lemma third_connection_untried :
  let m := Store 3 (set_state 3 ConnectionActive (Store 2 (set_state 2 ConnectionActive
             (Store 1 (set_state 1 ConnectionActive NewConnectionManager))))) in
  (onSessionDelete (λ c, bool_decide (c = 3%nat)) 5%nat m).2 = [1%nat; 2%nat] ∧
  State (onSessionDelete (λ c, bool_decide (c = 3%nat)) 5%nat m).1 3 = ConnectionActive.
Proof. vm_compute. done. Qed.
