(* ===== verification/MachineConn.v ===== *)
(** * Frames between gateway and machine

    internal/machine/connection.go and registrar.go, and the message handler
    of internal/machine/pool.go.  Both ends of a pool connection put the
    16-byte session key in front of a packet; the theorem composes the two
    implementations: what one end writes is what the other end's handler is
    given, in both directions. *)

From S2P Require Import Prelude.
From S2P Require Import GoSlice.
From S2P Require Import Protocol.
From S2P Require Import GatewayConn.
From S2P Require Import GoFloat.
From S2P Require Import Backoff.

Open Scope Z_scope.

(** ** Connection *)

(** [Write]: the frame that [Writev] sends, if the connection is up. *)
Definition conn_Write (st : ConnectionState) (socket : option nat) (key : list Z) (packet : Packet) :
    option (list Z) :=
  if decide (st ≠ ConnectionActive ∨ socket = None) then None
  else Some (key ++ (Header packet).2 ++ contents (Payload packet)).

(** [OnMessage]: the key and packet given to the handler; [pooled] is the
    packet the pool hands out. *)
Definition conn_OnMessage (binary handler : bool) (pooled : Packet) (body : list Z) : option (list Z * Packet) :=
  if decide (binary = false ∨ (length body < SessionKeySize)%nat) then None
  else if handler then
    match Unmarshal pooled (drop SessionKeySize body) with
    | (packet, None) => Some (take SessionKeySize body, packet)
    | (_, Some _) => None
    end
  else None.

(** ** handleMessage *)
Inductive session_effect :=
| UpdateActivity
| SendToHead (audio : list Z)
| PauseWorkflow
| ResumeWorkflow
| RemoveSession.

(** The effects on the session of the packet's key, none if it is unknown. *)
Definition handleMessage (exists_ : bool) (packet : Packet) : list session_effect :=
  if exists_ then
    UpdateActivity ::
      (if decide (Type_ packet = TypeAudio) then [SendToHead (contents (Payload packet))]
       else if decide (Type_ packet = TypePause) then [PauseWorkflow]
       else if decide (Type_ packet = TypeResume) then [ResumeWorkflow]
       else if decide (Type_ packet = TypeClose) then [RemoveSession]
       else [])
  else [].

(** ** Registrar *)

(** [reconnectLoop]: [outcomes] says of each attempt whether the control
    socket was opened; the delays before the next attempts are returned. *)
Fixpoint reconnectLoop (b : Backoff) (outcomes : list bool) : list Z :=
  match outcomes with
  | [] => []
  | true :: outcomes => reconnectLoop (Reset_ b) outcomes
  | false :: outcomes =>
      let '(b, d, _) := Wait false b in d :: reconnectLoop b outcomes
  end.

Definition registrar_backoff : Backoff := NewBackoff 500000000 10000000000 [].

Lemma reconnectLoop_bounded outcomes b n :
  at_failure 500000000 10000000000 n b →
  Forall (λ d, 500000000 ≤ d ≤ 10000000000) (reconnectLoop b outcomes).
Proof.
  assert (regular 500000000 10000000000) as Hreg by (split; lia).
  revert b n. induction outcomes as [|[] outcomes IH]; intros b n Hat; cbn; [constructor| |].
  - apply (IH _ 0%nat). destruct Hat. by split.
  - constructor; [|by eapply IH, advance_at].
    rewrite (at_current _ _ _ _ Hat). destruct n as [|n]; cbn [ideal_delay]; [lia|].
    assert (1 ≤ 2 ^ Z.of_nat (S n)) by (pose proof (Z.pow_pos_nonneg 2 (Z.of_nat (S n))); lia). lia.
Qed.

(** ** Properties *)
Lemma conn_OnMessage_frame pooled key t e data :
  length key = SessionKeySize → Z.of_nat (length data) < 2 ^ 32 →
  ∃ q, conn_OnMessage true true pooled (key ++ wire t e data) = Some (key, q) ∧
    Type_ q = t ∧ Encode q = e ∧ Protocol.Size q = Z.of_nat (length data) ∧ contents (Payload q) = data.
Proof.
  intros Hk Hd. unfold conn_OnMessage. rewrite decide_False.
  2:{ rewrite length_app. intros [|]; [done|lia]. }
  rewrite <-Hk, drop_app_length, take_app_length, Unmarshal_wire, decide_True by done.
  eexists. split; [done|]. set (p := mkPacket _ _ _ _ _).
  destruct (SetPayload_fields p data) as (-> & -> & ->). rewrite SetPayload_contents.
  by rewrite uint32_small by lia.
Qed.

(** A pool connection is transparent in both directions.  Whatever the
    pooled buffers and packets held before: a packet the gateway writes for a
    session reaches the machine's handler with the same key, type, encoding
    and payload; so does a client frame the gateway forwards untouched; and a
    packet the machine writes reaches the gateway's dispatcher as the same
    key and the packet's exact wire image. *)
Theorem pool_frames_roundtrip s1 s2 buffer pooled sender key t e data :
  length key = SessionKeySize → byte_ok t → byte_ok e → Z.of_nat (length data) < 2 ^ 32 →
  let p := SetPayload (mkPacket t e (Protocol.Size sender) (Payload sender) (header sender)) data in
  let arrives r := ∃ frame q, r = Written frame ∧
    conn_OnMessage true true pooled frame = Some (key, q) ∧
    Type_ q = t ∧ Encode q = e ∧ Protocol.Size q = Z.of_nat (length data) ∧ contents (Payload q) = data in
  arrives (WritePacket ConnectionActive (Some s1) buffer key p) ∧
  arrives (Write ConnectionActive (Some s1) buffer key (Marshal p)) ∧
  ∃ frame, conn_Write ConnectionActive (Some s2) key p = Some frame ∧
    OnMessage true true frame = Some (key, Marshal p).
Proof.
  intros Hk Ht He Hd p arrives.
  assert (Marshal p = wire t e data) as Hm by (apply (Marshal_SetPayload (mkPacket _ _ _ _ _)); done).
  destruct (conn_OnMessage_frame pooled key t e data Hk Hd) as (q & Hq & Hf). split_and!.
  - exists (key ++ Marshal p), q. rewrite Hm. split; [|done]. rewrite <-Hm. by apply WritePacket_frame.
  - exists (key ++ Marshal p), q. rewrite Hm. split; [|done]. rewrite <-Hm.
    unfold Write, write. rewrite decide_False by naive_solver. cbn -[fill].
    rewrite fill_contents by done. cbn. by rewrite app_nil_r.
  - unfold conn_Write. rewrite decide_False by naive_solver. eexists. split; [done|].
    by apply OnMessage_frame.
Qed.

Lemma pool_frames_roundtrip_witness :
  ∃ frame q, WritePacket ConnectionActive (Some 0%nat) (mkSlice [9; 9; 9] 3) (replicate 16 7)
      (SetPayload (mkPacket TypeAudio EncodeRaw 0 nil_slice []) [1; 2; 3]) = Written frame ∧
    conn_OnMessage true true new_packet frame = Some (replicate 16 7, q) ∧
    Type_ q = TypeAudio ∧ Encode q = EncodeRaw ∧ Protocol.Size q = 3 ∧ contents (Payload q) = [1; 2; 3].
Proof.
  apply (pool_frames_roundtrip 0 0 (mkSlice [9; 9; 9] 3) new_packet (mkPacket 0 0 0 nil_slice [])
    (replicate 16 7) TypeAudio EncodeRaw [1; 2; 3]); try reflexivity; unfold byte_ok; vm_compute; split; congruence.
Defined.
