(* ===== verification/Utf8.v ===== *)
(** * Go strings as runes

    A Go string is a byte sequence; [range] over it and [[]rune(s)] decode
    UTF-8, one replacement rune U+FFFD per byte that starts no encoding, and
    [strings.Builder.WriteRune] encodes.  Decoding what was encoded gives the
    runes back, so text that is valid UTF-8 may be cut into valid pieces. *)

From S2P Require Import Prelude.
From Stdlib Require Import Ascii.

(** ** Bytes of a string *)
Definition byte_of (a : ascii) : Z := Z.of_N (N_of_ascii a).
Definition ascii_of_byte (b : Z) : ascii := ascii_of_N (Z.to_N b).
Definition bytes_of_string (s : string) : list Z := byte_of <$> String.list_ascii_of_string s.
Definition string_of_bytes (bs : list Z) : string :=
  String.string_of_list_ascii (ascii_of_byte <$> bs).

Definition is_byte (b : Z) : Prop := (0 ≤ b < 256)%Z.

(** ** Runes *)
Definition RuneError : Z := 65533.
Definition valid_rune (r : Z) : Prop := (0 ≤ r < 55296 ∨ 57344 ≤ r ≤ 1114111)%Z.
#[export] Instance valid_rune_dec r : Decision (valid_rune r).
Proof. unfold valid_rune. apply _. Defined.

Definition continuation (b : Z) : bool := bool_decide (128 ≤ b < 192)%Z.

(** The second byte of an encoding is confined further by the first one, so
    that no rune has two encodings and surrogates have none. *)
Definition second_byte (b0 b1 : Z) : bool :=
  if decide (b0 = 224%Z) then bool_decide (160 ≤ b1 < 192)%Z
  else if decide (b0 = 237%Z) then bool_decide (128 ≤ b1 < 160)%Z
  else if decide (b0 = 240%Z) then bool_decide (144 ≤ b1 < 192)%Z
  else if decide (b0 = 244%Z) then bool_decide (128 ≤ b1 < 144)%Z
  else continuation b1.

(** [utf8.DecodeRuneInString] on a string that is not empty: the rune and the
    number of bytes it takes. *)
Definition decode_rune (b0 : Z) (rest : list Z) : Z * nat :=
  if decide (b0 < 128)%Z then (b0, 1)
  else if decide (194 ≤ b0 < 224)%Z then
    match rest with
    | b1 :: _ => if continuation b1 then (((b0 - 192) * 64 + (b1 - 128))%Z, 2) else (RuneError, 1)
    | _ => (RuneError, 1)
    end
  else if decide (224 ≤ b0 < 240)%Z then
    match rest with
    | b1 :: b2 :: _ =>
        if second_byte b0 b1 && continuation b2
        then (((b0 - 224) * 4096 + (b1 - 128) * 64 + (b2 - 128))%Z, 3) else (RuneError, 1)
    | _ => (RuneError, 1)
    end
  else if decide (240 ≤ b0 < 245)%Z then
    match rest with
    | b1 :: b2 :: b3 :: _ =>
        if second_byte b0 b1 && continuation b2 && continuation b3
        then (((b0 - 240) * 262144 + (b1 - 128) * 4096 + (b2 - 128) * 64 + (b3 - 128))%Z, 4)
        else (RuneError, 1)
    | _ => (RuneError, 1)
    end
  else (RuneError, 1).

(** The loop of [range s]: each round consumes a byte at least, so the
    number of bytes is enough fuel. *)
Fixpoint decode_loop (fuel : nat) (bs : list Z) : list Z :=
  match fuel, bs with
  | S fuel, b0 :: rest =>
      let '(r, n) := decode_rune b0 rest in r :: decode_loop fuel (drop n bs)
  | _, _ => []
  end.

Definition decode (bs : list Z) : list Z := decode_loop (length bs) bs.

(** [utf8.AppendRune]. *)
Definition encode_rune (r : Z) : list Z :=
  let r := if decide (valid_rune r) then r else RuneError in
  if decide (r < 128)%Z then [r]
  else if decide (r < 2048)%Z then [192 + r / 64; 128 + r mod 64]%Z
  else if decide (r < 65536)%Z then [224 + r / 4096; 128 + r / 64 mod 64; 128 + r mod 64]%Z
  else [240 + r / 262144; 128 + r / 4096 mod 64; 128 + r / 64 mod 64; 128 + r mod 64]%Z.

Definition encode (rs : list Z) : list Z := rs ≫= encode_rune.

(** [[]rune(s)] and [string(rs)]. *)
Definition runes (s : string) : list Z := decode (bytes_of_string s).
Definition string_of_runes (rs : list Z) : string := string_of_bytes (encode rs).

(** [utf8.ValidString]. *)
Definition valid_utf8 (s : string) : bool := bool_decide (string_of_runes (runes s) = s).

Example runes_1 : runes "a¡" = [97; 161]%Z.
Proof. reflexivity. Qed.
Example runes_2 : string_of_runes [12290; 97]%Z = "。a".
Proof. reflexivity. Qed.

(** ** Bytes *)
Lemma byte_of_ascii b : is_byte b → byte_of (ascii_of_byte b) = b.
Proof.
  intros [? ?]. unfold byte_of, ascii_of_byte. rewrite N_ascii_embedding by lia. lia.
Qed.

Lemma bytes_string_bytes bs : Forall is_byte bs → bytes_of_string (string_of_bytes bs) = bs.
Proof.
  intros H. unfold bytes_of_string, string_of_bytes.
  rewrite String.list_ascii_of_string_of_list_ascii, <-list_fmap_compose.
  rewrite <-(list_fmap_id bs) at 2. apply list_fmap_ext. intros i b Hb. simpl.
  rewrite byte_of_ascii; [done|]. by eapply Forall_lookup_1.
Qed.

Lemma string_of_list_ascii_app l1 l2 :
  String.string_of_list_ascii (l1 ++ l2) =
  String.string_of_list_ascii l1 +:+ String.string_of_list_ascii l2.
Proof. induction l1 as [|a l1 IH]; simpl; [done|]. by rewrite IH. Qed.

Lemma list_ascii_of_string_app s1 s2 :
  String.list_ascii_of_string (s1 +:+ s2) =
  String.list_ascii_of_string s1 ++ String.list_ascii_of_string s2.
Proof. induction s1 as [|a s1 IH]; simpl; [done|]. by rewrite IH. Qed.

Lemma string_app_nil_r s : s +:+ "" = s.
Proof.
  induction s as [|a s IH]; [done|]. change (String a (s +:+ "") = String a s). by rewrite IH.
Qed.

Lemma string_app_assoc s1 s2 s3 : s1 +:+ (s2 +:+ s3) = (s1 +:+ s2) +:+ s3.
Proof.
  induction s1 as [|a s1 IH]; [done|].
  change (String a (s1 +:+ (s2 +:+ s3)) = String a ((s1 +:+ s2) +:+ s3)). by rewrite IH.
Qed.

Lemma bytes_of_string_app s1 s2 :
  bytes_of_string (s1 +:+ s2) = bytes_of_string s1 ++ bytes_of_string s2.
Proof. unfold bytes_of_string. by rewrite list_ascii_of_string_app, fmap_app. Qed.

Lemma string_of_bytes_app l1 l2 :
  string_of_bytes (l1 ++ l2) = string_of_bytes l1 +:+ string_of_bytes l2.
Proof. unfold string_of_bytes. by rewrite fmap_app, string_of_list_ascii_app. Qed.

Lemma string_of_runes_app l1 l2 :
  string_of_runes (l1 ++ l2) = string_of_runes l1 +:+ string_of_runes l2.
Proof. unfold string_of_runes, encode. by rewrite bind_app, string_of_bytes_app. Qed.

(** ** Decoding an encoding *)
Lemma encode_rune_bytes r : Forall is_byte (encode_rune r).
Proof.
  unfold encode_rune. set (r' := if decide (valid_rune r) then r else RuneError).
  assert (valid_rune r') as Hv.
  { unfold r'. case_decide; [done|]. unfold valid_rune, RuneError. lia. }
  clearbody r'. unfold valid_rune in Hv.
  repeat case_decide; repeat constructor; unfold is_byte;
    Z.to_euclidean_division_equations; lia.
Qed.

Lemma encode_bytes rs : Forall is_byte (encode rs).
Proof.
  unfold encode. induction rs as [|r rs IH]; simpl; [constructor|].
  apply Forall_app. auto using encode_rune_bytes.
Qed.

Lemma length_encode_rune r : 1 ≤ length (encode_rune r).
Proof. unfold encode_rune. repeat case_decide; simpl; lia. Qed.

Lemma second_byte_ok b0 b1 :
  (128 ≤ b1 < 192)%Z →
  (b0 = 224 → 160 ≤ b1)%Z → (b0 = 237 → b1 < 160)%Z →
  (b0 = 240 → 144 ≤ b1)%Z → (b0 = 244 → b1 < 144)%Z →
  second_byte b0 b1 = true.
Proof.
  intros. unfold second_byte, continuation. repeat case_decide; apply bool_decide_eq_true_2; lia.
Qed.

Lemma continuation_ok x : continuation (128 + x mod 64) = true.
Proof. apply bool_decide_eq_true_2. pose proof (Z.mod_pos_bound x 64). lia. Qed.

Lemma decode_encode_rune r s :
  valid_rune r →
  ∃ b0 rest, encode_rune r ++ s = b0 :: rest ∧
    decode_rune b0 rest = (r, length (encode_rune r)).
Proof.
  intros Hv. unfold encode_rune. cbv zeta.
  destruct (decide (valid_rune r)) as [_|]; [|done]. unfold valid_rune in Hv.
  case_decide; [|case_decide; [|case_decide]]; eexists _, _; (split; [reflexivity|]);
    unfold decode_rune; rewrite ?continuation_ok.
  - by rewrite decide_True.
  - rewrite decide_False, decide_True by (Z.to_euclidean_division_equations; lia).
    f_equal. Z.to_euclidean_division_equations; lia.
  - rewrite decide_False, decide_False, decide_True by (Z.to_euclidean_division_equations; lia).
    rewrite second_byte_ok by (Z.to_euclidean_division_equations; lia). simpl.
    f_equal. Z.to_euclidean_division_equations; lia.
  - rewrite decide_False, decide_False, decide_False, decide_True
      by (Z.to_euclidean_division_equations; lia).
    rewrite second_byte_ok by (Z.to_euclidean_division_equations; lia). simpl.
    f_equal. Z.to_euclidean_division_equations; lia.
Qed.

Lemma decode_rune_width b0 rest : 1 ≤ (decode_rune b0 rest).2.
Proof. unfold decode_rune. repeat (case_match || case_decide); simpl; lia. Qed.

(** More fuel than bytes changes nothing. *)
Lemma decode_loop_fuel fuel bs : length bs ≤ fuel → decode_loop fuel bs = decode bs.
Proof.
  revert bs. induction fuel as [fuel IH] using lt_wf_ind; intros [|b0 rest] Hf.
  - by destruct fuel.
  - destruct fuel as [|fuel]; [simpl in Hf; lia|]. unfold decode. simpl in *.
    pose proof (decode_rune_width b0 rest) as Hw.
    destruct (decode_rune b0 rest) as [r n] eqn:E. cbn in Hw.
    assert (length (drop n (b0 :: rest)) ≤ length rest) by (rewrite length_drop; simpl; lia).
    rewrite IH by lia. destruct (decide (length rest = fuel)) as [->|]; [by rewrite IH by lia|].
    by rewrite (IH (length rest)) by lia.
Qed.

Lemma decode_encode rs s :
  Forall valid_rune rs → decode (encode rs ++ s) = rs ++ decode s.
Proof.
  induction 1 as [|r rs Hr _ IH]; simpl; [done|]. unfold encode. simpl.
  fold (encode rs). rewrite <-app_assoc.
  destruct (decode_encode_rune r (encode rs ++ s) Hr) as (b0 & rest & E & D).
  unfold decode at 1. rewrite E. simpl. rewrite D, <-E, drop_app_length.
  rewrite decode_loop_fuel, IH; [done|].
  pose proof (length_encode_rune r). apply (f_equal length) in E.
  rewrite !length_app in *. simpl in E. lia.
Qed.

Lemma second_byte_true b0 b1 :
  second_byte b0 b1 = true →
  (128 ≤ b1 < 192 ∧ (b0 = 224 → 160 ≤ b1) ∧ (b0 = 237 → b1 < 160) ∧
   (b0 = 240 → 144 ≤ b1) ∧ (b0 = 244 → b1 < 144))%Z.
Proof.
  unfold second_byte, continuation. repeat case_decide; intros ?%bool_decide_eq_true_1; lia.
Qed.

Lemma continuation_true b : continuation b = true → (128 ≤ b < 192)%Z.
Proof. apply bool_decide_eq_true_1. Qed.

Lemma decode_rune_valid b0 rest : is_byte b0 → valid_rune (decode_rune b0 rest).1.
Proof.
  intros Hb. unfold is_byte in Hb.
  assert (valid_rune RuneError) by (unfold valid_rune, RuneError; lia).
  unfold decode_rune.
  case_decide; [simpl; unfold valid_rune; lia|].
  case_decide; [|case_decide; [|case_decide; [|done]]]; repeat (case_match; try done); subst; simpl;
    unfold valid_rune; rewrite ?andb_true_iff in *; destruct_and?;
    repeat match goal with
    | H : second_byte _ _ = true |- _ => apply second_byte_true in H
    | H : continuation _ = true |- _ => apply continuation_true in H
    end; lia.
Qed.

Lemma decode_valid bs : Forall is_byte bs → Forall valid_rune (decode bs).
Proof.
  unfold decode. generalize (length bs) as fuel. intros fuel. revert bs.
  induction fuel as [|fuel IH]; intros bs Hb; simpl; [constructor|].
  destruct bs as [|b0 rest]; [constructor|]. inversion_clear Hb.
  pose proof (decode_rune_valid b0 rest) as Hv.
  destruct (decode_rune b0 rest) as [r n]. constructor; [by apply Hv|].
  apply IH. apply Forall_drop. by constructor.
Qed.

Lemma bytes_of_string_bytes s : Forall is_byte (bytes_of_string s).
Proof.
  unfold bytes_of_string. apply Forall_fmap, Forall_true. intros a. unfold is_byte, byte_of. simpl.
  pose proof (N_ascii_bounded a). lia.
Qed.

(** ** Runes *)
Lemma runes_valid s : Forall valid_rune (runes s).
Proof. apply decode_valid, bytes_of_string_bytes. Qed.

Lemma runes_string_app rs s :
  Forall valid_rune rs → runes (string_of_runes rs +:+ s) = rs ++ runes s.
Proof.
  intros H. unfold runes, string_of_runes.
  rewrite bytes_of_string_app, bytes_string_bytes by apply encode_bytes.
  by apply decode_encode.
Qed.

Lemma runes_string_of_runes rs : Forall valid_rune rs → runes (string_of_runes rs) = rs.
Proof.
  intros H. pose proof (runes_string_app rs "" H) as E.
  rewrite string_app_nil_r in E. rewrite E. unfold runes, decode. simpl. by rewrite app_nil_r.
Qed.

Lemma valid_utf8_ok s : valid_utf8 s = true ↔ string_of_runes (runes s) = s.
Proof. apply bool_decide_eq_true. Qed.

Lemma valid_string_of_runes rs : Forall valid_rune rs → valid_utf8 (string_of_runes rs) = true.
Proof. intros H. apply valid_utf8_ok. by rewrite runes_string_of_runes. Qed.

Lemma runes_app s1 s2 : valid_utf8 s1 = true → runes (s1 +:+ s2) = runes s1 ++ runes s2.
Proof.
  intros H%valid_utf8_ok. rewrite <-H at 1. apply runes_string_app, runes_valid.
Qed.

(** The concatenation of pieces of text. *)
Definition concat_strings (l : list string) : string := foldr String.append "" l.

Lemma runes_concat l :
  Forall (λ s, valid_utf8 s = true) l → runes (concat_strings l) = l ≫= runes.
Proof. induction 1 as [|s l Hs _ IH]; simpl; [done|]. by rewrite runes_app, IH. Qed.

Lemma concat_strings_app l1 l2 : concat_strings (l1 ++ l2) = concat_strings l1 +:+ concat_strings l2.
Proof. induction l1 as [|s l1 IH]; simpl; [done|]. by rewrite IH, string_app_assoc. Qed.
