(* ===== verification/PluginFlow.v ===== *)
(** * What a plugin does to its flow

    The handlers of [internal/engine/plugin.go] as a record of operations: a
    handler takes the plugin's state and an event and returns the new state
    with the calls it makes on [engine.Flow], in order.  [BuiltinPlugin] is
    the pass-through every plugin embeds; signal and payload names are those
    of [internal/schema]. *)

From S2P Require Import Prelude.
From S2P Require Import GoSlice.
From S2P Require Import Schema.
From S2P Require Import EngineTypes.

(** ** Names *)
Definition SignalInterrupter : string := "interrupter".
Definition SignalAgentSpeechStart : string := "agent_speech_start".
Definition SignalAgentSpeechEnd : string := "agent_speech_end".
Definition SignalUserSpeechStart : string := "user_speech_start".
Definition SignalUserSpeechEnd : string := "user_speech_end".
Definition PayloadASRResult : string := "asr_result".
Definition PayloadCaption : string := "caption".
Definition PayloadLLMChunk : string := "llm_chunk".
Definition AudioTTS : string := "tts".

(** ** Events

    An audio frame is what its receivers can read of it; how frames are
    pooled and counted is the subject of [Media] and [Runtime]. *)
Record audio_frame := mkFrame {
  frame_name : string; frame_rate : Z; frame_channels : Z; frame_bytes : list Z }.

Inductive flow_event :=
| SendSignal (s : Named.object)
| SendPayload (p : Named.object)
| SendAudio (a : audio_frame)
| Publish (packetType : Z) (data : list Z)
| PublishFull (packetType encode : Z) (data : list Z).

(** ** plugin.go *)
Record plugin_ops (S : Type) := mkPlugin {
  OnSignal : S → Named.object → S * list flow_event;
  OnPayload : S → Named.object → S * list flow_event;
  OnAudio : S → audio_frame → S * list flow_event;
}.
Arguments mkPlugin {S} _ _ _.
Arguments OnSignal {S} _ _ _.
Arguments OnPayload {S} _ _ _.
Arguments OnAudio {S} _ _ _.

Definition BuiltinPlugin (S : Type) : plugin_ops S :=
  mkPlugin (λ s x, (s, [SendSignal x])) (λ s x, (s, [SendPayload x])) (λ s x, (s, [SendAudio x])).

(** The events a plugin consumes. *)
Inductive input := InSignal (s : Named.object) | InPayload (p : Named.object) | InAudio (a : audio_frame).

Definition handle {S} (ops : plugin_ops S) (s : S) (i : input) : S * list flow_event :=
  match i with
  | InSignal x => OnSignal ops s x
  | InPayload x => OnPayload ops s x
  | InAudio x => OnAudio ops s x
  end.

(** A node hands its plugin one event at a time. *)
Fixpoint handle_all {S} (ops : plugin_ops S) (s : S) (ins : list input) : S * list flow_event :=
  match ins with
  | [] => (s, [])
  | i :: ins =>
      let '(s, out) := handle ops s i in
      let '(s, out') := handle_all ops s ins in (s, out ++ out')
  end.

Lemma handle_all_cons {S} (ops : plugin_ops S) s i ins s1 o1 :
  handle ops s i = (s1, o1) →
  handle_all ops s (i :: ins) = let '(s2, o2) := handle_all ops s1 ins in (s2, o1 ++ o2).
Proof. simpl. by intros ->. Qed.

Lemma handle_all_app {S} (ops : plugin_ops S) s xs ys :
  handle_all ops s (xs ++ ys) =
    let '(s1, o1) := handle_all ops s xs in
    let '(s2, o2) := handle_all ops s1 ys in (s2, o1 ++ o2).
Proof.
  revert s. induction xs as [|x xs IH]; intros s; simpl.
  - by destruct (handle_all ops s ys).
  - destruct (handle ops s x) as [s1 o1]. rewrite IH.
    destruct (handle_all ops s1 xs) as [s2 o2].
    destruct (handle_all ops s2 ys) as [s3 o3]. by rewrite app_assoc.
Qed.

(** An invariant of the handlers holds after any history. *)
Lemma handle_all_inv {S} (ops : plugin_ops S) (I : S → Prop) s ins :
  (∀ s i, I s → I (handle ops s i).1) → I s → I (handle_all ops s ins).1.
Proof.
  intros Hstep. revert s. induction ins as [|i ins IH]; intros s Hs; simpl; [done|].
  specialize (Hstep s i Hs). destruct (handle ops s i) as [s1 o1].
  specialize (IH s1 Hstep). by destruct (handle_all ops s1 ins).
Qed.

(** ** Reading and writing properties *)
Definition as_string (v : anyv) : option string := match v with VString s => Some s | _ => None end.
Definition as_bool (v : anyv) : option bool := match v with VBool b => Some b | _ => None end.
Definition as_bytes (v : anyv) : option (list Z) := match v with VBytes b => Some b | _ => None end.

(** [schema.GetAs(p, k, "")] and [schema.GetAs(p, k, false)]. *)
Definition get_string (p : Named.object) (k : string) : string := GetAs "" as_string (Named.props p) k [""].
Definition get_bool (p : Named.object) (k : string) : bool := GetAs false as_bool (Named.props p) k [false].

Section build.
Context (Marshal : anyv → result schema_error (list Z)) (grow : nat → nat → nat).

(** [_ = out.Set(k, v)]. *)
Definition set_ignored (o : Named.object) (kv : string * anyv) : Named.object :=
  match Set_ Marshal grow (Named.props o) kv.1 kv.2 with
  | Ok p => Named.mkObject (Named.obj_kind o) p (Named.name o)
  | Err _ => o
  end.

Definition freeze (o : Named.object) : Named.object :=
  Named.mkObject (Named.obj_kind o) (setReadOnly (Named.props o)) (Named.name o).

Definition new_payload (n : string) : Named.object := Named.mkObject Named.KPayload empty_props n.
Definition new_signal (n : string) : Named.object :=
  freeze (Named.mkObject Named.KSignal empty_props n).

Definition make_payload (n : string) (kvs : list (string * anyv)) : Named.object :=
  freeze (foldl set_ignored (new_payload n) kvs).

(** What the receivers of such a payload read. *)
Lemma foldl_set_view kvs o :
  props_wf (Named.props o) → readonly (Named.props o) = false →
  Forall (λ kv, immutable kv.2 = true) kvs →
  let o' := foldl set_ignored o kvs in
  props_wf (Named.props o') ∧ Named.name o' = Named.name o ∧
  view (Named.props o') = foldl (λ m kv, <[kv.1 := kv.2]> m) (view (Named.props o)) kvs.
Proof.
  revert o. induction kvs as [|[k v] kvs IH]; intros o Hwf Hr Hi; simpl; [done|].
  inversion_clear Hi as [|?? Hv Hi']. simpl in Hv.
  assert (snapshot Marshal v = Ok v) as Hs by by destruct v.
  assert (∃ p, Set_ Marshal grow (Named.props o) k v = Ok p) as [p Hp].
  { unfold Set_. rewrite Hr, Hs. simpl. eauto. }
  destruct (Set_ok _ _ _ _ _ _ Hwf Hp) as (_ & Hr' & Hwf' & dst & Hs' & Hview).
  rewrite Hs in Hs'. injection Hs' as <-. unfold set_ignored. simpl. rewrite Hp.
  destruct (IH (Named.mkObject (Named.obj_kind o) p (Named.name o)) Hwf' Hr' Hi') as (? & ? & Hv').
  simpl in Hv'. by rewrite <-Hview.
Qed.

Lemma make_payload_view n kvs :
  Forall (λ kv, immutable kv.2 = true) kvs →
  Named.name (make_payload n kvs) = n ∧
  view (Named.props (make_payload n kvs)) = foldl (λ m kv, <[kv.1 := kv.2]> m) ∅ kvs.
Proof.
  intros Hi. destruct (foldl_set_view kvs (new_payload n)) as (_ & Hn & Hv); [exact (@nil_slice_wf entry)|done..|].
  split; [exact Hn|exact Hv].
Qed.

Lemma get_string_view o k s : view (Named.props o) !! k = Some (VString s) → get_string o k = s.
Proof. unfold get_string, GetAs. rewrite Get_view. by intros ->. Qed.
Lemma get_bool_view o k b : view (Named.props o) !! k = Some (VBool b) → get_bool o k = b.
Proof. unfold get_bool, GetAs. rewrite Get_view. by intros ->. Qed.

(** The payload of one LLM chunk. *)
Definition llm_chunk (text : string) (isFinal : bool) : Named.object :=
  make_payload PayloadLLMChunk [("sentence", VString text); ("is_final", VBool isFinal)].

Lemma llm_chunk_read text isFinal :
  Named.name (llm_chunk text isFinal) = PayloadLLMChunk ∧
  get_string (llm_chunk text isFinal) "sentence" = text ∧
  get_bool (llm_chunk text isFinal) "is_final" = isFinal.
Proof.
  destruct (make_payload_view PayloadLLMChunk
    [("sentence", VString text); ("is_final", VBool isFinal)]) as [Hn Hv]; [by repeat constructor|].
  split; [exact Hn|]. split.
  - apply get_string_view. unfold llm_chunk. rewrite Hv. simpl. by simplify_map_eq.
  - apply get_bool_view. unfold llm_chunk. rewrite Hv. simpl. by simplify_map_eq.
Qed.
End build.
