(* ===== verification/MdFilter.v ===== *)
(** * Markdown filter: internal/plugins/md_filter/plugin.go

    The plugin strips Markdown from the text an LLM streams, so that speech
    synthesis does not read it aloud.  The text arrives in chunks that may
    cut a code fence or a link anywhere, hence the state kept between chunks.
    The filter is shown to be a transducer on runes: the cut points do not
    matter, and what passes is clean. *)

From S2P Require Import Prelude.
From S2P Require Import GoStrings.
From S2P Require Import Utf8.
From S2P Require Import Schema.
From S2P Require Import PluginFlow.

Inductive filter_state := stateNormal | stateInCodeBlock | stateInLinkUrl.
#[export] Instance filter_state_eq_dec : EqDecision filter_state.
Proof. solve_decision. Defined.

Record Plugin := mkPlugin_md {
  state : filter_state;
  backtickBuf : string;
  seenCloseBracket : bool;
}.

Definition NewPlugin : Plugin := mkPlugin_md stateNormal "" false.

(** The runes the code names. *)
Definition backtick : Z := 96.
Definition lparen : Z := 40.
Definition rparen : Z := 41.
Definition rbracket : Z := 93.
(** [r == '*' || r == '_' || r == '~' || r == '#' || r == '>' || r == '[' ||
    r == '\\']. *)
Definition dropped : list Z := [42; 95; 126; 35; 62; 91; 92]%Z.

(** The loop of [filter].  Its argument is [runes[i:]] and [i--; continue]
    goes round again at the same rune, so the recursion takes fuel. *)
Fixpoint filter_loop (fuel : nat) (p : Plugin) (out : list Z) (rs : list Z) : Plugin * list Z :=
  match fuel, rs with
  | S fuel, r :: rest =>
      if decide (r = backtick) then
        filter_loop fuel (mkPlugin_md (state p) (backtickBuf p +:+ string_of_runes [r]) false) out rest
      else if decide (0 < String.length (backtickBuf p)) then
        let count := String.length (backtickBuf p) in
        let st := if decide (3 ≤ count)
                  then if decide (state p = stateInCodeBlock) then stateNormal else stateInCodeBlock
                  else state p in
        filter_loop fuel (mkPlugin_md st "" (seenCloseBracket p)) out rs
      else if decide (state p = stateInCodeBlock) then filter_loop fuel p out rest
      else if decide (state p = stateInLinkUrl) then
        filter_loop fuel
          (if decide (r = rparen) then mkPlugin_md stateNormal (backtickBuf p) (seenCloseBracket p) else p)
          out rest
      else if bool_decide (r = lparen) && seenCloseBracket p then
        filter_loop fuel (mkPlugin_md stateInLinkUrl (backtickBuf p) false) out rest
      else
        let p := mkPlugin_md (state p) (backtickBuf p) false in
        if decide (r ∈ dropped) then filter_loop fuel p out rest
        else if decide (r = rbracket)
        then filter_loop fuel (mkPlugin_md (state p) (backtickBuf p) true) out rest
        else filter_loop fuel p (out ++ [r]) rest
  | _, _ => (p, out)
  end.

(** Each rune is visited twice at most. *)
Definition filter (p : Plugin) (text : string) : Plugin * string :=
  let rs := runes text in
  let '(p, out) := filter_loop (2 * length rs) p [] rs in (p, string_of_runes out).

Section plugin.
Context (Marshal : anyv → result schema_error (list Z)) (grow : nat → nat → nat).

Definition md_OnSignal (p : Plugin) (signal : Named.object) : Plugin * list flow_event :=
  let p := if decide (Named.name signal = SignalInterrupter)
           then mkPlugin_md stateNormal "" false else p in
  (p, [SendSignal signal]).

Definition md_OnPayload (p : Plugin) (payload : Named.object) : Plugin * list flow_event :=
  if decide (Named.name payload ≠ PayloadLLMChunk) then (p, [SendPayload payload])
  else
    let text := get_string payload "sentence" in
    let isFinal := get_bool payload "is_final" in
    let '(p, filtered) := filter p text in
    if is_blank filtered && negb isFinal then (p, [])
    else (p, [SendPayload (llm_chunk Marshal grow filtered isFinal)]).

Definition md_plugin : plugin_ops Plugin :=
  mkPlugin md_OnSignal md_OnPayload (OnAudio (BuiltinPlugin Plugin)).
End plugin.

(** ** The transducer

    One rune at a time, the pending backticks resolved first. *)
Definition resolve (p : Plugin) : Plugin :=
  if decide (0 < String.length (backtickBuf p)) then
    mkPlugin_md
      (if decide (3 ≤ String.length (backtickBuf p))
       then if decide (state p = stateInCodeBlock) then stateNormal else stateInCodeBlock
       else state p) "" (seenCloseBracket p)
  else p.

Definition md_step (p : Plugin) (r : Z) : Plugin * list Z :=
  if decide (r = backtick)
  then (mkPlugin_md (state p) (backtickBuf p +:+ string_of_runes [r]) false, [])
  else
    let p := resolve p in
    match state p with
    | stateInCodeBlock => (p, [])
    | stateInLinkUrl =>
        (if decide (r = rparen) then mkPlugin_md stateNormal (backtickBuf p) (seenCloseBracket p) else p, [])
    | stateNormal =>
        if bool_decide (r = lparen) && seenCloseBracket p
        then (mkPlugin_md stateInLinkUrl (backtickBuf p) false, [])
        else (mkPlugin_md (state p) (backtickBuf p) (bool_decide (r = rbracket)),
              if decide (r ∈ dropped ∨ r = rbracket) then [] else [r])
    end.

Fixpoint transduce (p : Plugin) (rs : list Z) : Plugin * list Z :=
  match rs with
  | [] => (p, [])
  | r :: rs => let '(p, o) := md_step p r in let '(p, o') := transduce p rs in (p, o ++ o')
  end.

(** A round at a rune that is no backtick, once the backticks are resolved. *)
Lemma filter_loop_plain fuel p out r rest :
  r ≠ backtick → String.length (backtickBuf p) = 0 →
  filter_loop (S fuel) p out (r :: rest) =
    let '(p', o) := md_step p r in filter_loop fuel p' (out ++ o) rest.
Proof.
  intros Hr Hb. cbn [filter_loop]. unfold md_step, resolve.
  rewrite !(decide_False (P := r = backtick)), !(decide_False (P := 0 < _)) by (done || lia).
  cbv zeta. destruct (state p) eqn:Hs; simpl.
  - destruct (bool_decide (r = lparen) && seenCloseBracket p); simpl; [by rewrite app_nil_r|].
    destruct (decide (r ∈ dropped)) as [Hd|Hd].
    + rewrite decide_True by tauto. rewrite app_nil_r, bool_decide_eq_false_2; [done|].
      intros ->. revert Hd. by apply (bool_decide_unpack (rbracket ∉ dropped)).
    + destruct (decide (r = rbracket)).
      * by rewrite decide_True, app_nil_r, bool_decide_eq_true_2 by tauto.
      * by rewrite decide_False, bool_decide_eq_false_2 by tauto.
  - by rewrite app_nil_r.
  - rewrite app_nil_r. by case_decide.
Qed.

Lemma filter_loop_backtick fuel p out rest :
  filter_loop (S fuel) p out (backtick :: rest) =
    filter_loop fuel (md_step p backtick).1 out rest.
Proof. done. Qed.

(** A round that only resolves the backticks. *)
Lemma filter_loop_pending fuel p out r rest :
  r ≠ backtick → 0 < String.length (backtickBuf p) →
  filter_loop (S fuel) p out (r :: rest) = filter_loop fuel (resolve p) out (r :: rest).
Proof.
  intros Hr Hb. unfold resolve. rewrite (decide_True (P := 0 < _)) by done.
  remember (r :: rest) as rs eqn:Hrs. cbn [filter_loop]. rewrite Hrs.
  by rewrite (decide_False (P := r = backtick)), (decide_True (P := 0 < _)).
Qed.

Lemma resolve_idem p : String.length (backtickBuf (resolve p)) = 0 ∧ resolve (resolve p) = resolve p.
Proof.
  assert (String.length (backtickBuf (resolve p)) = 0) as H.
  { unfold resolve. case_decide; simpl; [done|lia]. }
  split; [done|]. unfold resolve at 1. rewrite decide_False by lia. done.
Qed.

Lemma md_step_resolve p r : r ≠ backtick → md_step (resolve p) r = md_step p r.
Proof.
  intros Hr. unfold md_step. rewrite !(decide_False (P := r = backtick)) by done.
  by rewrite (proj2 (resolve_idem p)).
Qed.

(** Two rounds per rune are enough, and then the loop is the transducer. *)
Lemma filter_loop_transduce fuel p out rs :
  2 * length rs ≤ fuel →
  filter_loop fuel p out rs = let '(p', o) := transduce p rs in (p', out ++ o).
Proof.
  revert fuel p out. induction rs as [|r rs IH]; intros fuel p out Hf.
  - destruct fuel; simpl; by rewrite app_nil_r.
  - simpl in Hf. destruct fuel as [|[|fuel]]; [lia..|].
    cbn [transduce]. destruct (decide (r = backtick)) as [->|Hr].
    + rewrite filter_loop_backtick, IH by lia. simpl. by destruct (transduce _ rs).
    + assert (∀ fuel p, 2 * length rs ≤ fuel → String.length (backtickBuf p) = 0 →
        filter_loop (S fuel) p out (r :: rs) =
          let '(p', o) := (let '(p1, o1) := md_step p r in
                           let '(p2, o2) := transduce p1 rs in (p2, o1 ++ o2)) in (p', out ++ o)) as Hplain.
      { intros fuel' p' Hf' Hb. rewrite filter_loop_plain by done.
        destruct (md_step p' r) as [p1 o1]. rewrite IH by done.
        destruct (transduce p1 rs). by rewrite app_assoc. }
      destruct (decide (0 < String.length (backtickBuf p))) as [Hb|Hb].
      * rewrite filter_loop_pending by done. rewrite Hplain; [|lia|apply resolve_idem].
        by rewrite md_step_resolve.
      * apply Hplain; lia.
Qed.

Lemma transduce_app p rs1 rs2 :
  transduce p (rs1 ++ rs2) =
    let '(p1, o1) := transduce p rs1 in
    let '(p2, o2) := transduce p1 rs2 in (p2, o1 ++ o2).
Proof.
  revert p. induction rs1 as [|r rs1 IH]; intros p; simpl.
  - by destruct (transduce p rs2).
  - destruct (md_step p r) as [p1 o1]. rewrite IH.
    destruct (transduce p1 rs1) as [p2 o2]. destruct (transduce p2 rs2). by rewrite app_assoc.
Qed.

Lemma filter_transduce p text :
  filter p text = let '(p', o) := transduce p (runes text) in (p', string_of_runes o).
Proof.
  unfold filter. rewrite filter_loop_transduce by done. by destruct (transduce p (runes text)).
Qed.

(** The chunks of a stream, one call each. *)
Fixpoint filter_chunks (p : Plugin) (chunks : list string) : Plugin * string :=
  match chunks with
  | [] => (p, "")
  | c :: cs => let '(p, o) := filter p c in let '(p, o') := filter_chunks p cs in (p, o +:+ o')
  end.

(** C39: The filter does not depend on how the stream is cut.  Calling it
    chunk by chunk on pieces of valid UTF-8, from any state a previous text
    left, yields the same text and the same state as one call on the
    concatenation: a fence or a link may be split anywhere. *)
Theorem filter_chunk_independent p chunks :
  Forall (λ c, valid_utf8 c = true) chunks →
  filter_chunks p chunks = filter p (concat_strings chunks).
Proof.
  intros Hv. revert p. induction Hv as [|c cs Hc _ IH]; intros p; simpl; [done|].
  rewrite !filter_transduce, runes_app, transduce_app by done.
  destruct (transduce p (runes c)) as [p1 o1]. rewrite IH, filter_transduce.
  destruct (transduce p1 (runes (concat_strings cs))) as [p2 o2].
  by rewrite string_of_runes_app.
Qed.

Lemma filter_chunk_independent_witness :
  filter_chunks NewPlugin ["see [the d"; "oc](htt"; "p://x) `"; "``go"; "``"; "` now"] =
    filter NewPlugin "see [the doc](http://x) ```go``` now" ∧
  (filter NewPlugin "see [the doc](http://x) ```go``` now").2 = "see the doc  now".
Proof.
  split; [|reflexivity].
  apply (filter_chunk_independent NewPlugin ["see [the d"; "oc](htt"; "p://x) `"; "``go"; "``"; "` now"]).
  by repeat constructor.
Defined.

(** ** What passes *)
Definition markup : list Z := backtick :: rbracket :: dropped.

(** Whatever the state and the input, the text that leaves the filter is
    a subsequence of the input's runes and has none of the Markdown
    characters. *)
Theorem filter_output_clean p text :
  ∃ o, (filter p text).2 = string_of_runes o ∧ o `sublist_of` runes text ∧
    Forall (λ r, r ∉ markup) o.
Proof.
  rewrite filter_transduce. destruct (transduce p (runes text)) as [p' o] eqn:E.
  exists o. split; [done|]. simpl. revert p p' o E.
  induction (runes text) as [|r rs IH]; simpl; intros p p' o E; [by simplify_eq|].
  destruct (md_step p r) as [p1 o1] eqn:E1. destruct (transduce p1 rs) as [p2 o2] eqn:E2.
  simplify_eq. destruct (IH _ _ _ E2) as [Hs Hf].
  assert (o1 = [] ∨ o1 = [r] ∧ r ∉ markup) as [->|[-> Hr]].
  - revert E1. unfold md_step. repeat (case_decide || case_match); intros; simplify_eq; auto;
      right; (split; [done|]); unfold markup; rewrite !not_elem_of_cons; naive_solver.
  - split; [by apply sublist_cons|done].
  - split; [by apply sublist_skip|by constructor].
Qed.

(** ** Documents

    A stream of Markdown as its parts, each followed by ordinary text where
    the language asks for it: plain text, emphasis and heading marks, links,
    inline code and code fences. *)
Inductive segment :=
| Plain (text : list Z)
| Mark (r : Z)
| Link (label url : list Z)
| Inline (code : list Z) (next : Z)
| Fence (code : list Z) (next : Z).

Definition plain (r : Z) : Prop := valid_rune r ∧ r ∉ markup.

Definition segment_wf (s : segment) : Prop :=
  match s with
  | Plain text => Forall plain text
  | Mark r => r ∈ dropped
  | Link label url =>
      Forall plain label ∧ Forall (λ r, valid_rune r ∧ r ≠ backtick ∧ r ≠ rparen) url
  | Inline code next => code ≠ [] ∧ Forall plain code ∧ plain next
  | Fence code next =>
      code ≠ [] ∧ Forall (λ r, valid_rune r ∧ r ≠ backtick) code ∧ plain next
  end.

#[export] Instance plain_dec r : Decision (plain r).
Proof. unfold plain. apply _. Defined.
#[export] Instance segment_wf_dec s : Decision (segment_wf s).
Proof. destruct s; simpl; apply _. Defined.

Definition fence : list Z := [backtick; backtick; backtick].

Definition render (s : segment) : list Z :=
  match s with
  | Plain text => text
  | Mark r => [r]
  | Link label url => [91%Z] ++ label ++ [rbracket; lparen] ++ url ++ [rparen]
  | Inline code next => [backtick] ++ code ++ [backtick; next]
  | Fence code next => fence ++ code ++ fence ++ [next]
  end.

Definition visible (s : segment) : list Z :=
  match s with
  | Plain text => text
  | Mark _ => []
  | Link label _ => label
  | Inline code next => code ++ [next]
  | Fence _ next => [next]
  end.

Lemma md_step_plain r b :
  plain r → b = false ∨ r ≠ lparen → md_step (mkPlugin_md stateNormal "" b) r = (NewPlugin, [r]).
Proof.
  intros [_ Hr] Hb. unfold markup in Hr. rewrite !not_elem_of_cons in Hr.
  destruct Hr as (? & ? & ?). unfold md_step.
  rewrite (decide_False (P := r = backtick)) by done. simpl.
  assert (bool_decide (r = lparen) && b = false) as ->.
  { destruct Hb as [->|Hb]; [by rewrite andb_false_r|by rewrite bool_decide_eq_false_2]. }
  rewrite bool_decide_eq_false_2, decide_False by tauto. done.
Qed.

Lemma transduce_plain text :
  Forall plain text → transduce NewPlugin text = (NewPlugin, text).
Proof.
  induction 1 as [|r text Hr _ IH]; simpl; [done|].
  unfold NewPlugin at 1. rewrite md_step_plain by auto. by rewrite IH.
Qed.

(** In a state that absorbs, everything but the way out disappears. *)
Lemma transduce_absorb p rs :
  Forall (λ r, md_step p r = (p, [])) rs → transduce p rs = (p, []).
Proof. induction 1 as [|r rs Hr _ IH]; simpl; [done|]. by rewrite Hr, IH. Qed.

Lemma transduce_Link label url :
  segment_wf (Link label url) → transduce NewPlugin (render (Link label url)) = (NewPlugin, label).
Proof.
  intros [Hl Hu]. simpl. rewrite transduce_app, transduce_plain by done. simpl.
  rewrite transduce_app, transduce_absorb; [simpl; by rewrite app_nil_r|].
  eapply Forall_impl; [exact Hu|]. simpl. intros r (_ & Hb & Hr).
  unfold md_step. rewrite decide_False by done. simpl. by rewrite decide_False.
Qed.

Lemma transduce_Fence code next :
  segment_wf (Fence code next) → transduce NewPlugin (render (Fence code next)) = (NewPlugin, [next]).
Proof.
  intros (Hne & Hc & Hn). simpl. destruct code as [|r code]; [done|].
  inversion_clear Hc as [|?? [_ Hr] Hc'].
  rewrite transduce_app. cbn [transduce].
  unfold md_step at 1. rewrite (decide_False (P := r = backtick)) by done. simpl.
  rewrite transduce_absorb; simpl.
  - rewrite <-(md_step_resolve _ next).
    + change (resolve _) with NewPlugin. unfold NewPlugin at 1. by rewrite md_step_plain by auto.
    + destruct Hn as [_ Hn]. unfold markup in Hn. set_solver.
  - eapply Forall_impl; [exact Hc'|]. simpl. intros r' (_ & Hb).
    unfold md_step. by rewrite decide_False.
Qed.

Lemma plain_not_backtick r : plain r → r ≠ backtick.
Proof. intros [_ Hr] ->. apply Hr. by left. Qed.

Lemma transduce_Inline code next :
  segment_wf (Inline code next) →
  transduce NewPlugin (render (Inline code next)) = (NewPlugin, code ++ [next]).
Proof.
  intros (Hne & Hc & Hn). simpl. destruct code as [|r code]; [done|].
  inversion_clear Hc as [|?? Hr Hc'].
  rewrite transduce_app. cbn [transduce].
  rewrite <-(md_step_resolve _ r) by by apply plain_not_backtick.
  change (resolve _) with NewPlugin. unfold NewPlugin at 1. rewrite md_step_plain by auto.
  rewrite transduce_plain by done. simpl.
  rewrite <-(md_step_resolve _ next) by by apply plain_not_backtick.
  change (resolve _) with NewPlugin. unfold NewPlugin at 1. by rewrite md_step_plain by auto.
Qed.

Lemma dropped_ne r : r ∈ dropped → r ≠ backtick ∧ r ≠ rbracket.
Proof. revert r. apply Forall_forall. by apply (bool_decide_unpack _). Qed.

Lemma transduce_segment s :
  segment_wf s → transduce NewPlugin (render s) = (NewPlugin, visible s).
Proof.
  destruct s as [text|r|label url|code next|code next]; intros Hwf.
  - by apply transduce_plain.
  - destruct (dropped_ne r Hwf) as (? & ?). cbn. unfold md_step. rewrite decide_False by done. simpl.
    by rewrite andb_false_r, bool_decide_eq_false_2, decide_True by auto.
  - by apply transduce_Link.
  - by apply transduce_Inline.
  - by apply transduce_Fence.
Qed.

Lemma render_valid s : segment_wf s → Forall valid_rune (render s).
Proof.
  assert (∀ l, Forall plain l → Forall valid_rune l) as Hp.
  { intros l Hl. eapply Forall_impl; [exact Hl|]. by intros ? []. }
  assert (∀ l (P : Z → Prop), Forall (λ r, valid_rune r ∧ P r) l → Forall valid_rune l) as Hv.
  { intros l P Hl. eapply Forall_impl; [exact Hl|]. by intros ? []. }
  destruct s as [text|r|label url|code next|code next]; intros Hwf; simpl in *.
  - auto.
  - constructor; [|constructor]. revert r Hwf. apply Forall_forall. by apply (bool_decide_unpack _).
  - destruct Hwf as [Hl Hu]. apply Hp in Hl. apply Hv in Hu. decompose_Forall; auto; by apply (bool_decide_unpack _).
  - destruct Hwf as (_ & Hc & [Hn _]). apply Hp in Hc. decompose_Forall; auto; by apply (bool_decide_unpack _).
  - destruct Hwf as (_ & Hc & [Hn _]). apply Hv in Hc. unfold fence. decompose_Forall; auto; by apply (bool_decide_unpack _).
Qed.

(** The filter computes the reading text of a Markdown document: on any
    sequence of plain text, marks, links, inline code and fences it returns
    the plain text, the link labels and the inline code, without the marks,
    the URLs and the fenced code, and ends in its initial state. *)
Theorem filter_reads_documents doc :
  Forall segment_wf doc →
  filter NewPlugin (string_of_runes (doc ≫= render)) =
    (NewPlugin, string_of_runes (doc ≫= visible)).
Proof.
  intros Hwf. rewrite filter_transduce, runes_string_of_runes.
  - assert (transduce NewPlugin (doc ≫= render) = (NewPlugin, doc ≫= visible)) as ->; [|done].
    induction Hwf as [|s doc Hs _ IH]; [done|]. rewrite !bind_cons.
    by rewrite transduce_app, transduce_segment, IH.
  - induction Hwf as [|s doc Hs _ IH]; [constructor|]. rewrite bind_cons.
    apply Forall_app. auto using render_valid.
Qed.

Lemma filter_reads_documents_witness :
  filter NewPlugin "# A [b](c) **`d` e** ```f``` g" = (NewPlugin, " A b d e  g").
Proof.
  apply (filter_reads_documents [Mark 35; Plain [32; 65; 32]; Link [98] [99]; Plain [32]; Mark 42; Mark 42;
    Inline [100] 32; Plain [101]; Mark 42; Mark 42; Plain [32]; Fence [102] 32; Plain [103]]%Z).
  by apply (bool_decide_unpack _).
Defined.

(** The state survives the end of an answer: a fence that an answer leaves
    open swallows the next answer. *)
Lemma open_fence_swallows_next_answer :
  let chunk := λ t, llm_chunk demo_Marshal demo_grow t true in
  (handle_all (md_plugin demo_Marshal demo_grow) NewPlugin
     (InPayload <$> [chunk "Try: ```go run"; chunk "Hello again."])).2 =
  [SendPayload (chunk "Try: "); SendPayload (chunk "")].
Proof. vm_compute. reflexivity. Qed.
