(* ===== verification/LlmBase.v ===== *)
(** * Language-model plugins: internal/plugins/base/llm

    [base.go] turns the final transcription of the user into a request to a
    chat service and streams its answer into the workflow sentence by
    sentence; [session.go] keeps the recent messages; [data/message.go] and
    [data/content.go] are the messages.  The service is the [Provider]
    interface: an argument that maps a request to the chunks it delivers and
    the error it ends with.  The Unicode tables are arguments too. *)

From S2P Require Import Prelude.
From S2P Require Import GoStrings.
From S2P Require Import Utf8.
From S2P Require Import Schema.
From S2P Require Import PluginFlow.

(** ** data/content.go, data/message.go *)
Inductive Content := TextContent (text : string) | ImageContent (url detail : string).

Inductive Message :=
| SystemMessage (content : string)
| AssistantMessage (content : string)
| UserMessage (name : string) (contents : list Content).

Definition is_system (m : Message) : bool := match m with SystemMessage _ => true | _ => false end.

(** ** session.go *)
Record CacheSession := mkSession { messages : list Message; capSize : Z }.

Definition NewCacheSession (capSize : Z) : CacheSession := mkSession [] capSize.

Definition AddMessage (s : CacheSession) (ms : list Message) : CacheSession :=
  let all := messages s ++ ms in
  let n := Z.of_nat (length all) in
  if decide (capSize s < n)%Z
  then mkSession (drop (Z.to_nat (n - capSize s)) all) (capSize s)
  else mkSession all (capSize s).

Definition Messages (s : CacheSession) : list Message := messages s.

(** ** base.go *)
Record BaseConfig := mkConfig { Prompt : string; HistoryLimit : Z; FailedMessage : string }.
Record BasePlugin := mkBase { Config : BaseConfig; Session : CacheSession }.

Definition Init (config : BaseConfig) : BasePlugin :=
  let limit := if decide (HistoryLimit config ≤ 0)%Z then 10%Z else HistoryLimit config in
  mkBase (mkConfig (Prompt config) limit (FailedMessage config)) (NewCacheSession limit).

Inductive chat_error := Canceled | Failed (code : Z).
#[export] Instance chat_error_eq_dec : EqDecision chat_error.
Proof. solve_decision. Defined.

Definition minSentenceLen : nat := 20.

(** The runes of [isBoundary] and those that end a sentence of any length. *)
Definition terminators : list Z := [12290; 65281; 65311; 33; 63; 10; 13]%Z.
Definition separators : list Z := [65292; 44; 65307; 59; 65306; 58]%Z.

Section llm.
Context (IsLetter IsDigit : Z → bool).
Context (Marshal : anyv → result schema_error (list Z)) (grow : nat → nat → nat).

Definition hasAlphaNum (s : string) : bool := existsb (λ r, IsLetter r || IsDigit r) (runes s).

Definition isBoundary (r : Z) : bool := bool_decide (r ∈ terminators ∨ r ∈ separators).

Definition shouldSplit (s : string) (lastRune : Z) : bool :=
  let trimmed := TrimSpace s in
  if bool_decide (trimmed = "") || negb (hasAlphaNum trimmed) then false
  else if decide (lastRune ∈ terminators) then true
  else bool_decide (minSentenceLen ≤ length (runes trimmed)).

(** The loop of [parseSentences] over the runes of the chunk. *)
Fixpoint parse_loop (fragment : string) (rs : list Z) : list string * string :=
  match rs with
  | [] => ([], fragment)
  | char :: rs =>
      let fragment := fragment +:+ string_of_runes [char] in
      if isBoundary char && shouldSplit fragment char
      then let '(ss, f) := parse_loop "" rs in (fragment :: ss, f)
      else parse_loop fragment rs
  end.

Definition parseSentences (fragment content : string) : list string * string :=
  parse_loop fragment (runes content).

Definition sendOutput (text : string) (isFinal : bool) : flow_event :=
  SendPayload (llm_chunk Marshal grow text isFinal).

(** [Provider.StreamChat]: the contents of the chunks it hands to the
    handler, in order, and its error. *)
Context (StreamChat : list Message → list string * option chat_error).

(** The request of [streamChat]. *)
Definition all_messages (e : BasePlugin) (ms : list Message) : list Message :=
  let all := Messages (Session e) ++ ms in
  match all with
  | [] => []
  | m :: _ => if negb (is_system m) && bool_decide (Prompt (Config e) ≠ "")
              then SystemMessage (Prompt (Config e)) :: all else all
  end.

(** The handler of the chunks: chunks without text are skipped; the others
    are collected and split. *)
Fixpoint on_chunks (fragment builder : string) (chunks : list string)
    : string * string * list flow_event :=
  match chunks with
  | [] => (fragment, builder, [])
  | c :: cs =>
      if decide (c = "") then on_chunks fragment builder cs
      else
        let '(ss, fragment) := parseSentences fragment c in
        let '(fragment, builder, out) := on_chunks fragment (builder +:+ c) cs in
        (fragment, builder, ((λ s, sendOutput s false) <$> ss) ++ out)
  end.

Definition streamChat (e : BasePlugin) (ms : list Message)
    : BasePlugin * option chat_error * string * list flow_event :=
  let '(chunks, err) := StreamChat (all_messages e ms) in
  let '(fragment, builder, out) := on_chunks "" "" chunks in
  match err with
  | Some er => (e, Some er, fragment, out)
  | None =>
      (mkBase (Config e) (AddMessage (Session e) (ms ++ [AssistantMessage builder])), None, fragment, out)
  end.

Definition user_message (text : string) : Message := UserMessage "user" [TextContent text].

Definition processMessage (e : BasePlugin) (text : string) : BasePlugin * list flow_event :=
  let '(e, err, fragment, out) := streamChat e [user_message text] in
  if bool_decide (err ≠ None ∧ err ≠ Some Canceled) && bool_decide (FailedMessage (Config e) ≠ "")
  then (e, out ++ [sendOutput (FailedMessage (Config e)) true])
  else if is_blank fragment then (e, out ++ [sendOutput "" true])
  else (e, out ++ [sendOutput fragment true]).

Definition llm_OnPayload (e : BasePlugin) (d : Named.object) : BasePlugin * list flow_event :=
  let isFinal := get_bool d "is_final" in
  let text := get_string d "text" in
  if negb isFinal || bool_decide (text = "") then (e, [])
  else processMessage e text.

Definition llm_plugin : plugin_ops BasePlugin :=
  mkPlugin (OnSignal (BuiltinPlugin BasePlugin)) llm_OnPayload (OnAudio (BuiltinPlugin BasePlugin)).

(** ** Sentences *)

(** What is sent before the end of an answer: it has a letter or a digit,
    its last rune is a boundary, and it is a full sentence or a long clause. *)
Definition sendable (s : string) : Prop :=
  hasAlphaNum (TrimSpace s) = true ∧
  ∃ s' r, s = s' +:+ string_of_runes [r] ∧
    (r ∈ terminators ∨ r ∈ separators ∧ minSentenceLen ≤ length (runes (TrimSpace s))).

Lemma shouldSplit_sendable f r :
  isBoundary r = true → shouldSplit (f +:+ string_of_runes [r]) r = true →
  sendable (f +:+ string_of_runes [r]).
Proof.
  intros Hb%bool_decide_eq_true_1. unfold shouldSplit, sendable.
  destruct (bool_decide _ || negb _) eqn:E; [done|].
  apply orb_false_iff in E as [_ E]. apply negb_false_iff in E. intros Hs.
  split; [done|]. exists f, r. split; [done|].
  case_decide; [by left|]. apply bool_decide_eq_true_1 in Hs. naive_solver.
Qed.

Lemma parse_loop_spec f rs ss f' :
  parse_loop f rs = (ss, f') →
  concat_strings ss +:+ f' = f +:+ string_of_runes rs ∧ Forall sendable ss.
Proof.
  revert f ss f'. induction rs as [|r rs IH]; intros f ss f'; cbn [parse_loop].
  - intros [= <- <-]. split; [|constructor]. simpl. by rewrite string_app_nil_r.
  - rewrite (string_of_runes_app [r] rs : string_of_runes (r :: rs) = _), string_app_assoc.
    destruct (isBoundary r && shouldSplit _ r) eqn:Hb; [|apply IH].
    apply andb_true_iff in Hb as [Hb Hs].
    destruct (parse_loop "" rs) as [ss1 f1] eqn:E. intros [= <- <-].
    apply IH in E as [E Hf]. split.
    + change (concat_strings (?a :: ss1)) with (a +:+ concat_strings ss1). by rewrite <-string_app_assoc, E.
    + constructor; [|done]. by apply shouldSplit_sendable.
Qed.

Lemma parse_loop_app f rs1 rs2 :
  parse_loop f (rs1 ++ rs2) =
    let '(ss1, f1) := parse_loop f rs1 in
    let '(ss2, f2) := parse_loop f1 rs2 in (ss1 ++ ss2, f2).
Proof.
  revert f. induction rs1 as [|r rs1 IH]; intros f; cbn [parse_loop app].
  - by destruct (parse_loop f rs2).
  - destruct (isBoundary r && shouldSplit _ r); rewrite IH.
    + destruct (parse_loop "" rs1) as [ss1 f1]. by destruct (parse_loop f1 rs2).
    + done.
Qed.

(** The handler sends the sentences of the whole answer, whatever the chunks. *)
Lemma on_chunks_spec fragment builder chunks :
  Forall (λ c, valid_utf8 c = true) chunks →
  on_chunks fragment builder chunks =
    let '(ss, f) := parseSentences fragment (concat_strings chunks) in
    (f, builder +:+ concat_strings chunks, (λ s, sendOutput s false) <$> ss).
Proof.
  intros Hv. revert fragment builder. induction Hv as [|c cs Hc _ IH]; intros fragment builder; simpl.
  - by rewrite string_app_nil_r.
  - case_decide as He; [subst; apply IH|].
    unfold parseSentences. rewrite runes_app, parse_loop_app by done.
    destruct (parse_loop fragment (runes c)) as [ss f].
    rewrite IH. unfold parseSentences. destruct (parse_loop f _) as [ss2 f2].
    by rewrite fmap_app, string_app_assoc.
Qed.

Lemma parseSentences_spec chunks :
  Forall (λ c, valid_utf8 c = true) chunks →
  ∃ ss f, parseSentences "" (concat_strings chunks) = (ss, f) ∧
    concat_strings ss +:+ f = concat_strings chunks ∧ Forall sendable ss.
Proof.
  intros Hv. destruct (parseSentences "" (concat_strings chunks)) as [ss f] eqn:E.
  exists ss, f. split; [done|]. apply parse_loop_spec in E as [E Hs]. split; [|done].
  rewrite E, runes_concat by done. clear E Hs.
  induction Hv as [|c cs Hc _ IH]; [done|]. rewrite bind_cons, string_of_runes_app.
  change ("" +:+ ?x) with x in IH |- *. rewrite IH.
  by rewrite (proj1 (valid_utf8_ok c) Hc).
Qed.

(** An answer reaches the workflow whole and in order.  When the
    provider delivers the chunks without an error, the plugin sends some
    sentences, none of them final, and then exactly one final chunk: together
    they are the answer, cut only after boundaries and independently of the
    chunks (a remainder of white space alone is replaced by the empty
    string).  Each sentence sent early has a letter or a digit and is a full
    sentence or a clause of at least twenty runes.  The session records the
    question and the whole answer. *)
Theorem answer_is_streamed e text chunks :
  StreamChat (all_messages e [user_message text]) = (chunks, None) →
  Forall (λ c, valid_utf8 c = true) chunks →
  ∃ ss rest,
    parseSentences "" (concat_strings chunks) = (ss, rest) ∧
    concat_strings ss +:+ rest = concat_strings chunks ∧ Forall sendable ss ∧
    processMessage e text =
      (mkBase (Config e) (AddMessage (Session e)
         [user_message text; AssistantMessage (concat_strings chunks)]),
       ((λ s, sendOutput s false) <$> ss) ++
         [sendOutput (if is_blank rest then "" else rest) true]).
Proof.
  intros HS Hv. destruct (parseSentences_spec chunks Hv) as (ss & rest & Hp & Hc & Hs).
  exists ss, rest. repeat (split; [done|]).
  unfold processMessage, streamChat. rewrite HS, on_chunks_spec, Hp by done. simpl.
  by destruct (is_blank rest).
Qed.

(** A failed request leaves no trace in the session.  What had arrived
    is sent as far as it makes sentences; the last chunk is final and holds
    the configured apology, or, when the request was cancelled or no apology
    is configured, the remainder of the answer. *)
Theorem failed_request_apologises e text chunks er :
  StreamChat (all_messages e [user_message text]) = (chunks, Some er) →
  Forall (λ c, valid_utf8 c = true) chunks →
  ∃ ss rest,
    parseSentences "" (concat_strings chunks) = (ss, rest) ∧
    processMessage e text =
      (e, ((λ s, sendOutput s false) <$> ss) ++
        [sendOutput (if bool_decide (er ≠ Canceled ∧ FailedMessage (Config e) ≠ "")
                     then FailedMessage (Config e)
                     else if is_blank rest then "" else rest) true]).
Proof.
  intros HS Hv. destruct (parseSentences_spec chunks Hv) as (ss & rest & Hp & _ & _).
  exists ss, rest. split; [done|].
  unfold processMessage, streamChat. rewrite HS, on_chunks_spec, Hp by done. simpl.
  rewrite <-bool_decide_and.
  rewrite (bool_decide_ext _ (er ≠ Canceled ∧ FailedMessage (Config e) ≠ "")) by naive_solver.
  destruct (bool_decide _); [done|]. by destruct (is_blank rest).
Qed.
(** ** The conversation *)

(** The last [n] elements. *)
Definition last_n {A} (n : nat) (l : list A) : list A := drop (length l - n) l.

Lemma last_n_app {A} n (l k : list A) : last_n n (last_n n l ++ k) = last_n n (l ++ k).
Proof.
  unfold last_n. rewrite <-drop_app_le by lia. rewrite drop_drop, length_drop, !length_app.
  f_equal. lia.
Qed.

Lemma length_last_n {A} n (l : list A) : length (last_n n l) ≤ n.
Proof. unfold last_n. rewrite length_drop. lia. Qed.

Lemma AddMessage_spec s ms :
  (0 ≤ capSize s)%Z →
  AddMessage s ms = mkSession (last_n (Z.to_nat (capSize s)) (messages s ++ ms)) (capSize s).
Proof.
  intros Hc. unfold AddMessage, last_n. case_decide; f_equal.
  - f_equal. lia.
  - replace (_ - _) with 0 by lia. done.
Qed.

Lemma on_chunks_builder fragment builder chunks :
  (on_chunks fragment builder chunks).1.2 = builder +:+ concat_strings chunks.
Proof.
  revert fragment builder. induction chunks as [|c cs IH]; intros fragment builder; simpl.
  - by rewrite string_app_nil_r.
  - case_decide as He; [subst; apply IH|].
    destruct (parseSentences fragment c) as [ss f]. specialize (IH f (builder +:+ c)).
    destruct (on_chunks f (builder +:+ c) cs) as [[f' b'] out]. simpl in *.
    by rewrite IH, string_app_assoc.
Qed.

(** The messages one transcription adds: a question and its answer when the
    request succeeds, nothing otherwise. *)
Definition turn (e : BasePlugin) (d : Named.object) : list Message :=
  let text := get_string d "text" in
  if negb (get_bool d "is_final") || bool_decide (text = "") then []
  else match StreamChat (all_messages e [user_message text]) with
       | (chunks, None) => [user_message text; AssistantMessage (concat_strings chunks)]
       | (_, Some _) => []
       end.

Fixpoint conversation (e : BasePlugin) (ds : list Named.object) : list Message :=
  match ds with
  | [] => []
  | d :: ds => turn e d ++ conversation (llm_OnPayload e d).1 ds
  end.

Lemma llm_OnPayload_session e d :
  (llm_OnPayload e d).1 =
    if decide (turn e d = []) then e
    else mkBase (Config e) (AddMessage (Session e) (turn e d)).
Proof.
  unfold llm_OnPayload, turn. destruct (negb _ || _); [done|].
  unfold processMessage, streamChat.
  destruct (StreamChat _) as [chunks err].
  pose proof (on_chunks_builder "" "" chunks) as Hb.
  destruct (on_chunks "" "" chunks) as [[f b] out]. simpl in Hb. subst b.
  destruct err; simpl; by repeat case_match.
Qed.

Lemma turn_no_system e d : Forall (λ m, is_system m = false) (turn e d).
Proof. unfold turn. repeat case_match; repeat constructor. Qed.

(** What the session holds, as a function of what was said. *)
Record session_ok (cfg : BaseConfig) (said : list Message) (e : BasePlugin) : Prop := {
  so_config : Config e = Config (Init cfg);
  so_cap : capSize (Session e) = HistoryLimit (Config (Init cfg));
  so_messages : messages (Session e) = last_n (Z.to_nat (HistoryLimit (Config (Init cfg)))) said;
  so_said : Forall (λ m, is_system m = false) said;
}.

Lemma Init_limit cfg : (0 < HistoryLimit (Config (Init cfg)))%Z.
Proof. simpl. case_decide; lia. Qed.

Lemma session_ok_step cfg said e d :
  session_ok cfg said e → session_ok cfg (said ++ turn e d) (llm_OnPayload e d).1.
Proof.
  intros []. pose proof (Init_limit cfg). rewrite llm_OnPayload_session. case_decide as Ht.
  - rewrite Ht, app_nil_r. by split.
  - rewrite AddMessage_spec by lia. split; simpl; [done..| |].
    + by rewrite so_messages0, so_cap0, last_n_app.
    + apply Forall_app. auto using turn_no_system.
Qed.

Lemma session_ok_run cfg ds said e :
  session_ok cfg said e →
  session_ok cfg (said ++ conversation e ds) (handle_all llm_plugin e (InPayload <$> ds)).1.
Proof.
  revert said e. induction ds as [|d ds IH]; intros said e Hok; simpl.
  - by rewrite app_nil_r.
  - apply (session_ok_step _ _ _ d) in Hok. destruct (llm_OnPayload e d) as [e1 o1].
    apply IH in Hok. rewrite <-app_assoc in Hok.
    cbn [fst] in Hok |- *. change (list_fmap _ _ InPayload ds) with (InPayload <$> ds).
    by destruct (handle_all llm_plugin e1 (InPayload <$> ds)).
Qed.

(** The memory of a conversation is bounded and recent.  After any
    transcriptions the session holds exactly the last [HistoryLimit] messages
    of the questions that were answered and their answers (ten when the
    configured limit is not positive), and the next request is the system
    prompt, if there is one, that history and the new question, so it never
    has more than [HistoryLimit + 2] messages. *)
Theorem history_is_bounded cfg ds text :
  let e := (handle_all llm_plugin (Init cfg) (InPayload <$> ds)).1 in
  let limit := Z.to_nat (HistoryLimit (Config (Init cfg))) in
  Messages (Session e) = last_n limit (conversation (Init cfg) ds) ∧
  length (Messages (Session e)) ≤ limit ∧
  all_messages e [user_message text] =
    (if decide (Prompt cfg = "") then [] else [SystemMessage (Prompt cfg)]) ++
    Messages (Session e) ++ [user_message text] ∧
  length (all_messages e [user_message text]) ≤ limit + 2.
Proof.
  intros e limit.
  assert (session_ok cfg (conversation (Init cfg) ds) e) as [Hcfg Hcap Hm Hs].
  { apply (session_ok_run cfg ds [] (Init cfg)). split; [done..|constructor]. }
  assert (length (Messages (Session e)) ≤ limit) as Hlen.
  { unfold Messages. rewrite Hm. apply length_last_n. }
  assert (all_messages e [user_message text] =
    (if decide (Prompt cfg = "") then [] else [SystemMessage (Prompt cfg)]) ++
    Messages (Session e) ++ [user_message text]) as Ha.
  { unfold all_messages. assert (Prompt (Config e) = Prompt cfg) as -> by by rewrite Hcfg.
    assert (Forall (λ m, is_system m = false) (Messages (Session e) ++ [user_message text])) as Hf.
    { apply Forall_app. split; [|by repeat constructor]. unfold Messages. rewrite Hm.
      by apply Forall_drop. }
    destruct (Messages (Session e) ++ [user_message text]) as [|m l] eqn:El; [by destruct (Messages (Session e))|].
    apply Forall_cons_1 in Hf as [Hm0 _]. rewrite Hm0. simpl. case_decide as Hp.
    - rewrite bool_decide_eq_false_2; [done|naive_solver].
    - rewrite bool_decide_eq_true_2 by done. done. }
  repeat (split; [done|]). rewrite Ha, !length_app. simpl. case_decide; simpl; lia.
Qed.
End llm.

(** ** A concrete service, for evaluation *)
Definition ascii_letter (r : Z) : bool := bool_decide (65 ≤ r ≤ 90 ∨ 97 ≤ r ≤ 122)%Z.
Definition ascii_digit (r : Z) : bool := bool_decide (48 ≤ r ≤ 57)%Z.
Definition demo_chat (ms : list Message) : list string * option chat_error :=
  (["Hel"; "lo! How"; " are"; ""; " you? I am fi"; "ne"], None).
Definition failing_chat (ms : list Message) : list string * option chat_error :=
  (["Hel"; "lo! How"], Some (Failed 500)).
Definition demo_base : BasePlugin := Init (mkConfig "Be kind." 0 "Sorry.").

Lemma answer_is_streamed_witness :
  (processMessage ascii_letter ascii_digit demo_Marshal demo_grow demo_chat demo_base "hi").2 =
    [sendOutput demo_Marshal demo_grow "Hello!" false;
     sendOutput demo_Marshal demo_grow " How are you?" false;
     sendOutput demo_Marshal demo_grow " I am fine" true].
Proof.
  destruct (answer_is_streamed ascii_letter ascii_digit demo_Marshal demo_grow demo_chat demo_base "hi"
    ["Hel"; "lo! How"; " are"; ""; " you? I am fi"; "ne"] eq_refl) as (ss & rest & Hp & _ & _ & ->).
  - by apply (bool_decide_unpack _).
  - vm_compute in Hp. injection Hp as <- <-. reflexivity.
Defined.

Lemma failed_request_apologises_witness :
  processMessage ascii_letter ascii_digit demo_Marshal demo_grow failing_chat demo_base "hi" =
    (demo_base, [sendOutput demo_Marshal demo_grow "Hello!" false;
                 sendOutput demo_Marshal demo_grow "Sorry." true]).
Proof.
  destruct (failed_request_apologises ascii_letter ascii_digit demo_Marshal demo_grow failing_chat demo_base "hi"
    ["Hel"; "lo! How"] (Failed 500) eq_refl) as (ss & rest & Hp & ->).
  - by apply (bool_decide_unpack _).
  - vm_compute in Hp. injection Hp as <- <-. reflexivity.
Defined.

(** With an odd limit the history starts with an answer whose question is
    gone, and a limit of ten keeps five turns: the limit counts messages. *)
Lemma history_counts_messages :
  let said := make_payload demo_Marshal demo_grow PayloadASRResult
                [("text", VString "hi"); ("is_final", VBool true)] in
  let e := Init (mkConfig "" 3 "") in
  Messages (Session (handle_all (llm_plugin ascii_letter ascii_digit demo_Marshal demo_grow demo_chat) e
    [InPayload said; InPayload said]).1) =
  let answer := AssistantMessage "Hello! How are you? I am fine" in
  [answer; user_message "hi"; answer].
Proof. vm_compute. reflexivity. Qed.
