(* ===== verification/Captions.v ===== *)
(** * Plugins around the conversation

    [internal/plugins/interrupter/plugin.go] (turn taking),
    [internal/plugins/caption/plugin.go] (captions of both speakers) and
    [internal/plugins/sink/plugin.go] (what the client receives). *)

From S2P Require Import Prelude.
From S2P Require Import Protocol.
From S2P Require Import Utf8.
From S2P Require Import Schema.
From S2P Require Import PluginFlow.

(** ** interrupter/plugin.go *)
Module Interrupter.
Record InterrupterPlugin := mkInterrupter { speaking : bool }.

Definition OnPayload_interrupter (e : InterrupterPlugin) (data : Named.object) : InterrupterPlugin * list flow_event :=
  let isFinal := get_bool data "is_final" in
  if negb isFinal && negb (speaking e) then
    (mkInterrupter true,
     [SendSignal (new_signal SignalInterrupter); SendSignal (new_signal SignalUserSpeechStart);
      SendPayload data])
  else if isFinal then
    (mkInterrupter false, [SendSignal (new_signal SignalUserSpeechEnd); SendPayload data])
  else (e, [SendPayload data]).

Definition interrupter_plugin : plugin_ops InterrupterPlugin :=
  mkPlugin (OnSignal (BuiltinPlugin InterrupterPlugin)) OnPayload_interrupter (OnAudio (BuiltinPlugin InterrupterPlugin)).

(** One interruption per utterance.  An utterance that begins with
    interim results and ends with a final one sends the interruption and the
    start of speech once, before its first result, and the end of speech
    once, before the final result; the results pass in order and the plugin
    is ready for the next utterance. *)
Theorem utterance_interrupts_once first interims final :
  get_bool final "is_final" = true →
  Forall (λ d, get_bool d "is_final" = false) (first :: interims) →
  handle_all interrupter_plugin (mkInterrupter false) (InPayload <$> (first :: interims ++ [final])) =
    (mkInterrupter false,
     [SendSignal (new_signal SignalInterrupter); SendSignal (new_signal SignalUserSpeechStart)] ++
     (SendPayload <$> (first :: interims)) ++
     [SendSignal (new_signal SignalUserSpeechEnd); SendPayload final]).
Proof.
  intros Hf Hi. apply Forall_cons_1 in Hi as [H1 Hi].
  assert (handle_all interrupter_plugin (mkInterrupter true) (InPayload <$> (interims ++ [final])) =
    (mkInterrupter false, (SendPayload <$> interims) ++
      [SendSignal (new_signal SignalUserSpeechEnd); SendPayload final])) as Hrest.
  { induction Hi as [|d ds Hd _ IH].
    - change (InPayload <$> ([] ++ [final])) with [InPayload final].
      simpl. unfold OnPayload_interrupter. by rewrite Hf.
    - simpl app. rewrite fmap_cons. rewrite (handle_all_cons _ _ _ _ (mkInterrupter true) [SendPayload d]); [by rewrite IH|].
      simpl. unfold OnPayload_interrupter. by rewrite Hd. }
  rewrite fmap_cons. rewrite (handle_all_cons _ _ _ _ (mkInterrupter true)
    [SendSignal (new_signal SignalInterrupter); SendSignal (new_signal SignalUserSpeechStart);
     SendPayload first]); [by rewrite Hrest|].
  simpl. unfold OnPayload_interrupter. by rewrite H1.
Qed.

Lemma utterance_interrupts_once_witness :
  let asr := λ t f, make_payload demo_Marshal demo_grow PayloadASRResult [("text", VString t); ("is_final", VBool f)] in
  length (handle_all interrupter_plugin (mkInterrupter false)
    (InPayload <$> [asr "a" false; asr "ab" false; asr "abc" true])).2 = 6.
Proof.
  intros asr. refine (f_equal (λ r, length (snd r)) (utterance_interrupts_once (asr "a" false) [asr "ab" false] (asr "abc" true) _ _)).
  - reflexivity.
  - by repeat constructor.
Defined.
End Interrupter.

(** ** sink/plugin.go *)
Module Sink.
Definition OnSignal_sink (signal : Named.object) : list flow_event :=
  let n := Named.name signal in
  if decide (n = SignalInterrupter) then [Publish TypeInterrupter []]
  else if decide (n = SignalUserSpeechStart) then [Publish TypeUserSpeechStart []]
  else if decide (n = SignalUserSpeechEnd) then [Publish TypeUserSpeechEnd []]
  else if decide (n = SignalAgentSpeechStart) then [Publish TypeAgentSpeechStart []]
  else if decide (n = SignalAgentSpeechEnd) then [Publish TypeAgentSpeechEnd []]
  else [].

Definition OnAudio_sink (audio : audio_frame) : list flow_event := [Publish TypeAudio (frame_bytes audio)].

Definition OnPayload_sink (payload : Named.object) : list flow_event :=
  if decide (Named.name payload = PayloadCaption) then
    let sub := GetAs [] as_bytes (Named.props payload) "caption" [] in
    if decide (length sub = 0) then [] else [PublishFull TypeCaption EncodeJSON sub]
  else [].

Definition sink_plugin : plugin_ops unit :=
  mkPlugin (λ s x, (s, OnSignal_sink x)) (λ s x, (s, OnPayload_sink x)) (λ s x, (s, OnAudio_sink x)).

(** The client learns of a signal by a packet of the same name, and of
    nothing else. *)
Lemma sink_signal_names signal t d :
  Publish t d ∈ OnSignal_sink signal →
  PacketType_String t = Named.name signal ∧ d = [].
Proof.
  unfold OnSignal_sink. intros H.
  repeat (case_decide as Hn; [apply list_elem_of_singleton in H; injection H as -> ->; by rewrite Hn|clear Hn]).
  by apply not_elem_of_nil in H.
Qed.
End Sink.

(** ** caption/plugin.go *)
Module Captions.
Inductive role := roleUser | roleAssistant.
Record Caption := mkCaption { Text : string; Role : role; IsFinal : bool }.

Record CaptionPlugin := mkCaptions {
  builder : string;
  waitingUserFinal : bool;
  pendingAssistantFinal : bool;
}.

Definition NewCaptionPlugin : CaptionPlugin := mkCaptions "" false false.

Section caption.
Context (Marshal : anyv → result schema_error (list Z)) (grow : nat → nat → nat).
(** A caption as the [any] that [Set] receives. *)
Context (caption_any : Caption → anyv).

Definition sendCaption (sub : Caption) : list flow_event :=
  let outputData := new_payload PayloadCaption in
  match Set_ Marshal grow (Named.props outputData) "caption" (caption_any sub) with
  | Ok p => [SendPayload (freeze (Named.mkObject Named.KPayload p PayloadCaption))]
  | Err _ => []
  end.

Definition OnSignal_caption (e : CaptionPlugin) (signal : Named.object) : CaptionPlugin * list flow_event :=
  let e := if decide (Named.name signal = SignalInterrupter ∨ Named.name signal = SignalUserSpeechStart)
           then mkCaptions "" false false else e in
  (e, [SendSignal signal]).

(** The caption of the text so far; the sentence is appended to the builder. *)
Definition makeAssistantCaption (e : CaptionPlugin) (payload : Named.object) : CaptionPlugin * Caption :=
  let e := mkCaptions (builder e +:+ get_string payload "sentence")
             (waitingUserFinal e) (pendingAssistantFinal e) in
  (e, mkCaption (builder e) roleAssistant (get_bool payload "is_final")).

Definition flushPendingAssistantCaption (e : CaptionPlugin) : CaptionPlugin * list flow_event :=
  if decide (String.length (builder e) = 0) then (e, [])
  else
    let out := sendCaption (mkCaption (builder e) roleAssistant (pendingAssistantFinal e)) in
    (mkCaptions (if pendingAssistantFinal e then "" else builder e) (waitingUserFinal e) false, out).

Definition OnPayload_caption (e : CaptionPlugin) (payload : Named.object) : CaptionPlugin * list flow_event :=
  if decide (Named.name payload = PayloadASRResult) then
    let sub := mkCaption (get_string payload "text") roleUser (get_bool payload "is_final") in
    if negb (IsFinal sub) then
      (mkCaptions (builder e) true (pendingAssistantFinal e), sendCaption sub)
    else
      let e := mkCaptions (builder e) false (pendingAssistantFinal e) in
      let '(e, out) := flushPendingAssistantCaption e in (e, sendCaption sub ++ out)
  else if decide (Named.name payload = PayloadLLMChunk) then
    let '(e, sub) := makeAssistantCaption e payload in
    if waitingUserFinal e then
      (mkCaptions (builder e) (waitingUserFinal e) (pendingAssistantFinal e || IsFinal sub), [])
    else
      (mkCaptions (if IsFinal sub then "" else builder e) (waitingUserFinal e) (pendingAssistantFinal e),
       sendCaption sub)
  else (e, []).

Definition caption_plugin : plugin_ops CaptionPlugin :=
  mkPlugin OnSignal_caption OnPayload_caption (OnAudio (BuiltinPlugin CaptionPlugin)).

(** *** Turns *)
Definition is_chunk (d : Named.object) : Prop := Named.name d = PayloadLLMChunk.
Definition is_asr (d : Named.object) : Prop := Named.name d = PayloadASRResult.
Definition sentences (ds : list Named.object) : string :=
  concat_strings ((λ d, get_string d "sentence") <$> ds).
Definition any_final (ds : list Named.object) : bool := existsb (λ d, get_bool d "is_final") ds.
Definition user_caption (d : Named.object) : Caption :=
  mkCaption (get_string d "text") roleUser (get_bool d "is_final").

Lemma OnPayload_asr e d :
  is_asr d →
  OnPayload_caption e d =
    if get_bool d "is_final" then
      let '(e', out) := flushPendingAssistantCaption
                          (mkCaptions (builder e) false (pendingAssistantFinal e)) in
      (e', sendCaption (user_caption d) ++ out)
    else (mkCaptions (builder e) true (pendingAssistantFinal e), sendCaption (user_caption d)).
Proof.
  intros Hd. unfold OnPayload_caption. rewrite decide_True by done. cbv zeta.
  change (IsFinal _) with (get_bool d "is_final"). unfold user_caption. by destruct (get_bool d "is_final").
Qed.

Lemma OnPayload_chunk e d :
  is_chunk d →
  OnPayload_caption e d =
    let text := builder e +:+ get_string d "sentence" in
    let fin := get_bool d "is_final" in
    if waitingUserFinal e
    then (mkCaptions text true (pendingAssistantFinal e || fin), [])
    else (mkCaptions (if fin then "" else text) false (pendingAssistantFinal e),
          sendCaption (mkCaption text roleAssistant fin)).
Proof.
  intros Hd. unfold OnPayload_caption, is_chunk in *. rewrite decide_False, decide_True by (rewrite Hd; done).
  simpl. by destruct (waitingUserFinal e).
Qed.

(** Chunks that arrive while the user speaks are collected silently. *)
Lemma waiting_collects b q ds :
  Forall is_chunk ds →
  handle_all caption_plugin (mkCaptions b true q) (InPayload <$> ds) =
    (mkCaptions (b +:+ sentences ds) true (q || any_final ds), []).
Proof.
  intros Hd. revert b q. induction Hd as [|d ds Hd _ IH]; intros b q.
  - simpl. by rewrite string_app_nil_r, orb_false_r.
  - rewrite fmap_cons.
    rewrite (handle_all_cons _ _ _ _ (mkCaptions (b +:+ get_string d "sentence") true
      (q || get_bool d "is_final")) []); [|by apply (OnPayload_chunk (mkCaptions b true q))].
    rewrite IH. by rewrite <-string_app_assoc, <-orb_assoc.
Qed.
(** Outside the user's turn the captions grow with the answer. *)
Lemma speaking_grows b q ds :
  Forall (λ d, is_chunk d ∧ get_bool d "is_final" = false) ds →
  (handle_all caption_plugin (mkCaptions b false q) (InPayload <$> ds)).1 = mkCaptions (b +:+ sentences ds) false q.
Proof.
  intros Hd. revert b. induction Hd as [|d ds [Hd Hf] _ IH]; intros b.
  - simpl. by rewrite string_app_nil_r.
  - rewrite fmap_cons.
    rewrite (handle_all_cons _ _ _ _ (mkCaptions (b +:+ get_string d "sentence") false q)
      (sendCaption (mkCaption (b +:+ get_string d "sentence") roleAssistant false))).
    2:{ simpl. rewrite OnPayload_chunk by done. simpl. by rewrite Hf. }
    specialize (IH (b +:+ get_string d "sentence")).
    destruct (handle_all caption_plugin _ (InPayload <$> ds)). simpl in *. subst.
    by rewrite <-string_app_assoc.
Qed.

(** The captions of a conversation.  While the assistant speaks, each
    chunk shows everything said since its turn began, and the final one ends
    the turn.  While the user speaks nothing of the assistant is shown; the
    final transcription is followed by all that was collected, as final if
    the answer ended meanwhile, in which case the next turn starts afresh. *)
Theorem captions_follow_turns e ds :
  Forall is_chunk ds →
  (∀ d, waitingUserFinal e = false → any_final ds = false → is_chunk d →
     let e' := (handle_all caption_plugin e (InPayload <$> ds)).1 in
     let text := builder e +:+ sentences (ds ++ [d]) in
     OnPayload_caption e' d =
       (mkCaptions (if get_bool d "is_final" then "" else text) false (pendingAssistantFinal e),
        sendCaption (mkCaption text roleAssistant (get_bool d "is_final")))) ∧
  (∀ d0 d1, is_asr d0 → get_bool d0 "is_final" = false → is_asr d1 → get_bool d1 "is_final" = true →
     let text := builder e +:+ sentences ds in
     let fin := pendingAssistantFinal e || any_final ds in
     handle_all caption_plugin e (InPayload <$> (d0 :: ds ++ [d1])) =
       if decide (text = "")
       then (mkCaptions "" false fin, sendCaption (user_caption d0) ++ sendCaption (user_caption d1))
       else (mkCaptions (if fin then "" else text) false false,
             sendCaption (user_caption d0) ++ sendCaption (user_caption d1) ++
             sendCaption (mkCaption text roleAssistant fin))).
Proof.
  intros Hd. destruct e as [b w q]. cbn [builder waitingUserFinal pendingAssistantFinal]. split.
  - intros d -> Hf Hdc. cbv zeta. rewrite speaking_grows.
    + rewrite OnPayload_chunk by done. simpl. unfold sentences.
      rewrite fmap_app, concat_strings_app, string_app_assoc. simpl. by rewrite string_app_nil_r.
    + apply Forall_forall. intros x Hx. rewrite Forall_forall in Hd. split; [auto|].
      destruct (get_bool x "is_final") eqn:E; [|done]. exfalso.
      unfold any_final in Hf. apply not_true_iff_false in Hf. apply Hf, existsb_exists.
      exists x. split; [by apply list_elem_of_In|done].
  - intros d0 d1 H0 F0 H1 F1. cbv zeta.
    rewrite fmap_cons, fmap_app.
    rewrite (handle_all_cons _ _ _ _ (mkCaptions b true q) (sendCaption (user_caption d0))).
    2:{ simpl. by rewrite OnPayload_asr, F0. }
    rewrite handle_all_app, waiting_collects by done.
    change (InPayload <$> [d1]) with [InPayload d1].
    cbn [handle_all handle caption_plugin OnPayload]. rewrite OnPayload_asr, F1 by done.
    unfold flushPendingAssistantCaption. cbn [builder waitingUserFinal pendingAssistantFinal].
    destruct (b +:+ sentences ds) as [|c t] eqn:Et; cbn [String.length].
    + rewrite !decide_True by done. simpl. by rewrite !app_nil_r.
    + rewrite !decide_False by done. simpl. by rewrite !app_nil_r.
Qed.
End caption.

(** A concrete codec for captions. *)
Definition demo_any (c : Caption) : anyv := VOther "Caption" 1.
Definition chunk_of (t : string) (f : bool) : Named.object := llm_chunk demo_Marshal demo_grow t f.
Definition asr_of (t : string) (f : bool) : Named.object :=
  make_payload demo_Marshal demo_grow PayloadASRResult [("text", VString t); ("is_final", VBool f)].

Lemma captions_follow_turns_witness :
  (handle_all (caption_plugin demo_Marshal demo_grow demo_any) NewCaptionPlugin
    (InPayload <$> [asr_of "he" false; chunk_of "Good " false; chunk_of "day." true; asr_of "hey" true])).1
  = NewCaptionPlugin.
Proof.
  refine (eq_trans (f_equal fst (proj2 (captions_follow_turns demo_Marshal demo_grow demo_any NewCaptionPlugin
    [chunk_of "Good " false; chunk_of "day." true] _)
    (asr_of "he" false) (asr_of "hey" true) eq_refl eq_refl eq_refl eq_refl)) _).
  - by repeat constructor.
  - reflexivity.
Defined.

(** An empty answer that ends while the user speaks leaves its final mark
    behind: the flush returns before it clears the mark, and the first part
    of the next answer is shown as if it were complete, the rest without it. *)
Lemma stale_final_mark :
  (handle_all (caption_plugin demo_Marshal demo_grow demo_any) NewCaptionPlugin
    (InPayload <$> [asr_of "a" false; chunk_of "" true; asr_of "ab" true;
                    asr_of "c" false; chunk_of "Well, " false])).1
  = mkCaptions "Well, " true true.
Proof. vm_compute. reflexivity. Qed.
End Captions.
