(* ===== verification/AsrBase.v ===== *)
(** * Speech-recognition plugins: internal/plugins/base/asr/base.go

    The plugin connects its provider when audio arrives and the retry policy
    ([Backoff]) allows an attempt, and hands it the audio.  The provider is
    an interface: whether it is connected and whether [Start] succeeds are
    answers of the environment, one per frame, with the clock. *)

From S2P Require Import Prelude.
From S2P Require Import Schema.
From S2P Require Import PluginFlow.
From S2P Require Import Backoff.

(** ** Transcriptions *)
Record UserTranscription := mkTranscription {
  Text : string; Final : bool; Emotion : string; LanguageCode : string; Stable : bool }.

Definition PackSchema (Marshal : anyv → result schema_error (list Z)) (grow : nat → nat → nat)
    (u : UserTranscription) (props : builtinProperties) : result schema_error builtinProperties :=
  let? props := Set_ Marshal grow props "text" (VString (Text u)) in
  let? props := Set_ Marshal grow props "is_final" (VBool (Final u)) in
  Set_ Marshal grow props "emotion" (VString (Emotion u)).

Definition UnpackSchema (u : UserTranscription) (p : Named.object) : UserTranscription :=
  mkTranscription (get_string p "text") (get_bool p "is_final") (get_string p "emotion")
    (LanguageCode u) (Stable u).

Definition HandleTranscription Marshal grow (t : option UserTranscription) : list flow_event :=
  match t with
  | None => []
  | Some t =>
      if bool_decide (Text t = "") && negb (Final t) then []
      else
        let out := new_payload PayloadASRResult in
        let props := match PackSchema Marshal grow t (Named.props out) with
                     | Ok p => p | Err _ => Named.props out end in
        [SendPayload (freeze (Named.mkObject Named.KPayload props PayloadASRResult))]
  end.

Lemma Set_immutable Marshal grow b k v :
  props_wf b → readonly b = false → immutable v = true →
  ∃ b', Set_ Marshal grow b k v = Ok b' ∧ props_wf b' ∧ readonly b' = false ∧
    view b' = <[k := v]> (view b).
Proof.
  intros Hwf Hr Hv. assert (snapshot Marshal v = Ok v) as Hs by by destruct v.
  assert (∃ b', Set_ Marshal grow b k v = Ok b') as [b' Hb'].
  { unfold Set_. rewrite Hr, Hs. simpl. eauto. }
  exists b'. split; [done|].
  destruct (Set_ok _ _ _ _ _ _ Hwf Hb') as (_ & ? & ? & dst & Hs' & ?).
  rewrite Hs in Hs'. by injection Hs' as <-.
Qed.

(** A transcription arrives as it was sent: text, final mark and emotion;
    one that is empty and not final is not sent. *)
Lemma transcription_arrives Marshal grow t u :
  Text t ≠ "" ∨ Final t = true →
  ∃ p, HandleTranscription Marshal grow (Some t) = [SendPayload p] ∧
    Named.name p = PayloadASRResult ∧
    UnpackSchema u p = mkTranscription (Text t) (Final t) (Emotion t) (LanguageCode u) (Stable u).
Proof.
  intros Ht. unfold HandleTranscription.
  assert (bool_decide (Text t = "") && negb (Final t) = false) as ->.
  { destruct Ht as [Ht| ->]; [by rewrite bool_decide_eq_false_2|by rewrite andb_false_r]. }
  unfold PackSchema.
  destruct (Set_immutable Marshal grow empty_props "text" (VString (Text t)))
    as (b1 & E1 & W1 & R1 & V1); [exact (@GoSlice.nil_slice_wf entry)|done..|].
  destruct (Set_immutable Marshal grow b1 "is_final" (VBool (Final t))) as (b2 & E2 & W2 & R2 & V2); [done..|].
  destruct (Set_immutable Marshal grow b2 "emotion" (VString (Emotion t))) as (b3 & E3 & W3 & R3 & V3); [done..|].
  cbn zeta. change (Named.props (new_payload _)) with empty_props.
  rewrite E1. cbn [rbind]. rewrite E2. cbn [rbind]. rewrite E3.
  eexists. split; [done|]. split; [done|]. unfold UnpackSchema. f_equal.
  - apply get_string_view. simpl. change (view (setReadOnly b3)) with (view b3).
    rewrite V3, V2, V1. by simplify_map_eq.
  - apply get_bool_view. simpl. change (view (setReadOnly b3)) with (view b3).
    rewrite V3, V2. by simplify_map_eq.
  - apply get_string_view. simpl. change (view (setReadOnly b3)) with (view b3).
    rewrite V3. by simplify_map_eq.
Qed.

(** ** The provider's connection *)
Record BasePlugin := mkAsr { has_provider : bool; paused : bool; backoff : Backoff }.

Inductive provider_call := CallStart | CallStop | CallShutdown | CallSend (data : list Z).

#[export] Instance provider_call_eq_dec : EqDecision provider_call.
Proof. solve_decision. Defined.

(** The answers of the provider and the clock while one frame is handled. *)
Record frame_env := mkEnv { Connected : bool; try_time : Z; start_ok : bool; fail_time : Z }.

Definition retry_initial : Z := 500 * 1000000.
Definition retry_max : Z := 5 * 1000000000.

Definition OnStart_asr (provider : bool) : BasePlugin :=
  mkAsr provider false (NewBackoff retry_initial retry_max []).

Definition OnStop_asr (e : BasePlugin) : list provider_call :=
  if has_provider e then [CallShutdown] else [].

Definition OnPause_asr (connected : bool) (e : BasePlugin) : BasePlugin * list provider_call :=
  if paused e then (e, [])
  else (mkAsr (has_provider e) true (backoff e), if has_provider e && connected then [CallStop] else []).

Definition OnResume_asr (e : BasePlugin) : BasePlugin := mkAsr (has_provider e) false (backoff e).

Definition OnAudio_asr (env : frame_env) (e : BasePlugin) (audio : audio_frame)
    : BasePlugin * list provider_call :=
  if negb (has_provider e) || paused e then (e, [])
  else if Connected env then (e, [CallSend (frame_bytes audio)])
  else if negb (Try (try_time env) (backoff e)) then (e, [])
  else if start_ok env then
    (mkAsr (has_provider e) (paused e) (Reset_ (backoff e)), [CallStart; CallSend (frame_bytes audio)])
  else (mkAsr (has_provider e) (paused e) (Fail_ (fail_time env) (backoff e)), [CallStart]).

Inductive asr_event := EvAudio (env : frame_env) (audio : audio_frame) | EvPause (connected : bool) | EvResume.

Definition asr_step (e : BasePlugin) (ev : asr_event) : BasePlugin * list provider_call :=
  match ev with
  | EvAudio env a => OnAudio_asr env e a
  | EvPause c => OnPause_asr c e
  | EvResume => (OnResume_asr e, [])
  end.

Definition asr_run (e : BasePlugin) (evs : list asr_event) : BasePlugin :=
  fold_left (λ e ev, (asr_step e ev).1) evs e.

(** ** The attempts of a history

    [Some (k, t)]: the last attempts, [k + 1] of them in a row, failed, the
    last one at time [t]; [None]: there was none, or the last one succeeded. *)
Definition attempt (e : BasePlugin) (ev : asr_event) (last : option (nat * Z)) : option (nat * Z) :=
  match ev with
  | EvAudio env a =>
      if decide (CallStart ∈ (OnAudio_asr env e a).2) then
        if start_ok env then None
        else Some (match last with Some (k, _) => S k | None => 0 end, fail_time env)
      else last
  | _ => last
  end.

Fixpoint attempts (e : BasePlugin) (evs : list asr_event) (last : option (nat * Z)) : option (nat * Z) :=
  match evs with
  | [] => last
  | ev :: evs => attempts (asr_step e ev).1 evs (attempt e ev last)
  end.

(** When the next attempt is due. *)
Definition due (last : option (nat * Z)) (now : Z) : bool :=
  match last with
  | None => true
  | Some (k, t) => (t + ideal_delay retry_initial retry_max k <=? now)%Z
  end.

Record retry_ok (last : option (nat * Z)) (b : Backoff) : Prop := {
  ro_at : at_failure retry_initial retry_max (match last with Some (k, _) => S k | None => 0 end) b;
  ro_try : ∀ now, Try now b = due last now;
}.

Lemma retry_regular : regular retry_initial retry_max.
Proof. unfold regular, retry_initial, retry_max. lia. Qed.

Lemma retry_ok_step e ev last :
  has_provider e = true → retry_ok last (backoff e) →
  has_provider (asr_step e ev).1 = true ∧
  retry_ok (attempt e ev last) (backoff (asr_step e ev).1).
Proof.
  intros Hp [Ha Ht]. destruct ev as [env a|c|]; cbn [asr_step attempt].
  - unfold OnAudio_asr. rewrite Hp. simpl.
    destruct (paused e); [by split|].
    destruct (Connected env); [by split|].
    destruct (Try (try_time env) (backoff e)); simpl; [|by split].
    destruct (start_ok env); (split; [done|]).
    + split; [|done]. destruct Ha. by split.
    + split.
      * apply (Fail_at _ _ _ (fail_time env)) in Ha; [|apply retry_regular].
        by destruct last as [[k t]|].
      * intros now. simpl backoff. rewrite Fail_then_Try. simpl. rewrite (at_current _ _ _ _ Ha).
        by destruct last as [[k t]|].
  - unfold OnPause_asr. by destruct (paused e).
  - by split.
Qed.

(** The recogniser is restarted at the agreed pace and no audio is
    held back.  After any history of frames, pauses and resumptions: while
    paused, a frame causes no call; a connected provider gets every frame; a
    disconnected one is started exactly when no failed attempt precedes or
    the delay of the last failure has passed (500 ms doubled per failure in a
    row, at most 5 s), and gets the frame if the start succeeds. *)
Theorem asr_restart_policy evs env a :
  let e := asr_run (OnStart_asr true) evs in
  let last := attempts (OnStart_asr true) evs None in
  (OnAudio_asr env e a).2 =
    if paused e then []
    else if Connected env then [CallSend (frame_bytes a)]
    else if due last (try_time env)
    then CallStart :: (if start_ok env then [CallSend (frame_bytes a)] else [])
    else [].
Proof.
  intros e last.
  assert (has_provider e = true ∧ retry_ok last (backoff e)) as [Hp [_ Ht]].
  { unfold e, last, asr_run.
    assert (has_provider (OnStart_asr true) = true ∧ retry_ok None (backoff (OnStart_asr true))) as H.
    { split; [done|]. split; [by split|done]. }
    revert H. generalize (OnStart_asr true) as e0, (@None (nat * Z)) as l0.
    induction evs as [|ev evs IH]; intros e0 l0 [Hp Hr]; simpl; [done|].
    apply IH. by apply retry_ok_step. }
  unfold OnAudio_asr. rewrite Hp. simpl. destruct (paused e); [done|].
  destruct (Connected env); [done|]. rewrite Ht.
  destruct (due last (try_time env)); simpl; [|done]. by destruct (start_ok env).
Qed.
