(* ===== verification/AudioStreamer.v ===== *)
(** * Speech output: internal/plugins/base/tts/base.go

    An [AudioStreamer] cuts the audio a synthesis service delivers into
    frames of equal size and brackets an utterance by the signals of the
    agent's speech.  A context that may end at any moment is a countdown of
    the checks it still passes; the resampler, which binds a C library, is an
    argument. *)

From S2P Require Import Prelude.
From S2P Require Import GoStrings.
From S2P Require Import GoFloat.
From S2P Require Import Schema.
From S2P Require Import EngineTypes.
From S2P Require Import PluginFlow.
From Stdlib Require Import Floats.SpecFloat.

(** ** Contexts

    [None] never ends; [Some n] passes [n] more checks of [ctx.Err()]. *)
Definition context : Type := option nat.
Definition ctx_ok (c : context) : bool := match c with Some 0 => false | _ => true end.
Definition checked (c : context) : context := match c with Some (S n) => Some n | _ => c end.

(** ** NewAudioStreamer *)
Record AudioStreamer := mkStreamer {
  sampleRate : Z; channels : Z; bufferSize : nat;
  offset : nat; started : bool; buffer : list Z }.

(** [time.Duration.Seconds]. *)
Definition Seconds (d : Z) : float64 :=
  let second := 1000000000%Z in
  SFadd 53 1024 (float64_of_int64 (Z.quot d second))
    (SFdiv 53 1024 (float64_of_int64 (Z.rem d second)) (float64_of_int64 second)).

(** [make] panics on a negative size; the size is read as a natural here and
    is positive for every caller ([caller_frame_sizes]). *)
Definition NewAudioStreamer (sampleRate channels duration : Z) : AudioStreamer :=
  let bufferSize := int64_of_float64
    (float64_mul (float64_of_int64 (sampleRate * channels * 2)) (Seconds duration)) in
  mkStreamer sampleRate channels (Z.to_nat bufferSize) 0 false (replicate (Z.to_nat bufferSize) 0%Z).

(** The text-to-speech plugins ask for 100 ms frames of the engine's format. *)
Lemma caller_frame_sizes :
  bufferSize (NewAudioStreamer AudioSampleRate AudioChannels (100 * 1000000)) = 3200.
Proof. vm_compute. reflexivity. Qed.

Definition with_buffer (s : AudioStreamer) (off : nat) (buf : list Z) : AudioStreamer :=
  mkStreamer (sampleRate s) (channels s) (bufferSize s) off (started s) buf.
Definition with_started (s : AudioStreamer) (b : bool) : AudioStreamer :=
  mkStreamer (sampleRate s) (channels s) (bufferSize s) (offset s) b (buffer s).

(** [SetBytes] copies, so the frame does not alias the buffer. *)
Definition sendAudioStream (s : AudioStreamer) (audio : list Z) : flow_event :=
  SendAudio (mkFrame AudioTTS (sampleRate s) (channels s) audio).

Definition Reset (s : AudioStreamer) : AudioStreamer := with_started (with_buffer s 0 (buffer s)) false.

(** [copy(buf[off:], data)]: the bytes copied and the buffer. *)
Definition copy_from (buf : list Z) (off : nat) (data : list Z) : nat * list Z :=
  let n := min (length buf - off) (length data) in
  (n, take off buf ++ take n data ++ drop (off + n) buf).

(** The loop of [write]; its argument is [data[offset:]].  A round consumes a
    byte at least, one more unit of fuel checks the condition a last time. *)
Fixpoint write_loop (fuel : nat) (c : context) (s : AudioStreamer) (data : list Z)
    : context * AudioStreamer * list flow_event :=
  match fuel with
  | O => (c, s, [])
  | S fuel =>
      if negb (ctx_ok c) then (c, s, [])
      else
        let c := checked c in
        if decide (length data = 0) then (c, s, [])
        else if bool_decide (length data < bufferSize s) || bool_decide (offset s ≠ 0) then
          let '(read, buf) := copy_from (buffer s) (offset s) data in
          let s := with_buffer s (offset s + read) buf in
          let '(s, out) :=
            if decide (offset s = bufferSize s)
            then (with_buffer s 0 (buffer s), [sendAudioStream s (buffer s)])
            else (s, []) in
          let '(c, s, out') := write_loop fuel c s (drop read data) in (c, s, out ++ out')
        else
          let n := min (length data) (bufferSize s) in
          let '(c, s', out') := write_loop fuel c s (drop n data) in
          (c, s', sendAudioStream s (take n data) :: out')
  end.

Definition speech_start : flow_event := SendSignal (new_signal SignalAgentSpeechStart).
Definition speech_end : flow_event := SendSignal (new_signal SignalAgentSpeechEnd).

Definition write (c : context) (s : AudioStreamer) (data : list Z) (isLast : bool)
    : context * AudioStreamer * list flow_event :=
  let '(c, s, out1) :=
    if started s then (c, s, [])
    else if ctx_ok c then (checked c, with_started s true, [speech_start])
    else (c, s, []) in
  let '(c, s, out2) := write_loop (S (length data)) c s data in
  if isLast && ctx_ok c then
    let '(s, out3) :=
      if decide (0 < offset s)
      then (with_buffer s 0 (buffer s), [sendAudioStream s (take (offset s) (buffer s))])
      else (s, []) in
    (checked c, with_started s false, out1 ++ out2 ++ out3 ++ [speech_end])
  else (c, s, out1 ++ out2).

(** ** Write: through the resampler, if there is one *)
Section resampler.
Context {R E : Type} (Resample : R → list Z → R * result E (list Z)) (Flush : R → R * list Z).

Definition Write (c : context) (s : AudioStreamer) (resampler : option R) (data : list Z) (isLast : bool)
    : context * AudioStreamer * option R * list flow_event :=
  match resampler with
  | None => let '(c, s, out) := write c s data isLast in (c, s, None, out)
  | Some r =>
      let '(c, s, r, out1) :=
        if decide (0 < length data) then
          match Resample r data with
          | (r, Ok res) => let '(c, s, out) := write c s res false in (c, s, r, out)
          | (r, Err _) => (c, s, r, [])
          end
        else (c, s, r, []) in
      if isLast then
        let '(r, res) := Flush r in
        let '(c, s, out2) := write c s res true in (c, s, Some r, out1 ++ out2)
      else (c, s, Some r, out1)
  end.
End resampler.

(** ** ParsePayload *)
Definition ParsePayload (data : Named.object) : option (string * string * bool) :=
  let final := get_bool data "is_final" in
  let text := get_string data "sentence" in
  let emotion := get_string data "emotion" in
  if (bool_decide (text = "") || is_blank text) && negb final then None
  else Some (text, emotion, final).

(** ** Frames *)
Definition streamer_wf (s : AudioStreamer) : Prop :=
  0 < bufferSize s ∧ length (buffer s) = bufferSize s ∧ offset s < bufferSize s.

(** The bytes that wait for a full frame. *)
Definition pending (s : AudioStreamer) : list Z := take (offset s) (buffer s).

Definition frame_data (e : flow_event) : list Z :=
  match e with SendAudio a => frame_bytes a | _ => [] end.
Definition is_frame (s : AudioStreamer) (n : nat) (e : flow_event) : Prop :=
  ∃ bytes, e = sendAudioStream s bytes ∧ length bytes = n.

Definition same_format (s s' : AudioStreamer) : Prop :=
  sampleRate s' = sampleRate s ∧ channels s' = channels s ∧ bufferSize s' = bufferSize s.

Lemma copy_from_spec buf off data :
  off ≤ length buf →
  let '(n, buf') := copy_from buf off data in
  n = min (length buf - off) (length data) ∧ length buf' = length buf ∧
  take (off + n) buf' = take off buf ++ take n data.
Proof.
  intros Ho. unfold copy_from. split; [done|]. split.
  - rewrite !length_app, !length_take, length_drop. lia.
  - rewrite app_assoc, take_app_length'; [done|]. rewrite length_app, !length_take. lia.
Qed.

(** One round of the loop: the state, the frames and the bytes consumed. *)
Definition round (s : AudioStreamer) (data : list Z) : AudioStreamer * list flow_event * nat :=
  if bool_decide (length data < bufferSize s) || bool_decide (offset s ≠ 0) then
    let '(read, buf) := copy_from (buffer s) (offset s) data in
    let s := with_buffer s (offset s + read) buf in
    if decide (offset s = bufferSize s)
    then (with_buffer s 0 (buffer s), [sendAudioStream s (buffer s)], read)
    else (s, [], read)
  else (s, [sendAudioStream s (take (min (length data) (bufferSize s)) data)],
        min (length data) (bufferSize s)).

Lemma write_loop_S fuel c s data :
  write_loop (S fuel) c s data =
    if negb (ctx_ok c) then (c, s, [])
    else if decide (length data = 0) then (checked c, s, [])
    else let '(s1, out1, n) := round s data in
         let '(c, s2, out2) := write_loop fuel (checked c) s1 (drop n data) in (c, s2, out1 ++ out2).
Proof.
  cbn [write_loop]. unfold round. destruct (negb (ctx_ok c)); [done|]. cbv zeta.
  case_decide; [done|]. destruct (_ || _); [|done].
  destruct (copy_from (buffer s) (offset s) data) as [n buf]. by case_decide.
Qed.

Lemma round_spec s data :
  streamer_wf s → data ≠ [] →
  let '(s1, out, n) := round s data in
  streamer_wf s1 ∧ same_format s s1 ∧ started s1 = started s ∧
  Forall (is_frame s (bufferSize s)) out ∧ 0 < n ≤ length data ∧
  (out ≫= frame_data) ++ pending s1 = pending s ++ take n data.
Proof.
  intros (Hb & Hlen & Ho) Hd. assert (0 < length data) by (destruct data; simpl in *; [done|lia]).
  unfold round. destruct (bool_decide (length data < bufferSize s) || bool_decide (offset s ≠ 0)) eqn:Hcond.
  - pose proof (copy_from_spec (buffer s) (offset s) data ltac:(lia)) as Hcopy.
    destruct (copy_from (buffer s) (offset s) data) as [n buf]. destruct Hcopy as (Hn & Hl & Ht).
    cbn [offset bufferSize buffer with_buffer]. unfold pending. clear Hcond. case_decide as Hfull; simpl.
    + assert (buf = take (offset s) (buffer s) ++ take n data) as Hbuf.
      { rewrite <-Ht. rewrite take_ge; [done|lia]. }
      split; [unfold streamer_wf; simpl; lia|]. split; [done|]. split; [done|].
      split; [constructor; [|constructor]; exists buf; split; [done|lia]|]. split; [lia|].
      by rewrite !app_nil_r.
    + split; [unfold streamer_wf; simpl; lia|]. do 3 (split; [done|]). split; [lia|]. done.
  - apply orb_false_iff in Hcond as [H1%bool_decide_eq_false_1 H2%bool_decide_eq_false_1].
    assert (offset s = 0) as H0 by lia.
    split; [done|]. do 2 (split; [done|]). split.
    { constructor; [|constructor]. eexists. split; [done|]. rewrite length_take. lia. }
    split; [lia|]. simpl. unfold pending. rewrite H0, !app_nil_r. done.
Qed.

(** The loop emits full frames only; what it emitted and what waits is what
    waited before and the part of the data it consumed, all of it when the
    context lasts. *)
Record loop_ok (c : context) (s : AudioStreamer) (data : list Z)
    (c' : context) (s' : AudioStreamer) (out : list flow_event) : Prop := {
  lo_wf : streamer_wf s';
  lo_format : same_format s s';
  lo_started : started s' = started s;
  lo_frames : Forall (is_frame s (bufferSize s)) out;
  lo_bytes : ∃ n, (out ≫= frame_data) ++ pending s' = pending s ++ take n data ∧
               (c = None → length data ≤ n);
  lo_ctx : c = None → c' = None;
}.

Lemma loop_ok_stop c s data c' :
  streamer_wf s → (c = None → data = [] ∧ c' = None) → loop_ok c s data c' s [].
Proof.
  intros Hwf Hc. split; [done..|constructor| |intros E; by destruct (Hc E)].
  exists 0. rewrite app_nil_r. split; [done|]. intros E. destruct (Hc E) as [-> _]. done.
Qed.

Lemma write_loop_spec fuel c s data :
  length data < fuel → streamer_wf s →
  let '(c', s', out) := write_loop fuel c s data in loop_ok c s data c' s' out.
Proof.
  revert c s data. induction fuel as [|fuel IH]; intros c s data Hf Hwf; [lia|].
  rewrite write_loop_S. destruct (ctx_ok c) eqn:Hc; simpl.
  2:{ apply loop_ok_stop; [done|]. by intros ->. }
  case_decide as Hd; [apply loop_ok_stop; [done|]; intros ->; by destruct data|].
  pose proof (round_spec s data Hwf ltac:(by intros ->)) as Hr.
  destruct (round s data) as [[s1 out1] n]. destruct Hr as (Hwf1 & Hfmt & Hst & Hout & Hn & Hbytes).
  specialize (IH (checked c) s1 (drop n data) ltac:(rewrite length_drop; lia) Hwf1).
  destruct (write_loop fuel (checked c) s1 (drop n data)) as [[c' s2] out2].
  destruct IH as [Hwf2 Hfmt2 Hst2 Hout2 (k & Hbytes2 & Hall) Hctx].
  destruct Hfmt as (E1 & E2 & E3), Hfmt2 as (E4 & E5 & E6).
  split; [done|repeat split; congruence|congruence| | |].
  - apply Forall_app. split; [done|]. rewrite E3 in Hout2. eapply Forall_impl; [exact Hout2|].
    intros e (bs & -> & Hlen). exists bs. split; [|done]. unfold sendAudioStream. congruence.
  - exists (n + k). split.
    + rewrite bind_app, <-app_assoc, Hbytes2, app_assoc, Hbytes, <-app_assoc. f_equal.
      by rewrite take_take_drop.
    + intros ->. specialize (Hall eq_refl). rewrite length_drop in Hall. lia.
  - intros ->. by apply Hctx.
Qed.

(** ** Utterances *)

(** An utterance so far: nothing was written yet, or the start was signalled
    and followed by full frames; the frames and the bytes that wait are the
    audio written. *)
Record speaking (s0 s : AudioStreamer) (total : list Z) (out : list flow_event) : Prop := {
  sp_wf : streamer_wf s;
  sp_format : same_format s0 s;
  sp_out : (started s = false ∧ out = [] ∧ total = [] ∧ pending s = []) ∨
    (started s = true ∧ ∃ frames, out = speech_start :: frames ∧
       Forall (is_frame s0 (bufferSize s0)) frames ∧ (frames ≫= frame_data) ++ pending s = total);
}.

(** A finished utterance. *)
Definition spoken (s0 s : AudioStreamer) (total : list Z) (out : list flow_event) : Prop :=
  streamer_wf s ∧ same_format s0 s ∧ started s = false ∧ offset s = 0 ∧
  ∃ frames rest, out = speech_start :: frames ++ rest ++ [speech_end] ∧
    Forall (is_frame s0 (bufferSize s0)) frames ∧
    (rest = [] ∨ ∃ e n, rest = [e] ∧ is_frame s0 n e ∧ 0 < n < bufferSize s0) ∧
    (frames ++ rest) ≫= frame_data = total.

Lemma is_frame_format s0 s n e : same_format s0 s → is_frame s n e → is_frame s0 n e.
Proof.
  intros (E1 & E2 & _) (bs & -> & Hn). exists bs. split; [|done]. unfold sendAudioStream. congruence.
Qed.

(** The part of [write] before the end of the utterance. *)
Lemma write_open s0 s total out data :
  speaking s0 s total out →
  ∃ s' o, speaking s0 s' (total ++ data) (out ++ o) ∧ started s' = true ∧
    write None s data false = (None, s', o) ∧
    write None s data true =
      (None, with_started (with_buffer s' 0 (buffer s')) false,
       o ++ (if decide (0 < offset s') then [sendAudioStream s' (pending s')] else []) ++ [speech_end]).
Proof.
  intros [Hwf Hfmt Hout]. set (s1 := with_started s true).
  assert (streamer_wf s1 ∧ same_format s s1 ∧ pending s1 = pending s) as (Hwf1 & Hfmt1 & Hp1) by done.
  set (pre := if started s then [] else [speech_start]).
  pose proof (write_loop_spec (S (length data)) None s1 data ltac:(lia) Hwf1) as Hloop.
  destruct (write_loop (S (length data)) None s1 data) as [[c' s'] o] eqn:El.
  destruct Hloop as [Hwf' Hfmt' Hst' Hfr (n & Hbytes & Hall) Hctx].
  rewrite (Hctx eq_refl) in El. specialize (Hall eq_refl). rewrite take_ge in Hbytes by done.
  assert (same_format s0 s') as Hf0.
  { destruct Hfmt as (? & ? & ?), Hfmt' as (? & ? & ?). repeat split; simpl in *; congruence. }
  assert (s = s1 ∨ started s = false) as Hs1.
  { unfold s1, with_started. destruct s as [? ? ? ? [] ?]; simpl; auto. }
  assert (∀ b, write None s data b =
    if b then (None, with_started (with_buffer s' 0 (buffer s')) false,
       (pre ++ o) ++ (if decide (0 < offset s') then [sendAudioStream s' (pending s')] else []) ++ [speech_end])
    else (None, s', pre ++ o)) as Hwrite.
  { intros b. unfold write, pre.
    destruct (started s) eqn:Es; [destruct Hs1 as [Hs1|]; [rewrite Hs1|congruence]|];
      cbn [ctx_ok checked]; fold s1; rewrite El; (destruct b; [|done]); simpl;
      (case_decide; [by rewrite <-?app_assoc|]);
      (assert (s' = with_buffer s' 0 (buffer s')) as <-;
        [destruct s' as [? ? ? [|] ? ?]; simpl in *; [done|lia]|by rewrite <-?app_assoc]). }
  exists s', (pre ++ o). split; [|split; [by rewrite Hst'|split; apply (Hwrite)]].
  split; [done|done|]. right. split; [by rewrite Hst'|].
  assert (Forall (is_frame s0 (bufferSize s0)) o) as Ho.
  { eapply Forall_impl; [exact Hfr|]. intros e He. apply (is_frame_format s0 s1) in He; [|exact Hfmt].
    change (bufferSize s1) with (bufferSize s) in He. by rewrite (proj2 (proj2 Hfmt)) in He. }
  destruct Hout as [(Es & -> & -> & Hp)|(Es & frames & -> & Hfs & Ht)]; unfold pre; rewrite Es.
  - exists o. split; [done|]. split; [done|]. rewrite Hbytes, Hp1, Hp. done.
  - exists (frames ++ o). split; [done|]. split; [by apply Forall_app|].
    rewrite bind_app, <-app_assoc, Hbytes, Hp1, <-Ht, app_assoc. done.
Qed.

Lemma write_close s0 s total out data :
  speaking s0 s total out →
  ∃ s' o, write None s data true = (None, s', o) ∧ spoken s0 s' (total ++ data) (out ++ o).
Proof.
  intros Hsp. destruct (write_open s0 s total out data Hsp) as (s1 & o & Hsp1 & Hst & _ & Hw).
  eexists _, _. split; [exact Hw|]. destruct Hsp1 as [Hwf1 Hfmt1 Hout1].
  destruct Hwf1 as (Hb & Hl & Ho).
  split; [unfold streamer_wf; simpl; lia|]. split; [done|]. split; [done|]. split; [done|].
  destruct Hout1 as [(Es & _)|(_ & frames & Heq & Hfs & Ht)]; [by rewrite Hst in Es|].
  exists frames, (if decide (0 < offset s1) then [sendAudioStream s1 (pending s1)] else []).
  rewrite app_assoc, Heq. split; [done|]. split; [done|].
  destruct Hfmt1 as (E1 & E2 & E3). unfold pending in *. case_decide.
  - split.
    + right. eexists _, (offset s1). split; [done|]. split; [|lia].
      exists (take (offset s1) (buffer s1)). split; [unfold sendAudioStream; congruence|].
      rewrite length_take. lia.
    + rewrite bind_app. simpl. by rewrite app_nil_r.
  - split; [by left|]. rewrite app_nil_r. rewrite <-Ht.
    replace (offset s1) with 0 by lia. simpl. by rewrite app_nil_r.
Qed.

(** ** Calls of Write *)
Section calls.
Context {R E : Type} (Resample : R → list Z → R * result E (list Z)) (Flush : R → R * list Z).

(** The calls of [write] a call of [Write] makes. *)
Definition inner (resampler : option R) (data : list Z) (isLast : bool)
    : option R * list (list Z * bool) :=
  match resampler with
  | None => (None, [(data, isLast)])
  | Some r =>
      let '(r, l) := if decide (0 < length data)
                     then match Resample r data with
                          | (r, Ok res) => (r, [(res, false)])
                          | (r, Err _) => (r, [])
                          end
                     else (r, []) in
      if isLast then let '(r, res) := Flush r in (Some r, l ++ [(res, true)]) else (Some r, l)
  end.

Fixpoint writes (c : context) (s : AudioStreamer) (calls : list (list Z * bool))
    : context * AudioStreamer * list flow_event :=
  match calls with
  | [] => (c, s, [])
  | (data, isLast) :: calls =>
      let '(c, s, out) := write c s data isLast in
      let '(c, s, out') := writes c s calls in (c, s, out ++ out')
  end.

Lemma Write_inner c s r data isLast :
  Write Resample Flush c s r data isLast =
    let '(r', calls) := inner r data isLast in
    let '(c', s', out) := writes c s calls in (c', s', r', out).
Proof.
  unfold Write, inner. destruct r as [r|]; simpl.
  2:{ destruct (write c s data isLast) as [[? ?] ?]. by rewrite app_nil_r. }
  case_decide.
  - destruct (Resample r data) as [r1 [res|]]; simpl.
    + destruct isLast; simpl.
      * destruct (write c s res false) as [[c1 s1] o1] eqn:E1. destruct (Flush r1) as [r2 fl].
        simpl. rewrite E1. destruct (write c1 s1 fl true) as [[c2 s2] o2]. by rewrite app_nil_r.
      * destruct (write c s res false) as [[c1 s1] o1]. by rewrite app_nil_r.
    + destruct isLast; [|done]. destruct (Flush r1) as [r2 fl]. simpl.
      destruct (write c s fl true) as [[c1 s1] o1]. by rewrite app_nil_r.
  - destruct isLast; [|done]. destruct (Flush r) as [r2 fl]. simpl.
    destruct (write c s fl true) as [[c1 s1] o1]. by rewrite app_nil_r.
Qed.

(** A call that is not the last one makes no last call; the last one makes
    exactly one, at its end. *)
Lemma inner_open r data : Forall (λ cl, cl.2 = false) (inner r data false).2.
Proof.
  unfold inner. destruct r as [r|]; simpl; [|by repeat constructor].
  case_decide; [|constructor]. destruct (Resample r data) as [r1 [res|]]; repeat constructor.
Qed.

Lemma inner_close r data :
  ∃ calls d, (inner r data true).2 = calls ++ [(d, true)] ∧ Forall (λ cl, cl.2 = false) calls.
Proof.
  unfold inner. destruct r as [r|]; simpl; [|by exists [], data].
  case_decide; [destruct (Resample r data) as [r1 [res|]]|]; destruct (Flush _) as [r2 fl]; simpl;
    [by exists [(res, false)], fl; repeat constructor|by exists [], fl..].
Qed.

Lemma writes_open s0 s total out calls :
  speaking s0 s total out → Forall (λ cl, cl.2 = false) calls →
  ∃ s' o, writes None s calls = (None, s', o) ∧
    speaking s0 s' (total ++ (calls ≫= fst)) (out ++ o).
Proof.
  intros Hsp Hc. revert s total out Hsp. induction Hc as [|[d b] calls Hb _ IH]; intros s total out Hsp.
  - exists s, []. split; [done|]. simpl. by rewrite !app_nil_r.
  - simpl in Hb. subst b. destruct (write_open s0 s total out d Hsp) as (s1 & o1 & Hsp1 & _ & Hw & _).
    destruct (IH _ _ _ Hsp1) as (s2 & o2 & Hw2 & Hsp2). exists s2, (o1 ++ o2).
    rewrite bind_cons. cbn [writes fst]. rewrite Hw, Hw2. split; [done|]. by rewrite !app_assoc.
Qed.

Lemma writes_app c s l1 l2 :
  writes c s (l1 ++ l2) =
    let '(c1, s1, o1) := writes c s l1 in
    let '(c2, s2, o2) := writes c1 s1 l2 in (c2, s2, o1 ++ o2).
Proof.
  revert c s. induction l1 as [|[d b] l1 IH]; intros c s; simpl.
  - by destruct (writes c s l2) as [[? ?] ?].
  - destruct (write c s d b) as [[c1 s1] o1]. rewrite IH.
    destruct (writes c1 s1 l1) as [[c2 s2] o2]. destruct (writes c2 s2 l2) as [[c3 s3] o3].
    by rewrite app_assoc.
Qed.

(** An utterance: the data of all calls but the last, and of the last. *)
Fixpoint utter (c : context) (s : AudioStreamer) (r : option R) (ds : list (list Z)) (last : list Z)
    : context * AudioStreamer * option R * list flow_event :=
  match ds with
  | [] => Write Resample Flush c s r last true
  | d :: ds =>
      let '(c, s, r, out) := Write Resample Flush c s r d false in
      let '(c, s, r, out') := utter c s r ds last in (c, s, r, out ++ out')
  end.

(** Its audio, resampled. *)
Fixpoint audio (r : option R) (ds : list (list Z)) (last : list Z) : list Z :=
  match ds with
  | [] => (inner r last true).2 ≫= fst
  | d :: ds => let '(r', calls) := inner r d false in (calls ≫= fst) ++ audio r' ds last
  end.

Lemma utter_spoken s0 s r ds last total out :
  speaking s0 s total out →
  ∃ s' r' o, utter None s r ds last = (None, s', r', o) ∧
    spoken s0 s' (total ++ audio r ds last) (out ++ o).
Proof.
  revert s r total out. induction ds as [|d ds IH]; intros s r total out Hsp; simpl.
  - rewrite Write_inner. destruct (inner_close r last) as (calls & dl & Hin & Hcalls).
    destruct (inner r last true) as [r' all]. simpl in Hin. subst all. rewrite writes_app.
    destruct (writes_open _ _ _ _ _ Hsp Hcalls) as (s1 & o1 & -> & Hsp1).
    destruct (write_close _ _ _ _ dl Hsp1) as (s2 & o2 & Hw & Hend). simpl. rewrite Hw.
    exists s2, r', (o1 ++ o2). rewrite app_nil_r. split; [done|].
    rewrite bind_app. simpl. rewrite app_nil_r, !app_assoc. done.
  - rewrite Write_inner. pose proof (inner_open r d) as Hcalls.
    destruct (inner r d false) as [r1 calls]. simpl in Hcalls.
    destruct (writes_open _ _ _ _ _ Hsp Hcalls) as (s1 & o1 & -> & Hsp1).
    destruct (IH s1 r1 _ _ Hsp1) as (s2 & r2 & o2 & -> & Hend).
    exists s2, r2, (o1 ++ o2). split; [done|]. by rewrite !app_assoc.
Qed.

(** C34: Synthesised speech is framed losslessly.  However the service cuts
    its audio, and with any resampler, an utterance written to an idle
    streamer is sent as the start of speech, frames of exactly the configured
    size, at most one shorter frame at the end, and the end of speech; the
    frames carry the resampled audio, every byte once and in order, and the
    streamer is idle again. *)
Theorem utterance_is_framed s r ds last :
  streamer_wf s → offset s = 0 → started s = false →
  ∃ s' r' frames rest,
    utter None s r ds last = (None, s', r', speech_start :: frames ++ rest ++ [speech_end]) ∧
    Forall (is_frame s (bufferSize s)) frames ∧
    (rest = [] ∨ ∃ e n, rest = [e] ∧ is_frame s n e ∧ 0 < n < bufferSize s) ∧
    (frames ++ rest) ≫= frame_data = audio r ds last ∧
    streamer_wf s' ∧ same_format s s' ∧ offset s' = 0 ∧ started s' = false.
Proof.
  intros Hwf Ho Hst. destruct (utter_spoken s s r ds last [] []) as (s' & r' & o & Hu & Hsp).
  { split; [done..|]. left. repeat split; [done|]. unfold pending. by rewrite Ho. }
  destruct Hsp as (? & ? & ? & ? & frames & rest & Heq & ? & ? & ?). simpl in Heq. subst o.
  exists s', r', frames, rest. done.
Qed.
End calls.

(** Frames of four bytes and a resampler that repeats every byte, holding
    back the last one until it is flushed. *)
Definition small_streamer : AudioStreamer := mkStreamer 8000 1 4 0 false [9; 9; 9; 9]%Z.
Definition double_all (r : list Z) (d : list Z) : list Z * result unit (list Z) :=
  let all := r ++ d in
  (drop (length all - 1) all, Ok (take (length all - 1) all ≫= λ b, [b; b])).
Definition double_flush (r : list Z) : list Z * list Z := ([], r ≫= λ b, [b; b]).

Lemma utterance_is_framed_witness :
  ∃ s' r' frames rest,
    utter double_all double_flush None small_streamer (Some []) [[1; 2; 3]; []; [4]]%Z [5]%Z =
      (None, s', r', speech_start :: frames ++ rest ++ [speech_end]) ∧
    (frames ++ rest) ≫= frame_data = [1; 1; 2; 2; 3; 3; 4; 4; 5; 5]%Z.
Proof.
  destruct (utterance_is_framed double_all double_flush small_streamer (Some []) [[1; 2; 3]; []; [4]]%Z [5]%Z)
    as (s' & r' & frames & rest & Hu & _ & _ & Ha & _); [unfold streamer_wf; simpl; lia|done..|].
  exists s', r', frames, rest. split; [done|]. etransitivity; [exact Ha|]. vm_compute. reflexivity.
Defined.
