(* ===== verification/Marshal.v ===== *)
(** * Structs and properties: internal/schema/marshal.go

    [Pack] writes the tagged fields of a struct into a property set, [Unpack]
    reads them back, both by reflection.  The types and values [reflect]
    shows to this code are modelled, with the assignability and
    convertibility rules of the language for the values a property set can
    hold; the JSON codec is an argument. *)

From S2P Require Import Prelude.
From S2P Require Import GoSlice.
From S2P Require Import GoFloat.
From S2P Require Import Utf8.
From S2P Require Import Schema.
From Stdlib Require Import Ascii.
From Stdlib Require Import Floats.SpecFloat.

(** ** Types and values

    A name marks a defined type: [RString None] is [string], [RString (Some
    "Mood")] is [type Mood string]. *)
Inductive rtype :=
| RInt (name : option string) (t : int_type)
| RBool (name : option string)
| RFloat32 (name : option string)
| RFloat64 (name : option string)
| RString (name : option string)
| RTime
| RBytes (name : option string)
| RByteArray (n : nat)
| RAny
| RSlice (ty : string)
| RMap (ty : string)
| RPointer (ty : string)
| RStruct (ty : string).

#[export] Instance rtype_eq_dec : EqDecision rtype.
Proof. solve_decision. Defined.

Definition Duration : rtype := RInt (Some "time.Duration") Int64.

(** Slices, maps and pointers show whether they are nil and their length;
    [id] stands for the rest of a value. *)
Inductive rval :=
| XInt (z : Z)
| XBool (b : bool)
| XFloat (bits : Z)
| XString (s : string)
| XTime (ns : Z)
| XBytes (is_nil : bool) (bs : list Z)
| XAny (v : option anyv)
| XRef (is_nil : bool) (len : nat) (id : Z)
| XStruct (zero : bool) (id : Z).

#[export] Instance rval_eq_dec : EqDecision rval.
Proof. solve_decision. Defined.

Definition int_width (t : int_type) : Z :=
  match t with
  | Int8 | Uint8 => 8 | Int16 | Uint16 => 16 | Int32 | Uint32 => 32 | _ => 64
  end.
Definition int_signed (t : int_type) : bool :=
  match t with Int | Int8 | Int16 | Int32 | Int64 => true | _ => false end.
Definition wrap (t : int_type) (z : Z) : Z :=
  if int_signed t then swrap (int_width t) z else (z `mod` 2 ^ int_width t)%Z.
Definition int_range (t : int_type) (z : Z) : Prop := wrap t z = z.

(** The values of a type. *)
Definition has_rtype (x : rval) (t : rtype) : Prop :=
  match t, x with
  | RInt _ t, XInt z => int_range t z
  | RBool _, XBool _ => True
  | RFloat32 _, XFloat b => (0 ≤ b < 2 ^ 32)%Z
  | RFloat64 _, XFloat b => (0 ≤ b < 2 ^ 64)%Z
  | RString _, XString _ => True
  | RTime, XTime _ => True
  | RBytes _, XBytes is_nil bs => is_nil = true → bs = []
  | RByteArray n, XBytes is_nil bs => is_nil = false ∧ length bs = n
  | RAny, XAny _ => True
  | (RSlice _ | RMap _ | RPointer _), XRef is_nil n _ => is_nil = true → n = 0
  | RStruct _, XStruct _ _ => True
  | _, _ => False
  end.

(** [reflect.Zero]. *)
Definition zero_of (t : rtype) : rval :=
  match t with
  | RInt _ _ => XInt 0
  | RBool _ => XBool false
  | RFloat32 _ | RFloat64 _ => XFloat 0
  | RString _ => XString ""
  | RTime => XTime 0
  | RBytes _ => XBytes true []
  | RByteArray n => XBytes false (replicate n 0%Z)
  | RAny => XAny None
  | RSlice _ | RMap _ | RPointer _ => XRef true 0 0
  | RStruct _ => XStruct true 0
  end.

Lemma zero_typed t : has_rtype (zero_of t) t.
Proof.
  destruct t as [nm t|nm|nm|nm|nm| |nm|n| |ty|ty|ty|ty]; simpl; try done.
  - unfold int_range, wrap. by destruct t.
  - by rewrite length_replicate.
Qed.

(** [Value.IsZero], and the package's [isEmpty]. *)
Definition IsZero (t : rtype) (x : rval) : bool :=
  match t, x with
  | _, XInt z => bool_decide (z = 0)%Z
  | _, XBool b => negb b
  | _, XFloat b => bool_decide (b = 0)%Z
  | _, XString s => bool_decide (s = "")
  | _, XTime ns => bool_decide (ns = 0)%Z
  | RByteArray _, XBytes _ bs => forallb (λ b, bool_decide (b = 0)%Z) bs
  | _, XBytes is_nil _ => is_nil
  | _, XAny v => bool_decide (v = None)
  | _, XRef is_nil _ _ => is_nil
  | _, XStruct zero _ => zero
  end.

Definition isEmpty (t : rtype) (x : rval) : bool :=
  match t, x with
  | RBytes _, XBytes is_nil bs => is_nil || bool_decide (length bs = 0)
  | (RSlice _ | RMap _), XRef is_nil n _ => is_nil || bool_decide (n = 0)
  | RByteArray n, _ => bool_decide (n = 0)
  | RString _, XString s => bool_decide (String.length s = 0)
  | RPointer _, XRef is_nil _ _ => is_nil
  | RAny, XAny v => bool_decide (v = None)
  | _, _ => IsZero t x
  end.

(** ** Tags *)
Fixpoint split_comma (acc : string) (s : string) : list string :=
  match s with
  | EmptyString => [acc]
  | String a s => if decide (a = ","%char) then acc :: split_comma "" s
                  else split_comma (acc +:+ String a EmptyString) s
  end.

Definition flagRequired : Z := 1.
Definition flagOmitEmpty : Z := 2.
Definition flagOmitZero : Z := 4.

Record fieldInfo := mkFieldInfo { index : nat; fkey : string; flags : Z }.
Definition has (f : fieldInfo) (flag : Z) : bool := bool_decide (Z.land (flags f) flag ≠ 0)%Z.

(** A field of a struct type; [tag] is the value of its [schema] tag. *)
Record structField := mkStructField {
  FieldName : string; IsExported : bool; tag : string; FieldType : rtype }.

Definition add_option (fl : Z) (opt : string) : Z :=
  if decide (opt = "required") then Z.lor fl flagRequired
  else if decide (opt = "omitempty") then Z.lor fl flagOmitEmpty
  else if decide (opt = "omitzero") then Z.lor fl flagOmitZero
  else fl.

Definition parse_tag (i : nat) (t : string) : fieldInfo :=
  match split_comma "" t with
  | [] => mkFieldInfo i "" 0
  | k :: opts => mkFieldInfo i k (foldl add_option 0%Z opts)
  end.

Definition buildTypeInfo (rt : list structField) : list fieldInfo :=
  omap (λ '(i, f),
    if negb (IsExported f) then None
    else if bool_decide (tag f = "" ∨ tag f = "-") then None
    else Some (parse_tag i (tag f))) (imap pair rt).

(** [typeCache]: a type is known by its name. *)
Definition cachedTypeInfo (cache : gmap string (list fieldInfo)) (rt : string * list structField)
    : gmap string (list fieldInfo) * list fieldInfo :=
  match cache !! rt.1 with
  | Some info => (cache, info)
  | None => let info := buildTypeInfo rt.2 in (<[rt.1 := info]> cache, info)
  end.

Lemma cachedTypeInfo_correct cache (types : gmap string (list structField)) rt :
  (∀ n fs, types !! n = Some fs → ∀ info, cache !! n = Some info → info = buildTypeInfo fs) →
  types !! rt.1 = Some rt.2 →
  (cachedTypeInfo cache rt).2 = buildTypeInfo rt.2 ∧
  ∀ n fs, types !! n = Some fs → ∀ info, (cachedTypeInfo cache rt).1 !! n = Some info → info = buildTypeInfo fs.
Proof.
  intros Hc Ht. unfold cachedTypeInfo. destruct (cache !! rt.1) eqn:E; simpl; [eauto|].
  split; [done|]. intros n fs Hn info. destruct (decide (n = rt.1)) as [->|Hne].
  - rewrite lookup_insert_eq. intros [= <-]. congruence.
  - rewrite lookup_insert_ne by done. eauto.
Qed.

(** ** IEEE 754 bit patterns *)
Definition float_of_bits (mw ew : Z) (b : Z) : spec_float :=
  let m := (b `mod` 2 ^ mw)%Z in
  let e := ((b / 2 ^ mw) `mod` 2 ^ ew)%Z in
  let s := Z.testbit b (mw + ew) in
  let emin := (3 - 2 ^ (ew - 1) - (mw + 1))%Z in
  if decide (e = 0)%Z then
    match m with Zpos p => S754_finite s p emin | _ => S754_zero s end
  else if decide (e = 2 ^ ew - 1)%Z then
    if decide (m = 0)%Z then S754_infinity s else S754_nan
  else match (m + 2 ^ mw)%Z with Zpos p => S754_finite s p (emin + e - 1) | _ => S754_nan end.

Definition bits_of_float (mw ew : Z) (x : spec_float) : Z :=
  let sgn := λ s : bool, if s then (2 ^ (mw + ew))%Z else 0%Z in
  let emin := (3 - 2 ^ (ew - 1) - (mw + 1))%Z in
  let r := match x with
  | S754_zero s => sgn s
  | S754_infinity s => (sgn s + (2 ^ ew - 1) * 2 ^ mw)%Z
  | S754_nan => ((2 ^ ew - 1) * 2 ^ mw + 2 ^ (mw - 1))%Z
  | S754_finite s m e =>
      if decide (Zpos m < 2 ^ mw)%Z then (sgn s + Zpos m)%Z
      else (sgn s + (e - emin + 1) * 2 ^ mw + (Zpos m - 2 ^ mw))%Z
  end in (r `mod` 2 ^ (mw + ew + 1))%Z.

Definition f64 (b : Z) : spec_float := float_of_bits 52 11 b.
Definition f32 (b : Z) : spec_float := float_of_bits 23 8 b.
Definition bits64 (x : spec_float) : Z := bits_of_float 52 11 x.
Definition bits32 (x : spec_float) : Z := bits_of_float 23 8 x.

(** Rounding a float64 to a float32; widening is exact. *)
Definition to_float32 (x : spec_float) : spec_float :=
  match x with
  | S754_finite s m e => binary_normalize 24 128 (if s then Zneg m else Zpos m) e s
  | _ => x
  end.
Definition to_float64 (x : spec_float) : spec_float :=
  match x with
  | S754_finite s m e => binary_normalize 53 1024 (if s then Zneg m else Zpos m) e s
  | _ => x
  end.

Example bits_1 : bits64 (float64_of_int64 3) = 0x4008000000000000%Z.
Proof. vm_compute. reflexivity. Qed.
Example bits_2 : bits32 (to_float32 (f64 0x4008000000000000)) = 0x40400000%Z.
Proof. vm_compute. reflexivity. Qed.
Example bits_3 : int64_of_float64 (f64 0xC00C000000000000) = (-3)%Z.
Proof. vm_compute. reflexivity. Qed.

(** ** Assignment *)

(** The dynamic type of a property value: what [snapshot] can produce. *)
Definition type_of (v : anyv) : option rtype :=
  match v with
  | VInt t _ => Some (RInt None t)
  | VBool _ => Some (RBool None)
  | VFloat32 _ => Some (RFloat32 None)
  | VFloat64 _ => Some (RFloat64 None)
  | VString _ => Some (RString None)
  | VTime _ => Some RTime
  | VDuration _ => Some Duration
  | VBytes _ => Some (RBytes None)
  | _ => None
  end.

(** Identical types, an interface, or the same underlying type when one side
    has no name. *)
Definition AssignableTo (src dst : rtype) : bool :=
  bool_decide (src = dst) ||
  match src, dst with
  | _, RAny => true
  | RBytes None, RBytes _ => true
  | _, _ => false
  end.

Definition ConvertibleTo (src dst : rtype) : bool :=
  match src, dst with
  | (RInt _ _ | RFloat32 _ | RFloat64 _), (RInt _ _ | RFloat32 _ | RFloat64 _) => true
  | RInt _ _, RString _ => true
  | RString _, (RString _ | RBytes _) => true
  | RBytes _, (RString _ | RBytes _ | RByteArray _) => true
  | RBool _, RBool _ => true
  | _, _ => AssignableTo src dst
  end.

Inductive assign_error :=
| ETypeMismatchUnmarshal
| ETypeMismatchAssign
| EAssignPanic.

(** The same value at the type of the field. *)
Definition set_as (v : anyv) (dst : rtype) : rval :=
  match dst with
  | RAny => XAny (Some v)
  | _ => match v with
         | VInt _ z => XInt z
         | VBool b => XBool b
         | VFloat32 b | VFloat64 b => XFloat b
         | VString s => XString s
         | VTime ns => XTime ns
         | VDuration ns => XInt ns
         | VBytes bs => XBytes false bs
         | _ => zero_of dst
         end
  end.

(** Numbers, for conversion: integers exactly, floats by their value. *)
Definition to_int (v : anyv) : Z :=
  match v with
  | VInt _ z | VDuration z => z
  | VFloat64 b => int64_of_float64 (f64 b)
  | VFloat32 b => int64_of_float64 (f32 b)
  | _ => 0
  end.
(** As an unsigned integer; what is out of range is up to the hardware. *)
Definition uint64_of_float64 (x : spec_float) : Z :=
  match x with
  | S754_finite false m e => if decide (truncate m e < 2 ^ 64)%Z then truncate m e else int64_of_float64 x
  | _ => int64_of_float64 x
  end.
Definition to_uint (v : anyv) : Z :=
  match v with
  | VInt _ z | VDuration z => z
  | VFloat64 b => uint64_of_float64 (f64 b)
  | VFloat32 b => uint64_of_float64 (f32 b)
  | _ => 0
  end.
Definition to_float (v : anyv) : spec_float :=
  match v with
  | VInt _ z | VDuration z => float64_of_int64 z
  | VFloat64 b => f64 b
  | VFloat32 b => to_float64 (f32 b)
  | _ => S754_nan
  end.

(** [Value.Convert]; [None] is a panic: the slice is shorter than the array. *)
Definition Convert (v : anyv) (dst : rtype) : option rval :=
  match dst, v with
  | RInt _ t, _ => Some (XInt (wrap t (if int_signed t then to_int v else to_uint v)))
  | RFloat64 _, _ => Some (XFloat (bits64 (to_float v)))
  | RFloat32 _, _ => Some (XFloat (bits32 (to_float32 (to_float v))))
  | RString _, (VInt _ z | VDuration z) => Some (XString (string_of_runes [z]))
  | RString _, VString s => Some (XString s)
  | RString _, VBytes bs => Some (XString (string_of_bytes bs))
  | RBytes _, VString s => Some (XBytes false (bytes_of_string s))
  | RBytes _, VBytes bs => Some (XBytes false bs)
  | RByteArray n, VBytes bs => if decide (n ≤ length bs) then Some (XBytes false (take n bs)) else None
  | RBool _, VBool b => Some (XBool b)
  | _, _ => Some (set_as v dst)
  end.

Inductive marshal_error :=
| EPackNil
| EPackNotStruct
| EPackField (field key : string) (e : schema_error)
| EUnpackNotPointer
| EUnpackNotStruct
| ERequiredMissing (key : string)
| EUnpackField (key field : string) (e : assign_error).

(** What is handed to [Pack] and [Unpack]: a pointer to a struct, a struct, a
    nil pointer, a pointer to something else, or something else. *)
Inductive target :=
| TStruct (fields : list structField) (vals : list rval)
| TStructValue (fields : list structField) (vals : list rval)
| TNil
| TNotStruct
| TNotPointer.

Section reflect.
Context (Marshal : anyv → result schema_error (list Z)) (grow : nat → nat → nat).
(** [sonic.Unmarshal] into a new value of a type. *)
Context (Unmarshal : rtype → list Z → option rval).
(** A field value as the [any] of [Value.Interface], for types whose values
    are not one of the snapshot's cases.  A nil byte slice and an empty one
    give the same value: all [Set] does with either is [buf.Clone], whose
    result is a new slice that is not nil. *)
Context (box : rtype → rval → Z) (type_name : rtype → string).

Definition Interface (t : rtype) (x : rval) : anyv :=
  match t, x with
  | RInt None it, XInt z => VInt it z
  | RInt (Some n) Int64, XInt z => if decide (n = "time.Duration") then VDuration z
                                   else VOther (type_name t) (box t x)
  | RBool None, XBool b => VBool b
  | RFloat32 None, XFloat b => VFloat32 b
  | RFloat64 None, XFloat b => VFloat64 b
  | RString None, XString s => VString s
  | RTime, XTime ns => VTime ns
  | RBytes None, XBytes _ bs => VBytes bs
  | RAny, XAny (Some v) => v
  | _, _ => VOther (type_name t) (box t x)
  end.

Definition assignField (t : rtype) (v : anyv) : result assign_error rval :=
  match type_of v with
  | None => Err EAssignPanic
  | Some src =>
      if AssignableTo src t then Ok (set_as v t)
      else if ConvertibleTo src t then
        match Convert v t with Some x => Ok x | None => Err EAssignPanic end
      else match v with
           | VBytes bs => match Unmarshal t bs with
                          | Some x => Ok x
                          | None => Err ETypeMismatchUnmarshal
                          end
           | _ => Err ETypeMismatchAssign
           end
  end.

(** The loop of [reflectPack]. *)
Definition pack_field (fields : list structField) (vals : list rval) (props : builtinProperties) (fi : fieldInfo)
    : result marshal_error builtinProperties :=
  match fields !! index fi, vals !! index fi with
  | Some f, Some x =>
      if has fi flagOmitZero && isEmpty (FieldType f) x then Ok props
      else if has fi flagOmitEmpty && IsZero (FieldType f) x then Ok props
      else rmap_err (EPackField (FieldName f) (fkey fi))
             (Set_ Marshal grow props (fkey fi) (Interface (FieldType f) x))
  | _, _ => Ok props
  end.

Definition reflectPack (props : builtinProperties) (src : target) : result marshal_error builtinProperties :=
  match src with
  | TNil => Err EPackNil
  | TNotPointer | TNotStruct => Err EPackNotStruct
  | TStruct fields vals | TStructValue fields vals =>
      range_fold (pack_field fields vals) props (buildTypeInfo fields)
  end.

(** The loop of [reflectUnpack] assigns in place: the fields assigned before
    an error keep their new values. *)
Fixpoint unpack_loop (data : builtinProperties) (fields : list structField) (infos : list fieldInfo)
    (vals : list rval) : list rval * result marshal_error unit :=
  match infos with
  | [] => (vals, Ok tt)
  | fi :: infos =>
      match Get data (fkey fi) with
      | None => if has fi flagRequired then (vals, Err (ERequiredMissing (fkey fi)))
                else unpack_loop data fields infos vals
      | Some v =>
          match fields !! index fi with
          | None => unpack_loop data fields infos vals
          | Some f =>
              match assignField (FieldType f) v with
              | Err e => (vals, Err (EUnpackField (fkey fi) (FieldName f) e))
              | Ok x => unpack_loop data fields infos (<[index fi := x]> vals)
              end
          end
      end
  end.

Definition reflectUnpack (data : builtinProperties) (dst : target) : target * result marshal_error unit :=
  match dst with
  | TNil | TNotPointer | TStructValue _ _ => (dst, Err EUnpackNotPointer)
  | TNotStruct => (dst, Err EUnpackNotStruct)
  | TStruct fields vals =>
      let '(vals, r) := unpack_loop data fields (buildTypeInfo fields) vals in (TStruct fields vals, r)
  end.

(** [Pack] and [Unpack]: a type's own method comes first. *)
Definition Pack (packer : option (builtinProperties → result marshal_error builtinProperties))
    (b : builtinProperties) (src : target) : result marshal_error builtinProperties :=
  match packer with Some PackSchema => PackSchema b | None => reflectPack b src end.

Definition Unpack (unpacker : option (builtinProperties → target * result marshal_error unit))
    (b : builtinProperties) (dst : target) : target * result marshal_error unit :=
  match unpacker with Some UnpackSchema => UnpackSchema b | None => reflectUnpack b dst end.

(** ** Types are kept *)

(** The values the runtime can hold. *)
Definition any_wf (v : anyv) : Prop :=
  match v with
  | VInt t z => int_range t z
  | VDuration z => int_range Int64 z
  | VFloat32 b => (0 ≤ b < 2 ^ 32)%Z
  | VFloat64 b => (0 ≤ b < 2 ^ 64)%Z
  | _ => True
  end.

Lemma int_range_wrap t z : int_range t (wrap t z).
Proof.
  unfold int_range, wrap. destruct (int_signed t).
  - unfold swrap. rewrite Z.sub_add, Z.mod_mod; [done|]. by destruct t.
  - apply Z.mod_mod. by destruct t.
Qed.

Lemma bits_range mw ew x : (0 ≤ mw + ew + 1)%Z → (0 ≤ bits_of_float mw ew x < 2 ^ (mw + ew + 1))%Z.
Proof. intros H. unfold bits_of_float. apply Z.mod_pos_bound. by apply Z.pow_pos_nonneg. Qed.

Lemma set_as_typed v src t :
  type_of v = Some src → any_wf v → AssignableTo src t = true → has_rtype (set_as v t) t.
Proof.
  intros Hs Hwf Ha. unfold AssignableTo in Ha. apply orb_true_iff in Ha as [Ha|Ha].
  - apply bool_decide_eq_true_1 in Ha. subst src. destruct v; simpl in Hs; try done; injection Hs as <-; done.
  - destruct v; simpl in Hs; try done; injection Hs as <-; by destruct t.
Qed.

Lemma Convert_typed v src t x :
  type_of v = Some src → any_wf v → ConvertibleTo src t = true → Convert v t = Some x → has_rtype x t.
Proof.
  intros Hs Hwf Hc Hx.
  destruct t as [nm t|nm|nm|nm|nm| |nm|n| |ty|ty|ty|ty].
  - injection Hx as <-. apply int_range_wrap.
  - destruct v; simpl in *; try done; injection Hs as <-; by simplify_eq/=.
  - injection Hx as <-. by apply (bits_range 23 8).
  - injection Hx as <-. by apply (bits_range 52 11).
  - destruct v; simpl in *; try done; injection Hs as <-; by simplify_eq/=.
  - destruct v; simpl in *; try done; injection Hs as <-; by simplify_eq/=.
  - destruct v; simpl in *; try done; injection Hs as <-; by simplify_eq/=.
  - destruct v; simpl in *; try done; injection Hs as <-; try done.
    case_decide; [|done]. injection Hx as <-. simpl. rewrite length_take. split; [done|lia].
  - destruct v; simpl in *; by simplify_eq/=.
  - destruct v; simpl in *; try done; injection Hs as <-; by simplify_eq/=.
  - destruct v; simpl in *; try done; injection Hs as <-; by simplify_eq/=.
  - destruct v; simpl in *; try done; injection Hs as <-; by simplify_eq/=.
  - destruct v; simpl in *; try done; injection Hs as <-; by simplify_eq/=.
Qed.

Lemma assignField_typed t v x :
  (∀ t bs x, Unmarshal t bs = Some x → has_rtype x t) →
  any_wf v → assignField t v = Ok x → has_rtype x t.
Proof.
  intros Hu Hwf. unfold assignField. destruct (type_of v) as [src|] eqn:Hs; [|done].
  destruct (AssignableTo src t) eqn:Ha; [intros [= <-]; by eapply set_as_typed|].
  destruct (ConvertibleTo src t) eqn:Hc.
  - destruct (Convert v t) as [y|] eqn:Hx; [|done]. intros [= <-]. by eapply Convert_typed.
  - destruct v; try done. destruct (Unmarshal t bs) eqn:E; [|done]. intros [= <-]. by eapply Hu.
Qed.

Definition typed (fields : list structField) (vals : list rval) : Prop :=
  Forall2 (λ f x, has_rtype x (FieldType f)) fields vals.

Lemma typed_insert fields vals i f x :
  typed fields vals → fields !! i = Some f → has_rtype x (FieldType f) → typed fields (<[i := x]> vals).
Proof.
  intros Ht Hi Hx. rewrite <-(list_insert_id fields i f) by done. by apply Forall2_insert.
Qed.

(** Unpacking respects the types of the struct.  Whatever values the
    property set holds and whether it succeeds or stops at an error, every
    field of the struct afterwards holds a value of its own type, with
    numbers in the range of their width, and a field without a schema tag is
    untouched.  The codec is only assumed to return values of the type it was
    asked for. *)
Theorem unpack_respects_types data fields vals :
  (∀ t bs x, Unmarshal t bs = Some x → has_rtype x t) →
  (∀ k v, Get data k = Some v → any_wf v) →
  typed fields vals →
  ∃ vals' r, reflectUnpack data (TStruct fields vals) = (TStruct fields vals', r) ∧
    typed fields vals' ∧
    ∀ i, i ∉ index <$> buildTypeInfo fields → vals' !! i = vals !! i.
Proof.
  intros Hu Hd Ht. unfold reflectUnpack.
  assert (∀ infos vals, typed fields vals →
    let '(vals', r) := unpack_loop data fields infos vals in
    typed fields vals' ∧ ∀ i, i ∉ index <$> infos → vals' !! i = vals !! i) as Hloop.
  { induction infos as [|fi infos IH]; intros vs Hvs; simpl; [done|].
    destruct (Get data (fkey fi)) as [v|] eqn:Hg.
    - destruct (fields !! index fi) as [f|] eqn:Hf.
      + destruct (assignField (FieldType f) v) as [x|e] eqn:Ha; [|done].
        specialize (IH (<[index fi := x]> vs)).
        destruct (unpack_loop data fields infos (<[index fi := x]> vs)) as [vs' r].
        destruct IH as [Ht' Hfr]; [by eapply typed_insert, assignField_typed; eauto|].
        split; [done|]. intros i Hi. apply not_elem_of_cons in Hi as [Hne Hi].
        rewrite Hfr by done. by apply list_lookup_insert_ne.
      + specialize (IH vs Hvs). destruct (unpack_loop data fields infos vs). destruct IH as [? Hfr].
        split; [done|]. intros i Hi. apply not_elem_of_cons in Hi as [_ Hi]. by apply Hfr.
    - destruct (has fi flagRequired); [done|].
      specialize (IH vs Hvs). destruct (unpack_loop data fields infos vs). destruct IH as [? Hfr].
      split; [done|]. intros i Hi. apply not_elem_of_cons in Hi as [_ Hi]. by apply Hfr. }
  specialize (Hloop (buildTypeInfo fields) vals Ht).
  destruct (unpack_loop data fields (buildTypeInfo fields) vals) as [vals' r].
  exists vals', r. destruct Hloop. done.
Qed.

(** ** What unpacking does *)

(** The values a field of a type takes from a property: the property itself
    where Go's assignment allows it; else what Go's conversion gives; else,
    from bytes, what their JSON text stands for. *)
Inductive takes (t : rtype) (v : anyv) (x : rval) : Prop :=
| take_same src : type_of v = Some src → AssignableTo src t = true → x = set_as v t → takes t v x
| take_converted src : type_of v = Some src → AssignableTo src t = false → ConvertibleTo src t = true →
    Convert v t = Some x → takes t v x
| take_decoded bs : v = VBytes bs → AssignableTo (RBytes None) t = false → ConvertibleTo (RBytes None) t = false →
    Unmarshal t bs = Some x → takes t v x.

Lemma assignField_takes t v x : assignField t v = Ok x ↔ takes t v x.
Proof.
  unfold assignField. split.
  - destruct (type_of v) as [src|] eqn:Ht; [|done].
    destruct (AssignableTo src t) eqn:HA; [intros [= <-]; by eapply take_same|].
    destruct (ConvertibleTo src t) eqn:HC.
    + destruct (Convert v t) eqn:Hv; [|done]. intros [= <-]. by eapply take_converted.
    + destruct v; try done. injection Ht as <-. destruct (Unmarshal t bs) eqn:Hu; [|done].
      intros [= <-]. by eapply take_decoded.
  - intros [src Ht HA ->|src Ht HA HC Hv|bs -> HA HC Hu].
    + by rewrite Ht, HA.
    + by rewrite Ht, HA, HC, Hv.
    + cbn [type_of]. by rewrite HA, HC, Hu.
Qed.

Lemma assignField_refuses t v e : assignField t v = Err e → ∀ x, ¬ takes t v x.
Proof. intros He x Hx%assignField_takes. by rewrite He in Hx. Qed.

(** The value a tagged field has after its key was looked up. *)
Definition unpacked (data : builtinProperties) (fields : list structField) (vals vals' : list rval)
    (fi : fieldInfo) : Prop :=
  match Get data (fkey fi) with
  | Some v => ∃ f x, fields !! index fi = Some f ∧ takes (FieldType f) v x ∧ vals' !! index fi = Some x
  | None => has fi flagRequired = false ∧ vals' !! index fi = vals !! index fi
  end.

(** Why unpacking stops at a field. *)
Definition refused (data : builtinProperties) (fields : list structField) (fi : fieldInfo) (e : marshal_error) : Prop :=
  match Get data (fkey fi) with
  | None => has fi flagRequired = true ∧ e = ERequiredMissing (fkey fi)
  | Some v => ∃ f e', fields !! index fi = Some f ∧ (∀ x, ¬ takes (FieldType f) v x) ∧
                e = EUnpackField (fkey fi) (FieldName f) e'
  end.

Lemma unpack_loop_exact data fields infos vals :
  length vals = length fields → NoDup (index <$> infos) → Forall (λ fi, index fi < length fields) infos →
  let '(vals', r) := unpack_loop data fields infos vals in
  ∃ fin rest, infos = fin ++ rest ∧ Forall (unpacked data fields vals vals') fin ∧
    (∀ i, i ∉ index <$> fin → vals' !! i = vals !! i) ∧
    match r with
    | Ok _ => rest = []
    | Err e => ∃ fi rest', rest = fi :: rest' ∧ refused data fields fi e
    end.
Proof.
  revert vals. induction infos as [|fi infos IH]; intros vals Hlen Hnd Hlt; simpl.
  { exists [], []. split_and!; try done. }
  rewrite fmap_cons in Hnd. apply NoDup_cons in Hnd as [Hni Hnd]. apply Forall_cons in Hlt as [Hlt Hlts].
  destruct (lookup_lt_is_Some_2 _ _ Hlt) as [f Hf].
  destruct (Get data (fkey fi)) as [v|] eqn:Hg.
  - rewrite Hf. destruct (assignField (FieldType f) v) as [x|e] eqn:Ha.
    + specialize (IH (<[index fi := x]> vals)).
      destruct (unpack_loop data fields infos (<[index fi := x]> vals)) as [vals' r].
      destruct IH as (fin & rest & -> & Hfin & Hout & Hr); [by rewrite length_insert|done|done|].
      exists (fi :: fin), rest. split; [done|].
      assert (vals' !! index fi = Some x) as Hx.
      { rewrite Hout; [by apply list_lookup_insert_eq; rewrite Hlen|].
        rewrite fmap_app, elem_of_app in Hni. intros Hin. apply Hni. by left. }
      split_and!; [|..|done].
      * constructor; [unfold unpacked; rewrite Hg; exists f, x; by rewrite <-assignField_takes|]. apply Forall_forall. intros fj Hj.
        rewrite Forall_forall in Hfin. specialize (Hfin fj Hj). unfold unpacked in *.
        destruct (Get data (fkey fj)); [done|]. destruct Hfin as [Hq Hv]. split; [done|]. rewrite Hv.
        apply list_lookup_insert_ne. intros E. apply Hni. rewrite E, fmap_app, elem_of_app. left.
        by apply list_elem_of_fmap_2.
      * intros i Hi. apply not_elem_of_cons in Hi as [Hne Hi]. rewrite Hout by done. by apply list_lookup_insert_ne.
    + exists [], (fi :: infos). split_and!; [done|constructor|done|]. exists fi, infos. split; [done|].
      unfold refused. rewrite Hg. pose proof (assignField_refuses _ _ _ Ha). eauto.
  - destruct (has fi flagRequired) eqn:Hq.
    + exists [], (fi :: infos). split_and!; [done|constructor|done|]. exists fi, infos. split; [done|].
      unfold refused. by rewrite Hg.
    + specialize (IH vals Hlen Hnd Hlts). destruct (unpack_loop data fields infos vals) as [vals' r].
      destruct IH as (fin & rest & -> & Hfin & Hout & Hr). exists (fi :: fin), rest. split_and!; [done| | |done].
      * constructor; [|done]. unfold unpacked. rewrite Hg. split; [done|]. apply Hout.
        rewrite fmap_app, elem_of_app in Hni. intros Hin. apply Hni. by left.
      * intros i Hi. apply not_elem_of_cons in Hi as [_ Hi]. by apply Hout.
Qed.

(** ** The round trip *)

(** The types whose values come back: not the defined string and byte types
    and the byte arrays, whose JSON text is taken for their value, and not
    interfaces. *)
Definition faithful (t : rtype) : bool :=
  match t with RString (Some _) | RBytes (Some _) | RByteArray _ | RAny => false | _ => true end.

Definition omitted (fi : fieldInfo) (t : rtype) (x : rval) : bool :=
  (has fi flagOmitZero && isEmpty t x) || (has fi flagOmitEmpty && IsZero t x).

(** The JSON text of this value decodes to it again. *)
Definition json_restores (t : rtype) (x : rval) : Prop :=
  ∀ bs, Marshal (Interface t x) = Ok bs → Unmarshal t bs = Some x.
Definition stored_as_json (t : rtype) (x : rval) : bool :=
  match Interface t x with VOther _ _ => true | _ => false end.

(** The values that survive: no nil byte slice; and of the values that are
    stored as JSON those the codec restores. *)
Definition survives (t : rtype) (x : rval) : Prop :=
  match t, x with RBytes _, XBytes true _ => False | _, _ => True end ∧
  (stored_as_json t x = true → json_restores t x).

(** What [snapshot] stores, [assignField] restores. *)
Lemma snapshot_assign t x dst :
  faithful t = true → has_rtype x t → survives t x →
  snapshot Marshal (Interface t x) = Ok dst → assignField t dst = Ok x.
Proof.
  intros Hf Ht [Hsv Hjs] Hsnap.
  assert (∀ n i, Interface t x = VOther n i → (∀ src, src = RBytes None → AssignableTo src t = false) →
    (∀ src, src = RBytes None → ConvertibleTo src t = false) → assignField t dst = Ok x) as Hjson.
  { intros n i Hi HA HC. pose proof Hsnap as Hs. rewrite Hi in Hs. simpl in Hs.
    apply rbind_ok in Hs as (bs & Hm & [= <-]). rewrite <-Hi in Hm.
    unfold assignField. cbn [type_of].
    unfold stored_as_json in Hjs. rewrite Hi in Hjs.
    by rewrite (HA _ eq_refl), (HC _ eq_refl), (Hjs eq_refl bs Hm). }
  destruct t as [[nm|] t|[nm|]|[nm|]|[nm|]|[nm|]| |[nm|]|n| |ty|ty|ty|ty], x; simpl in Ht, Hf; try done;
    try (by eapply Hjson; [reflexivity|intros ? ->..]);
    try (by simpl in Hsnap; injection Hsnap as <-; unfold assignField, AssignableTo; simpl;
         rewrite bool_decide_eq_true_2);
    try (by simpl in Hsnap; injection Hsnap as <-).
  - destruct (decide (t = Int64)) as [->|Hne].
    + destruct (decide (nm = "time.Duration")) as [->|Hn].
      * simpl in Hsnap. injection Hsnap as <-. reflexivity.
      * eapply Hjson; [simpl; by rewrite decide_False|by intros ? ->..].
    + eapply Hjson; [|by intros ? ->..]. destruct t; simpl; done.
  - destruct is_nil; [done|]. simpl in Hsnap. injection Hsnap as <-. done.
Qed.

(** What [Pack] leaves under each key. *)
Lemma pack_view fields vals infos props props' :
  props_wf props → readonly props = false → NoDup (fkey <$> infos) →
  (∀ fi, fi ∈ infos → is_Some (fields !! index fi) ∧ is_Some (vals !! index fi)) →
  range_fold (pack_field fields vals) props infos = Ok props' →
  (∀ fi f x, fi ∈ infos → fields !! index fi = Some f → vals !! index fi = Some x →
     if omitted fi (FieldType f) x then Get props' (fkey fi) = Get props (fkey fi)
     else ∃ dst, snapshot Marshal (Interface (FieldType f) x) = Ok dst ∧ Get props' (fkey fi) = Some dst) ∧
  (∀ k, k ∉ fkey <$> infos → Get props' k = Get props k).
Proof.
  revert props. induction infos as [|fi infos IH]; intros props Hwf Hr Hnd Hidx; simpl.
  { intros [= <-]. split; [|done]. intros fi f x Hfi. by apply not_elem_of_nil in Hfi. }
  intros (p1 & Hp1 & Hrest)%rbind_ok. rewrite fmap_cons in Hnd. apply NoDup_cons in Hnd as [Hk Hnd].
  destruct (Hidx fi) as [[f Hf] [x Hx]]; [by left|].
  assert (props_wf p1 ∧ readonly p1 = false ∧
    (∀ k, k ≠ fkey fi → Get p1 k = Get props k) ∧
    (if omitted fi (FieldType f) x then Get p1 (fkey fi) = Get props (fkey fi)
     else ∃ dst, snapshot Marshal (Interface (FieldType f) x) = Ok dst ∧ Get p1 (fkey fi) = Some dst))
    as (Hwf1 & Hr1 & Hother & Hthis).
  { revert Hp1. unfold pack_field, omitted. rewrite Hf, Hx.
    destruct (has fi flagOmitZero && isEmpty (FieldType f) x); simpl; [by intros [= <-]|].
    destruct (has fi flagOmitEmpty && IsZero (FieldType f) x); simpl; [by intros [= <-]|].
    intros Hset%rmap_err_ok. destruct (Set_ok _ _ _ _ _ _ Hwf Hset) as (_ & Hr1 & Hwf1 & dst & Hs & Hv).
    split; [done|]. split; [done|]. split.
    - intros k Hne. by rewrite !Get_view, Hv, lookup_insert_ne.
    - exists dst. by rewrite Get_view, Hv, lookup_insert_eq. }
  destruct (IH p1 Hwf1 Hr1 Hnd) as [HIH Hout]; [|done|].
  { intros fi' Hfi'. apply Hidx. by right. }
  split.
  - intros fi' f' x' Hfi' Hf' Hx'. apply elem_of_cons in Hfi' as [->|Hin].
    + rewrite Hf in Hf'. rewrite Hx in Hx'. simplify_eq. by rewrite Hout.
    + specialize (HIH fi' f' x' Hin Hf' Hx').
      assert (fkey fi' ≠ fkey fi) as Hne.
      { intros E. apply Hk. rewrite <-E. apply list_elem_of_fmap. eauto. }
      destruct (omitted fi' (FieldType f') x'); [|done]. by rewrite HIH, Hother.
  - intros k Hk'. apply not_elem_of_cons in Hk' as [Hne Hk'].
    by rewrite Hout, Hother.
Qed.

(** Field infos are in the order of the fields, one per field at most. *)
Lemma buildTypeInfo_index_gen fields off :
  let infos := omap (λ '(i, f), if negb (IsExported f) then None
    else if bool_decide (tag f = "" ∨ tag f = "-") then None else Some (parse_tag i (tag f)))
    (imap (λ i f, (off + i, f)) fields) in
  Forall (λ fi, off ≤ index fi < off + length fields) infos ∧ NoDup (index <$> infos).
Proof.
  revert off. induction fields as [|f fields IH]; intros off; [split; constructor|].
  assert (imap (λ i f, (off + i, f)) (f :: fields) = (off, f) :: imap (λ i f, (S off + i, f)) fields) as ->.
  { rewrite imap_cons. f_equal; [f_equal; lia|]. apply imap_ext. intros i g _. simpl. f_equal. lia. }
  destruct (IH (S off)) as [Hb Hnd]. cbn [omap list_omap].
  assert (∀ i t, index (parse_tag i t) = i) as Hix by (intros; unfold parse_tag; by case_match).
  assert (Forall (λ fi, off ≤ index fi < off + length (f :: fields))
    (omap (λ '(i, f), if negb (IsExported f) then None
      else if bool_decide (tag f = "" ∨ tag f = "-") then None else Some (parse_tag i (tag f)))
      (imap (λ i f, (S off + i, f)) fields))) as Hb'.
  { eapply Forall_impl; [exact Hb|]. simpl. lia. }
  destruct (negb (IsExported f)); [done|]. destruct (bool_decide _); [done|]. split.
  - constructor; [rewrite Hix; simpl; lia|done].
  - rewrite fmap_cons. constructor; [|done]. rewrite Hix. intros (fi & Hi & Hin)%list_elem_of_fmap.
    rewrite Forall_forall in Hb. specialize (Hb fi Hin). lia.
Qed.

Lemma buildTypeInfo_index fields :
  Forall (λ fi, index fi < length fields) (buildTypeInfo fields) ∧ NoDup (index <$> buildTypeInfo fields).
Proof.
  destruct (buildTypeInfo_index_gen fields 0) as [H1 H2]. split; [|done].
  eapply Forall_impl; [exact H1|]. simpl. lia.
Qed.


End reflect.

(** ** A concrete codec, for evaluation: it knows one struct type *)
Definition demo_type_name (t : rtype) : string := match t with RStruct _ => "S" | _ => "" end.
Definition demo_box (t : rtype) (x : rval) : Z :=
  match x with XStruct zero i => (2 * i + Z.b2z zero)%Z | _ => 0%Z end.
Definition demo_encode (v : anyv) : result schema_error (list Z) :=
  match v with
  | VOther ty z => if decide (ty = "S") then Ok [z] else Err (ECodec 1)
  | _ => Err (ECodec 1)
  end.
Definition demo_decode (t : rtype) (bs : list Z) : option rval :=
  match t, bs with
  | RStruct _, [z] => Some (XStruct (Z.odd z) (z / 2))
  | RAny, [z] => Some (XAny (Some (VOther "S" z)))
  | _, _ => None
  end.

Lemma demo_decode_typed t bs x : demo_decode t bs = Some x → has_rtype x t.
Proof. destruct t; simpl; try done; destruct bs as [|z [|]]; try done; by intros [= <-]. Qed.

Definition demo_fields : list structField :=
  [mkStructField "Text" true "text,required" (RString None);
   mkStructField "hidden" false "x" (RString None);
   mkStructField "Count" true "n,omitempty" (RInt None Int32);
   mkStructField "Wait" true "wait" Duration;
   mkStructField "Extra" true "extra,omitzero" (RStruct "Extra")].
Definition demo_vals : list rval :=
  [XString "hi"; XString "secret"; XInt 0; XInt 250; XStruct false 7].


Definition demo_data : builtinProperties :=
  mkProps (mkSlice [mkEntry "text" (VInt Int 65); mkEntry "n" (VInt Int64 4294967297)] 2) false.

(** The required text is there, the count is missing, the delay has no number. *)
Definition demo_unpack : builtinProperties :=
  mkProps (mkSlice [mkEntry "text" (VString "hello"); mkEntry "wait" (VString "soon")] 2) false.


Lemma unpack_respects_types_witness :
  ∃ vals' r, reflectUnpack demo_decode demo_data (TStruct demo_fields demo_vals) = (TStruct demo_fields vals', r) ∧
    typed demo_fields vals' ∧ vals' !! 1 = Some (XString "secret").
Proof.
  destruct (unpack_respects_types demo_decode demo_data demo_fields demo_vals) as (vals' & r & Hu & Ht & Hfr).
  - apply demo_decode_typed.
  - intros k v. unfold Get. simpl. repeat case_decide; intros [= <-]; reflexivity.
  - repeat constructor.
  - exists vals', r. split; [done|]. split; [done|]. rewrite Hfr; [reflexivity|].
    by apply (bool_decide_unpack (1 ∉ index <$> buildTypeInfo demo_fields)).
Defined.

(** ** Where the round trip fails

    A value of a defined string type is stored as its JSON text, and since a
    byte slice converts to a string, unpacking takes the text itself, quotes
    included, instead of decoding it. *)
Theorem defined_string_gets_json_text Marshal Unmarshal box type_name nm s bs :
  snapshot Marshal (Interface box type_name (RString (Some nm)) (XString s)) = Ok (VBytes bs) →
  assignField Unmarshal (RString (Some nm)) (VBytes bs) = Ok (XString (string_of_bytes bs)).
Proof. done. Qed.

(** An integer property unpacked into a string field is not refused: it
    becomes the character with that code. *)
Lemma integer_becomes_character Unmarshal :
  assignField Unmarshal (RString None) (VInt Int 65) = Ok (XString "A").
Proof. reflexivity. Qed.
