(* ===== verification/RemoteCall.v ===== *)
(** * One call of a remote plugin: internal/remote/call.go

    A caller waits for the report of the remote side while the reader and
    the writer of the stream, and the end of the stream, may finish the call
    at the same time.  The machine below has one step per atomic action: the
    compare-and-swap on [finished], the send on [done], the branches of the
    caller's select and the end of the cancel callback, each at a time of the
    clock. *)

From S2P Require Import Prelude.

Inductive call_error :=
| ErrLeaseExpired (id : string)
| ErrCanceled                          (* context.Canceled *)
| ErrDeadline                          (* context.DeadlineExceeded *)
| ErrStreamClosed
| ErrStreamSend (code : Z)
| ErrRemote (code message details : string)
| ErrInvalidStatus (status : Z)
| ErrNotStreaming (state : Z)
| ErrCallInProgress
| ErrSend (messageId : string) (e : call_error).

(** The callback that sends the cancellation gives up after this time. *)
Definition defaultCancelSendTimeout : Z := 1000000000.

(** The caller is at its select, inside the cancel callback until a time at
    most, or has returned. *)
Inductive waiter := Waiting | Cancelling (limit : Z) | Returned (err : option call_error).

(** [done] is a channel of capacity one of errors ([None] is nil), [renewCh]
    one of signals.  [ctxDone] is the local variable of [wait] that is set to
    nil once the cancellation was seen; [ctxErr] is the state of the context;
    [finisher] is a call of [finish] between its two actions. *)
Record call := mkCall {
  id : string;
  lease : Z;
  done : list (option call_error);
  renewCh : bool;
  finished : bool;
  has_cancelCallback : bool;
  ctxErr : option call_error;
  ctxDone : bool;
  deadline : Z;
  finisher : option (option call_error);
  wait_state : waiter;
}.

(** [newCall] and the start of [wait] at time [now]. *)
Definition newCall (callId : string) (callLease now : Z) (cb : bool) (ctx : option call_error) : call :=
  mkCall callId callLease [] false false cb ctx true (now + callLease) None Waiting.

Definition set_done (c : call) (d : list (option call_error)) (f : option (option call_error)) : call :=
  mkCall (id c) (lease c) d (renewCh c) (finished c) (has_cancelCallback c) (ctxErr c) (ctxDone c)
    (deadline c) f (wait_state c).
Definition set_finished (c : call) : call :=
  mkCall (id c) (lease c) (done c) (renewCh c) true (has_cancelCallback c) (ctxErr c) (ctxDone c)
    (deadline c) (finisher c) (wait_state c).
Definition set_renew (c : call) (r : bool) (d : Z) : call :=
  mkCall (id c) (lease c) (done c) r (finished c) (has_cancelCallback c) (ctxErr c) (ctxDone c)
    d (finisher c) (wait_state c).
Definition set_ctx (c : call) (e : option call_error) (armed : bool) : call :=
  mkCall (id c) (lease c) (done c) (renewCh c) (finished c) (has_cancelCallback c) e armed
    (deadline c) (finisher c) (wait_state c).
Definition return_with (c : call) (e : option call_error) : call :=
  mkCall (id c) (lease c) (done c) (renewCh c) (finished c) (has_cancelCallback c) (ctxErr c) (ctxDone c)
    (deadline c) (finisher c) (Returned e).

Definition set_wait (c : call) (w : waiter) : call :=
  mkCall (id c) (lease c) (done c) (renewCh c) (finished c) (has_cancelCallback c) (ctxErr c) (ctxDone c)
    (deadline c) (finisher c) w.
Definition waiting (c : call) : bool := match wait_state c with Waiting => true | _ => false end.

(** ** renew, finish *)
Definition renew_send (c : call) : call := set_renew c true (deadline c).
Definition renew (c : call) : call := if finished c then c else renew_send c.

Definition finish (err : option call_error) (c : call) : call :=
  if finished c then c else set_done (set_finished c) (done c) (Some err).
(** [c.done <- err]; blocks while the channel is full. *)
Definition finish_send (c : call) : option call :=
  match finisher c with
  | Some err => if decide (length (done c) < 1) then Some (set_done c (done c ++ [err]) None) else None
  | None => None
  end.

(** ** The branches of wait *)
Definition wait_done (c : call) : option call :=
  match done c with
  | err :: rest => if waiting c then Some (return_with (set_done c rest (finisher c)) err) else None
  | [] => None
  end.

Definition wait_renew (now : Z) (c : call) : option call :=
  if waiting c && renewCh c then Some (set_renew c false (now + lease c)) else None.

Definition wait_timer (now : Z) (c : call) : option call :=
  if waiting c && bool_decide (deadline c ≤ now)%Z then
    Some (if finished c then return_with c None
          else return_with (set_finished c) (Some (ErrLeaseExpired (id c))))
  else None.

(** The branch of the context: the callback is entered, or without one the
    call is given up. *)
Definition abandon (e : call_error) (c : call) : call :=
  if finished c then return_with c None else return_with (set_finished c) (Some e).

Definition wait_ctx (now : Z) (c : call) : option call :=
  match ctxErr c with
  | Some e =>
      if waiting c && ctxDone c then
        let c := set_ctx c (ctxErr c) false in
        Some (if has_cancelCallback c then set_wait c (Cancelling (now + defaultCancelSendTimeout))
              else abandon e c)
      else None
  | None => None
  end.

(** The callback returns; [keep] is its negated result: keep waiting. *)
Definition wait_callback (keep : bool) (c : call) : option call :=
  match wait_state c, ctxErr c with
  | Cancelling _, Some e => Some (if keep then set_wait c Waiting else abandon e c)
  | _, _ => None
  end.

(** ** The machine

    The outcome of a call is decided by the first to set [finished]: a
    [finish], the lease or the context.  Clocks do not run backwards, and a
    cancel callback returns within its time-out. *)
Inductive decision := ByFinish (err : option call_error) | ByLease | ByContext (e : call_error).

Inductive call_step : Z * call → option decision → Z * call → Prop :=
| step_tick now now' c : (now ≤ now')%Z → (∀ u, wait_state c = Cancelling u → now' ≤ u)%Z →
    call_step (now, c) None (now', c)
| step_cancel now c e : ctxErr c = None → call_step (now, c) None (now, set_ctx c (Some e) (ctxDone c))
| step_renew now c : call_step (now, c) None (now, renew c)
| step_renew_late now c : call_step (now, c) None (now, renew_send c)
| step_finish now c err :
    call_step (now, c) (if finished c then None else Some (ByFinish err)) (now, finish err c)
| step_finish_send now c c' : finish_send c = Some c' → call_step (now, c) None (now, c')
| step_wait_done now c c' : wait_done c = Some c' → call_step (now, c) None (now, c')
| step_wait_renew now c c' : wait_renew now c = Some c' → call_step (now, c) None (now, c')
| step_wait_timer now c c' : wait_timer now c = Some c' →
    call_step (now, c) (if finished c then None else Some ByLease) (now, c')
| step_wait_ctx now c c' e : wait_ctx now c = Some c' → ctxErr c = Some e →
    call_step (now, c)
      (if finished c || has_cancelCallback c then None else Some (ByContext e)) (now, c')
| step_wait_callback now c c' keep e : wait_callback keep c = Some c' → ctxErr c = Some e →
    call_step (now, c) (if finished c || keep then None else Some (ByContext e)) (now, c').

(** The steps of a call with the decisions they make. *)
Inductive call_run : Z * call → list decision → Z * call → Prop :=
| run_refl s : call_run s [] s
| run_step s ds s1 d s2 :
    call_run s ds s1 → call_step s1 d s2 → call_run s (ds ++ option_list d) s2.

(** ** The invariant *)

(** Where the error of a [finish] is: with the finisher or in the channel. *)
Definition in_flight (err : option call_error) (c : call) : Prop :=
  (finisher c = Some err ∧ done c = []) ∨ (finisher c = None ∧ done c = [err]).
Definition at_rest (c : call) : Prop := finisher c = None ∧ done c = [].

(** The end of the lease or the cancellation came before the caller received
    the report. *)
Definition overtaken (now : Z) (c : call) : Prop := (deadline c ≤ now)%Z ∨ is_Some (ctxErr c).

(** What a decided call may return: the error it was finished with, or nil
    while the report is still under way and was overtaken; the error of the
    lease, at its end; the error of the context. *)
Definition outcome (now : Z) (c : call) (d : decision) (r : option call_error) : Prop :=
  match d with
  | ByFinish err => (r = err ∧ at_rest c) ∨ (r = None ∧ in_flight err c ∧ overtaken now c)
  | ByLease => r = Some (ErrLeaseExpired (id c)) ∧ (deadline c ≤ now)%Z ∧ at_rest c
  | ByContext e => r = Some e ∧ ctxErr c = Some e ∧ at_rest c
  end.

Definition decided (now : Z) (d : decision) (c : call) : Prop :=
  match wait_state c with
  | Returned r => outcome now c d r
  | _ => match d with ByFinish err => in_flight err c | _ => False end
  end.

Definition undecided (c : call) : Prop := at_rest c ∧ ∀ r, wait_state c ≠ Returned r.

Record call_ok (i : string) (l : Z) (s : Z * call) (ds : list decision) : Prop := {
  co_id : id s.2 = i;
  co_lease : lease s.2 = l;
  co_deadline : (deadline s.2 ≤ s.1 + l)%Z;
  co_cancel : ∀ u, wait_state s.2 = Cancelling u → (s.1 ≤ u ≤ s.1 + defaultCancelSendTimeout)%Z;
  co_state : if finished s.2 then ∃ d, ds = [d] ∧ decided s.1 d s.2 else ds = [] ∧ undecided s.2;
}.

(** A step that keeps [finished] and makes no decision. *)
Lemma call_ok_keep i l now now' c c' ds :
  call_ok i l (now, c) ds →
  id c' = i → lease c' = l → (deadline c' ≤ now' + l)%Z → finished c' = finished c →
  (∀ u, wait_state c' = Cancelling u → (now' ≤ u ≤ now' + defaultCancelSendTimeout)%Z) →
  (∀ d, decided now d c → decided now' d c') → (undecided c → undecided c') →
  call_ok i l (now', c') ds.
Proof.
  intros [_ _ _ _ Hst] Hi Hl Hd Hf Hc Hdec Hun. split; simpl in *; [done..|]. rewrite Hf.
  destruct (finished c); naive_solver.
Qed.

(** The first to set [finished] decides. *)
Lemma call_ok_decide i l now c c' ds d :
  call_ok i l (now, c) ds → finished c = false →
  id c' = i → lease c' = l → deadline c' = deadline c → finished c' = true →
  (∀ u, wait_state c' = Cancelling u → wait_state c = Cancelling u) →
  (undecided c → decided now d c') →
  call_ok i l (now, c') (ds ++ [d]).
Proof.
  intros [_ _ Hd Hca Hst] Hf Hi Hl Hdl Hf' Hc Hdec. simpl in *. rewrite Hf in Hst. destruct Hst as [-> Hun].
  split; simpl; [done|done|lia|auto|]. rewrite Hf'. exists d. auto.
Qed.

Lemma waiting_true c : waiting c = true → wait_state c = Waiting.
Proof. unfold waiting. by destruct (wait_state c). Qed.

(** A caller that stops waiting: it returns nil when the call was decided
    before, and decides it otherwise. *)
Lemma call_ok_return i l now c c' ds d :
  call_ok i l (now, c) ds →
  (∀ r, wait_state c ≠ Returned r) → id c' = i → lease c' = l → deadline c' = deadline c →
  finished c' = true → done c' = done c → finisher c' = finisher c → ctxErr c' = ctxErr c →
  overtaken now c → (finished c = true → wait_state c' = Returned None) →
  (finished c = false → at_rest c' → ∃ e, wait_state c' = Returned (Some e) ∧ outcome now c' d (Some e)) →
  call_ok i l (now, c') (ds ++ option_list (if finished c then None else Some d)).
Proof.
  intros Hok Hw Hi Hl Hdl Hf' Hdone Hfin Hctx Hov Hnil Hdec.
  destruct (finished c) eqn:Hf; simpl.
  - rewrite app_nil_r. specialize (Hnil eq_refl). clear Hdec.
    apply (call_ok_keep i l now now c c' ds); [done..| |congruence| | |].
    + destruct Hok; simpl in *. lia.
    + by rewrite Hnil.
    + intros d' Hd'. unfold decided in *. rewrite Hnil.
      assert (∃ err, d' = ByFinish err ∧ in_flight err c) as (err & -> & Hfl).
      { destruct (wait_state c) as [| |r] eqn:E; [..|by destruct (Hw r)]; destruct d'; naive_solver. }
      right. unfold in_flight, overtaken in *. rewrite Hfin, Hdone, Hdl, Hctx. done.
    + destruct Hok as [_ _ _ _ Hst]. simpl in Hst. rewrite Hf in Hst. destruct Hst as (d' & _ & Hd').
      intros [[Hx Hy] _]. exfalso. unfold decided, in_flight in Hd'. rewrite Hx, Hy in Hd'.
      destruct (wait_state c) as [| |r] eqn:E; [..|by destruct (Hw r)]; destruct d'; naive_solver.
  - apply (call_ok_decide i l now c c'); [done..| |].
    + intros u Hu. destruct Hok as [_ _ _ _ Hst]. simpl in Hst. rewrite Hf in Hst. destruct Hst as [_ [[Hx Hy] _]].
      destruct (Hdec eq_refl) as (e & He & _); [by unfold at_rest; rewrite Hfin, Hdone|]. congruence.
    + intros [[Hx Hy] _]. destruct (Hdec eq_refl) as (e & He & Ho); [by unfold at_rest; rewrite Hfin, Hdone|].
      unfold decided. by rewrite He.
Qed.

Lemma call_ok_finish i l now c ds err :
  call_ok i l (now, c) ds →
  call_ok i l (now, finish err c) (ds ++ option_list (if finished c then None else Some (ByFinish err))).
Proof.
  intros Hok. unfold finish. destruct (finished c) eqn:Hf; simpl; [by rewrite app_nil_r|].
  pose proof Hok as [Hi Hl Hd _ _].
  apply (call_ok_decide i l now c); [done..|].
  intros [[Hx Hy] Hz]. unfold decided, in_flight. simpl. rewrite Hy.
  destruct (wait_state c) as [| |r]; [auto..|by destruct (Hz r)].
Qed.

Lemma call_ok_finish_send i l now c c' ds :
  call_ok i l (now, c) ds → finish_send c = Some c' → call_ok i l (now, c') ds.
Proof.
  intros Hok. unfold finish_send. destruct (finisher c) as [err|] eqn:Hfin; [|done].
  case_decide as Hlen; [|done]. intros [= <-]. pose proof Hok as [Hi Hl Hd Hc Hst].
  eapply (call_ok_keep i l now now c); [done..| |].
  - intros d Hdec. unfold decided, outcome, in_flight, at_rest, overtaken in *. simpl. rewrite Hfin in *.
    destruct (done c) as [|x [|y z]]; simpl in *; [|lia..].
    destruct d; destruct (wait_state c); naive_solver.
  - intros [[Hx _] _]. by rewrite Hx in Hfin.
Qed.

Lemma call_ok_wait_done i l now c c' ds :
  call_ok i l (now, c) ds → wait_done c = Some c' → call_ok i l (now, c') ds.
Proof.
  intros Hok. unfold wait_done. destruct (done c) as [|err rest] eqn:Hdone; [done|].
  destruct (waiting c) eqn:Hw; [|done]. intros [= <-]. apply waiting_true in Hw.
  pose proof Hok as [Hi Hl Hd Hc Hst].
  eapply (call_ok_keep i l now now c); [done..| |].
  - intros d. unfold decided, outcome, in_flight, at_rest. simpl. rewrite Hw, Hdone.
    destruct d; [|done..]. naive_solver.
  - intros [[_ Hx] _]. by rewrite Hx in Hdone.
Qed.

Lemma call_ok_give_up i l now c ds e :
  call_ok i l (now, c) ds → (∀ r, wait_state c ≠ Returned r) → ctxErr c = Some e →
  call_ok i l (now, abandon e c) (ds ++ option_list (if finished c then None else Some (ByContext e))).
Proof.
  intros Hok Hw He. pose proof Hok as [Hi Hl Hd Hc Hst].
  apply (call_ok_return i l now c); try done; unfold abandon; destruct (finished c) eqn:Hf; try done.
  - right. by eexists.
  - right. by eexists.
  - intros _ Hr. by eexists.
Qed.

(** Entering the callback and going on after it are not decisions. *)
Lemma call_ok_set_wait i l now c ds w :
  call_ok i l (now, c) ds → (∀ r, wait_state c ≠ Returned r) →
  w = Waiting ∨ w = Cancelling (now + defaultCancelSendTimeout) →
  call_ok i l (now, set_wait c w) ds.
Proof.
  intros Hok Hw Hw'. pose proof Hok as [Hi Hl Hd Hc Hst].
  eapply (call_ok_keep i l now now c); [done..| | |].
  - intros u Hu. simpl in Hu. unfold defaultCancelSendTimeout in *. destruct Hw' as [->| ->]; [done|].
    injection Hu as <-. lia.
  - intros d. unfold decided. simpl.
    destruct (wait_state c) as [| |r]; [..|by destruct (Hw r)]; by destruct Hw' as [->| ->].
  - intros [Hr _]. split; [done|]. simpl. by destruct Hw' as [->| ->].
Qed.

Lemma call_ok_disarm i l now c ds :
  call_ok i l (now, c) ds → call_ok i l (now, set_ctx c (ctxErr c) false) ds.
Proof. intros Hok. pose proof Hok as [Hi Hl Hd Hc Hst]. by eapply (call_ok_keep i l now now c). Qed.

Lemma call_ok_wait_ctx i l now c c' ds e :
  call_ok i l (now, c) ds → wait_ctx now c = Some c' → ctxErr c = Some e →
  call_ok i l (now, c')
    (ds ++ option_list (if finished c || has_cancelCallback c then None else Some (ByContext e))).
Proof.
  intros Hok. unfold wait_ctx. destruct (ctxErr c) as [e'|] eqn:He; [|done].
  destruct (waiting c && ctxDone c) eqn:Hw; [|done]. apply andb_true_iff in Hw as [Hw%waiting_true _].
  apply call_ok_disarm in Hok. rewrite He in Hok. cbn [has_cancelCallback set_ctx].
  destruct (has_cancelCallback c); intros [= <-] [= <-].
  - rewrite orb_true_r. simpl. rewrite app_nil_r. apply call_ok_set_wait; [done|by simpl; rewrite Hw|by right].
  - rewrite orb_false_r. by apply (call_ok_give_up i l now (set_ctx c (Some e') false)); [|simpl; rewrite Hw|].
Qed.

Lemma call_ok_wait_callback i l now c c' ds keep e :
  call_ok i l (now, c) ds → wait_callback keep c = Some c' → ctxErr c = Some e →
  call_ok i l (now, c') (ds ++ option_list (if finished c || keep then None else Some (ByContext e))).
Proof.
  intros Hok. unfold wait_callback. destruct (wait_state c) as [|u|] eqn:Hw; [done| |done].
  intros Hc He. rewrite He in Hc. destruct keep; injection Hc as <-.
  - rewrite orb_true_r. simpl. rewrite app_nil_r. apply call_ok_set_wait; [done|by rewrite Hw|by left].
  - rewrite orb_false_r. apply call_ok_give_up; [done|by rewrite Hw|done].
Qed.

Lemma call_ok_step i l s d s' ds :
  (0 ≤ l)%Z → call_ok i l s ds → call_step s d s' → call_ok i l s' (ds ++ option_list d).
Proof.
  intros Hl Hok Hstep. pose proof Hok as [Hi Hle Hd Hca Hst].
  destruct Hstep as [now now' c Hn Hlim|now c e He|now c|now c|now c err|now c c' Hc|now c c' Hc|now c c' Hc
    |now c c' Hc|now c c' e Hc He|now c c' keep e Hc He]; simpl in *; rewrite ?app_nil_r.
  - eapply (call_ok_keep i l now now' c); try done; [lia| |].
    + intros u Hu. specialize (Hca u Hu). specialize (Hlim u Hu). lia.
    + intros d. unfold decided, outcome, overtaken. destruct (wait_state c), d; try done; intros; naive_solver lia.
  - eapply (call_ok_keep i l now now c); try done.
    intros d. unfold decided, outcome, overtaken, in_flight, at_rest. simpl. rewrite He.
    destruct (wait_state c), d; try done; naive_solver.
  - unfold renew. destruct (finished c) eqn:Hf; [done|]. by eapply (call_ok_keep i l now now c).
  - by eapply (call_ok_keep i l now now c).
  - by apply call_ok_finish.
  - by eapply call_ok_finish_send.
  - by eapply call_ok_wait_done.
  - unfold wait_renew in Hc. destruct (waiting c && renewCh c) eqn:Hw; [|done]. injection Hc as <-.
    apply andb_true_iff in Hw as [Hw%waiting_true _].
    eapply (call_ok_keep i l now now c); try done; [simpl; lia|].
    intros d. unfold decided. simpl. by rewrite Hw.
  - unfold wait_timer in Hc. destruct (waiting c && bool_decide (deadline c ≤ now)%Z) eqn:Hw; [|done].
    apply andb_true_iff in Hw as [Hw%waiting_true Hdl%bool_decide_eq_true]. injection Hc as <-.
    apply (call_ok_return i l now c); destruct (finished c) eqn:Hf; try done; try (by rewrite Hw); try (by left).
    intros _ Hr. by eexists.
  - by eapply call_ok_wait_ctx.
  - by eapply call_ok_wait_callback.
Qed.

(** The decider finds room in the channel. *)
Lemma call_ok_finish_nonblocking i l t c ds :
  call_ok i l (t, c) ds → finisher c ≠ None → is_Some (finish_send c).
Proof.
  intros [_ _ _ _ Hst] Hf. simpl in Hst.
  destruct (finished c); [|destruct Hst as [_ [[Hx _] _]]; congruence].
  destruct Hst as (d & _ & Hdec). unfold finish_send. destruct (finisher c) as [err|] eqn:E; [|done].
  rewrite decide_True; [by eexists|].
  unfold decided, outcome, in_flight, at_rest in Hdec. rewrite E in Hdec.
  destruct d, (wait_state c); try naive_solver; assert (done c = []) as -> by naive_solver; simpl; lia.
Qed.

Lemma wait_timer_returns t c :
  wait_state c = Waiting → (deadline c ≤ t)%Z →
  ∃ c' r, wait_timer t c = Some c' ∧ wait_state c' = Returned r.
Proof.
  intros Hw Ht. unfold wait_timer, waiting. rewrite Hw, bool_decide_eq_true_2 by done.
  simpl. destruct (finished c); eexists _, _; done.
Qed.

Lemma call_run_ok i l now0 cb ctx ds s :
  (0 ≤ l)%Z → call_run (now0, newCall i l now0 cb ctx) ds s → call_ok i l s ds.
Proof.
  intros Hl Hrun. remember (now0, newCall i l now0 cb ctx) as s0 eqn:Hs0.
  induction Hrun as [s|s ds0 s1 d s2 _ IH Hstep]; [|by eapply call_ok_step; eauto].
  subst. split; simpl; [done..|lia|done|]. done.
Qed.

(** C16: A remote call is decided at most once, its caller returns what was
    decided, and it never hangs.  In every interleaving of the caller, the
    reader and the writer of the stream, the end of the stream, cancellation
    and the clock: at most one party decides the call; the decider never
    blocks on the [done] channel; a caller that returns within its lease and
    without a cancellation returns exactly the reported error; one whose
    lease ended or whose context was cancelled returns the reported error,
    the error of the lease or of the context, or, with a report still on its
    way, nil; as long as it waits, its lease ends at most one lease from now
    and the caller returns at its end; and a cancel callback holds it up for
    at most the time-out of its send. *)
Theorem call_decided_once i l now0 cb ctx ds now c :
  (0 ≤ l)%Z →
  call_run (now0, newCall i l now0 cb ctx) ds (now, c) →
  length ds ≤ 1 ∧
  (finisher c ≠ None → is_Some (finish_send c)) ∧
  (∀ r, wait_state c = Returned r → (now < deadline c)%Z → ctxErr c = None → ds = [ByFinish r]) ∧
  (∀ r, wait_state c = Returned r → ∃ d, ds = [d] ∧
     match d with
     | ByFinish err => r = err ∨ (r = None ∧ in_flight err c ∧ ((deadline c ≤ now)%Z ∨ is_Some (ctxErr c)))
     | ByLease => r = Some (ErrLeaseExpired i) ∧ (deadline c ≤ now)%Z
     | ByContext e => r = Some e ∧ ctxErr c = Some e
     end) ∧
  (wait_state c = Waiting →
     (deadline c ≤ now + l)%Z ∧
     ∀ now', (deadline c ≤ now')%Z → ∃ c' r, wait_timer now' c = Some c' ∧ wait_state c' = Returned r) ∧
  (∀ u, wait_state c = Cancelling u → (now ≤ u ≤ now + defaultCancelSendTimeout)%Z).
Proof.
  intros Hl Hrun. pose proof (call_run_ok _ _ _ _ _ _ _ Hl Hrun) as Hok.
  pose proof Hok as [Hi _ Hd Hca Hst]. simpl in *.
  assert (∀ r, wait_state c = Returned r → ∃ d, ds = [d] ∧ outcome now c d r) as Hret.
  { intros r Hr. destruct (finished c); [|destruct Hst as [_ [_ Hw]]; by destruct (Hw r)].
    destruct Hst as (d & -> & Hdec). exists d. split; [done|]. unfold decided in Hdec. by rewrite Hr in Hdec. }
  split; [|split; [|split; [|split; [|split]]]].
  - destruct (finished c); [destruct Hst as (d & -> & _)|destruct Hst as [-> _]]; simpl; lia.
  - by eapply call_ok_finish_nonblocking.
  - intros r Hr Hn Hx. destruct (Hret r Hr) as (d & -> & Ho). unfold outcome, overtaken in Ho. rewrite Hx in Ho.
    destruct d as [err| |e]; [|lia|naive_solver].
    destruct Ho as [[-> _]|(_ & _ & [?|[? ?]])]; [done|lia|done].
  - intros r Hr. destruct (Hret r Hr) as (d & -> & Ho). exists d. split; [done|].
    unfold outcome, overtaken in Ho. rewrite Hi in Ho. destruct d; naive_solver.
  - intros Hw. split; [done|]. intros now' Hn. by apply wait_timer_returns.
  - done.
Qed.

(** ** A concrete call: renewed once, then reported *)
Definition demo_call : call := newCall "m1" 30 0 true None.

Lemma run_snoc s ds s1 d s2 ds' :
  call_run s ds s1 → call_step s1 d s2 → ds' = ds ++ option_list d → call_run s ds' s2.
Proof. intros H1 H2 ->. by eapply run_step. Qed.

Definition demo_error : option call_error := Some (ErrRemote "E1" "boom" "").
Definition demo_1 : call := renew demo_call.
Definition demo_2 : call := set_renew demo_1 false 50.
Definition demo_3 : call := finish demo_error demo_2.
Definition demo_4 : call := set_done demo_3 [demo_error] None.
Definition demo_5 : call := return_with (set_done demo_4 [] None) demo_error.

Lemma demo_run : call_run (0%Z, demo_call) [ByFinish demo_error] (20%Z, demo_4).
Proof.
  eapply (run_snoc _ [ByFinish demo_error] (20%Z, demo_3)); [|by apply step_finish_send|done].
  eapply (run_snoc _ [] (20%Z, demo_2)); [|apply (step_finish 20 demo_2)|done].
  eapply (run_snoc _ [] (20%Z, demo_1)); [|by apply step_wait_renew|done].
  eapply (run_snoc _ [] (20%Z, demo_call)); [|apply (step_renew 20 demo_call)|done].
  eapply (run_snoc _ [] (0%Z, demo_call)); [apply run_refl|by apply step_tick|done].
Qed.

Lemma demo_return : call_run (0%Z, demo_call) [ByFinish demo_error] (20%Z, demo_5).
Proof. eapply (run_snoc _ _ (20%Z, demo_4)); [apply demo_run|by apply step_wait_done|done]. Qed.

Lemma call_decided_once_witness :
  (∃ c' r, wait_timer 50 demo_4 = Some c' ∧ wait_state c' = Returned r) ∧
  wait_state demo_5 = Returned demo_error ∧ [ByFinish demo_error] = [ByFinish demo_error].
Proof.
  destruct (call_decided_once "m1" 30 0 true None _ 20 demo_4 ltac:(lia) demo_run) as (_ & _ & _ & _ & Hw & _).
  destruct (Hw eq_refl) as [_ Hret]. split; [apply (Hret 50%Z); vm_compute; congruence|].
  split; [reflexivity|].
  destruct (call_decided_once "m1" 30 0 true None _ 20 demo_5 ltac:(lia) demo_return) as (_ & _ & Hr & _).
  exact (Hr demo_error eq_refl eq_refl eq_refl).
Defined.

(** An error can be lost: the remote side reports an error at the end of the
    lease, the caller's select sees both the report and the timer and takes
    the timer, whose compare-and-swap fails, and the call returns nil. *)
Theorem reported_error_can_be_lost :
  ∃ now c, call_run (0%Z, demo_call) [ByFinish demo_error] (now, c) ∧
    done c = [demo_error] ∧ wait_state c = Returned None.
Proof.
  exists 50%Z, (return_with demo_4 None). split; [|done].
  eapply (run_snoc _ [ByFinish demo_error] (50%Z, demo_4)); [|by apply step_wait_timer|done].
  eapply (run_snoc _ [ByFinish demo_error] (20%Z, demo_4)); [apply demo_run|by apply step_tick|done].
Qed.
