(* ===== verification/RemotePlugin.v ===== *)
(** * Remote plugin instances: internal/remote/plugin.go

    An instance runs on another server behind one bidirectional stream.  The
    engine's goroutines call it through [doCall], which takes one of two
    slots, queues a message and waits ([RemoteCall]); the stream's reader
    renews and finishes calls, its writer empties the queue, and its end
    finishes whatever is in the slots.  The machine interleaves all of them,
    one step per atomic action. *)

From S2P Require Import Prelude.
From S2P Require Import Chan.
From S2P Require Import Schema.
From S2P Require Import PluginFlow.
From S2P Require Import EngineTypes.
From S2P Require Import RemoteCall.

(** ** Instances and messages *)
Inductive PluginState :=
| PluginStateCreated | PluginStateStarting | PluginStateStreaming | PluginStateFailed
| PluginStateStopping | PluginStateStopped | PluginStateDestroyed.

Definition PluginState_int (s : PluginState) : Z :=
  match s with
  | PluginStateCreated => 0 | PluginStateStarting => 1 | PluginStateStreaming => 2
  | PluginStateFailed => 3 | PluginStateStopping => 4 | PluginStateStopped => 5
  | PluginStateDestroyed => 6
  end.

#[export] Instance PluginState_eq_dec : EqDecision PluginState.
Proof. solve_decision. Defined.
#[export] Instance call_error_eq_dec : EqDecision call_error.
Proof. solve_decision. Defined.

(** The types of the runtime messages of the wire protocol that the code
    distinguishes. *)
Inductive MessageType := TLifecycle | TSignal | TPayload | TCancel | TOther.

Record message := mkMessage { MessageId : string; CorrelationId : string; MType : MessageType }.

Definition defaultCallLease : Z := 30 * 1000000000.
Definition writeBuffer : nat := 128.

(** A goroutine inside [doCall]: it passed the state check, took its slot and
    sends, or waits. *)
Inductive phase := PChecked | PSending | PWaiting.

#[export] Instance phase_eq_dec : EqDecision phase.
Proof. solve_decision. Defined.

Record caller := mkCaller { caller_type : MessageType; caller_phase : phase; caller_call : call }.

Record Plugin := mkRemote {
  multi : bool;
  state : PluginState;
  calls : list (option nat);        (* the two slots; a caller's number stands for its call *)
  callers : gmap nat caller;
  writeCh : chan message;
  clock : Z;
  returns : list (nat * option call_error);
}.

Definition NewPlugin (isMulti : bool) (now : Z) : Plugin :=
  mkRemote isMulti PluginStateCreated [None; None] ∅ (make_chan writeBuffer) now [].

Definition with_state (p : Plugin) (s : PluginState) : Plugin :=
  mkRemote (multi p) s (calls p) (callers p) (writeCh p) (clock p) (returns p).
Definition with_callers (p : Plugin) (cs : gmap nat caller) : Plugin :=
  mkRemote (multi p) (state p) (calls p) cs (writeCh p) (clock p) (returns p).
Definition with_calls (p : Plugin) (sl : list (option nat)) : Plugin :=
  mkRemote (multi p) (state p) sl (callers p) (writeCh p) (clock p) (returns p).
Definition with_writeCh (p : Plugin) (c : chan message) : Plugin :=
  mkRemote (multi p) (state p) (calls p) (callers p) c (clock p) (returns p).
Definition with_clock (p : Plugin) (t : Z) : Plugin :=
  mkRemote (multi p) (state p) (calls p) (callers p) (writeCh p) t (returns p).
Definition log_return (p : Plugin) (n : nat) (e : option call_error) : Plugin :=
  mkRemote (multi p) (state p) (calls p) (callers p) (writeCh p) (clock p) (returns p ++ [(n, e)]).

Definition index (isMulti : bool) (messageType : MessageType) : nat :=
  if negb isMulti then 0
  else match messageType with
       | TLifecycle | TSignal => 0
       | TPayload => 1
       | _ => 0
       end.

(** ** doCall *)
Definition on_call (f : call → call) (c : caller) : caller :=
  mkCaller (caller_type c) (caller_phase c) (f (caller_call c)).

(** The state check; [mid] is the message id, [ctx] the state of the
    context, [cb] says whether a cancel callback was given. *)
Definition doCall_check (n : nat) (ty : MessageType) (mid : string) (cb : bool)
    (ctx : option call_error) (p : Plugin) : Plugin :=
  if decide (state p ≠ PluginStateStreaming)
  then log_return p n (Some (ErrNotStreaming (PluginState_int (state p))))
  else with_callers p
         (<[n := mkCaller ty PChecked (newCall mid defaultCallLease (clock p) cb ctx)]> (callers p)).

(** [p.calls[idx].CompareAndSwap(nil, current)]. *)
Definition doCall_slot (n : nat) (p : Plugin) : option Plugin :=
  c ← callers p !! n;
  if decide (caller_phase c ≠ PChecked) then None
  else
    let idx := index (multi p) (caller_type c) in
    Some (if decide (calls p !! idx = Some None) then
            with_callers (with_calls p (<[idx := Some n]> (calls p)))
              (<[n := mkCaller (caller_type c) PSending (caller_call c)]> (callers p))
          else log_return (with_callers p (delete n (callers p))) n (Some ErrCallInProgress)).

(** [defer p.calls[idx].CompareAndSwap(current, nil)]. *)
Definition release (n : nat) (c : caller) (p : Plugin) : Plugin :=
  let idx := index (multi p) (caller_type c) in
  let p := with_callers p (delete n (callers p)) in
  if decide (calls p !! idx = Some (Some n)) then with_calls p (<[idx := None]> (calls p)) else p.

(** Cancellation is a normal end; any other error fails the instance. *)
Definition note_error (e : call_error) (p : Plugin) : Plugin :=
  if decide (e = ErrCanceled) then p else with_state p PluginStateFailed.

(** [SendWithContext]: the message is queued, or the context ended first. *)
Definition doCall_send (n : nat) (p : Plugin) : option Plugin :=
  c ← callers p !! n;
  if decide (caller_phase c ≠ PSending) then None
  else if full (writeCh p) then None
  else
    let cl := caller_call c in
    Some (with_callers
      (with_writeCh p (enqueue (writeCh p) (mkMessage (id cl) "" (caller_type c))))
      (<[n := mkCaller (caller_type c) PWaiting
                (set_renew cl (renewCh cl) (clock p + lease cl)%Z)]> (callers p))).

(** The [finish] of this branch is seen by nobody: the call leaves its slot
    at once. *)
Definition doCall_send_failed (n : nat) (p : Plugin) : option Plugin :=
  c ← callers p !! n;
  if decide (caller_phase c ≠ PSending) then None
  else
    e ← ctxErr (caller_call c);
    let p := note_error e p in
    Some (log_return (release n c p) n (Some (ErrSend (id (caller_call c)) e))).

(** A branch of the caller's select, or the end of its cancel callback. *)
Inductive branch := BDone | BRenew | BTimer | BCtx | BCallback (keep : bool).

Definition wait_branch (b : branch) (now : Z) (c : call) : option call :=
  match b with
  | BDone => wait_done c
  | BRenew => wait_renew now c
  | BTimer => wait_timer now c
  | BCtx => wait_ctx now c
  | BCallback keep => wait_callback keep c
  end.

Definition doCall_wait (n : nat) (b : branch) (p : Plugin) : option Plugin :=
  c ← callers p !! n;
  if decide (caller_phase c ≠ PWaiting) then None
  else
    cl ← wait_branch b (clock p) (caller_call c);
    Some (with_callers p (<[n := mkCaller (caller_type c) PWaiting cl]> (callers p))).

Definition doCall_return (n : nat) (p : Plugin) : option Plugin :=
  c ← callers p !! n;
  if decide (caller_phase c ≠ PWaiting) then None
  else match wait_state (caller_call c) with
  | Waiting | Cancelling _ => None
  | Returned None => Some (log_return (release n c p) n None)
  | Returned (Some e) => Some (log_return (release n c (note_error e p)) n (Some e))
  end.

(** ** The stream *)

(** The callers in the slots, in the order of the loops. *)
Definition slot_numbers (p : Plugin) : list nat := omap (λ x, x) (calls p).

Definition has_id (p : Plugin) (mid : string) (n : nat) : bool :=
  match callers p !! n with
  | Some c => bool_decide (id (caller_call c) = mid)
  | None => false
  end.

Definition update_call (f : call → call) (p : Plugin) (n : nat) : Plugin :=
  with_callers p (alter (on_call f) n (callers p)).

(** The loops of [handleAck] and [handleReport]: the first match, then return. *)
Definition first_match (f : call → call) (mid : string) (p : Plugin) : Plugin :=
  match list_find (λ n, has_id p mid n = true) (slot_numbers p) with
  | Some (_, n) => update_call f p n
  | None => p
  end.

Definition handleAck (correlation : string) (p : Plugin) : Plugin := first_match renew correlation p.

Inductive ReportStatus := ReportOk | ReportCanceled
  | ReportError (code message details : string) | ReportOther (status : Z).

Definition reportError (report : ReportStatus) : option call_error :=
  match report with
  | ReportOk => None
  | ReportCanceled => None
  | ReportError code message details => Some (ErrRemote code message details)
  | ReportOther status => Some (ErrInvalidStatus status)
  end.

Definition handleReport (correlation : string) (report : ReportStatus) (p : Plugin) : Plugin :=
  first_match (finish (reportError report)) correlation p.

Definition finishCalls (err : option call_error) (p : Plugin) : Plugin :=
  foldl (update_call (finish err)) p (slot_numbers p).

(** One round of [writeLoop]: a failed send finishes the calls it is about. *)
Definition writeLoop (send_error : option Z) (p : Plugin) : option Plugin :=
  '(msg, ch) ← recv_case (writeCh p);
  let p := with_writeCh p ch in
  Some match send_error with
       | None => p
       | Some code =>
           let messageId := match MType msg with TCancel => CorrelationId msg | _ => MessageId msg end in
           foldl (λ p n, if has_id p messageId n then update_call (finish (Some (ErrStreamSend code))) p n else p)
             p (slot_numbers p)
       end.

(** The end of [readLoop]: [closed] says whether the stream's context ended
    or the server closed the stream, as opposed to a failure. *)
Definition readLoop_state (closed : bool) (p : Plugin) : Plugin :=
  if closed && negb (bool_decide (state p = PluginStateFailed))
  then with_state p PluginStateStopped else with_state p PluginStateFailed.

(** [OnStart]: the compare-and-swap, the stream, and the end when the first
    call failed; the call itself is a [doCall]. *)
Definition OnStart_begin (p : Plugin) : Plugin * bool :=
  if decide (state p ≠ PluginStateCreated) then (p, false)
  else (with_state p PluginStateStarting, true).
Definition OnStart_stream (stream_ok : bool) (p : Plugin) : Plugin :=
  with_state p (if stream_ok then PluginStateStreaming else PluginStateFailed).
Definition OnStart_failed (p : Plugin) : Plugin := with_state p PluginStateFailed.

(** The end of [OnStop], after its call. *)
Definition OnStop_finish (p : Plugin) : Plugin :=
  if decide (PluginState_int PluginStateStopping ≤ PluginState_int (state p))%Z then p
  else with_state p PluginStateStopped.

(** The cancel callback: the message is queued within a second, or the call
    is given up. *)
Definition cancel_message (n : nat) (mid : string) (p : Plugin) : option Plugin :=
  c ← callers p !! n;
  if full (writeCh p) then None
  else Some (with_writeCh p (enqueue (writeCh p) (mkMessage mid (id (caller_call c)) TCancel))).

(** ** Emitted events

    What the remote side sends into the workflow: to one port, or to all. *)
Inductive emission := ToPort (port : Z) (o : Named.object) | Broadcast (o : Named.object).

Definition sendWithPort (port : Z) (o : Named.object) : emission :=
  if decide (0 < port ∧ port < MaxPortCount)%Z then ToPort port o else Broadcast o.

Section emit.
Context (Marshal : anyv → result schema_error (list Z)) (grow : nat → nat → nat).
Context (UnmarshalMap : list Z → result schema_error (gmap string anyv)) (ord : iter_order string anyv).

(** [decodeRemoteProperties]: [None] when the JSON is refused. *)
Definition decodeRemoteProperties (data : list Z) (o : Named.object) : option Named.object :=
  if decide (length data = 0) then Some o
  else match UnmarshalJSON Marshal UnmarshalMap grow ord (Named.props o) data with
       | Ok p => Some (Named.mkObject (Named.obj_kind o) p (Named.name o))
       | Err _ => None
       end.

(** [handleEmitSignal] and [handleEmitPayload] differ in the kind only; an
    emission without an event, or with properties that do not decode, is
    dropped. *)
Definition handleEmit (k : Named.kind) (port : Z) (event : option (string * list Z)) : option emission :=
  '(name, data) ← event;
  o ← decodeRemoteProperties data (Named.mkObject k empty_props name);
  Some (sendWithPort port (freeze o)).

(** An emission is read-only, carries the name and the properties it was
    sent with, and goes to its port only if the engine has that port. *)
Lemma handleEmit_spec k port name data m :
  UnmarshalMap data = Ok m → (∀ v, is_ok (snapshot Marshal v) = true) → data ≠ [] →
  ∃ o, handleEmit k port (Some (name, data)) = Some (sendWithPort port o) ∧
    Named.name o = name ∧ Named.obj_kind o = k ∧ readonly (Named.props o) = true ∧
    ∀ key, match m !! key with
           | Some v => ∃ dst, snapshot Marshal v = Ok dst ∧ Get (Named.props o) key = Some dst
           | None => Get (Named.props o) key = None
           end.
Proof.
  intros Hm Hsnap Hd. unfold handleEmit, decodeRemoteProperties. simpl.
  rewrite decide_False by by destruct data.
  assert (∀ xs b, readonly b = false → ∃ b',
    range_fold (λ b '(k, v), rmap_err (EUnmarshalProperty k) (Set_ Marshal grow b k v)) b xs = Ok b') as Htot.
  { induction xs as [|[x v] xs IH]; intros b Hr; simpl; [by eexists|].
    unfold Set_ at 1. rewrite Hr. specialize (Hsnap v). destruct (snapshot Marshal v); [|done]. simpl.
    by apply IH. }
  assert (∃ p, UnmarshalJSON Marshal UnmarshalMap grow ord empty_props data = Ok p) as [p Hp].
  { unfold UnmarshalJSON. rewrite Hm. simpl. by apply Htot. }
  rewrite Hp. simpl. eexists. split; [done|]. do 3 (split; [done|]). simpl. intros key.
  unfold UnmarshalJSON in Hp. rewrite Hm in Hp. simpl in Hp.
  assert (props_wf empty_props) as Hwf by exact (@GoSlice.nil_slice_wf entry).
  destruct (range_Set_view Marshal grow _ _ _ Hwf (NoDup_fst_range_map ord m) Hp) as [_ Hv].
  specialize (Hv key).
  rewrite (list_to_map_proper _ (map_to_list m)), list_to_map_to_list in Hv;
    [|apply NoDup_fst_range_map|apply range_map_perm].
  rewrite Get_view. change (view (setReadOnly p)) with (view p).
  destruct (m !! key); [done|]. rewrite Hv. apply lookup_empty.
Qed.
End emit.

(** ** The machine *)
Definition fresh_id (p : Plugin) (mid : string) : Prop :=
  ∀ n c, callers p !! n = Some c → id (caller_call c) ≠ mid.

Inductive remote_step : Plugin → Plugin → Prop :=
| rs_start p : remote_step p (OnStart_begin p).1
| rs_start_stream p ok : remote_step p (OnStart_stream ok p)
| rs_start_failed p : remote_step p (OnStart_failed p)
| rs_check p n ty mid cb ctx : callers p !! n = None → fresh_id p mid →
    remote_step p (doCall_check n ty mid cb ctx p)
| rs_slot p n p' : doCall_slot n p = Some p' → remote_step p p'
| rs_send p n p' : doCall_send n p = Some p' → remote_step p p'
| rs_send_failed p n p' : doCall_send_failed n p = Some p' → remote_step p p'
| rs_wait p n b p' : doCall_wait n b p = Some p' → remote_step p p'
| rs_return p n p' : doCall_return n p = Some p' → remote_step p p'
| rs_cancel p n e : (c ← callers p !! n; ctxErr (caller_call c)) = None →
    remote_step p (update_call (λ c, set_ctx c (Some e) (ctxDone c)) p n)
| rs_cancel_message p n mid p' : cancel_message n mid p = Some p' → remote_step p p'
| rs_finish_send p n c cl : callers p !! n = Some c → finish_send (caller_call c) = Some cl →
    remote_step p (update_call (λ _, cl) p n)
| rs_ack p mid : remote_step p (handleAck mid p)
| rs_report p mid r : remote_step p (handleReport mid r p)
| rs_write p e p' : writeLoop e p = Some p' → remote_step p p'
| rs_read_state p closed : remote_step p (readLoop_state closed p)
| rs_finish_calls p err : remote_step p (finishCalls err p)
| rs_stop p : remote_step p (OnStop_finish p)
| rs_tick p t : (clock p ≤ t)%Z →
    (∀ n c u, callers p !! n = Some c → wait_state (caller_call c) = Cancelling u → t ≤ u)%Z →
    remote_step p (with_clock p t).

(** ** The invariant

    The callers in their slots are exactly those past the compare-and-swap,
    each in the slot of its type; ids are unique; every call is in a state
    of the call machine. *)
Definition occupies (p : Plugin) (i n : nat) : Prop :=
  ∃ c, callers p !! n = Some c ∧ caller_phase c ≠ PChecked ∧ index (multi p) (caller_type c) = i.

Record remote_ok (p : Plugin) : Prop := {
  ro_slots : length (calls p) = 2;
  ro_exact : ∀ i n, calls p !! i = Some (Some n) ↔ occupies p i n;
  ro_ids : ∀ n n' c c', callers p !! n = Some c → callers p !! n' = Some c' →
             id (caller_call c) = id (caller_call c') → n = n';
  ro_calls : ∀ n c, callers p !! n = Some c →
             ∃ ds, call_ok (id (caller_call c)) defaultCallLease (clock p, caller_call c) ds;
  ro_wait : ∀ n c, callers p !! n = Some c → caller_phase c ≠ PWaiting →
             wait_state (caller_call c) = Waiting;
}.

Lemma remote_ok_same p p' :
  multi p' = multi p → calls p' = calls p → callers p' = callers p → clock p' = clock p →
  remote_ok p → remote_ok p'.
Proof.
  intros E1 E2 E3 E4 [H1 H2 H3 H4 H5]. split; unfold occupies; rewrite ?E1, ?E2, ?E3, ?E4; auto.
Qed.

(** A caller changes, its slot does not. *)
Lemma remote_ok_insert p p' n c c' :
  callers p !! n = Some c →
  multi p' = multi p → calls p' = calls p → callers p' = <[n := c']> (callers p) → clock p' = clock p →
  caller_type c' = caller_type c → (caller_phase c' = PChecked ↔ caller_phase c = PChecked) →
  (∀ ds, call_ok (id (caller_call c)) defaultCallLease (clock p, caller_call c) ds →
     ∃ ds', call_ok (id (caller_call c)) defaultCallLease (clock p, caller_call c') ds') →
  (caller_phase c' = PWaiting ∨
   caller_phase c' = caller_phase c ∧ wait_state (caller_call c') = wait_state (caller_call c)) →
  remote_ok p → remote_ok p'.
Proof.
  intros Hn E1 E2 E3 E4 Hty Hph Hcall Hwait [H1 H2 H3 H4 H5].
  assert (∃ ds, call_ok (id (caller_call c)) defaultCallLease (clock p, caller_call c') ds) as [ds' Hds'].
  { destruct (H4 n c Hn) as [ds Hds]. eauto. }
  assert (id (caller_call c') = id (caller_call c)) as Hid by apply Hds'.
  split.
  - by rewrite E2.
  - intros i m. rewrite E2, H2. unfold occupies. rewrite E1, E3.
    destruct (decide (m = n)) as [->|Hne].
    + rewrite lookup_insert_eq, Hn. naive_solver congruence.
    + by rewrite lookup_insert_ne.
  - intros m m' x x'. rewrite E3.
    destruct (decide (m = n)) as [->|Hm], (decide (m' = n)) as [->|Hm'];
      rewrite ?lookup_insert_eq, ?lookup_insert_ne by done; intros; simplify_eq; [done|..].
    + eapply (H3 n m'); eauto. congruence.
    + eapply (H3 m n); eauto. congruence.
    + eauto.
  - intros m x. rewrite E3, E4. destruct (decide (m = n)) as [->|Hm].
    + rewrite lookup_insert_eq. intros [= <-]. rewrite Hid. eauto.
    + rewrite lookup_insert_ne by done. apply H4.
  - intros m x. rewrite E3. destruct (decide (m = n)) as [->|Hm].
    + rewrite lookup_insert_eq. intros [= <-] Hx. destruct Hwait as [?|[Ep Ew]]; [done|].
      rewrite Ew. apply (H5 n); [done|congruence].
    + rewrite lookup_insert_ne by done. apply H5.
Qed.

Definition keeps_call (f : call → call) (t : Z) (c : call) : Prop :=
  wait_state (f c) = wait_state c ∧
  ∀ ds, call_ok (id c) defaultCallLease (t, c) ds → ∃ ds', call_ok (id c) defaultCallLease (t, f c) ds'.

Lemma remote_ok_update f p n :
  (∀ c, callers p !! n = Some c → keeps_call f (clock p) (caller_call c)) →
  remote_ok p → remote_ok (update_call f p n).
Proof.
  intros Hf Hok. destruct (callers p !! n) as [c|] eqn:Hn.
  - eapply (remote_ok_insert p _ n c (on_call f c)); try done.
    + simpl. apply map_eq. intros m. destruct (decide (m = n)) as [->|].
      * by rewrite lookup_alter_eq, lookup_insert_eq, Hn.
      * by rewrite lookup_alter_ne, lookup_insert_ne.
    + by apply (Hf c).
    + right. split; [done|]. by apply (Hf c).
  - apply (remote_ok_same p); try done. simpl. apply map_eq. intros m.
    destruct (decide (m = n)) as [->|]; [by rewrite lookup_alter_eq, Hn|by rewrite lookup_alter_ne].
Qed.

Lemma keeps_call_step f t c d :
  wait_state (f c) = wait_state c → call_step (t, c) d (t, f c) → keeps_call f t c.
Proof.
  intros Hw Hstep. split; [done|]. intros ds Hds. eexists. eapply call_ok_step; [|done|exact Hstep]. unfold defaultCallLease. lia.
Qed.

Lemma keeps_finish err t c : keeps_call (finish err) t c.
Proof. eapply keeps_call_step, step_finish. unfold finish. by destruct (finished c). Qed.
Lemma keeps_renew t c : keeps_call renew t c.
Proof. eapply keeps_call_step, step_renew. unfold renew. by destruct (finished c). Qed.

Lemma remote_ok_foldl (f : Plugin → nat → Plugin) p ns :
  (∀ p n, remote_ok p → remote_ok (f p n)) → remote_ok p → remote_ok (foldl f p ns).
Proof. intros Hf. revert p. induction ns as [|n ns IH]; intros p Hok; simpl; auto. Qed.

(** A caller leaves: its slot is freed, the others stay. *)
Lemma remote_ok_release n c p :
  callers p !! n = Some c → caller_phase c ≠ PChecked → remote_ok p → remote_ok (release n c p).
Proof.
  intros Hn Hph [H1 H2 H3 H4 H5]. set (i := index (multi p) (caller_type c)).
  assert (calls p !! i = Some (Some n)) as Hi by (apply H2; by exists c).
  assert (i < length (calls p)) as Hlt by by eapply lookup_lt_Some.
  unfold release. fold i. cbn [calls with_callers]. rewrite decide_True by done.
  split; simpl.
  - by rewrite length_insert.
  - intros j m. unfold occupies. simpl. destruct (decide (j = i)) as [->|Hj].
    + rewrite list_lookup_insert_eq by done. split; [done|]. intros (x & Hx & Hphx & Hix).
      apply lookup_delete_Some in Hx as [Hne Hx]. exfalso. apply Hne.
      assert (calls p !! i = Some (Some m)) as Hm by (apply H2; by exists x). congruence.
    + rewrite list_lookup_insert_ne by done. rewrite H2. unfold occupies.
      split; intros (x & Hx & Hphx & Hix); exists x.
      * rewrite lookup_delete_ne; [done|]. intros <-. rewrite Hn in Hx. injection Hx as <-. by apply Hj.
      * apply lookup_delete_Some in Hx as [_ Hx]. done.
  - intros m m' x x' [_ Hx]%lookup_delete_Some [_ Hx']%lookup_delete_Some. eauto.
  - intros m x [_ Hx]%lookup_delete_Some. eauto.
  - intros m x [_ Hx]%lookup_delete_Some. eauto.
Qed.

Lemma remote_ok_check n ty mid cb ctx p :
  callers p !! n = None → fresh_id p mid → remote_ok p → remote_ok (doCall_check n ty mid cb ctx p).
Proof.
  intros Hn Hfresh Hok. unfold doCall_check. case_decide; [by apply (remote_ok_same p)|].
  destruct Hok as [H1 H2 H3 H4 H5]. split; simpl; [done|..].
  - intros i m. rewrite H2. unfold occupies. simpl. destruct (decide (m = n)) as [->|].
    + rewrite lookup_insert_eq, Hn. naive_solver.
    + by rewrite lookup_insert_ne.
  - intros m m' x x'. destruct (decide (m = n)) as [->|], (decide (m' = n)) as [->|];
      rewrite ?lookup_insert_eq, ?lookup_insert_ne by done; intros; simplify_eq; [done|..].
    + exfalso. by eapply Hfresh.
    + exfalso. by eapply Hfresh.
    + eauto.
  - intros m x. destruct (decide (m = n)) as [->|].
    + rewrite lookup_insert_eq. intros [= <-]. exists []. simpl. split; simpl; [done..|lia|done|done].
    + rewrite lookup_insert_ne by done. apply H4.
  - intros m x. destruct (decide (m = n)) as [->|].
    + rewrite lookup_insert_eq. by intros [= <-].
    + rewrite lookup_insert_ne by done. apply H5.
Qed.

Lemma remote_ok_slot n p p' : doCall_slot n p = Some p' → remote_ok p → remote_ok p'.
Proof.
  unfold doCall_slot. intros (c & Hn & Hs)%bind_Some Hok. case_decide as Hph; [done|].
  injection Hs as <-. pose proof Hok as [H1 H2 H3 H4 H5].
  case_decide as Hfree.
  - set (i := index (multi p) (caller_type c)) in *.
    assert (i < length (calls p)) as Hlt by by eapply lookup_lt_Some.
    set (q := with_callers p (<[n := mkCaller (caller_type c) PSending (caller_call c)]> (callers p))).
    split; simpl; [by rewrite length_insert|..].
    + intros j m. unfold occupies. simpl. destruct (decide (j = i)) as [->|Hj].
      * rewrite list_lookup_insert_eq by done. split.
        -- intros [= <-]. eexists. rewrite lookup_insert_eq. split; [done|]. done.
        -- intros (x & Hx & Hphx & Hix). destruct (decide (m = n)) as [->|Hne]; [done|].
           rewrite lookup_insert_ne in Hx by done.
           assert (calls p !! i = Some (Some m)) as Hm by (apply H2; by exists x). congruence.
      * rewrite list_lookup_insert_ne by done. rewrite H2. unfold occupies.
        destruct (decide (m = n)) as [->|Hne]; [|by rewrite lookup_insert_ne].
        rewrite lookup_insert_eq, Hn. split; intros (x & [= <-] & Hphx & Hix); [done|].
        simpl in Hix. by destruct Hj.
    + intros m m' x x'. destruct (decide (m = n)) as [->|], (decide (m' = n)) as [->|];
        rewrite ?lookup_insert_eq, ?lookup_insert_ne by done; intros; simplify_eq; simpl in *; eauto.
    + intros m x. destruct (decide (m = n)) as [->|]; [|rewrite lookup_insert_ne by done; apply H4].
      rewrite lookup_insert_eq. intros [= <-]. simpl. eauto.
    + intros m x. destruct (decide (m = n)) as [->|]; [|rewrite lookup_insert_ne by done; apply H5].
      rewrite lookup_insert_eq. intros [= <-]. simpl. intros _. apply (H5 n); [done|congruence].
  - split; simpl; [done|..].
    + intros i m. rewrite H2. unfold occupies. simpl. destruct (decide (m = n)) as [->|].
      * rewrite lookup_delete_eq, Hn. naive_solver.
      * by rewrite lookup_delete_ne.
    + intros m m' x x' [_ Hx]%lookup_delete_Some [_ Hx']%lookup_delete_Some. eauto.
    + intros m x [_ Hx]%lookup_delete_Some. eauto.
    + intros m x [_ Hx]%lookup_delete_Some. eauto.
Qed.

Lemma remote_ok_send n p p' : doCall_send n p = Some p' → remote_ok p → remote_ok p'.
Proof.
  unfold doCall_send. intros (c & Hn & Hs)%bind_Some. case_decide as Hph; [done|].
  destruct (full (writeCh p)); [done|]. injection Hs as <-.
  intros Hok. pose proof (ro_wait p Hok n c Hn ltac:(congruence)) as Hw.
  eapply (remote_ok_insert p _ n c); [done..|simpl; by rewrite Hph|simpl|by left|done].
  intros ds Hds. exists ds. pose proof Hds as [_ Hl _ _ _]. simpl in Hl.
  eapply (call_ok_keep _ _ (clock p) (clock p) (caller_call c)); try done; [simpl; lia|by simpl; rewrite Hw|].
  intros d. unfold decided. simpl. by rewrite Hw.
Qed.

Lemma remote_ok_note e p : remote_ok p → remote_ok (note_error e p).
Proof. unfold note_error. case_decide; [done|]. by apply (remote_ok_same p). Qed.

Lemma note_error_callers e p : callers (note_error e p) = callers p.
Proof. unfold note_error. by case_decide. Qed.

Lemma remote_ok_wait n b p p' : doCall_wait n b p = Some p' → remote_ok p → remote_ok p'.
Proof.
  unfold doCall_wait. intros (c & Hn & Hs)%bind_Some. case_decide as Hph; [done|].
  apply bind_Some in Hs as (cl & Hb & [= <-]).
  intros Hok. eapply (remote_ok_insert p _ n c); [done..|simpl; by rewrite Hph|simpl|by left|done].
  assert (∃ d, call_step (clock p, caller_call c) d (clock p, cl)) as [d Hstep].
  { destruct b as [| | | |keep]; cbn [wait_branch] in Hb.
    - eexists. by apply step_wait_done.
    - eexists. by apply step_wait_renew.
    - eexists. by apply step_wait_timer.
    - assert (∃ e, ctxErr (caller_call c) = Some e) as [e He].
      { unfold wait_ctx in Hb. destruct (ctxErr (caller_call c)); eauto. done. }
      eexists. by eapply step_wait_ctx.
    - assert (∃ e, ctxErr (caller_call c) = Some e) as [e He].
      { unfold wait_callback in Hb. destruct (wait_state _), (ctxErr (caller_call c)); eauto; done. }
      eexists. by eapply step_wait_callback. }
  intros ds Hds. eexists. eapply call_ok_step; [|done|exact Hstep]. unfold defaultCallLease. lia.
Qed.


Lemma remote_ok_step p p' : remote_ok p → remote_step p p' → remote_ok p'.
Proof.
  intros Hok Hstep. destruct Hstep as [p|p ok|p|p n ty mid cb ctx Hn Hid|p n p' H|p n p' H|p n p' H|p n b p' H
    |p n p' H|p n e He|p n mid p' H|p n c cl Hn Hcl|p mid|p mid r|p e p' H|p closed|p err|p|p t Ht Hlim].
  - unfold OnStart_begin. case_decide; [done|]. by apply (remote_ok_same p).
  - by apply (remote_ok_same p).
  - by apply (remote_ok_same p).
  - by apply remote_ok_check.
  - by eapply remote_ok_slot.
  - by eapply remote_ok_send.
  - unfold doCall_send_failed in H. apply bind_Some in H as (c & Hn & H). case_decide as Hph; [done|].
    apply bind_Some in H as (e & He & [= <-]).
    eapply (remote_ok_same (release n c (note_error e p))); try done.
    apply remote_ok_release; [by rewrite note_error_callers|congruence|by apply remote_ok_note].
  - by eapply remote_ok_wait.
  - unfold doCall_return in H. apply bind_Some in H as (c & Hn & H). case_decide as Hph; [done|].
    destruct (wait_state (caller_call c)) as [| |[e|]]; [done|done|..]; injection H as <-.
    + apply (remote_ok_same (release n c (note_error e p))); try done.
      apply remote_ok_release; [by rewrite note_error_callers|congruence|by apply remote_ok_note].
    + apply (remote_ok_same (release n c p)); try done.
      apply remote_ok_release; [done|congruence|done].
  - apply remote_ok_update; [|done]. intros c Hc. rewrite Hc in He. simpl in He.
    by eapply keeps_call_step, step_cancel.
  - unfold cancel_message in H. apply bind_Some in H as (c & Hn & H).
    destruct (full (writeCh p)); [done|]. injection H as <-. by apply (remote_ok_same p).
  - apply remote_ok_update; [|done]. intros c' Hc'. rewrite Hn in Hc'. injection Hc' as <-.
    eapply keeps_call_step, step_finish_send; [|done]. unfold finish_send in Hcl.
    destruct (finisher (caller_call c)); [|done]. case_decide; [|done]. by injection Hcl as <-.
  - unfold handleAck, first_match. destruct (list_find _ _) as [[_ n]|]; [|done].
    apply remote_ok_update; [|done]. intros c _. apply keeps_renew.
  - unfold handleReport, first_match. destruct (list_find _ _) as [[_ n]|]; [|done].
    apply remote_ok_update; [|done]. intros c _. apply keeps_finish.
  - unfold writeLoop in H. apply bind_Some in H as ([msg ch] & Hr & [= <-]).
    assert (remote_ok (with_writeCh p ch)) as Hok' by by apply (remote_ok_same p).
    destruct e as [code|]; [|done]. apply remote_ok_foldl; [|done].
    intros q n Hq. destruct (has_id q _ n); [|done].
    apply remote_ok_update; [|done]. intros c _. apply keeps_finish.
  - unfold readLoop_state. destruct (_ && _); by apply (remote_ok_same p).
  - apply remote_ok_foldl; [|done]. intros q n Hq. apply remote_ok_update; [|done].
    intros c _. apply keeps_finish.
  - unfold OnStop_finish. case_decide; [done|]. by apply (remote_ok_same p).
  - destruct Hok as [H1 H2 H3 H4 H5]. split; try done. intros n c Hn.
    destruct (H4 n c Hn) as [ds Hds]. exists ds.
    assert (0 ≤ defaultCallLease)%Z as Hl by (unfold defaultCallLease; lia).
    pose proof (call_ok_step _ _ _ _ _ _ Hl Hds
      (step_tick (clock p) t (caller_call c) Ht (λ u, Hlim n c u Hn))) as H. simpl in H. by rewrite app_nil_r in H.
Qed.

Lemma NewPlugin_ok isMulti now : remote_ok (NewPlugin isMulti now).
Proof.
  split; simpl; [done|..].
  - intros i n. unfold occupies. simpl. split; [|by intros (c & Hc & _)].
    destruct i as [|[|[|i]]]; simpl; intros; by simplify_eq.
  - by intros n n' c c' Hc.
  - by intros n c Hc.
  - by intros n c Hc.
Qed.

Lemma remote_reachable_ok isMulti now p :
  rtc remote_step (NewPlugin isMulti now) p → remote_ok p.
Proof.
  intros H. eapply (rtc_invariant remote_step remote_ok); [|exact H|apply NewPlugin_ok].
  intros. by eapply remote_ok_step.
Qed.

(** The loops over the slots find a call by its id, and no other. *)
Lemma first_match_hit f p n c :
  remote_ok p → callers p !! n = Some c → caller_phase c ≠ PChecked →
  first_match f (id (caller_call c)) p = update_call f p n.
Proof.
  intros Hok Hn Hph. unfold first_match.
  assert (n ∈ slot_numbers p) as Hin.
  { unfold slot_numbers. apply list_elem_of_omap. exists (Some n). split; [|done].
    apply (list_elem_of_lookup_2 _ (index (multi p) (caller_type c))), (ro_exact p Hok). by exists c. }
  assert (has_id p (id (caller_call c)) n = true) as Hid.
  { unfold has_id. rewrite Hn. by apply bool_decide_eq_true_2. }
  destruct (list_find _ _) as [[k m]|] eqn:Hf.
  - apply list_find_Some in Hf as (_ & Hm & _). unfold has_id in Hm.
    destruct (callers p !! m) as [c'|] eqn:Hm'; [|done]. apply bool_decide_eq_true_1 in Hm.
    by rewrite (ro_ids p Hok m n c' c Hm' Hn Hm).
  - apply list_find_None in Hf. rewrite Forall_forall in Hf. by destruct (Hf n Hin).
Qed.

Lemma first_match_miss f p mid : fresh_id p mid → first_match f mid p = p.
Proof.
  intros Hfresh. unfold first_match. destruct (list_find _ _) as [[k m]|] eqn:Hf; [|done].
  apply list_find_Some in Hf as (_ & Hm & _). unfold has_id in Hm.
  destruct (callers p !! m) as [c'|] eqn:Hm'; [|done]. apply bool_decide_eq_true_1 in Hm.
  by destruct (Hfresh m c' Hm').
Qed.

(** C4: Calls of an instance do not disturb each other.  In every
    interleaving of callers, the stream's reader and writer, its end,
    cancellations and the clock: two calls in flight never share a slot; a
    report or an acknowledgement reaches the call it names and no other, and
    one that names no current call changes nothing; whoever finishes a call
    never blocks; a waiting caller returns at the end of its lease at the
    latest, which is at most 30 s away; and a caller in its cancel callback
    waits again or returns within a second. *)
Theorem remote_calls_exclusive isMulti now p :
  rtc remote_step (NewPlugin isMulti now) p →
  (∀ n n' c c', callers p !! n = Some c → callers p !! n' = Some c' →
     caller_phase c ≠ PChecked → caller_phase c' ≠ PChecked →
     index (multi p) (caller_type c) = index (multi p) (caller_type c') → n = n') ∧
  (∀ n c r, callers p !! n = Some c → caller_phase c ≠ PChecked →
     handleReport (id (caller_call c)) r p = update_call (finish (reportError r)) p n ∧
     handleAck (id (caller_call c)) p = update_call renew p n) ∧
  (∀ mid r, fresh_id p mid → handleReport mid r p = p ∧ handleAck mid p = p) ∧
  (∀ n c, callers p !! n = Some c →
     (finisher (caller_call c) ≠ None → is_Some (finish_send (caller_call c))) ∧
     (wait_state (caller_call c) = Waiting → (deadline (caller_call c) ≤ clock p + defaultCallLease)%Z ∧
        ∀ t, (deadline (caller_call c) ≤ t)%Z →
          ∃ cl r, wait_timer t (caller_call c) = Some cl ∧ wait_state cl = Returned r) ∧
     (∀ u, wait_state (caller_call c) = Cancelling u →
        (clock p ≤ u ≤ clock p + defaultCancelSendTimeout)%Z)).
Proof.
  intros Hreach. pose proof (remote_reachable_ok _ _ _ Hreach) as Hok. split; [|split; [|split]].
  - intros n n' c c' Hn Hn' Hph Hph' Hi. pose proof (ro_exact p Hok) as Hex.
    assert (calls p !! index (multi p) (caller_type c) = Some (Some n)) as E1 by (apply Hex; by exists c).
    assert (calls p !! index (multi p) (caller_type c) = Some (Some n')) as E2 by (apply Hex; by exists c').
    congruence.
  - intros n c r Hn Hph. split; by apply first_match_hit.
  - intros mid r Hf. split; by apply first_match_miss.
  - intros n c Hn. destruct (ro_calls p Hok n c Hn) as [ds Hds]. split; [|split].
    + by eapply call_ok_finish_nonblocking.
    + intros Hw. split; [by destruct Hds|]. intros t Ht. by apply wait_timer_returns.
    + by destruct Hds.
Qed.

(** ** A concrete history *)
Definition force_step (f : Plugin → option Plugin) (p : Plugin) : Plugin := default p (f p).

Definition history : list (Plugin → Plugin) :=
  [λ p, (OnStart_begin p).1; OnStart_stream true; doCall_check 7 TSignal "m1" true None;
   force_step (doCall_slot 7); force_step (doCall_send 7)].
Definition demo_remote : Plugin := foldl (λ p f, f p) (NewPlugin true 0) history.

Lemma demo_remote_reachable : rtc remote_step (NewPlugin true 0) demo_remote.
Proof.
  eapply rtc_l; [apply rs_start|].
  eapply rtc_l; [apply (rs_start_stream _ true)|].
  eapply rtc_l; [by apply (rs_check _ 7 TSignal "m1" true None)|].
  eapply rtc_l; [apply (rs_slot _ 7); vm_compute; reflexivity|].
  eapply rtc_l; [apply (rs_send _ 7); vm_compute; reflexivity|]. vm_compute. apply rtc_refl.
Qed.

Lemma remote_calls_exclusive_witness :
  handleReport "m1" ReportOk demo_remote = update_call (finish None) demo_remote 7.
Proof.
  destruct (remote_calls_exclusive true 0 demo_remote demo_remote_reachable) as (_ & Hrep & _).
  destruct (callers demo_remote !! 7) as [c|] eqn:E; [|exfalso; vm_compute in E; discriminate].
  destruct (Hrep 7 c ReportOk E) as [H _]; [vm_compute in E; injection E as <-; discriminate|].
  vm_compute in E. injection E as <-. exact H.
Defined.

(** A caller that passed the state check before the stream ended takes its
    slot after the remaining calls were finished; nobody is left to finish
    it, and it waits for the whole lease in a stopped instance. *)
Theorem late_call_waits_for_lease :
  ∃ p c, rtc remote_step (with_state (NewPlugin false 0) PluginStateStreaming) p ∧
    state p = PluginStateStopped ∧ callers p !! 7 = Some c ∧ caller_phase c = PWaiting ∧
    finished (caller_call c) = false ∧ (deadline (caller_call c) = clock p + defaultCallLease)%Z.
Proof.
  eexists _, _. split.
  - eapply rtc_l; [by apply (rs_check _ 7 TSignal "m1" true None)|].
    eapply rtc_l; [apply (rs_read_state _ true)|].
    eapply rtc_l; [apply (rs_finish_calls _ (Some ErrStreamClosed))|].
    eapply rtc_l; [apply (rs_slot _ 7); vm_compute; reflexivity|].
    eapply rtc_l; [apply (rs_send _ 7); vm_compute; reflexivity|]. apply rtc_refl.
  - vm_compute. repeat split.
Qed.
