(* ===== verification/RemoteManager.v ===== *)
(** * Remote plugin servers: internal/remote/client.go, manager.go, builder.go

    A client pings its server; the answers drive a small state machine whose
    events make the manager remove the server's plugins from the store or
    load them again.  Builders convert the metadata of the wire protocol and
    create instances on the server.  The answers of the remote procedures are
    arguments. *)

From S2P Require Import Prelude.
From S2P Require Import GoStrings.
From S2P Require Import Property.
From S2P Require Import EngineTypes.
From S2P Require Import Graph.
From S2P Require Import Registry.
From S2P Require Import Multi.
From S2P Require Import RemotePlugin.

(** ** client.go *)
Inductive ServerState := StateOnline | StateAbnormal | StateOffline.
Inductive PingEvent := PingEventNone | PingEventOffline | PingEventNeedReload.
#[export] Instance ServerState_eq_dec : EqDecision ServerState.
Proof. solve_decision. Defined.
#[export] Instance PingEvent_eq_dec : EqDecision PingEvent.
Proof. solve_decision. Defined.

Definition maxFailCount : Z := 3.

Record PluginServerConfig := mkServerConfig { URL : string; CNamespace : string; Enable : bool }.

(** The registered instances, by id, with their current state. *)
Record Client := mkClient {
  cfg : PluginServerConfig;
  server_state : ServerState;
  failCount : Z;
  serverId : string;
  instances : gmap string PluginState;
}.

Inductive remote_error :=
| ErrPing (url : string)
| ErrInvalidConfig
| ErrListPlugins (url : string)
| ErrCreateInstance (plugin instance url : string)
| ErrInstanceMismatch (expected got : string)
| ErrInstanceNil | ErrInstanceIdEmpty
| ErrInstanceRegistered (id : string)
| ErrClientNil (name : string)
| ErrNameEmpty
| ErrDecodeSchema (name : string).

Definition Namespace_of (c : PluginServerConfig) : string :=
  if decide (CNamespace c ≠ "") then CNamespace c else URL c.
Definition Namespace (c : Client) : string := Namespace_of (cfg c).

(** The answer to a ping is the server's id; [None] is an error. *)
Definition Dial (c : PluginServerConfig) (ping : option string) : result remote_error Client :=
  match ping with
  | None => Err (ErrPing (URL c))
  | Some sid => Ok (mkClient c StateOnline 0 sid ∅)
  end.

Definition DoPing (ping : option string) (c : Client) : Client * PingEvent :=
  match ping with
  | None =>
      let n := (failCount c + 1)%Z in
      if decide (maxFailCount ≤ n)%Z then
        if decide (server_state c ≠ StateOffline)
        then (mkClient (cfg c) StateOffline n (serverId c) (instances c), PingEventOffline)
        else (mkClient (cfg c) (server_state c) n (serverId c) (instances c), PingEventNone)
      else (mkClient (cfg c) StateAbnormal n (serverId c) (instances c), PingEventNone)
  | Some newServerId =>
      if decide (server_state c = StateOffline)
      then (mkClient (cfg c) StateOnline 0 newServerId (instances c), PingEventNeedReload)
      else if decide (serverId c ≠ newServerId)
      then (mkClient (cfg c) StateOnline 0 newServerId (instances c), PingEventNeedReload)
      else (mkClient (cfg c) StateOnline 0 (serverId c) (instances c), PingEventNone)
  end.

Definition with_instances (c : Client) (m : gmap string PluginState) : Client :=
  mkClient (cfg c) (server_state c) (failCount c) (serverId c) m.

(** [CreateInstance]: [resp] is the id the server answers, [None] an error. *)
Definition CreateInstance (c : Client) (resp : option string) (instanceID pluginName : string)
    : result remote_error unit :=
  match resp with
  | None => Err (ErrCreateInstance pluginName instanceID (URL (cfg c)))
  | Some got => if bool_decide (got ≠ "") && bool_decide (got ≠ instanceID)
                then Err (ErrInstanceMismatch instanceID got) else Ok tt
  end.

Definition RegisterInstance (c : Client) (instanceID : string) (st : PluginState)
    : result remote_error Client :=
  if decide (instanceID = "") then Err ErrInstanceIdEmpty
  else match instances c !! instanceID with
       | Some _ => Err (ErrInstanceRegistered instanceID)
       | None => Ok (with_instances c (<[instanceID := st]> (instances c)))
       end.

Definition RemoveInstance (c : Client) (instanceID : string) : Client :=
  with_instances c (delete instanceID (instances c)).

Definition is_zombie (st : PluginState) : bool :=
  bool_decide (st = PluginStateFailed ∨ st = PluginStateStopped).

(** The zombies are collected first; each is then destroyed on the server,
    whose answer is ignored, and removed.  The result is the new client and
    the ids sent to the server. *)
Definition CleanupZombieInstances (o : iter_order string PluginState) (c : Client)
    : Client * list string :=
  let zombies := (filter (λ kv, is_zombie kv.2 = true) (range_map o (instances c))).*1 in
  (foldl RemoveInstance c zombies, zombies).

(** ** builder.go *)
Inductive pbEventType := PbSignal | PbPayload | PbAudio | PbVideo | PbEventOther (z : Z).
Inductive pbValueType :=
| PbString | PbNumber | PbInteger | PbBoolean | PbObject | PbArray | PbValueOther (z : Z).
Inductive pbDropStrategy := PbBlockIfFull | PbDropNewest | PbDropOldest | PbDropOther (z : Z).

Record pbField := mkPbField { pbKey : string; pbFType : pbValueType; pbRequired : bool }.
(** Elements of repeated message fields are pointers, [None] is nil. *)
Record pbProperty := mkPbProperty {
  pbPType : pbEventType; pbPName : string; pbFields : list (option pbField) }.
Record pbPort := mkPbPort {
  pbPortType : pbEventType; pbPort_ : Z; pbPortName : string; pbPortDescription : string }.
Record pbPayloadTrack := mkPbTrack {
  trackEnabled : bool; pbBufferSize : Z; pbStrategy : pbDropStrategy; interruptSignals : list string }.
Record pbMultiTrack := mkPbMulti { multiEnabled : bool; pbPayloadOf : option pbPayloadTrack }.
Record pbMetadata := mkPbMetadata {
  pbName : string; pbDescription : string; pbSchema : string;
  pbInputs : list (option pbProperty); pbOutputs : list (option pbProperty);
  pbPorts : list (option pbPort); pbMultiTrackOf : option pbMultiTrack }.

Definition prefixVideo : string := "video".
Definition defaultPayloadTrackBufferSize : Z := 128.

Definition convertEventType (v : pbEventType) : string :=
  match v with
  | PbSignal => PrefixSignal
  | PbPayload => PrefixPayload
  | PbAudio => PrefixAudio
  | PbVideo => prefixVideo
  | PbEventOther _ => ""
  end.

Definition convertPortEventType (v : pbEventType) : EventType :=
  match v with
  | PbSignal => EventSignal
  | PbPayload => EventPayload
  | PbAudio => EventAudio
  | PbVideo => EventVideo
  | PbEventOther _ => EventOther 0
  end.

Definition convertValueType (v : pbValueType) : string :=
  match v with
  | PbString => TypeString
  | PbNumber => TypeNumber
  | PbInteger => TypeInteger
  | PbBoolean => TypeBoolean
  | PbObject => TypeObject
  | PbArray => TypeArray
  | PbValueOther _ => TypeAny
  end.

Definition convertFields (items : list (option pbField)) : list Field :=
  omap (fmap (λ f, mkField (pbKey f) (convertValueType (pbFType f)) (pbRequired f))) items.

Definition convertProperties (items : list (option pbProperty)) : list Property :=
  omap (fmap (λ p, mkProperty (convertEventType (pbPType p)) (pbPName p) (convertFields (pbFields p)))) items.

Definition convertPorts (items : list (option pbPort)) : list PortMetadata :=
  omap (fmap (λ p, mkPort (convertPortEventType (pbPortType p)) (pbPort_ p) (pbPortName p)
                     (pbPortDescription p))) items.

Definition convertPluginMetadata (m : pbMetadata) : PluginMetadata :=
  mkMeta (pbName m) (pbDescription m) (convertProperties (pbInputs m))
    (convertProperties (pbOutputs m)) (convertPorts (pbPorts m)).

Definition convertDropStrategy (v : pbDropStrategy) : DropStrategy :=
  match v with
  | PbDropNewest => DropNewest
  | PbDropOldest => DropOldest
  | _ => BlockIfFull
  end.

Definition convertMultiTrackOptions (config : option pbMultiTrack) : list TrackOption :=
  match config with
  | None => []
  | Some config =>
      if negb (multiEnabled config) then []
      else match pbPayloadOf config with
           | None => []
           | Some payload =>
               if negb (trackEnabled payload) then []
               else
                 let bufferSize := if decide (pbBufferSize payload ≤ 0)%Z
                                   then defaultPayloadTrackBufferSize else pbBufferSize payload in
                 [WithPayloadTrack (Z.to_nat bufferSize) (convertDropStrategy (pbStrategy payload))
                    (interruptSignals payload)]
           end
  end.

(** What [Build] hands to the workflow: the instance, behind tracks if any. *)
Record built := mkBuilt { instance_id : string; tracks : option MultiTrackPlugin }.

(** [Build]: [uuid] is the new id, [resp] the server's answer.  Besides the
    plugin, the client and the instances destroyed again. *)
Definition Build (c : option Client) (meta : PluginMetadata) (mt : option pbMultiTrack)
    (uuid : string) (resp : option string) : option Client * list string * result remote_error built :=
  match c with
  | None => (c, [], Err (ErrClientNil (MName meta)))
  | Some cl =>
      match CreateInstance cl resp uuid (MName meta) with
      | Err e => (c, [], Err e)
      | Ok _ =>
          let options := convertMultiTrackOptions mt in
          match RegisterInstance cl uuid PluginStateCreated with
          | Err e => (c, [uuid], Err e)
          | Ok cl => (Some cl, [], Ok (mkBuilt uuid (NewMultiTrackPlugin false options)))
          end
      end
  end.

(** ** manager.go

    [decodes] says which schema texts the JSON library accepts; [make] is the
    [Build] method of the builder for one plugin's metadata. *)
Section manager.
Context {P : Type} (decodes : string → bool) (make : pbMetadata → string → result string P).

Definition NewBuilder (md : pbMetadata) : result remote_error (PluginBuilder P) :=
  if decide (pbName md = "") then Err ErrNameEmpty
  else if bool_decide (pbSchema md ≠ "") && negb (decodes (pbSchema md))
  then Err (ErrDecodeSchema (pbName md))
  else Ok (mkBuilder (convertPluginMetadata md) (make md)).

(** The loop of [handleReload]: a plugin that fails is logged and skipped. *)
Definition load_plugin (r : PluginResource P) (md : pbMetadata) : PluginResource P :=
  match NewBuilder md with
  | Err _ => r
  | Ok b => match RegisterBuilder r (Some b) with Ok r' => r' | Err _ => r end
  end.

Definition load_plugins (ns : string) (plugins : list pbMetadata) : PluginResource P :=
  foldl load_plugin (NewPluginResource ns) plugins.

(** [list] is the answer of [ListPlugins]; [None] is an error. *)
Definition handleReload (ns : string) (list : option (list pbMetadata)) (g : registry P) : registry P :=
  match list with
  | None => g
  | Some plugins =>
      let l := fresh (dom (heap g)) in
      let g := mkRegistry (<[l := load_plugins ns plugins]> (heap g)) (store g) in
      match AddResource g (Some l) with Ok g' => g' | Err _ => g end
  end.

Definition handleOffline (ns : string) (g : registry P) : registry P := RemoveResource g ns.

Record Manager := mkManager { clients : gmap string Client; reg : registry P }.

Definition AddRemote (c : PluginServerConfig) (ping : option string) (list : option (list pbMetadata))
    (m : Manager) : Manager * result remote_error unit :=
  if negb (Enable c) || bool_decide (URL c = "") then (m, Err ErrInvalidConfig)
  else match Dial c ping with
       | Err e => (m, Err e)
       | Ok client =>
           (mkManager (<[Namespace client := client]> (clients m))
              (handleReload (Namespace client) list (reg m)), Ok tt)
       end.

Definition AddRemotes (cs : list (PluginServerConfig * option string * option (list pbMetadata)))
    (m : Manager) : Manager :=
  foldl (λ m '(c, ping, list),
    if negb (Enable c) || bool_decide (URL c = "") then m else (AddRemote c ping list m).1) m cs.

(** One goroutine of [pingAll]. *)
Definition ping_client (ns : string) (ping : option string) (list : option (list pbMetadata))
    (m : Manager) : Manager :=
  match clients m !! ns with
  | None => m
  | Some c =>
      let '(c, event) := DoPing ping c in
      mkManager (<[ns := c]> (clients m))
        match event with
        | PingEventOffline => handleOffline (Namespace c) (reg m)
        | PingEventNeedReload => handleReload (Namespace c) list (reg m)
        | PingEventNone => reg m
        end
  end.

(** One goroutine of [cleanupAll]. *)
Definition cleanup_client (ns : string) (o : iter_order string PluginState) (m : Manager) : Manager :=
  match clients m !! ns with
  | None => m
  | Some c => mkManager (<[ns := (CleanupZombieInstances o c).1]> (clients m)) (reg m)
  end.

Definition Shutdown (o : iter_order string Client) (m : Manager) : Manager :=
  mkManager ∅ (foldl (λ g kc, RemoveResource g (Namespace kc.2)) (reg m) (range_map o (clients m))).

(** The steps, with the pings they make: the namespace and whether the ping
    was answered.  The instances of a client come, go and change state at any
    time. *)
Inductive manager_step : Manager → option (string * bool) → Manager → Prop :=
| ms_add m c ping list :
    manager_step m (if is_ok (AddRemote c ping list m).2 then Some (Namespace_of c, true) else None)
      (AddRemote c ping list m).1
| ms_ping m ns ping list :
    manager_step m (if clients m !! ns is Some _ then Some (ns, if ping is Some _ then true else false) else None)
      (ping_client ns ping list m)
| ms_cleanup m ns o : manager_step m None (cleanup_client ns o m)
| ms_instances m ns c is' : clients m !! ns = Some c →
    manager_step m None (mkManager (<[ns := with_instances c is']> (clients m)) (reg m))
| ms_shutdown m o : manager_step m None (Shutdown o m).

(** A history with its pings, the latest first. *)
Inductive manager_run (m0 : Manager) : list (string * bool) → Manager → Prop :=
| mr_start : manager_run m0 [] m0
| mr_step h m e m' : manager_run m0 h m → manager_step m e m' → manager_run m0 (option_list e ++ h) m'.

Lemma mr_ping m0 h m ns c ping list :
  manager_run m0 h m → clients m !! ns = Some c →
  manager_run m0 ((ns, if ping is Some _ then true else false) :: h) (ping_client ns ping list m).
Proof. intros Hr Hc. pose proof (mr_step m0 h m _ _ Hr (ms_ping m ns ping list)) as H. by rewrite Hc in H. Qed.

Lemma mr_add m0 h m c ping list :
  manager_run m0 h m → is_ok (AddRemote c ping list m).2 = true →
  manager_run m0 ((Namespace_of c, true) :: h) (AddRemote c ping list m).1.
Proof. intros Hr Hc. pose proof (mr_step m0 h m _ _ Hr (ms_add m c ping list)) as H. by rewrite Hc in H. Qed.

(** The answers of one server, the latest first. *)
Definition answers (ns : string) (h : list (string * bool)) : list bool := (filter (λ e, e.1 = ns) h).*2.

Fixpoint fails (l : list bool) : Z :=
  match l with false :: l => 1 + fails l | _ => 0 end%Z.

Lemma fails_nonneg l : (0 ≤ fails l)%Z.
Proof. induction l as [|[] l IH]; simpl; lia. Qed.

Lemma fails_three l : (maxFailCount ≤ fails l)%Z ↔ take 3 l = [false; false; false].
Proof.
  unfold maxFailCount. destruct l as [|[] [|[] [|[] l]]]; simpl; try (split; [lia|done]).
  pose proof (fails_nonneg l). split; [done|lia].
Qed.

Lemma fails_two l : fails l = 2%Z ↔ ∃ l', l = [false; false] ++ l' ∧ head l' ≠ Some false.
Proof.
  destruct l as [|[] [|[] [|[] l]]]; simpl; try (split; [done|by intros (? & [=] & ?)]).
  - split; [intros _; by eexists|done].
  - split; [intros _; by eexists|done].
  - pose proof (fails_nonneg l). split; [lia|]. by intros (? & [= <-] & ?).
Qed.

Lemma answers_cons ns e h :
  answers ns (option_list e ++ h) =
  match e with Some (ns', b) => if decide (ns' = ns) then b :: answers ns h else answers ns h | None => answers ns h end.
Proof. destruct e as [[ns' b]|]; [|done]. unfold answers. simpl. rewrite filter_cons. simpl. by case_decide. Qed.

(** ** The client's state *)
Definition client_ok (c : Client) : Prop :=
  (0 ≤ failCount c)%Z ∧
  server_state c = (if decide (failCount c = 0)%Z then StateOnline
                    else if decide (failCount c < maxFailCount)%Z then StateAbnormal else StateOffline).

Lemma DoPing_ok ping c : client_ok c → client_ok (DoPing ping c).1.
Proof.
  intros [H0 _]. unfold DoPing, client_ok, maxFailCount. destruct ping as [sid|].
  - repeat case_decide; simpl; split; try lia; done.
  - case_decide as Hn; [case_decide as Ho|]; simpl; (split; [lia|]); rewrite decide_False by lia.
    + by rewrite decide_False by lia.
    + by rewrite decide_False by lia.
    + by rewrite decide_True by lia.
Qed.

Lemma DoPing_cfg ping c : cfg (DoPing ping c).1 = cfg c.
Proof. unfold DoPing. by repeat (case_decide || case_match). Qed.

(** A namespace the store lets a remote server remove. *)
Definition removable (ns : string) : Prop := is_blank ns = false ∧ ns ≠ LocalNamespace.

Lemma removable_ne ns : removable ns → ns ≠ "".
Proof. intros [Hb _] ->. by rewrite is_blank_empty in Hb. Qed.

Lemma RemoveResource_same (g : registry P) ns : removable ns → resources (store (RemoveResource g ns)) !! ns = None.
Proof.
  intros [Hb Hl]. unfold RemoveResource. rewrite decide_False by (rewrite Hb; naive_solver).
  apply lookup_delete_eq.
Qed.

Lemma RemoveResource_other (g : registry P) ns ns' :
  resources (store g) !! ns' = None → resources (store (RemoveResource g ns)) !! ns' = None.
Proof.
  intros H. unfold RemoveResource. case_decide; [done|]. simpl.
  apply lookup_delete_None. by right.
Qed.

Lemma load_plugins_namespace ns pl : namespace (load_plugins ns pl) = ns.
Proof.
  unfold load_plugins. assert (namespace (NewPluginResource (P:=P) ns) = ns) as H by done.
  revert H. generalize (NewPluginResource (P:=P) ns) as r.
  induction pl as [|md pl IH]; intros r H; simpl; [done|]. apply IH. unfold load_plugin.
  destruct (NewBuilder md) as [b|]; [|done].
  destruct (RegisterBuilder r (Some b)) as [r'|] eqn:E; [|done].
  apply RegisterBuilder_ok in E as (? & ? & ? & ? & ? & ->). done.
Qed.

(** A reload of a namespace touches no other one, and a namespace that is
    already there keeps its resource. *)
Lemma handleReload_other ns list (g : registry P) ns' :
  ns' ≠ ns → resources (store (handleReload ns list g)) !! ns' = resources (store g) !! ns'.
Proof.
  intros Hne. unfold handleReload. destruct list as [pl|]; [|done]. unfold AddResource. simpl.
  case_decide; [done|]. destruct (resources (store g) !! _) eqn:E; [done|]. simpl.
  rewrite lookup_insert_ne; [done|]. unfold resource_at. rewrite lookup_insert_eq. simpl.
  by rewrite load_plugins_namespace.
Qed.

Lemma handleReload_present ns list (g : registry P) l :
  resources (store g) !! ns = Some l → store (handleReload ns list g) = store g.
Proof.
  intros Hl. unfold handleReload. destruct list as [pl|]; [|done]. unfold AddResource. simpl.
  case_decide; [done|]. unfold resource_at. rewrite lookup_insert_eq. simpl.
  by rewrite load_plugins_namespace, Hl.
Qed.

Lemma handleReload_absent ns pl (g : registry P) :
  ns ≠ "" → resources (store g) !! ns = None →
  ∃ l, resources (store (handleReload ns (Some pl) g)) !! ns = Some l ∧
    heap (handleReload ns (Some pl) g) !! l = Some (load_plugins ns pl).
Proof.
  intros Hne Hn. unfold handleReload, AddResource. simpl. unfold resource_at.
  rewrite !lookup_insert_eq. simpl. rewrite load_plugins_namespace, decide_False, Hn by done. simpl.
  exists (fresh (dom (heap g))). by rewrite !lookup_insert_eq.
Qed.

(** ** The invariant *)
Record manager_ok (h : list (string * bool)) (m : Manager) : Prop := {
  mo_clients : ∀ ns c, clients m !! ns = Some c →
    Namespace c = ns ∧ client_ok c ∧ failCount c = fails (answers ns h);
  mo_offline : ∀ ns c, removable ns → clients m !! ns = Some c → server_state c = StateOffline →
    resources (store (reg m)) !! ns = None;
}.

Lemma CleanupZombie_keeps o c :
  let c' := (CleanupZombieInstances o c).1 in
  cfg c' = cfg c ∧ server_state c' = server_state c ∧ failCount c' = failCount c.
Proof.
  unfold CleanupZombieInstances. simpl.
  generalize ((filter (λ kv, is_zombie kv.2 = true) (range_map o (instances c))).*1) as zs. intros zs.
  revert c. induction zs as [|z zs IH]; intros c; simpl; [done|]. by destruct (IH (RemoveInstance c z)) as (-> & -> & ->).
Qed.

(** Replacing a client by one with the same name and server state. *)
Lemma manager_ok_client h m ns c c' :
  clients m !! ns = Some c → cfg c' = cfg c → server_state c' = server_state c → failCount c' = failCount c →
  manager_ok h m → manager_ok h (mkManager (<[ns := c']> (clients m)) (reg m)).
Proof.
  intros Hc E1 E2 E3 [H1 H2]. destruct (H1 ns c Hc) as (Hns & Hok & Hf). split; simpl.
  - intros ns' x. destruct (decide (ns' = ns)) as [->|]; [|rewrite lookup_insert_ne by done; apply H1].
    rewrite lookup_insert_eq. intros [= <-]. split; [unfold Namespace in *; congruence|].
    unfold client_ok in *. by rewrite E2, E3.
  - intros ns' x Hr. destruct (decide (ns' = ns)) as [->|]; [|rewrite lookup_insert_ne by done; by apply H2].
    rewrite lookup_insert_eq. intros [= <-] Ho. apply (H2 ns c); congruence.
Qed.

Lemma DoPing_failCount ping c :
  failCount (DoPing ping c).1 = if ping is Some _ then 0%Z else (1 + failCount c)%Z.
Proof. unfold DoPing. destruct ping; repeat case_decide; simpl; lia. Qed.

Lemma manager_ok_ping h m ns ping list c :
  clients m !! ns = Some c → manager_ok h m →
  manager_ok ((ns, if ping is Some _ then true else false) :: h) (ping_client ns ping list m).
Proof.
  intros Hc Hok. unfold ping_client. rewrite Hc.
  destruct Hok as [H1 H2]. destruct (H1 ns c Hc) as (Hns & Hcok & Hf).
  pose proof (DoPing_ok ping c Hcok) as Hok'. pose proof (DoPing_cfg ping c) as Hcfg.
  pose proof (DoPing_failCount ping c) as Hfc.
  assert (server_state (DoPing ping c).1 = StateOffline →
    (DoPing ping c).2 = PingEventOffline ∨ (server_state c = StateOffline ∧ (DoPing ping c).2 = PingEventNone)) as Hev.
  { unfold DoPing. repeat (case_decide || case_match); simpl; try done; auto. }
  destruct (DoPing ping c) as [c' event]. simpl in *.
  assert (Namespace c' = ns) as Hns' by (unfold Namespace in *; congruence). rewrite Hns'.
  set (b := if ping is Some _ then true else false). split; simpl.
  - intros ns' x. pose proof (answers_cons ns' (Some (ns, b)) h) as Ha. simpl in Ha. rewrite Ha.
    destruct (decide (ns' = ns)) as [->|]; [|rewrite lookup_insert_ne, decide_False by done; apply H1].
    rewrite lookup_insert_eq, decide_True by done. intros [= <-]. split; [done|]. split; [done|].
    rewrite Hfc, Hf. by unfold b; destruct ping.
  - intros ns' x Hr. destruct (decide (ns' = ns)) as [->|Hne].
    + rewrite lookup_insert_eq. intros [= <-] Ho. destruct (Hev Ho) as [->|[Ho' ->]].
      * by apply RemoveResource_same.
      * by apply (H2 ns c).
    + rewrite lookup_insert_ne by done. intros Hx Ho. specialize (H2 ns' x Hr Hx Ho).
      destruct event; [done|by apply RemoveResource_other|by rewrite handleReload_other].
Qed.

Lemma manager_ok_add h m c sid list :
  manager_ok h m →
  manager_ok ((Namespace_of c, true) :: h)
    (mkManager (<[Namespace_of c := mkClient c StateOnline 0 sid ∅]> (clients m))
       (handleReload (Namespace_of c) list (reg m))).
Proof.
  intros [H1 H2]. split; simpl.
  - intros ns x. pose proof (answers_cons ns (Some (Namespace_of c, true)) h) as Ha. simpl in Ha. rewrite Ha.
    destruct (decide (ns = Namespace_of c)) as [->|]; [|rewrite lookup_insert_ne, decide_False by done; apply H1].
    rewrite lookup_insert_eq, decide_True by done. intros [= <-]. split; [done|]. split; [|done]. split; simpl; [lia|done].
  - intros ns x Hr. destruct (decide (ns = Namespace_of c)) as [->|Hne].
    + rewrite lookup_insert_eq. by intros [= <-].
    + rewrite lookup_insert_ne by done. intros Hx Ho. rewrite handleReload_other by done. by apply (H2 ns x).
Qed.

Lemma manager_ok_step h m e m' : manager_ok h m → manager_step m e m' → manager_ok (option_list e ++ h) m'.
Proof.
  intros Hok Hstep. destruct Hstep as [m c ping list|m ns ping list|m ns o|m ns c is' Hc|m o].
  - unfold AddRemote. destruct (negb (Enable c) || _); [done|]. unfold Dial.
    destruct ping as [sid|]; [|done]. by apply manager_ok_add.
  - destruct (clients m !! ns) as [c|] eqn:Hc.
    + by eapply manager_ok_ping.
    + unfold ping_client. by rewrite Hc.
  - unfold cleanup_client. destruct (clients m !! ns) as [c|] eqn:Hc; [|done].
    destruct (CleanupZombie_keeps o c) as (? & ? & ?). by eapply (manager_ok_client h m ns c).
  - by eapply (manager_ok_client h m ns c).
  - split; simpl; [done|]. intros ns c Hr Hc. done.
Qed.

Lemma manager_run_ok g0 h m : manager_run (mkManager ∅ g0) h m → manager_ok h m.
Proof. intros Hrun. induction Hrun; [by split|]. by eapply manager_ok_step. Qed.

(** ** What a reload loads *)
Definition acceptable (md : pbMetadata) : bool :=
  is_ok (NewBuilder md) &&
  bool_decide (Forall (λ p, 0 < Port p < MaxPortCount)%Z (convertPorts (pbPorts md))).

Definition builder_of (md : pbMetadata) : PluginBuilder P := mkBuilder (convertPluginMetadata md) (make md).

Lemma NewBuilder_ok md b : NewBuilder md = Ok b → b = builder_of md ∧ pbName md ≠ "".
Proof. unfold NewBuilder. repeat case_match; naive_solver. Qed.

Lemma load_plugin_builders (r : PluginResource P) md :
  builders (load_plugin r md) =
    if acceptable md && bool_decide (builders r !! pbName md = None)
    then <[pbName md := builder_of md]> (builders r) else builders r.
Proof.
  unfold load_plugin, acceptable. destruct (NewBuilder md) as [b|e] eqn:Hb; cbn [is_ok andb]; [|done].
  destruct (NewBuilder_ok md b Hb) as [-> Hne].
  destruct (RegisterBuilder r (Some (builder_of md))) as [r'|e] eqn:Hr.
  - apply RegisterBuilder_ok in Hr as (b' & [= <-] & _ & Hp & Hf & ->). simpl.
    rewrite (bool_decide_eq_true_2 (Forall _ _)) by exact Hp.
    by rewrite (bool_decide_eq_true_2 (builders r !! _ = None)) by exact Hf.
  - destruct (bool_decide (Forall _ _)) eqn:Hp; simpl; [|done]. apply bool_decide_eq_true_1 in Hp.
    destruct (bool_decide (builders r !! pbName md = None)) eqn:Hf; [|done]. apply bool_decide_eq_true_1 in Hf.
    assert (RegisterBuilder r (Some (builder_of md)) =
      Ok (mkResource (namespace r) (<[pbName md := builder_of md]> (builders r)))) as E; [|congruence].
    apply RegisterBuilder_ok. exists (builder_of md). done.
Qed.

(** The first acceptable plugin of a name. *)
Definition first_named (name : string) (pl : list pbMetadata) : option pbMetadata :=
  snd <$> list_find (λ md, acceptable md = true ∧ pbName md = name) pl.

Lemma load_plugins_lookup ns pl name :
  LoadBuilder (load_plugins ns pl) name = builder_of <$> first_named name pl.
Proof.
  unfold LoadBuilder, load_plugins.
  assert (∀ r, builders (foldl load_plugin r pl) !! name =
    match builders r !! name with Some b => Some b | None => builder_of <$> first_named name pl end) as H.
  { induction pl as [|md pl IH]; intros r; simpl.
    - by destruct (builders r !! name).
    - rewrite IH, load_plugin_builders. unfold first_named at 2. cbn [list_find].
      destruct (acceptable md) eqn:Ha; simpl.
      + destruct (decide (pbName md = name)) as [<-|Hne].
        * rewrite decide_True by done. destruct (builders r !! pbName md) eqn:E.
          -- rewrite bool_decide_eq_false_2 by done. by rewrite E.
          -- rewrite bool_decide_eq_true_2 by done. by rewrite lookup_insert_eq.
        * rewrite decide_False by naive_solver. destruct (bool_decide _); rewrite ?lookup_insert_ne by done.
          1,2: unfold first_named; destruct (builders r !! name); [done|]; by destruct (list_find _ pl) as [[]|].
      + unfold first_named. destruct (builders r !! name); [done|]. by destruct (list_find _ pl) as [[]|]. }
  rewrite H. unfold NewPluginResource. cbn [builders]. by rewrite lookup_empty.
Qed.

(** C17: The store follows the remote servers.  After any history of servers
    being added, pings, cleanups and shutdowns, for every server whose
    namespace may be removed (not blank, not the local one): it counts as
    offline exactly when its last three pings failed, and then the store has
    none of its plugins; when its last two pings failed, a third failure
    removes them; the first answered ping of an offline server puts back
    exactly the plugins it then lists, for each name the first one whose
    metadata are acceptable, provided that listing them succeeds, and nothing
    when it fails. *)
Theorem remote_plugins_follow_server g0 h m ns c :
  manager_run (mkManager ∅ g0) h m → removable ns → clients m !! ns = Some c →
  (server_state c = StateOffline ↔ take 3 (answers ns h) = [false; false; false]) ∧
  (take 3 (answers ns h) = [false; false; false] → resources (store (reg m)) !! ns = None) ∧
  (take 2 (answers ns h) = [false; false] →
     ∀ list, resources (store (reg (ping_client ns None list m))) !! ns = None) ∧
  (take 3 (answers ns h) = [false; false; false] → ∀ sid pl,
     let m' := ping_client ns (Some sid) (Some pl) m in
     ∃ l r, resources (store (reg m')) !! ns = Some l ∧ heap (reg m') !! l = Some r ∧
       ∀ name, LoadBuilder r name = builder_of <$> first_named name pl) ∧
  (take 3 (answers ns h) = [false; false; false] → ∀ sid,
     resources (store (reg (ping_client ns (Some sid) None m))) !! ns = None).
Proof.
  intros [H1 H2]%manager_run_ok Hr Hc. destruct (H1 ns c Hc) as (Hns & [H0 Hst] & Hf).
  assert (server_state c = StateOffline ↔ take 3 (answers ns h) = [false; false; false]) as Hoff.
  { rewrite <-fails_three, <-Hf, Hst. unfold maxFailCount. repeat case_decide; split; intros; try done; lia. }
  split; [done|]. rewrite <-Hoff. split; [intros Ho; by apply (H2 ns c)|]. split; [|split].
  - intros H3 list. destruct (decide (server_state c = StateOffline)) as [Ho|Hno].
    + unfold ping_client. rewrite Hc. unfold DoPing. rewrite (decide_False (P := server_state c ≠ _)) by naive_solver.
      specialize (H2 ns c Hr Hc Ho). by destruct (decide (maxFailCount ≤ failCount c + 1)%Z).
    + assert (failCount c = 2%Z) as H4.
      { rewrite Hf. apply fails_two. destruct (answers ns h) as [|[] [|[] l]]; try done. exists l. split; [done|].
        destruct l as [|[] l]; try done. by destruct Hno; apply Hoff. }
      unfold ping_client. rewrite Hc. unfold DoPing. rewrite decide_True by (unfold maxFailCount; lia).
      rewrite decide_True by done. simpl.
      change (Namespace _) with (Namespace c). rewrite Hns. by apply RemoveResource_same.
  - intros Ho sid pl. unfold ping_client. rewrite Hc. unfold DoPing. rewrite decide_True by done. simpl.
    change (Namespace _) with (Namespace c). rewrite Hns.
    destruct (handleReload_absent ns pl (reg m)) as (l & Hl & Hh); [by apply removable_ne|by apply (H2 ns c)|].
    exists l, (load_plugins ns pl). split; [done|]. split; [done|]. apply load_plugins_lookup.
  - intros Ho sid. unfold ping_client. rewrite Hc. unfold DoPing. rewrite decide_True by done. simpl.
    by apply (H2 ns c).
Qed.

(** A server that restarts between two pings is noticed by its new id, but
    its plugins are not: the store refuses the new resource because the old
    one is still there. *)
Theorem fast_restart_keeps_old_plugins m ns c sid pl l :
  clients m !! ns = Some c → Namespace c = ns →
  server_state c = StateOnline → sid ≠ serverId c →
  resources (store (reg m)) !! ns = Some l →
  (DoPing (Some sid) c).2 = PingEventNeedReload ∧
  store (reg (ping_client ns (Some sid) (Some pl) m)) = store (reg m).
Proof.
  intros Hc Hns Hon Hsid Hl. unfold ping_client. rewrite Hc. unfold DoPing. rewrite Hon.
  rewrite decide_False, decide_True by done. split; [done|]. cbn [reg].
  change (Namespace _) with (Namespace c). rewrite Hns. by eapply handleReload_present.
Qed.
End manager.

(** ** Instances *)

(** The cleanup of a client removes exactly the failed and the stopped
    instances and keeps all others with their state; each one removed was
    destroyed on the server once. *)
Theorem zombies_removed_exactly (o : iter_order string PluginState) c :
  let '(c', destroyed) := CleanupZombieInstances o c in
  (∀ i st, instances c' !! i = Some st ↔ instances c !! i = Some st ∧ is_zombie st = false) ∧
  (∀ i, i ∈ destroyed ↔ ∃ st, instances c !! i = Some st ∧ is_zombie st = true) ∧
  NoDup destroyed.
Proof.
  unfold CleanupZombieInstances.
  set (zs := (filter (λ kv, is_zombie kv.2 = true) (range_map o (instances c))).*1).
  assert (∀ i, i ∈ zs ↔ ∃ st, instances c !! i = Some st ∧ is_zombie st = true) as Hzs.
  { intros i. unfold zs. rewrite list_elem_of_fmap. setoid_rewrite list_elem_of_filter. split.
    - intros ([k st] & -> & Hz & Hin). exists st. split; [by apply (elem_of_range_map o)|done].
    - intros (st & Hst & Hz). exists (i, st). split; [done|]. split; [done|]. by apply (elem_of_range_map o). }
  assert (∀ zs c i, instances (foldl RemoveInstance c zs) !! i =
    if decide (i ∈ zs) then None else instances c !! i) as Hfold.
  { clear. induction zs as [|z zs IH]; intros c i; simpl; [done|]. rewrite IH. simpl.
    destruct (decide (i ∈ zs)); [by rewrite decide_True by set_solver|].
    destruct (decide (i = z)) as [->|]; [rewrite lookup_delete_eq, decide_True by set_solver; done|].
    rewrite lookup_delete_ne, decide_False by set_solver. done. }
  split; [|split; [done|]].
  - intros i st. rewrite Hfold. case_decide as Hi.
    + split; [done|]. intros [Hst Hz]. apply Hzs in Hi as (st' & Hst' & Hz'). congruence.
    + split; [|by intros []]. intros Hst. split; [done|].
      destruct (is_zombie st) eqn:Hz; [|done]. exfalso. apply Hi, Hzs. eauto.
  - unfold zs. eapply sublist_NoDup; [apply (NoDup_fst_range_map o (instances c))|].
    apply fmap_sublist, sublist_filter.
Qed.

(** A build that succeeds registers its instance; one that fails leaves the
    client as it was, and destroys the instance again when the server had
    created it under an id the client already knows. *)
Lemma build_registers cl meta mt uuid resp :
  match Build (Some cl) meta mt uuid resp with
  | (Some cl', destroyed, Ok b) =>
      destroyed = [] ∧ instance_id b = uuid ∧
      instances cl !! uuid = None ∧ instances cl' = <[uuid := PluginStateCreated]> (instances cl) ∧
      (tracks b = None ↔ convertMultiTrackOptions mt = [])
  | (c', destroyed, Err _) => c' = Some cl ∧ (destroyed = [] ∨ destroyed = [uuid])
  | _ => False
  end.
Proof.
  unfold Build, RegisterInstance. destruct (CreateInstance cl resp uuid (MName meta)) as [[]|]; [|auto].
  case_decide; [auto|]. destruct (instances cl !! uuid) eqn:E; [auto|]. simpl.
  do 4 (split; [done|]). unfold NewMultiTrackPlugin. simpl.
  destruct (convertMultiTrackOptions mt); by split.
Qed.

(** ** A concrete server *)
Definition demo_md (n : string) (port : Z) : pbMetadata :=
  mkPbMetadata n "" "" [] [] [Some (mkPbPort PbSignal port "out" "")] None.
Definition demo_make (md : pbMetadata) (data : string) : result string string := Ok (pbName md).
Definition demo_cfg : PluginServerConfig := mkServerConfig "host:9000" "vision" true.
Definition demo_manager : Manager (P := string) :=
  let ping := ping_client (λ _, true) demo_make "vision" None None in
  ping (ping (ping (AddRemote (λ _, true) demo_make demo_cfg (Some "s1") (Some [demo_md "ocr" 1])
    (mkManager ∅ empty_registry)).1)).

Definition demo_pings : list (string * bool) :=
  [("vision", false); ("vision", false); ("vision", false); ("vision", true)].

Lemma demo_manager_run :
  manager_run (λ _, true) demo_make (mkManager ∅ empty_registry) demo_pings demo_manager.
Proof.
  assert (manager_run (λ _, true) demo_make (mkManager ∅ empty_registry) [("vision", true)]
    (AddRemote (λ _, true) demo_make demo_cfg (Some "s1") (Some [demo_md "ocr" 1])
       (mkManager ∅ empty_registry)).1) as H0
    by (apply (mr_add _ _ _ [] _ demo_cfg); [apply mr_start|reflexivity]).
  unfold demo_manager, demo_pings.
  do 3 (eapply (mr_ping _ _ _ _ _ "vision" _ None None); [|vm_compute; reflexivity]). exact H0.
Qed.

Lemma remote_plugins_follow_server_witness :
  ∃ l r, let m' := ping_client (λ _, true) demo_make "vision" (Some "s2")
                     (Some [demo_md "bad" 99; demo_md "ocr" 2; demo_md "ocr" 3]) demo_manager in
    resources (store (reg m')) !! "vision" = Some l ∧ heap (reg m') !! l = Some r ∧
    LoadBuilder r "bad" = None ∧
    (λ b, Port <$> Builder_Ports b) <$> LoadBuilder r "ocr" = Some [2%Z].
Proof.
  destruct (clients demo_manager !! "vision") as [c|] eqn:Hc; [|exfalso; vm_compute in Hc; discriminate].
  destruct (remote_plugins_follow_server (λ _, true) demo_make empty_registry demo_pings demo_manager "vision" c)
    as (_ & _ & _ & H & _).
  - exact demo_manager_run.
  - by split.
  - done.
  - destruct (H eq_refl "s2" [demo_md "bad" 99; demo_md "ocr" 2; demo_md "ocr" 3]) as (l & r & Hl & Hr & Hb).
    exists l, r. split; [done|]. split; [done|]. rewrite !Hb. split; vm_compute; reflexivity.
Defined.
