(* ===== verification/TenVad.v ===== *)
(** * Voice activity: internal/plugins/ten_vad

    The plugin cuts the audio it forwards into frames of a fixed size, asks a
    detector about each one and reports when the user starts and stops
    speaking.  The detector of vad.go wraps a C library, whose two functions
    are parameters here; the plugin sees it through the interface
    [Processor].  The properties hold for every detector: audio of any
    chunking is cut into the same frames, and the signals are those of a
    declarative definition of speech in terms of runs of verdicts. *)

From S2P Require Import Prelude.
From S2P Require Import GoSlice.
From S2P Require Import Schema.
From S2P Require Import PluginFlow.
From Stdlib Require Import Floats.SpecFloat.

Definition float32 : Type := spec_float.

Definition SignalVadUserSpeechStart : string := "vad_user_speech_start".
Definition SignalVadUserSpeechEnd : string := "vad_user_speech_end".

(** ** vad.go *)
Inductive VadError :=
| ErrVadInitFailed | ErrVadInvalidSampleRate | ErrVadInvalidFrameLength | ErrVadInvalidMode
| ErrVadUninitialized | ErrVadProcessError | ErrVadInvalidParameter
| UnknownCode (code : Z)
| FrameLengthMismatch (got want : Z).

Definition mapErrorCodeToError (code : Z) : option VadError :=
  if decide (code = 0 ∨ code = 1)%Z then None
  else if decide (code = -1)%Z then Some ErrVadInitFailed
  else if decide (code = -2)%Z then Some ErrVadInvalidSampleRate
  else if decide (code = -3)%Z then Some ErrVadInvalidFrameLength
  else if decide (code = -4)%Z then Some ErrVadInvalidMode
  else if decide (code = -5)%Z then Some ErrVadUninitialized
  else if decide (code = -6)%Z then Some ErrVadProcessError
  else if decide (code = -7)%Z then Some ErrVadInvalidParameter
  else if decide (code < 0)%Z then Some (UnknownCode code)
  else None.

(** What the plugin asks of a detector: a probability and a verdict per
    frame of samples, or an error. *)
Class Processor (V : Type) := {
  Process : V → list Z → V * result VadError (float32 * bool);
  FrameSize : V → Z;
  Close : V → V * option VadError;
}.

Section vad.
Context {I : Type} (ten_vad_create : Z → float32 → Z * option I).
(** The library's answer: its return code, the probability and the flag. *)
Context (ten_vad_process : I → list Z → I * (Z * float32 * Z)).

Record Vad := mkVad { instance : option I; hopSize : Z }.

Definition float_zero : float32 := S754_zero false.
Definition float_one : float32 := binary_normalize 24 128 1 0 false.

Definition NewVad (hop : Z) (threshold : float32) : result VadError Vad :=
  if negb (SFleb float_zero threshold && SFleb threshold float_one) then Err ErrVadInvalidParameter
  else if decide (hop ≤ 0)%Z then Err ErrVadInvalidParameter
  else match ten_vad_create hop threshold with
       | (0%Z, Some inst) => Ok (mkVad (Some inst) hop)
       | _ => Err ErrVadInitFailed
       end.

Definition Vad_Close (v : Vad) : Vad * option VadError :=
  match instance v with
  | None => (v, Some ErrVadUninitialized)
  | Some _ => (mkVad None (hopSize v), None)
  end.

Definition Vad_Process (v : Vad) (speechFrame : list Z) : Vad * result VadError (float32 * bool) :=
  match instance v with
  | None => (v, Err ErrVadUninitialized)
  | Some inst =>
      if decide (Z.of_nat (length speechFrame) ≠ hopSize v)
      then (v, Err (FrameLengthMismatch (Z.of_nat (length speechFrame)) (hopSize v)))
      else
        let '(inst, (ret, probability, flag)) := ten_vad_process inst speechFrame in
        let v := mkVad (Some inst) (hopSize v) in
        if decide (ret ≠ 0)%Z then
          (v, match mapErrorCodeToError ret with Some e => Err e | None => Ok (float_zero, false) end)
        else (v, Ok (probability, bool_decide (flag = 1%Z)))
  end.

#[export] Instance Vad_Processor : Processor Vad :=
  {| Process := Vad_Process; FrameSize := hopSize; Close := Vad_Close |}.

Lemma NewVad_FrameSize hop threshold v : NewVad hop threshold = Ok v → FrameSize v = hop.
Proof.
  unfold NewVad. destruct (negb _); [done|]. destruct (decide _); [done|].
  destruct (ten_vad_create hop threshold) as [[] [i|]]; naive_solver.
Qed.
End vad.

(** ** plugin.go *)
Record Config := mkConfig {
  Threshold : float32; MinSpeechDurationMs : Z; MinSilenceDurationMs : Z; FrameBytes : Z }.

Definition defaultFrameBytes : Z := 512.
Definition defaultFrameDurationMs : Z := 16.
Definition defaultMinSpeechMs : Z := 150.
Definition defaultMinSilenceMs : Z := 600.
Definition defaultThreshold : float32 := binary_normalize 24 128 1 (-1) false.

Definition normalizeConfig (cfg : option Config) : Config :=
  let cfg := default (mkConfig float_zero 0 0 0) cfg in
  mkConfig
    (if SFleb (Threshold cfg) float_zero || SFltb float_one (Threshold cfg)
     then defaultThreshold else Threshold cfg)
    (if decide (MinSpeechDurationMs cfg ≤ 0)%Z then defaultMinSpeechMs else MinSpeechDurationMs cfg)
    (if decide (MinSilenceDurationMs cfg ≤ 0)%Z then defaultMinSilenceMs else MinSilenceDurationMs cfg)
    (if decide (FrameBytes cfg ≤ 0 ∨ Z.rem (FrameBytes cfg) 2 ≠ 0)%Z
     then defaultFrameBytes else FrameBytes cfg).

Definition durationToFrames (durationMs : Z) : Z :=
  let frames := Z.quot (int64 (durationMs + defaultFrameDurationMs - 1)) defaultFrameDurationMs in
  if decide (frames ≤ 0)%Z then 1 else frames.

(** The bytes of one sample; an index past the frame is a run-time panic. *)
Definition sample_at (frame : list Z) (i : nat) : option Z :=
  b0 ← frame !! (i * 2); b1 ← frame !! (i * 2 + 1);
  Some (int16 (b0 + 256 * b1)).

Definition byteFrameToInt16 (frame dst : list Z) : option (list Z) :=
  mapM (sample_at frame) (seq 0 (length dst)).

Section plugin.
Context {V : Type} `{!Processor V}.

(** [frameBytes] is positive by [normalizeConfig]; the counters stay far
    below the width of an [int]. *)
Record Plugin := mkVadPlugin {
  cfg : Config; vad : option V; frameBytes : nat; frameBuf : list Z; sampleBuf : list Z;
  preSpeechFrames : Z; postSpeechFrames : Z; speechFrames : Z; silenceFrames : Z; speaking : bool }.

Definition with_vad (p : Plugin) (v : option V) (samples : list Z) : Plugin :=
  mkVadPlugin (cfg p) v (frameBytes p) (frameBuf p) samples (preSpeechFrames p) (postSpeechFrames p)
    (speechFrames p) (silenceFrames p) (speaking p).
Definition with_frameBuf (p : Plugin) (b : list Z) : Plugin :=
  mkVadPlugin (cfg p) (vad p) (frameBytes p) b (sampleBuf p) (preSpeechFrames p) (postSpeechFrames p)
    (speechFrames p) (silenceFrames p) (speaking p).
Definition with_counts (p : Plugin) (sp si : Z) (b : bool) : Plugin :=
  mkVadPlugin (cfg p) (vad p) (frameBytes p) (frameBuf p) (sampleBuf p) (preSpeechFrames p)
    (postSpeechFrames p) sp si b.

Definition NewPlugin (config : option Config) : Plugin :=
  let cfg := normalizeConfig config in
  mkVadPlugin cfg None (Z.to_nat (FrameBytes cfg)) [] []
    (durationToFrames (MinSpeechDurationMs cfg)) (durationToFrames (MinSilenceDurationMs cfg)) 0 0 false.

Definition OnStart (newVad : Z → float32 → result VadError V) (p : Plugin) : result VadError Plugin :=
  let? v := newVad (Z.quot (Z.of_nat (frameBytes p)) 2) (Threshold (cfg p)) in
  Ok (with_vad p (Some v) (replicate (Z.to_nat (FrameSize v)) 0%Z)).

Definition reset (p : Plugin) : Plugin := with_counts (with_frameBuf p []) 0 0 false.

(** The second component is the detector that was closed. *)
Definition OnStop (p : Plugin) : Plugin * option V :=
  let p := reset p in
  match vad p with
  | None => (p, None)
  | Some v => (with_vad p None [], Some (Close v).1)
  end.

(** The part of [processFrame] after the verdict. *)
Definition onVerdict (p : Plugin) (isSpeech : bool) : Plugin * list flow_event :=
  if isSpeech then
    let n := (speechFrames p + 1)%Z in
    if negb (speaking p) && bool_decide (preSpeechFrames p ≤ n)%Z
    then (with_counts p n 0 true, [SendSignal (new_signal SignalVadUserSpeechStart)])
    else (with_counts p n 0 (speaking p), [])
  else if negb (speaking p) then (with_counts p 0 (silenceFrames p) (speaking p), [])
  else
    let n := (silenceFrames p + 1)%Z in
    if decide (postSpeechFrames p ≤ n)%Z
    then (with_counts p 0 0 false, [SendSignal (new_signal SignalVadUserSpeechEnd)])
    else (with_counts p 0 n (speaking p), []).

(** [None] is a panic: a frame shorter than the samples, or no detector. *)
Definition processFrame (p : Plugin) (frame : list Z) : option (Plugin * list flow_event) :=
  samples ← byteFrameToInt16 frame (sampleBuf p);
  v ← vad p;
  let '(v, r) := Process v samples in
  let p := with_vad p (Some v) samples in
  Some (match r with
        | Err _ => (p, [])
        | Ok (_, isSpeech) => onVerdict p isSpeech
        end).

(** The loop over the whole frames left in [data[offset:]]. *)
Fixpoint frames_loop (fuel : nat) (p : Plugin) (rest : list Z)
    : option (Plugin * list flow_event * list Z) :=
  match fuel with
  | O => Some (p, [], rest)
  | S fuel =>
      if decide (frameBytes p ≤ length rest) then
        '(p, out) ← processFrame p (take (frameBytes p) rest);
        '(p, out', rest) ← frames_loop fuel p (drop (frameBytes p) rest);
        Some (p, out ++ out', rest)
      else Some (p, [], rest)
  end.

Definition processAudio (p : Plugin) (data : list Z) : option (Plugin * list flow_event) :=
  '(p, out, rest) ←
    (if decide (0 < length (frameBuf p)) then
       let need := min (frameBytes p - length (frameBuf p)) (length data) in
       let p := with_frameBuf p (frameBuf p ++ take need data) in
       if decide (length (frameBuf p) = frameBytes p) then
         '(p, out) ← processFrame p (frameBuf p);
         Some (with_frameBuf p [], out, drop need data)
       else Some (p, [], drop need data)
     else Some (p, [], data));
  '(p, out', rest) ← frames_loop (length rest) p rest;
  Some (if decide (0 < length rest) then with_frameBuf p (frameBuf p ++ rest) else p, out ++ out').

Definition OnAudio (p : Plugin) (audio : audio_frame) : option (Plugin * list flow_event) :=
  '(p, out) ← processAudio p (frame_bytes audio);
  Some (p, out ++ [SendAudio audio]).

Fixpoint on_audios (p : Plugin) (audios : list audio_frame) : option (Plugin * list flow_event) :=
  match audios with
  | [] => Some (p, [])
  | a :: audios =>
      '(p, out) ← OnAudio p a;
      '(p, out') ← on_audios p audios;
      Some (p, out ++ out')
  end.
End plugin.
Arguments Plugin V : clear implicits.

(** ** Speech, declaratively

    Verdicts in the order of the frames.  The user is speaking after [vs]
    when somewhere in [vs] there are [pre] speech verdicts in a row after
    which no [post] silent ones in a row occur. *)
Definition has_run (n : nat) (b : bool) (vs : list bool) : Prop :=
  ∃ x y, vs = x ++ replicate n b ++ y.

Definition talking (pre post : nat) (vs : list bool) : Prop :=
  ∃ x y, vs = x ++ replicate pre true ++ y ∧ ¬ has_run post false y.

Definition window (n : nat) (b : bool) (vs : list bool) (i : nat) : bool :=
  bool_decide (take n (drop i vs) = replicate n b).

Lemma has_run_window n b vs :
  has_run n b vs ↔ Exists (λ i, window n b vs i) (seq 0 (S (length vs))).
Proof.
  rewrite Exists_exists. split.
  - intros (x & y & ->). exists (length x). split.
    + apply elem_of_seq. rewrite !length_app. lia.
    + unfold window. apply bool_decide_pack.
      by rewrite drop_app_length, take_app_length' by by rewrite length_replicate.
  - intros (i & _ & Hi%bool_decide_unpack). exists (take i vs), (drop n (drop i vs)).
    by rewrite <-Hi, take_drop, take_drop.
Qed.

#[export] Instance has_run_dec n b vs : Decision (has_run n b vs).
Proof.
  refine (cast_if (decide (Exists (λ i, window n b vs i) (seq 0 (S (length vs)))))); by rewrite has_run_window.
Defined.

Lemma talking_windows pre post vs :
  talking pre post vs ↔
  Exists (λ i, window pre true vs i ∧ ¬ has_run post false (drop (i + pre) vs)) (seq 0 (S (length vs))).
Proof.
  rewrite Exists_exists. split.
  - intros (x & y & -> & Hy). exists (length x). split; [|split].
    + apply elem_of_seq. rewrite !length_app. lia.
    + unfold window. apply bool_decide_pack.
      by rewrite drop_app_length, take_app_length' by by rewrite length_replicate.
    + rewrite app_assoc, drop_app_length' by (rewrite length_app, length_replicate; lia). done.
  - intros (i & _ & Hi%bool_decide_unpack & Hn). exists (take i vs), (drop (i + pre) vs).
    split; [|done]. by rewrite <-Hi, <-drop_drop, take_drop, take_drop.
Qed.

#[export] Instance talking_dec pre post vs : Decision (talking pre post vs).
Proof.
  refine (cast_if (decide (Exists
    (λ i, window pre true vs i ∧ ¬ has_run post false (drop (i + pre) vs)) (seq 0 (S (length vs))))));
    by rewrite talking_windows.
Defined.

(** The changes of [talking] along the verdicts [vs] that follow [before]. *)
Fixpoint changes (pre post : nat) (before vs : list bool) : list string :=
  match vs with
  | [] => []
  | v :: vs =>
      (match bool_decide (talking pre post before), bool_decide (talking pre post (before ++ [v])) with
       | false, true => [SignalVadUserSpeechStart]
       | true, false => [SignalVadUserSpeechEnd]
       | _, _ => []
       end) ++ changes pre post (before ++ [v]) vs
  end.

(** *** The last run *)
Fixpoint lead (b : bool) (l : list bool) : nat :=
  match l with x :: l => if Bool.eqb x b then S (lead b l) else 0 | [] => 0 end.
Definition trail (b : bool) (vs : list bool) : nat := lead b (reverse vs).

Lemma trail_same b vs : trail b (vs ++ [b]) = S (trail b vs).
Proof. unfold trail. rewrite reverse_snoc. simpl. by rewrite Bool.eqb_reflx. Qed.
Lemma trail_other b vs : trail b (vs ++ [negb b]) = 0.
Proof. unfold trail. rewrite reverse_snoc. simpl. by destruct b. Qed.

Lemma replicate_snoc {A} n (x : A) : replicate (S n) x = replicate n x ++ [x].
Proof. rewrite <-replicate_cons_app. done. Qed.

Lemma trail_spec b vs n : n ≤ trail b vs ↔ ∃ x, vs = x ++ replicate n b.
Proof.
  revert n. induction vs as [|v vs IH] using rev_ind; intros n.
  - change (trail b []) with 0. split.
    + intros Hn. exists []. by replace n with 0 by lia.
    + intros (x & Hx). symmetry in Hx. apply app_nil in Hx as [_ Hx].
      destruct n; [lia|done].
  - destruct n as [|n]; [split; [|lia]; exists (vs ++ [v]); by rewrite app_nil_r|].
    destruct (decide (v = b)) as [->|Hv].
    + rewrite trail_same. setoid_rewrite replicate_snoc.
      split.
      * intros Hn. destruct (proj1 (IH n)) as [x ->]; [lia|]. exists x. by rewrite app_assoc.
      * intros (x & Hx). rewrite app_assoc in Hx. apply app_inj_tail in Hx as [Hx _].
        apply le_n_S, IH. eauto.
    + assert (v = negb b) as -> by by destruct v, b.
      rewrite trail_other. setoid_rewrite replicate_snoc. split; [lia|].
      intros (x & Hx). rewrite app_assoc in Hx. apply app_inj_tail in Hx as [_ Hx]. by destruct b.
Qed.

(** A run does not reach past a different verdict. *)
Lemma run_stays b n x y z :
  x ++ negb b :: y = z ++ replicate n b → ∃ u, y = u ++ replicate n b.
Proof.
  revert y. induction n as [|n IH]; intros y E; [exists y; by rewrite app_nil_r|].
  rewrite replicate_snoc, app_assoc in E. destruct y as [|w y _] using rev_ind.
  - apply app_inj_tail in E as [_ E]. by destruct b.
  - rewrite app_comm_cons, app_assoc in E. apply app_inj_tail in E as [E ->].
    destruct (IH _ E) as [u ->]. exists u. by rewrite replicate_snoc, app_assoc.
Qed.

(** *** One more verdict *)
Lemma has_run_snoc n b vs v :
  has_run (S n) b (vs ++ [v]) ↔ has_run (S n) b vs ∨ ∃ x, vs ++ [v] = x ++ replicate (S n) b.
Proof.
  split.
  - intros (x & y & E). destruct y as [|w y _] using rev_ind.
    + right. exists x. by rewrite app_nil_r in E.
    + left. rewrite !app_assoc in E. apply app_inj_tail in E as [-> _].
      exists x, y. by rewrite app_assoc.
  - intros [(x & y & ->)|(x & ->)].
    + exists x, (y ++ [v]). by rewrite !app_assoc.
    + exists x, []. by rewrite app_nil_r.
Qed.

Lemma talking_speech pre post vs :
  0 < pre → 0 < post →
  talking pre post (vs ++ [true]) ↔ talking pre post vs ∨ pre ≤ trail true (vs ++ [true]).
Proof.
  intros Hpre Hpost. destruct post as [|post]; [lia|]. split.
  - intros (x & y & E & Hy). destruct y as [|w y _] using rev_ind.
    + right. apply trail_spec. exists x. by rewrite app_nil_r in E.
    + left. rewrite !app_assoc in E. apply app_inj_tail in E as [-> <-]. exists x, y.
      split; [by rewrite app_assoc|]. rewrite has_run_snoc in Hy. tauto.
  - intros [(x & y & -> & Hy)|(x & E)%trail_spec].
    + exists x, (y ++ [true]). rewrite !app_assoc. split; [done|].
      rewrite has_run_snoc. intros [?|(z & Hz)]; [done|].
      rewrite replicate_snoc, app_assoc in Hz. by apply app_inj_tail in Hz as [_ Hz].
    + exists x, []. rewrite app_nil_r. split; [done|]. intros (a & b & Hab).
      symmetry in Hab. apply app_nil in Hab as [_ [Hab _]%app_nil]. done.
Qed.

Lemma talking_silence pre post vs :
  0 < pre → 0 < post →
  talking pre post (vs ++ [false]) ↔ talking pre post vs ∧ trail false (vs ++ [false]) < post.
Proof.
  intros Hpre Hpost. destruct pre as [|pre]; [lia|]. destruct post as [|post]; [lia|]. split.
  - intros (x & y & E & Hy). destruct y as [|w y _] using rev_ind.
    { rewrite app_nil_r, replicate_snoc, app_assoc in E. by apply app_inj_tail in E as [_ E]. }
    assert (vs ++ [false] = (x ++ replicate (S pre) true) ++ y ++ [w]) as E' by by rewrite E, app_assoc.
    rewrite !app_assoc in E. apply app_inj_tail in E as [Evs <-]. split.
    + exists x, y. split; [by rewrite app_assoc|]. rewrite has_run_snoc in Hy. tauto.
    + apply Nat.nle_gt. intros (z & Hz)%trail_spec. apply Hy. rewrite Hz in E'.
      rewrite (replicate_snoc pre), (app_assoc x), <-(app_assoc (x ++ _) [true]) in E'. symmetry in E'.
      destruct (run_stays false _ _ _ _ E') as [u Hu]. exists u, []. by rewrite Hu, app_nil_r.
  - intros [(x & y & -> & Hy) Ht]. exists x, (y ++ [false]). rewrite !app_assoc. split; [done|].
    rewrite has_run_snoc. intros [?|(z & Hz)]; [done|].
    apply (Nat.lt_irrefl (S post)). eapply Nat.le_lt_trans; [|exact Ht]. apply trail_spec.
    exists (x ++ replicate (S pre) true ++ z). rewrite <-!app_assoc. by rewrite <-Hz.
Qed.

(** ** The plugin follows the definition *)
Lemma sample_at_total frame i : i * 2 + 1 < length frame → is_Some (sample_at frame i).
Proof.
  intros Hi. unfold sample_at.
  destruct (lookup_lt_is_Some_2 frame (i * 2)) as [b0 ->]; [lia|].
  destruct (lookup_lt_is_Some_2 frame (i * 2 + 1)) as [b1 ->]; [lia|]. by eexists.
Qed.

Lemma byteFrameToInt16_total frame dst :
  length dst * 2 ≤ length frame →
  ∃ samples, byteFrameToInt16 frame dst = Some samples ∧ length samples = length dst.
Proof.
  intros Hl. destruct (proj2 (mapM_is_Some (sample_at frame) (seq 0 (length dst)))) as [samples Hs].
  { apply Forall_forall. intros i Hi%elem_of_seq. apply sample_at_total. lia. }
  exists samples. split; [done|]. apply length_mapM in Hs. by rewrite length_seq in Hs.
Qed.

Lemma byteFrameToInt16_length frame dst dst' :
  length dst = length dst' → byteFrameToInt16 frame dst = byteFrameToInt16 frame dst'.
Proof. unfold byteFrameToInt16. by intros ->. Qed.

Definition sent_signal (e : flow_event) : option Named.object :=
  match e with SendSignal s => Some s | _ => None end.
Definition sent_audio (e : flow_event) : option audio_frame :=
  match e with SendAudio a => Some a | _ => None end.

Section proofs.
Context {V : Type} `{!Processor V}.
Implicit Types p : Plugin V.

(** The verdicts of a detector on the frames, those with an error left out. *)
Fixpoint verdicts (samples : nat) (v : V) (frames : list (list Z)) : list bool :=
  match frames with
  | [] => []
  | f :: frames =>
      match byteFrameToInt16 f (replicate samples 0%Z) with
      | None => []
      | Some s =>
          let '(v, r) := Process v s in
          (match r with Ok (_, b) => [b] | Err _ => [] end) ++ verdicts samples v frames
      end
  end.

Fixpoint run_frames p (frames : list (list Z)) : option (Plugin V * list flow_event) :=
  match frames with
  | [] => Some (p, [])
  | f :: frames =>
      '(p, out) ← processFrame p f;
      '(p, out') ← run_frames p frames;
      Some (p, out ++ out')
  end.

Definition signals (names : list string) : list flow_event := (λ n, SendSignal (new_signal n)) <$> names.

(** The counters after the verdicts [vs]. *)
Record counts_ok (pre post : nat) (vs : list bool) p : Prop := {
  co_pre : preSpeechFrames p = Z.of_nat pre;
  co_post : postSpeechFrames p = Z.of_nat post;
  co_speech : speechFrames p = Z.of_nat (trail true vs);
  co_silence : silenceFrames p = if speaking p then Z.of_nat (trail false vs) else 0%Z;
  co_speaking : speaking p = bool_decide (talking pre post vs);
}.

Lemma onVerdict_ok pre post vs p b :
  0 < pre → 0 < post → counts_ok pre post vs p →
  counts_ok pre post (vs ++ [b]) (onVerdict p b).1 ∧
  (onVerdict p b).2 = signals (changes pre post vs [b]).
Proof.
  intros Hpre Hpost [Cpre Cpost Csp Csi Cs]. cbn [changes]. rewrite app_nil_r, <-Cs.
  assert (bool_decide (talking pre post (vs ++ [b])) =
    if b then speaking p || bool_decide (pre ≤ S (trail true vs))
    else speaking p && bool_decide (S (trail false vs) < post)) as Ht.
  { rewrite Cs. destruct b.
    - rewrite <-trail_same, <-bool_decide_or. apply bool_decide_ext. by apply talking_speech.
    - rewrite <-trail_same, <-bool_decide_and. apply bool_decide_ext. by apply talking_silence. }
  assert (trail (negb b) (vs ++ [b]) = 0) as Hz by (rewrite <-(negb_involutive b) at 2; apply trail_other).
  rewrite Ht. unfold onVerdict. destruct b; simpl in Hz; [|destruct (speaking p) eqn:Hp]; simpl.
  - replace (bool_decide (preSpeechFrames p ≤ speechFrames p + 1)%Z)
      with (bool_decide (pre ≤ S (trail true vs))) by (apply bool_decide_ext; lia).
    destruct (speaking p) eqn:Hp, (bool_decide (pre ≤ S (trail true vs))) eqn:Hb; simpl.
    all: split; [split; simpl; rewrite ?trail_same, ?Ht, ?Hp, ?Hz; try first [lia|done]|done].
  - destruct (decide (postSpeechFrames p ≤ silenceFrames p + 1)%Z);
      [rewrite (bool_decide_false (S _ < _)) in * by lia|rewrite (bool_decide_true (S _ < _)) in * by lia].
    all: simpl in *; split; [split; simpl; rewrite ?trail_same, ?Ht, ?Hp, ?Hz; try first [lia|done]|done].
  - split; [split; simpl; rewrite ?Ht, ?Hp, ?Hz; first [lia|done]|done].
Qed.

(** A started plugin can take frames of its size. *)
Record started p (v : V) : Prop := {
  st_vad : vad p = Some v;
  st_frame : 0 < frameBytes p;
  st_samples : length (sampleBuf p) * 2 ≤ frameBytes p;
}.

(** What frames leave alone. *)
Definition same_framing p p' : Prop :=
  frameBytes p' = frameBytes p ∧ frameBuf p' = frameBuf p ∧
  length (sampleBuf p') = length (sampleBuf p).

Lemma onVerdict_framing p b :
  same_framing p (onVerdict p b).1 ∧ vad (onVerdict p b).1 = vad p.
Proof. unfold onVerdict. repeat (case_match; try done). Qed.

Lemma changes_app pre post before vs ws :
  changes pre post before (vs ++ ws) = changes pre post before vs ++ changes pre post (before ++ vs) ws.
Proof.
  revert before. induction vs as [|v vs IH]; intros before; simpl; [by rewrite app_nil_r|].
  by rewrite IH, <-!app_assoc.
Qed.

Lemma processFrame_ok pre post vs p v f :
  0 < pre → 0 < post → counts_ok pre post vs p → started p v → length f = frameBytes p →
  ∃ samples r v' p' b,
    byteFrameToInt16 f (sampleBuf p) = Some samples ∧ Process v samples = (v', r) ∧
    b = (match r with Ok (_, b) => [b] | Err _ => [] end) ∧
    processFrame p f = Some (p', signals (changes pre post vs b)) ∧
    counts_ok pre post (vs ++ b) p' ∧ started p' v' ∧ same_framing p p'.
Proof.
  intros Hpre Hpost Hc [Hv Hn Hs] Hf.
  destruct (byteFrameToInt16_total f (sampleBuf p)) as (samples & Hb & Hl); [lia|].
  destruct (Process v samples) as [v' r] eqn:Hr.
  assert (counts_ok pre post vs (with_vad p (Some v') samples)) as Hc' by by destruct Hc.
  exists samples, r, v'. unfold processFrame. rewrite Hb, Hv. simpl. rewrite Hr.
  destruct r as [[q b]|e].
  - destruct (onVerdict_ok _ _ _ _ b Hpre Hpost Hc') as [Ho He].
    destruct (onVerdict_framing (with_vad p (Some v') samples) b) as [(F1 & F2 & F3) F4].
    destruct (onVerdict (with_vad p (Some v') samples) b) as [p' out]. simpl in *. subst out.
    exists p', [b]. split_and!; [done..| | ].
    + split; [done|by rewrite F1|by rewrite F1, F3, Hl].
    + split_and!; [done..|by rewrite F3].
  - exists (with_vad p (Some v') samples), []. rewrite app_nil_r. split_and!; [done..| |].
    + split; [done..|]. simpl. lia.
    + by split_and!.
Qed.

Lemma run_frames_ok pre post vs p v frames :
  0 < pre → 0 < post → counts_ok pre post vs p → started p v →
  Forall (λ f, length f = frameBytes p) frames →
  let ws := verdicts (length (sampleBuf p)) v frames in
  ∃ p' v', run_frames p frames = Some (p', signals (changes pre post vs ws)) ∧
    counts_ok pre post (vs ++ ws) p' ∧ started p' v' ∧ same_framing p p'.
Proof.
  intros Hpre Hpost. revert vs p v.
  induction frames as [|f frames IH]; intros vs p v Hc Hs Hf; simpl.
  { exists p, v. rewrite app_nil_r. by split_and!. }
  inversion_clear Hf as [|?? Hlen Hf'].
  destruct (processFrame_ok _ _ _ _ _ f Hpre Hpost Hc Hs Hlen)
    as (samples & r & v1 & p1 & b & Hb & Hr & Eb & -> & Hc1 & Hs1 & F1 & F2 & F3).
  rewrite (byteFrameToInt16_length _ (replicate _ _) (sampleBuf p)) by by rewrite length_replicate.
  rewrite Hb, Hr, <-Eb. simpl.
  destruct (IH _ _ _ Hc1 Hs1) as (p2 & v2 & Hrun & Hc2 & Hs2 & G1 & G2 & G3); [by rewrite F1|].
  rewrite F3 in Hrun, Hc2. exists p2, v2. rewrite Hrun. simpl. split_and!.
  - unfold signals. by rewrite changes_app, fmap_app.
  - by rewrite app_assoc.
  - done.
  - unfold same_framing. split_and!; congruence.
Qed.

Lemma processFrame_frameBuf p b f :
  processFrame (with_frameBuf p b) f =
  (λ r, (with_frameBuf r.1 b, r.2)) <$> processFrame p f.
Proof.
  unfold processFrame. simpl. destruct (byteFrameToInt16 f (sampleBuf p)) as [samples|]; [|done].
  simpl. destruct (vad p) as [v|]; [|done]. simpl. destruct (Process v samples) as [v' [[q b']|e]]; [|done].
  unfold onVerdict. simpl. repeat (case_match; try done).
Qed.

Lemma run_frames_frameBuf p b frames :
  run_frames (with_frameBuf p b) frames =
  (λ r, (with_frameBuf r.1 b, r.2)) <$> run_frames p frames.
Proof.
  revert p. induction frames as [|f frames IH]; intros p; [done|]. simpl.
  rewrite processFrame_frameBuf. destruct (processFrame p f) as [[p1 out]|]; [|done]. simpl.
  rewrite IH. by destruct (run_frames p1 frames) as [[p2 out']|].
Qed.

Lemma with_frameBuf_twice p b c : with_frameBuf (with_frameBuf p b) c = with_frameBuf p c.
Proof. done. Qed.

Lemma processFrame_framing p f p' out :
  processFrame p f = Some (p', out) → frameBytes p' = frameBytes p ∧ frameBuf p' = frameBuf p.
Proof.
  unfold processFrame. destruct (byteFrameToInt16 f (sampleBuf p)) as [samples|]; [|done]. simpl.
  destruct (vad p) as [v|]; [|done]. simpl. destruct (Process v samples) as [v' [[q b]|e]]; [|by intros [= <- <-]].
  intros [= E]. destruct (onVerdict_framing (with_vad p (Some v') samples) b) as [(F1 & F2 & _) _].
  by rewrite E in F1, F2.
Qed.

Lemma run_frames_framing p frames p' out :
  run_frames p frames = Some (p', out) → frameBytes p' = frameBytes p ∧ frameBuf p' = frameBuf p.
Proof.
  revert p out. induction frames as [|f frames IH]; intros p out; simpl; [by intros [= <- <-]|].
  destruct (processFrame p f) as [[p1 o1]|] eqn:E1; [|done]. simpl.
  destruct (run_frames p1 frames) as [[p2 o2]|] eqn:E2; [|done]. simpl. intros [= <- <-].
  apply processFrame_framing in E1. apply IH in E2. intuition congruence.
Qed.

(** [bs] is cut into [frames] of [n] bytes and a shorter [rest]. *)
Definition cut (n : nat) (bs : list Z) (frames : list (list Z)) (rest : list Z) : Prop :=
  bs = concat frames ++ rest ∧ Forall (λ f, length f = n) frames ∧ length rest < n.

Lemma frames_loop_run fuel p rest :
  0 < frameBytes p → length rest ≤ fuel →
  ∃ frames rest', cut (frameBytes p) rest frames rest' ∧
    frames_loop fuel p rest = (λ r, (r, rest')) <$> run_frames p frames.
Proof.
  revert p rest. induction fuel as [|fuel IH]; intros p rest Hn Hl.
  { exists [], rest. split; [|done]. split_and!; [done..|lia]. }
  simpl. case_decide as Hc.
  2:{ exists [], rest. split; [|done]. split_and!; [done..|lia]. }
  destruct (processFrame p (take (frameBytes p) rest)) as [[p1 o1]|] eqn:E1.
  - destruct (processFrame_framing _ _ _ _ E1) as [F _].
    destruct (IH p1 (drop (frameBytes p) rest)) as (frames & rest' & (Hd & Hf & Hr) & Hrun);
      [lia|rewrite length_drop; lia|].
    exists (take (frameBytes p) rest :: frames), rest'. simpl. rewrite E1. simpl. rewrite F, Hrun. split.
    + split_and!; [simpl; by rewrite <-app_assoc, <-Hd, take_drop| |lia].
      constructor; [rewrite length_take; lia|by rewrite <-F].
    + by destruct (run_frames p1 frames) as [[p2 o2]|].
  - (* the first frame panics, and with it the loop *)
    destruct (IH (with_frameBuf p []) (drop (frameBytes p) rest)) as (frames & rest' & (Hd & Hf & Hr) & _);
      [done|rewrite length_drop; lia|].
    exists (take (frameBytes p) rest :: frames), rest'. simpl. rewrite E1. split; [|done].
    split_and!; [simpl; by rewrite <-app_assoc, <-Hd, take_drop| |done].
    constructor; [rewrite length_take; lia|done].
Qed.

Lemma processAudio_run p data :
  length (frameBuf p) < frameBytes p →
  ∃ frames rest, cut (frameBytes p) (frameBuf p ++ data) frames rest ∧
    processAudio p data = (λ r, (with_frameBuf r.1 rest, r.2)) <$> run_frames p frames.
Proof.
  intros Hl. unfold processAudio. case_decide as Hb.
  - set (need := min (frameBytes p - length (frameBuf p)) (length data)).
    set (buf := frameBuf p ++ take need data).
    assert (length buf = length (frameBuf p) + need) as Hbuf
      by (unfold buf; rewrite length_app, length_take; lia).
    simpl. case_decide as Hfull.
    + rewrite processFrame_frameBuf.
      destruct (frames_loop_run (length (drop need data)) (with_frameBuf p []) (drop need data))
        as (fs0 & rest0 & Hcut0 & _); [simpl; lia|done|].
      destruct (processFrame p buf) as [[p1 o1]|] eqn:E1; simpl.
      * destruct (processFrame_framing _ _ _ _ E1) as [F _].
        destruct (frames_loop_run (length (drop need data)) (with_frameBuf p1 []) (drop need data))
          as (frames & rest & (Hd & Hf & Hr) & Hrun); [simpl; lia|done|].
        simpl in Hf, Hr. rewrite F in Hf, Hr. rewrite with_frameBuf_twice, Hrun, run_frames_frameBuf.
        exists (buf :: frames), rest. simpl. rewrite E1. split.
        -- split_and!; [|by constructor|done].
           simpl. rewrite <-app_assoc, <-Hd. unfold buf. by rewrite <-app_assoc, take_drop.
        -- simpl. destruct (run_frames p1 frames) as [[p2 o2]|]; [|done]. simpl.
           case_decide; [done|]. by destruct rest; [|simpl in *; lia].
      * destruct Hcut0 as (Hd & Hf & Hr). exists (buf :: fs0), rest0. simpl. rewrite E1. split; [|done].
        split_and!; [|by constructor|done].
        simpl. rewrite <-app_assoc, <-Hd. unfold buf. by rewrite <-app_assoc, take_drop.
    + exists [], buf. assert (need = length data) as Hneed by lia. split.
      * split_and!; [|done|lia]. unfold buf. by rewrite Hneed, firstn_all.
      * rewrite Hneed, drop_all. simpl. done.
  - destruct (frameBuf p) as [|] eqn:Ebuf; [|simpl in Hb; lia]. simpl.
    destruct (frames_loop_run (length data) p data) as (frames & rest & Hcut & Hrun); [simpl in *; lia|done|].
    exists frames, rest. split; [done|]. rewrite Hrun.
    destruct (run_frames p frames) as [[p' out]|] eqn:E; [|done]. simpl.
    destruct (run_frames_framing _ _ _ _ E) as [_ F]. rewrite F, Ebuf. simpl.
    case_decide; [done|]. destruct rest; [|simpl in *; lia].
    rewrite Ebuf in F. clear -F. destruct p'; simpl in *. by subst.
Qed.

Lemma omap_signals names : omap sent_signal (signals names) = new_signal <$> names.
Proof. induction names as [|n names IH]; [done|]. cbn. by f_equal. Qed.
Lemma omap_no_audio names : omap sent_audio (signals names) = [].
Proof. by induction names. Qed.

Lemma cut_app n bs cs frames rest frames' rest' :
  cut n bs frames rest → cut n (rest ++ cs) frames' rest' → cut n (bs ++ cs) (frames ++ frames') rest'.
Proof.
  intros (-> & H1 & _) (E & H2 & Hr). split_and!; [|by apply Forall_app|done].
  by rewrite concat_app, <-app_assoc, E, app_assoc.
Qed.

Lemma verdicts_app pre post vs p v frames frames' p' out v' :
  0 < pre → 0 < post → counts_ok pre post vs p → started p v →
  Forall (λ f, length f = frameBytes p) frames →
  run_frames p frames = Some (p', out) → vad p' = Some v' →
  verdicts (length (sampleBuf p)) v (frames ++ frames') =
  verdicts (length (sampleBuf p)) v frames ++ verdicts (length (sampleBuf p)) v' frames'.
Proof.
  intros Hpre Hpost. revert vs p v p' out.
  induction frames as [|f frames IH]; intros vs p v p' out Hc Hs Hf; simpl.
  { intros [= <- <-]. destruct Hs as [-> _ _]. by intros [= ->]. }
  inversion_clear Hf as [|?? Hlen Hf'].
  destruct (processFrame_ok _ _ _ _ _ f Hpre Hpost Hc Hs Hlen)
    as (samples & r & v1 & p1 & b & Hb & Hr & Eb & -> & Hc1 & Hs1 & F1 & F2 & F3).
  rewrite (byteFrameToInt16_length _ (replicate _ _) (sampleBuf p)) by by rewrite length_replicate.
  rewrite Hb, Hr, <-Eb. simpl.
  destruct (run_frames p1 frames) as [[p2 o2]|] eqn:E; [|done]. intros [= <- <-] Hv.
  rewrite <-app_assoc, <-F3. f_equal. eapply IH; eauto. by rewrite F1.
Qed.

(** The plugin after any audio: the verdicts so far and the bytes that wait. *)
Lemma on_audios_ok pre post vs p v audios :
  0 < pre → 0 < post → counts_ok pre post vs p → started p v →
  length (frameBuf p) < frameBytes p →
  ∃ p' out frames rest,
    on_audios p audios = Some (p', out) ∧
    cut (frameBytes p) (frameBuf p ++ (audios ≫= frame_bytes)) frames rest ∧
    let ws := verdicts (length (sampleBuf p)) v frames in
    omap sent_signal out = new_signal <$> changes pre post vs ws ∧
    omap sent_audio out = audios ∧ counts_ok pre post (vs ++ ws) p' ∧ frameBuf p' = rest.
Proof.
  intros Hpre Hpost. revert vs p v.
  induction audios as [|a audios IH]; intros vs p v Hc Hs Hl.
  { exists p, [], [], (frameBuf p). simpl. rewrite !app_nil_r. by split_and!. }
  destruct (processAudio_run p (frame_bytes a) Hl) as (frames1 & rest1 & Hcut1 & Hp).
  destruct (run_frames_ok _ _ _ _ _ frames1 Hpre Hpost Hc Hs) as (p1 & v1 & Hrun & Hc1 & Hs1 & G1 & G2 & G3);
    [apply Hcut1|].
  destruct (IH (vs ++ verdicts (length (sampleBuf p)) v frames1) (with_frameBuf p1 rest1) v1)
    as (p2 & out2 & frames2 & rest2 & Hrun2 & Hcut2 & Hsig & Haud & Hc2 & Hb2).
  { by destruct Hc1. } { by destruct Hs1. } { simpl. rewrite G1. apply Hcut1. }
  simpl in Hcut2, Hsig, Hc2. rewrite G3 in Hsig, Hc2. rewrite G1 in Hcut2.
  assert (verdicts (length (sampleBuf p)) v (frames1 ++ frames2) =
    verdicts (length (sampleBuf p)) v frames1 ++ verdicts (length (sampleBuf p)) v1 frames2) as Hv.
  { apply (verdicts_app pre post vs p v frames1 frames2 _ _ v1 Hpre Hpost Hc Hs (proj1 (proj2 Hcut1)) Hrun).
    by destruct Hs1. }
  rewrite Hrun in Hp. unfold OnAudio. simpl on_audios. unfold OnAudio. rewrite Hp. simpl. rewrite Hrun2. simpl.
  do 2 eexists. exists (frames1 ++ frames2), rest2. split; [done|]. split.
  { rewrite app_assoc. by eapply cut_app. }
  rewrite Hv. cbn zeta. rewrite changes_app, fmap_app, app_assoc. split_and!; [| |done..].
  - rewrite !omap_app, omap_signals, Hsig. simpl. by rewrite app_nil_r.
  - rewrite !omap_app, omap_no_audio, Haud. done.
Qed.
End proofs.

(** ** Configuration *)
Lemma normalizeConfig_frame c :
  (0 < FrameBytes (normalizeConfig c))%Z ∧ Z.rem (FrameBytes (normalizeConfig c)) 2 = 0%Z.
Proof. unfold normalizeConfig. simpl. case_decide; [done|]. split; lia. Qed.

Lemma durationToFrames_pos ms : (0 < durationToFrames ms)%Z.
Proof. unfold durationToFrames. case_decide; lia. Qed.

(** The number of frames is the duration divided by 16 ms, rounded up, as
    long as the sum does not overflow; beyond that a single frame is enough. *)
Lemma durationToFrames_ceil ms :
  (0 < ms ≤ 2 ^ 63 - 16)%Z →
  (16 * (durationToFrames ms - 1) < ms ≤ 16 * durationToFrames ms)%Z.
Proof.
  intros H. unfold durationToFrames, defaultFrameDurationMs.
  rewrite int64_small, Z.quot_div_nonneg by lia. case_decide; Z.to_euclidean_division_equations; lia.
Qed.

Lemma durationToFrames_overflow : durationToFrames (2 ^ 63 - 15) = 1%Z.
Proof. vm_compute. reflexivity. Qed.

(** ** The property *)

(** C32: The plugin reports speech as defined.  After any audio in chunks of
    any sizes, a started plugin has not failed, has forwarded every audio
    object in order, and has sent exactly the changes of [talking] along the
    verdicts of the detector on the consecutive frames of the stream, which
    do not depend on the chunks; the remaining bytes wait for the next
    chunk.  [pre] and [post] are the configured durations in frames. *)
Theorem vad_reports_speech {V} `{!Processor V} config newVad p audios :
  (∀ hop threshold v, newVad hop threshold = Ok v → FrameSize v = hop) →
  OnStart newVad (NewPlugin config) = Ok p →
  let c := normalizeConfig config in
  let pre := Z.to_nat (durationToFrames (MinSpeechDurationMs c)) in
  let post := Z.to_nat (durationToFrames (MinSilenceDurationMs c)) in
  let n := Z.to_nat (FrameBytes c) in
  ∃ v p' out frames rest,
    vad p = Some v ∧ on_audios p audios = Some (p', out) ∧
    (audios ≫= frame_bytes) = concat frames ++ rest ∧
    Forall (λ f, length f = n) frames ∧ length rest < n ∧ frameBuf p' = rest ∧
    omap sent_audio out = audios ∧
    omap sent_signal out = new_signal <$> changes pre post [] (verdicts (n / 2) v frames) ∧
    speaking p' = bool_decide (talking pre post (verdicts (n / 2) v frames)).
Proof.
  intros Hnew Hstart c pre post n. unfold OnStart in Hstart.
  destruct (newVad _ _) as [v|] eqn:Hv; [|done]. injection Hstart as <-.
  apply Hnew in Hv. simpl in Hv. fold c n in Hv.
  destruct (normalizeConfig_frame config) as [Hpos Hrem]. fold c in Hpos, Hrem.
  assert (0 < pre ∧ 0 < post) as [Hpre Hpost].
  { unfold pre, post. pose proof (durationToFrames_pos (MinSpeechDurationMs c)).
    pose proof (durationToFrames_pos (MinSilenceDurationMs c)). lia. }
  assert (Z.to_nat (FrameSize v) = n / 2) as Hsize.
  { rewrite Hv, Z.quot_div_nonneg by lia. change 2%Z with (Z.of_nat 2).
    by rewrite <-Nat2Z.inj_div, Nat2Z.id. }
  assert (n / 2 * 2 ≤ n) by (pose proof (Nat.div_mod_eq n 2); lia).
  destruct (on_audios_ok pre post [] (with_vad (NewPlugin config) (Some v) (replicate (Z.to_nat (FrameSize v)) 0%Z))
    v audios Hpre Hpost) as (p' & out & frames & rest & Hrun & (Hd & Hf & Hr) & Hsig & Haud & Hc & Hb).
  - pose proof (durationToFrames_pos (MinSpeechDurationMs c)).
    pose proof (durationToFrames_pos (MinSilenceDurationMs c)).
    split; [| |done|done|].
    { change (durationToFrames (MinSpeechDurationMs c) = Z.of_nat pre). unfold pre. lia. }
    { change (durationToFrames (MinSilenceDurationMs c) = Z.of_nat post). unfold post. lia. }
    symmetry. apply bool_decide_false. intros (x & y & E & _). symmetry in E.
    apply app_nil in E as [_ [E _]%app_nil]. apply (f_equal length) in E.
    rewrite length_replicate in E. simpl in E. lia.
  - split; [done|change (0 < n); lia|]. cbn [with_vad sampleBuf]. rewrite length_replicate.
    change (Z.to_nat (FrameSize v) * 2 ≤ n). lia.
  - change (0 < n). lia.
  - simpl in Hsig, Hc. rewrite length_replicate, Hsize in Hsig, Hc.
    exists v, p', out, frames, rest. split_and!; [done..|]. apply Hc.
Qed.

(** ** Example: a detector of loud frames *)
Definition loud_create (hop : Z) (threshold : float32) : Z * option unit := (0%Z, Some ()).
Definition loud_process (i : unit) (samples : list Z) : unit * (Z * float32 * Z) :=
  (i, (0%Z, float_zero, if decide (Exists (λ s, 100 < s)%Z samples) then 1%Z else 0%Z)).
#[local] Instance loud_vad : Processor (@Vad unit) := Vad_Processor loud_process.

Definition demo_config : Config := mkConfig defaultThreshold 32 48 4.
Definition demo_audio (bytes : list Z) : audio_frame := mkFrame "audio" 16000 1 bytes.
(** Two loud frames, four silent ones and an incomplete one, in odd chunks. *)
Definition demo_audios : list audio_frame :=
  demo_audio <$> [[0; 1; 0]; [1; 0; 1; 0; 1; 0]; []; replicate 14 0; [0; 0; 0]]%Z.

Lemma vad_reports_speech_witness :
  ∃ p p' out, OnStart (NewVad loud_create) (NewPlugin (Some demo_config)) = Ok p ∧
    on_audios p demo_audios = Some (p', out) ∧
    omap sent_audio out = demo_audios ∧ length (frameBuf p') < 4 ∧
    omap sent_signal out = new_signal <$> [SignalVadUserSpeechStart; SignalVadUserSpeechEnd].
Proof.
  destruct (OnStart (NewVad loud_create) (NewPlugin (Some demo_config))) as [p|] eqn:E;
    [|vm_compute in E; discriminate E].
  destruct (vad_reports_speech (Some demo_config) (NewVad loud_create) p demo_audios)
    as (v & p' & out & frames & rest & _ & Hrun & _ & _ & Hr & Hb & Ha & _).
  - intros hop threshold v. apply (NewVad_FrameSize loud_create loud_process).
  - exact E.
  - exists p, p', out. split; [reflexivity|]. split; [exact Hrun|]. split; [exact Ha|].
    split; [rewrite Hb; exact Hr|].
    assert (option_map (λ r : Plugin (@Vad unit) * list flow_event, omap sent_signal r.2) (on_audios p demo_audios) =
      Some (new_signal <$> [SignalVadUserSpeechStart; SignalVadUserSpeechEnd])) as H.
    { vm_compute in E. injection E as <-. vm_compute. reflexivity. }
    rewrite Hrun in H. injection H as H. exact H.
Defined.
