(* ===== verification/Realtime.v ===== *)
(** * Realtime clients: biz/realtime and the deliveries of workflow.go

    A client of a session speaks the packet protocol over a WebSocket
    (socket.go) or a gRPC stream (grpc.go): its audio goes to the head node
    of the workflow, the workflow's output goes to the client.  A session
    has one client at a time; a client that leaves pauses the workflow and
    the next one resumes it.  The model is the workflow machine of
    [Lifecycle] with the goroutines of any number of clients, one label per
    atomic step. *)

From S2P Require Import Prelude GoSlice Protocol Property EngineTypes Graph Chan Node.
From S2P Require Import Workflow Lifecycle EngineSession.

(** ** Delivery to a node ([SendToHead], [SendToNode], [SendToNodeWithName]) *)
Inductive deliver_error :=
| NotRunning (st : WorkflowState)
| NoHeadDefined
| NodeIDNotFound (id : string)
| NodeNameNotFound (name : string).

Definition ensureRunning (st : WorkflowState) : result deliver_error unit :=
  if decide (st = WorkflowStateRunning) then Ok tt else Err (NotRunning st).

Section delivery.
Context {P : Type}.

(** The node whose [Input] is called. *)
Definition deliverTo (w : @Workflow P) (nodeID : string) : result deliver_error nat :=
  match indexMap w !! nodeID with None => Err (NodeIDNotFound nodeID) | Some idx => Ok idx end.

Definition SendToHead (st : WorkflowState) (w : @Workflow P) : result deliver_error nat :=
  let? _ := ensureRunning st in
  let headID := Head (GConfig (graph w)) in
  if decide (headID = "") then Err NoHeadDefined else deliverTo w headID.

Definition SendToNode (st : WorkflowState) (w : @Workflow P) (nodeID : string) : result deliver_error nat :=
  let? _ := ensureRunning st in deliverTo w nodeID.

Definition SendToNodeWithName (st : WorkflowState) (w : @Workflow P) (name : string)
    : result deliver_error nat :=
  let? _ := ensureRunning st in
  match nameMap w !! name with None => Err (NodeNameNotFound name) | Some idx => Ok idx end.
End delivery.

(** ** Messages of a client *)
Inductive client_action := Ignore | ToHead (payload : list Z) | CloseSession.

Definition OpcodeBinary : Z := 2.

Definition on_packet (type : Z) (payload : list Z) : client_action :=
  if decide (type = TypeAudio) then ToHead payload
  else if decide (type = TypeClose) then CloseSession
  else Ignore.

(** [SocketHandler.OnMessage]; [packet] comes from the pool. *)
Definition OnMessage (packet : Packet) (opcode : Z) (body : list Z) : client_action :=
  if decide (opcode ≠ OpcodeBinary) then Ignore
  else match Unmarshal packet body with
       | (p, None) => on_packet (Type_ p) (contents (Protocol.Payload p))
       | (_, Some _) => Ignore
       end.

(** ** Admission ([Handler.Connect], [StreamService.RealtimeStream]) *)
Inductive connect_error :=
| InvalidSessionID | SessionNotFound | SessionNotAvailable | UpgradeFailed | SessionBusy.

Definition workflow_state_of (sm : SessionManager) (sid : nat) : option WorkflowState :=
  s ← sess_heap sm !! sid; w_st <$> wf_heap sm !! SWorkflow s.

Definition Connect (upgrade : bool) (now : Z) (key : option string) (sm : SessionManager)
    : result connect_error nat * SessionManager :=
  match key with
  | None => (Err InvalidSessionID, sm)
  | Some key =>
      match LoadSession now key sm with
      | (None, sm) => (Err SessionNotFound, sm)
      | (Some sid, sm) =>
          let state := workflow_state_of sm sid in
          if decide (state ≠ Some WorkflowStateRunning ∧ state ≠ Some WorkflowStatePaused)
          then (Err SessionNotAvailable, sm)
          else (if upgrade then Ok sid else Err UpgradeFailed, sm)
      end
  end.

(** The part of [RealtimeStream] up to the acquired session. *)
Definition RealtimeStream_admit (now : Z) (key : option string) (sm : SessionManager)
    : result connect_error nat * SessionManager :=
  match key with
  | None => (Err InvalidSessionID, sm)
  | Some key =>
      match LoadSession now key sm with
      | (None, sm) => (Err SessionNotFound, sm)
      | (Some sid, sm) =>
          match Acquire <$> sess_heap sm !! sid with
          | Some (true, s) => (Ok sid, set_session sid s sm)
          | Some (false, _) => (Err SessionBusy, sm)
          | None => (Err SessionNotFound, sm)
          end
      end
  end.

(** ** The clients of one session *)
Inductive transport := WebSocket | Grpc.
#[export] Instance transport_dec : EqDecision transport.
Proof. solve_decision. Defined.

Inductive client_phase :=
| PNew          (** before [Acquire] *)
| PRefused      (** the session was busy; a close frame was sent *)
| PResume       (** acquired; before the test of the workflow's state *)
| PResuming     (** the workflow was seen paused; before [Resume] *)
| POpen
| PRelease      (** about to release the session *)
| PCancel       (** about to cancel the client's context *)
| PPause        (** about to pause the workflow *)
| PDone.

Inductive writer_phase :=
| WTop | WWait          (** before the check, before the [select] *)
| WHold (packet : nat)  (** took [packet] from the output *)
| WLeave                (** the deferred function *)
| WGone.

Record client := mkClient {
  kind : transport;
  cphase : client_phase;
  c_held : bool;
  c_running : bool;
  c_cancelled : bool;     (** the client's context *)
  c_writer : writer_phase;
  c_reading : bool;       (** the gRPC read loop *)
}.

Record world := mkWorld {
  flow : wf;
  session_busy : bool;
  clients : list client;
  sent : list (nat * nat);   (** ghost: written to client [i] and released *)
  undelivered : list nat;    (** ghost: the write failed; released *)
  leaked : list nat;         (** ghost: the write failed; not released *)
}.

Definition new_client (k : transport) : client := mkClient k PNew false false false WGone false.

Definition with_client (w : world) (i : nat) (c : client) : world :=
  mkWorld (flow w) (session_busy w) (<[i := c]> (clients w)) (sent w) (undelivered w) (leaked w).
Definition with_flow (w : world) (f : wf) : world :=
  mkWorld f (session_busy w) (clients w) (sent w) (undelivered w) (leaked w).
Definition with_busy (w : world) (b : bool) : world :=
  mkWorld (flow w) b (clients w) (sent w) (undelivered w) (leaked w).

Definition set_phase (c : client) (p : client_phase) : client :=
  mkClient (kind c) p (c_held c) (c_running c) (c_cancelled c) (c_writer c) (c_reading c).
Definition set_held (c : client) (b : bool) : client :=
  mkClient (kind c) (cphase c) b (c_running c) (c_cancelled c) (c_writer c) (c_reading c).
Definition set_running (c : client) (b : bool) : client :=
  mkClient (kind c) (cphase c) (c_held c) b (c_cancelled c) (c_writer c) (c_reading c).
Definition set_cancelled (c : client) : client :=
  mkClient (kind c) (cphase c) (c_held c) (c_running c) true (c_writer c) (c_reading c).
Definition set_writer (c : client) (wp : writer_phase) : client :=
  mkClient (kind c) (cphase c) (c_held c) (c_running c) (c_cancelled c) wp (c_reading c).
Definition set_reading (c : client) (b : bool) : client :=
  mkClient (kind c) (cphase c) (c_held c) (c_running c) (c_cancelled c) (c_writer c) b.

(** The swaps of [Workflow.Pause] and [Workflow.Resume]. *)
Definition Pause (f : wf) : wf :=
  if decide (wf_state f = WorkflowStateRunning) then w_state f WorkflowStatePaused else f.
Definition Resume (f : wf) : option wf :=
  if decide (wf_state f = WorkflowStatePaused) then Some (w_state f WorkflowStateRunning) else None.

(** The context of a WebSocket client derives from the workflow's, that of a
    gRPC client from the stream's. *)
Definition ctx_done (f : wf) (c : client) : bool :=
  match kind c with
  | WebSocket => c_cancelled c || wf_cancelled f
  | Grpc => c_cancelled c
  end.

Definition start_loops (c : client) : client :=
  set_phase (set_reading (set_writer c (match kind c with WebSocket => WTop | Grpc => WWait end))
    (bool_decide (kind c ≠ WebSocket))) POpen.


(** The swap of [Session.Acquire] succeeds on a session that is not busy. *)
Definition acquired (i : nat) (c : client) (w : world) : world :=
  with_client (with_busy w true) i (set_phase (set_running (set_held c true) true) PResume).
Definition release (i : nat) (c : client) (next : client_phase) (w : world) : world :=
  with_client (if c_held c then with_busy w false else w) i (set_phase (set_held c false) next).
Definition see_paused (i : nat) (c : client) (w : world) : world :=
  with_client w i
    (if decide (wf_state (flow w) = WorkflowStatePaused) then set_phase c PResuming else start_loops c).
Definition pause_flow (i : nat) (c : client) (w : world) : world :=
  with_client (with_flow w (Pause (flow w))) i (set_phase c PDone).

(** The next step of [OnOpen] and of [OnClose] of a WebSocket. *)
Definition socket_next (i : nat) (c : client) (w : world) : option world :=
  match cphase c with
  | PNew => Some (if session_busy w then with_client w i (set_phase c PRefused) else acquired i c w)
  | PResume => Some (see_paused i c w)
  | PResuming =>
      Some (match Resume (flow w) with
            | Some f => with_client (with_flow w f) i (start_loops c)
            | None => with_client w i (start_loops c)
            end)
  | PRelease => Some (release i c PCancel w)
  | PCancel => Some (with_client w i (set_phase (set_cancelled c) PPause))
  | PPause => Some (pause_flow i c w)
  | PRefused | POpen | PDone => None
  end.

(** The next step of [RealtimeStream], which waits in [POpen] for its loops. *)
Definition stream_next (i : nat) (c : client) (w : world) : option world :=
  match cphase c with
  | PNew => Some (if session_busy w then with_client w i (set_phase c PDone) else acquired i c w)
  | PResume => Some (see_paused i c w)
  | PResuming =>
      Some (match Resume (flow w) with
            | Some f => with_client (with_flow w f) i (start_loops c)
            | None => with_client w i (set_phase c PRelease)
            end)
  | POpen =>
      match c_writer c, c_reading c with
      | WGone, false => Some (with_client w i (set_phase (set_cancelled c) PRelease))
      | _, _ => None
      end
  | PRelease => Some (release i c PPause w)
  | PPause => Some (pause_flow i c w)
  | PRefused | PCancel | PDone => None
  end.

Definition client_next (i : nat) (c : client) (w : world) : option world :=
  match kind c with WebSocket => socket_next i c w | Grpc => stream_next i c w end.

(** The socket was closed: the start of [OnClose]. *)
Definition OnClose (i : nat) (c : client) (w : world) : option world :=
  match kind c, cphase c with
  | WebSocket, (POpen | PRefused) => Some (with_client w i (set_phase (set_running c false) PRelease))
  | _, _ => None
  end.

(** What the write loop meets: a ready case of its [select], or the outcome
    of its write. *)
Inductive writer_choice := ChDone | ChOutput | ChWritten | ChFailed | ChGo.

(** Both loops wait for the output or the end of their context. *)
Definition select_output (i : nat) (ch : writer_choice) (c : client) (w : world) : option world :=
  let f := flow w in
  match ch with
  | ChDone => if ctx_done f c then Some (with_client w i (set_writer c WLeave)) else None
  | ChOutput =>
      match recv_case (output f) with
      | Some (p, o) => Some (with_client (with_flow w (w_deliver (w_output f o) p)) i (set_writer c (WHold p)))
      | None => if closed (output f) then Some (with_client w i (set_writer c WLeave)) else None
      end
  | _ => None
  end.

Definition with_packets (w : world) (i : nat) (c : client) (s : list (nat * nat)) (u l : list nat) : world :=
  mkWorld (flow w) (session_busy w) (<[i := c]> (clients w)) s u l.

Definition socket_writeLoop (i : nat) (ch : writer_choice) (c : client) (w : world) : option world :=
  match c_writer c, ch with
  | WTop, ChGo =>
      Some (with_client w i
        (set_writer c (if ctx_done (flow w) c || negb (c_running c) then WLeave else WWait)))
  | WWait, _ => select_output i ch c w
  | WHold p, ChWritten => Some (with_packets w i (set_writer c WTop) ((i, p) :: sent w) (undelivered w) (leaked w))
  | WHold p, ChFailed => Some (with_packets w i (set_writer c WTop) (sent w) (p :: undelivered w) (leaked w))
  | WLeave, ChGo => Some (with_client w i (set_writer c WGone))
  | _, _ => None
  end.

Definition stream_writeLoop (i : nat) (ch : writer_choice) (c : client) (w : world) : option world :=
  match c_writer c, ch with
  | WWait, _ => select_output i ch c w
  | WHold p, ChWritten => Some (with_packets w i (set_writer c WWait) ((i, p) :: sent w) (undelivered w) (leaked w))
  | WHold p, ChFailed => Some (with_packets w i (set_writer c WLeave) (sent w) (undelivered w) (p :: leaked w))
  | WLeave, ChGo => Some (with_client w i (set_writer (set_cancelled c) WGone))
  | _, _ => None
  end.

Definition writeLoop (i : nat) (ch : writer_choice) (c : client) (w : world) : option world :=
  match kind c with WebSocket => socket_writeLoop i ch c w | Grpc => stream_writeLoop i ch c w end.

(** The read loop of a gRPC client: [None] is an error of [Recv] or the
    check of a cancelled context.  [RemoveSession] on a close packet is a
    [Stop] of the workflow machine. *)
Definition readLoop (i : nat) (msg : option client_action) (c : client) (w : world) : option world :=
  if c_reading c then
    Some (match msg with
          | None | Some CloseSession => with_client w i (set_reading (set_cancelled c) false)
          | Some _ => w
          end)
  else None.

Inductive rt_label :=
| CConnect (k : transport)
| CNext (i : nat)
| CClosed (i : nat)
| CWriter (i : nat) (ch : writer_choice)
| CRead (i : nat) (msg : option client_action)
| CStreamDone (i : nat)    (** the context of a gRPC stream ends *)
| CFlow (lb : wf_label).   (** plugins that write, a [Stop] *)

Definition rt_step (lb : rt_label) (w : world) : option world :=
  match lb with
  | CConnect k =>
      Some (mkWorld (flow w) (session_busy w) (clients w ++ [new_client k]) (sent w) (undelivered w) (leaked w))
  | CNext i => c ← clients w !! i; client_next i c w
  | CClosed i => c ← clients w !! i; OnClose i c w
  | CWriter i ch => c ← clients w !! i; writeLoop i ch c w
  | CRead i msg => c ← clients w !! i; readLoop i msg c w
  | CStreamDone i =>
      c ← clients w !! i;
      match kind c with Grpc => Some (with_client w i (set_cancelled c)) | WebSocket => None end
  | CFlow lb =>
      match lb with
      | WfReceive | WfPause _ | WfResume _ => None
      | _ => with_flow w <$> wf_step lb (flow w)
      end
  end.

Fixpoint rt_run (ls : list rt_label) (w : world) : option world :=
  match ls with
  | [] => Some w
  | lb :: ls => w' ← rt_step lb w; rt_run ls w'
  end.

(** A started workflow of [n] nodes with [threads] goroutines, no client. *)
Definition rt_init (n threads : nat) : world := mkWorld (wf_init n threads) false [] [] [] [].

(** ** Invariant *)
Definition holds (c : client) : nat := if c_held c then 1 else 0.
Definition holding (c : client) : list nat := match c_writer c with WHold p => [p] | _ => [] end.

(** The session is held from the acquisition to the release; only those who
    acquired it have loops. *)
Definition client_ok (c : client) : Prop :=
  match cphase c with
  | PNew | PRefused => c_held c = false ∧ c_writer c = WGone ∧ c_reading c = false
  | PResume | PResuming => c_held c = true ∧ c_writer c = WGone ∧ c_reading c = false
  | POpen => c_held c = true
  | PRelease => kind c = Grpc → c_held c = true
  | PCancel | PPause | PDone => c_held c = false
  end.

Record rt_inv (w : world) : Prop := {
  ri_flow : wf_inv (flow w);
  ri_clients : Forall client_ok (clients w);
  ri_busy : sum_list_with holds (clients w) = if session_busy w then 1 else 0;
  ri_packets : ∀ x, count_occ Nat.eq_dec (delivered (flow w)) x =
    count_occ Nat.eq_dec (sent w).*2 x + count_occ Nat.eq_dec (undelivered w) x +
    count_occ Nat.eq_dec (leaked w) x +
    sum_list_with (λ c, count_occ Nat.eq_dec (holding c) x) (clients w);
}.

Lemma wf_inv_Pause f : wf_inv f → wf_inv (Pause f).
Proof.
  intros Hf. unfold Pause. case_decide as Hd; [|done]. destruct Hf as [Hit Hbd Hst Hcc Hsc Hp He].
  split; try done. simpl. by rewrite Hst, Hd.
Qed.

Lemma wf_inv_Resume f f' : wf_inv f → Resume f = Some f' → wf_inv f' ∧ delivered f' = delivered f.
Proof.
  intros Hf. unfold Resume. case_decide as Hd; [|done]. intros [= <-].
  destruct Hf as [Hit Hbd Hst Hcc Hsc Hp He].
  split; [|done]. split; try done. simpl. by rewrite Hst, Hd.
Qed.

Lemma Pause_delivered f : delivered (Pause f) = delivered f.
Proof. unfold Pause. by case_decide. Qed.

(** A step that replaces client [i] and moves no packet. *)
Lemma rt_inv_client w f (b : bool) i c c' :
  rt_inv w → clients w !! i = Some c → client_ok c' → holding c' = holding c →
  wf_inv f → delivered f = delivered (flow w) →
  holds c' + (if session_busy w then 1 else 0) = holds c + (if b then 1 else 0) →
  rt_inv (with_client (with_busy (with_flow w f) b) i c').
Proof.
  intros [Hf Hc Hb Hp] Hi Hok Hh Hf' Hd Hbusy. split; simpl.
  - done.
  - by apply Forall_insert.
  - pose proof (sum_list_with_insert holds _ _ _ c' Hi). lia.
  - intros x. rewrite Hd, Hp. f_equal.
    pose proof (sum_list_with_insert (λ c, count_occ Nat.eq_dec (holding c) x) _ _ _ c' Hi) as E.
    cbv beta in E. rewrite Hh in E. lia.
Qed.

(** The same for the steps that neither acquire nor release. *)
Lemma rt_inv_local w i c c' :
  rt_inv w → clients w !! i = Some c → client_ok c' → holding c' = holding c → c_held c' = c_held c →
  rt_inv (with_client w i c').
Proof.
  intros Hw Hi Hok Hh Hheld.
  assert (with_client w i c' = with_client (with_busy (with_flow w (flow w)) (session_busy w)) i c') as ->
    by by destruct w.
  apply (rt_inv_client w _ _ _ c); auto; [apply Hw|]. unfold holds. by rewrite Hheld.
Qed.

Lemma start_loops_holding c c' : c_writer c = WGone → c' = start_loops c ∨ c' = set_phase c PResuming →
  holding c' = holding c.
Proof. unfold holding. intros Hw [->| ->]; simpl; rewrite Hw; by destruct (kind c). Qed.

Lemma inv_acquired i c w :
  rt_inv w → clients w !! i = Some c → c_held c = false → c_writer c = WGone → c_reading c = false →
  session_busy w = false → rt_inv (acquired i c w).
Proof.
  intros Hw Hi H1 H2 H3 Hb. unfold acquired.
  assert (with_busy w true = with_busy (with_flow w (flow w)) true) as -> by by destruct w.
  eapply rt_inv_client; [done..| | | | |]; try done; [apply Hw|]. unfold holds. simpl. by rewrite H1, Hb.
Qed.

Lemma inv_release i c w next :
  rt_inv w → clients w !! i = Some c → next = PCancel ∨ next = PPause → rt_inv (release i c next w).
Proof.
  intros Hw Hi Hn. unfold release.
  assert ((if c_held c then with_busy w false else w) =
    with_busy (with_flow w (flow w)) (if c_held c then false else session_busy w)) as ->
    by by destruct w, (c_held c).
  eapply rt_inv_client; [done..| | | | |]; try done.
  - by destruct Hn as [->| ->].
  - apply Hw.
  - unfold holds. simpl. destruct (c_held c) eqn:Hh; [|done].
    pose proof (ri_busy _ Hw) as Hb.
    pose proof (sum_list_with_elem holds _ _ (list_elem_of_lookup_2 _ _ _ Hi)) as Hle.
    unfold holds in Hle at 1. rewrite Hh in Hle. destruct (session_busy w); lia.
Qed.

Lemma inv_loops i c w :
  rt_inv w → clients w !! i = Some c → c_held c = true → c_writer c = WGone → c_reading c = false →
  rt_inv (see_paused i c w) ∧ rt_inv (with_client w i (start_loops c)) ∧
  (∀ f, Resume (flow w) = Some f → rt_inv (with_client (with_flow w f) i (start_loops c))).
Proof.
  intros Hw Hi H1 H2 H3.
  assert (rt_inv (with_client w i (start_loops c))) as Hl.
  { eapply rt_inv_local; [done..|by apply start_loops_holding; auto|done]. }
  split; [|split; [done|]].
  - unfold see_paused. case_decide; [|done].
    eapply rt_inv_local; [done..|by apply start_loops_holding; auto|done].
  - intros f E. apply wf_inv_Resume in E as [Hf Hd]; [|apply Hw].
    assert (with_flow w f = with_busy (with_flow w f) (session_busy w)) as -> by by destruct w.
    by eapply rt_inv_client; [..|apply start_loops_holding; auto| | |].
Qed.

Lemma inv_pause_flow i c w :
  rt_inv w → clients w !! i = Some c → c_held c = false → rt_inv (pause_flow i c w).
Proof.
  intros Hw Hi Hh. unfold pause_flow.
  assert (with_flow w (Pause (flow w)) = with_busy (with_flow w (Pause (flow w))) (session_busy w)) as ->
    by by destruct w.
  eapply rt_inv_client; [done..| | | | |]; try done; [apply wf_inv_Pause, Hw|apply Pause_delivered].
Qed.

Lemma inv_client_next i c w w' :
  rt_inv w → clients w !! i = Some c → client_next i c w = Some w' → rt_inv w'.
Proof.
  intros Hw Hi Hs.
  assert (client_ok c) as Hc by (eapply Forall_lookup_1; [apply Hw|done]).
  unfold client_next, socket_next, stream_next in Hs. unfold client_ok in Hc.
  destruct (kind c) eqn:Hk, (cphase c) eqn:Hph; simplify_eq/=;
    try (destruct Hc as (H1 & H2 & H3); destruct (inv_loops i c w) as (L1 & L2 & L3); [done..|]);
    try done; try (by apply inv_pause_flow); try (by apply inv_release; auto);
    try (by case_match; auto).
  - destruct Hc as (H1 & H2 & H3).
    destruct (session_busy w) eqn:Hb; [by eapply rt_inv_local|by apply inv_acquired].
  - by eapply rt_inv_local.
  - destruct Hc as (H1 & H2 & H3).
    destruct (session_busy w) eqn:Hb; [by eapply rt_inv_local|by apply inv_acquired].
  - destruct (Resume (flow w)) eqn:E; [by apply L3|].
    eapply rt_inv_local; [done|done|by intros _|done|done].
  - destruct (c_writer c) eqn:Hwr; try done. destruct (c_reading c); simplify_eq.
    eapply rt_inv_local; [done|done|by intros _|done|done].
Qed.

Lemma client_ok_writer c wp : client_ok c → c_writer c ≠ WGone → client_ok (set_writer c wp).
Proof. unfold client_ok. simpl. destruct (cphase c); try done; intros (? & ? & ?) ?; congruence. Qed.

Lemma client_ok_reading c b : client_ok c → c_reading c = true → client_ok (set_reading c b).
Proof. unfold client_ok. simpl. destruct (cphase c); try done; intros (? & ? & ?) ?; congruence. Qed.

(** A step of a write loop: packets move between the output, its hands and
    the ghosts. *)
Lemma rt_inv_writer w f i c c' s u l :
  rt_inv w → clients w !! i = Some c → client_ok c' → c_held c' = c_held c → wf_inv f →
  (∀ x, count_occ Nat.eq_dec (delivered f) x + count_occ Nat.eq_dec (sent w).*2 x +
      count_occ Nat.eq_dec (undelivered w) x + count_occ Nat.eq_dec (leaked w) x +
      count_occ Nat.eq_dec (holding c) x =
    count_occ Nat.eq_dec (delivered (flow w)) x + count_occ Nat.eq_dec s.*2 x +
      count_occ Nat.eq_dec u x + count_occ Nat.eq_dec l x + count_occ Nat.eq_dec (holding c') x) →
  rt_inv (mkWorld f (session_busy w) (<[i := c']> (clients w)) s u l).
Proof.
  intros [Hf Hc Hb Hp] Hi Hok Hheld Hf' Hx. split; simpl.
  - done.
  - by apply Forall_insert.
  - pose proof (sum_list_with_insert holds _ _ _ c' Hi) as E.
    unfold holds in E at 2 4. rewrite Hheld in E. lia.
  - intros x. specialize (Hp x). specialize (Hx x).
    pose proof (sum_list_with_insert (λ c, count_occ Nat.eq_dec (holding c) x) _ _ _ c' Hi) as E.
    cbv beta in E. lia.
Qed.

Lemma wf_inv_receive f p o :
  wf_inv f → recv_case (output f) = Some (p, o) → wf_inv (w_deliver (w_output f o) p).
Proof. intros Hf E. apply (inv_wf_step WfReceive f _ Hf). simpl. by rewrite E. Qed.

Lemma inv_select_output i ch c w w' :
  rt_inv w → clients w !! i = Some c → client_ok c → c_writer c = WWait →
  select_output i ch c w = Some w' → rt_inv w'.
Proof.
  intros Hw Hi Hc Hwr Hs.
  assert (∀ wp, client_ok (set_writer c wp)) as Hok by (intros wp; apply client_ok_writer; [done|by rewrite Hwr]).
  assert (rt_inv (with_client w i (set_writer c WLeave))) as Hleave.
  { eapply rt_inv_local; [done|done|apply Hok| |done]. unfold holding. simpl. by rewrite Hwr. }
  destruct ch; simplify_eq/=; [by destruct (ctx_done _ _); simplify_eq|].
  destruct (recv_case (output (flow w))) as [[p o]|] eqn:E; [|by destruct (closed _); simplify_eq].
  simplify_eq. apply (rt_inv_writer w _ i c); [done..|apply Hok|done| |].
  - apply wf_inv_receive; [apply Hw|done].
  - intros x. unfold holding. simpl. rewrite Hwr. simpl. case_match; lia.
Qed.

Lemma inv_writeLoop i ch c w w' :
  rt_inv w → clients w !! i = Some c → writeLoop i ch c w = Some w' → rt_inv w'.
Proof.
  intros Hw Hi Hs.
  assert (client_ok c) as Hc by (eapply Forall_lookup_1; [apply Hw|done]).
  assert (c_writer c ≠ WGone → ∀ wp, client_ok (set_writer c wp)) as Hok
    by (intros ? wp; by apply client_ok_writer).
  unfold writeLoop, socket_writeLoop, stream_writeLoop in Hs.
  destruct (kind c), (c_writer c) as [| |p| |] eqn:Hwr; try done;
    try (by eapply inv_select_output); specialize (Hok ltac:(done));
    destruct ch; try done; simplify_eq/=.
  all: try (apply (rt_inv_writer w _ i c); [done..|apply Hok|done|apply Hw|];
    intros x; unfold holding; csimpl; rewrite Hwr; csimpl; case_match; lia).
  all: eapply rt_inv_local; [done|done|apply Hok| |done]; unfold holding; simpl; rewrite Hwr; try done.
  by destruct (_ || _).
Qed.

Lemma wf_step_delivered lb s s' :
  lb ≠ WfReceive → wf_step lb s = Some s' → delivered s' = delivered s.
Proof.
  intros Hlb Hs. destruct lb as [t p|t|t|t|t k|]; simpl in Hs; [| | | | |done].
  1-4: destruct (wf_threads s !! t) as [[]|]; try done; repeat case_decide; by simplify_eq.
  destruct (wf_threads s !! t) as [th|]; [|done]. simpl in Hs.
  destruct th; unfold Write, Stop_step, mbind, option_bind in Hs; simpl in Hs;
    repeat (case_match; simplify_eq/=; try done); by simplify_eq/=.
Qed.

Lemma inv_rt_step lb w w' : rt_inv w → rt_step lb w = Some w' → rt_inv w'.
Proof.
  intros Hw Hs. destruct lb as [k|i|i|i ch|i msg|i|lb]; simpl in Hs.
  - simplify_eq. destruct Hw as [Hf Hc Hb Hp]. split; simpl.
    + done.
    + apply Forall_app. split; [done|]. by repeat constructor.
    + rewrite sum_list_with_app. simpl. change (holds (new_client k)) with 0. lia.
    + intros x. rewrite sum_list_with_app. simpl. rewrite Hp. lia.
  - destruct (clients w !! i) as [c|] eqn:Hi; [|done]. by eapply inv_client_next.
  - destruct (clients w !! i) as [c|] eqn:Hi; [|done]. simpl in Hs. unfold OnClose in Hs.
    destruct (kind c) eqn:Hk; [|done]. destruct (cphase c); simplify_eq;
      (eapply rt_inv_local; [done|done|intros Hg; simpl in Hg; congruence|done|done]).
  - destruct (clients w !! i) as [c|] eqn:Hi; [|done]. by eapply inv_writeLoop.
  - destruct (clients w !! i) as [c|] eqn:Hi; [|done]. simpl in Hs. unfold readLoop in Hs.
    destruct (c_reading c) eqn:Hr; simplify_eq.
    assert (client_ok c) as Hc by (eapply Forall_lookup_1; [apply Hw|done]).
    destruct msg as [[]|]; try done;
      (eapply rt_inv_local; [done|done|by apply (client_ok_reading (set_cancelled c))|done|done]).
  - destruct (clients w !! i) as [c|] eqn:Hi; [|done]. simpl in Hs. destruct (kind c); simplify_eq.
    assert (client_ok c) as Hc by (eapply Forall_lookup_1; [apply Hw|done]).
    by eapply rt_inv_local.
  - assert (lb ≠ WfReceive ∧ ∃ f, wf_step lb (flow w) = Some f ∧ w' = with_flow w f) as (Hlb & f & Hf & ->).
    { destruct lb; try done; (split; [done|]); destruct (wf_step _ (flow w)); simplify_eq/=; eauto. }
    pose proof (wf_step_delivered _ _ _ Hlb Hf) as Hd. destruct Hw as [Hfl Hc Hb Hp].
    split; simpl; [by eapply inv_wf_step|done|done|]. intros x. by rewrite Hd.
Qed.

Lemma rt_run_ok n threads ls w : rt_run ls (rt_init n threads) = Some w → rt_inv w.
Proof.
  assert (∀ ls w w', rt_inv w → rt_run ls w = Some w' → rt_inv w') as Hgen.
  { clear. induction ls as [|lb ls IH]; intros w w' Hi; simpl; [naive_solver|].
    destruct (rt_step lb w) as [w1|] eqn:E; [|done]. simpl. apply IH. by eapply inv_rt_step. }
  intros Hr. eapply Hgen; [|exact Hr]. split; [apply inv_wf_init|by constructor|done|done].
Qed.

(** ** Properties *)
Lemma sum_holds_unique l i j ci cj :
  sum_list_with holds l ≤ 1 → l !! i = Some ci → l !! j = Some cj →
  c_held ci = true → c_held cj = true → i = j.
Proof.
  revert i j. induction l as [|c l IH]; intros i j Hs Hi Hj Hci Hcj; [done|]. simpl in Hs.
  assert (∀ k d, l !! k = Some d → c_held d = true → 1 ≤ sum_list_with holds l) as Hone.
  { intros k d Hk Hd. pose proof (sum_list_with_elem holds l d (list_elem_of_lookup_2 _ _ _ Hk)) as Hle.
    unfold holds in Hle at 1. by rewrite Hd in Hle. }
  destruct i as [|i], j as [|j]; simplify_eq/=; [done| | |].
  - unfold holds in Hs at 1. rewrite Hci in Hs. specialize (Hone _ _ Hj Hcj). lia.
  - unfold holds in Hs at 1. rewrite Hcj in Hs. specialize (Hone _ _ Hi Hci). lia.
  - f_equal. eapply IH; eauto. lia.
Qed.

Lemma sum_holds_exists l : 0 < sum_list_with holds l → ∃ i c, l !! i = Some c ∧ c_held c = true.
Proof.
  induction l as [|c l IH]; simpl; [lia|]. intros Hs. destruct (c_held c) eqn:Hc; [by exists 0, c|].
  unfold holds in Hs at 1. rewrite Hc in Hs. destruct IH as (i & d & Hi & Hd); [lia|]. by exists (S i), d.
Qed.

(** C18: A session has one client at a time and its packets are accounted for.
    However WebSocket and gRPC clients connect, are refused, close, and run
    their loops while plugins write and the workflow stops: at most one client
    holds the session, the session is busy exactly while one does, every open
    client holds it; and every packet the workflow wrote is queued, in the
    hands of its writer or of a client's write loop, released, or was written
    to a client, or its write failed. *)
Theorem session_has_one_client n threads ls w :
  rt_run ls (rt_init n threads) = Some w →
  (∀ i j ci cj, clients w !! i = Some ci → clients w !! j = Some cj →
    c_held ci = true → c_held cj = true → i = j) ∧
  (session_busy w = true ↔ ∃ i c, clients w !! i = Some c ∧ c_held c = true) ∧
  (∀ i c, clients w !! i = Some c → cphase c = POpen → c_held c = true) ∧
  written (flow w) ≡ₚ
    (released (flow w) ++ buffer (output (flow w)) ++ (wf_threads (flow w) ≫= in_hand)) ++
    ((sent w).*2 ++ undelivered w ++ leaked w ++ (clients w ≫= holding)).
Proof.
  intros [Hf Hc Hb Hp]%rt_run_ok. split_and!.
  - intros i j ci cj. apply sum_holds_unique. destruct (session_busy w); lia.
  - split.
    + intros E. apply sum_holds_exists. rewrite Hb, E. lia.
    + intros (i & c & Hi & Hh). destruct (session_busy w); [done|].
      pose proof (sum_list_with_elem holds _ _ (list_elem_of_lookup_2 _ _ _ Hi)) as Hle.
      unfold holds in Hle at 1. rewrite Hh in Hle. lia.
  - intros i c Hi Hph. pose proof (Forall_lookup_1 _ _ _ _ Hc Hi) as Hok. unfold client_ok in Hok.
    by rewrite Hph in Hok.
  - apply (Permutation_count_occ Nat.eq_dec). intros x.
    rewrite (wi_items _ Hf), Hp, !count_occ_app.
    rewrite (sum_list_with_bind in_hand (λ l, count_occ Nat.eq_dec l x)); [|intros; apply count_occ_app|done].
    assert (sum_list_with (λ c, count_occ Nat.eq_dec (holding c) x) (clients w) =
      count_occ Nat.eq_dec (clients w ≫= holding) x) as ->.
    { clear. induction (clients w) as [|c l IH]; csimpl; [done|]. rewrite count_occ_app. by f_equal. }
    lia.
Qed.

(** *** Delivery *)
Section delivery_spec.
Context {P : Type}.

(** Objects reach the node they are addressed to.  In a workflow built
    from a valid document, while it runs: an identifier or a name addresses
    exactly the node that has it, the head exists and receives what clients
    send; a workflow that does not run refuses everything. *)
Theorem deliveries_reach_their_node o1 o2 config (builders : gmap string (PluginBuilder P)) g w :
  BuildGraph o1 o2 config builders = Ok g → NewWorkflow g builders = Ok w →
  (∀ id i, SendToNode WorkflowStateRunning w id = Ok i ↔
    ∃ c, OrderedNodes g !! i = Some c ∧ ID c = id) ∧
  (∀ name i, SendToNodeWithName WorkflowStateRunning w name = Ok i ↔
    ∃ c, OrderedNodes g !! i = Some c ∧ Name c = name) ∧
  (∃ i c, SendToHead WorkflowStateRunning w = Ok i ∧ OrderedNodes g !! i = Some c ∧ ID c = Head config) ∧
  (∀ st name, st ≠ WorkflowStateRunning →
    SendToHead st w = Err (NotRunning st) ∧ SendToNode st w name = Err (NotRunning st) ∧
    SendToNodeWithName st w name = Err (NotRunning st)).
Proof.
  intros [Hl (nodes & Hs & ->)]%BuildGraph_ok Hw.
  destruct (sort_ok o1 o2 config) as (nodes' & Hs' & Hperm & _); [apply Hl|eapply legal_closed, Hl|].
  simplify_eq. unfold NewWorkflow in Hw. inv_ok. subst w. rename x into st, x0 into ns.
  apply initNodes_ok in H as [_ Hidx Hname _ _]. simpl in Hidx, Hname.
  assert (∀ id i, SendToNode WorkflowStateRunning
      (mkWf (mkGraph config nodes) (map_base setSocketWriter <$> ns) (i_index st) (i_name st) (pool_size (mkGraph config nodes)))
      id = Ok i ↔ ∃ c, nodes !! i = Some c ∧ ID c = id) as Hid.
  { intros id i. rewrite <-Hidx. unfold SendToNode, deliverTo. simpl. destruct (i_index st !! id); naive_solver. }
  split; [exact Hid|]. split; [|split].
  - intros name i. rewrite <-Hname. unfold SendToNodeWithName. simpl. destruct (i_name st !! name); naive_solver.
  - destruct Hl as (_ & _ & Hne & Hin & _). apply list_elem_of_fmap in Hin as (c & Hc & Hin).
    rewrite <-Hperm in Hin. apply list_elem_of_lookup in Hin as [i Hi].
    exists i, c. split; [|by split]. unfold SendToHead. simpl. rewrite decide_False by done.
    apply (Hid (Head config) i). eauto.
  - intros st' name Hst. unfold SendToHead, SendToNode, SendToNodeWithName, ensureRunning.
    by rewrite decide_False.
Qed.
End delivery_spec.

(** An audio packet of a client reaches the head with the bytes it carries,
    whatever the pooled packet held before. *)
Lemma audio_packet_reaches_head (sender pooled : Packet) data :
  (Z.of_nat (length data) < 2 ^ 32)%Z →
  OnMessage pooled OpcodeBinary
    (Marshal (SetPayload (mkPacket TypeAudio EncodeRaw (Size sender) (Protocol.Payload sender) (header sender)) data)) =
  ToHead data.
Proof.
  intros Hs. unfold OnMessage. rewrite decide_False by auto.
  rewrite Marshal_SetPayload by done. simpl. rewrite Unmarshal_wire, decide_True by done. simpl.
  rewrite SetPayload_contents.
  pose proof (SetPayload_fields (mkPacket TypeAudio EncodeRaw (uint32 (Z.of_nat (length data)))
    (Protocol.Payload pooled) (header pooled)) data) as (-> & _). done.
Qed.

(** ** Where the code departs from one paused or running client *)
Definition open_client (k : transport) (i : nat) : list rt_label := [CConnect k; CNext i; CNext i].

(** A client that is refused because the session is busy runs [OnClose] all
    the same and pauses the workflow of the client that holds it. *)
Lemma refused_client_pauses_session :
  ∃ w c, rt_run (open_client WebSocket 0 ++
      [CConnect WebSocket; CNext 1; CClosed 1; CNext 1; CNext 1; CNext 1]) (rt_init 3 2) = Some w ∧
    clients w !! 0 = Some c ∧ cphase c = POpen ∧ c_held c = true ∧
    wf_state (flow w) = WorkflowStatePaused.
Proof. do 2 eexists. split; [vm_compute; reflexivity|]. repeat split; reflexivity. Qed.

(** [OnClose] releases the session before it pauses the workflow: a client
    that connects in between finds it running, resumes nothing and stays with
    a paused workflow. *)
Lemma reconnected_client_stays_paused :
  ∃ w c, rt_run (open_client WebSocket 0 ++ [CClosed 0; CNext 0] ++
      open_client WebSocket 1 ++ [CNext 0; CNext 0]) (rt_init 3 2) = Some w ∧
    clients w !! 1 = Some c ∧ cphase c = POpen ∧ c_held c = true ∧
    wf_state (flow w) = WorkflowStatePaused.
Proof. do 2 eexists. split; [vm_compute; reflexivity|]. repeat split; reflexivity. Qed.

(** The write loop of a client that left may still take a packet, which the
    client that holds the session now does not get. *)
Lemma departed_client_takes_packet :
  ∃ w, rt_run (open_client WebSocket 0 ++ [CWriter 0 ChGo; CClosed 0; CNext 0] ++
      open_client WebSocket 1 ++
      [CFlow (WfWrite 0 7); CFlow (WfNext 0 0); CFlow (WfNext 0 0); CWriter 0 ChOutput; CWriter 0 ChFailed])
      (rt_init 3 2) = Some w ∧
    undelivered w = [7] ∧ sent w = [].
Proof. eexists. split; [vm_compute; reflexivity|]. repeat split; reflexivity. Qed.

(** A failed send on a gRPC stream drops the packet without returning it to
    its pool. *)
Lemma failed_stream_leaks_packet :
  ∃ w, rt_run (open_client Grpc 0 ++
      [CFlow (WfWrite 0 7); CFlow (WfNext 0 0); CFlow (WfNext 0 0); CWriter 0 ChOutput; CWriter 0 ChFailed])
      (rt_init 3 2) = Some w ∧
    leaked w = [7] ∧ released (flow w) = [].
Proof. eexists. split; [vm_compute; reflexivity|]. repeat split; reflexivity. Qed.

(** After the workflow stopped, a gRPC stream waits for its read loop, which
    only the peer or the end of the stream can wake: no step of the server
    alone ends the call, and the session stays busy. *)
Definition stop_flow : list rt_label :=
  [CFlow (WfStop 1); CFlow (WfNext 1 0); CFlow (WfNext 1 0); CFlow (WfNext 1 0); CFlow (WfNext 1 0);
   CFlow (WfNext 1 0)].

Lemma stream_outlives_workflow :
  ∃ w, rt_run (open_client Grpc 0 ++ stop_flow ++ [CFlow (WfNext 1 0); CFlow (WfNext 1 0); CWriter 0 ChOutput; CWriter 0 ChGo])
      (rt_init 3 2) = Some w ∧
    wf_state (flow w) = WorkflowStateStopped ∧ closed (output (flow w)) = true ∧
    session_busy w = true ∧ rt_step (CNext 0) w = None ∧ (∀ ch, rt_step (CWriter 0 ch) w = None).
Proof. eexists. split; [vm_compute; reflexivity|]. repeat split; reflexivity. Qed.

(** ** Examples *)
Definition demo_labels : list rt_label :=
  open_client WebSocket 0 ++
  [CFlow (WfWrite 0 7); CFlow (WfNext 0 0); CFlow (WfNext 0 0);
   CWriter 0 ChGo; CWriter 0 ChOutput; CWriter 0 ChWritten; CConnect Grpc; CNext 1].

Lemma session_has_one_client_witness :
  ∃ w, rt_run demo_labels (rt_init 3 2) = Some w ∧ sent w = [(0, 7)] ∧
    (∀ i c, clients w !! i = Some c → c_held c = true → i = 0).
Proof.
  destruct (rt_run demo_labels (rt_init 3 2)) as [w|] eqn:E; [|vm_compute in E; discriminate E].
  exists w. destruct (session_has_one_client 3 2 demo_labels w E) as [H1 _].
  vm_compute in E. injection E as <-. split; [reflexivity|]. split; [reflexivity|].
  intros i c Hi Hc. exact (H1 i 0 c _ Hi eq_refl Hc eq_refl).
Defined.

Lemma deliveries_reach_their_node_witness :
  ∃ g w i, BuildGraph default_order default_order sample_workflow sample_builders = Ok g ∧
    NewWorkflow g sample_builders = Ok w ∧ SendToHead WorkflowStateRunning w = Ok i.
Proof.
  destruct (BuildGraph default_order default_order sample_workflow sample_builders) as [g|] eqn:Hg;
    [|vm_compute in Hg; discriminate Hg].
  destruct (NewWorkflow g sample_builders) as [w|] eqn:Hw.
  2:{ vm_compute in Hg. injection Hg as <-. vm_compute in Hw. discriminate Hw. }
  destruct (deliveries_reach_their_node default_order default_order sample_workflow sample_builders g w Hg Hw)
    as (_ & _ & (i & c & Hi & _) & _).
  exists g, w, i. split; [reflexivity|]. split; [exact Hw|exact Hi].
Defined.
