(* ===== verification/Encoding.v ===== *)
(** * Text encodings of bytes

    [base64.StdEncoding.EncodeToString], in which speech services receive
    audio, and [hex.DecodeString], in which one of them delivers it, with
    their inverses: what is sent can be decoded and what was encoded is read
    back. *)

From S2P Require Import Prelude.
From S2P Require Import Utf8.

Local Open Scope Z_scope.

(** ** Base64 *)
Definition b64_char (v : Z) : Z :=
  if decide (v < 26) then 65 + v
  else if decide (v < 52) then 97 + (v - 26)
  else if decide (v < 62) then 48 + (v - 52)
  else if decide (v = 62) then 43 else 47.

Definition b64_value (c : Z) : option Z :=
  if decide (65 ≤ c ≤ 90) then Some (c - 65)
  else if decide (97 ≤ c ≤ 122) then Some (c - 97 + 26)
  else if decide (48 ≤ c ≤ 57) then Some (c - 48 + 52)
  else if decide (c = 43) then Some 62
  else if decide (c = 47) then Some 63
  else None.

Definition b64_pad : Z := 61.

Fixpoint b64_encode (src : list Z) : list Z :=
  match src with
  | a :: b :: c :: src =>
      b64_char (a / 4) :: b64_char (a mod 4 * 16 + b / 16) ::
      b64_char (b mod 16 * 4 + c / 64) :: b64_char (c mod 64) :: b64_encode src
  | [a; b] => [b64_char (a / 4); b64_char (a mod 4 * 16 + b / 16); b64_char (b mod 16 * 4); b64_pad]
  | [a] => [b64_char (a / 4); b64_char (a mod 4 * 16); b64_pad; b64_pad]
  | [] => []
  end.

Definition EncodeToString (src : list Z) : string := string_of_bytes (b64_encode src).

(** The receiver's side. *)
Fixpoint b64_decode (src : list Z) : option (list Z) :=
  match src with
  | [] => Some []
  | p :: q :: r :: s :: src =>
      v ← b64_value p; w ← b64_value q;
      let a := v * 4 + w / 16 in
      if decide (r = b64_pad ∧ s = b64_pad ∧ src = []) then Some [a]
      else
        x ← b64_value r;
        let b := w mod 16 * 16 + x / 4 in
        if decide (s = b64_pad ∧ src = []) then Some [a; b]
        else
          y ← b64_value s;
          rest ← b64_decode src;
          Some (a :: b :: (x mod 4 * 64 + y) :: rest)
  | _ => None
  end.

Lemma b64_value_char v : 0 ≤ v < 64 → b64_value (b64_char v) = Some v.
Proof. intros Hv. unfold b64_value, b64_char. repeat case_decide; try lia; f_equal; lia. Qed.

Lemma b64_char_not_pad v : 0 ≤ v < 64 → b64_char v ≠ b64_pad.
Proof. intros Hv E. apply b64_value_char in Hv. rewrite E in Hv. done. Qed.

Lemma b64_char_byte v : 0 ≤ v < 64 → is_byte (b64_char v).
Proof. intros Hv. unfold is_byte, b64_char. repeat case_decide; lia. Qed.

(** Induction by groups of three. *)
Lemma list_ind3 {A} (P : list A → Prop) :
  P [] → (∀ a, P [a]) → (∀ a b, P [a; b]) → (∀ a b c l, P l → P (a :: b :: c :: l)) → ∀ l, P l.
Proof.
  intros H0 H1 H2 H3.
  assert (∀ l, P l ∧ (∀ a, P (a :: l)) ∧ (∀ a b, P (a :: b :: l))) as H; [|apply H].
  induction l as [|c l (IH1 & IH2 & IH3)]; [by auto|]. split; [apply IH2|]. split; [intros a; apply IH3|]. auto.
Qed.

Ltac b64_bounds := unfold is_byte in *; Z.to_euclidean_division_equations; lia.

(** Audio that is sent as text is read back as it was. *)
Lemma b64_roundtrip src : Forall is_byte src → b64_decode (b64_encode src) = Some src.
Proof.
  induction src as [|a|a b|a b c src IH] using list_ind3; [done| | |]; rewrite ?Forall_cons; intros Hb.
  - destruct Hb as [Ha _]. cbn [b64_encode b64_decode]. rewrite !b64_value_char by b64_bounds. simpl.
    do 2 f_equal. b64_bounds.
  - destruct Hb as (Ha & Hb & _). cbn [b64_encode b64_decode]. rewrite !b64_value_char by b64_bounds. simpl.
    rewrite decide_False by (intros (E & _); revert E; apply b64_char_not_pad; b64_bounds).
    repeat f_equal; b64_bounds.
  - destruct Hb as (Ha & Hb & Hc & Hs). cbn [b64_encode b64_decode]. rewrite !b64_value_char by b64_bounds.
    cbn [mbind option_bind].
    rewrite decide_False by (intros (E & _); revert E; apply b64_char_not_pad; b64_bounds).
    rewrite decide_False by (intros (E & _); revert E; apply b64_char_not_pad; b64_bounds).
    rewrite IH by done. cbn [mbind option_bind]. repeat f_equal; b64_bounds.
Qed.

Lemma b64_encode_bytes src : Forall is_byte src → Forall is_byte (b64_encode src).
Proof.
  induction src as [|a|a b|a b c src IH] using list_ind3; [done| | |]; rewrite ?Forall_cons; intros Hb;
    cbn [b64_encode]; rewrite ?Forall_cons; split_and?; try (apply b64_char_byte); try done;
    try b64_bounds; apply IH, Hb.
Qed.

(** The length of the text. *)
Lemma b64_encode_length src : length (b64_encode src) = (4 * ((length src + 2) / 3))%nat.
Proof.
  induction src as [|a|a b|a b c src IH] using list_ind3; [done..|]. cbn [b64_encode length]. rewrite IH.
  replace (S (S (S (length src))) + 2)%nat with (length src + 2 + 1 * 3)%nat by lia.
  rewrite Nat.div_add by done. lia.
Qed.

(** ** Hexadecimal *)
Definition hex_value (c : Z) : option Z :=
  if decide (48 ≤ c ≤ 57) then Some (c - 48)
  else if decide (97 ≤ c ≤ 102) then Some (c - 97 + 10)
  else if decide (65 ≤ c ≤ 70) then Some (c - 65 + 10)
  else None.

Inductive hex_error := InvalidByteError | ErrLength.

Fixpoint hex_decode (src : list Z) : result hex_error (list Z) :=
  match src with
  | [] => Ok []
  | p :: q :: src =>
      match hex_value p, hex_value q with
      | Some a, Some b => let? rest := hex_decode src in Ok (a * 16 + b :: rest)
      | _, _ => Err InvalidByteError
      end
  | [p] => Err (match hex_value p with None => InvalidByteError | Some _ => ErrLength end)
  end.

(** [hex.DecodeString] returns the bytes before an error too; its caller
    uses none of them. *)
Definition DecodeString (s : string) : result hex_error (list Z) := hex_decode (bytes_of_string s).

Definition hex_char (v : Z) : Z := if decide (v < 10) then 48 + v else 97 + (v - 10).
Definition hex_encode (bs : list Z) : list Z := bs ≫= λ b, [hex_char (b / 16); hex_char (b mod 16)].

Lemma hex_value_char v : 0 ≤ v < 16 → hex_value (hex_char v) = Some v.
Proof. intros Hv. unfold hex_value, hex_char. repeat case_decide; try lia; f_equal; lia. Qed.

Lemma hex_roundtrip bs : Forall is_byte bs → hex_decode (hex_encode bs) = Ok bs.
Proof.
  unfold is_byte. induction bs as [|b bs IH]; intros Hb; [done|]. apply Forall_cons in Hb as [Hb Hbs].
  unfold hex_encode. rewrite bind_cons. cbn [app hex_decode]. fold (hex_encode bs).
  rewrite !hex_value_char by b64_bounds. rewrite IH by done. cbn [rbind]. do 2 f_equal. b64_bounds.
Qed.

Example base64_1 : EncodeToString [77; 97; 110; 77] = "TWFuTQ==".
Proof. reflexivity. Qed.
Example hex_1 : DecodeString "00ffA" = Err ErrLength.
Proof. reflexivity. Qed.
