(* ===== verification/Sse.v ===== *)
(** * Event streams: bufio.Reader over a response body

    The streaming services answer with lines.  A body is the bytes it will
    deliver and the error its reader ends with; [ReadBytes('\n')] of
    [bufio.Reader] returns a line with its delimiter, or what is left with
    the error, whatever the sizes of the reads below it. *)

From S2P Require Import Prelude.
From S2P Require Import GoStrings.
From S2P Require Import Utf8.

Inductive io_error := EOF | CtxCanceled | ReadFailed (code : Z).
#[export] Instance io_error_dec : EqDecision io_error.
Proof. solve_decision. Defined.

Record reader := mkReader { unread : list Z; read_error : io_error }.

Definition newline : Z := 10.

(** The first line, without its delimiter, and the bytes behind it. *)
Fixpoint cut_line (bs : list Z) : option (list Z * list Z) :=
  match bs with
  | [] => None
  | b :: bs =>
      if decide (b = newline) then Some ([], bs)
      else '(l, rest) ← cut_line bs; Some (b :: l, rest)
  end.

Definition ReadBytes (r : reader) : list Z * option io_error * reader :=
  match cut_line (unread r) with
  | Some (l, rest) => (l ++ [newline], None, mkReader rest (read_error r))
  | None => (unread r, Some (read_error r), mkReader [] (read_error r))
  end.

(** ** Bodies made of lines *)
Definition unlines (ls : list (list Z)) : list Z := ls ≫= λ l, l ++ [newline].

Definition one_line (l : list Z) : Prop := newline ∉ l.

Lemma cut_line_app l bs : one_line l → cut_line (l ++ newline :: bs) = Some (l, bs).
Proof.
  unfold one_line. induction l as [|b l IH]; simpl; intros Hl; [done|].
  rewrite elem_of_cons in Hl. rewrite decide_False by (intros ->; tauto). by rewrite IH by tauto.
Qed.

Lemma cut_line_none l : one_line l → cut_line l = None.
Proof.
  unfold one_line. induction l as [|b l IH]; simpl; intros Hl; [done|].
  rewrite elem_of_cons in Hl. rewrite decide_False by (intros ->; tauto). by rewrite IH by tauto.
Qed.

(** Every body is complete lines and a last one without delimiter. *)
Lemma body_lines bs : ∃ ls rest, bs = unlines ls ++ rest ∧ Forall one_line ls ∧ one_line rest.
Proof.
  unfold one_line. induction bs as [|b bs (ls & rest & -> & Hls & Hrest)].
  { exists [], []. split; [done|]. split; [constructor|set_solver]. }
  destruct (decide (b = newline)) as [->|Hb].
  - exists ([] :: ls), rest. split; [done|]. split; [constructor; [set_solver|done]|done].
  - destruct ls as [|l ls].
    + exists [], (b :: rest). split; [done|]. split; [done|]. rewrite elem_of_cons. naive_solver.
    + apply Forall_cons in Hls as [Hl Hls]. exists ((b :: l) :: ls), rest. split; [done|]. split; [|done].
      constructor; [rewrite elem_of_cons; naive_solver|done].
Qed.

Lemma ReadBytes_line l bs e :
  one_line l → ReadBytes (mkReader (l ++ newline :: bs) e) = (l ++ [newline], None, mkReader bs e).
Proof. intros Hl. unfold ReadBytes. simpl. by rewrite cut_line_app. Qed.

Lemma ReadBytes_rest l e :
  one_line l → ReadBytes (mkReader l e) = (l, Some e, mkReader [] e).
Proof. intros Hl. unfold ReadBytes. simpl. by rewrite cut_line_none. Qed.

Lemma unlines_cons l ls bs : unlines (l :: ls) ++ bs = l ++ newline :: unlines ls ++ bs.
Proof. unfold unlines. rewrite bind_cons, <-!app_assoc. done. Qed.

(** ** Reading to the end

    A loop over [ReadBytes] that handles every complete line and then the
    unterminated rest with the error.  A line takes a byte at least, so the
    number of bytes and one more round are enough. *)
Section loop.
Context {St E : Type} (on_line : St → list Z → St * option (result E unit)).
Context (on_rest : St → list Z → io_error → St * result E unit).

Fixpoint read_loop (fuel : nat) (s : St) (r : reader) : St * option (result E unit) :=
  match fuel with
  | O => (s, None)
  | S fuel =>
      match ReadBytes r with
      | (line, None, r) =>
          match on_line s line with
          | (s, None) => read_loop fuel s r
          | (s, Some e) => (s, Some e)
          end
      | (rest, Some e, _) => let '(s, e) := on_rest s rest e in (s, Some e)
      end
  end.

(** The same over the lines of the body. *)
Fixpoint over_lines (s : St) (ls : list (list Z)) (rest : list Z) (e : io_error) : St * result E unit :=
  match ls with
  | [] => on_rest s rest e
  | l :: ls =>
      match on_line s (l ++ [newline]) with
      | (s, None) => over_lines s ls rest e
      | (s, Some r) => (s, r)
      end
  end.

Lemma read_loop_lines fuel s ls rest e :
  Forall one_line ls → one_line rest → length ls < fuel →
  read_loop fuel s (mkReader (unlines ls ++ rest) e) =
  let '(s, r) := over_lines s ls rest e in (s, Some r).
Proof.
  intros Hls Hrest. revert fuel s. induction Hls as [|l ls Hl _ IH]; intros fuel s Hf;
    (destruct fuel as [|fuel]; [simpl in Hf; lia|]); cbn [read_loop over_lines].
  - change (unlines [] ++ rest) with rest. rewrite ReadBytes_rest by done. by destruct (on_rest s rest e).
  - rewrite unlines_cons, ReadBytes_line by done.
    destruct (on_line s (l ++ [newline])) as [s' [r|]]; [done|]. apply IH. simpl in Hf. lia.
Qed.

Lemma unlines_length ls : length ls ≤ length (unlines ls).
Proof.
  induction ls as [|l ls IH]; [done|]. unfold unlines in *. rewrite bind_cons, !length_app. simpl. lia.
Qed.

Lemma read_loop_total s bs e :
  ∃ ls rest, bs = unlines ls ++ rest ∧ Forall one_line ls ∧ one_line rest ∧
    read_loop (S (length bs)) s (mkReader bs e) =
    let '(s, r) := over_lines s ls rest e in (s, Some r).
Proof.
  destruct (body_lines bs) as (ls & rest & -> & Hls & Hrest). exists ls, rest.
  split; [done|]. split; [done|]. split; [done|]. apply read_loop_lines; [done..|].
  rewrite length_app. pose proof (unlines_length ls). lia.
Qed.
End loop.

(** Two splittings of a body into lines agree. *)
Lemma unlines_inj ls rest ls' rest' :
  Forall one_line ls → one_line rest → Forall one_line ls' → one_line rest' →
  unlines ls ++ rest = unlines ls' ++ rest' → ls = ls' ∧ rest = rest'.
Proof.
  intros Hls Hr. revert ls'. induction Hls as [|l ls Hl _ IH]; intros ls' Hls' Hr' E.
  - destruct ls' as [|l' ls']; [done|]. rewrite unlines_cons in E.
    change (rest = l' ++ newline :: unlines ls' ++ rest') in E. exfalso. apply Hr. rewrite E. set_solver.
  - destruct ls' as [|l' ls'].
    + rewrite unlines_cons in E. change (l ++ newline :: unlines ls ++ rest = rest') in E.
      exfalso. apply Hr'. rewrite <-E. set_solver.
    + rewrite !unlines_cons in E. apply Forall_cons in Hls' as [Hl' Hls'].
      assert (cut_line (l ++ newline :: unlines ls ++ rest) = cut_line (l' ++ newline :: unlines ls' ++ rest')) as C
        by by rewrite E.
      rewrite !cut_line_app in C by done. injection C as -> C. destruct (IH ls' Hls' Hr' C) as [-> ->]. done.
Qed.
