(* ===== verification/UrlQuery.v ===== *)
(** * Query strings of net/url

    [url.Values] as the plugins use it to address their services: [Set],
    [Encode] and, for the reader on the other side, the splitting and
    unescaping of a query.  What is encoded is read back. *)

From S2P Require Import Prelude.
From S2P Require Import GoStrings.
From S2P Require Import Utf8.

Local Open Scope Z_scope.

(** ** QueryEscape *)
Definition unreserved (b : Z) : bool :=
  bool_decide (65 ≤ b ≤ 90 ∨ 97 ≤ b ≤ 122 ∨ 48 ≤ b ≤ 57 ∨ b = 45 ∨ b = 95 ∨ b = 46 ∨ b = 126).
Definition upper_hex (v : Z) : Z := if decide (v < 10) then 48 + v else 65 + (v - 10).
Definition upper_hex_value (c : Z) : option Z :=
  if decide (48 ≤ c ≤ 57) then Some (c - 48)
  else if decide (65 ≤ c ≤ 70) then Some (c - 65 + 10)
  else if decide (97 ≤ c ≤ 102) then Some (c - 97 + 10)
  else None.

Definition escape_byte (b : Z) : list Z :=
  if unreserved b then [b]
  else if decide (b = 32) then [43]
  else [37; upper_hex (b / 16); upper_hex (b mod 16)].
Definition QueryEscape (bs : list Z) : list Z := bs ≫= escape_byte.

Fixpoint QueryUnescape (bs : list Z) : option (list Z) :=
  match bs with
  | [] => Some []
  | b :: bs' =>
      if decide (b = 43) then cons 32 <$> QueryUnescape bs'
      else if decide (b = 37) then
        match bs' with
        | h :: l :: rest =>
            v ← upper_hex_value h; w ← upper_hex_value l; cons (v * 16 + w) <$> QueryUnescape rest
        | _ => None
        end
      else cons b <$> QueryUnescape bs'
  end.

(** ** Encode *)
Definition ampersand : Z := 38.
Definition equals : Z := 61.
Definition semicolon : Z := 59.

Definition encode_pair (kv : string * string) : list Z :=
  QueryEscape (bytes_of_string kv.1) ++ equals :: QueryEscape (bytes_of_string kv.2).
Fixpoint join_pairs (l : list (list Z)) : list Z :=
  match l with
  | [] => []
  | [p] => p
  | p :: l => p ++ ampersand :: join_pairs l
  end.
Definition encode_pairs (l : list (string * string)) : list Z := join_pairs (encode_pair <$> l).

(** [Values]: the values of a key in order; keys are encoded sorted. *)
Definition Values_Set (q : gmap string (list string)) (k v : string) : gmap string (list string) := <[k := [v]]> q.
Definition pairs_of (q : gmap string (list string)) : list (string * string) :=
  sort_Strings (map_to_list q).*1 ≫= λ k, pair k <$> default [] (q !! k).
Definition Encode (q : gmap string (list string)) : list Z := encode_pairs (pairs_of q).

(** ** The reader's side *)
Fixpoint split_at (sep : Z) (bs : list Z) : list (list Z) :=
  match bs with
  | [] => [[]]
  | b :: bs =>
      if decide (b = sep) then [] :: split_at sep bs
      else match split_at sep bs with l :: ls => (b :: l) :: ls | [] => [[b]] end
  end.

Fixpoint cut_at (sep : Z) (bs : list Z) : list Z * list Z :=
  match bs with
  | [] => ([], [])
  | b :: bs =>
      if decide (b = sep) then ([], bs) else let '(l, r) := cut_at sep bs in (b :: l, r)
  end.

Definition parse_pair (bs : list Z) : option (string * string) :=
  let '(k, v) := cut_at equals bs in
  k ← QueryUnescape k; v ← QueryUnescape v; Some (string_of_bytes k, string_of_bytes v).
(** [ParseQuery]: empty settings and settings with a semicolon are skipped. *)
Definition setting (p : list Z) : Prop := p ≠ [] ∧ semicolon ∉ p.
Definition parse_pairs (bs : list Z) : list (string * string) :=
  omap parse_pair (filter setting (split_at ampersand bs)).
(** [Values.Get]: the first value of the key, or the empty string. *)
Definition query_Get (pairs : list (string * string)) (k : string) : string :=
  default "" (head (omap (λ kv, if decide (kv.1 = k) then Some kv.2 else None) pairs)).

(** ** Round trip *)
Lemma upper_hex_inv v : 0 ≤ v < 16 → upper_hex_value (upper_hex v) = Some v.
Proof. intros Hv. unfold upper_hex_value, upper_hex. repeat case_decide; f_equal; lia. Qed.

Lemma upper_hex_not_sep v : 0 ≤ v < 16 → upper_hex v ≠ ampersand ∧ upper_hex v ≠ equals ∧ upper_hex v ≠ semicolon.
Proof. intros Hv. unfold upper_hex, ampersand, equals, semicolon. case_decide; lia. Qed.

Definition separator (c : Z) : Prop := c = ampersand ∨ c = equals ∨ c = semicolon.

Lemma escape_byte_clean b : is_byte b → Forall (λ c, ¬ separator c) (escape_byte b).
Proof.
  unfold is_byte, escape_byte, unreserved, separator, ampersand, equals, semicolon. intros Hb.
  case_bool_decide; [repeat constructor; lia|]. case_decide; [repeat constructor; lia|].
  assert (0 ≤ b / 16 < 16 ∧ 0 ≤ b mod 16 < 16) as [H1 H2]
    by (Z.to_euclidean_division_equations; lia).
  apply upper_hex_not_sep in H1, H2. unfold ampersand, equals, semicolon in *.
  repeat (apply Forall_cons; split); [lia..|constructor].
Qed.

Lemma unescape_byte b rest :
  is_byte b → QueryUnescape (escape_byte b ++ rest) = cons b <$> QueryUnescape rest.
Proof.
  unfold is_byte, escape_byte, unreserved. intros Hb. case_bool_decide.
  { cbn [app QueryUnescape]. by rewrite !decide_False by lia. }
  case_decide; [by subst|]. cbn [app QueryUnescape]. rewrite decide_False, decide_True by lia.
  assert (0 ≤ b / 16 < 16 ∧ 0 ≤ b mod 16 < 16) as [H1 H2]
    by (Z.to_euclidean_division_equations; lia).
  rewrite !upper_hex_inv by done. cbn [mbind option_bind].
  replace (b / 16 * 16 + b mod 16) with b by (Z.to_euclidean_division_equations; lia). done.
Qed.

Lemma QueryEscape_clean bs : Forall is_byte bs → Forall (λ c, ¬ separator c) (QueryEscape bs).
Proof.
  unfold QueryEscape. induction 1 as [|b bs Hb _ IH]; [constructor|].
  rewrite bind_cons. apply Forall_app. split; [by apply escape_byte_clean|done].
Qed.

Lemma QueryUnescape_escape bs : Forall is_byte bs → QueryUnescape (QueryEscape bs) = Some bs.
Proof.
  unfold QueryEscape. induction 1 as [|b bs Hb _ IH]; [done|].
  by rewrite bind_cons, unescape_byte, IH.
Qed.

Lemma cut_at_app sep l r : sep ∉ l → cut_at sep (l ++ sep :: r) = (l, r).
Proof.
  induction l as [|b l IH]; simpl; intros Hl; [by rewrite decide_True|].
  rewrite decide_False by set_solver. by rewrite IH by set_solver.
Qed.

Lemma split_at_one sep l : sep ∉ l → split_at sep l = [l].
Proof.
  induction l as [|b l IH]; simpl; intros Hl; [done|].
  rewrite decide_False by set_solver. by rewrite IH by set_solver.
Qed.

Lemma split_at_app sep l r : sep ∉ l → split_at sep (l ++ sep :: r) = l :: split_at sep r.
Proof.
  induction l as [|b l IH]; simpl; intros Hl; [by rewrite decide_True|].
  rewrite decide_False by set_solver. by rewrite IH by set_solver.
Qed.

Lemma clean_not_elem sep l : separator sep → Forall (λ c, ¬ separator c) l → sep ∉ l.
Proof. rewrite Forall_forall. intros Hs Hl Hin. by apply (Hl sep). Qed.

Lemma escaped_clean sep s : separator sep → sep ∉ QueryEscape (bytes_of_string s).
Proof. intros Hs. by apply clean_not_elem, QueryEscape_clean, bytes_of_string_bytes. Qed.

Lemma string_of_bytes_of_string s : string_of_bytes (bytes_of_string s) = s.
Proof.
  unfold string_of_bytes, bytes_of_string. rewrite <-list_fmap_compose.
  rewrite <-(String.string_of_list_ascii_of_string s) at 2. f_equal.
  rewrite <-(list_fmap_id (String.list_ascii_of_string s)) at 2. apply list_fmap_ext.
  intros i a _. simpl. unfold ascii_of_byte, byte_of. by rewrite N2Z.id, ascii_N_embedding.
Qed.

Lemma parse_encode_pair kv : parse_pair (encode_pair kv) = Some kv.
Proof.
  destruct kv as [k v]. unfold parse_pair, encode_pair.
  rewrite cut_at_app by (apply escaped_clean; right; by left). cbn [fst snd].
  rewrite !QueryUnescape_escape by apply bytes_of_string_bytes. simpl.
  by rewrite !string_of_bytes_of_string.
Qed.

Lemma encode_pair_clean kv c : separator c → c ≠ equals → c ∉ encode_pair kv.
Proof.
  intros Hs Hc. unfold encode_pair. rewrite not_elem_of_app, not_elem_of_cons.
  split; [by apply escaped_clean|]. split; [done|]. by apply escaped_clean.
Qed.

Lemma encode_pair_one kv : ampersand ∉ encode_pair kv.
Proof. apply encode_pair_clean; [by left|done]. Qed.

Lemma encode_pair_nonempty kv : encode_pair kv ≠ [].
Proof. unfold encode_pair. by destruct (QueryEscape _). Qed.

Lemma encode_pair_setting kv : setting (encode_pair kv).
Proof. split; [apply encode_pair_nonempty|]. apply encode_pair_clean; [by right; right|done]. Qed.

(** The other side reads the pairs that were encoded, in their order. *)
Lemma parse_encode_pairs l : parse_pairs (encode_pairs l) = l.
Proof.
  unfold parse_pairs, encode_pairs. induction l as [|kv l IH]; [done|].
  destruct l as [|kv' l].
  - cbn [fmap list_fmap join_pairs]. rewrite split_at_one by apply encode_pair_one.
    rewrite filter_cons_True by apply encode_pair_setting. cbn [filter list_filter].
    cbn [omap list_omap]. by rewrite parse_encode_pair.
  - change (join_pairs (encode_pair <$> kv :: kv' :: l))
      with (encode_pair kv ++ ampersand :: join_pairs (encode_pair <$> kv' :: l)).
    rewrite split_at_app by apply encode_pair_one.
    rewrite filter_cons_True by apply encode_pair_setting. cbn [omap list_omap].
    rewrite parse_encode_pair. f_equal. exact IH.
Qed.

Lemma elem_of_pairs q k v : (k, v) ∈ pairs_of q ↔ ∃ vs, q !! k = Some vs ∧ v ∈ vs.
Proof.
  unfold pairs_of. rewrite list_elem_of_bind. split.
  - intros (k' & (v' & [= <- <-] & Hv)%list_elem_of_fmap & _).
    destruct (q !! k) as [vs|]; [by exists vs|by apply elem_of_nil in Hv].
  - intros (vs & Hq & Hv). exists k. split.
    + rewrite Hq. simpl. apply list_elem_of_fmap. eauto.
    + rewrite sort_Strings_perm. apply list_elem_of_fmap. exists (k, vs). split; [done|].
      by apply elem_of_map_to_list.
Qed.

Lemma query_Get_elem pairs k v :
  (∀ x, (k, x) ∈ pairs ↔ x = v) → query_Get pairs k = v.
Proof.
  intros H. unfold query_Get. set (l := omap _ pairs).
  assert (∀ x, x ∈ l ↔ x = v) as Hl.
  { intros x. unfold l. rewrite list_elem_of_omap, <-H. split.
    - intros ([k' x'] & Hin & Hx). simpl in Hx. case_decide; simplify_eq. done.
    - intros Hin. exists (k, x). split; [done|]. simpl. by rewrite decide_True. }
  destruct l as [|x l]; [destruct (proj1 (elem_of_nil v)); by apply Hl|]. simpl. apply Hl. by left.
Qed.

(** A key set once is read with that value and no other. *)
Lemma Set_then_read q k v x :
  (k, x) ∈ parse_pairs (Encode (Values_Set q k v)) ↔ x = v.
Proof.
  unfold Encode. rewrite parse_encode_pairs, elem_of_pairs. unfold Values_Set. split.
  - intros (vs & Hvs & ?). rewrite lookup_insert_eq in Hvs. set_solver.
  - intros ->. exists [v]. rewrite lookup_insert_eq. set_solver.
Qed.

Example Encode_1 :
  string_of_bytes (Encode (Values_Set (Values_Set ∅ "model" "nova 3") "language" "zh-CN"))
  = "language=zh-CN&model=nova+3".
Proof. vm_compute. reflexivity. Qed.
