(* ===== verification/OpenaiLlm.v ===== *)
(** * The OpenAI chat provider: internal/plugins/openai_llm

    [StreamChat] posts the conversation and reads the answer as server-sent
    events: a line that starts with [data:] carries a JSON chunk, [data:
    [DONE]] ends the stream, everything else is skipped.  The HTTP client and
    the JSON codec are arguments.  The provider is the argument [LlmBase]
    leaves open, so the answers it streams are those of the events. *)

From S2P Require Import Prelude.
From S2P Require Import GoStrings.
From S2P Require Import Utf8.
From S2P Require Import Sse.
From S2P Require Import Schema.
From S2P Require Import PluginFlow.
From S2P Require Import LlmBase.

(** ** openai.go *)
Record OpenaiConfig := mkOpenai {
  o_Base : BaseConfig; o_BaseUrl : string; o_ApiKey : string; o_Model : string }.

Record ChatRequest := mkChat { cr_Model : string; cr_Messages : list Message; cr_Stream : bool }.

(** A choice of a chunk: the two parts of its delta and the finish reason. *)
Record StreamChunk := mkChunk { ch_Content : string; ch_Reasoning : string; ch_Finish : string }.

(** ** Requests *)
Record http_request := mkRequest {
  rq_url : string; rq_header : list (string * string); rq_body : list Z }.
Record http_response := mkResponse { StatusCode : Z; Body : reader }.

Inductive openai_error :=
| MarshalFailed | InvalidURL
| TransportFailed (e : io_error)
| StatusFailed (code : Z) (message : string)
| StreamFailed (e : io_error).

(** [strings.TrimRight(s, "/")]. *)
Fixpoint drop_slashes (s : list ascii) : list ascii :=
  match s with
  | c :: s' => if decide (c = "/"%char) then drop_slashes s' else s
  | [] => []
  end.
Definition TrimRight_slash (s : string) : string :=
  String.string_of_list_ascii (reverse (drop_slashes (reverse (String.list_ascii_of_string s)))).

(** [strings.TrimPrefix]. *)
Definition TrimPrefix (p s : string) : string :=
  if String.prefix p s
  then String.substring (String.length p) (String.length s - String.length p) s else s.

Section openai.
Context (MarshalRequest : ChatRequest → result unit (list Z)).
Context (valid_url : string → bool).
Context (Do : http_request → result io_error http_response).
Context (UnmarshalChunk : string → result unit (list StreamChunk)).
Implicit Types cfg : OpenaiConfig.

Definition createRequest cfg (request : ChatRequest) : result openai_error http_request :=
  match MarshalRequest request with
  | Err _ => Err MarshalFailed
  | Ok payload =>
      let url := TrimRight_slash (o_BaseUrl cfg) +:+ "/chat/completions" in
      if negb (valid_url url) then Err InvalidURL
      else Ok (mkRequest url
        (("Content-Type", "application/json") ::
         (if decide (o_ApiKey cfg = "") then [] else [("Authorization", "Bearer " +:+ o_ApiKey cfg)]))
        payload)
  end.

(** What one line of the stream says. *)
Inductive sse_line := LineSkip | LineDone | LineChunk (c : StreamChunk).

Definition parse_line (line : list Z) : sse_line :=
  let sline := TrimSpace (string_of_bytes line) in
  if bool_decide (sline = "") || String.prefix ":" sline then LineSkip
  else if negb (String.prefix "data:" sline) then LineSkip
  else
    let dataPart := TrimSpace (TrimPrefix "data:" sline) in
    if decide (dataPart = "[DONE]") then LineDone
    else match UnmarshalChunk dataPart with
         | Err _ | Ok [] => LineSkip
         | Ok (c :: _) => LineChunk c
         end.

(** One round of the read loop; the state is what the handler was given. *)
Definition on_line (got : list StreamChunk) (line : list Z)
    : list StreamChunk * option (result openai_error unit) :=
  match parse_line line with
  | LineSkip => (got, None)
  | LineDone => (got, Some (Ok tt))
  | LineChunk c => (got ++ [c], None)
  end.

(** The end of the body: a last line without newline is dropped. *)
Definition on_rest (got : list StreamChunk) (rest : list Z) (e : io_error)
    : list StreamChunk * result openai_error unit :=
  match e with EOF => (got, Ok tt) | e => (got, Err (StreamFailed e)) end.

Definition StreamChat cfg (ms : list Message) : list StreamChunk * result openai_error unit :=
  match createRequest cfg (mkChat (o_Model cfg) ms true) with
  | Err e => ([], Err e)
  | Ok request =>
      match Do request with
      | Err e => ([], Err (TransportFailed e))
      | Ok resp =>
          if decide (StatusCode resp < 200 ∨ 300 ≤ StatusCode resp)%Z then
            ([], Err (StatusFailed (StatusCode resp) (string_of_bytes (take 4096 (unread (Body resp))))))
          else
            let '(got, r) := read_loop on_line on_rest (S (length (unread (Body resp)))) [] (Body resp) in
            (got, default (Ok tt) r)
      end
  end.

(** [errors.Is(err, context.Canceled)]. *)
Definition as_chat_error (e : openai_error) : chat_error :=
  match e with
  | TransportFailed CtxCanceled | StreamFailed CtxCanceled => Canceled
  | StatusFailed code _ => Failed code
  | _ => Failed 0
  end.

(** The provider of [LlmBase]. *)
Definition openai_provider cfg (ms : list Message) : list string * option chat_error :=
  let '(got, r) := StreamChat cfg ms in
  (ch_Content <$> got, match r with Ok _ => None | Err e => Some (as_chat_error e) end).

(** ** The events of a body *)
Fixpoint events (ls : list (list Z)) : list StreamChunk * bool :=
  match ls with
  | [] => ([], false)
  | l :: ls =>
      match parse_line (l ++ [newline]) with
      | LineSkip => events ls
      | LineDone => ([], true)
      | LineChunk c => let '(cs, d) := events ls in (c :: cs, d)
      end
  end.

Lemma over_lines_events got ls rest e :
  over_lines on_line on_rest got ls rest e =
  let '(cs, d) := events ls in
  (got ++ cs, if d then Ok tt else match e with EOF => Ok tt | e => Err (StreamFailed e) end).
Proof.
  revert got. induction ls as [|l ls IH]; intros got; cbn [over_lines events].
  - unfold on_rest. rewrite app_nil_r. by destruct e.
  - unfold on_line at 1. destruct (parse_line (l ++ [newline])) as [| |c].
    + apply IH.
    + by rewrite app_nil_r.
    + rewrite IH. destruct (events ls) as [cs d]. by rewrite <-app_assoc.
Qed.

(** A stream that ends by [[DONE]] or by the end of its body is an answer
    without error; any other end of the body is reported. *)
Lemma StreamChat_events cfg ms request resp ls rest :
  createRequest cfg (mkChat (o_Model cfg) ms true) = Ok request → Do request = Ok resp →
  (200 ≤ StatusCode resp < 300)%Z →
  unread (Body resp) = unlines ls ++ rest → Forall one_line ls → one_line rest →
  StreamChat cfg ms =
  let '(cs, d) := events ls in
  (cs, if d then Ok tt else match read_error (Body resp) with EOF => Ok tt | e => Err (StreamFailed e) end).
Proof.
  intros Hreq Hdo Hst Hbody Hls Hrest. unfold StreamChat. rewrite Hreq, Hdo.
  rewrite decide_False by lia. destruct resp as [code [bs e]]. cbn [Body unread read_error] in *. subst bs.
  rewrite read_loop_lines; [|done..|].
  - rewrite over_lines_events. destruct (events ls) as [cs d]. by destruct d, e.
  - rewrite length_app. pose proof (unlines_length ls). lia.
Qed.

(** ** The property *)

(** C33: An answer of the service reaches the workflow whole.  When the service
    accepts the request and its event stream is not cut off, the plugin
    sends the concatenated contents of the chunks of its complete lines up to
    [[DONE]], as sentences and one final chunk, and records them in the
    session. *)
Theorem openai_answer_is_streamed IsLetter IsDigit Marshal grow cfg e text request resp ls rest cs d :
  createRequest cfg (mkChat (o_Model cfg) (all_messages e [user_message text]) true) = Ok request →
  Do request = Ok resp → (200 ≤ StatusCode resp < 300)%Z →
  unread (Body resp) = unlines ls ++ rest → Forall one_line ls → one_line rest →
  events ls = (cs, d) → d = true ∨ read_error (Body resp) = EOF →
  Forall (λ c, valid_utf8 (ch_Content c) = true) cs →
  let answer := concat_strings (ch_Content <$> cs) in
  ∃ ss last,
    concat_strings ss +:+ last = answer ∧ Forall (sendable IsLetter IsDigit) ss ∧
    processMessage IsLetter IsDigit Marshal grow (openai_provider cfg) e text =
      (mkBase (Config e) (AddMessage (Session e) [user_message text; AssistantMessage answer]),
       ((λ s, sendOutput Marshal grow s false) <$> ss) ++
         [sendOutput Marshal grow (if is_blank last then "" else last) true]).
Proof.
  intros Hreq Hdo Hst Hbody Hls Hrest Hev Hend Hv answer.
  assert (openai_provider cfg (all_messages e [user_message text]) = (ch_Content <$> cs, None)) as HS.
  { unfold openai_provider. rewrite (StreamChat_events _ _ _ _ _ _ Hreq Hdo Hst Hbody Hls Hrest), Hev.
    destruct Hend as [->| ->]; [done|]. by destruct d. }
  assert (Forall (λ c, valid_utf8 c = true) (ch_Content <$> cs)) as Hv' by by apply Forall_fmap.
  destruct (parseSentences_spec IsLetter IsDigit _ Hv') as (ss & last & Hp & Hc & Hs).
  exists ss, last. split; [done|]. split; [done|].
  unfold processMessage, streamChat. rewrite HS, on_chunks_spec, Hp by done. simpl.
  by destruct (is_blank last).
Qed.
End openai.

(** ** Examples: a service that answers with the text between quotes *)
Definition demo_marshal (r : ChatRequest) : result unit (list Z) := Ok (bytes_of_string (cr_Model r)).
Definition demo_chunk (s : string) : result unit (list StreamChunk) :=
  if decide (s = "{}") then Ok [] else if decide (s = "?") then Err tt else Ok [mkChunk s "" ""].
Definition demo_lines : list string :=
  [": welcome"; ""; "event: message"; "data: Hello "; "data: {}"; "data:?"; "data: there. "; "data: [DONE]"; "data: late"].
Definition demo_do (body : list Z) (r : http_request) : result io_error http_response :=
  Ok (mkResponse 200 (mkReader body EOF)).
Definition demo_openai : OpenaiConfig := mkOpenai (mkConfig "" 10 "") "https://api/v1//" "key" "gpt".
Definition demo_ascii (r : Z) : bool := bool_decide (65 ≤ r ≤ 122)%Z.
Definition demo_json (v : anyv) : result schema_error (list Z) := Ok [].
Definition demo_grow (n m : nat) : nat := n + m.

Definition demo_events := events demo_chunk (bytes_of_string <$> demo_lines).

Lemma openai_answer_is_streamed_witness :
  ∃ ss last,
    concat_strings ss +:+ last = "Hellothere." ∧
    (processMessage demo_ascii demo_ascii demo_json demo_grow
      (openai_provider demo_marshal (λ _, true) (demo_do (unlines (bytes_of_string <$> demo_lines))) demo_chunk demo_openai)
      (Init (mkConfig "" 10 "")) "hi").2 =
    ((λ s, sendOutput demo_json demo_grow s false) <$> ss) ++
      [sendOutput demo_json demo_grow (if is_blank last then "" else last) true].
Proof.
  destruct (openai_answer_is_streamed demo_marshal (λ _, true)
    (demo_do (unlines (bytes_of_string <$> demo_lines))) demo_chunk demo_ascii demo_ascii demo_json demo_grow
    demo_openai (Init (mkConfig "" 10 "")) "hi"
    (mkRequest "https://api/v1/chat/completions"
      [("Content-Type", "application/json"); ("Authorization", "Bearer key")] (bytes_of_string "gpt"))
    (mkResponse 200 (mkReader (unlines (bytes_of_string <$> demo_lines)) EOF))
    (bytes_of_string <$> demo_lines) [] [mkChunk "Hello" "" ""; mkChunk "there." "" ""] true)
    as (ss & last & Hc & _ & Hp).
  - vm_compute. reflexivity.
  - reflexivity.
  - simpl. lia.
  - cbn [Body unread]. rewrite app_nil_r. reflexivity.
  - apply (bool_decide_unpack _). vm_compute. exact I.
  - unfold one_line. apply not_elem_of_nil.
  - vm_compute. reflexivity.
  - left. reflexivity.
  - apply (bool_decide_unpack _). vm_compute. exact I.
  - exists ss, last. split; [exact Hc|]. rewrite Hp. reflexivity.
Defined.

(** A body whose last event has no newline loses it. *)
Lemma unterminated_event_is_lost :
  (StreamChat demo_marshal (λ _, true) (demo_do (unlines [bytes_of_string "data: one"] ++ bytes_of_string "data: two"))
    demo_chunk demo_openai []) = ([mkChunk "one" "" ""], Ok tt).
Proof. vm_compute. reflexivity. Qed.
