(* ===== verification/TtsVendors.v ===== *)
(** * Speech services: internal/plugins/elevenlabs_tts, minimax_tts, openai_tts

    Three plugins send every sentence of an answer to a service and write the
    audio of its response to an [AudioStreamer].  What the plugins share is
    stated as an interface, [Speaker] with its laws: a payload is spoken as
    the chunks of its response, and the end of speech when it is the last
    one.  The theorems on utterances are proved against the interface, each
    plugin is an instance.

    A service is a function of the requests sent to it before and the request
    itself; the JSON codec, the URL parser and the resampler are arguments.
    The handlers of a plugin run one at a time here; how the payload track
    and the signals interleave is the subject of [Multi]. *)

From S2P Require Import Prelude.
From S2P Require Import GoStrings.
From S2P Require Import GoFloat.
From S2P Require Import Utf8.
From S2P Require Import Encoding.
From S2P Require Import Sse.
From S2P Require Import Schema.
From S2P Require Import EngineTypes.
From S2P Require Import PluginFlow.
From S2P Require Import OpenaiLlm.
From S2P Require Import AudioStreamer.

(** ** Response bodies read in pieces

    The results of the calls of [Read]: pieces without error, then one with
    the error that ends the loop (it may carry bytes too). *)
Record body := mkBody { reads : list (list Z); last_read : list Z; end_error : io_error }.
Definition pieces (b : body) : list (list Z) :=
  filter (λ d, d ≠ []) (reads b ++ [last_read b]).

(** ** What a speaking plugin does *)
Section speaker.
Context {R E : Type} (Resample : R → list Z → R * result E (list Z)) (Flush : R → R * list Z).

Definition voice_state : Type := AudioStreamer * option R.

Definition speak (c : context) (v : voice_state) (d : list Z) (isLast : bool)
    : context * voice_state * list flow_event :=
  let '(c, s, r, out) := Write Resample Flush c v.1 v.2 d isLast in (c, (s, r), out).

(** The loop over the pieces of a response. *)
Fixpoint speak_all (c : context) (v : voice_state) (ds : list (list Z))
    : context * voice_state * list flow_event :=
  match ds with
  | [] => (c, v, [])
  | d :: ds =>
      let '(c, v, out) := speak c v d false in
      let '(c, v, out') := speak_all c v ds in (c, v, out ++ out')
  end.

(** The answer to a payload, and the end of speech if it is the last one. *)
Definition say (c : context) (v : voice_state) (ds : list (list Z)) (final : bool)
    : context * voice_state * list flow_event :=
  let '(c, v, out) := speak_all c v ds in
  if final then let '(c, v, out') := speak c v [] true in (c, v, out ++ out') else (c, v, out).

Lemma speak_all_app c v d1 d2 :
  speak_all c v (d1 ++ d2) =
    let '(c, v, o1) := speak_all c v d1 in
    let '(c, v, o2) := speak_all c v d2 in (c, v, o1 ++ o2).
Proof.
  revert c v. induction d1 as [|d d1 IH]; intros c v; simpl.
  - by destruct (speak_all c v d2) as [[? ?] ?].
  - destruct (speak c v d false) as [[c1 v1] o1]. rewrite IH.
    destruct (speak_all c1 v1 d1) as [[c2 v2] o2]. destruct (speak_all c2 v2 d2) as [[c3 v3] o3].
    by rewrite app_assoc.
Qed.

(** A last answer ends the utterance of [AudioStreamer]. *)
Lemma say_utter c s r ds :
  say c (s, r) ds true =
    let '(c, s, r, out) := utter Resample Flush c s r ds [] in (c, (s, r), out).
Proof.
  revert c s r. induction ds as [|d ds IH]; intros c s r.
  - unfold say, speak. simpl. by destruct (Write Resample Flush c s r [] true) as [[[? ?] ?] ?].
  - unfold say in *. cbn [speak_all utter]. unfold speak at 1. cbn [fst snd].
    destruct (Write Resample Flush c s r d false) as [[[c1 s1] r1] o1]. specialize (IH c1 s1 r1).
    destruct (speak_all c1 (s1, r1) ds) as [[c2 v2] o2].
    destruct (utter Resample Flush c1 s1 r1 ds []) as [[[c3 s3] r3] o3].
    destruct (speak c2 v2 [] true) as [[c4 v4] o4]. simplify_eq. by rewrite app_assoc.
Qed.

(** Whatever the context, the streamer stays well formed and keeps its
    format. *)
Definition kept (s s' : AudioStreamer) : Prop := streamer_wf s' ∧ same_format s s'.

Lemma kept_trans s1 s2 s3 : kept s1 s2 → kept s2 s3 → kept s1 s3.
Proof. intros [? (?&?&?)] [? (?&?&?)]. split; [done|]. repeat split; congruence. Qed.

Lemma write_kept c s d b : streamer_wf s → kept s (write c s d b).1.2.
Proof.
  intros Hwf. unfold write.
  set (p := if started s then (c, s, []) else _).
  assert (streamer_wf p.1.2 ∧ same_format s p.1.2) as [Hwf1 Hf1].
  { unfold p. destruct (started s); [done|]. by destruct (ctx_ok c). }
  destruct p as [[c1 s1] o1]. cbn [fst snd] in *.
  pose proof (write_loop_spec (S (length d)) c1 s1 d ltac:(lia) Hwf1) as Hl.
  destruct (write_loop (S (length d)) c1 s1 d) as [[c2 s2] o2]. destruct Hl as [(Hb & Hl & Ho) Hf2 _ _ _ _].
  destruct Hf1 as (?&?&?), Hf2 as (?&?&?).
  destruct (b && ctx_ok c2); [case_decide|]; simpl; (split; [|repeat split; simpl; congruence]);
    unfold streamer_wf; simpl; lia.
Qed.

Lemma writes_kept c s l : streamer_wf s → kept s (writes c s l).1.2.
Proof.
  revert c s. induction l as [|[d b] l IH]; intros c s Hwf; simpl; [done|].
  pose proof (write_kept c s d b Hwf) as Hk. destruct (write c s d b) as [[c1 s1] o1].
  specialize (IH c1 s1 (proj1 Hk)). destruct (writes c1 s1 l) as [[c2 s2] o2].
  by apply (kept_trans _ s1).
Qed.

Lemma speak_kept c v d b : streamer_wf v.1 → kept v.1 (speak c v d b).1.2.1.
Proof.
  intros Hwf. unfold speak. rewrite Write_inner. destruct (inner Resample Flush v.2 d b) as [r l].
  pose proof (writes_kept c v.1 l Hwf). by destruct (writes c v.1 l) as [[? ?] ?].
Qed.

Lemma say_kept c v ds final : streamer_wf v.1 → kept v.1 (say c v ds final).1.2.1.
Proof.
  intros Hwf. unfold say.
  assert (kept v.1 (speak_all c v ds).1.2.1) as Hk.
  { revert c v Hwf. induction ds as [|d ds IH]; intros c v Hwf; simpl; [done|].
    pose proof (speak_kept c v d false Hwf) as Hk. destruct (speak c v d false) as [[c1 v1] o1].
    specialize (IH c1 v1 (proj1 Hk)). destruct (speak_all c1 v1 ds) as [[c2 v2] o2].
    by apply (kept_trans _ v1.1). }
  destruct (speak_all c v ds) as [[c1 v1] o1]. destruct final; [|done].
  pose proof (speak_kept c1 v1 [] true (proj1 Hk)) as Hk2.
  destruct (speak c1 v1 [] true) as [[c2 v2] o2]. by apply (kept_trans _ v1.1).
Qed.

(** A context that never ends is handed on as such. *)
Lemma write_loop_none fuel s d : (write_loop fuel None s d).1.1 = None.
Proof.
  revert s d. induction fuel as [|fuel IH]; intros s d; [done|]. rewrite write_loop_S. simpl.
  case_decide; [done|]. destruct (round s d) as [[s1 o1] n]. specialize (IH s1 (drop n d)).
  by destruct (write_loop fuel None s1 (drop n d)) as [[? ?] ?].
Qed.

Lemma write_none s d b : (write None s d b).1.1 = None.
Proof.
  unfold write. cbn [ctx_ok checked].
  destruct (started s); [pose proof (write_loop_none (S (length d)) s d) as Hn
    |pose proof (write_loop_none (S (length d)) (with_started s true) d) as Hn];
    destruct (write_loop _ None _ d) as [[c1 s1] o1]; simplify_eq/=;
    (destruct b; [simpl; by case_decide|done]).
Qed.

Lemma writes_none s l : (writes None s l).1.1 = None.
Proof.
  revert s. induction l as [|[d b] l IH]; intros s; simpl; [done|].
  pose proof (write_none s d b) as Hn. destruct (write None s d b) as [[c1 s1] o1]. simplify_eq/=.
  specialize (IH s1). by destruct (writes None s1 l) as [[? ?] ?].
Qed.

Lemma speak_none v d b : (speak None v d b).1.1 = None.
Proof.
  unfold speak. rewrite Write_inner. destruct (inner Resample Flush v.2 d b) as [r l].
  pose proof (writes_none v.1 l). by destruct (writes None v.1 l) as [[? ?] ?].
Qed.

Lemma speak_all_none v ds : (speak_all None v ds).1.1 = None.
Proof.
  revert v. induction ds as [|d ds IH]; intros v; simpl; [done|].
  pose proof (speak_none v d false) as Hn. destruct (speak None v d false) as [[c1 v1] o1].
  simplify_eq/=. specialize (IH v1). by destruct (speak_all None v1 ds) as [[? ?] ?].
Qed.

Lemma say_none v ds final : (say None v ds final).1.1 = None.
Proof.
  unfold say. pose proof (speak_all_none v ds) as Hn.
  destruct (speak_all None v ds) as [[c1 v1] o1]. simplify_eq/=. destruct final; [|done].
  pose proof (speak_none v1 [] true). by destruct (speak None v1 [] true) as [[? ?] ?].
Qed.

Definition idle (s : AudioStreamer) : Prop := streamer_wf s ∧ offset s = 0 ∧ started s = false.

Lemma Reset_idle s : streamer_wf s → idle (Reset s).
Proof. intros (? & ? & ?). split; [|done]. unfold streamer_wf. simpl. lia. Qed.

(** What an idle plugin sends for an utterance: the start of speech, frames
    of the configured size and at most one shorter one at the end, the end of
    speech; they carry the audio of the service, resampled. *)
Definition framed (s : AudioStreamer) (audio : list Z) (out : list flow_event) : Prop :=
  ∃ frames rest, out = speech_start :: frames ++ rest ++ [speech_end] ∧
    Forall (is_frame s (bufferSize s)) frames ∧
    (rest = [] ∨ ∃ e n, rest = [e] ∧ is_frame s n e ∧ 0 < n < bufferSize s) ∧
    (frames ++ rest) ≫= frame_data = audio.

Lemma say_framed s r ds :
  idle s →
  ∃ s' r' out, say None (s, r) ds true = (None, (s', r'), out) ∧ idle s' ∧ same_format s s' ∧
    framed s (audio Resample Flush r ds []) out.
Proof.
  intros (Hwf & Ho & Hst). rewrite say_utter.
  destruct (utter_spoken Resample Flush s s r ds [] [] []) as (s' & r' & o & -> & Hsp).
  { split; [done..|]. left. repeat split; [done|]. unfold pending. by rewrite Ho. }
  destruct Hsp as (Hw & Hf & Hs' & Ho' & frames & rest & Heq & Hfr & Hre & Ha).
  exists s', r', o. split; [done|]. split; [done|]. split; [done|]. by exists frames, rest.
Qed.

(** *** The interface

    [on_payload] is [None] when the handler panics; [answer] are the pieces
    of audio the service delivers for a payload in a state. *)
Definition is_final (d : Named.object) : bool := get_bool d "is_final".

Class Speaker (P : Type) := {
  voice : P → voice_state;
  ready : P → Prop;
  on_payload : context → P → Named.object → option (context * P * list flow_event);
  on_signal : P → Named.object → P * list flow_event;
  answer : P → Named.object → list (list Z);
}.

Class SpeakerLaws (P : Type) `{Speaker P} := {
  payload_speaks : ∀ c p d, ready p →
    ∃ p', on_payload c p d =
      Some ((say c (voice p) (answer p d) (is_final d)).1.1, p', (say c (voice p) (answer p d) (is_final d)).2) ∧
      voice p' = (say c (voice p) (answer p d) (is_final d)).1.2 ∧ ready p';
  signal_forwarded : ∀ p x, ready p →
    (on_signal p x).2 = [SendSignal x] ∧ ready (on_signal p x).1 ∧
    voice (on_signal p x).1 =
      if decide (Named.name x = SignalInterrupter) then (Reset (voice p).1, (voice p).2) else voice p;
}.

(** *** Clients of the interface *)
Section clients.
Context {P : Type} `{SpeakerLaws P}.
Implicit Types p : P.

Inductive tts_event := EvPayload (c : context) (d : Named.object) | EvSignal (x : Named.object).

Definition react p (ev : tts_event) : option (P * list flow_event) :=
  match ev with
  | EvPayload c d => '(_, p, out) ← on_payload c p d; Some (p, out)
  | EvSignal x => Some (on_signal p x)
  end.
Fixpoint react_all p (evs : list tts_event) : option (P * list flow_event) :=
  match evs with
  | [] => Some (p, [])
  | ev :: evs =>
      '(p, out) ← react p ev; '(p, out') ← react_all p evs; Some (p, out ++ out')
  end.

Lemma react_kept p ev :
  ready p → streamer_wf (voice p).1 →
  ∃ p' out, react p ev = Some (p', out) ∧ ready p' ∧ kept (voice p).1 (voice p').1.
Proof.
  intros Hr Hwf. destruct ev as [c d|x]; simpl.
  - destruct (payload_speaks c p d Hr) as (p' & -> & Hv & Hr'). simpl. eexists _, _.
    split; [done|]. split; [done|]. rewrite Hv. by apply say_kept.
  - destruct (signal_forwarded p x Hr) as (_ & Hr' & Hv). destruct (on_signal p x) as [p' out].
    exists p', out. split; [done|]. split; [done|]. simpl in Hv. rewrite Hv.
    case_decide; [|done]. destruct (Reset_idle _ Hwf) as [? _]. done.
Qed.

Lemma react_all_kept p evs :
  ready p → streamer_wf (voice p).1 →
  ∃ p' out, react_all p evs = Some (p', out) ∧ ready p' ∧ kept (voice p).1 (voice p').1.
Proof.
  revert p. induction evs as [|ev evs IH]; intros p Hr Hwf; simpl; [by eexists _, _|].
  destruct (react_kept p ev Hr Hwf) as (p1 & o1 & -> & Hr1 & Hk1).
  destruct (IH p1 Hr1 (proj1 Hk1)) as (p2 & o2 & E2 & Hr2 & Hk2). simpl. rewrite E2. simpl.
  eexists _, _. split; [done|]. split; [done|]. by eapply kept_trans.
Qed.

Lemma react_all_app p e1 e2 :
  react_all p (e1 ++ e2) =
    ('(p, o1) ← react_all p e1; '(p, o2) ← react_all p e2; Some (p, o1 ++ o2)).
Proof.
  revert p. induction e1 as [|ev e1 IH]; intros p; simpl.
  - by destruct (react_all p e2) as [[? ?]|].
  - destruct (react p ev) as [[p1 o1]|]; simpl; [|done]. rewrite IH.
    destruct (react_all p1 e1) as [[p2 o2]|]; simpl; [|done].
    destruct (react_all p2 e2) as [[p3 o3]|]; simpl; [|done]. by rewrite app_assoc.
Qed.

(** An utterance: payloads that are not final and a final one, under a
    context that lasts. *)
Definition utterance (ds : list Named.object) (d : Named.object) : list tts_event :=
  (EvPayload None <$> ds) ++ [EvPayload None d].

(** The pieces of audio the service delivers for it. *)
Fixpoint answers p (ds : list Named.object) : list (list Z) :=
  match ds with
  | [] => []
  | d :: ds =>
      answer p d ++
      match on_payload None p d with Some (_, p, _) => answers p ds | None => [] end
  end.

Lemma utterance_said p ds d :
  ready p → Forall (λ d, is_final d = false) ds → is_final d = true →
  ∃ p' out, react_all p (utterance ds d) = Some (p', out) ∧ ready p' ∧
    say None (voice p) (answers p (ds ++ [d])) true = (None, voice p', out).
Proof.
  intros Hr Hds Hd. revert p Hr. induction Hds as [|d1 ds Hd1 _ IH]; intros p Hr.
  - unfold utterance. simpl. destruct (payload_speaks None p d Hr) as (p' & Hon & Hv & Hr').
    rewrite Hon. simpl. rewrite !app_nil_r. eexists _, _. split; [done|]. split; [done|].
    rewrite Hd in *. pose proof (say_none (voice p) (answer p d) true) as Hn. rewrite Hv.
    by destruct (say None (voice p) (answer p d) true) as [[c v] o]; simplify_eq/=.
  - unfold utterance in *. csimpl. destruct (payload_speaks None p d1 Hr) as (p1 & Hon & Hv & Hr1).
    rewrite Hon. csimpl. destruct (IH p1 Hr1) as (p2 & o2 & Hre & Hr2 & Hs). rewrite Hre. simpl.
    eexists _, _. split; [done|]. split; [done|]. rewrite Hd1 in *.
    unfold say in Hs, Hv |- *. rewrite speak_all_app.
    pose proof (speak_all_none (voice p) (answer p d1)) as Hn.
    destruct (speak_all None (voice p) (answer p d1)) as [[c v] o]. simplify_eq/=.
    destruct (speak_all None (voice p1) (answers p1 (ds ++ [d]))) as [[c3 v3] o3].
    destruct (speak c3 v3 [] true) as [[c4 v4] o4]. simplify_eq/=. by rewrite app_assoc.
Qed.

Lemma utterance_spoken p ds d :
  ready p → idle (voice p).1 → Forall (λ d, is_final d = false) ds → is_final d = true →
  ∃ p' out, react_all p (utterance ds d) = Some (p', out) ∧ ready p' ∧ idle (voice p').1 ∧
    same_format (voice p).1 (voice p').1 ∧
    framed (voice p).1 (audio Resample Flush (voice p).2 (answers p (ds ++ [d])) []) out.
Proof.
  intros Hr Hi0 Hds Hd.
  destruct (utterance_said p ds d Hr Hds Hd) as (p' & out & Hre & Hr' & Hs).
  destruct (voice p) as [s r]. cbn [fst snd] in *.
  destruct (say_framed s r (answers p (ds ++ [d]))) as (s' & r' & o & Hu & Hi & Hf & Hfr); [done|].
  rewrite Hu in Hs. injection Hs as Hv <-. exists p', o. by rewrite <-Hv.
Qed.

(** After any history the interrupter makes the plugin idle. *)
Lemma interrupted_idle p evs x :
  ready p → streamer_wf (voice p).1 → Named.name x = SignalInterrupter →
  ∃ p' out, react_all p (evs ++ [EvSignal x]) = Some (p', out) ∧ ready p' ∧
    idle (voice p').1 ∧ same_format (voice p).1 (voice p').1.
Proof.
  intros Hr Hwf Hx. destruct (react_all_kept p evs Hr Hwf) as (p1 & o1 & E1 & Hr1 & Hk).
  rewrite react_all_app, E1. simpl. destruct (signal_forwarded p1 x Hr1) as (_ & Hr2 & Hv).
  rewrite decide_True in Hv by done. destruct (on_signal p1 x) as [p2 o2]. simpl in *.
  eexists _, _. split; [done|]. split; [done|]. rewrite Hv. simpl.
  destruct Hk as [Hwf1 Hf]. split; [by apply Reset_idle|]. done.
Qed.
(** Whatever happened before, the utterance after an interruption is spoken
    whole and by itself. *)
Lemma spoken_after_interruption p evs x ds d :
  ready p → streamer_wf (voice p).1 → Named.name x = SignalInterrupter →
  Forall (λ d, is_final d = false) ds → is_final d = true →
  ∃ p1 o1 p2 out, react_all p (evs ++ [EvSignal x]) = Some (p1, o1) ∧
    react_all p1 (utterance ds d) = Some (p2, out) ∧ idle (voice p2).1 ∧
    framed (voice p1).1 (audio Resample Flush (voice p1).2 (answers p1 (ds ++ [d])) []) out ∧
    same_format (voice p).1 (voice p1).1.
Proof.
  intros Hr Hwf Hx Hds Hd.
  destruct (interrupted_idle p evs x Hr Hwf Hx) as (p1 & o1 & E1 & Hr1 & Hi1 & Hf1).
  destruct (utterance_spoken p1 ds d Hr1 Hi1 Hds Hd) as (p2 & out & E2 & _ & Hi2 & _ & Hfr).
  by exists p1, o1, p2, out.
Qed.
End clients.
End speaker.

Arguments Speaker _ _ : clear implicits.
Arguments SpeakerLaws {R E} Resample Flush P {_}.

(** The plugins without a resampler. *)
Definition no_resample (r : unit) (d : list Z) : unit * result unit (list Z) := (r, Ok []).
Definition no_flush (r : unit) : unit * list Z := (r, []).
Definition plain (s : AudioStreamer) : voice_state (R := unit) := (s, None).

Lemma audio_plain ds last : audio no_resample no_flush None ds last = concat ds ++ last.
Proof.
  induction ds as [|d ds IH]; simpl; [by rewrite app_nil_r|]. rewrite IH, app_nil_r. by rewrite app_assoc.
Qed.

(** The parsed payload knows whether it is final; one that is not parsed is
    not. *)
Lemma ParsePayload_final d :
  match ParsePayload d with
  | Some (_, _, final) => final = is_final d
  | None => is_final d = false
  end.
Proof.
  unfold ParsePayload, is_final. destruct (get_bool d "is_final").
  - by rewrite andb_false_r.
  - by destruct (_ && _).
Qed.

(** Without a resampler a plugin's voice stays without one. *)
Lemma speak_plain c s d b :
  ∃ c' s' out, speak no_resample no_flush c (plain s) d b = (c', plain s', out).
Proof. unfold speak, plain. simpl. destruct (write c s d b) as [[c' s'] out]. by eexists _, _, _. Qed.

Lemma speak_all_plain c s ds :
  ∃ c' s' out, speak_all no_resample no_flush c (plain s) ds = (c', plain s', out).
Proof.
  revert c s. induction ds as [|d ds IH]; intros c s; cbn [speak_all]; [by eexists _, _, _|].
  destruct (speak_plain c s d false) as (c1 & s1 & o1 & ->).
  destruct (IH c1 s1) as (c2 & s2 & o2 & ->). by eexists _, _, _.
Qed.

(** ** elevenlabs_tts *)
Module Elevenlabs.
Record ElevenLabsConfig := mkConfig {
  ApiKey : string; BaseURL : string; VoiceID : string; ModelID : string;
  Stability : float64; SimilarityBoost : float64 }.

Record voiceSettings := mkSettings { vs_Stability : float64; vs_SimilarityBoost : float64 }.
Record streamRequest := mkStream {
  sr_Text : string; sr_ModelID : string; sr_PreviousText : string; sr_OutputFormat : string;
  sr_VoiceSettings : option voiceSettings }.

(** [client] holds the requests sent so far. *)
Record Plugin := mkPlugin {
  streamer : AudioStreamer; client : list http_request; cfg : ElevenLabsConfig; previousText : string }.

Definition outputFormat : string := "pcm_16000".

Definition OnStart (p : Plugin) : Plugin :=
  mkPlugin (NewAudioStreamer AudioSampleRate AudioChannels (100 * 1000000))
    (client p) (cfg p) (previousText p).

Definition with_streamer (p : Plugin) (s : AudioStreamer) : Plugin :=
  mkPlugin s (client p) (cfg p) (previousText p).
Definition with_previous (p : Plugin) (t : string) : Plugin :=
  mkPlugin (streamer p) (client p) (cfg p) t.
Definition with_client (p : Plugin) (h : list http_request) : Plugin :=
  mkPlugin (streamer p) h (cfg p) (previousText p).

Definition OnSignal (p : Plugin) (signal : Named.object) : Plugin * list flow_event :=
  let p := if decide (Named.name signal = SignalInterrupter)
           then with_previous (with_streamer p (Reset (streamer p))) "" else p in
  (p, [SendSignal signal]).

Section plugin.
Context (MarshalRequest : streamRequest → result unit (list Z)) (valid_url : string → bool).
Context (Do : list http_request → http_request → result io_error (Z * body)).

Definition request_body (p : Plugin) (text : string) : streamRequest :=
  let positive f := float64_gt f (float64_of_int64 0) in
  mkStream text (ModelID (cfg p)) (previousText p) outputFormat
    (if positive (Stability (cfg p)) || positive (SimilarityBoost (cfg p))
     then Some (mkSettings (Stability (cfg p)) (SimilarityBoost (cfg p))) else None).

Definition buildRequest (p : Plugin) (text : string) : result unit http_request :=
  let baseURL := if decide (BaseURL (cfg p) = "") then "https://api.elevenlabs.io" else BaseURL (cfg p) in
  let endpoint := baseURL +:+ "/v1/text-to-speech/" +:+ VoiceID (cfg p) +:+ "/stream" in
  match MarshalRequest (request_body p text) with
  | Err e => Err e
  | Ok payload =>
      if negb (valid_url endpoint) then Err tt
      else Ok (mkRequest endpoint
        [("xi-api-key", ApiKey (cfg p)); ("Content-Type", "application/json"); ("Accept", "audio/pcm")]
        payload)
  end.

(** The part of [OnPayload] before the deferred end: the pieces written. *)
Definition synthesize (p : Plugin) (text : string) : Plugin * list (list Z) :=
  if bool_decide (text = "") || is_blank text then (p, [])
  else match buildRequest p text with
       | Err _ => (p, [])
       | Ok req =>
           let sent := with_client p (client p ++ [req]) in
           match Do (client p) req with
           | Err _ => (sent, [])
           | Ok (status, b) =>
               if decide (status ≠ 200%Z) then (sent, [])
               else (with_previous sent text, pieces b)
           end
       end.

Definition OnPayload (c : context) (p : Plugin) (payload : Named.object)
    : option (context * Plugin * list flow_event) :=
  match ParsePayload payload with
  | None => Some (c, p, [])
  | Some (text, _, final) =>
      let '(p, ds) := synthesize p text in
      let '(c, v, out) := speak_all no_resample no_flush c (plain (streamer p)) ds in
      let p := with_streamer p v.1 in
      if final then
        let '(c, v, out') := speak no_resample no_flush c (plain (streamer p)) [] true in
        Some (c, with_previous (with_streamer p v.1) "", out ++ out')
      else Some (c, p, out)
  end.

#[export] Instance elevenlabs_speaker : Speaker unit Plugin := {
  voice p := plain (streamer p);
  ready _ := True;
  on_payload := OnPayload;
  on_signal := OnSignal;
  answer p d := match ParsePayload d with Some (text, _, _) => (synthesize p text).2 | None => [] end;
}.
#[export] Instance elevenlabs_laws :
  SpeakerLaws no_resample no_flush Plugin (H := elevenlabs_speaker).
Proof.
  split.
  - intros c p d _. cbn. unfold OnPayload. pose proof (ParsePayload_final d) as Hf.
    destruct (ParsePayload d) as [[[text em] final]|]; [|rewrite Hf; by exists p].
    subst final. assert (streamer (synthesize p text).1 = streamer p) as Hs.
    { unfold synthesize. destruct (_ || _); [done|]. destruct (buildRequest p text) as [req|]; [|done].
      destruct (Do (client p) req) as [[st b]|]; [|done]. by case_decide. }
    destruct (synthesize p text) as [p1 ds]. simpl in Hs. rewrite Hs. cbn [snd]. unfold say.
    destruct (speak_all_plain c (streamer p) ds) as (c1 & s1 & o1 & ->). cbn.
    destruct (is_final d); [|by eexists].
    destruct (speak_plain c1 s1 [] true) as (c2 & s2 & o2 & Hsp). cbn. rewrite Hsp. by eexists.
  - intros p x _. cbn. unfold OnSignal. by case_decide.
Qed.

(** *** The previous text

    The text a request names as the previous one: that of the last payload
    the service accepted in the utterance, nothing after a final payload or
    an interruption. *)
Definition accepted (p : Plugin) (text : string) : Prop :=
  ∃ req b, buildRequest p text = Ok req ∧ Do (client p) req = Ok (200%Z, b).

Lemma previous_text c p d :
  match OnPayload c p d, ParsePayload d with
  | Some (_, p', _), Some (text, _, final) =>
      (final = true → previousText p' = "") ∧
      (final = false → accepted p text → previousText p' = text) ∧
      (final = false → ¬ accepted p text → previousText p' = previousText p)
  | Some (_, p', _), None => p' = p
  | None, _ => False
  end.
Proof.
  unfold OnPayload. pose proof (ParsePayload_final d) as Hf.
  destruct (ParsePayload d) as [[[text em] final]|] eqn:Hp; [|done].
  assert (final = false → bool_decide (text = "") || is_blank text = false) as Hb.
  { intros ->. unfold ParsePayload in Hp. cbv zeta in Hp.
    destruct (get_bool d "is_final"), (bool_decide (get_string d "sentence" = "") || _) eqn:Hbl;
      simpl in Hp; by simplify_eq. }
  assert (final = false → (accepted p text → previousText (synthesize p text).1 = text) ∧
    (¬ accepted p text → previousText (synthesize p text).1 = previousText p)) as Hsyn.
  { intros Hfin. unfold synthesize, accepted. rewrite (Hb Hfin).
    destruct (buildRequest p text) as [req|] eqn:Hreq; [|split; [by intros (? & ? & ? & ?)|done]].
    destruct (Do (client p) req) as [[st b]|] eqn:Hdo;
      [|split; [intros (? & ? & ? & ?); simplify_eq; congruence|done]].
    destruct (decide (st ≠ 200%Z)) as [Hst|Hst];
      (split; [intros (? & ? & ? & ?)|intros Hn]); [simplify_eq; congruence|done|done|].
    exfalso. apply Hn.
    exists req, b. split; [done|]. assert (st = 200%Z) as <- by lia. done. }
  destruct (synthesize p text) as [p1 ds]. cbn in Hsyn.
  destruct (speak_all_plain c (streamer p1) ds) as (c1 & s1 & o1 & ->). cbn.
  destruct final; cbn.
  - destruct (speak_plain c1 s1 [] true) as (c2 & s2 & o2 & ->). cbn.
    split; [done|]. by split; intros Hf'.
  - destruct (Hsyn eq_refl) as [Hacc Hrej]. split; [done|]. split; intros _; [exact Hacc|exact Hrej].
Qed.
End plugin.
End Elevenlabs.

(** ** minimax_tts *)
Module Minimax.
Record VoiceSetting := mkVoice {
  VoiceId : string; Speed : float64; Vol : Z; Pitch : Z; Emotion : string }.
Record AudioSetting := mkAudio { SampleRate : Z; Bitrate : Z; Format : string; Channel : Z }.
Record StreamOptions := mkStreamOptions { ExcludeAggregatedAudio : bool }.

(** [VoiceSetting] is a pointer: the options hold the one cell all requests
    share. *)
Record MinimaxOptions := mkOptions {
  Model : string; Stream : bool; voiceSetting : VoiceSetting; audioSetting : AudioSetting;
  streamOptions : StreamOptions; LanguageBoost : string }.
Record MinimaxRequest := mkMinimax { mr_Options : MinimaxOptions; mr_Event : string; mr_Text : string }.

Record MinimaxConfig := mkConfig { BaseUrl : string; cfg_Model : string; Token : string; VoiceID : string }.

(** Of a response the code reads the audio and the status. *)
Record MinimaxResponse := mkResponse { rs_Audio : option string; rs_StatusCode : Z; rs_StatusMsg : string }.

Record Plugin := mkPlugin {
  config : MinimaxConfig; options : MinimaxOptions; streamer : AudioStreamer; client : list http_request }.

Inductive minimax_error :=
| MissingConfig | TransportFailed (e : io_error) | StatusFailed (code : Z) | StreamFailed (e : io_error).

Definition OnStart (cfg : MinimaxConfig) (client : list http_request) : result minimax_error Plugin :=
  if bool_decide (Token cfg = "") || bool_decide (BaseUrl cfg = "") || bool_decide (VoiceID cfg = "")
  then Err MissingConfig
  else
    let cfg := if decide (cfg_Model cfg = "")
               then mkConfig (BaseUrl cfg) "speech-01-turbo" (Token cfg) (VoiceID cfg) else cfg in
    Ok (mkPlugin cfg
      (mkOptions (cfg_Model cfg) true (mkVoice (VoiceID cfg) (float64_of_int64 0) 0 0 "")
        (mkAudio AudioSampleRate 0 "pcm" AudioChannels) (mkStreamOptions true) "")
      (NewAudioStreamer AudioSampleRate AudioChannels (100 * 1000000)) client).

Definition with_streamer (p : Plugin) (s : AudioStreamer) : Plugin :=
  mkPlugin (config p) (options p) s (client p).
Definition with_client (p : Plugin) (h : list http_request) : Plugin :=
  mkPlugin (config p) (options p) (streamer p) h.

Definition OnSignal (p : Plugin) (signal : Named.object) : Plugin * list flow_event :=
  let p := if decide (Named.name signal = SignalInterrupter)
           then with_streamer p (Reset (streamer p)) else p in
  (p, [SendSignal signal]).

(** [body.VoiceSetting.Emotion = emotion] writes through the pointer. *)
Definition set_emotion (o : MinimaxOptions) (emotion : string) : MinimaxOptions :=
  let v := voiceSetting o in
  mkOptions (Model o) (Stream o) (mkVoice (VoiceId v) (Speed v) (Vol v) (Pitch v) emotion)
    (audioSetting o) (streamOptions o) (LanguageBoost o).

Section plugin.
Context (MarshalRequest : MinimaxRequest → result unit (list Z)) (valid_url : string → bool).
Context (Do : list http_request → http_request → result io_error http_response).
Context (UnmarshalResponse : list Z → result unit MinimaxResponse).

(** [newRequest] ignores the errors of the codec, which leaves an empty body,
    and of the URL, which leaves a nil request whose header cannot be set:
    [None]. *)
Definition newRequest (p : Plugin) (text emotion : string) : Plugin * option http_request :=
  let p := if is_blank emotion then p
           else mkPlugin (config p) (set_emotion (options p) emotion) (streamer p) (client p) in
  let jsonBody := match MarshalRequest (mkMinimax (options p) "" text) with Ok b => b | Err _ => [] end in
  (p, if valid_url (BaseUrl (config p))
      then Some (mkRequest (BaseUrl (config p))
             [("Authorization", "Bearer " +:+ Token (config p)); ("Content-Type", "application/json")] jsonBody)
      else None).

(** The audio of an event. *)
Definition processSSELine (data : list Z) : option (list Z) :=
  match UnmarshalResponse data with
  | Err _ => None
  | Ok result =>
      if decide (rs_StatusCode result ≠ 0%Z) then None
      else match rs_Audio result with
           | None => None
           | Some audio =>
               if decide (audio = "") then None
               else match DecodeString audio with Err _ => None | Ok chunk => Some chunk end
           end
  end.

(** A line of the body, also the last one, with or without newline: the
    chunks written so far are extended. *)
Definition data_prefix : string := "data: ".
Definition sse_line (line : list Z) : list (list Z) :=
  let line := TrimSpace (string_of_bytes line) in
  if String.prefix data_prefix line
  then option_list (processSSELine (bytes_of_string (TrimPrefix data_prefix line)))
  else [].

Definition on_line (got : list (list Z)) (line : list Z)
    : list (list Z) * option (result minimax_error unit) := (got ++ sse_line line, None).
Definition on_rest (got : list (list Z)) (rest : list Z) (e : io_error)
    : list (list Z) * result minimax_error unit :=
  (got ++ sse_line rest,
   match e with EOF | CtxCanceled => Ok tt | e => Err (StreamFailed e) end).

Definition handlerResponseBody (r : reader) : list (list Z) * result minimax_error unit :=
  let '(got, res) := read_loop on_line on_rest (S (length (unread r))) [] r in
  (got, default (Ok tt) res).

(** [process] up to its deferred end: the chunks it writes, or a panic. *)
Definition process (p : Plugin) (text emotion : string)
    : option (Plugin * list (list Z) * result minimax_error unit) :=
  if bool_decide (text = "") || is_blank text then Some (p, [], Ok tt)
  else match newRequest p text emotion with
       | (_, None) => None
       | (p, Some request) =>
           let sent := with_client p (client p ++ [request]) in
           Some match Do (client p) request with
                | Err e => (sent, [], Err (TransportFailed e))
                | Ok response =>
                    if decide (StatusCode response ≠ 200%Z)
                    then (sent, [], Err (StatusFailed (StatusCode response)))
                    else let '(got, res) := handlerResponseBody (Body response) in (sent, got, res)
                end
       end.

Definition OnPayload (c : context) (p : Plugin) (data : Named.object)
    : option (context * Plugin * list flow_event) :=
  match ParsePayload data with
  | None => Some (c, p, [])
  | Some (text, emotion, final) =>
      '(p, ds, _) ← process p text emotion;
      let '(c, v, out) := speak_all no_resample no_flush c (plain (streamer p)) ds in
      let p := with_streamer p v.1 in
      if final then
        let '(c, v, out') := speak no_resample no_flush c (plain (streamer p)) [] true in
        Some (c, with_streamer p v.1, out ++ out')
      else Some (c, p, out)
  end.

#[export] Instance minimax_speaker : Speaker unit Plugin := {
  voice p := plain (streamer p);
  ready p := valid_url (BaseUrl (config p)) = true;
  on_payload := OnPayload;
  on_signal := OnSignal;
  answer p d :=
    match ParsePayload d with
    | Some (text, em, _) => match process p text em with Some (_, ds, _) => ds | None => [] end
    | None => []
    end;
}.

Lemma process_total p text em :
  valid_url (BaseUrl (config p)) = true →
  ∃ p' ds r, process p text em = Some (p', ds, r) ∧ streamer p' = streamer p ∧ config p' = config p.
Proof.
  intros Hu. unfold process. destruct (_ || _); [by eexists _, _, _|]. unfold newRequest.
  assert (∀ (b : bool) x, config (if b then p else mkPlugin (config p) x (streamer p) (client p)) = config p)
    as Hc by by intros [] ?.
  assert (∀ (b : bool) x, streamer (if b then p else mkPlugin (config p) x (streamer p) (client p)) = streamer p)
    as Hs by by intros [] ?.
  rewrite Hc, Hu. destruct (Do _ _) as [resp|]; [case_decide; [|destruct (handlerResponseBody _)]|];
    eexists _, _, _; (split; [done|]); simpl; by rewrite Hs, Hc.
Qed.

#[export] Instance minimax_laws : SpeakerLaws no_resample no_flush Plugin (H := minimax_speaker).
Proof.
  split.
  - intros c p d Hu. cbn in *. unfold OnPayload. pose proof (ParsePayload_final d) as Hf.
    destruct (ParsePayload d) as [[[text em] final]|]; [|rewrite Hf; by exists p].
    subst final. destruct (process_total p text em Hu) as (p1 & ds & r & -> & Hs & Hc). cbn.
    rewrite Hs. unfold say.
    destruct (speak_all_plain c (streamer p) ds) as (c1 & s1 & o1 & ->). cbn.
    destruct (is_final d); [|eexists; split; [done|]; split; [done|]; cbn; by rewrite Hc].
    destruct (speak_plain c1 s1 [] true) as (c2 & s2 & o2 & Hsp). cbn. rewrite Hsp.
    eexists. split; [done|]. split; [done|]. cbn. by rewrite Hc.
  - intros p x Hu. cbn. unfold OnSignal. by case_decide.
Qed.

(** A body of lines delivers the audio of its lines, the unterminated rest
    included. *)
Lemma handlerResponseBody_lines ls rest e :
  Forall one_line ls → one_line rest →
  handlerResponseBody (mkReader (unlines ls ++ rest) e) =
  ((ls ≫= λ l, sse_line (l ++ [newline])) ++ sse_line rest,
   match e with EOF | CtxCanceled => Ok tt | e => Err (StreamFailed e) end).
Proof.
  intros Hls Hrest. unfold handlerResponseBody. cbn [unread].
  rewrite read_loop_lines; [|done..|rewrite length_app; pose proof (unlines_length ls); lia].
  assert (∀ got, over_lines on_line on_rest got ls rest e =
    (got ++ (ls ≫= λ l, sse_line (l ++ [newline])) ++ sse_line rest,
     match e with EOF | CtxCanceled => Ok tt | e => Err (StreamFailed e) end)) as ->; [|done].
  clear Hls. induction ls as [|l ls IH]; intros got; cbn [over_lines]; [done|].
  unfold on_line at 1. by rewrite IH, bind_cons, <-!app_assoc.
Qed.
End plugin.
End Minimax.

(** ** openai_tts *)
Definition AudioFormat : string := "pcm".

Module OpenaiTts.
Record OpenAIConfig := mkConfig {
  ApiKey : string; BaseURL : string; Model : string; Voice : string; Speed : float64 }.
Record TTSRequest := mkTTS {
  tr_Model : string; tr_Input : string; tr_Voice : string; tr_ResponseFormat : string; tr_Speed : float64 }.

Section plugin.
Context {R E : Type} (Resample : R → list Z → R * result E (list Z)) (Flush : R → R * list Z).
Context (NewResampler : Z → Z → Z → Z → result E R).
Context (MarshalRequest : TTSRequest → result unit (list Z)) (valid_url : string → bool).
Context (Do : list http_request → http_request → result io_error (Z * body)).

Record Plugin := mkPlugin {
  streamer : AudioStreamer; client : list http_request; cfg : OpenAIConfig; resampler : option R }.

Definition OnStart (cfg : OpenAIConfig) (client : list http_request) : result E Plugin :=
  match NewResampler 24000 1 AudioSampleRate AudioChannels with
  | Err e => Err e
  | Ok r => Ok (mkPlugin (NewAudioStreamer AudioSampleRate AudioChannels (100 * 1000000)) client cfg (Some r))
  end.

(** The streamer holds the resampler: [with_voice] sets both. *)
Definition with_voice (p : Plugin) (v : voice_state (R := R)) : Plugin :=
  mkPlugin v.1 (client p) (cfg p) v.2.
Definition with_client (p : Plugin) (h : list http_request) : Plugin :=
  mkPlugin (streamer p) h (cfg p) (resampler p).

Definition OnSignal (p : Plugin) (signal : Named.object) : Plugin * list flow_event :=
  let p := if decide (Named.name signal = SignalInterrupter)
           then with_voice p (Reset (streamer p), resampler p) else p in
  (p, [SendSignal signal]).

(** As in [Minimax.newRequest], [None] is the nil request. *)
Definition createRequest (p : Plugin) (text : string) : option http_request :=
  let rest := mkTTS (Model (cfg p)) text (Voice (cfg p)) AudioFormat (Speed (cfg p)) in
  let payload := match MarshalRequest rest with Ok b => b | Err _ => [] end in
  if valid_url (BaseURL (cfg p))
  then Some (mkRequest (BaseURL (cfg p))
         [("Authorization", "Bearer " +:+ ApiKey (cfg p)); ("Content-Type", "application/json")] payload)
  else None.

Definition synthesize (p : Plugin) (text : string) : option (Plugin * list (list Z)) :=
  if bool_decide (text = "") || is_blank text then Some (p, [])
  else request ← createRequest p text;
       let sent := with_client p (client p ++ [request]) in
       Some match Do (client p) request with
            | Err _ => (sent, [])
            | Ok (status, b) => if decide (status ≠ 200%Z) then (sent, []) else (sent, pieces b)
            end.

Definition OnPayload (c : context) (p : Plugin) (payload : Named.object)
    : option (context * Plugin * list flow_event) :=
  match ParsePayload payload with
  | None => Some (c, p, [])
  | Some (text, _, final) =>
      '(p, ds) ← synthesize p text;
      let '(c, v, out) := speak_all Resample Flush c (streamer p, resampler p) ds in
      let p := with_voice p v in
      if final then
        let '(c, v, out') := speak Resample Flush c (streamer p, resampler p) [] true in
        Some (c, with_voice p v, out ++ out')
      else Some (c, p, out)
  end.

#[export] Instance openai_speaker : Speaker R Plugin := {
  voice p := (streamer p, resampler p);
  ready p := valid_url (BaseURL (cfg p)) = true;
  on_payload := OnPayload;
  on_signal := OnSignal;
  answer p d :=
    match ParsePayload d with
    | Some (text, _, _) => match synthesize p text with Some (_, ds) => ds | None => [] end
    | None => []
    end;
}.

Lemma synthesize_total p text :
  valid_url (BaseURL (cfg p)) = true →
  ∃ p' ds, synthesize p text = Some (p', ds) ∧
    streamer p' = streamer p ∧ resampler p' = resampler p ∧ cfg p' = cfg p.
Proof.
  intros Hu. unfold synthesize. destruct (_ || _); [by eexists _, _|]. unfold createRequest. rewrite Hu.
  simpl. destruct (Do _ _) as [[st b]|]; [case_decide|]; by eexists _, _.
Qed.

#[export] Instance openai_laws : SpeakerLaws Resample Flush Plugin (H := openai_speaker).
Proof.
  split.
  - intros c p d Hu. cbn in *. unfold OnPayload. pose proof (ParsePayload_final d) as Hf.
    destruct (ParsePayload d) as [[[text em] final]|]; [|rewrite Hf; by exists p].
    subst final. destruct (synthesize_total p text Hu) as (p1 & ds & -> & Hs & Hr & Hc). cbn.
    rewrite Hs, Hr. unfold say.
    destruct (speak_all Resample Flush c (streamer p, resampler p) ds) as [[c1 [s1 r1]] o1]. cbn.
    destruct (is_final d); [|eexists; split; [done|]; split; [done|]; cbn; by rewrite Hc].
    cbn. destruct (speak Resample Flush c1 (s1, r1) [] true) as [[c2 [s2 r2]] o2].
    eexists. split; [done|]. split; [done|]. cbn. by rewrite Hc.
  - intros p x Hu. cbn. unfold OnSignal. by case_decide.
Qed.
End plugin.
End OpenaiTts.

(** ** Properties *)
Lemma NewAudioStreamer_wf : streamer_wf (NewAudioStreamer AudioSampleRate AudioChannels (100 * 1000000)).
Proof. apply (bool_decide_unpack _). vm_compute. exact I. Qed.

(** Synthesised sentences become clean speech, as long as the handlers of the
    plugin run one after the other; the tracks of its wrapper do not ensure
    that: a signal may reset the streamer while a payload is written to it.  A
    started plugin that has handled any payloads and signals, some under
    cancelled contexts, and is then interrupted speaks the next utterance as
    the start of speech, frames
    of 100 ms, at most one shorter frame, and the end of speech.  The frames
    carry the decoded audio of the events of its responses, in order and
    nothing else; a rejected or failed request contributes nothing and the
    end of speech is sent all the same. *)
Theorem minimax_speaks_cleanly MarshalRequest valid_url Do UnmarshalResponse cfg client p evs x ds d :
  let speaker := Minimax.minimax_speaker MarshalRequest valid_url Do UnmarshalResponse in
  Minimax.OnStart cfg client = Ok p → valid_url (Minimax.BaseUrl cfg) = true →
  Named.name x = SignalInterrupter → Forall (λ d, is_final d = false) ds → is_final d = true →
  ∃ p1 o1 p2 out,
    react_all (H := speaker) p (evs ++ [EvSignal x]) = Some (p1, o1) ∧
    react_all (H := speaker) p1 (utterance ds d) = Some (p2, out) ∧
    framed (Minimax.streamer p1) (concat (answers (H := speaker) p1 (ds ++ [d]))) out ∧
    bufferSize (Minimax.streamer p1) = 3200 ∧ idle (Minimax.streamer p2).
Proof.
  intros speaker Hst Hu Hx Hds Hd.
  assert (streamer_wf (Minimax.streamer p) ∧ bufferSize (Minimax.streamer p) = 3200 ∧
    Minimax.BaseUrl (Minimax.config p) = Minimax.BaseUrl cfg) as (Hwf & Hb & Hurl).
  { unfold Minimax.OnStart in Hst. destruct (_ || _); [done|]. simplify_eq. cbn.
    split; [apply NewAudioStreamer_wf|]. split; [apply caller_frame_sizes|]. by case_decide. }
  pose proof (Minimax.minimax_laws MarshalRequest valid_url Do UnmarshalResponse) as Hlaws.
  destruct (spoken_after_interruption no_resample no_flush (H := speaker) p evs x ds d)
    as (p1 & o1 & p2 & out & E1 & E2 & Hi & Hfr & Hf); [cbn; by rewrite Hurl|done..|].
  exists p1, o1, p2, out. split; [done|]. split; [done|]. cbn in Hfr.
  rewrite audio_plain, app_nil_r in Hfr. split; [done|]. split; [|done].
  cbn in Hf. destruct Hf as (_ & _ & ->). done.
Qed.

(** The same for the other two services; the OpenAI one resamples. *)
Lemma elevenlabs_speaks_cleanly MarshalRequest valid_url Do cfg client text evs x ds d :
  let speaker := Elevenlabs.elevenlabs_speaker MarshalRequest valid_url Do in
  let p := Elevenlabs.OnStart (Elevenlabs.mkPlugin small_streamer client cfg text) in
  Named.name x = SignalInterrupter → Forall (λ d, is_final d = false) ds → is_final d = true →
  ∃ p1 o1 p2 out,
    react_all (H := speaker) p (evs ++ [EvSignal x]) = Some (p1, o1) ∧
    react_all (H := speaker) p1 (utterance ds d) = Some (p2, out) ∧
    framed (Elevenlabs.streamer p1) (concat (answers (H := speaker) p1 (ds ++ [d]))) out.
Proof.
  intros speaker p Hx Hds Hd.
  pose proof (Elevenlabs.elevenlabs_laws MarshalRequest valid_url Do) as Hlaws.
  destruct (spoken_after_interruption no_resample no_flush (H := speaker) p evs x ds d)
    as (p1 & o1 & p2 & out & E1 & E2 & _ & Hfr & _); [done|apply NewAudioStreamer_wf|done..|].
  exists p1, o1, p2, out. split; [done|]. split; [done|]. cbn in Hfr.
  by rewrite audio_plain, app_nil_r in Hfr.
Qed.

Lemma openai_speaks {R E} (Resample : R → list Z → R * result E (list Z)) Flush (NewResampler : Z → Z → Z → Z → result E R)
    MarshalRequest valid_url Do cfg client p evs x ds d :
  let speaker := OpenaiTts.openai_speaker Resample Flush MarshalRequest valid_url Do in
  OpenaiTts.OnStart NewResampler cfg client = Ok p → valid_url (OpenaiTts.BaseURL cfg) = true →
  Named.name x = SignalInterrupter → Forall (λ d, is_final d = false) ds → is_final d = true →
  ∃ p1 o1 p2 out,
    react_all (H := speaker) p (evs ++ [EvSignal x]) = Some (p1, o1) ∧
    react_all (H := speaker) p1 (utterance ds d) = Some (p2, out) ∧
    framed (OpenaiTts.streamer p1)
      (audio Resample Flush (OpenaiTts.resampler p1) (answers (H := speaker) p1 (ds ++ [d])) []) out.
Proof.
  intros speaker Hst Hu Hx Hds Hd.
  pose proof (OpenaiTts.openai_laws Resample Flush MarshalRequest valid_url Do) as Hlaws.
  unfold OpenaiTts.OnStart in Hst. destruct (NewResampler _ _ _ _) as [r|]; [|done]. simplify_eq.
  destruct (spoken_after_interruption Resample Flush (H := speaker)
    (OpenaiTts.mkPlugin (NewAudioStreamer AudioSampleRate AudioChannels (100 * 1000000)) client cfg (Some r))
    evs x ds d) as (p1 & o1 & p2 & out & E1 & E2 & _ & Hfr & _); [done|apply NewAudioStreamer_wf|done..|].
  by exists p1, o1, p2, out.
Qed.

(** ** Examples: a service that says two bytes per request *)
Definition demo_obj (text emotion : string) (final : bool) : Named.object :=
  freeze (foldl (set_ignored demo_json demo_grow) (new_payload PayloadLLMChunk)
    ([("sentence", VString text); ("is_final", VBool final)] ++
     (if decide (emotion = "") then [] else [("emotion", VString emotion)]))).
Definition demo_interrupt : Named.object := new_signal SignalInterrupter.

Definition demo_minimax_body : list Z := unlines (bytes_of_string <$> ["data: 0a0B"; "event: x"; ""]) ++ bytes_of_string "data: ff".
Definition demo_minimax_do (h : list http_request) (r : http_request) : result io_error http_response :=
  Ok (OpenaiLlm.mkResponse (if decide (length h = 1) then 500 else 200) (mkReader demo_minimax_body EOF)).
Definition demo_emotion (r : Minimax.MinimaxRequest) : result unit (list Z) :=
  Ok (bytes_of_string (Minimax.Emotion (Minimax.voiceSetting (Minimax.mr_Options r)))).
Definition demo_audio (b : list Z) : result unit Minimax.MinimaxResponse :=
  Ok (Minimax.mkResponse (Some (string_of_bytes b)) 0 "").
Definition demo_minimax_cfg : Minimax.MinimaxConfig := Minimax.mkConfig "https://api" "" "token" "voice".
Definition demo_minimax : Minimax.Plugin :=
  match Minimax.OnStart demo_minimax_cfg [] with Ok p => p | Err _ => Minimax.mkPlugin demo_minimax_cfg
    (Minimax.mkOptions "" true (Minimax.mkVoice "" (float64_of_int64 0) 0 0 "") (Minimax.mkAudio 0 0 "" 0)
      (Minimax.mkStreamOptions true) "") small_streamer [] end.
Definition demo_speaker := Minimax.minimax_speaker demo_emotion (λ _, true) demo_minimax_do demo_audio.

(** Interrupted after the first sentence; of the next utterance the first
    request fails. *)
Lemma minimax_speaks_cleanly_witness :
  ∃ p1 o1 p2 out,
    react_all (H := demo_speaker) demo_minimax [EvPayload None (demo_obj "One." "" false); EvSignal demo_interrupt]
      = Some (p1, o1) ∧
    react_all (H := demo_speaker) p1 (utterance [demo_obj "Two." "" false; demo_obj "Three." "" false] (demo_obj "" "" true))
      = Some (p2, out) ∧
    framed (Minimax.streamer p1) [10; 11; 255]%Z out.
Proof.
  destruct (minimax_speaks_cleanly demo_emotion (λ _, true) demo_minimax_do demo_audio demo_minimax_cfg []
    demo_minimax [EvPayload None (demo_obj "One." "" false)] demo_interrupt
    [demo_obj "Two." "" false; demo_obj "Three." "" false] (demo_obj "" "" true))
    as (p1 & o1 & p2 & out & E1 & E2 & Hf & _).
  - reflexivity.
  - reflexivity.
  - reflexivity.
  - repeat constructor.
  - reflexivity.
  - exists p1, o1, p2, out. split; [exact E1|]. split; [exact E2|].
    assert (concat (answers (H := demo_speaker) p1 [demo_obj "Two." "" false; demo_obj "Three." "" false; demo_obj "" "" true])
      = [10; 11; 255]%Z) as Ha.
    { clear -E1. vm_compute in E1. injection E1 as <- _. vm_compute. reflexivity. }
    rewrite <-Ha. exact Hf.
Defined.

(** An emotion stays: the request options share one [VoiceSetting], so the
    sentence after an emotional one is spoken with the same emotion. *)
Lemma emotion_is_sticky :
  (rq_body <$>
    (match react_all (H := demo_speaker) demo_minimax
       [EvPayload None (demo_obj "One." "happy" true); EvSignal demo_interrupt; EvPayload None (demo_obj "Two." "" true)] with
     | Some (p, _) => Minimax.client p | None => [] end))
  = [bytes_of_string "happy"; bytes_of_string "happy"].
Proof. vm_compute. reflexivity. Qed.

(** The resampler is not reset by an interruption: it holds the end of the
    utterance that was cut off, which the next one starts with.  Here the
    service answers 1, 2, 3 to every request and the resampler holds back the
    last sample. *)
Definition demo_tts_do (h : list http_request) (r : http_request) : result io_error (Z * body) :=
  Ok (200%Z, mkBody [[1; 2]%Z; []] [3]%Z EOF).
Definition demo_tts : OpenaiTts.Plugin :=
  OpenaiTts.mkPlugin small_streamer [] (OpenaiTts.mkConfig "key" "https://api" "tts-1" "alloy" float64_one) (Some ([] : list Z)).
Definition demo_tts_speaker :=
  OpenaiTts.openai_speaker double_all double_flush (λ _, Ok []) (λ _, true) demo_tts_do.

Lemma interrupted_audio_leads_next :
  match react_all (H := demo_tts_speaker) demo_tts
    [EvPayload None (demo_obj "One." "" false); EvSignal demo_interrupt] with
  | Some (p, _) =>
      match react_all (H := demo_tts_speaker) p (utterance [] (demo_obj "Two." "" true)) with
      | Some (_, out) => (out ≫= frame_data) = [3; 3; 1; 1; 2; 2; 3; 3]%Z
      | None => False
      end
  | None => False
  end.
Proof. vm_compute. reflexivity. Qed.

(** A base URL the parser refuses leaves a nil request, and the handler
    panics on it. *)
Lemma invalid_base_url_panics :
  OpenaiTts.OnPayload double_all double_flush (λ _, Ok []) (λ _, false) demo_tts_do None demo_tts
    (demo_obj "One." "" false) = None.
Proof. vm_compute. reflexivity. Qed.
