(* ===== verification/AsrVendors.v ===== *)
(** * Speech recognisers: internal/plugins/deepgram_asr, qwen_asr, google_asr

    The providers behind [AsrBase].  Deepgram and Qwen are WebSocket clients
    whose read loop runs beside the plugin's own goroutine: [Start] opens a
    socket, the callbacks [OnMessage] and [OnClose] arrive at any time.  The
    plugins are records of operations on the one field both share, the
    [link]; a machine interleaves them.  Google is a gRPC stream with a read
    loop of its own.

    The JSON codec and the URL parser are arguments; base64 and query strings
    are those of [Encoding] and [UrlQuery]. *)

From S2P Require Import Prelude.
From S2P Require Import GoStrings.
From S2P Require Import GoFloat.
From S2P Require Import Utf8.
From S2P Require Import Encoding.
From S2P Require Import UrlQuery.
From S2P Require Import Schema.
From S2P Require Import EngineTypes.
From S2P Require Import PluginFlow.
From S2P Require Import AsrBase.
From stdpp Require Import pretty.

(** ** URLs *)
Record URL := mkURL { url_base : string; url_query : gmap string (list string); url_fragment : string }.
Definition URL_String (u : URL) : string :=
  url_base u +:+ match Encode (url_query u) with [] => "" | q => "?" +:+ string_of_bytes q end
    +:+ (if decide (url_fragment u = "") then "" else "#" +:+ url_fragment u).

(** ** Sockets *)
Inductive ws_frame := Binary (data : list Z) | TextFrame (data : list Z) | CloseFrame.
Record link := mkLink { socket : option nat; connected : bool }.
Record dial_request := mkDial { dial_url : string; dial_header : list (string * string) }.

(** What a recogniser does with its socket.  A write names the socket it goes
    to; [ws_opened] is the end of [Start], told whether its first write
    succeeds; [ws_message] is [None] when the handler panics. *)
Record ws_ops := mkOps {
  ws_opened : bool → link → link * list (nat * ws_frame);
  ws_send : link → list Z → result unit (list (nat * ws_frame));
  ws_stop : link → link * list (nat * ws_frame);
  ws_close : link → link;
  ws_message : link → list Z → option (link * list (nat * ws_frame) * list flow_event);
  ws_goodbye : ws_frame → bool;
}.

(** A write to [p.socket]. *)
Definition to_socket (l : link) (f : ws_frame) : list (nat * ws_frame) :=
  match socket l with Some i => [(i, f)] | None => [] end.
Definition set_connected (l : link) (b : bool) : link := mkLink (socket l) b.

(** ** deepgram_asr *)
Module Deepgram.
Record DeepgramConfig := mkConfig {
  ApiKey : string; BaseUrl : string; Model : string; Language : string;
  EndpointingMs : Z; UtteranceEndMs : Z }.

Definition typeResults : string := "Results".
Definition typeSpeechStart : string := "SpeechStarted".
Definition typeUtteranceEnd : string := "UtteranceEnd".
Definition typeMetadata : string := "Metadata".
Definition typeError : string := "error".

Record alternative := mkAlternative { a_Transcript : string; a_Confidence : float64 }.
Record channel := mkChannel { Alternatives : list alternative }.
Record serverMessage := mkMessage {
  m_Type : string; m_IsFinal : bool; m_SpeechFinal : bool; m_Channel : option channel;
  m_ErrCode : string; m_ErrMsg : string }.

Definition closeStreamPayload : list Z :=
  [123; 34; 116; 121; 112; 101; 34; 58; 34; 67; 108; 111; 115; 101; 83; 116; 114; 101; 97; 109; 34; 125]%Z.

Section plugin.
Context (Parse : string → result unit URL).
Context (Unmarshal : list Z → result unit serverMessage).
Context (Marshal : anyv → result schema_error (list Z)) (grow : nat → nat → nat).
Implicit Types cfg : DeepgramConfig.

(** The parameters [buildURL] sets, in its order. *)
Definition query_of cfg (q : gmap string (list string)) : gmap string (list string) :=
  let q := Values_Set q "model" (if decide (Model cfg = "") then "nova-3" else Model cfg) in
  let q := if decide (Language cfg = "") then q else Values_Set q "language" (Language cfg) in
  let q := Values_Set q "interim_results" "true" in
  let q := Values_Set q "vad_events" "true" in
  let endpointMs := if decide (EndpointingMs cfg ≤ 0)%Z then 300%Z else EndpointingMs cfg in
  let q := Values_Set q "endpointing" (pretty endpointMs) in
  let utteranceEndMs := if decide (UtteranceEndMs cfg ≤ 0)%Z then 1000%Z else UtteranceEndMs cfg in
  let q := Values_Set q "utterance_end_ms" (pretty utteranceEndMs) in
  let q := Values_Set q "encoding" "linear16" in
  let q := Values_Set q "sample_rate" "16000" in
  let q := Values_Set q "channels" "1" in
  let q := Values_Set q "smart_format" "true" in
  Values_Set q "punctuate" "true".

Definition buildURL cfg : result unit string :=
  let base := if decide (BaseUrl cfg = "") then "wss://api.deepgram.com/v1/listen" else BaseUrl cfg in
  match Parse base with
  | Err e => Err e
  | Ok u => Ok (URL_String (mkURL (url_base u) (query_of cfg (url_query u)) (url_fragment u)))
  end.

(** [Start] up to the dial: nothing to do, a failure, or a request. *)
Definition Start cfg (l : link) : result unit (option dial_request) :=
  if connected l then Ok None
  else match buildURL cfg with
       | Err e => Err e
       | Ok wsURL => Ok (Some (mkDial wsURL [("Authorization", "Token " +:+ ApiKey cfg)]))
       end.

Definition SendAudioData (l : link) (data : list Z) : result unit (list (nat * ws_frame)) :=
  if negb (connected l) then Err tt else Ok (to_socket l (Binary data)).

Definition Stop (l : link) : link * list (nat * ws_frame) :=
  if negb (connected l) then (l, [])
  else let l := set_connected l false in (l, to_socket l (TextFrame closeStreamPayload)).

Definition Shutdown (l : link) : link * list (nat * ws_frame) := Stop l.

(** The end of [Start]. *)
Definition Start_opened (l : link) : link * list (nat * ws_frame) := (set_connected l true, []).

Definition OnClose (l : link) : link := set_connected l false.

Definition handleResults (msg : serverMessage) : list flow_event :=
  match m_Channel msg with
  | Some (mkChannel (alt :: _)) =>
      let transcript := a_Transcript alt in
      if bool_decide (transcript = "") && negb (m_IsFinal msg) then []
      else HandleTranscription Marshal grow
        (Some (mkTranscription transcript (m_IsFinal msg && m_SpeechFinal msg) "" "" false))
  | _ => []
  end.

Definition OnMessage (l : link) (body : list Z) : option (link * list (nat * ws_frame) * list flow_event) :=
  match Unmarshal body with
  | Err _ => Some (l, [], [])
  | Ok msg =>
      if decide (m_Type msg = typeResults) then Some (l, [], handleResults msg)
      else if decide (m_Type msg = typeSpeechStart) then Some (l, [], [])
      else if decide (m_Type msg = typeUtteranceEnd) then Some (l, [], [])
      else if decide (m_Type msg = typeMetadata) then Some (l, [], [])
      else if decide (m_Type msg = typeError) then
        if connected l
        then let l := set_connected l false in Some (l, to_socket l CloseFrame, [])
        else Some (l, [], [])
      else Some (l, [], [])
  end.

Definition goodbye (f : ws_frame) : bool :=
  match f with
  | CloseFrame => true
  | TextFrame d => bool_decide (d = closeStreamPayload)
  | Binary _ => false
  end.

Definition deepgram_ops : ws_ops :=
  mkOps (λ _, Start_opened) SendAudioData Stop OnClose OnMessage goodbye.

(** What a message says about the speech: a transcript and whether it ends
    the utterance. *)
Definition heard (msg : serverMessage) : option (string * bool) :=
  if decide (m_Type msg = typeResults) then
    match m_Channel msg with
    | Some (mkChannel (alt :: _)) =>
        let final := m_IsFinal msg && m_SpeechFinal msg in
        if bool_decide (a_Transcript alt = "") && negb final then None
        else Some (a_Transcript alt, final)
    | _ => None
    end
  else None.

(** Every transcript is forwarded, with its mark; nothing else is. *)
Lemma OnMessage_forwards l body msg u :
  Unmarshal body = Ok msg →
  ∃ l' ws out, OnMessage l body = Some (l', ws, out) ∧
    match heard msg with
    | None => out = []
    | Some (text, final) => ∃ p, out = [SendPayload p] ∧ Named.name p = PayloadASRResult ∧
        UnpackSchema u p = mkTranscription text final "" (LanguageCode u) (Stable u)
    end.
Proof.
  intros Hm. unfold OnMessage, heard. rewrite Hm.
  destruct (decide (m_Type msg = typeResults)) as [|].
  - eexists _, _, _. split; [done|]. unfold handleResults.
    destruct (m_Channel msg) as [[[|alt alts]]|]; [done| |done].
    set (final := m_IsFinal msg && m_SpeechFinal msg). cbn zeta.
    destruct (bool_decide (a_Transcript alt = "") && negb (m_IsFinal msg)) eqn:Hi.
    + apply andb_true_iff in Hi as [-> Hf%negb_true_iff].
      unfold final. by rewrite Hf.
    + destruct (bool_decide (a_Transcript alt = "") && negb final) eqn:He.
      * unfold HandleTranscription. cbn [Text Final]. by rewrite He.
      * destruct (transcription_arrives Marshal grow (mkTranscription (a_Transcript alt) final "" "" false) u)
          as (p & Hp & Hn & Hu).
        { cbn. apply andb_false_iff in He as [He%bool_decide_eq_false|He%negb_false_iff]; auto. }
        exists p. by rewrite Hp.
  - repeat case_decide; try done; try (by eexists _, _, _); destruct (connected l); by eexists _, _, _.
Qed.
End plugin.
End Deepgram.

(** ** qwen_asr *)
Module Qwen.
Definition TypeUpdate : string := "session.update".
Definition TypeAppend : string := "input_audio_buffer.append".
Definition TypeError : string := "error".
Definition TypeCreated : string := "session.created".
Definition TypeUpdated : string := "session.updated".
Definition TypeSpeechStart : string := "input_audio_buffer.speech_started".
Definition TypeSpeechStopped : string := "input_audio_buffer.speech_stopped".
Definition TypeCommitted : string := "input_audio_buffer.committed".
Definition TypeItemCreated : string := "conversation.item.created".
Definition TypeText : string := "conversation.item.input_audio_transcription.text".
Definition TypeCompleted : string := "conversation.item.input_audio_transcription.completed".
Definition TypeFailed : string := "conversation.item.input_audio_transcription.failed".

Record QwenConfig := mkConfig {
  BaseUrl : string; ApiKey : string; Model : string; Threshold : float64; SilenceDuration : Z }.

Record Corpus := mkCorpus { co_Text : string }.
Record InputAudioTranscription := mkInput { ia_Language : string; ia_Corpus : Corpus }.
Record TurnDetection := mkTurn { td_Type : string; td_Threshold : float64; td_SilenceDurationMs : Z }.
Record MessageSession := mkSession {
  ms_ID : string; ms_Object : string; ms_Model : string; ms_Modalities : list string;
  ms_InputAudioFormat : string; ms_SampleRate : Z;
  ms_InputAudioTranscription : option InputAudioTranscription; ms_TurnDetection : option TurnDetection }.
Record MessageError := mkError {
  me_Type : string; me_Code : string; me_Message : string; me_Param : string; me_EventID : string }.
Record Message := mkMessage {
  EventID : string; Type_ : string; Session : option MessageSession; Audio : string;
  Error : option MessageError; AudioStartMS : Z; AudioEndMS : Z; PreviousItemId : string; ItemID : string;
  ContentIndex : Z; Language : string; Emotion : string; Text : string; Stash : string; Transcript : string }.

(** A message with these fields and zero values elsewhere. *)
Definition message (id type : string) (session : option MessageSession) (audio : string) : Message :=
  mkMessage id type session audio None 0 0 "" "" 0 "" "" "" "" "".

Section plugin.
Context (Parse : string → result unit URL) (uuid : string).
Context (MarshalMessage : Message → result unit (list Z)) (Unmarshal : list Z → result unit Message).
Context (Marshal : anyv → result schema_error (list Z)) (grow : nat → nat → nat).
Context (cfg : QwenConfig).

Definition Start (l : link) : result unit (option dial_request) :=
  if connected l then Ok None
  else match Parse (BaseUrl cfg) with
       | Err e => Err e
       | Ok u =>
           let u := mkURL (url_base u) (Values_Set (url_query u) "model" (Model cfg)) (url_fragment u) in
           Ok (Some (mkDial (URL_String u) [("Authorization", "Bearer " +:+ ApiKey cfg)]))
       end.

Definition initialization : Message :=
  message uuid TypeUpdate
    (Some (mkSession "" "" "" [] "pcm" 16000 None
      (Some (mkTurn "server_vad" (Threshold cfg) (SilenceDuration cfg))))) "".

Definition writeInitializationMessage (l : link) : list (nat * ws_frame) :=
  let payload := match MarshalMessage initialization with Ok b => b | Err _ => [] end in
  to_socket l (TextFrame payload).

(** The end of [Start]: connected, then the first message, whose failure is
    the result. *)
Definition Start_opened (write_ok : bool) (l : link)
    : link * list (nat * ws_frame) * result unit unit :=
  let l := set_connected l true in
  if write_ok then (l, writeInitializationMessage l, Ok tt) else (l, [], Err tt).

Definition audio_message (data : list Z) : Message :=
  message uuid TypeAppend None (EncodeToString data).

Definition SendAudioData (l : link) (data : list Z) : result unit (list (nat * ws_frame)) :=
  if negb (connected l) then Err tt
  else match MarshalMessage (audio_message data) with
       | Err e => Err e
       | Ok payload => Ok (to_socket l (TextFrame payload))
       end.

Definition Stop (l : link) : link * list (nat * ws_frame) :=
  if negb (connected l) then (l, [])
  else let l := set_connected l false in (l, to_socket l CloseFrame).

Definition Shutdown (l : link) : link * list (nat * ws_frame) := Stop l.

Definition OnClose (l : link) : link := set_connected l false.

(** [payload.Session.ID] and [payload.Error.Code] dereference pointers the
    message may lack. *)
Definition OnMessage (l : link) (body : list Z) : option (link * list (nat * ws_frame) * list flow_event) :=
  match Unmarshal body with
  | Err _ => Some (l, [], [])
  | Ok payload =>
      let t := Type_ payload in
      if decide (t = TypeCreated ∨ t = TypeUpdated) then _ ← Session payload; Some (l, [], [])
      else if decide (t = TypeSpeechStart ∨ t = TypeSpeechStopped ∨ t = TypeItemCreated) then Some (l, [], [])
      else if decide (t = TypeText) then
        Some (l, [], HandleTranscription Marshal grow (Some (mkTranscription (Stash payload) false "" "" false)))
      else if decide (t = TypeCompleted) then
        Some (l, [], HandleTranscription Marshal grow
          (Some (mkTranscription (Transcript payload) true (Emotion payload) "" false)))
      else if decide (t = TypeFailed) then _ ← Error payload; Some (l, [], [])
      else Some (l, [], [])
  end.

Definition goodbye (f : ws_frame) : bool := match f with CloseFrame => true | _ => false end.

Definition qwen_ops : ws_ops :=
  mkOps (λ write_ok l, (Start_opened write_ok l).1) SendAudioData Stop OnClose OnMessage goodbye.

(** The audio of a frame can be read back from the message. *)
Lemma audio_message_decodes data :
  Forall is_byte data → b64_decode (bytes_of_string (Audio (audio_message data))) = Some data.
Proof.
  intros Hd. unfold audio_message, message, EncodeToString. cbn [Audio].
  rewrite bytes_string_bytes by by apply b64_encode_bytes. by apply b64_roundtrip.
Qed.

(** A completed utterance is forwarded with its emotion. *)
Lemma OnMessage_completed l body payload u :
  Unmarshal body = Ok payload → Type_ payload = TypeCompleted →
  ∃ p, OnMessage l body = Some (l, [], [SendPayload p]) ∧ Named.name p = PayloadASRResult ∧
    UnpackSchema u p = mkTranscription (Transcript payload) true (Emotion payload) (LanguageCode u) (Stable u).
Proof.
  intros Hm Ht. unfold OnMessage. rewrite Hm, Ht. cbn zeta.
  rewrite !decide_False by (unfold TypeCompleted, TypeCreated, TypeUpdated, TypeSpeechStart,
    TypeSpeechStopped, TypeItemCreated, TypeText; naive_solver congruence).
  rewrite decide_True by done.
  destruct (transcription_arrives Marshal grow (mkTranscription (Transcript payload) true (Emotion payload) "" false) u)
    as (p & Hp & Hn & Hu); [by right|]. exists p. by rewrite Hp.
Qed.
End plugin.
End Qwen.

(** ** Sockets and callbacks interleaved

    Socket [i] is the [i]-th one dialled.  [starting] is the [Start] that has
    stored its socket and not yet set [connected]; the read loop of a socket
    runs from then on until [OnClose]. *)
Record world := mkWorld {
  plug : link; starting : option nat; next : nat;
  wire : list (nat * ws_frame); closed : gset nat; flow : list flow_event }.

Definition world0 : world := mkWorld (mkLink None false) None 0 [] ∅ [].

Inductive label :=
| LDial                              (* a frame arrives unconnected, the dial succeeds *)
| LOpened (write_ok : bool)          (* Start sets connected and writes its first message, if any *)
| LAudio (d : list Z)
| LStop
| LClose (i : nat)                   (* OnClose of socket i *)
| LMessage (i : nat) (body : list Z). (* OnMessage of socket i *)

Section machine.
Context (ops : ws_ops).

Definition step (w : world) (a : label) : option world :=
  match a with
  | LDial =>
      if decide (starting w = None ∧ connected (plug w) = false) then
        Some (mkWorld (mkLink (Some (next w)) false) (Some (next w)) (S (next w)) (wire w) (closed w) (flow w))
      else None
  | LOpened write_ok =>
      _ ← starting w;
      let '(l, ws) := ws_opened ops write_ok (plug w) in
      Some (mkWorld l None (next w) (wire w ++ ws) (closed w) (flow w))
  | LAudio d =>
      if decide (starting w = None) then
        let ws := match ws_send ops (plug w) d with Ok ws => ws | Err _ => [] end in
        Some (mkWorld (plug w) None (next w) (wire w ++ ws) (closed w) (flow w))
      else None
  | LStop =>
      if decide (starting w = None) then
        let '(l, ws) := ws_stop ops (plug w) in
        Some (mkWorld l None (next w) (wire w ++ ws) (closed w) (flow w))
      else None
  | LClose i =>
      if decide (i < next w ∧ i ∉ closed w) then
        Some (mkWorld (ws_close ops (plug w)) (starting w) (next w) (wire w) ({[i]} ∪ closed w) (flow w))
      else None
  | LMessage i body =>
      if decide (i < next w ∧ i ∉ closed w) then
        '(l, ws, out) ← ws_message ops (plug w) body;
        Some (mkWorld l (starting w) (next w) (wire w ++ ws) (closed w) (flow w ++ out))
      else None
  end.

Fixpoint run (w : world) (ls : list label) : option world :=
  match ls with
  | [] => Some w
  | a :: ls => w ← step w a; run w ls
  end.

(** A socket the plugin still has to care for: it was neither closed nor
    asked to close. *)
Definition live (w : world) (i : nat) : Prop :=
  i < next w ∧ (i ∉ closed w) ∧ Forall (λ x, (x.1 = i) → ws_goodbye ops x.2 = false) (wire w).

(** The sockets the plugin held when the close of another one was reported:
    [OnClose] does not ask which socket was closed, and the plugin takes itself
    for disconnected. *)
Definition forsakes (w : world) (a : label) : gset nat :=
  match a, socket (plug w) with
  | LClose i, Some j => if decide (i = j) then ∅ else {[j]}
  | _, _ => ∅
  end.
Fixpoint forsaken (w : world) (ls : list label) : gset nat :=
  match ls with
  | [] => ∅
  | a :: ls => forsakes w a ∪ match step w a with Some w => forsaken w ls | None => ∅ end
  end.

(** What the operations do to the link. *)
Record ws_laws : Prop := {
  opened_ok : ∀ b l, (ws_opened ops b l).1 = set_connected l true;
  stop_ok : ∀ l, ws_stop ops l = (l, []) ∧ connected l = false ∨
    connected l = true ∧ (ws_stop ops l).1 = set_connected l false ∧
      ∀ i, socket l = Some i → ∃ f, (i, f) ∈ (ws_stop ops l).2 ∧ ws_goodbye ops f = true;
  close_ok : ∀ l, ws_close ops l = set_connected l false;
  message_ok : ∀ l body l' ws out, ws_message ops l body = Some (l', ws, out) →
    l' = l ∨ l' = set_connected l false ∧
      ∀ i, socket l = Some i → ∃ f, (i, f) ∈ ws ∧ ws_goodbye ops f = true;
}.

(** Besides the sockets of [F] only the one of the plugin is live, and only
    while the plugin is connected or about to be. *)
Definition one_live (F : gset nat) (w : world) : Prop :=
  (∀ i, live w i → i ∉ F → socket (plug w) = Some i ∧ (connected (plug w) = true ∨ starting w = Some i)) ∧
  (∀ i, starting w = Some i → socket (plug w) = Some i).

Lemma live_mono w w' i :
  next w' = next w → closed w ⊆ closed w' → (∃ ws, wire w' = wire w ++ ws) → live w' i → live w i.
Proof.
  intros Hn Hc [ws Hw] (Hi & Hcl & Hall). rewrite Hn in Hi. rewrite Hw, Forall_app in Hall.
  split; [done|]. split; [set_solver|tauto].
Qed.

Lemma live_app w l st ws fl i :
  live (mkWorld l st (next w) (wire w ++ ws) (closed w) fl) i → live w i.
Proof. intros Hi. apply (live_mono w _ i) in Hi; [done..|by exists ws]. Qed.

Lemma goodbye_not_live w i f : (i, f) ∈ wire w → ws_goodbye ops f = true → ¬ live w i.
Proof.
  intros Hin Hg (_ & _ & Hall). rewrite Forall_forall in Hall.
  specialize (Hall (i, f) Hin eq_refl). simpl in Hall. congruence.
Qed.

(** [connected] was cleared and the socket told. *)
Lemma one_live_told F w w' :
  one_live F w → starting w' = None ∨ starting w' = starting w →
  plug w' = set_connected (plug w) false → next w' = next w → closed w' = closed w →
  (∃ ws, wire w' = wire w ++ ws ∧ ∀ i, socket (plug w) = Some i → ∃ f, (i, f) ∈ ws ∧ ws_goodbye ops f = true) →
  one_live F w'.
Proof.
  intros [Hl Hs] Hst Hp Hn Hc (ws & Hw & Hgb). split.
  - intros i Hi HF. exfalso.
    assert (live w i) as Hi0 by (eapply live_mono; [done| |by exists ws|done]; by rewrite Hc).
    destruct (Hl i Hi0 HF) as [Hsock _]. destruct (Hgb i Hsock) as (f & Hin & Hg).
    eapply (goodbye_not_live w' i f); [|done|done]. rewrite Hw. set_solver.
  - intros i Hi. rewrite Hp. simpl. apply Hs. destruct Hst; congruence.
Qed.

Lemma one_live_step F w a w' :
  ws_laws → one_live F w → step w a = Some w' → one_live (F ∪ forsakes w a) w'.
Proof.
  intros Hlaws [Hl Hs] Hstep. destruct a as [|b|d| |i|i body]; simpl in Hstep; [| | | | |];
    try (replace (F ∪ forsakes w _) with F by (simpl; set_solver)).
  - case_decide as Hd; [|done]. simplify_eq. destruct Hd as [Hn Hc]. split; simpl; [|naive_solver].
    intros i (Hi & Hcl & Hall) HF. simpl in *. destruct (decide (i = next w)) as [->|Hne]; [by auto|].
    destruct (Hl i) as [_ [?|?]]; [split; [lia|done]|done|congruence..].
  - destruct (starting w) as [j|] eqn:Hj; [|done]. simpl in Hstep.
    pose proof (opened_ok Hlaws b (plug w)) as Ho. destruct (ws_opened ops b (plug w)) as [l ws].
    simplify_eq/=. split; simpl; [|done]. intros i Hi HF.
    destruct (Hl i (live_app _ _ _ _ _ _ Hi) HF) as [Hsock _]. by auto.
  - case_decide as Hn; [|done]. simplify_eq/=. split; simpl; [|done]. intros i Hi HF.
    destruct (Hl i (live_app _ _ _ _ _ _ Hi) HF) as [Hsock Hc].
    split; [done|]. rewrite Hn in Hc. tauto.
  - case_decide as Hn; [|done]. pose proof (stop_ok Hlaws (plug w)) as Hstop.
    destruct (ws_stop ops (plug w)) as [l ws]. simplify_eq/=.
    destruct Hstop as [[[= -> ->] Hc]|(Hc & -> & Hgb)].
    + split; simpl; [|done]. intros i Hi HF. rewrite app_nil_r in Hi.
      destruct (Hl i) as [? [?|?]]; [done|done|congruence..].
    + apply (one_live_told F w); [done|by left|done..|]. by exists ws.
  - case_decide as Hd; [|done]. simplify_eq/=. rewrite (close_ok Hlaws). split; simpl; [|exact Hs].
    intros j Hj HF. exfalso. destruct (Hl j) as [Hsock _].
    { apply (live_mono w) in Hj; simpl; [done..|set_solver|exists []; by rewrite app_nil_r]. }
    { set_solver. }
    destruct Hj as (_ & Hcl & _). simpl in Hcl. rewrite Hsock in HF. case_decide; set_solver.
  - case_decide as Hd; [|done]. destruct (ws_message ops (plug w) body) as [[[l ws] out]|] eqn:Hm; [|done].
    simplify_eq/=. destruct (message_ok Hlaws _ _ _ _ _ Hm) as [->|[-> Hgb]].
    + split; simpl; [|exact Hs]. intros j Hj HF. by eapply Hl; [eapply live_app|].
    + apply (one_live_told F w); [done|by right|done..|]. by exists ws.
Qed.

Lemma one_live_run F w ls w' :
  ws_laws → one_live F w → run w ls = Some w' → one_live (F ∪ forsaken w ls) w'.
Proof.
  intros Hlaws. revert F w. induction ls as [|a ls IH]; intros F w Hw Hr; simpl in *.
  - simplify_eq. by rewrite union_empty_r_L.
  - destruct (step w a) as [w1|] eqn:Hs; [|done]. rewrite assoc_L by apply _.
    apply IH; [by eapply one_live_step|done].
Qed.
End machine.

Lemma to_socket_told l f i : socket l = Some i → (i, f) ∈ to_socket (set_connected l false) f.
Proof. unfold to_socket. simpl. intros ->. set_solver. Qed.

Lemma deepgram_laws Unmarshal Marshal grow : ws_laws (Deepgram.deepgram_ops Unmarshal Marshal grow).
Proof.
  split; cbn.
  - done.
  - intros l. unfold Deepgram.Stop. destruct (connected l) eqn:Hc; [|by left]. right.
    split; [done|]. split; [done|]. intros i Hi. eexists. split; [by apply to_socket_told|].
    reflexivity.
  - done.
  - intros l body l' ws out. unfold Deepgram.OnMessage.
    destruct (Unmarshal body) as [msg|]; [|intros; simplify_eq; by left].
    repeat case_decide; try (intros; simplify_eq; by left).
    destruct (connected l); intros; simplify_eq; [right|by left]. split; [done|].
    intros i Hi. exists CloseFrame. split; [by apply to_socket_told|done].
Qed.

Lemma qwen_laws uuid MarshalMessage Unmarshal Marshal grow cfg :
  ws_laws (Qwen.qwen_ops uuid MarshalMessage Unmarshal Marshal grow cfg).
Proof.
  split; cbn.
  - by intros [].
  - intros l. unfold Qwen.Stop. destruct (connected l) eqn:Hc; [|by left]. right.
    split; [done|]. split; [done|]. intros i Hi. exists CloseFrame. split; [by apply to_socket_told|done].
  - done.
  - intros l body l' ws out. unfold Qwen.OnMessage.
    destruct (Unmarshal body) as [msg|]; [|intros; simplify_eq; by left]. cbn zeta.
    repeat case_decide; try (intros; simplify_eq; by left);
      [destruct (Qwen.Session msg)|destruct (Qwen.Error msg)]; intros; simplify_eq/=; by left.
Qed.

Lemma one_live_world0 ops : one_live ops ∅ world0.
Proof. split; [intros i (Hi & _); simpl in Hi; lia|done]. Qed.

(** ** Properties *)

(** Recogniser connections are not lost track of, with one exception.  In
    every interleaving of audio, pauses, restarts, messages and closes,
    Deepgram's and Qwen's alike and whether the first message of a connection
    can be written or not, a socket that was dialled, not closed by the service
    and not asked to close is the one the plugin holds, and the plugin is
    connected or about to be; or it is one the plugin held when the close of
    another socket was reported to it. *)
Theorem recogniser_has_one_socket uuid MarshalMessage UnmarshalQ UnmarshalD Marshal grow cfg ops ls w i :
  ops = Deepgram.deepgram_ops UnmarshalD Marshal grow ∨
  ops = Qwen.qwen_ops uuid MarshalMessage UnmarshalQ Marshal grow cfg →
  run ops world0 ls = Some w → live ops w i →
  socket (plug w) = Some i ∧ (connected (plug w) = true ∨ starting w = Some i) ∨ i ∈ forsaken ops world0 ls.
Proof.
  intros Hops Hr Hi.
  assert (ws_laws ops) as Hlaws
    by (destruct Hops as [-> | ->]; [apply deepgram_laws|apply qwen_laws]).
  destruct (one_live_run ops ∅ _ _ _ Hlaws (one_live_world0 ops) Hr) as [Hl _].
  rewrite union_empty_l_L in Hl. destruct (decide (i ∈ forsaken ops world0 ls)); auto.
Qed.

(** *** Examples: messages are a type byte and a text *)
Definition demo_message (b : list Z) : result unit Deepgram.serverMessage :=
  match b with
  | 1%Z :: t => Ok (Deepgram.mkMessage Deepgram.typeResults true true
      (Some (Deepgram.mkChannel [Deepgram.mkAlternative (string_of_bytes t) float64_one])) "" "")
  | 2%Z :: t => Ok (Deepgram.mkMessage Deepgram.typeResults true false
      (Some (Deepgram.mkChannel [Deepgram.mkAlternative (string_of_bytes t) float64_one])) "" "")
  | 3%Z :: _ => Ok (Deepgram.mkMessage Deepgram.typeError false false None "1" "overload")
  | _ => Err tt
  end.
Definition any_json (v : anyv) : result schema_error (list Z) := Ok [].
Definition any_grow (n m : nat) : nat := n + m.
Definition demo_ops : ws_ops := Deepgram.deepgram_ops demo_message any_json any_grow.

Definition demo_labels : list label :=
  [LDial; LOpened true; LAudio [1; 2]%Z; LMessage 0 (1%Z :: bytes_of_string "hello"); LMessage 0 [3%Z]; LClose 0;
   LDial; LOpened true; LAudio [3]%Z].

Lemma recogniser_has_one_socket_witness :
  ∃ w, run demo_ops world0 demo_labels = Some w ∧ live demo_ops w 1 ∧ socket (plug w) = Some 1 ∧
    wire w = [(0, Binary [1; 2]%Z); (0, CloseFrame); (1, Binary [3]%Z)] ∧ length (flow w) = 1.
Proof.
  destruct (run demo_ops world0 demo_labels) as [w|] eqn:Hr; [|vm_compute in Hr; discriminate Hr].
  exists w. split; [reflexivity|].
  assert (live demo_ops w 1) as Hl.
  { vm_compute in Hr. injection Hr as <-. split; [simpl; lia|]. split; [apply (bool_decide_unpack _); vm_compute; exact I|].
    repeat (apply Forall_cons; split); [intros E; simpl in E; congruence..|by intros _|constructor]. }
  split; [exact Hl|]. split.
  - destruct (recogniser_has_one_socket "" (λ _, Err tt) (λ _, Err tt) demo_message any_json any_grow
      (Qwen.mkConfig "" "" "" float64_one 0) demo_ops demo_labels w 1 ltac:(left; reflexivity) Hr Hl) as [[? _]|Hf];
      [done|]. exfalso. revert Hf. apply (bool_decide_unpack (1 ∉ _)). vm_compute. exact I.
  - vm_compute in Hr. injection Hr as <-. split; reflexivity.
Defined.

(** An outdated close disconnects the new socket: the plugin pauses, resumes
    and reconnects before the old socket reports its close; [OnClose] does not
    ask which socket it is, so the plugin takes itself for disconnected, dials
    again and forgets a socket that stays open. *)
Lemma stale_close_leaks_socket :
  ∃ w, run demo_ops world0 [LDial; LOpened true; LStop; LDial; LOpened true; LClose 0; LDial; LOpened true; LAudio [1%Z]] = Some w ∧
    socket (plug w) = Some 2 ∧ live demo_ops w 1 ∧ live demo_ops w 2.
Proof.
  destruct (run demo_ops world0 _) as [w|] eqn:Hr; [|vm_compute in Hr; discriminate Hr].
  exists w. split; [reflexivity|]. vm_compute in Hr. injection Hr as <-. split; [reflexivity|].
  split; (split; [simpl; lia|]); (split; [apply (bool_decide_unpack _); vm_compute; exact I|]);
    repeat (apply Forall_cons; split); try constructor; simpl; intros E; by (congruence || done).
Qed.

(** A close between the two stores of [Start] is lost: the plugin stays
    connected to a socket that is gone. *)
Lemma early_close_is_lost :
  ∃ w, run demo_ops world0 [LDial; LClose 0; LOpened true; LAudio [1%Z]] = Some w ∧
    connected (plug w) = true ∧ socket (plug w) = Some 0 ∧ 0 ∈ closed w ∧ wire w = [(0, Binary [1%Z])].
Proof.
  destruct (run demo_ops world0 _) as [w|] eqn:Hr; [|vm_compute in Hr; discriminate Hr].
  exists w. split; [reflexivity|]. vm_compute in Hr. injection Hr as <-.
  split; [reflexivity|]. split; [reflexivity|]. split; [apply (bool_decide_unpack _); vm_compute; exact I|reflexivity].
Qed.

(** Qwen's [Start] reports a failed first message and leaves the plugin
    connected: the next frame is sent to a session without its settings. *)
Lemma failed_start_stays_connected cfg l :
  socket l = Some 0 →
  let '(l', _, r) := Qwen.Start_opened "" (λ _, Ok [7%Z]) cfg false l in
  r = Err tt ∧ Qwen.Start (λ _, Err tt) cfg l' = Ok None ∧
  Qwen.SendAudioData "" (λ _, Ok [7%Z]) l' [1%Z] = Ok [(0, TextFrame [7%Z])].
Proof.
  intros Hs. unfold Qwen.Start_opened, Qwen.Start, Qwen.SendAudioData, to_socket. simpl. by rewrite Hs.
Qed.

(** A message without the part its type promises is not survived. *)
Lemma missing_session_panics :
  Qwen.OnMessage (λ _, Ok (Qwen.message "1" Qwen.TypeCreated None "")) any_json any_grow (mkLink (Some 0) true) [] = None.
Proof. vm_compute. reflexivity. Qed.

(** A segment the service has finished, not the whole utterance, is not
    marked final. *)
Lemma finished_segment_is_interim :
  match Deepgram.OnMessage demo_message any_json any_grow (mkLink (Some 0) true) (2%Z :: bytes_of_string "and then") with
  | Some (_, _, [SendPayload p]) => get_string p "text" = "and then" ∧ get_bool p "is_final" = false
  | _ => False
  end.
Proof. vm_compute. split; reflexivity. Qed.

(** ** Addresses

    The service reads one value of every parameter: the model and the
    language of the configuration, the format of the engine's audio, positive
    timeouts. *)
Lemma deepgram_parameters cfg q k x :
  (k, x) ∈ parse_pairs (Encode (Deepgram.query_of cfg q)) →
  (k = "model" → x = (if decide (Deepgram.Model cfg = "") then "nova-3" else Deepgram.Model cfg)) ∧
  (k = "language" → Deepgram.Language cfg ≠ "" → x = Deepgram.Language cfg) ∧
  (k = "encoding" → x = "linear16") ∧ (k = "sample_rate" → x = pretty AudioSampleRate) ∧
  (k = "channels" → x = pretty AudioChannels) ∧
  (k = "endpointing" → ∃ ms : Z, (0 < ms)%Z ∧ x = pretty ms) ∧
  (k = "utterance_end_ms" → ∃ ms : Z, (0 < ms)%Z ∧ x = pretty ms).
Proof.
  unfold Encode. rewrite parse_encode_pairs, elem_of_pairs. unfold Deepgram.query_of, Values_Set.
  intros (vs & Hvs & Hx).
  repeat split; intros ->; rewrite ?lookup_insert_ne in Hvs by done.
  - destruct (decide (Deepgram.Language cfg = ""));
      rewrite ?lookup_insert_ne, ?lookup_insert_eq in Hvs by done; set_solver.
  - intros Hl. rewrite decide_False, lookup_insert_eq in Hvs by done. set_solver.
  - rewrite lookup_insert_eq in Hvs. set_solver.
  - rewrite lookup_insert_eq in Hvs. change (pretty AudioSampleRate) with "16000". set_solver.
  - rewrite lookup_insert_eq in Hvs. change (pretty AudioChannels) with "1". set_solver.
  - rewrite lookup_insert_eq in Hvs. injection Hvs as <-. apply list_elem_of_singleton in Hx as ->.
    eexists. split; [|done]. case_decide; lia.
  - rewrite lookup_insert_eq in Hvs. injection Hvs as <-. apply list_elem_of_singleton in Hx as ->.
    eexists. split; [|done]. case_decide; lia.
Qed.

(** ** google_asr *)
Module Google.
Record Config := mkConfig { ApiKey : string; ProjectID : string; Region : string; SpeechEnd : Z }.

(** Streams and the contexts they were opened with are numbered. *)
Record Plugin := mkPlugin {
  client : bool; stream : option nat; connected : bool; cancel : option nat }.

Record result_ := mkResult { IsFinal : bool; LanguageCode : string; Alternatives : list string }.

(** The first request of a stream. *)
Record streaming_config := mkStreaming {
  Recognizer : string; model : string; InterimResults : bool; EnableVoiceActivityEvents : bool;
  SpeechEndTimeout : Z }.

Definition endpoint (cfg : Config) : string := Region cfg +:+ "-speech.googleapis.com".
Definition first_request (cfg : Config) : streaming_config :=
  mkStreaming ("projects/" +:+ ProjectID cfg +:+ "/locations/" +:+ Region cfg +:+ "/recognizers/_")
    "chirp-3" true true (SpeechEnd cfg * 1000000).

(** What the client library answers while [Start] runs; a client is made
    once. *)
Inductive start_answer := ClientFails | StreamFails | SendFails | StartOk.

(** The machine: [contexts] are those not cancelled, [readers] the running
    read loops; a stream and its context carry the same number. *)
Record world := mkWorld {
  plugin : Plugin; next : nat; contexts : gset nat; readers : nat; sent : list (nat * list Z);
  flow : list flow_event }.

Definition world0 : world := mkWorld (mkPlugin false None false None) 0 ∅ 0 [] [].

Definition Start (w : world) (a : start_answer) : world * bool :=
  let p := plugin w in
  let i := next w in
  match a with
  | ClientFails => (w, false)
  | StreamFails =>
      (mkWorld (mkPlugin true (stream p) (connected p) (Some i)) (S i) ({[i]} ∪ contexts w) (readers w) (sent w) (flow w), false)
  | SendFails =>
      (mkWorld (mkPlugin true (stream p) (connected p) (Some i)) (S i) (contexts w) (readers w) (sent w) (flow w), false)
  | StartOk =>
      (mkWorld (mkPlugin true (Some i) true (Some i)) (S i) ({[i]} ∪ contexts w) (S (readers w)) (sent w) (flow w), true)
  end.

Definition SendAudioData (w : world) (data : list Z) : world :=
  match connected (plugin w), stream (plugin w) with
  | true, Some i => mkWorld (plugin w) (next w) (contexts w) (readers w) (sent w ++ [(i, data)]) (flow w)
  | _, _ => w
  end.

Definition Stop (w : world) : world :=
  if negb (connected (plugin w)) then w
  else match cancel (plugin w) with
       | Some i => mkWorld (plugin w) (next w) (contexts w ∖ {[i]}) (readers w) (sent w) (flow w)
       | None => w
       end.

Section read.
Context (Marshal : anyv → result schema_error (list Z)) (grow : nat → nat → nat).

(** One round of [readLoop]: an answer of [Recv], or the error that ends the
    loop and runs its deferred store. *)
Definition transcription (results : list result_) : option UserTranscription :=
  match results with
  | [] => None
  | r :: _ =>
      Some (mkTranscription (match Alternatives r with t :: _ => t | [] => "" end)
              (IsFinal r) "" (LanguageCode r) false)
  end.

Definition readLoop_round (w : world) (recv : result unit (list result_)) : world :=
  match recv with
  | Err _ =>
      let p := plugin w in
      mkWorld (mkPlugin (client p) (stream p) false (cancel p)) (next w) (contexts w) (readers w - 1) (sent w) (flow w)
  | Ok results =>
      mkWorld (plugin w) (next w) (contexts w) (readers w) (sent w)
        (flow w ++ HandleTranscription Marshal grow (transcription results))
  end.

(** [BasePlugin] starts a provider that is not connected, and sends to one
    that is. *)
Inductive label := LStart (a : start_answer) | LAudio (d : list Z) | LStop | LRecv (r : result unit (list result_)).

Definition step (w : world) (l : label) : option world :=
  match l with
  | LStart a =>
      if connected (plugin w) || (client (plugin w) && match a with ClientFails => true | _ => false end)
      then None else Some (Start w a).1
  | LAudio d => if connected (plugin w) then Some (SendAudioData w d) else None
  | LStop => Some (Stop w)
  | LRecv r => if decide (0 < readers w) then Some (readLoop_round w r) else None
  end.

Fixpoint run (w : world) (ls : list label) : option world :=
  match ls with [] => Some w | l :: ls => w ← step w l; run w ls end.

(** One read loop runs exactly while the plugin is connected, on the newest
    stream, and the plugin holds the context of that stream. *)
Record one_reader (w : world) : Prop := {
  or_count : readers w = if connected (plugin w) then 1 else 0;
  or_stream : connected (plugin w) = true → ∃ i, stream (plugin w) = Some i ∧ cancel (plugin w) = Some i ∧ next w = S i;
  or_sent : Forall (λ x, x.1 < next w) (sent w);
}.

Lemma one_reader_step w l w' : one_reader w → step w l = Some w' → one_reader w'.
Proof.
  intros [Hc Hs Hw] Hstep. destruct l as [a|d| |r]; cbn [step] in Hstep.
  - destruct (connected (plugin w)) eqn:Hcon; [done|]. destruct (_ || _); [done|]. simplify_eq.
    destruct a; simpl; [split; simpl; rewrite ?Hcon; done| | |];
      split; simpl; rewrite ?Hcon, ?Hc; try done; try (by eexists);
      (eapply Forall_impl; [exact Hw|]; simpl; lia).
  - destruct (connected (plugin w)) eqn:Hcon; [|done]. simplify_eq.
    destruct (Hs eq_refl) as (i & Hi & Hca & Hn). unfold SendAudioData. rewrite Hcon, Hi.
    split; simpl; [by rewrite Hcon|by exists i|]. apply Forall_app. split; [done|].
    constructor; [simpl; lia|constructor].
  - simplify_eq. unfold Stop. destruct (connected (plugin w)) eqn:Hcon; simpl.
    + destruct (Hs eq_refl) as (i & ? & Hca & ?). rewrite Hca.
      split; simpl; rewrite ?Hcon; [done|intros _; by exists i|done].
    + split; rewrite ?Hcon; done.
  - destruct (decide (0 < readers w)) as [Hr|]; [|done]. simplify_eq. destruct r as [rs|]; simpl.
    + split; simpl; done.
    + split; simpl; [|done|done]. destruct (connected (plugin w)); lia.
Qed.

Lemma google_one_reader ls w : run world0 ls = Some w → one_reader w.
Proof.
  assert (one_reader world0) as H0 by (split; simpl; [done|done|constructor]).
  revert H0. generalize world0 as w0. induction ls as [|l ls IH]; intros w0 H0 Hr; simpl in Hr; [by simplify_eq|].
  destruct (step w0 l) as [w1|] eqn:Hs; [|done]. apply (IH w1); [|done]. by eapply one_reader_step.
Qed.
End read.

(** The context of a stream the service ended is never cancelled: [Stop] only
    cancels while connected, and the next [Start] overwrites the function. *)
Lemma ended_stream_keeps_context :
  ∃ w, run (λ _, Ok []) (λ n m, n + m) world0 [LStart StartOk; LRecv (Err tt); LStop; LStart StartOk; LStop] = Some w ∧
    contexts w = {[0]}.
Proof. eexists. split; [reflexivity|]. vm_compute. reflexivity. Qed.
End Google.
