(* ===== verification/MllmTypes.v ===== *)
(** * The realtime protocol: internal/plugins/mllm/qwen_conn.go

    The messages a realtime model service exchanges with its client: client
    events and their constructors, the twenty-five server events, and the
    decoder that selects the event by the type its message names.  The JSON
    codec is an argument. *)

From S2P Require Import Prelude.
From S2P Require Import GoStrings.
From S2P Require Import GoFloat.

(** ** Event types *)
Definition QwenRealtimeEventSessionUpdate : string := "session.update".
Definition QwenRealtimeEventResponseCreate : string := "response.create".
Definition QwenRealtimeEventResponseCancel : string := "response.cancel".
Definition QwenRealtimeEventInputAudioBufferAppend : string := "input_audio_buffer.append".
Definition QwenRealtimeEventInputAudioBufferCommit : string := "input_audio_buffer.commit".
Definition QwenRealtimeEventInputAudioBufferClear : string := "input_audio_buffer.clear".
Definition QwenRealtimeEventInputImageBufferAppend : string := "input_image_buffer.append".
Definition QwenRealtimeEventConversationItemCreate : string := "conversation.item.create".

(** The server events, named as their types are in the code. *)
Inductive server_event :=
| EError | ESessionCreated | ESessionUpdated
| EInputAudioBufferSpeechStarted | EInputAudioBufferSpeechStopped
| EInputAudioBufferCommitted | EInputAudioBufferCleared
| EConversationItemCreated
| EInputAudioTranscriptionDelta | EInputAudioTranscriptionCompleted | EInputAudioTranscriptionFailed
| EResponseCreated | EResponseDone
| EResponseTextDelta | EResponseTextDone | EResponseAudioDelta | EResponseAudioDone
| EResponseAudioTranscriptDelta | EResponseAudioTranscriptDone
| EResponseFunctionCallArgumentsDelta | EResponseFunctionCallArgumentsDone
| EResponseOutputItemAdded | EResponseOutputItemDone
| EResponseContentPartAdded | EResponseContentPartDone.

#[export] Instance server_event_dec : EqDecision server_event.
Proof. solve_decision. Defined.

(** The constants [QwenRealtimeEvent...]. *)
Definition event_type (e : server_event) : string :=
  match e with
  | EError => "error"
  | ESessionCreated => "session.created"
  | ESessionUpdated => "session.updated"
  | EInputAudioBufferSpeechStarted => "input_audio_buffer.speech_started"
  | EInputAudioBufferSpeechStopped => "input_audio_buffer.speech_stopped"
  | EInputAudioBufferCommitted => "input_audio_buffer.committed"
  | EInputAudioBufferCleared => "input_audio_buffer.cleared"
  | EConversationItemCreated => "conversation.item.created"
  | EInputAudioTranscriptionDelta => "conversation.item.input_audio_transcription.delta"
  | EInputAudioTranscriptionCompleted => "conversation.item.input_audio_transcription.completed"
  | EInputAudioTranscriptionFailed => "conversation.item.input_audio_transcription.failed"
  | EResponseCreated => "response.created"
  | EResponseDone => "response.done"
  | EResponseTextDelta => "response.text.delta"
  | EResponseTextDone => "response.text.done"
  | EResponseAudioDelta => "response.audio.delta"
  | EResponseAudioDone => "response.audio.done"
  | EResponseAudioTranscriptDelta => "response.audio_transcript.delta"
  | EResponseAudioTranscriptDone => "response.audio_transcript.done"
  | EResponseFunctionCallArgumentsDelta => "response.function_call_arguments.delta"
  | EResponseFunctionCallArgumentsDone => "response.function_call_arguments.done"
  | EResponseOutputItemAdded => "response.output_item.added"
  | EResponseOutputItemDone => "response.output_item.done"
  | EResponseContentPartAdded => "response.content_part.added"
  | EResponseContentPartDone => "response.content_part.done"
  end.

Definition QwenRealtimeModalityText : string := "text".
Definition QwenRealtimeModalityAudio : string := "audio".
Definition QwenRealtimeAudioFormatPCM : string := "pcm".
Definition QwenRealtimeTurnDetectionServerVAD : string := "server_vad".
Definition QwenRealtimeConversationItemFunctionCallOutput : string := "function_call_output".

(** ** Session options *)
Record QwenRealtimeInputAudioTranscription := mkInputTranscription { it_Model : string }.

Record QwenRealtimeTurnDetection := mkTurnDetection {
  td_Type : string; td_Threshold : option float64; td_PrefixPaddingMS : option Z;
  td_SilenceDurationMS : option Z; td_IdleTimeoutMS : option Z;
  td_CreateResponse : option bool; td_InterruptResponse : option bool }.

Record QwenRealtimeSearchOptions := mkSearchOptions { EnableSource : option bool }.

Record QwenRealtimeToolParameterSchema := mkParameterSchema { ps_Type : string; ps_Description : string }.
Record QwenRealtimeToolParameters := mkParameters {
  tp_Type : string; tp_Properties : gmap string QwenRealtimeToolParameterSchema; tp_Required : list string }.
Record QwenRealtimeToolFunction := mkFunction {
  tf_Name : string; tf_Description : string; tf_Parameters : option QwenRealtimeToolParameters }.
Record QwenRealtimeTool := mkTool { tool_Type : string; tool_Function : QwenRealtimeToolFunction }.

Record QwenRealtimeSessionOptions := mkSessionOptions {
  so_ID : string; so_Object : string; so_Model : string; so_Modalities : list string; so_Voice : string;
  so_InputAudioFormat : string; so_OutputAudioFormat : string;
  so_InputAudioTranscription : option QwenRealtimeInputAudioTranscription; so_SmoothOutput : option bool;
  so_Instructions : string; so_TurnDetection : option QwenRealtimeTurnDetection;
  so_EnableSearch : option bool; so_SearchOptions : option QwenRealtimeSearchOptions;
  so_Tools : list QwenRealtimeTool; so_Seed : option Z; so_MaxTokens : option Z;
  so_MaxResponseOutputToken : string; so_RepetitionPenalty : option float64;
  so_PresencePenalty : option float64; so_TopK : option Z; so_TopP : option float64;
  so_Temperature : option float64 }.

(** ** Client events *)
Record qwenRealtimeClientMessageHeader := mkClientHeader { ch_EventID : string; ch_Type : string }.
Definition newQwenRealtimeMessageHeader (eventID eventType : string) : qwenRealtimeClientMessageHeader :=
  mkClientHeader eventID eventType.

Record QwenRealtimeConversationItemOutput := mkItemOutput {
  io_ID : string; io_Type : string; io_CallID : string; io_Output : string }.

(** The types that implement the interface [QwenRealtimeClientMessage]. *)
Inductive QwenRealtimeClientMessage :=
| SessionUpdateEvent (h : qwenRealtimeClientMessageHeader) (Session : option QwenRealtimeSessionOptions)
| ResponseCreateEvent (h : qwenRealtimeClientMessageHeader)
| ResponseCancelEvent (h : qwenRealtimeClientMessageHeader)
| InputAudioBufferAppendEvent (h : qwenRealtimeClientMessageHeader) (Audio : string)
| InputAudioBufferCommitEvent (h : qwenRealtimeClientMessageHeader)
| InputAudioBufferClearEvent (h : qwenRealtimeClientMessageHeader)
| InputImageBufferAppendEvent (h : qwenRealtimeClientMessageHeader) (Image : string)
| ConversationItemCreateEvent (h : qwenRealtimeClientMessageHeader) (Item : QwenRealtimeConversationItemOutput).

Definition NewQwenRealtimeSessionUpdateEvent (eventID : string) (session : option QwenRealtimeSessionOptions) :=
  SessionUpdateEvent (newQwenRealtimeMessageHeader eventID QwenRealtimeEventSessionUpdate) session.
Definition NewQwenRealtimeResponseCreateEvent (eventID : string) :=
  ResponseCreateEvent (newQwenRealtimeMessageHeader eventID QwenRealtimeEventResponseCreate).
Definition NewQwenRealtimeResponseCancelEvent (eventID : string) :=
  ResponseCancelEvent (newQwenRealtimeMessageHeader eventID QwenRealtimeEventResponseCancel).
Definition NewQwenRealtimeInputAudioBufferAppendEvent (eventID audio : string) :=
  InputAudioBufferAppendEvent (newQwenRealtimeMessageHeader eventID QwenRealtimeEventInputAudioBufferAppend) audio.
Definition NewQwenRealtimeInputAudioBufferCommitEvent (eventID : string) :=
  InputAudioBufferCommitEvent (newQwenRealtimeMessageHeader eventID QwenRealtimeEventInputAudioBufferCommit).
Definition NewQwenRealtimeInputAudioBufferClearEvent (eventID : string) :=
  InputAudioBufferClearEvent (newQwenRealtimeMessageHeader eventID QwenRealtimeEventInputAudioBufferClear).
Definition NewQwenRealtimeInputImageBufferAppendEvent (eventID image : string) :=
  InputImageBufferAppendEvent (newQwenRealtimeMessageHeader eventID QwenRealtimeEventInputImageBufferAppend) image.
Definition NewQwenRealtimeConversationItemCreateEvent (eventID : string) (item : QwenRealtimeConversationItemOutput) :=
  ConversationItemCreateEvent (newQwenRealtimeMessageHeader eventID QwenRealtimeEventConversationItemCreate) item.

(** ** Parts of server events *)
Record qwenRealtimeServerMessageHeader := mkServerHeader { sh_EventID : string; sh_Type : string }.
Record QwenRealtimeError := mkError {
  er_Type : string; er_Code : string; er_Message : string; er_Param : string }.
Record QwenRealtimeContentPart := mkPart { cp_Type : string; cp_Text : string; cp_Transcript : string }.
Record QwenRealtimeConversationItem := mkItem {
  ci_ID : string; ci_Object : string; ci_Type : string; ci_Status : string; ci_Role : string;
  ci_Content : list QwenRealtimeContentPart; ci_Name : string; ci_CallID : string; ci_Arguments : string }.
Record QwenRealtimeTokenUsageDetails := mkTokenDetails { TextTokens : Z; AudioTokens : Z }.
Record QwenRealtimeSearchUsage := mkSearchUsage { Count : Z; Strategy : string }.
Record QwenRealtimePluginUsage := mkPluginUsage { Search : option QwenRealtimeSearchUsage }.
Record QwenRealtimeUsage := mkUsage {
  TotalTokens : Z; InputTokens : Z; OutputTokens : Z;
  InputTokensDetails : QwenRealtimeTokenUsageDetails; OutputTokensDetails : QwenRealtimeTokenUsageDetails;
  Plugins : option QwenRealtimePluginUsage }.
Record QwenRealtimeResponse := mkRealtimeResponse {
  rr_ID : string; rr_Object : string; rr_ConversationID : string; rr_Status : string;
  rr_Modalities : list string; rr_Voice : string; rr_OutputAudioFormat : string;
  rr_Output : list QwenRealtimeConversationItem; rr_Usage : option QwenRealtimeUsage }.

Definition qwenRealtimeTotalTokens (usage : option QwenRealtimeUsage) : Z :=
  match usage with None => 0 | Some u => TotalTokens u end.
Definition qwenRealtimeInputTokens (usage : option QwenRealtimeUsage) : Z :=
  match usage with None => 0 | Some u => InputTokens u end.
Definition qwenRealtimeOutputTokens (usage : option QwenRealtimeUsage) : Z :=
  match usage with None => 0 | Some u => OutputTokens u end.

(** ** Server events

    One record per struct of the code; the constructors of
    [QwenRealtimeServerMessage] are the types that implement the interface. *)
Record QwenRealtimeErrorEvent := mkErrorEvent {
  ee_h : qwenRealtimeServerMessageHeader; ee_Error : QwenRealtimeError }.
Record QwenRealtimeSessionCreatedEvent := mkSessionCreated {
  sc_h : qwenRealtimeServerMessageHeader; sc_Session : QwenRealtimeSessionOptions }.
Record QwenRealtimeSessionUpdatedEvent := mkSessionUpdated {
  su_h : qwenRealtimeServerMessageHeader; su_Session : QwenRealtimeSessionOptions }.
Record QwenRealtimeInputAudioBufferSpeechStartedEvent := mkSpeechStarted {
  ss_h : qwenRealtimeServerMessageHeader; ss_AudioStartMS : Z; ss_ItemID : string }.
Record QwenRealtimeInputAudioBufferSpeechStoppedEvent := mkSpeechStopped {
  sp_h : qwenRealtimeServerMessageHeader; sp_AudioEndMS : Z; sp_ItemID : string }.
Record QwenRealtimeInputAudioBufferCommittedEvent := mkCommitted {
  cm_h : qwenRealtimeServerMessageHeader; cm_ItemID : string }.
Record QwenRealtimeInputAudioBufferClearedEvent := mkCleared { cl_h : qwenRealtimeServerMessageHeader }.
Record QwenRealtimeConversationItemCreatedEvent := mkItemCreated {
  ic_h : qwenRealtimeServerMessageHeader; ic_Item : QwenRealtimeConversationItem }.
Record QwenRealtimeInputAudioTranscriptionDeltaEvent := mkTranscriptionDelta {
  tdl_h : qwenRealtimeServerMessageHeader; tdl_ItemID : string; tdl_ContentIndex : Z; tdl_Text : string;
  tdl_Stash : string; tdl_Language : string; tdl_Emotion : string; tdl_Obfuscation : string }.
Record QwenRealtimeInputAudioTranscriptionCompletedEvent := mkTranscriptionCompleted {
  tc_h : qwenRealtimeServerMessageHeader; tc_ItemID : string; tc_ContentIndex : Z; tc_Transcript : string }.
Record QwenRealtimeInputAudioTranscriptionFailedEvent := mkTranscriptionFailed {
  tf_h : qwenRealtimeServerMessageHeader; tf_ItemID : string; tf_ContentIndex : Z; tf_Error : QwenRealtimeError }.
Record QwenRealtimeResponseCreatedEvent := mkResponseCreated {
  rc_h : qwenRealtimeServerMessageHeader; rc_Response : QwenRealtimeResponse }.
Record QwenRealtimeResponseDoneEvent := mkResponseDone {
  rd_h : qwenRealtimeServerMessageHeader; rd_Response : QwenRealtimeResponse }.
Record QwenRealtimeResponseTextDeltaEvent := mkTextDelta {
  xd_h : qwenRealtimeServerMessageHeader; xd_ResponseID : string; xd_ItemID : string;
  xd_OutputIndex : Z; xd_ContentIndex : Z; xd_Delta : string }.
Record QwenRealtimeResponseTextDoneEvent := mkTextDone {
  xe_h : qwenRealtimeServerMessageHeader; xe_ResponseID : string; xe_ItemID : string;
  xe_OutputIndex : Z; xe_ContentIndex : Z; xe_Text : string }.
Record QwenRealtimeResponseAudioDeltaEvent := mkAudioDelta {
  ad_h : qwenRealtimeServerMessageHeader; ad_ResponseID : string; ad_ItemID : string;
  ad_OutputIndex : Z; ad_ContentIndex : Z; ad_Delta : list Z }.
Record QwenRealtimeResponseAudioDoneEvent := mkAudioDone {
  ae_h : qwenRealtimeServerMessageHeader; ae_ResponseID : string; ae_ItemID : string;
  ae_OutputIndex : Z; ae_ContentIndex : Z }.
Record QwenRealtimeResponseAudioTranscriptDeltaEvent := mkAudioTranscriptDelta {
  atd_h : qwenRealtimeServerMessageHeader; atd_ResponseID : string; atd_ItemID : string;
  atd_OutputIndex : Z; atd_ContentIndex : Z; atd_Delta : string }.
Record QwenRealtimeResponseAudioTranscriptDoneEvent := mkAudioTranscriptDone {
  ate_h : qwenRealtimeServerMessageHeader; ate_ResponseID : string; ate_ItemID : string;
  ate_OutputIndex : Z; ate_ContentIndex : Z; ate_Transcript : string }.
Record QwenRealtimeResponseFunctionCallArgumentsDeltaEvent := mkArgumentsDelta {
  fd_h : qwenRealtimeServerMessageHeader; fd_ResponseID : string; fd_ItemID : string;
  fd_OutputIndex : Z; fd_CallID : string; fd_Delta : string }.
Record QwenRealtimeResponseFunctionCallArgumentsDoneEvent := mkArgumentsDone {
  fe_h : qwenRealtimeServerMessageHeader; fe_ResponseID : string; fe_ItemID : string;
  fe_OutputIndex : Z; fe_CallID : string; fe_Name : string; fe_Arguments : string }.
Record QwenRealtimeResponseOutputItemAddedEvent := mkOutputItemAdded {
  oa_h : qwenRealtimeServerMessageHeader; oa_ResponseID : string; oa_OutputIndex : Z;
  oa_Item : QwenRealtimeConversationItem }.
Record QwenRealtimeResponseOutputItemDoneEvent := mkOutputItemDone {
  od_h : qwenRealtimeServerMessageHeader; od_ResponseID : string; od_OutputIndex : Z;
  od_Item : QwenRealtimeConversationItem }.
Record QwenRealtimeResponseContentPartAddedEvent := mkContentPartAdded {
  pa_h : qwenRealtimeServerMessageHeader; pa_ResponseID : string; pa_ItemID : string;
  pa_OutputIndex : Z; pa_ContentIndex : Z; pa_Part : QwenRealtimeContentPart }.
Record QwenRealtimeResponseContentPartDoneEvent := mkContentPartDone {
  pd_h : qwenRealtimeServerMessageHeader; pd_ResponseID : string; pd_ItemID : string;
  pd_OutputIndex : Z; pd_ContentIndex : Z; pd_Part : QwenRealtimeContentPart }.

Inductive QwenRealtimeServerMessage :=
| ErrorEvent (e : QwenRealtimeErrorEvent)
| SessionCreatedEvent (e : QwenRealtimeSessionCreatedEvent)
| SessionUpdatedEvent (e : QwenRealtimeSessionUpdatedEvent)
| SpeechStartedEvent (e : QwenRealtimeInputAudioBufferSpeechStartedEvent)
| SpeechStoppedEvent (e : QwenRealtimeInputAudioBufferSpeechStoppedEvent)
| CommittedEvent (e : QwenRealtimeInputAudioBufferCommittedEvent)
| ClearedEvent (e : QwenRealtimeInputAudioBufferClearedEvent)
| ItemCreatedEvent (e : QwenRealtimeConversationItemCreatedEvent)
| TranscriptionDeltaEvent (e : QwenRealtimeInputAudioTranscriptionDeltaEvent)
| TranscriptionCompletedEvent (e : QwenRealtimeInputAudioTranscriptionCompletedEvent)
| TranscriptionFailedEvent (e : QwenRealtimeInputAudioTranscriptionFailedEvent)
| ResponseCreatedEvent (e : QwenRealtimeResponseCreatedEvent)
| ResponseDoneEvent (e : QwenRealtimeResponseDoneEvent)
| TextDeltaEvent (e : QwenRealtimeResponseTextDeltaEvent)
| TextDoneEvent (e : QwenRealtimeResponseTextDoneEvent)
| AudioDeltaEvent (e : QwenRealtimeResponseAudioDeltaEvent)
| AudioDoneEvent (e : QwenRealtimeResponseAudioDoneEvent)
| AudioTranscriptDeltaEvent (e : QwenRealtimeResponseAudioTranscriptDeltaEvent)
| AudioTranscriptDoneEvent (e : QwenRealtimeResponseAudioTranscriptDoneEvent)
| ArgumentsDeltaEvent (e : QwenRealtimeResponseFunctionCallArgumentsDeltaEvent)
| ArgumentsDoneEvent (e : QwenRealtimeResponseFunctionCallArgumentsDoneEvent)
| OutputItemAddedEvent (e : QwenRealtimeResponseOutputItemAddedEvent)
| OutputItemDoneEvent (e : QwenRealtimeResponseOutputItemDoneEvent)
| ContentPartAddedEvent (e : QwenRealtimeResponseContentPartAddedEvent)
| ContentPartDoneEvent (e : QwenRealtimeResponseContentPartDoneEvent).

(** The dynamic type of a message. *)
Definition kind (m : QwenRealtimeServerMessage) : server_event :=
  match m with
  | ErrorEvent _ => EError
  | SessionCreatedEvent _ => ESessionCreated
  | SessionUpdatedEvent _ => ESessionUpdated
  | SpeechStartedEvent _ => EInputAudioBufferSpeechStarted
  | SpeechStoppedEvent _ => EInputAudioBufferSpeechStopped
  | CommittedEvent _ => EInputAudioBufferCommitted
  | ClearedEvent _ => EInputAudioBufferCleared
  | ItemCreatedEvent _ => EConversationItemCreated
  | TranscriptionDeltaEvent _ => EInputAudioTranscriptionDelta
  | TranscriptionCompletedEvent _ => EInputAudioTranscriptionCompleted
  | TranscriptionFailedEvent _ => EInputAudioTranscriptionFailed
  | ResponseCreatedEvent _ => EResponseCreated
  | ResponseDoneEvent _ => EResponseDone
  | TextDeltaEvent _ => EResponseTextDelta
  | TextDoneEvent _ => EResponseTextDone
  | AudioDeltaEvent _ => EResponseAudioDelta
  | AudioDoneEvent _ => EResponseAudioDone
  | AudioTranscriptDeltaEvent _ => EResponseAudioTranscriptDelta
  | AudioTranscriptDoneEvent _ => EResponseAudioTranscriptDone
  | ArgumentsDeltaEvent _ => EResponseFunctionCallArgumentsDelta
  | ArgumentsDoneEvent _ => EResponseFunctionCallArgumentsDone
  | OutputItemAddedEvent _ => EResponseOutputItemAdded
  | OutputItemDoneEvent _ => EResponseOutputItemDone
  | ContentPartAddedEvent _ => EResponseContentPartAdded
  | ContentPartDoneEvent _ => EResponseContentPartDone
  end.

(** ** Decoding

    The struct each case of the decoder allocates, and the message it becomes. *)
Definition event_struct (e : server_event) : Type :=
  match e with
  | EError => QwenRealtimeErrorEvent
  | ESessionCreated => QwenRealtimeSessionCreatedEvent
  | ESessionUpdated => QwenRealtimeSessionUpdatedEvent
  | EInputAudioBufferSpeechStarted => QwenRealtimeInputAudioBufferSpeechStartedEvent
  | EInputAudioBufferSpeechStopped => QwenRealtimeInputAudioBufferSpeechStoppedEvent
  | EInputAudioBufferCommitted => QwenRealtimeInputAudioBufferCommittedEvent
  | EInputAudioBufferCleared => QwenRealtimeInputAudioBufferClearedEvent
  | EConversationItemCreated => QwenRealtimeConversationItemCreatedEvent
  | EInputAudioTranscriptionDelta => QwenRealtimeInputAudioTranscriptionDeltaEvent
  | EInputAudioTranscriptionCompleted => QwenRealtimeInputAudioTranscriptionCompletedEvent
  | EInputAudioTranscriptionFailed => QwenRealtimeInputAudioTranscriptionFailedEvent
  | EResponseCreated => QwenRealtimeResponseCreatedEvent
  | EResponseDone => QwenRealtimeResponseDoneEvent
  | EResponseTextDelta => QwenRealtimeResponseTextDeltaEvent
  | EResponseTextDone => QwenRealtimeResponseTextDoneEvent
  | EResponseAudioDelta => QwenRealtimeResponseAudioDeltaEvent
  | EResponseAudioDone => QwenRealtimeResponseAudioDoneEvent
  | EResponseAudioTranscriptDelta => QwenRealtimeResponseAudioTranscriptDeltaEvent
  | EResponseAudioTranscriptDone => QwenRealtimeResponseAudioTranscriptDoneEvent
  | EResponseFunctionCallArgumentsDelta => QwenRealtimeResponseFunctionCallArgumentsDeltaEvent
  | EResponseFunctionCallArgumentsDone => QwenRealtimeResponseFunctionCallArgumentsDoneEvent
  | EResponseOutputItemAdded => QwenRealtimeResponseOutputItemAddedEvent
  | EResponseOutputItemDone => QwenRealtimeResponseOutputItemDoneEvent
  | EResponseContentPartAdded => QwenRealtimeResponseContentPartAddedEvent
  | EResponseContentPartDone => QwenRealtimeResponseContentPartDoneEvent
  end.

Definition serverMessage (e : server_event) : event_struct e → QwenRealtimeServerMessage :=
  match e with
  | EError => ErrorEvent
  | ESessionCreated => SessionCreatedEvent
  | ESessionUpdated => SessionUpdatedEvent
  | EInputAudioBufferSpeechStarted => SpeechStartedEvent
  | EInputAudioBufferSpeechStopped => SpeechStoppedEvent
  | EInputAudioBufferCommitted => CommittedEvent
  | EInputAudioBufferCleared => ClearedEvent
  | EConversationItemCreated => ItemCreatedEvent
  | EInputAudioTranscriptionDelta => TranscriptionDeltaEvent
  | EInputAudioTranscriptionCompleted => TranscriptionCompletedEvent
  | EInputAudioTranscriptionFailed => TranscriptionFailedEvent
  | EResponseCreated => ResponseCreatedEvent
  | EResponseDone => ResponseDoneEvent
  | EResponseTextDelta => TextDeltaEvent
  | EResponseTextDone => TextDoneEvent
  | EResponseAudioDelta => AudioDeltaEvent
  | EResponseAudioDone => AudioDoneEvent
  | EResponseAudioTranscriptDelta => AudioTranscriptDeltaEvent
  | EResponseAudioTranscriptDone => AudioTranscriptDoneEvent
  | EResponseFunctionCallArgumentsDelta => ArgumentsDeltaEvent
  | EResponseFunctionCallArgumentsDone => ArgumentsDoneEvent
  | EResponseOutputItemAdded => OutputItemAddedEvent
  | EResponseOutputItemDone => OutputItemDoneEvent
  | EResponseContentPartAdded => ContentPartAddedEvent
  | EResponseContentPartDone => ContentPartDoneEvent
  end.

Inductive decode_error := NoType | UnsupportedEvent (t : string) | UnmarshalFailed.

(** The cases of the switch, in its order. *)
Definition switch_cases : list server_event :=
  [EError; ESessionCreated; ESessionUpdated; EInputAudioBufferSpeechStarted;
   EInputAudioBufferSpeechStopped; EInputAudioBufferCommitted; EInputAudioBufferCleared;
   EConversationItemCreated; EInputAudioTranscriptionDelta; EInputAudioTranscriptionCompleted;
   EInputAudioTranscriptionFailed; EResponseCreated; EResponseDone; EResponseTextDelta;
   EResponseTextDone; EResponseAudioDelta; EResponseAudioDone; EResponseAudioTranscriptDelta;
   EResponseAudioTranscriptDone; EResponseFunctionCallArgumentsDelta;
   EResponseFunctionCallArgumentsDone; EResponseOutputItemAdded; EResponseOutputItemDone;
   EResponseContentPartAdded; EResponseContentPartDone].

Definition select_case (t : string) : option server_event :=
  head (filter (λ e, t = event_type e) switch_cases).

Section decode.
Context (GetType : list Z → result unit string).
Context (Unmarshal : ∀ e : server_event, list Z → result unit (event_struct e)).

Definition decodeQwenRealtimeServerEvent (message : list Z) : result decode_error QwenRealtimeServerMessage :=
  match GetType message with
  | Err _ => Err NoType
  | Ok messageType =>
      match select_case messageType with
      | None => Err (UnsupportedEvent messageType)
      | Some e =>
          match Unmarshal e message with
          | Err _ => Err UnmarshalFailed
          | Ok m => Ok (serverMessage e m)
          end
      end
  end.
End decode.

Lemma kind_serverMessage e m : kind (serverMessage e m) = e.
Proof. by destruct e. Qed.

Lemma select_case_type e : select_case (event_type e) = Some e.
Proof. by destruct e; vm_compute. Qed.

Lemma select_case_inv t e : select_case t = Some e → t = event_type e.
Proof.
  unfold select_case. intros He.
  assert (e ∈ filter (λ e, t = event_type e) switch_cases) as Hin.
  { destruct (filter _ _) as [|e' l]; simplify_eq/=. set_solver. }
  by apply list_elem_of_filter in Hin as [? _].
Qed.

#[export] Instance event_type_inj : Inj (=) (=) event_type.
Proof.
  intros e1 e2 H. pose proof (select_case_type e1) as H1. rewrite H, select_case_type in H1. by injection H1.
Qed.

(** The decoder is exact: a message is decoded as an event exactly when it
    names the type of that event and has its shape; the event has the type
    that was named. *)
Lemma decode_exact GetType Unmarshal message m :
  decodeQwenRealtimeServerEvent GetType Unmarshal message = Ok m ↔
  GetType message = Ok (event_type (kind m)) ∧
  ∃ x, Unmarshal (kind m) message = Ok x ∧ m = serverMessage (kind m) x.
Proof.
  unfold decodeQwenRealtimeServerEvent. split.
  - destruct (GetType message) as [t|]; [|done]. destruct (select_case t) as [e|] eqn:Hs; [|done].
    destruct (Unmarshal e message) as [x|] eqn:Hu; [|done]. intros [= <-].
    rewrite kind_serverMessage. apply select_case_inv in Hs as ->. split; [done|]. by exists x.
  - intros [-> (x & Hu & Hm)]. rewrite select_case_type, Hu. by rewrite <-Hm.
Qed.

(** Twenty-five types are supported and nothing else. *)
Lemma unsupported_event GetType Unmarshal message t :
  GetType message = Ok t →
  decodeQwenRealtimeServerEvent GetType Unmarshal message = Err (UnsupportedEvent t) ↔
  ∀ e, t ≠ event_type e.
Proof.
  intros Ht. unfold decodeQwenRealtimeServerEvent. rewrite Ht. split.
  - intros H e ->. rewrite select_case_type in H. by destruct (Unmarshal e message).
  - intros H. destruct (select_case t) as [e|] eqn:Hs; [|done].
    apply select_case_inv in Hs. by destruct (H e).
Qed.
