(* ===== verification/Mllm.v ===== *)
(** * Realtime models: internal/plugins/mllm

    A realtime model listens and speaks over one WebSocket.  The provider
    ([qwen.go], the handlers of [qwen_conn.go]) turns server events into calls
    of its listener and follows the state of the conversation; the plugin is
    the listener ([listener.go]) and feeds the provider audio ([plugin.go]).
    The JSON codec, the URL parser, the socket's writes and the resampler are
    arguments. *)

From S2P Require Import Prelude.
From S2P Require Import GoStrings.
From S2P Require Import GoFloat.
From S2P Require Import Utf8.
From S2P Require Import Encoding.
From S2P Require Import UrlQuery.
From S2P Require Import Schema.
From S2P Require Import EngineTypes.
From S2P Require Import PluginFlow.
From S2P Require Import AsrBase.
From S2P Require Import AudioStreamer.
From S2P Require Import AsrVendors.
From S2P Require Import TtsVendors.
From S2P Require Import MllmTypes.

(** ** provider.go *)
Definition ProviderQwen : string := "qwen".

Record ToolCall := mkToolCall {
  tc_CallID : string; tc_Name : string; tc_Arguments : string; tc_Metadata : gmap string string }.
Record ToolCallAnswer := mkAnswer { ta_Call : ToolCall; ta_Result : string }.

(** The calls of the interface [RealtimeListener]. *)
Inductive listener_call :=
| OnAudioDelta (data : list Z) | OnAudioDone
| OnTranscriptDelta (text : string) | OnTranscriptDone (text : string)
| OnInputTranscriptionDelta (text : string) | OnInputTranscriptionDone (text : string)
| OnSpeechStarted | OnSpeechStopped
| OnToolCall (call : ToolCall)
| OnError (code message : string).

(** ** qwen.go *)
Inductive qwen_state :=
| stateIdle | stateListen | stateUserSpeaking | stateAgentSpeaking | stateWaiting | stateToolCalling | stateError.
#[export] Instance qwen_state_dec : EqDecision qwen_state.
Proof. solve_decision. Defined.

Record QwenConfig := mkQwenConfig {
  q_Url : string; q_ApiKey : string; q_Model : string; q_Session : QwenRealtimeSessionOptions }.

(** [open] is whether [q.socket] is set, [sent] what was written to it. *)
Record QwenRealtimeProvider := mkProvider {
  open : bool; connected : bool; state : qwen_state; listener : bool; itemId : string;
  cfg : QwenConfig; sent : list (list Z) }.

Inductive qwen_error :=
| UrlRequired | ApiKeyRequired | ModelRequired | BadURL
| NotConnected | TextUnsupported | WrongState (s : qwen_state) | CodecFailed | WriteFailed.

Definition NewQwenRealtimeProvider (c : QwenConfig) : result qwen_error QwenRealtimeProvider :=
  if decide (q_Url c = "") then Err UrlRequired
  else if decide (q_ApiKey c = "") then Err ApiKeyRequired
  else if decide (q_Model c = "") then Err ModelRequired
  else Ok (mkProvider false false stateIdle false "" c []).

Definition with_state (q : QwenRealtimeProvider) (s : qwen_state) : QwenRealtimeProvider :=
  mkProvider (open q) (connected q) s (listener q) (itemId q) (cfg q) (sent q).
Definition with_item (q : QwenRealtimeProvider) (i : string) : QwenRealtimeProvider :=
  mkProvider (open q) (connected q) (state q) (listener q) i (cfg q) (sent q).
Definition with_link (q : QwenRealtimeProvider) (o c : bool) : QwenRealtimeProvider :=
  mkProvider o c (state q) (listener q) (itemId q) (cfg q) (sent q).

(** [Connect] up to the dial; the socket appears in [OnOpen]. *)
Definition Connect (Parse : string → result unit URL) (q : QwenRealtimeProvider)
    : result qwen_error (option dial_request) :=
  if connected q then Ok None
  else match Parse (q_Url (cfg q)) with
       | Err _ => Err BadURL
       | Ok u =>
           let u := mkURL (url_base u) (Values_Set (url_query u) "model" (q_Model (cfg q))) (url_fragment u) in
           Ok (Some (mkDial (URL_String u) [("Authorization", "Bearer " +:+ q_ApiKey (cfg q))]))
       end.

Definition Listen (q : QwenRealtimeProvider) : QwenRealtimeProvider :=
  mkProvider (open q) (connected q) (state q) true (itemId q) (cfg q) (sent q).

Section provider.
Context (MarshalMessage : QwenRealtimeClientMessage → result unit (list Z)).
Context (write_ok : list Z → bool).

Definition send (q : QwenRealtimeProvider) (message : QwenRealtimeClientMessage)
    : QwenRealtimeProvider * result qwen_error unit :=
  if negb (connected q) || negb (open q) then (q, Err NotConnected)
  else match MarshalMessage message with
       | Err _ => (q, Err CodecFailed)
       | Ok payload =>
           if write_ok payload
           then (mkProvider (open q) (connected q) (state q) (listener q) (itemId q) (cfg q) (sent q ++ [payload]), Ok tt)
           else (q, Err WriteFailed)
       end.

Definition SendAudio (q : QwenRealtimeProvider) (data : list Z) :=
  send q (NewQwenRealtimeInputAudioBufferAppendEvent "" (EncodeToString data)).

Definition SendText (q : QwenRealtimeProvider) (text : string) : QwenRealtimeProvider * result qwen_error unit :=
  (q, Err TextUnsupported).

Definition SendImage (q : QwenRealtimeProvider) (data : list Z) :=
  send q (NewQwenRealtimeInputImageBufferAppendEvent "" (EncodeToString data)).

Definition SendToolCallAnswer (q : QwenRealtimeProvider) (answer : ToolCallAnswer)
    : QwenRealtimeProvider * result qwen_error unit :=
  if decide (state q ≠ stateToolCalling) then (q, Err (WrongState (state q)))
  else
    let message := NewQwenRealtimeConversationItemCreateEvent ""
      (mkItemOutput (itemId q) "" (tc_CallID (ta_Call answer)) (ta_Result answer)) in
    match send q message with
    | (q, Err e) => (q, Err e)
    | (q, Ok _) => send q (NewQwenRealtimeResponseCreateEvent "")
    end.

Definition Interrupter (q : QwenRealtimeProvider) : QwenRealtimeProvider * result qwen_error unit :=
  match send q (NewQwenRealtimeInputAudioBufferClearEvent "") with
  | (q, Err e) => (q, Err e)
  | (q, Ok _) =>
      match state q with
      | stateAgentSpeaking | stateWaiting | stateToolCalling => send q (NewQwenRealtimeResponseCancelEvent "")
      | _ => (q, Ok tt)
      end
  end.

(** [Close] asks the service to close; the answer is [OnClose]. *)
Definition Close (q : QwenRealtimeProvider) : bool := connected q && open q.

(** ** The handlers of qwen_conn.go *)
Definition session_defaults (o : QwenRealtimeSessionOptions) : QwenRealtimeSessionOptions :=
  mkSessionOptions (so_ID o) (so_Object o) (so_Model o)
    (match so_Modalities o with [] => [QwenRealtimeModalityAudio; QwenRealtimeModalityText] | l => l end)
    (so_Voice o)
    (if decide (so_InputAudioFormat o = "") then QwenRealtimeAudioFormatPCM else so_InputAudioFormat o)
    (if decide (so_OutputAudioFormat o = "") then QwenRealtimeAudioFormatPCM else so_OutputAudioFormat o)
    (so_InputAudioTranscription o) (so_SmoothOutput o) (so_Instructions o)
    (match so_TurnDetection o with
     | None => Some (mkTurnDetection QwenRealtimeTurnDetectionServerVAD None None None None None None)
     | t => t end)
    (so_EnableSearch o) (so_SearchOptions o) (so_Tools o) (so_Seed o) (so_MaxTokens o)
    (so_MaxResponseOutputToken o) (so_RepetitionPenalty o) (so_PresencePenalty o) (so_TopK o) (so_TopP o)
    (so_Temperature o).

Definition OnOpen (q : QwenRealtimeProvider) : QwenRealtimeProvider :=
  let q := with_link q true true in
  (send q (NewQwenRealtimeSessionUpdateEvent "" (Some (session_defaults (q_Session (cfg q)))))).1.

Definition OnClose (q : QwenRealtimeProvider) : QwenRealtimeProvider := with_link q false false.

(** The cases of [OnMessage] about the user's side of the conversation. *)
Definition on_input (q : QwenRealtimeProvider) (m : QwenRealtimeServerMessage)
    : QwenRealtimeProvider * list listener_call :=
  match m with
  | ErrorEvent e => (q, [OnError (er_Code (ee_Error e)) (er_Message (ee_Error e))])
  | SpeechStartedEvent e => (with_item (with_state q stateUserSpeaking) (ss_ItemID e), [OnSpeechStarted])
  | SpeechStoppedEvent _ => (q, [OnSpeechStopped])
  | ItemCreatedEvent e => (with_state (with_item q (ci_ID (ic_Item e))) stateWaiting, [])
  | TranscriptionDeltaEvent e => (q, [OnInputTranscriptionDelta (tdl_Text e +:+ tdl_Stash e)])
  | TranscriptionCompletedEvent e => (q, [OnInputTranscriptionDone (tc_Transcript e)])
  | _ => (q, [])
  end.

(** The cases about the answer. *)
Definition on_response (q : QwenRealtimeProvider) (m : QwenRealtimeServerMessage)
    : QwenRealtimeProvider * list listener_call :=
  match m with
  | TextDeltaEvent e => (q, [OnTranscriptDelta (xd_Delta e)])
  | TextDoneEvent e => (q, [OnTranscriptDone (xe_Text e)])
  | AudioDeltaEvent e => (with_state q stateAgentSpeaking, [OnAudioDelta (ad_Delta e)])
  | AudioDoneEvent _ => (with_state q stateListen, [OnAudioDone])
  | AudioTranscriptDeltaEvent e => (q, [OnTranscriptDelta (atd_Delta e)])
  | AudioTranscriptDoneEvent e => (q, [OnTranscriptDone (ate_Transcript e)])
  | ArgumentsDoneEvent e =>
      (with_state q stateToolCalling,
       [OnToolCall (mkToolCall (fe_CallID e) (fe_Name e) (fe_Arguments e)
          {["itemId" := fe_ItemID e; "responseId" := fe_ResponseID e]})])
  | _ => (q, [])
  end.

Definition on_event (q : QwenRealtimeProvider) (m : QwenRealtimeServerMessage)
    : QwenRealtimeProvider * list listener_call :=
  match m with
  | ErrorEvent _ | SessionCreatedEvent _ | SessionUpdatedEvent _ | SpeechStartedEvent _
  | SpeechStoppedEvent _ | CommittedEvent _ | ClearedEvent _ | ItemCreatedEvent _
  | TranscriptionDeltaEvent _ | TranscriptionCompletedEvent _ | TranscriptionFailedEvent _ => on_input q m
  | _ => on_response q m
  end.

(** [OnMessage]; [None] is the panic of a call on a missing listener. *)
Section messages.
Context (GetType : list Z → result unit string).
Context (Unmarshal : ∀ e : server_event, list Z → result unit (event_struct e)).

Definition OnMessage (q : QwenRealtimeProvider) (text : bool) (payload : list Z)
    : option (QwenRealtimeProvider * list listener_call) :=
  if negb text then Some (q, [])
  else match decodeQwenRealtimeServerEvent GetType Unmarshal payload with
       | Err _ => Some (q, [])
       | Ok m =>
           let '(q', calls) := on_event q m in
           if negb (listener q) && negb (bool_decide (length calls = 0)) then None else Some (q', calls)
       end.
End messages.
End provider.

(** ** The plugin *)
Record RealtimeConfig := mkRealtimeConfig {
  Provider : string; InputSampleRate : Z; OutputSampleRate : Z; OutputChannels : Z; Properties : list Z }.

Inductive start_error {E : Type} :=
| PropertiesInvalid | Unsupported (name : string) | ProviderError (e : qwen_error) | DialFailed
| ResamplerFailed (e : E).
Arguments start_error : clear implicits.

Section plugin.
Context {R E : Type} (Resample : R → list Z → R * result E (list Z)) (Flush : R → R * list Z).
Context (NewResampler : Z → Z → Z → Z → result E R).
Context (Marshal : anyv → result schema_error (list Z)) (grow : nat → nat → nat).
Context (MarshalMessage : QwenRealtimeClientMessage → result unit (list Z)) (write_ok : list Z → bool).
Context (UnmarshalConfig : list Z → result unit QwenConfig) (Parse : string → result unit URL).

Record Plugin := mkPlugin {
  p_cfg : RealtimeConfig; provider : option QwenRealtimeProvider;
  streamer : AudioStreamer; inputResampler : option R; outputResampler : option R }.

Definition NewRealtimeProvider (c : RealtimeConfig) : result (start_error E) QwenRealtimeProvider :=
  if decide (Provider c = ProviderQwen) then
    match UnmarshalConfig (Properties c) with
    | Err _ => Err PropertiesInvalid
    | Ok properties => rmap_err ProviderError (NewQwenRealtimeProvider properties)
    end
  else Err (Unsupported (Provider c)).

(** [OnStart] with the outcome of the dial: its result, and whether a socket
    was opened, whose read loop then runs. *)
Definition OnStart (c : RealtimeConfig) (dial_ok : bool) : result (start_error E) Plugin * bool :=
  match NewRealtimeProvider c with
  | Err e => (Err e, false)
  | Ok q =>
      match Connect Parse q with
      | Err e => (Err (ProviderError e), false)
      | Ok _ =>
          if negb dial_ok then (Err DialFailed, false)
          else
            let s := NewAudioStreamer AudioSampleRate AudioChannels (100 * 1000000) in
            if decide (OutputSampleRate c ≠ AudioSampleRate ∨ OutputChannels c ≠ AudioChannels) then
              match NewResampler (OutputSampleRate c) (OutputChannels c) AudioSampleRate AudioChannels with
              | Err e => (Err (ResamplerFailed e), true)
              | Ok r => (Ok (mkPlugin c (Some (Listen q)) s None (Some r)), true)
              end
            else (Ok (mkPlugin c (Some (Listen q)) s None None), true)
      end
  end.

(** [OnStop]: the plugin, and whether the provider is asked to close. *)
Definition OnStop (p : Plugin) : Plugin * bool :=
  (mkPlugin (p_cfg p) (provider p) (streamer p) None None,
   match provider p with Some q => connected q && Close q | None => false end).

Definition with_provider (p : Plugin) (q : QwenRealtimeProvider) : Plugin :=
  mkPlugin (p_cfg p) (Some q) (streamer p) (inputResampler p) (outputResampler p).

Definition resampleInputAudio (p : Plugin) (audio : audio_frame) : Plugin * result E (list Z) :=
  match match inputResampler p with
        | Some r => Ok r
        | None => NewResampler (frame_rate audio) (frame_channels audio) (InputSampleRate (p_cfg p)) (frame_channels audio)
        end with
  | Err e => (p, Err e)
  | Ok r =>
      let '(r, res) := Resample r (frame_bytes audio) in
      (mkPlugin (p_cfg p) (provider p) (streamer p) (Some r) (outputResampler p), res)
  end.

Definition OnAudio (p : Plugin) (audio : audio_frame) : Plugin :=
  match provider p with
  | None => p
  | Some q =>
      if negb (connected q) then p
      else
        let '(p, data) :=
          if decide (InputSampleRate (p_cfg p) ≠ 0%Z ∧ InputSampleRate (p_cfg p) ≠ frame_rate audio)
          then resampleInputAudio p audio else (p, Ok (frame_bytes audio)) in
        match data with
        | Err _ => p
        | Ok data => with_provider p (SendAudio MarshalMessage write_ok q data).1
        end
  end.

(** *** listener.go *)
Definition voice_of (p : Plugin) : voice_state (R := R) := (streamer p, outputResampler p).
Definition with_voice (p : Plugin) (v : voice_state (R := R)) : Plugin :=
  mkPlugin (p_cfg p) (provider p) v.1 (inputResampler p) v.2.

(** [payload.Pack] of a transcription and of a chunk. *)
Definition asr_payload (text : string) (final : bool) : Named.object :=
  let out := new_payload PayloadASRResult in
  freeze (Named.mkObject Named.KPayload
    (match PackSchema Marshal grow (mkTranscription text final "" "" false) (Named.props out) with
     | Ok b => b | Err _ => Named.props out end) PayloadASRResult).

Definition on_call (c : context) (p : Plugin) (call : listener_call) : context * Plugin * list flow_event :=
  match call with
  | OnAudioDelta data =>
      let '(c, v, out) := speak Resample Flush c (voice_of p) data false in (c, with_voice p v, out)
  | OnAudioDone =>
      let '(c, v, out) := speak Resample Flush c (voice_of p) [] true in (c, with_voice p v, out)
  | OnTranscriptDelta text => (c, p, [SendPayload (llm_chunk Marshal grow text false)])
  | OnTranscriptDone _ => (c, p, [SendPayload (llm_chunk Marshal grow "" true)])
  | OnInputTranscriptionDelta text => (c, p, [SendPayload (asr_payload text false)])
  | OnInputTranscriptionDone text => (c, p, [SendPayload (asr_payload text true)])
  | OnSpeechStarted => (c, p, [SendSignal (new_signal SignalInterrupter); SendSignal (new_signal SignalUserSpeechStart)])
  | OnSpeechStopped => (c, p, [SendSignal (new_signal SignalUserSpeechEnd)])
  | OnToolCall _ | OnError _ _ => (c, p, [])
  end.

Fixpoint on_calls (c : context) (p : Plugin) (calls : list listener_call) : context * Plugin * list flow_event :=
  match calls with
  | [] => (c, p, [])
  | call :: calls =>
      let '(c, p, out) := on_call c p call in
      let '(c, p, out') := on_calls c p calls in (c, p, out ++ out')
  end.

(** A server event reaches the provider, which calls the plugin. *)
Definition receive (c : context) (p : Plugin) (m : QwenRealtimeServerMessage)
    : context * Plugin * list flow_event :=
  match provider p with
  | None => (c, p, [])
  | Some q => let '(q, calls) := on_event q m in on_calls c (with_provider p q) calls
  end.
Fixpoint receive_all (c : context) (p : Plugin) (ms : list QwenRealtimeServerMessage)
    : context * Plugin * list flow_event :=
  match ms with
  | [] => (c, p, [])
  | m :: ms =>
      let '(c, p, out) := receive c p m in
      let '(c, p, out') := receive_all c p ms in (c, p, out ++ out')
  end.

(** *** The parts of the output *)

(** What belongs to the agent's speech, and the other events in order. *)
Definition is_speech (e : flow_event) : bool :=
  match e with
  | PluginFlow.SendAudio _ => true
  | SendSignal s => bool_decide (Named.name s = SignalAgentSpeechStart ∨ Named.name s = SignalAgentSpeechEnd)
  | _ => false
  end.
Definition speech (out : list flow_event) : list flow_event := filter (λ e, is_speech e = true) out.
Definition talk (out : list flow_event) : list flow_event := filter (λ e, is_speech e = false) out.

(** The audio of an event, and what it says otherwise. *)
Definition audio_of (m : QwenRealtimeServerMessage) : list (list Z) :=
  match m with AudioDeltaEvent e => [ad_Delta e] | _ => [] end.
Definition ends_audio (m : QwenRealtimeServerMessage) : bool :=
  match m with AudioDoneEvent _ => true | _ => false end.
Definition said (m : QwenRealtimeServerMessage) : list flow_event :=
  match m with
  | SpeechStartedEvent _ => [SendSignal (new_signal SignalInterrupter); SendSignal (new_signal SignalUserSpeechStart)]
  | SpeechStoppedEvent _ => [SendSignal (new_signal SignalUserSpeechEnd)]
  | TranscriptionDeltaEvent e => [SendPayload (asr_payload (tdl_Text e +:+ tdl_Stash e) false)]
  | TranscriptionCompletedEvent e => [SendPayload (asr_payload (tc_Transcript e) true)]
  | TextDeltaEvent e => [SendPayload (llm_chunk Marshal grow (xd_Delta e) false)]
  | AudioTranscriptDeltaEvent e => [SendPayload (llm_chunk Marshal grow (atd_Delta e) false)]
  | TextDoneEvent _ | AudioTranscriptDoneEvent _ => [SendPayload (llm_chunk Marshal grow "" true)]
  | _ => []
  end.

(** Everything a streamer sends is speech. *)
Lemma write_loop_speech fuel c s d : Forall (λ e, is_speech e = true) (write_loop fuel c s d).2.
Proof.
  revert c s d. induction fuel as [|fuel IH]; intros c s d; [constructor|]. rewrite write_loop_S.
  destruct (negb (ctx_ok c)); [constructor|]. case_decide; [constructor|].
  assert (Forall (λ e, is_speech e = true) (round s d).1.2) as Hr.
  { unfold round. destruct (_ || _); [|by repeat constructor]. destruct (copy_from _ _ _) as [n buf].
    case_decide; by repeat constructor. }
  destruct (round s d) as [[s1 o1] n]. specialize (IH (checked c) s1 (drop n d)).
  destruct (write_loop fuel (checked c) s1 (drop n d)) as [[? ?] ?]. by apply Forall_app.
Qed.

Lemma write_speech c s d b : Forall (λ e, is_speech e = true) (write c s d b).2.
Proof.
  unfold write. set (p := if started s then (c, s, []) else _).
  assert (Forall (λ e, is_speech e = true) p.2) as Hp.
  { unfold p. destruct (started s); [constructor|]. destruct (ctx_ok c); by repeat constructor. }
  destruct p as [[c1 s1] o1]. pose proof (write_loop_speech (S (length d)) c1 s1 d) as Hl.
  destruct (write_loop (S (length d)) c1 s1 d) as [[c2 s2] o2]. simpl in Hp, Hl.
  destruct (b && ctx_ok c2); [|by apply Forall_app].
  case_decide; simpl; rewrite !Forall_app; by repeat constructor.
Qed.

Lemma speak_speech c v d b : Forall (λ e, is_speech e = true) (speak Resample Flush c v d b).2.
Proof.
  unfold speak. rewrite Write_inner. destruct (inner Resample Flush v.2 d b) as [r l].
  assert (Forall (λ e, is_speech e = true) (writes c v.1 l).2) as Hw.
  { generalize (v.1) as s. revert c. induction l as [|[x y] l IH]; intros c s; cbn [writes]; [constructor|].
    pose proof (write_speech c s x y) as H1. destruct (write c s x y) as [[c1 s1] o1].
    specialize (IH c1 s1). destruct (writes c1 s1 l) as [[? ?] ?]. by apply Forall_app. }
  by destruct (writes c v.1 l) as [[? ?] ?].
Qed.

Lemma speech_all out : Forall (λ e, is_speech e = true) out → speech out = out ∧ talk out = [].
Proof.
  unfold speech, talk. induction 1 as [|e out He _ [IH1 IH2]]; [done|].
  rewrite filter_cons_True, filter_cons_False by congruence. by rewrite IH1, IH2.
Qed.
Lemma talk_all out : Forall (λ e, is_speech e = false) out → speech out = [] ∧ talk out = out.
Proof.
  unfold speech, talk. induction 1 as [|e out He _ [IH1 IH2]]; [done|].
  rewrite filter_cons_False, filter_cons_True by congruence. by rewrite IH1, IH2.
Qed.
Lemma said_talk m : Forall (λ e, is_speech e = false) (said m).
Proof. destruct m; repeat constructor. Qed.

(** *** Audio and talk of a history *)
Definition audio_step (c : context) (v : voice_state (R := R)) (m : QwenRealtimeServerMessage)
    : context * voice_state (R := R) * list flow_event :=
  match m with
  | AudioDeltaEvent e => speak Resample Flush c v (ad_Delta e) false
  | AudioDoneEvent _ => speak Resample Flush c v [] true
  | _ => (c, v, [])
  end.
Fixpoint audio_steps (c : context) (v : voice_state (R := R)) (ms : list QwenRealtimeServerMessage)
    : context * voice_state (R := R) * list flow_event :=
  match ms with
  | [] => (c, v, [])
  | m :: ms =>
      let '(c, v, out) := audio_step c v m in
      let '(c, v, out') := audio_steps c v ms in (c, v, out ++ out')
  end.

Lemma receive_parts c p q m :
  provider p = Some q →
  ∃ c' p' out, receive c p m = (c', p', out) ∧ provider p' = Some (on_event q m).1 ∧
    audio_step c (voice_of p) m = (c', voice_of p', speech out) ∧ talk out = said m.
Proof.
  intros Hq. unfold receive. rewrite Hq.
  destruct m; cbn [on_event on_input on_response on_calls on_call audio_step said];
    try (eexists _, _, _; split; [reflexivity|]; by (split; [done|]; split));
    change (voice_of (with_provider p _)) with (voice_of p).
  - pose proof (speak_speech c (voice_of p) (ad_Delta e) false) as Hs.
    destruct (speak Resample Flush c (voice_of p) (ad_Delta e) false) as [[c1 [s1 r1]] o1].
    apply speech_all in Hs as [E1 E2]. eexists _, _, _. rewrite app_nil_r. split; [done|].
    split; [done|]. simpl in E1, E2. by rewrite E1, E2.
  - pose proof (speak_speech c (voice_of p) [] true) as Hs.
    destruct (speak Resample Flush c (voice_of p) [] true) as [[c1 [s1 r1]] o1].
    apply speech_all in Hs as [E1 E2]. eexists _, _, _. rewrite app_nil_r. split; [done|].
    split; [done|]. simpl in E1, E2. by rewrite E1, E2.
Qed.

Lemma receive_all_parts c p q ms :
  provider p = Some q →
  ∃ c' p' q' out, receive_all c p ms = (c', p', out) ∧ provider p' = Some q' ∧
    audio_steps c (voice_of p) ms = (c', voice_of p', speech out) ∧ talk out = ms ≫= said.
Proof.
  revert c p q. induction ms as [|m ms IH]; intros c p q Hq.
  { by exists c, p, q, []. }
  destruct (receive_parts c p q m Hq) as (c1 & p1 & o1 & H1 & Hq1 & Ha1 & Ht1).
  destruct (IH c1 p1 _ Hq1) as (c2 & p2 & q2 & o2 & H2 & Hq2 & Ha2 & Ht2).
  exists c2, p2, q2, (o1 ++ o2). cbn [receive_all audio_steps]. rewrite H1, H2, Ha1, Ha2.
  unfold speech, talk in *. rewrite bind_cons, <-Ht1, <-Ht2, !filter_app. done.
Qed.

(** The audio of an answer is an utterance of the streamer. *)
Lemma audio_steps_say c v ms e :
  Forall (λ m, ends_audio m = false) ms →
  audio_steps c v (ms ++ [AudioDoneEvent e]) = say Resample Flush c v (ms ≫= audio_of) true.
Proof.
  intros Hms. revert c v. induction Hms as [|m ms Hm _ IH]; intros c v.
  { cbn [app audio_steps audio_step]. unfold say. cbn.
    destruct (speak Resample Flush c v [] true) as [[? ?] ?]. by rewrite app_nil_r. }
  cbn [app audio_steps]. rewrite bind_cons.
  destruct m; try done; cbn [audio_step audio_of app];
    try (rewrite IH; by destruct (say Resample Flush c v (ms ≫= audio_of) true) as [[? ?] ?]).
  unfold say in *. cbn [speak_all].
  destruct (speak Resample Flush c v (ad_Delta e0) false) as [[c1 v1] o1]. rewrite IH.
  destruct (speak_all Resample Flush c1 v1 (ms ≫= audio_of)) as [[c2 v2] o2].
  destruct (speak Resample Flush c2 v2 [] true) as [[c3 v3] o3]. by rewrite app_assoc.
Qed.

(** C30: An answer of the model reaches the workflow whole, however its events are
    mixed.  When the audio of an answer ends, an idle plugin has sent the
    start of speech, frames of 100 ms with the audio of all its deltas,
    resampled if the formats differ, and the end of speech; between them,
    every transcript of the user and of the model, and every start and end of
    the user's speech, was sent once and in order. *)
Theorem realtime_answer_arrives p q ms e :
  provider p = Some q → idle (streamer p) → Forall (λ m, ends_audio m = false) ms →
  ∃ p' out, receive_all None p (ms ++ [AudioDoneEvent e]) = (None, p', out) ∧
    framed (streamer p) (audio Resample Flush (outputResampler p) (ms ≫= audio_of) []) (speech out) ∧
    talk out = ms ≫= said ∧ idle (streamer p').
Proof.
  intros Hq Hi Hms.
  destruct (receive_all_parts None p q (ms ++ [AudioDoneEvent e]) Hq) as (c' & p' & q' & out & Hr & _ & Ha & Ht).
  rewrite audio_steps_say in Ha by done. unfold voice_of in Ha at 1.
  destruct (say_framed Resample Flush (streamer p) (outputResampler p) (ms ≫= audio_of) Hi) as (s' & r' & o & Hs & Hi' & _ & Hf).
  rewrite Hs in Ha. injection Ha as <- Hv1 Hv2 Ho. exists p', out. split; [done|]. rewrite <-Ho.
  split; [done|]. split; [|by rewrite <-Hv1]. rewrite Ht, bind_app. simpl. by rewrite app_nil_r.
Qed.
End plugin.

(** ** The conversation *)

Section conversation.
Context (MarshalMessage : QwenRealtimeClientMessage → result unit (list Z)) (write_ok : list Z → bool).

(** What reaches a provider: server events, and the calls of its client. *)
Inductive provider_event :=
| PvMessage (m : QwenRealtimeServerMessage)
| PvAudio (d : list Z) | PvImage (d : list Z) | PvAnswer (a : ToolCallAnswer) | PvInterrupt | PvOpen | PvClosed.

Definition provider_step (q : QwenRealtimeProvider) (ev : provider_event) : QwenRealtimeProvider :=
  match ev with
  | PvMessage m => (on_event q m).1
  | PvAudio d => (SendAudio MarshalMessage write_ok q d).1
  | PvImage d => (SendImage MarshalMessage write_ok q d).1
  | PvAnswer a => (SendToolCallAnswer MarshalMessage write_ok q a).1
  | PvInterrupt => (Interrupter MarshalMessage write_ok q).1
  | PvOpen => OnOpen MarshalMessage write_ok q
  | PvClosed => OnClose q
  end.
Definition provider_run (q : QwenRealtimeProvider) (evs : list provider_event) : QwenRealtimeProvider :=
  foldl provider_step q evs.

Lemma send_ok q m payload :
  connected q = true → open q = true → MarshalMessage m = Ok payload → write_ok payload = true →
  ∃ q', send MarshalMessage write_ok q m = (q', Ok tt) ∧ sent q' = sent q ++ [payload] ∧
    open q' = open q ∧ connected q' = connected q ∧ state q' = state q.
Proof. intros Hc Ho Hm Hw. unfold send. rewrite Hc, Ho, Hm, Hw. by eexists. Qed.

(** What the provider sends on an interruption and with the result of a tool,
    while it is connected and its writes succeed, by its state. *)
Lemma control_messages_sent q answer clear cancel :
  let s := state q in
  connected q = true → open q = true → (∀ payload, write_ok payload = true) → (∀ m, is_ok (MarshalMessage m) = true) →
  MarshalMessage (NewQwenRealtimeInputAudioBufferClearEvent "") = Ok clear →
  MarshalMessage (NewQwenRealtimeResponseCancelEvent "") = Ok cancel →
  sent (Interrupter MarshalMessage write_ok q).1 =
    sent q ++ clear :: (match s with
                        | stateAgentSpeaking | stateWaiting | stateToolCalling => [cancel]
                        | _ => []
                        end) ∧
  (Interrupter MarshalMessage write_ok q).2 = Ok tt ∧
  ((SendToolCallAnswer MarshalMessage write_ok q answer).2 = Ok tt ↔ s = stateToolCalling) ∧
  (s ≠ stateToolCalling → (SendToolCallAnswer MarshalMessage write_ok q answer) = (q, Err (WrongState s))) ∧
  (s = stateToolCalling → ∃ item next,
     MarshalMessage (NewQwenRealtimeConversationItemCreateEvent ""
       (mkItemOutput (itemId q) "" (tc_CallID (ta_Call answer)) (ta_Result answer))) = Ok item ∧
     MarshalMessage (NewQwenRealtimeResponseCreateEvent "") = Ok next ∧
     sent (SendToolCallAnswer MarshalMessage write_ok q answer).1 = sent q ++ [item; next]).
Proof.
  intros s Hc Ho Hw Hm Hcl Hca. pose proof (eq_refl : state q = s) as Hs. clearbody s.
  assert (∀ m, ∃ p, MarshalMessage m = Ok p) as Hok.
  { intros m. specialize (Hm m). destruct (MarshalMessage m); [by eexists|done]. }
  destruct (send_ok q _ clear Hc Ho Hcl (Hw _)) as (q1 & E1 & S1 & O1 & C1 & T1).
  split; [|split].
  1,2: unfold Interrupter; rewrite E1, T1, Hs;
    (destruct s eqn:Hs0; simpl; try done);
    destruct (send_ok q1 _ cancel ltac:(congruence) ltac:(congruence) Hca (Hw _)) as (q2 & E2 & S2 & _);
    rewrite E2; simpl; by rewrite ?S2, ?S1, <-?app_assoc.
  unfold SendToolCallAnswer. rewrite Hs. destruct (decide (s = stateToolCalling)) as [Heq|Hne].
  - rewrite decide_False by tauto.
    match goal with |- context [send _ _ q ?m] => destruct (Hok m) as [item Hi];
      destruct (send_ok q m item Hc Ho Hi (Hw _)) as (q2 & E2 & S2 & O2 & C2 & _) end.
    destruct (Hok (NewQwenRealtimeResponseCreateEvent "")) as [nx Hn].
    destruct (send_ok q2 _ nx ltac:(congruence) ltac:(congruence) Hn (Hw _)) as (q3 & E3 & S3 & _).
    rewrite E2, E3. split; [done|]. split; [done|]. intros _. exists item, nx. split; [done|]. split; [done|].
    simpl. by rewrite S3, S2, <-app_assoc.
  - rewrite decide_True by done. split; [done|]. split; [done|]. done.
Qed.
End conversation.

(** The audio of a frame can be read back from the message the service gets. *)
Lemma sent_audio_decodes data :
  Forall is_byte data →
  ∃ h audio, NewQwenRealtimeInputAudioBufferAppendEvent "" (EncodeToString data) = InputAudioBufferAppendEvent h audio ∧
    ch_Type h = QwenRealtimeEventInputAudioBufferAppend ∧ b64_decode (bytes_of_string audio) = Some data.
Proof.
  intros Hd. eexists _, _. split; [reflexivity|]. split; [done|]. unfold EncodeToString.
  rewrite bytes_string_bytes by by apply b64_encode_bytes. by apply b64_roundtrip.
Qed.

(** ** Examples *)
Definition no_options : QwenRealtimeSessionOptions :=
  mkSessionOptions "" "" "" [] "" "" "" None None "" None None None [] None None "" None None None None None.
Definition demo_qwen : QwenConfig := mkQwenConfig "wss://api" "key" "qwen" no_options.
Definition demo_header : qwenRealtimeServerMessageHeader := mkServerHeader "1" "".
Definition demo_delta (d : list Z) : QwenRealtimeServerMessage := AudioDeltaEvent (mkAudioDelta demo_header "" "" 0 0 d).
Definition demo_done : QwenRealtimeResponseAudioDoneEvent := mkAudioDone demo_header "" "" 0 0.
Definition demo_text (t : string) : QwenRealtimeServerMessage :=
  AudioTranscriptDeltaEvent (mkAudioTranscriptDelta demo_header "" "" 0 0 t).
Definition demo_started : QwenRealtimeServerMessage := SpeechStartedEvent (mkSpeechStarted demo_header 0 "i").
Definition demo_item : QwenRealtimeServerMessage :=
  ItemCreatedEvent (mkItemCreated demo_header (mkItem "item" "" "" "" "" [] "" "" "")).
Definition demo_call : QwenRealtimeServerMessage :=
  ArgumentsDoneEvent (mkArgumentsDone demo_header "r" "i" 0 "call" "clock" "").

(** The codec of the examples writes the type of a message. *)
Definition demo_codec (m : QwenRealtimeClientMessage) : result unit (list Z) :=
  Ok (bytes_of_string
    match m with
    | SessionUpdateEvent h _ | ResponseCreateEvent h | ResponseCancelEvent h | InputAudioBufferAppendEvent h _
    | InputAudioBufferCommitEvent h | InputAudioBufferClearEvent h | InputImageBufferAppendEvent h _
    | ConversationItemCreateEvent h _ => ch_Type h
    end).

Definition demo_provider : QwenRealtimeProvider := mkProvider true true stateIdle true "" demo_qwen [].
Definition demo_plugin : Plugin (R := list Z) :=
  mkPlugin (mkRealtimeConfig "qwen" 0 24000 1 []) (Some demo_provider) small_streamer None (Some []).

Lemma realtime_answer_arrives_witness :
  ∃ p' out,
    receive_all double_all double_flush any_json any_grow None demo_plugin
      [demo_item; demo_delta [1; 2]%Z; demo_text "Hel"; demo_delta [3]%Z; demo_text "lo"; AudioDoneEvent demo_done]
      = (None, p', out) ∧
    framed small_streamer [1; 1; 2; 2; 3; 3]%Z (speech out) ∧
    talk out = [SendPayload (llm_chunk any_json any_grow "Hel" false); SendPayload (llm_chunk any_json any_grow "lo" false)].
Proof.
  destruct (realtime_answer_arrives double_all double_flush any_json any_grow demo_plugin demo_provider
    [demo_item; demo_delta [1; 2]%Z; demo_text "Hel"; demo_delta [3]%Z; demo_text "lo"] demo_done)
    as (p' & out & Hr & Hf & Ht & _).
  - reflexivity.
  - split; [unfold streamer_wf; simpl; lia|split; reflexivity].
  - repeat constructor.
  - exists p', out. split; [exact Hr|]. split; [exact Hf|exact Ht].
Defined.

(** The read loop starts before the listener is set: the first answer of the
    service can find none. *)
Lemma early_message_panics GetType Unmarshal payload :
  decodeQwenRealtimeServerEvent GetType Unmarshal payload = Ok demo_started →
  ∀ q, NewQwenRealtimeProvider demo_qwen = Ok q →
  OnMessage GetType Unmarshal (OnOpen demo_codec (λ _, true) q) true payload = None ∧
  OnMessage GetType Unmarshal (OnOpen demo_codec (λ _, true) (Listen q)) true payload ≠ None.
Proof.
  intros Hd q Hq. vm_compute in Hq. injection Hq as <-. unfold OnMessage. rewrite Hd. split; [reflexivity|done].
Qed.

(** A start that fails at the resampler leaves the socket open. *)
Lemma failed_resampler_leaves_socket :
  OnStart (R := unit) (λ _ _ _ _, Err tt) (λ _, Ok demo_qwen) (λ s, Ok (mkURL s ∅ ""))
    (mkRealtimeConfig "qwen" 0 24000 1 []) true = (Err (ResamplerFailed tt), true).
Proof. vm_compute. reflexivity. Qed.

(** The speech of the user does not reset the streamer: what waited for a
    full frame of the interrupted answer leads the next one. *)
Lemma interrupted_tail_leads_next_answer :
  (receive_all double_all double_flush any_json any_grow None
    (mkPlugin (mkRealtimeConfig "qwen" 0 16000 1 []) (Some demo_provider) small_streamer None None)
    [demo_delta [1; 2]%Z; demo_started; demo_delta [3; 4]%Z; AudioDoneEvent demo_done]).2 ≫= frame_data
  = [1; 2; 3; 4]%Z.
Proof. vm_compute. reflexivity. Qed.

(** A text answer does not end the phase it was announced in: an interruption
    after it cancels an answer that is complete. *)
Lemma finished_answer_is_cancelled :
  sent (Interrupter demo_codec (λ _, true)
    (provider_run demo_codec (λ _, true) demo_provider
      [PvMessage demo_item; PvMessage (TextDoneEvent (mkTextDone demo_header "" "" 0 0 "Hi."));
       PvMessage (ResponseDoneEvent (mkResponseDone demo_header
         (mkRealtimeResponse "" "" "" "completed" [] "" "" [] None)))])).1
  = [bytes_of_string "input_audio_buffer.clear"; bytes_of_string "response.cancel"].
Proof. vm_compute. reflexivity. Qed.

(** The item that carries the result of a tool does not name its type. *)
Lemma tool_answer_without_type q a :
  ∃ item, NewQwenRealtimeConversationItemCreateEvent ""
    (mkItemOutput (itemId q) "" (tc_CallID (ta_Call a)) (ta_Result a)) =
    ConversationItemCreateEvent (newQwenRealtimeMessageHeader "" QwenRealtimeEventConversationItemCreate) item ∧
    io_Type item ≠ QwenRealtimeConversationItemFunctionCallOutput.
Proof. eexists. split; [reflexivity|]. by vm_compute. Qed.
