(* ===== verification/Resampler.v ===== *)
(** * The resampler: pkg/audioproc/resampler.go

    The Go side of a resampler of 16-bit PCM: it counts samples, sizes the
    output buffer it keeps between calls and slices what the C library
    (libswresample) wrote.  The library's functions are arguments; what is
    used of their documentation are the hypotheses of [swr_ok].  [None] is a
    Go panic (a slice out of range, a division by zero) or an access of the
    library outside an array it was given. *)

From S2P Require Import Prelude.
From S2P Require Import PluginFlow.
From S2P Require Import AudioStreamer.
From S2P Require Import TtsVendors.

Local Open Scope Z_scope.

Section resampler.
Context {Swr : Type}.
Context (swr_get_delay : Swr → Z → Z) (av_rescale_rnd : Z → Z → Z → Z).

(** [swr_convert]: the samples per channel it may write, the bytes and the
    samples per channel it is given; the samples it wrote (negative is an
    error) and their bytes. *)
Context (swr_convert : Swr → Z → list Z → Z → Swr * Z * list Z).

Inductive resample_error := ErrInitFailed (code : Z) | ErrResampleFailed (code : Z).

(** The sticky slice: [outBuf] is its array, whose length is its capacity, and
    [outLen] the length the slice was last cut to. *)
Record Resampler := mkResampler {
  swrCtx : Swr; srcRate : Z; srcChannels : Z; dstRate : Z; dstChannels : Z;
  outBuf : list Z; outLen : Z }.

Definition NewResampler (swr_alloc : Z → Z → Z → Z → result Z Swr) (swr_init : Swr → Z)
    (srcRate srcCh dstRate dstCh : Z) : result resample_error Resampler :=
  match swr_alloc (int32 srcCh) (int32 dstCh) (int32 dstRate) (int32 srcRate) with
  | Err code => Err (ErrInitFailed code)
  | Ok swr =>
      if decide (swr_init swr < 0) then Err (ErrInitFailed (swr_init swr))
      else Ok (mkResampler swr srcRate srcCh dstRate dstCh [] 0)
  end.

(** [buf[:n]] panics when [n] is not within the capacity. *)
Definition slice_ok (cap : list Z) (n : Z) : Prop := 0 ≤ n ≤ Z.of_nat (length cap).
Definition slice_to (cap : list Z) (n : Z) : option (list Z) :=
  if decide (slice_ok cap n) then Some (take (Z.to_nat n) cap) else None.

(** The library reads [n] bytes behind [inPtr] and writes [out] behind
    [outPtr], without a bounds check; an access outside the array is [None].
    [outPtr] is nil when the slice is empty: nothing can be written behind it. *)
Definition c_read (d : list Z) (n : Z) : option (list Z) :=
  if decide (n ≤ Z.of_nat (length d)) then Some (take (Z.to_nat n) d) else None.
Definition c_write (out cap : list Z) : option (list Z) :=
  if decide (length out ≤ length cap)%nat then Some (out ++ drop (length out) cap) else None.

Definition Resample (r : Resampler) (d : list Z) : option (Resampler * result resample_error (list Z)) :=
  let len := Z.of_nat (length d) in
  if decide (len > 0 ∧ srcChannels r * 2 = 0) then None
  else
    let srcNbSamples := if decide (len > 0) then int32 (Z.quot len (srcChannels r * 2)) else 0 in
    let delay := swr_get_delay (swrCtx r) (srcRate r) in
    if decide (srcNbSamples = 0 ∧ delay = 0) then Some (r, Ok [])
    else
      let maxDstNbSamples := av_rescale_rnd (delay + srcNbSamples) (dstRate r) (srcRate r) in
      let requiredSize := int64 (maxDstNbSamples * dstChannels r * 2) in
      if decide (requiredSize < 0) then None
      else
        let cap := if decide (Z.of_nat (length (outBuf r)) < requiredSize)
                   then replicate (Z.to_nat requiredSize) 0 else outBuf r in
        if decide (slice_ok cap requiredSize) then
          given ← c_read d (srcNbSamples * srcChannels r * 2);
          let '(swr, ret, out) := swr_convert (swrCtx r) (int32 maxDstNbSamples) given srcNbSamples in
          cap' ← c_write out (if decide (requiredSize > 0) then cap else []);
          let r' := mkResampler swr (srcRate r) (srcChannels r) (dstRate r) (dstChannels r)
                      (cap' ++ drop (length cap') cap) requiredSize in
          if decide (ret < 0) then Some (r', Err (ErrResampleFailed ret))
          else
            let actualSize := int64 (ret * dstChannels r * 2) in
            if decide (actualSize = 0) then Some (r', Ok [])
            else res ← slice_to (outBuf r') actualSize; Some (r', Ok res)
        else None.

Definition Flush (r : Resampler) : option (Resampler * result resample_error (list Z)) := Resample r [].

(** ** Bounds *)

(** What the library documents: delays are not negative, rescaling keeps the
    sign, and a conversion allowed [n] samples per channel writes at most
    those, and exactly the number it returns. *)
Record swr_ok (dstCh : Z) : Prop := {
  delay_ok : ∀ s rate, 0 ≤ swr_get_delay s rate;
  rescale_ok : ∀ a b c, 0 ≤ a → 0 < b → 0 < c → 0 ≤ av_rescale_rnd a b c;
  convert_ok : ∀ s n d k, 0 ≤ n →
    let '(_, ret, out) := swr_convert s n d k in
    ret ≤ n ∧ Z.of_nat (length out) ≤ n * dstCh * 2 ∧
    (0 ≤ ret → Z.of_nat (length out) = ret * dstCh * 2);
}.

(** The formats [NewResampler] was given, and the slice within its array. *)
Definition resampler_ok (r : Resampler) : Prop :=
  0 < srcRate r ∧ 0 < srcChannels r ∧ 0 < dstRate r ∧ 0 < dstChannels r < 2 ^ 31 ∧
  slice_ok (outBuf r) (outLen r).

(** The samples a call can give, by the library's estimate. *)
Definition estimate (r : Resampler) (d : list Z) : Z :=
  av_rescale_rnd (swr_get_delay (swrCtx r) (srcRate r) + Z.of_nat (length d) / (srcChannels r * 2))
    (dstRate r) (srcRate r).

(** The sizes the code converts to 32 bits. *)
Definition sizes_ok (r : Resampler) (d : list Z) : Prop :=
  Z.of_nat (length d) < 2 ^ 31 ∧ estimate r d < 2 ^ 31.

(** The call of the library as the code should make it: all whole samples of
    the input, and room for the whole estimate. *)
Definition conversion (r : Resampler) (d : list Z) : Swr * Z * list Z :=
  let k := Z.of_nat (length d) / (srcChannels r * 2) in
  swr_convert (swrCtx r) (estimate r d) (take (Z.to_nat (k * srcChannels r * 2)) d) k.

Definition nothing_to_do (r : Resampler) (d : list Z) : Prop :=
  Z.of_nat (length d) / (srcChannels r * 2) = 0 ∧ swr_get_delay (swrCtx r) (srcRate r) = 0.
#[local] Instance nothing_to_do_dec r d : Decision (nothing_to_do r d).
Proof. unfold nothing_to_do. apply _. Defined.

Lemma whole_samples (d : list Z) ch :
  0 < ch → Z.of_nat (length d) < 2 ^ 31 →
  (if decide (Z.of_nat (length d) > 0) then int32 (Z.quot (Z.of_nat (length d)) (ch * 2)) else 0) =
    Z.of_nat (length d) / (ch * 2) ∧
  0 ≤ Z.of_nat (length d) / (ch * 2) ∧
  Z.of_nat (length d) / (ch * 2) * ch * 2 ≤ Z.of_nat (length d).
Proof.
  intros Hc Hl. set (len := Z.of_nat (length d)) in *. split; [|split].
  - case_decide as Hp.
    + rewrite Z.quot_div_nonneg by lia. apply int32_small. Z.to_euclidean_division_equations. nia.
    + assert (len = 0) as -> by lia. by rewrite Z.div_0_l by lia.
  - apply Z.div_pos; lia.
  - Z.to_euclidean_division_equations. nia.
Qed.

Lemma c_read_fits d n : n ≤ Z.of_nat (length d) → c_read d n = Some (take (Z.to_nat n) d).
Proof. intros H. unfold c_read. by rewrite decide_True. Qed.

Lemma c_write_fits out cap :
  (length out ≤ length cap)%nat → c_write out cap = Some (out ++ drop (length out) cap).
Proof. intros H. unfold c_write. by rewrite decide_True. Qed.

Lemma drop_written {A} (out cap : list A) :
  (length out ≤ length cap)%nat → drop (length (out ++ drop (length out) cap)) cap = [].
Proof. intros H. apply drop_ge. rewrite length_app, length_drop. lia. Qed.

(** What fits the slice is written to its array, and the array keeps the rest. *)
Lemma c_write_slice out cap n :
  Z.of_nat (length out) ≤ n → n ≤ Z.of_nat (length cap) →
  ∃ cap', c_write out (if decide (n > 0) then cap else []) = Some cap' ∧
    cap' ++ drop (length cap') cap = out ++ drop (length out) cap.
Proof.
  intros Ho Hn. case_decide.
  - eexists. rewrite c_write_fits by lia. split; [done|]. rewrite drop_written by lia. by rewrite app_nil_r.
  - assert (out = []) as -> by (apply length_zero_iff_nil; lia). exists []. split; reflexivity.
Qed.

(** C36: A call stays within its buffers.  When the library keeps to its
    documentation, a call neither panics nor lets the library read or write
    outside an array: the slice has room for every sample the library may
    write and lies within its array, the library reads exactly the whole
    samples of the input, and the result is exactly what it wrote, or its
    error.  Without samples and without delay nothing is called. *)
Theorem resample_in_bounds r d :
  swr_ok (dstChannels r) → resampler_ok r → sizes_ok r d →
  if decide (nothing_to_do r d) then Resample r d = Some (r, Ok [])
  else let '(swr, ret, out) := conversion r d in
    ∃ r', resampler_ok r' ∧ swrCtx r' = swr ∧
      outLen r' = estimate r d * dstChannels r * 2 ∧
      (length (outBuf r) ≤ length (outBuf r'))%nat ∧ take (length out) (outBuf r') = out ∧
      Resample r d = Some (r', if decide (ret < 0) then Err (ErrResampleFailed ret) else Ok out).
Proof.
  intros Hswr (Hsr & Hsc & Hdr & Hdc & Hbuf) [Hlen Hmax].
  destruct (whole_samples d (srcChannels r)) as (Hk & Hk0 & Hk1); [done..|].
  unfold Resample, conversion. rewrite Hk.
  rewrite (decide_False (P := _ > 0 ∧ _)) by lia. cbv zeta.
  unfold estimate in *. set (len := Z.of_nat (length d)) in *. clear Hk.
  set (k := len / (srcChannels r * 2)) in *. set (delay := swr_get_delay (swrCtx r) (srcRate r)) in *.
  assert (0 ≤ delay) as Hd by apply (delay_ok _ Hswr).
  destruct (decide (nothing_to_do r d)) as [Hn|Hn]; unfold nothing_to_do in Hn;
    fold len k delay in Hn; [by rewrite decide_True|rewrite decide_False by done].
  set (m := av_rescale_rnd (delay + k) (dstRate r) (srcRate r)) in *.
  assert (0 ≤ m) as Hm by (apply (rescale_ok _ Hswr); lia).
  assert (0 ≤ m * dstChannels r * 2 < 2 ^ 63) as Hreq by nia.
  rewrite (int64_small (m * _ * 2)) by lia. rewrite (int32_small m) by lia. rewrite decide_False by lia.
  set (cap := if decide (Z.of_nat (length (outBuf r)) < m * dstChannels r * 2) then _ else _).
  assert (m * dstChannels r * 2 ≤ Z.of_nat (length cap) ∧
    (length (outBuf r) ≤ length cap)%nat) as [Hb1 Hb2].
  { unfold cap. case_decide; [rewrite length_replicate|]; lia. }
  rewrite (decide_True (P := slice_ok _ _)) by (unfold slice_ok; lia).
  rewrite (c_read_fits d _ Hk1). cbn [mbind option_bind].
  pose proof (convert_ok _ Hswr (swrCtx r) m (take (Z.to_nat (k * srcChannels r * 2)) d) k Hm) as Hc.
  destruct (swr_convert _ _ _ _) as [[swr ret] out]. destruct Hc as (Hret & Hfit & Hout).
  destruct (c_write_slice out cap (m * dstChannels r * 2)) as (cap' & -> & Ecap); [lia..|].
  cbn [mbind option_bind]. rewrite Ecap.
  eexists (mkResampler swr (srcRate r) (srcChannels r) (dstRate r) (dstChannels r)
    (out ++ drop (length out) cap) (m * dstChannels r * 2)).
  assert (length (out ++ drop (length out) cap) = length cap) as El
    by (rewrite length_app, length_drop; lia).
  split; [|split; [done|split; [done|split; [|split]]]].
  - unfold resampler_ok, slice_ok. cbn. rewrite El. lia.
  - cbn. lia.
  - cbn. by rewrite take_app_length.
  - destruct (decide (ret < 0)); [done|]. specialize (Hout ltac:(lia)).
    rewrite int64_small by nia. rewrite <- Hout.
    destruct (decide (Z.of_nat (length out) = 0)) as [Hz|Hz].
    + assert (out = []) as -> by (apply length_zero_iff_nil; lia). done.
    + unfold slice_to, slice_ok. cbn [outBuf]. rewrite decide_True by lia. cbn [mbind option_bind].
      by rewrite Nat2Z.id, take_app_length.
Qed.
End resampler.

(** ** Examples: a library that copies its input *)
Definition copy_convert (s : unit) (n : Z) (d : list Z) (k : Z) : unit * Z * list Z :=
  let ret := Z.min n (Z.of_nat (length d) / 2) in (tt, Z.max 0 ret, take (Z.to_nat (Z.max 0 ret * 2)) d).
Definition no_delay (s : unit) (rate : Z) : Z := 0.
Definition rescale_up (a b c : Z) : Z := (a * b + c - 1) / c.
Definition copier : Resampler (Swr := unit) := mkResampler tt 16000 1 16000 1 [] 0.

Lemma copier_ok : swr_ok no_delay rescale_up copy_convert 1.
Proof.
  split.
  - done.
  - intros a b c Ha Hb Hc. unfold rescale_up. apply Z.div_pos; nia.
  - intros s n d k Hn. unfold copy_convert. rewrite length_take.
    split; [|split]; [Z.to_euclidean_division_equations; lia..|].
    intros _. Z.to_euclidean_division_equations. lia.
Qed.

Lemma resample_in_bounds_witness :
  ∃ r', Resample no_delay rescale_up copy_convert copier [1; 2; 3; 4] = Some (r', Ok [1; 2; 3; 4]) ∧
    outLen r' = 4.
Proof.
  destruct (resample_in_bounds no_delay rescale_up copy_convert copier [1; 2; 3; 4])
    as (r' & _ & _ & Hlen & _ & _ & Hr).
  - exact copier_ok.
  - unfold resampler_ok, slice_ok. simpl. lia.
  - split; [simpl; lia|vm_compute; reflexivity].
  - exists r'. split; [exact Hr|exact Hlen].
Defined.

(** A piece of odd length is torn: its last byte is dropped, not kept for the
    next piece, and every later sample of the stream is made of the halves of
    two others. *)
Definition copy_resample (r : Resampler (Swr := unit)) (d : list Z) : Resampler (Swr := unit) * result unit (list Z) :=
  match Resample no_delay rescale_up copy_convert r d with
  | Some (r', Ok out) => (r', Ok out)
  | Some (r', Err _) => (r', Err tt)
  | None => (r, Err tt)
  end.
Definition copy_flush (r : Resampler (Swr := unit)) : Resampler (Swr := unit) * list Z :=
  match Flush no_delay rescale_up copy_convert r with Some (r', Ok out) => (r', out) | _ => (r, []) end.

Lemma odd_piece_is_torn :
  (utter copy_resample copy_flush None small_streamer (Some copier) [[1; 2; 3]; [4; 5; 6; 7; 8]] []).2 ≫= frame_data
    = [1; 2; 4; 5; 6; 7] ∧
  (utter copy_resample copy_flush None small_streamer (Some copier) [[1; 2; 3; 4]; [5; 6; 7; 8]] []).2 ≫= frame_data
    = [1; 2; 3; 4; 5; 6; 7; 8].
Proof. vm_compute. split; reflexivity. Qed.
