(* ===== verification/Handlers.v ===== *)
(** * HTTP handlers: biz/handler, pkg/httpx, pkg/result, internal/errcode

    The requests of a client as operations on the session manager
    ([EngineSession]) and on the document store ([ConfigManager]): a handler
    returns the reply it writes or an error, which [Wrap] turns into a reply.
    The JSON codec, uuid.Parse and the texts of errors are arguments. *)

From S2P Require Import Prelude GoStrings EngineTypes Registry Lifecycle ConfigManager EngineSession.

(** ** Replies *)
Record ServerError := mkServerError { Status : Z; Code : Z; Message : string }.
Definition New (status code : Z) (message : string) : ServerError := mkServerError status code message.
Definition NewBadRequest (msg : string) : ServerError := New 400 400 msg.
Definition NewInternal (msg : string) : ServerError := New 500 500 msg.

Inductive handler_error := ServerErr (e : ServerError) | PlainErr (text : string).

(** [result.Result] without its timestamp. *)
Record Result (T : Type) := mkResult { r_Code : Z; r_Message : string; r_Data : option T }.
Arguments mkResult {T} _ _ _.
Arguments r_Code {T} _.
Arguments r_Message {T} _.
Arguments r_Data {T} _.
Definition Success {T} : Result T := mkResult 200 "ok" None.
Definition SuccessData {T} (data : T) : Result T := mkResult 200 "ok" (Some data).
Definition result_Err {T} (code : Z) (message : string) : Result T := mkResult code message None.
Definition ErrInternal {T} (message : string) : Result T := mkResult 500 message None.

(** [httpx.JSON]: the status and the encoded value. *)
Record reply (T : Type) := mkReply { status : Z; value : Result T }.
Arguments mkReply {T} _ _.
Arguments status {T} _.
Arguments value {T} _.

Definition Wrap {T} (r : result handler_error (reply T)) : reply T :=
  match r with
  | Ok w => w
  | Err (ServerErr e) => mkReply (Status e) (result_Err (Code e) (Message e))
  | Err (PlainErr text) => mkReply 500 (ErrInternal text)
  end.

(** ** session.go *)
Record HealthResponse := mkHealth { ActiveTime : Z; State : string; h_CreatedAt : Z }.

(** What the session handlers reply with. *)
Inductive session_data := NoData | SessionID (id : string) | Health (h : HealthResponse).

Definition state_name (st : WorkflowState) : string :=
  match st with
  | WorkflowStatePending => "pending"
  | WorkflowStateStarting => "starting"
  | WorkflowStateRunning => "running"
  | WorkflowStatePaused => "paused"
  | WorkflowStateStopped => "stopped"
  end.

Section session_handlers.
(** [protocol.ParseSessionKey]; the key's canonical text stands for it. *)
Context (ParseSessionKey : string → option string).

Definition invalid_id : handler_error := ServerErr (New 400 400 "invalid session id").
Definition not_found : handler_error := ServerErr (New 404 404 "Session not found").

Definition WorkflowSessionHealth (now : Z) (id : string) (sm : SessionManager)
    : result handler_error (reply session_data) * SessionManager :=
  match ParseSessionKey id with
  | None => (Err invalid_id, sm)
  | Some key =>
      match LoadSession now key sm with
      | (None, sm) => (Err not_found, sm)
      | (Some sid, sm) =>
          match s ← sess_heap sm !! sid; w ← wf_heap sm !! SWorkflow s; Some (s, w) with
          | None => (Err not_found, sm)
          | Some (s, w) =>
              (Ok (mkReply 200 (SuccessData (Health (mkHealth (LastActive s) (state_name (w_st w)) (CreatedAt s))))), sm)
          end
      end
  end.

Definition RenewWorkflowSession (now : Z) (id : string) (sm : SessionManager)
    : result handler_error (reply session_data) * SessionManager :=
  match ParseSessionKey id with
  | None => (Err invalid_id, sm)
  | Some key =>
      match LoadSession now key sm with
      | (None, sm) => (Err not_found, sm)
      | (Some sid, sm) =>
          let sm := match sess_heap sm !! sid with
                    | Some s => set_session sid (UpdateActivity now s) sm | None => sm end in
          (Ok (mkReply 200 Success), sm)
      end
  end.

Definition DeleteWorkflowSession (now : Z) (id : string) (sm : SessionManager)
    : result handler_error (reply session_data) * SessionManager :=
  match ParseSessionKey id with
  | None => (Err invalid_id, sm)
  | Some key =>
      match LoadSession now key sm with
      | (None, sm) => (Err not_found, sm)
      | (Some _, sm) => (Ok (mkReply 200 Success), RemoveSession key sm)
      end
  end.

Section create.
Context {P : Type} `{PluginHooks P} {M : Type} `{WorkflowConfigManager M}.
Context (o : iter_order string nat) (o1 o2 : iter_order string Z).
Context (reg : option (registry P)) (merge : string → string → result string string).
Context (error_text : session_error → string).

Record CreateSessionRequest := mkCreate { c_Name : string; c_Properties : gmap string string }.

(** The body is the outcome of [BindJSON]; [key] the fresh session key. *)
Definition CreateWorkflowSession (m : M) (now : Z) (key : string)
    (body : result string CreateSessionRequest) (sm : SessionManager)
    : result handler_error (reply session_data) * SessionManager :=
  match body with
  | Err text => (Err (PlainErr text), sm)
  | Ok payload =>
      match CreateSession o o1 o2 reg merge m now key (c_Name payload) (c_Properties payload) sm with
      | (Err e, sm) => (Err (PlainErr (error_text e)), sm)
      | (Ok _, sm) => (Ok (mkReply 200 (SuccessData (SessionID key))), sm)
      end
  end.
End create.

(** *** Facts about requests *)
Lemma LoadSession_known now key sm sid :
  sm_inv sm → sessions sm !! key = Some sid →
  ∃ s, sess_heap sm !! sid = Some s ∧ Key s = key ∧
    LoadSession now key sm = (Some sid, set_session sid (UpdateActivity now s) sm).
Proof.
  intros Hi Hk. destruct (smi_map _ Hi _ _ Hk) as (s & Hs & Hkey). exists s. split; [done|]. split; [done|].
  unfold LoadSession. by rewrite Hk, Hs.
Qed.

(** The status of the three requests. *)
Definition request_status (id : string) (sm : SessionManager) : Z :=
  match ParseSessionKey id with
  | None => 400
  | Some key => match sessions sm !! key with None => 404 | Some _ => 200 end
  end.

Lemma session_request_status now id sm :
  sm_inv sm →
  status (Wrap (WorkflowSessionHealth now id sm).1) = request_status id sm ∧
  status (Wrap (RenewWorkflowSession now id sm).1) = request_status id sm ∧
  status (Wrap (DeleteWorkflowSession now id sm).1) = request_status id sm.
Proof.
  intros Hi. unfold request_status, WorkflowSessionHealth, RenewWorkflowSession, DeleteWorkflowSession.
  destruct (ParseSessionKey id) as [key|]; [|done].
  destruct (sessions sm !! key) as [sid|] eqn:Hk.
  2:{ assert (LoadSession now key sm = (None, sm)) as -> by (unfold LoadSession; by rewrite Hk). done. }
  destruct (LoadSession_known now key sm sid Hi Hk) as (s & Hs & _ & ->).
  destruct (smi_heap _ Hi _ _ Hs) as (Hw & _ & w & Hww & _).
  split; [|done]. cbn. rewrite lookup_insert_eq. cbn. by rewrite Hw, Hww.
Qed.

(** A renewed session is not idle until the timeout has passed again. *)
Lemma renewed_not_idle now now' id key sid sm :
  sm_inv sm → ParseSessionKey id = Some key → sessions sm !! key = Some sid →
  (now' - now < timeout sm)%Z →
  let sm' := (RenewWorkflowSession now id sm).2 in
  sessions sm' = sessions sm ∧ wf_heap sm' = wf_heap sm ∧ idle now' sm' sid = false ∧ sm_inv sm'.
Proof.
  intros Hi Hp Hk Ht. unfold RenewWorkflowSession. rewrite Hp.
  destruct (LoadSession_known now key sm sid Hi Hk) as (s & Hs & Hkey & ->). cbn.
  rewrite lookup_insert_eq. split; [done|]. split; [done|].
  assert (sm_inv (set_session sid (UpdateActivity now s) sm)) as Hi1 by by eapply inv_set_session.
  split.
  - unfold idle. cbn. rewrite lookup_insert_eq. cbn. by rewrite bool_decide_eq_true_2.
  - eapply (inv_set_session _ sid (UpdateActivity now s)); [done|cbn; by rewrite lookup_insert_eq|done..].
Qed.

Lemma deleted_session now id key sid sm :
  sm_inv sm → ParseSessionKey id = Some key → sessions sm !! key = Some sid →
  let sm' := (DeleteWorkflowSession now id sm).2 in
  sessions sm' !! key = None ∧ wf_heap sm' !! sid = Some (mkWfRec WorkflowStateStopped true).
Proof.
  intros Hi Hp Hk. unfold DeleteWorkflowSession. rewrite Hp.
  destruct (LoadSession_known now key sm sid Hi Hk) as (s & Hs & _ & ->). cbn. unfold RemoveSession. cbn.
  rewrite Hk. unfold discard. cbn. rewrite lookup_insert_eq. cbn. split; [by rewrite lookup_delete_eq|].
  unfold stop_workflow. cbn.
  destruct (smi_heap _ Hi _ _ Hs) as (Hw & _ & w & Hww & Hc & _). rewrite Hw, lookup_alter_eq, Hww. cbn.
  f_equal. unfold Workflow_Stop. case_decide as Hst; [|done].
  destruct w; cbn in *. rewrite Hst, Hc by done. done.
Qed.
End session_handlers.

(** ** Properties of sessions over HTTP *)
Section theorems.
Context {P : Type} `{PluginHooks P} {M : Type} `{WorkflowConfigManager M}.
Context (o : iter_order string nat) (o1 o2 : iter_order string Z).
Context (reg : option (registry P)) (merge : string → string → result string string).
Context (ParseSessionKey : string → option string).

(** C37: Requests about a session mean what they say.  In every reachable state of
    the manager a request is answered 400 for a malformed id, 404 for an
    unknown one and 200 otherwise; a renewed session survives every cleanup
    within the timeout, with its workflow as it was; a deleted one is gone at
    once, its workflow stopped and its context cancelled. *)
Theorem session_requests timeout0 sm now now' id key sid so :
  rtc (sm_step o o1 o2 reg merge) (NewSessionManager timeout0) sm →
  ParseSessionKey id = Some key → sessions sm !! key = Some sid → (now' - now < timeout sm)%Z →
  let renewed := (RenewWorkflowSession ParseSessionKey now id sm).2 in
  let deleted := (DeleteWorkflowSession ParseSessionKey now id sm).2 in
  request_status ParseSessionKey id sm = 200%Z ∧
  (∀ id', status (Wrap (RenewWorkflowSession ParseSessionKey now id' sm).1) = request_status ParseSessionKey id' sm ∧
     status (Wrap (DeleteWorkflowSession ParseSessionKey now id' sm).1) = request_status ParseSessionKey id' sm ∧
     status (Wrap (WorkflowSessionHealth ParseSessionKey now id' sm).1) = request_status ParseSessionKey id' sm) ∧
  sessions (Cleanup so now' renewed) !! key = Some sid ∧
  wf_heap (Cleanup so now' renewed) !! sid = wf_heap sm !! sid ∧
  request_status ParseSessionKey id deleted = 404%Z ∧
  wf_heap deleted !! sid = Some (mkWfRec WorkflowStateStopped true).
Proof.
  intros Hr Hp Hk Ht renewed deleted. pose proof (sm_reachable_inv o o1 o2 reg merge _ _ Hr) as Hi.
  split; [unfold request_status; by rewrite Hp, Hk|].
  split; [intros id'; destruct (session_request_status ParseSessionKey now id' sm Hi) as (? & ? & ?); done|].
  destruct (renewed_not_idle ParseSessionKey now now' id key sid sm Hi Hp Hk Ht) as (E1 & E2 & Hidle & Hi1).
  fold renewed in E1, E2, Hidle, Hi1.
  pose proof (deleted_session ParseSessionKey now id key sid sm Hi Hp Hk) as Hdel.
  destruct (Cleanup_expired merge so now' renewed) as [Hnd Hin].
  unfold Cleanup. set (expired := filter _ (range_map so (sessions renewed))) in *.
  destruct (discard_all (unmap expired.*1 renewed) expired.*2) as (D1 & _ & _ & _ & D5 & _).
  { intros x ([k x'] & -> & [Hk' _]%Hin)%list_elem_of_fmap. cbn.
    destruct (smi_map _ Hi1 _ _ Hk') as (s & Hs & _). exists s. split; [done|]. by apply (smi_heap _ Hi1). }
  assert (∀ k, (k, sid) ∉ expired) as Hne by (intros k [_ Hid]%Hin; congruence).
  rewrite D1, D5. cbn. split_and!.
  - apply lookup_foldr_delete_Some. rewrite E1. split; [|done].
    intros ([k x] & -> & Hkv)%list_elem_of_fmap. pose proof (proj1 (Hin k x) Hkv) as [Hkx _].
    cbn in Hk. rewrite E1, Hk in Hkx. injection Hkx as ->. by apply (Hne k).
  - rewrite lookup_stop_all, E2. rewrite decide_False; [done|].
    intros ([k x] & -> & Hkv)%list_elem_of_fmap. by apply (Hne k).
  - unfold request_status. rewrite Hp. unfold deleted. by rewrite (proj1 Hdel).
  - apply Hdel.
Qed.
End theorems.

(** ** workflow.go *)

(** The order of [ListWorkflows]: by name, then by ID. *)
Definition workflow_le (a b : WorkflowConfig) : Prop :=
  if decide (WName a = WName b) then String.le (WID a) (WID b) else String.le (WName a) (WName b).
#[export] Instance workflow_le_dec : RelDecision workflow_le.
Proof. intros a b. unfold workflow_le. case_decide; apply _. Defined.
#[export] Instance workflow_le_total : Total workflow_le.
Proof.
  intros a b. unfold workflow_le.
  destruct (decide (WName a = WName b)) as [E|E], (decide (WName b = WName a)) as [E'|E']; [|congruence..|];
    apply (total String.le).
Qed.
#[export] Instance workflow_le_trans : Transitive workflow_le.
Proof.
  intros a b c. unfold workflow_le.
  destruct (decide (WName a = WName b)) as [E1|E1], (decide (WName b = WName c)) as [E2|E2],
    (decide (WName a = WName c)) as [E3|E3]; try congruence.
  - apply (transitivity (R := String.le)).
  - intros H1 H2. exfalso. apply E1. apply (anti_symm String.le); [done|]. by rewrite E3.
  - apply (transitivity (R := String.le)).
Qed.

Section workflow_handlers.
Context {M : Type} `{WorkflowConfigManager M}.
Context (error_text : config_error → string).

(** [wm.List] is an argument: the documents in the order of the store. *)
Definition ListWorkflows (listed : list WorkflowConfig) : result handler_error (reply (list WorkflowConfig)) :=
  Ok (mkReply 200 (SuccessData (merge_sort workflow_le listed))).

Definition GetWorkflow (m : M) (id : string) : result handler_error (reply WorkflowConfig) :=
  match cm_Get m id with
  | Err e => Err (PlainErr (error_text e))
  | Ok cfg => Ok (mkReply 200 (SuccessData cfg))
  end.

(** [uuid] is the ID [Save] gives to a document without one. *)
Definition SaveWorkflow (m : M) (uuid : string) (body : result string WorkflowConfig)
    : result handler_error (reply WorkflowConfig) * M :=
  match body with
  | Err text => (Err (PlainErr text), m)
  | Ok cfg =>
      match cm_Save m uuid cfg with
      | Err e => (Err (PlainErr (error_text e)), m)
      | Ok m' => (Ok (mkReply 200 (SuccessData cfg)), m')
      end
  end.

Definition DeleteWorkflow (m : M) (id : string) : result handler_error (reply WorkflowConfig) * M :=
  (Ok (mkReply 200 Success), cm_Delete m id).
End workflow_handlers.

(** The list does not depend on the order in which the store hands out its
    documents. *)
Lemma workflow_le_antisym a b l :
  NoDup (WID <$> l) → a ∈ l → b ∈ l → workflow_le a b → workflow_le b a → a = b.
Proof.
  intros Hnd Ha Hb Hab Hba.
  assert (WID a = WID b) as Hid.
  { unfold workflow_le in *. destruct (decide (WName a = WName b)) as [E|E].
    - rewrite decide_True in Hba by done. by apply (anti_symm String.le).
    - rewrite decide_False in Hba by congruence. destruct E. by apply (anti_symm String.le). }
  apply list_elem_of_lookup in Ha as [i Hi], Hb as [j Hj].
  assert (i = j); [|by simplify_eq]. apply (NoDup_lookup _ i j (WID a) Hnd); rewrite list_lookup_fmap.
  - by rewrite Hi.
  - by rewrite Hj, Hid.
Qed.

Lemma sorted_workflows_unique l1 l2 :
  NoDup (WID <$> l1) → l1 ≡ₚ l2 → StronglySorted workflow_le l1 → StronglySorted workflow_le l2 → l1 = l2.
Proof.
  intros Hnd Hp Hs1. revert l2 Hnd Hp. induction Hs1 as [|a l1 Hs1 IH Hall1]; intros l2 Hnd Hp Hs2.
  { by apply Permutation_nil in Hp as ->. }
  destruct Hs2 as [|b l2 Hs2 Hall2]; [by apply Permutation_sym, Permutation_nil in Hp|].
  rewrite Forall_forall in Hall1, Hall2.
  assert (a = b) as ->.
  { assert (b ∈ a :: l1) as Hb by (rewrite Hp; set_solver). assert (a ∈ b :: l2) as Ha by (rewrite <-Hp; set_solver).
    apply elem_of_cons in Ha as [?|Ha], Hb as [?|Hb]; [done..|].
    apply (workflow_le_antisym a b (a :: l1)); [done|set_solver|set_solver|by apply Hall1|by apply Hall2]. }
  f_equal. apply IH; [|by apply Permutation_cons_inv in Hp|done].
  rewrite fmap_cons in Hnd. by apply NoDup_cons in Hnd as [_ ?].
Qed.

Lemma list_order_irrelevant l1 l2 :
  NoDup (WID <$> l1) → l1 ≡ₚ l2 → ListWorkflows l1 = ListWorkflows l2.
Proof.
  intros Hnd Hp. unfold ListWorkflows.
  enough (merge_sort workflow_le l1 = merge_sort workflow_le l2) as -> by done.
  apply sorted_workflows_unique.
  - by rewrite (merge_sort_Permutation workflow_le l1).
  - by rewrite !(merge_sort_Permutation workflow_le).
  - apply StronglySorted_merge_sort; apply _.
  - apply StronglySorted_merge_sort; apply _.
Qed.

(** ** Examples *)
Definition sample_text (e : session_error) : string := "failed".
Definition sample_key (id : string) : option string := if decide (id = "bad") then None else Some id.

Lemma session_requests_witness :
  sessions (Cleanup default_order 1700000400000 (RenewWorkflowSession sample_key 1700000390000 "s1" sample_sm).2) !! "s1"
    = sessions sample_sm !! "s1" ∧
  request_status sample_key "s1" (DeleteWorkflowSession sample_key 1700000390000 "s1" sample_sm).2 = 404%Z.
Proof.
  destruct (sessions sample_sm !! "s1") as [sid|] eqn:Hk; [|vm_compute in Hk; discriminate Hk].
  destruct (session_requests (H0 := sample_FM) default_order default_order default_order (Some sample_registry)
    (λ _ ov, Ok ov) sample_key 60000 sample_sm 1700000390000 1700000400000 "s1" "s1" sid default_order
    sample_sm_reachable) as (_ & _ & H1 & _ & H2 & _).
  - reflexivity.
  - exact Hk.
  - vm_compute. reflexivity.
  - split; [exact H1|exact H2].
Defined.

(** Asking for the health of a session renews it. *)
Lemma health_check_renews :
  sessions (Cleanup default_order 1700000390000 sample_sm) !! "s1" = None ∧
  is_Some (sessions (Cleanup default_order 1700000390000
    (WorkflowSessionHealth sample_key 1700000389000 "s1" sample_sm).2) !! "s1").
Proof. vm_compute. split; [reflexivity|by eexists]. Qed.

(** A document saved without an ID is stored under a fresh one, which the
    reply does not tell: it repeats the request. *)
Definition doc_text (e : config_error) : string :=
  match e with WorkflowNotFound => "workflow not found" | _ => "failed" end.

Lemma saved_id_is_not_told :
  let r := SaveWorkflow (H := sample_FM) doc_text empty_dir "u-1" (Ok (set_id "" sample_doc)) in
  (∃ w, r.1 = Ok w ∧ status w = 200%Z ∧ WID <$> r_Data (value w) = Some "") ∧
  is_ok (GetWorkflow (H := sample_FM) doc_text r.2 "u-1") = true ∧
  is_ok (GetWorkflow (H := sample_FM) doc_text r.2 "") = false.
Proof. vm_compute. split; [by eexists|done]. Qed.

(** The client's mistakes are reported as the server's: an unknown document
    and a malformed body are answered 500. *)
Lemma client_errors_are_internal :
  status (Wrap (GetWorkflow (H := sample_FM) doc_text empty_dir "u-9")) = 500%Z ∧
  status (Wrap (SaveWorkflow (H := sample_FM) doc_text empty_dir "u-1" (Err "unexpected end of JSON")).1) = 500%Z.
Proof. vm_compute. done. Qed.
