(* ===== verification/SessionWriter.v ===== *)
(** * The write loop of a worker session: biz/handler/session.go

    On a worker machine the packets of a session's workflow leave through the
    connection pool ([MachinePool]).  [sessionWriteLoop] keeps the connection
    it used last and selects another one when that is no longer active.  The
    workflow fills the output and the pool changes under the loop at any time,
    also between the check of a connection, the selection of another one and
    the write, which are steps of their own. *)

From S2P Require Import Prelude.
From S2P Require Import Protocol.
From S2P Require Import Heap.
From S2P Require Import IndexedHeap.
From S2P Require Import GatewayConn.
From S2P Require Import MachinePool.

Section writer.
Context {Key : Type} `{Countable Key} {Packet_ : Type}.
Implicit Types (key : Key) (m : ConnectionManager (Key := Key)).

(** What becomes of a packet. *)
Inductive fate := Written (c : nat) | WriteFailed (c : nat) | NoConnection.

(** Operations of the pool by others. *)
Inductive pool_op :=
| OpStore (c : nat) | OpRemove (c : nat) | OpSelect (k : Key) | OpLookup (k : Key) | OpRelease (k : Key)
| OpState (c : nat) (st : ConnectionState).

Definition apply_op (op : pool_op) (m : ConnectionManager (Key := Key)) : ConnectionManager (Key := Key) :=
  match op with
  | OpStore c => Store c m
  | OpRemove c => Remove c m
  | OpSelect k => (Select k m).1
  | OpLookup k => (Lookup k m).1
  | OpRelease k => Release k m
  | OpState c st => set_state c st m
  end.

(** Where the loop is: at its select, with a packet before and after the check
    of its connection, with the connection it will use (and the pool it found
    it in), or at its end. *)
Inductive phase :=
| Idle
| Held (p : Packet_)
| Selecting (p : Packet_)
| Chosen (p : Packet_) (conn : option nat) (found : ConnectionManager (Key := Key))
| Ended.

(** A handled packet, with the pool its connection was chosen in and the one
    at the time of the write. *)
Record entry := mkEntry {
  e_packet : Packet_; e_found : ConnectionManager (Key := Key); e_write : ConnectionManager (Key := Key);
  e_fate : fate }.

(** [output] is the channel of the workflow; [wire] what was written, on which
    connection; [released] the packets given back to their pool. *)
Record writer := mkWriter {
  pool : ConnectionManager (Key := Key); output : list Packet_; closed : bool;
  cached : option nat; at_ : phase;
  wire : list (nat * Packet_); released : list Packet_; log : list entry }.

Inductive label :=
| WPool (op : pool_op) | WArrive (p : Packet_) | WClose
| WTake | WCheck | WSelect | WWrite (ok : bool) | WEnd (cancelled : bool).

Definition with_loop (w : writer) m o conn ph : writer :=
  mkWriter m o (closed w) conn ph (wire w) (released w) (log w).

(** [if conn == nil || conn.State() != ConnectionActive]. *)
Definition check_conn (p : Packet_) (conn : option nat) m : phase :=
  match conn with
  | Some c => if decide (State m c = ConnectionActive) then Chosen p (Some c) m else Selecting p
  | None => Selecting p
  end.

(** [conn.Write] looks at the state of the connection once more; [ok] says
    whether the socket takes the frame. *)
Definition write_conn (conn : option nat) (ok : bool) m : fate :=
  match conn with
  | None => NoConnection
  | Some c => if decide (State m c ≠ ConnectionActive) then WriteFailed c
              else if ok then Written c else WriteFailed c
  end.

(** The loop ends with its context or with the closed output; the channel is
    written and closed by the workflow. *)
Definition sessionWriteLoop (key : Key) (w : writer) (l : label) : option writer :=
  match l, at_ w with
  | WPool op, ph => Some (with_loop w (apply_op op (pool w)) (output w) (cached w) ph)
  | WArrive p, ph => if closed w then None else Some (with_loop w (pool w) (output w ++ [p]) (cached w) ph)
  | WClose, ph =>
      if closed w then None
      else Some (mkWriter (pool w) (output w) true (cached w) ph (wire w) (released w) (log w))
  | WTake, Idle =>
      match output w with
      | [] => None
      | p :: rest => Some (with_loop w (pool w) rest (cached w) (Held p))
      end
  | WCheck, Held p => Some (with_loop w (pool w) (output w) (cached w) (check_conn p (cached w) (pool w)))
  | WSelect, Selecting p =>
      let '(m, conn) := Select key (pool w) in
      Some (with_loop w m (output w) conn (Chosen p conn (pool w)))
  | WWrite ok, Chosen p conn found =>
      let f := write_conn conn ok (pool w) in
      Some (mkWriter (pool w) (output w) (closed w) (cached w) Idle
              (wire w ++ match f with Written c => [(c, p)] | _ => [] end)
              (released w ++ [p]) (log w ++ [mkEntry p found (pool w) f]))
  | WEnd cancelled, Idle =>
      if cancelled || (closed w && bool_decide (output w = []))
      then Some (with_loop w (pool w) (output w) (cached w) Ended) else None
  | _, _ => None
  end.

Fixpoint writer_run (key : Key) (w : writer) (ls : list label) : option writer :=
  match ls with [] => Some w | l :: ls => w ← sessionWriteLoop key w l; writer_run key w ls end.

Definition start_with m : writer := mkWriter m [] false None Idle [] [] [].
Definition writer0 : writer := start_with NewConnectionManager.

(** The packets the workflow sent in a run, and the one in hand. *)
Definition arrived (ls : list label) : list Packet_ :=
  omap (λ l, match l with WArrive p => Some p | _ => None end) ls.
Definition in_hand (ph : phase) : list Packet_ :=
  match ph with Held p | Selecting p | Chosen p _ _ => [p] | Idle | Ended => [] end.

(** A connection is chosen only if it is active, and none only if no
    connection of the pool is. *)
Definition well_chosen m (conn : option nat) : Prop :=
  match conn with
  | Some c => State m c = ConnectionActive
  | None => ∀ c, c ∈ connections m → State m c ≠ ConnectionActive
  end.

(** A written packet left on a connection that was active; a failed write was
    on a connection that had been chosen as active; a packet was given up
    without a write only when no connection of the pool was active. *)
Definition fair (e : entry) : Prop :=
  match e_fate e with
  | Written c => State (e_found e) c = ConnectionActive ∧ State (e_write e) c = ConnectionActive
  | WriteFailed c => State (e_found e) c = ConnectionActive
  | NoConnection => ∀ c, c ∈ connections (e_found e) → State (e_found e) c ≠ ConnectionActive
  end.

Lemma apply_op_ok op m : pool_ok m → pool_ok (apply_op op m).
Proof.
  destruct op; simpl; eauto using Store_ok, Remove_ok, Select_ok, Lookup_ok, mp_Release_ok, set_state_ok.
Qed.

(** [Select] as the loop uses it. *)
Lemma Select_fair key m :
  pool_ok m →
  match (Select key m).2 with
  | Some c => State m c = ConnectionActive
  | None => ∀ c, c ∈ connections m → State m c ≠ ConnectionActive
  end.
Proof.
  intros Hok. destruct (Select_spec key m Hok) as [(c & _ & Ha & E)|(_ & _ & _ & _ & Hsel)].
  - by rewrite E.
  - destruct (Select key m).2 as [c|]; [by destruct Hsel as (_ & ? & _)|by destruct Hsel as [? _]].
Qed.

Record writer_ok (sent_ : list Packet_) (w : writer) : Prop := {
  wo_pool : pool_ok (pool w);
  wo_chosen : ∀ p conn found, at_ w = Chosen p conn found → well_chosen found conn;
  wo_all : sent_ = (e_packet <$> log w) ++ in_hand (at_ w) ++ output w;
  wo_released : released w = e_packet <$> log w;
  wo_wire : wire w = omap (λ e, match e_fate e with Written c => Some (c, e_packet e) | _ => None end) (log w);
  wo_fair : Forall fair (log w);
}.

Lemma check_well_chosen q conn m p conn' found :
  check_conn q conn m = Chosen p conn' found → well_chosen found conn'.
Proof. unfold check_conn. destruct conn; [|done]. case_decide; intros [= <- <- <-]; done. Qed.

Lemma check_in_hand p conn m : in_hand (check_conn p conn m) = [p].
Proof. unfold check_conn. destruct conn; [|done]. by case_decide. Qed.

Lemma write_fair p conn found ok m :
  well_chosen found conn → fair (mkEntry p found m (write_conn conn ok m)).
Proof.
  unfold write_conn, fair. destruct conn as [c|]; simpl; [|done]. intros Hc.
  case_decide as Hs; simpl; [done|]. by destruct ok.
Qed.

Lemma writer_step_ok key sent_ w l w' :
  writer_ok sent_ w → sessionWriteLoop key w l = Some w' →
  writer_ok (sent_ ++ match l with WArrive p => [p] | _ => [] end) w'.
Proof.
  intros [H1 H2 H3 H4 H5 H6] Hs. unfold sessionWriteLoop in Hs.
  destruct l as [op|p| | | | |ok|cancelled]; rewrite ?app_nil_r.
  - injection Hs as <-. split; try done. by apply apply_op_ok.
  - destruct (closed w); [done|]. injection Hs as <-. split; try done.
    simpl. by rewrite H3, <-!app_assoc.
  - destruct (closed w); [done|]. injection Hs as <-. by split.
  - destruct (at_ w) eqn:Ha; try done. destruct (output w) as [|p rest] eqn:Ho; [done|]. injection Hs as <-.
    by split.
  - destruct (at_ w) eqn:Ha; try done. injection Hs as <-. split; try done; simpl.
    + intros q conn found. apply check_well_chosen.
    + by rewrite check_in_hand, H3.
  - destruct (at_ w) eqn:Ha; try done. pose proof (Select_fair key (pool w) H1) as Hf.
    pose proof (Select_ok key (pool w) H1) as Hok. destruct (Select key (pool w)) as [m conn]. injection Hs as <-.
    split; try done. simpl. intros q conn' found [= <- <- <-]. done.
  - destruct (at_ w) as [|?|?|p conn found|] eqn:Ha; try done. injection Hs as <-. split; try done; simpl.
    + rewrite H3, fmap_app. by rewrite <-!app_assoc.
    + by rewrite H4, fmap_app.
    + rewrite H5, omap_app. simpl. by destruct (write_conn conn ok (pool w)).
    + apply Forall_app. split; [done|]. constructor; [|done]. by apply write_fair, (H2 p).
  - destruct (at_ w) eqn:Ha; try done. destruct (_ || _); [|done]. injection Hs as <-. by split.
Qed.

Lemma writer_run_ok key sent_ w ls w' :
  writer_ok sent_ w → writer_run key w ls = Some w' → writer_ok (sent_ ++ arrived ls) w'.
Proof.
  revert sent_ w. induction ls as [|l ls IH]; intros sent_ w Hok Hr; simpl in Hr.
  { simplify_eq. by rewrite app_nil_r. }
  apply bind_Some in Hr as (w1 & Hs & Hr).
  specialize (IH _ _ (writer_step_ok _ _ _ _ _ Hok Hs) Hr). rewrite <-app_assoc in IH.
  unfold arrived in *. by destruct l.
Qed.

Lemma writer0_ok : writer_ok [] writer0.
Proof. by split; [apply new_ok|..]. Qed.

Lemma wire_sublist (es : list entry) :
  (omap (λ e, match e_fate e with Written c => Some (c, e_packet e) | _ => None end) es).*2
    `sublist_of` (e_packet <$> es).
Proof.
  induction es as [|e es IH]; [done|]. simpl.
  destruct (e_fate e); [by apply sublist_skip|by apply sublist_cons..].
Qed.

(** C22: The packets of a session leave in order, each at most once, while a
    connection is active.  In every interleaving of the loop with the
    workflow and the pool: the packets the workflow sent are those handled,
    the one in hand and those still in the output, in this order; what was
    written are handled packets, in order; every handled packet is given back
    once; it was written on a connection that was active when it was chosen
    and when it was written, or it was lost, either by a write that failed on
    a connection chosen as active, or without a write, and then no
    connection of the pool was active when one was looked for. *)
Theorem session_packets_leave key ls w :
  writer_run key writer0 ls = Some w →
  arrived ls = (e_packet <$> log w) ++ in_hand (at_ w) ++ output w ∧
  released w = e_packet <$> log w ∧
  (∀ c p, (c, p) ∈ wire w ↔ ∃ e, e ∈ log w ∧ e_packet e = p ∧ e_fate e = Written c) ∧
  (wire w).*2 `sublist_of` arrived ls ∧
  Forall fair (log w).
Proof.
  intros [H1 H2 H3 H4 H5 H6]%(writer_run_ok _ [] _ _ _ writer0_ok). simpl in H3.
  split_and!; [done|done| |rewrite H3, H5; apply sublist_inserts_r, wire_sublist|done].
  intros c p. rewrite H5, list_elem_of_omap. split.
  - intros (e & He & Hf). exists e. destruct (e_fate e); naive_solver.
  - intros (e & He & <- & Hf). exists e. by rewrite Hf.
Qed.
End writer.

(** ** Examples *)
Local Open Scope nat_scope.

(** A packet before any connection; one written; one whose connection closes
    between the choice and the write; one that moves to another connection. *)
Definition demo_writes : list (label (Key := nat) (Packet_ := nat)) :=
  [WArrive 10; WArrive 11; WTake; WCheck; WSelect; WWrite true;
   WPool (OpState 1 ConnectionActive); WPool (OpStore 1); WTake; WCheck; WSelect; WWrite true;
   WArrive 12; WArrive 13; WTake; WCheck; WPool (OpState 1 ConnectionClosed); WWrite true;
   WPool (OpState 2 ConnectionActive); WPool (OpStore 2); WTake; WCheck; WSelect; WWrite true;
   WClose; WEnd false].

Lemma session_packets_leave_witness :
  ∃ w, writer_run 5 writer0 demo_writes = Some w ∧
    [10; 11; 12; 13] = (e_packet <$> log w) ++ in_hand (at_ w) ++ output w ∧
    e_fate <$> log w = [NoConnection; Written 1; WriteFailed 1; Written 2] ∧
    wire w = [(1, 11); (2, 13)].
Proof.
  destruct (writer_run 5 writer0 demo_writes) as [w|] eqn:Hr; [|vm_compute in Hr; discriminate Hr].
  exists w. split; [reflexivity|]. split.
  - exact (proj1 (session_packets_leave 5 demo_writes w Hr)).
  - assert ((λ w, (e_fate <$> log w, wire w)) <$> writer_run 5 writer0 demo_writes =
      Some ([NoConnection; Written 1; WriteFailed 1; Written 2], [(1, 11); (2, 13)])) as Hl
      by (vm_compute; reflexivity).
    rewrite Hr in Hl. injection Hl as -> ->. split; reflexivity.
Defined.

(** A write that fails loses its packet although another connection of the
    pool is active: the packet is neither kept nor written again. *)
Lemma failed_write_loses_packet :
  ∃ w, writer_run 5 writer0 [WPool (OpState 1 ConnectionActive); WPool (OpStore 1);
      WPool (OpState 2 ConnectionActive); WPool (OpStore 2); WArrive 10; WTake; WCheck; WSelect; WWrite false]
      = Some w ∧
    wire w = [] ∧ released w = [10] ∧ State (pool w) 2 = ConnectionActive.
Proof. eexists. split; [vm_compute; reflexivity|]. vm_compute. split_and!; reflexivity. Qed.

(** A packet that is still in the output when its session is deleted brings
    the session's route back: the deletion tells the gateway and releases the
    route before the workflow is stopped, the loop selects again, and nobody
    releases the route it made. *)
Lemma late_packet_leaks_route :
  let m := Store 1 (set_state 1 ConnectionActive NewConnectionManager) in
  let deleted := (onSessionDelete (λ _, true) 5 m).1 in
  routes deleted !! 5 = None ∧
  ∃ w, writer_run 5 (start_with deleted) [WArrive 10; WTake; WCheck; WSelect; WWrite true; WClose; WEnd false] = Some w ∧
    routes (pool w) !! 5 = Some 1 ∧ load (item (pool w) 1) = 1%Z.
Proof.
  cbv zeta. split; [vm_compute; reflexivity|].
  destruct (writer_run 5 (start_with _) [WArrive 10; WTake; WCheck; WSelect; WWrite true; WClose; WEnd false]) as [w|] eqn:Hr;
    [|vm_compute in Hr; discriminate Hr].
  exists w. split; [reflexivity|]. vm_compute in Hr. injection Hr as <-. vm_compute. split; reflexivity.
Qed.
