(* ===== verification/Builtins.v ===== *)
(** * The built-in plugins: the init functions of internal/plugins

    Every plugin package registers its builder when the program starts
    (imported by internal/plugins/init_gen.go) and panics if that fails.  The
    contracts they declare decide which nodes can be connected: the documents
    shipped in configs/workflows are checked against them. *)

From S2P Require Import Prelude.
From S2P Require Import GoStrings.
From S2P Require Import Property.
From S2P Require Import EngineTypes.
From S2P Require Import Graph.
From S2P Require Import Registry.
From S2P Require Import PluginFlow.
From S2P Require Import TenVad.

(** ** Contracts shared by several plugins *)

(** The results of a recogniser and the chunks of a language model. *)
Definition asr_fields (b : PropertyBuilder) : PropertyBuilder :=
  AddPayload (AddPayload b PayloadASRResult "text" TypeString true) PayloadASRResult "is_final" TypeBoolean true.
Definition chunk_fields (b : PropertyBuilder) : PropertyBuilder :=
  AddPayload (AddPayload b PayloadLLMChunk "sentence" TypeString true) PayloadLLMChunk "is_final" TypeBoolean true.

(** ** The metadata, in the order of the imports *)
Definition benchmark_forwarder : PluginMetadata :=
  mkMeta "benchmark_forwarder"
    "A pure pass-through extension for benchmarking that forwards everything directly." [] [] [].
Definition benchmark_recorder : PluginMetadata :=
  mkMeta "benchmark_recorder"
    "Simulates a file writing operation (I/O) to /dev/null before forwarding the audio data." [] [] [].
Definition caption : PluginMetadata :=
  mkMeta "caption" "" (Build (chunk_fields (asr_fields NewPropertyBuilder)))
    (Build (AddPayload NewPropertyBuilder PayloadCaption "caption" TypeObject true)) [].
Definition deepgram_asr : PluginMetadata :=
  mkMeta "deepgram_asr" "Deepgram real-time streaming ASR with server-side VAD" []
    (Build (asr_fields NewPropertyBuilder)) [].
Definition elevenlabs_tts : PluginMetadata :=
  mkMeta "elevenlabs_tts" "ElevenLabs StreamSpeech TTS with prosodic context (previous_text)"
    (Build (chunk_fields NewPropertyBuilder)) [] [].
Definition google_asr : PluginMetadata :=
  mkMeta "google_asr" "Google Cloud Speech to text, Chirp 3" [] (Build (asr_fields NewPropertyBuilder)) [].

Definition interrupter_fields (b : PropertyBuilder) : PropertyBuilder :=
  let b := AddPayload b PayloadASRResult "is_final" TypeBoolean true in
  let b := AddPayload b PayloadASRResult "text" TypeString true in
  AddPayload b PayloadASRResult "emotion" TypeString false.
Definition interrupter : PluginMetadata :=
  mkMeta "interrupter" "" (Build (interrupter_fields NewPropertyBuilder))
    (Build (interrupter_fields
      (AddSignalEvent (AddSignalEvent (AddSignalEvent NewPropertyBuilder SignalInterrupter)
         SignalUserSpeechStart) SignalUserSpeechEnd))) [].
Definition markdown_filter : PluginMetadata :=
  mkMeta "markdown_filter" "" (Build (chunk_fields NewPropertyBuilder)) (Build (chunk_fields NewPropertyBuilder)) [].
Definition minimax_tts : PluginMetadata :=
  mkMeta "minimax_tts" "" (Build (chunk_fields NewPropertyBuilder)) [] [].
Definition mllm : PluginMetadata :=
  mkMeta "mllm" "realtime large language model" []
    (Build (chunk_fields (AddPayload (asr_fields NewPropertyBuilder) PayloadASRResult "emotion" TypeString false))) [].
Definition openai_llm : PluginMetadata :=
  mkMeta "openai_llm" ""
    (Build (AddWildPayload (AddWildPayload NewPropertyBuilder "text" TypeString true) "is_final" TypeBoolean true))
    (Build (chunk_fields NewPropertyBuilder)) [].
Definition openai_tts : PluginMetadata :=
  mkMeta "openai_tts" "" (Build (chunk_fields NewPropertyBuilder)) [] [].
Definition qwen_asr : PluginMetadata :=
  mkMeta "qwen_asr" "Qwen realtime asr" []
    (Build (AddPayload (asr_fields NewPropertyBuilder) PayloadASRResult "emotion" TypeString false)) [].
Definition sink : PluginMetadata := mkMeta "sink" "" [] [] [].
Definition ten_vad : PluginMetadata :=
  mkMeta "ten_vad" "TEN native VAD for PCM16 16k mono audio with pre/post speech timing" []
    (Build (AddSignalEvent (AddSignalEvent NewPropertyBuilder SignalVadUserSpeechStart) SignalVadUserSpeechEnd)) [].

Definition builtin_plugins : list PluginMetadata :=
  [benchmark_forwarder; benchmark_recorder; caption; deepgram_asr; elevenlabs_tts; google_asr; interrupter;
   markdown_filter; minimax_tts; mllm; openai_llm; openai_tts; qwen_asr; sink; ten_vad].

(** [RegisterPlugin]: the factories are those of the plugins, any will do. *)
Definition RegisterPlugin (r : PluginResource unit) (m : PluginMetadata) : result plugin_error (PluginResource unit) :=
  RegisterBuilder r (Some (GenericBuilder m tt EmptyPluginConfig_Decode id)).

Definition register_all (r : PluginResource unit) (ms : list PluginMetadata)
    : result plugin_error (PluginResource unit) := range_fold RegisterPlugin r ms.

(** The initial resource of the process and the store over it. *)
Definition builtin_resource : PluginResource unit :=
  match register_all (NewPluginResource LocalNamespace) builtin_plugins with Ok r => r | Err _ => NewPluginResource "" end.
Definition builtin_registry : registry unit :=
  mkRegistry {[ 0 := builtin_resource ]} (mkStore {[ LocalNamespace := 0 ]}).

(** Registration of a list of fresh, distinct, named plugins without ports. *)
Lemma register_all_ok r ms :
  NoDup (MName <$> ms) → Forall (λ m, MName m ≠ "" ∧ Ports m = [] ∧ builders r !! MName m = None) ms →
  ∃ r', register_all r ms = Ok r' ∧ namespace r' = namespace r ∧
    (∀ m, m ∈ ms → LoadBuilder r' (MName m) = Some (GenericBuilder m tt EmptyPluginConfig_Decode id)) ∧
    (∀ k, k ∉ MName <$> ms → builders r' !! k = builders r !! k).
Proof.
  unfold register_all. revert r. induction ms as [|m ms IH]; intros r Hnd Hall; cbn [range_fold].
  { exists r. split; [done|]. split; [done|]. split; [set_solver|done]. }
  rewrite fmap_cons in Hnd. apply NoDup_cons in Hnd as [Hm Hnd]. apply Forall_cons in Hall as [(Hn & Hp & Hf) Hall].
  unfold RegisterPlugin at 1, RegisterBuilder, Builder_Name, Builder_Ports. cbn [meta GenericBuilder].
  rewrite decide_False, Hp, Hf by done. cbn [range_check rmap_err rbind].
  destruct (IH (mkResource (namespace r)
    (<[MName m := GenericBuilder m tt EmptyPluginConfig_Decode id]> (builders r)))) as (r' & E & Hns & Hin & Hout).
  { done. }
  { rewrite Forall_forall in Hall |- *. intros x Hx. destruct (Hall x Hx) as (? & ? & ?).
    split; [done|]. split; [done|]. cbn. rewrite lookup_insert_ne; [done|].
    intros Heq. apply Hm. rewrite Heq. by apply list_elem_of_fmap_2. }
  exists r'. split; [exact E|]. split; [done|]. split.
  - intros x [->|Hx]%elem_of_cons; [|by apply Hin]. unfold LoadBuilder. rewrite Hout by done. cbn. by rewrite lookup_insert_eq.
  - intros k Hk. rewrite fmap_cons, not_elem_of_cons in Hk. rewrite Hout by tauto. cbn.
    rewrite lookup_insert_ne; [done|]. intros Heq. destruct Hk as [Hk _]. by rewrite Heq in Hk.
Qed.

(** ** The documents of configs/workflows *)
Definition doc_node (id name plugin : string) : NodeConfig := mkNode id name "" plugin "" None.
Definition doc_edge (source target : string) (t : EventType) : EdgeConfig := mkEdge source 0 target t.

Definition benchmark_doc : WorkflowConfig :=
  mkWorkflow "a268a51b-be4d-4e86-92df-bf5a0dd2a205" "benchmark" "1.0.0" "node_9oxhphg"
    [doc_node "node_9oxhphg" "node1" "benchmark_forwarder"; doc_node "node_e5esewk" "node2" "benchmark_forwarder";
     doc_node "node_o0i8njv" "recorder" "benchmark_recorder"; doc_node "node_6j26ta4" "node3" "benchmark_forwarder";
     doc_node "node_3lj6arv" "sink" "sink"]
    [doc_edge "node_9oxhphg" "node_e5esewk" EventAudio; doc_edge "node_e5esewk" "node_6j26ta4" EventAudio;
     doc_edge "node_6j26ta4" "node_3lj6arv" EventAudio; doc_edge "node_9oxhphg" "node_o0i8njv" EventAudio] "" 0.

Definition realtime_voice_doc : WorkflowConfig :=
  mkWorkflow "dc2c03bd-24b1-4982-bf9d-5446be9b9a91" "realtime_voice" "1.0.0" "node_n1tnfl0"
    [doc_node "node_n1tnfl0" "asr" "qwen_asr"; doc_node "node_202gfaj" "interrupter" "interrupter";
     doc_node "node_4uvwkib" "llm" "openai_llm"; doc_node "node_fbehulj" "caption" "caption";
     doc_node "node_pmws0fh" "sink" "sink"; doc_node "node_jp463kn" "tts" "minimax_tts"]
    [doc_edge "node_n1tnfl0" "node_202gfaj" EventPayload; doc_edge "node_202gfaj" "node_jp463kn" EventSignal;
     doc_edge "node_202gfaj" "node_fbehulj" EventSignal; doc_edge "node_202gfaj" "node_4uvwkib" EventSignal;
     doc_edge "node_202gfaj" "node_pmws0fh" EventSignal; doc_edge "node_202gfaj" "node_4uvwkib" EventPayload;
     doc_edge "node_202gfaj" "node_fbehulj" EventPayload; doc_edge "node_4uvwkib" "node_fbehulj" EventPayload;
     doc_edge "node_4uvwkib" "node_pmws0fh" EventPayload; doc_edge "node_jp463kn" "node_pmws0fh" EventAudio;
     doc_edge "node_fbehulj" "node_pmws0fh" EventPayload; doc_edge "node_4uvwkib" "node_jp463kn" EventPayload] "" 0.

Definition accepted (doc : WorkflowConfig) : bool :=
  match ResolvePluginBuilders default_order (Some builtin_registry) (Nodes doc) with
  | Err _ => false
  | Ok bs => is_ok (BuildGraph default_order default_order doc bs)
  end.

(** The program starts and its documents can be run.  The registrations of the
    built-in plugins all succeed, so no init function panics, every plugin is
    found under its name with the metadata it declared, and both shipped
    workflows resolve and satisfy the contracts of all their edges. *)
Theorem builtins_start :
  (∃ r, register_all (NewPluginResource LocalNamespace) builtin_plugins = Ok r ∧ namespace r = LocalNamespace ∧
     ∀ m, m ∈ builtin_plugins → meta <$> LoadBuilder r (MName m) = Some m) ∧
  accepted benchmark_doc = true ∧ accepted realtime_voice_doc = true.
Proof.
  split; [|split; vm_compute; reflexivity].
  destruct (register_all_ok (NewPluginResource LocalNamespace) builtin_plugins) as (r & E & Hns & Hin & _).
  - apply (bool_decide_unpack _). vm_compute. exact I.
  - repeat (apply Forall_cons; split); [done..|constructor].
  - exists r. split; [done|]. split; [done|]. intros m Hm. by rewrite Hin.
Qed.

(** ** Which plugins fit together *)
Definition fits (t : EventType) (up down : PluginMetadata) : bool :=
  match edge_prefix t with
  | Ok prefix => is_ok (ValidateProperties (Outputs up) (Inputs down) prefix)
  | Err _ => false
  end.

(** The payload edges the contracts accept: recognisers feed the interrupter,
    captions and language models; language models and the Markdown filter feed
    the filter, captions and speech; the sink and the benchmark plugins, which
    declare nothing, take everything. *)
Definition payload_edges : list (string * list string) :=
  (λ up, (MName up, MName <$> filter (λ d, fits EventPayload up d = true ∧ Inputs d ≠ []) builtin_plugins))
    <$> filter (λ up, Outputs up ≠ []) builtin_plugins.

Lemma payload_edges_table : payload_edges =
  [("caption", []);
   ("deepgram_asr", ["caption"; "interrupter"; "openai_llm"]);
   ("google_asr", ["caption"; "interrupter"; "openai_llm"]);
   ("interrupter", ["caption"; "interrupter"; "openai_llm"]);
   ("markdown_filter", ["caption"; "elevenlabs_tts"; "markdown_filter"; "minimax_tts"; "openai_tts"]);
   ("mllm", ["caption"; "elevenlabs_tts"; "interrupter"; "markdown_filter"; "minimax_tts"; "openai_tts"]);
   ("openai_llm", ["caption"; "elevenlabs_tts"; "markdown_filter"; "minimax_tts"; "openai_tts"]);
   ("qwen_asr", ["caption"; "interrupter"; "openai_llm"]);
   ("ten_vad", [])].
Proof. vm_compute. reflexivity. Qed.

(** ** biz/handler/plugin.go *)
Record PluginInfo := mkInfo {
  i_Namespace : string; i_Name : string; i_Description : string;
  i_Inputs : list Property; i_Outputs : list Property; i_Ports : list PortMetadata }.

Definition ListPlugins {P} (o : iter_order string nat) (o' : iter_order string (PluginBuilder P)) (g : registry P)
    : list PluginInfo :=
  (λ d : PluginDescriptor, let m := meta d.2 in
     mkInfo d.1 (MName m) (Description m) (Inputs m) (Outputs m) (Ports m)) <$> ListPluginBuilders o o' g.

(** The listing of the initial store: every plugin once, by name. *)
Lemma builtins_listed :
  i_Name <$> ListPlugins default_order default_order builtin_registry = sort_Strings (MName <$> builtin_plugins) ∧
  NoDup (i_Name <$> ListPlugins default_order default_order builtin_registry).
Proof. split; [vm_compute; reflexivity|]. apply (bool_decide_unpack _). vm_compute. exact I. Qed.
