(* ===== verification/MultiPlugin.v ===== *)
(** * The plugin with tracks as a whole: internal/engine/multi.go

    [Multi] models one track; here are the handlers of [MultiTrackPlugin] that
    start the tracks and hand events to them.  A media object that is queued
    is retained first, and every retained reference is released once. *)

From S2P Require Import Prelude.
From S2P Require Import Chan.
From S2P Require Import EngineTypes.
From S2P Require Import Multi.

Inductive event_kind := OfPayload | OfAudio | OfVideo.
#[export] Instance event_kind_eq_dec : EqDecision event_kind.
Proof. solve_decision. Defined.

(** The plugin, whether its read loops run, the references it took, and the
    events it passed to the wrapped plugin directly. *)
Record wrapper := mkWrapper {
  tracks : MultiTrackPlugin; loops : bool; retained : list nat; direct : list (event_kind * nat) }.

Definition track_of (k : event_kind) (w : MultiTrackPlugin) : option track :=
  match k with OfPayload => payloadTrack w | OfAudio => audioTrack w | OfVideo => videoTrack w end.
Definition set_track (k : event_kind) (t : track) (w : MultiTrackPlugin) : MultiTrackPlugin :=
  match k with
  | OfPayload => mkMulti (Some t) (audioTrack w) (videoTrack w)
  | OfAudio => mkMulti (payloadTrack w) (Some t) (videoTrack w)
  | OfVideo => mkMulti (payloadTrack w) (audioTrack w) (Some t)
  end.

Definition wrapped (options : list TrackOption) : option wrapper :=
  t ← NewMultiTrackPlugin false options; Some (mkWrapper t false [] []).

(** [OnStart]: the loops run only if the wrapped plugin started. *)
Definition Multi_OnStart {E} (plugin_OnStart : result E unit) (w : wrapper) : wrapper * result E unit :=
  match plugin_OnStart with
  | Err e => (w, Err e)
  | Ok _ => (mkWrapper (tracks w) true (retained w) (direct w), Ok tt)
  end.

Definition pass_on (k : event_kind) (d : nat) (w : wrapper) : wrapper :=
  mkWrapper (tracks w) (loops w) (retained w) (direct w ++ [(k, d)]).

Definition Multi_OnPayload (d : nat) (w : wrapper) : option wrapper :=
  match payloadTrack (tracks w) with
  | None => Some (pass_on OfPayload d w)
  | Some t => t ← push d t; Some (mkWrapper (set_track OfPayload t (tracks w)) (loops w) (retained w) (direct w))
  end.

Definition Multi_OnAudio (d : nat) (w : wrapper) : option wrapper :=
  match audioTrack (tracks w) with
  | None => Some (pass_on OfAudio d w)
  | Some t => t ← push d t; Some (mkWrapper (set_track OfAudio t (tracks w)) (loops w) (d :: retained w) (direct w))
  end.

Definition Multi_OnVideo (d : nat) (w : wrapper) : option wrapper :=
  match videoTrack (tracks w) with
  | None => Some (pass_on OfVideo d w)
  | Some t => t ← push d t; Some (mkWrapper (set_track OfVideo t (tracks w)) (loops w) (d :: retained w) (direct w))
  end.

(** ** Interleavings

    The node calls the handlers; a track moves by the attempts of a push,
    interruptions, pauses, the end of the context and, once the plugin has
    started, the rounds of its read loop. *)
Inductive wrapper_label := WStart (ok : bool) | WEvent (k : event_kind) (d : nat) | WTrack (k : event_kind) (lb : track_label).

Definition wrapper_step (w : wrapper) (l : wrapper_label) : option wrapper :=
  match l with
  | WStart ok => Some (Multi_OnStart (if ok then Ok tt else Err tt) w).1
  | WEvent OfPayload d => Multi_OnPayload d w
  | WEvent OfAudio d => Multi_OnAudio d w
  | WEvent OfVideo d => Multi_OnVideo d w
  | WTrack _ (TPush _) => None
  | WTrack k lb =>
      if negb (loops w) && match lb with TRead _ => true | _ => false end then None
      else t ← track_of k (tracks w); t ← track_step lb t;
           Some (mkWrapper (set_track k t (tracks w)) (loops w) (retained w) (direct w))
  end.
Fixpoint wrapper_run (w : wrapper) (ls : list wrapper_label) : option wrapper :=
  match ls with [] => Some w | l :: ls => w ← wrapper_step w l; wrapper_run w ls end.

(** ** References *)
Definition pushed_of (t : option track) : list nat := match t with Some t => pushed t | None => [] end.
Definition released_of (t : option track) : list nat := match t with Some t => disposed t | None => [] end.
Definition held_of (t : option track) : list nat := match t with Some t => data <$> live_items t | None => [] end.

Definition opt_inv (t : option track) : Prop := match t with Some t => ∃ n, track_inv n t | None => True end.

Record wrapper_ok (w : wrapper) : Prop := {
  wo_inv : ∀ k, opt_inv (track_of k (tracks w));
  wo_retained : ∀ x, count_occ Nat.eq_dec (retained w) x =
    count_occ Nat.eq_dec (pushed_of (audioTrack (tracks w)) ++ pushed_of (videoTrack (tracks w))) x;
}.

Lemma set_track_same k k' t w :
  track_of k' (set_track k t w) = if decide (k = k') then Some t else track_of k' w.
Proof. by destruct k, k'. Qed.

Lemma wrapped_ok options w : wrapped options = Some w → wrapper_ok w.
Proof.
  unfold wrapped, NewMultiTrackPlugin. destruct (_ || _); [done|]. intros [= <-].
  enough (∀ t, (∀ k, opt_inv (track_of k t) ∧ pushed_of (track_of k t) = []) →
    ∀ k, opt_inv (track_of k (foldl apply_option t options)) ∧ pushed_of (track_of k (foldl apply_option t options)) = []) as H.
  { assert (∀ k, opt_inv (track_of k (mkMulti None None None)) ∧ pushed_of (track_of k (mkMulti None None None)) = []) as H0
      by (by intros []). specialize (H _ H0).
    split; [intros k; apply H|]. intros x. cbn [tracks retained].
    by rewrite (proj2 (H OfAudio) : pushed_of (audioTrack _) = []), (proj2 (H OfVideo) : pushed_of (videoTrack _) = []). }
  induction options as [|o options IH]; intros t Ht; simpl; [done|]. apply IH. intros k.
  destruct o as [n st sigs|n st sigs|n st sigs], k; cbn; try (apply (Ht OfPayload) || apply (Ht OfAudio) || apply (Ht OfVideo));
    (split; [exists n; apply inv_newStream|done]).
Qed.

Lemma pushed_step lb s s' :
  track_step lb s = Some s' → (∀ d, lb ≠ TPush d) → pushed s' = pushed s.
Proof.
  intros Hs Hp. destruct lb; cbn [track_step] in Hs; try (by destruct (Hp d)); try by simplify_eq.
  all: unfold push_attempt, interruptTrack, interrupt_cancel, readLoop, pass_checks, start_handler in Hs;
    repeat (match type of Hs with
            | (?o ≫= _) = Some _ => destruct o; cbn [mbind option_bind] in Hs; [|discriminate Hs]
            | context [match ?x with _ => _ end] => destruct x
            end); try discriminate Hs; by injection Hs as <-.
Qed.

Lemma push_pushed d s s' : push d s = Some s' → pushed s' = d :: pushed s.
Proof. unfold push. destruct (node_at s); [|done..]. by intros [= <-]. Qed.

Lemma wrapper_ok_step w l w' : wrapper_ok w → wrapper_step w l = Some w' → wrapper_ok w'.
Proof.
  intros [Hi Hr] Hs.
  assert (∀ k t t' lb, track_of k (tracks w) = Some t → track_step lb t = Some t' →
    ∀ k', opt_inv (track_of k' (set_track k t' (tracks w)))) as Hinv.
  { intros k t t' lb Ht Hst k'. rewrite set_track_same. case_decide; [|apply Hi]. subst.
    specialize (Hi k'). rewrite Ht in Hi. destruct Hi as [n Hn]. exists n. by eapply inv_track_step. }
  destruct l as [ok|[] d|k lb]; cbn [wrapper_step] in Hs.
  - injection Hs as <-. by destruct ok; split.
  - unfold Multi_OnPayload in Hs. destruct (payloadTrack (tracks w)) as [t|] eqn:Ht; [|injection Hs as <-; split; [exact Hi|exact Hr]].
    destruct (push d t) as [t'|] eqn:Hp; [|done]. injection Hs as <-.
    split; [by apply (Hinv OfPayload t t' (TPush d))|exact Hr].
  - unfold Multi_OnAudio in Hs. destruct (audioTrack (tracks w)) as [t|] eqn:Ht; [|injection Hs as <-; split; [exact Hi|cbn [pass_on tracks]; by rewrite Ht]].
    destruct (push d t) as [t'|] eqn:Hp; [|done]. injection Hs as <-.
    split; [by apply (Hinv OfAudio t t' (TPush d))|]. intros x. cbn. rewrite (push_pushed _ _ _ Hp). specialize (Hr x).
    cbn in Hr. cbn. case_match; lia.
  - unfold Multi_OnVideo in Hs. destruct (videoTrack (tracks w)) as [t|] eqn:Ht; [|injection Hs as <-; split; [exact Hi|cbn [pass_on tracks]; by rewrite Ht]].
    destruct (push d t) as [t'|] eqn:Hp; [|done]. injection Hs as <-.
    split; [by apply (Hinv OfVideo t t' (TPush d))|]. intros x. cbn. rewrite (push_pushed _ _ _ Hp). specialize (Hr x).
    rewrite count_occ_app in *. cbn in *. case_match; lia.
  - assert (∀ d, lb ≠ TPush d) as Hne by (intros d ->; by destruct k).
    assert (∃ t t', track_of k (tracks w) = Some t ∧ track_step lb t = Some t' ∧
      w' = mkWrapper (set_track k t' (tracks w)) (loops w) (retained w) (direct w)) as (t & t' & Ht & Hst & ->).
    { destruct lb; try (by destruct (Hne d)); cbn [wrapper_step] in Hs; (destruct (_ && _); [done|]);
        destruct (track_of k (tracks w)) as [t|]; cbn [mbind option_bind] in Hs; try done;
        destruct (track_step _ t) as [t'|] eqn:E; cbn [mbind option_bind] in Hs; try done;
        exists t, t'; (split; [done|]); (split; [done|]); by injection Hs as <-. }
    split; [by eapply Hinv|]. intros x. rewrite Hr. cbn [tracks].
    pose proof (pushed_step _ _ _ Hst Hne) as Hp.
    destruct k; cbn in *; rewrite ?Ht; cbn; by rewrite ?Hp.
Qed.

(** References of queued media are exact.  In every interleaving of the node
    with the tracks, whatever the strategies, interruptions and pauses, every
    reference the plugin took on an audio or video object is either held by an
    object still in a track or was released, exactly once; events of a kind
    without a track are passed on directly and take none. *)
Theorem multi_references_exact options w0 ls w :
  wrapped options = Some w0 → wrapper_run w0 ls = Some w →
  retained w ≡ₚ (released_of (audioTrack (tracks w)) ++ held_of (audioTrack (tracks w))) ++
                (released_of (videoTrack (tracks w)) ++ held_of (videoTrack (tracks w))).
Proof.
  intros Hw Hr. assert (wrapper_ok w) as [Hi Hc].
  { apply wrapped_ok in Hw. revert w0 Hw Hr. induction ls as [|l ls IH]; intros w0 Hok Hr; simpl in Hr; [by simplify_eq|].
    destruct (wrapper_step w0 l) as [w1|] eqn:E; [|done]. eapply (IH w1); [by eapply wrapper_ok_step|done]. }
  assert (∀ t, opt_inv t → ∀ x, count_occ Nat.eq_dec (pushed_of t) x =
    count_occ Nat.eq_dec (released_of t ++ held_of t) x) as Hp.
  { intros [t|] Ht x; [|done]. destruct Ht as [n [Hn _ _ _ _ _]]. apply Hn. }
  apply (Permutation_count_occ Nat.eq_dec). intros x. rewrite Hc, !(count_occ_app _ (pushed_of _)), !(count_occ_app _ (_ ++ _)).
  by rewrite (Hp _ (Hi OfAudio : opt_inv (audioTrack _))), (Hp _ (Hi OfVideo : opt_inv (videoTrack _))).
Qed.

Definition demo_options : list TrackOption := [WithAudioTrack 1 DropOldest ["interrupter"]].
Definition demo_moves : list wrapper_label :=
  [WStart true; WEvent OfAudio 7; WTrack OfAudio (TAttempt false 0); WEvent OfPayload 3; WEvent OfAudio 8;
   WTrack OfAudio (TAttempt false 0); WTrack OfAudio (TAttempt false 0); WTrack OfAudio (TAttempt false 0)].

Lemma multi_references_exact_witness :
  ∃ w0 w, wrapped demo_options = Some w0 ∧ wrapper_run w0 demo_moves = Some w ∧
    retained w ≡ₚ (released_of (audioTrack (tracks w)) ++ held_of (audioTrack (tracks w))) ++
                (released_of (videoTrack (tracks w)) ++ held_of (videoTrack (tracks w))) ∧
    retained w = [8; 7] ∧ direct w = [(OfPayload, 3)] ∧
    released_of (audioTrack (tracks w)) = [7] ∧ held_of (audioTrack (tracks w)) = [8].
Proof.
  destruct (wrapped demo_options) as [w0|] eqn:H0; [|vm_compute in H0; discriminate H0].
  destruct (wrapper_run w0 demo_moves) as [w|] eqn:Hr;
    [|vm_compute in H0; injection H0 as <-; vm_compute in Hr; discriminate Hr].
  exists w0, w. split; [reflexivity|]. split; [exact Hr|].
  split; [exact (multi_references_exact demo_options w0 demo_moves w H0 Hr)|].
  vm_compute in H0. injection H0 as <-. vm_compute in Hr. injection Hr as <-. repeat split.
Defined.
