(* ===== verification/RemoteHandlers.v ===== *)
(** * The engine's side of a remote plugin: internal/remote/plugin.go

    The handlers the engine calls turn lifecycle events, signals and payloads
    into runtime messages for [doCall]; the read loop hands what arrives to
    the calls in the slots, to the workflow or to the log.  [RemotePlugin]
    models the calls and their interleavings; this file models the messages
    around them and shows a call from the handler to its return. *)

From S2P Require Import Prelude.
From S2P Require Import Chan.
From S2P Require Import Schema.
From S2P Require Import PluginFlow.
From S2P Require Import RemoteCall.
From S2P Require Import RemotePlugin.

(** ** Messages *)
Inductive LifecycleType := LifecycleStart | LifecycleReady | LifecyclePause | LifecycleResume | LifecycleStop.

Inductive Body :=
| BodyLifecycle (t : LifecycleType)
| BodySignal (name : string) (properties : list Z)
| BodyPayload (name : string) (properties : list Z)
| BodyCancel.

Record RuntimeMessage := mkRuntime {
  InstanceId : string; RMessageId : string; RCorrelationId : string; RType : MessageType; RBody : Body }.

Definition lifecycle (t : LifecycleType) : RuntimeMessage := mkRuntime "" "" "" TLifecycle (BodyLifecycle t).

(** The message each lifecycle handler passes to [doCall]. *)
Definition OnStart_message : RuntimeMessage := lifecycle LifecycleStart.
Definition OnReady : RuntimeMessage := lifecycle LifecycleReady.
Definition OnPause : RuntimeMessage := lifecycle LifecyclePause.
Definition OnResume : RuntimeMessage := lifecycle LifecycleResume.

(** [OnStop] calls only an instance that is not stopping yet. *)
Definition OnStop_message (p : Plugin) : option RuntimeMessage :=
  if decide (PluginState_int PluginStateStopping ≤ PluginState_int (state p))%Z then None
  else Some (lifecycle LifecycleStop).

(** [doCall] fills in the ids. *)
Definition stamp (instance uuid : string) (m : RuntimeMessage) : RuntimeMessage :=
  mkRuntime instance (if decide (RMessageId m = "") then uuid else RMessageId m) (RCorrelationId m)
    (RType m) (RBody m).

(** The message of the cancel callback of [m]. *)
Definition cancel_of (instance uuid : string) (m : RuntimeMessage) : RuntimeMessage :=
  mkRuntime instance uuid (RMessageId m) TCancel BodyCancel.

(** What the queue of [RemotePlugin] keeps of a message. *)
Definition queued (m : RuntimeMessage) : message := mkMessage (RMessageId m) (RCorrelationId m) (RType m).

Section events.
Context (MarshalMap : gmap string anyv → result schema_error (list Z)).

(** A signal or a payload that cannot be serialised is dropped. *)
Definition callRemoteSchemaEvent (value : Named.object) (makeMessage : list Z → RuntimeMessage)
    : option RuntimeMessage :=
  match MarshalJSON MarshalMap (Named.props value) with
  | Err _ => None
  | Ok props => Some (makeMessage props)
  end.

Definition OnSignal (signal : Named.object) : option RuntimeMessage :=
  callRemoteSchemaEvent signal (λ props, mkRuntime "" "" "" TSignal (BodySignal (Named.name signal) props)).
Definition OnPayload (payload : Named.object) : option RuntimeMessage :=
  callRemoteSchemaEvent payload (λ props, mkRuntime "" "" "" TPayload (BodyPayload (Named.name payload) props)).
End events.

(** ** Arrivals *)
Inductive LogLevel := LogDebug | LogInfo | LogWarn | LogError.
Record LogEvent := mkLog { l_level : LogLevel; l_message : string; l_fields : gmap string string }.
Record log_record := mkLogged { at_level : LogLevel; text : string; args : list (string * string) }.

Inductive arrival :=
| Ack (correlation : string)
| Report (correlation : string) (r : ReportStatus)
| EmitSignal (port : Z) (event : option (string * list Z))
| EmitPayload (port : Z) (event : option (string * list Z))
| EmitLog (messageId correlation : string) (e : LogEvent)
| Unsupported.

Definition handleEmitLog (order : iter_order string string) (plugin instance : string)
    (messageId correlation : string) (e : LogEvent) : log_record :=
  mkLogged (l_level e) (l_message e)
    ([("plugin", plugin); ("instance_id", instance)] ++
     (if decide (messageId = "") then [] else [("message_id", messageId)]) ++
     (if decide (correlation = "") then [] else [("correlation_id", correlation)]) ++
     range_map order (l_fields e)).

Section arrivals.
Context (Marshal : anyv → result schema_error (list Z)) (grow : nat → nat → nat).
Context (UnmarshalMap : list Z → result schema_error (gmap string anyv)) (ord : iter_order string anyv).
Context (order : iter_order string string) (plugin instance : string).

(** One round of [readLoop]: the calls, what is sent on, what is logged. *)
Definition readLoop_message (m : arrival) (p : Plugin) : Plugin * list emission * list log_record :=
  match m with
  | Ack correlation => (handleAck correlation p, [], [])
  | Report correlation r => (handleReport correlation r p, [], [])
  | EmitSignal port event =>
      (p, option_list (handleEmit Marshal grow UnmarshalMap ord Named.KSignal port event), [])
  | EmitPayload port event =>
      (p, option_list (handleEmit Marshal grow UnmarshalMap ord Named.KPayload port event), [])
  | EmitLog mid cid e => (p, [], [handleEmitLog order plugin instance mid cid e])
  | Unsupported => (p, [], [])
  end.
End arrivals.

(** ** A call from handler to return *)
Definition idle_instance (p : Plugin) : Prop :=
  state p = PluginStateStreaming ∧ calls p = [None; None] ∧ callers p = ∅ ∧
  buffer (writeCh p) = [] ∧ 0 < chan_cap (writeCh p).

(** The steps of a call that is reported: the caller checks, takes its slot
    and queues its message, the writer sends it, the reader finishes the call
    with the report, the caller wakes up and returns. *)
Definition call_in_flight (n : nat) (m : RuntimeMessage) (cb : bool) (p : Plugin) : option Plugin :=
  p ← doCall_slot n (doCall_check n (RType m) (RMessageId m) cb None p); doCall_send n p.
Definition call_reported (n : nat) (m : RuntimeMessage) (r : ReportStatus) (p : Plugin) : option Plugin :=
  p ← writeLoop None p;
  let p := handleReport (RMessageId m) r p in
  c ← callers p !! n; cl ← finish_send (caller_call c);
  p ← doCall_wait n BDone (update_call (λ _, cl) p n);
  doCall_return n p.

(** What the instance is afterwards. *)
Definition after_call (n : nat) (r : ReportStatus) (p : Plugin) : Plugin :=
  log_return (match reportError r with Some e => note_error e p | None => p end) n (reportError r).

Lemma index_lt b ty : index b ty < 2.
Proof. unfold index. destruct b, ty; simpl; lia. Qed.

Lemma in_flight_state n m cb p :
  idle_instance p →
  ∃ p', call_in_flight n m cb p = Some p' ∧ state p' = PluginStateStreaming ∧ multi p' = multi p ∧ clock p' = clock p ∧
    returns p' = returns p ∧
    writeCh p' = enqueue (writeCh p) (mkMessage (RMessageId m) "" (RType m)) ∧
    calls p' = <[index (multi p) (RType m) := Some n]> (calls p) ∧
    callers p' = {[ n := mkCaller (RType m) PWaiting
      (newCall (RMessageId m) defaultCallLease (clock p) cb None) ]}.
Proof.
  intros (Hs & Hc & Hcs & Hb & Hcap). pose proof (index_lt (multi p) (RType m)) as Hi. unfold call_in_flight, doCall_check.
  rewrite decide_False by (rewrite Hs; intros Hn; by apply Hn).
  unfold doCall_slot. cbn [callers with_callers]. rewrite lookup_insert_eq. cbn [mbind option_bind caller_phase].
  rewrite decide_False by (intros Hn; by apply Hn). cbn [calls with_callers multi caller_type caller_call].
  assert ([None; None] !! index (multi p) (RType m) = Some (@None nat)) as Hsl
    by (destruct (index (multi p) (RType m)) as [|[|]]; [done..|lia]).
  rewrite decide_True by (by rewrite Hc, Hsl). cbn [mbind option_bind].
  unfold doCall_send. cbn [callers with_callers with_calls]. rewrite lookup_insert_eq. cbn [mbind option_bind caller_phase].
  rewrite decide_False by (intros Hn; by apply Hn). cbn [writeCh with_callers with_calls].
  assert (full (writeCh p) = false) as -> by (apply full_false; rewrite Hb; simpl; lia).
  eexists. split; [done|]. cbn. split; [done|]. do 5 (split; [done|]).
  by rewrite Hcs, !insert_insert_eq, insert_empty.
Qed.

Lemma in_flight_steps n m cb p p' :
  callers p = ∅ → call_in_flight n m cb p = Some p' → rtc remote_step p p'.
Proof.
  intros Hc H. unfold call_in_flight in H. apply bind_Some in H as (q & Hq & H).
  eapply rtc_l; [apply rs_check; [by rewrite Hc|intros k c; by rewrite Hc]|].
  eapply rtc_l; [by eapply rs_slot|]. eapply rtc_l; [by eapply rs_send|]. apply rtc_refl.
Qed.

Lemma reported_steps n m r p p' : call_reported n m r p = Some p' → rtc remote_step p p'.
Proof.
  intros H. unfold call_reported in H. apply bind_Some in H as (q & Hq & H).
  apply bind_Some in H as (c & Hc & H). apply bind_Some in H as (cl & Hcl & H).
  apply bind_Some in H as (q2 & Hq2 & H).
  eapply rtc_l; [by eapply rs_write|]. eapply rtc_l; [apply (rs_report q (RMessageId m) r)|].
  eapply rtc_l; [by eapply rs_finish_send|]. eapply rtc_l; [by eapply rs_wait|].
  eapply rtc_l; [by eapply rs_return|]. apply rtc_refl.
Qed.

(** The report finds the one call in the slots. *)
Lemma report_finds n c r (p : Plugin) i :
  calls p = <[i := Some n]> [None; None] → i < 2 → callers p = {[ n := c ]} →
  handleReport (id (caller_call c)) r p =
    with_callers p {[ n := on_call (finish (reportError r)) c ]}.
Proof.
  intros Hc Hi Hcs. unfold handleReport, first_match.
  assert (slot_numbers p = [n]) as -> by (unfold slot_numbers; rewrite Hc; destruct i as [|[|]]; [done..|lia]).
  simpl. rewrite decide_True.
  - cbn. unfold update_call. by rewrite Hcs, alter_singleton_eq.
  - unfold has_id. rewrite Hcs, lookup_singleton_eq. by apply bool_decide_eq_true_2.
Qed.

Lemma reported_state n m cb r p p1 :
  idle_instance p → call_in_flight n m cb p = Some p1 → call_reported n m r p1 = Some (after_call n r p).
Proof.
  intros Hidle Hf. destruct (in_flight_state n m cb p Hidle) as (p1' & Hf' & Hs & Hm & Hck & Hr & Hw & Hc & Hcs).
  rewrite Hf in Hf'. injection Hf' as <-. destruct Hidle as (Hs0 & Hc0 & Hcs0 & Hb & Hcap).
  unfold call_reported, writeLoop. rewrite Hw. unfold recv_case, enqueue. cbn [buffer]. rewrite Hb. cbn [app mbind option_bind].
  rewrite Hc0 in Hc. pose proof (index_lt (multi p) (RType m)) as Hi.
  match goal with |- context [handleReport _ _ ?q] =>
    assert (handleReport (RMessageId m) r q = with_callers q {[ n := on_call (finish (reportError r))
      (mkCaller (RType m) PWaiting (newCall (RMessageId m) defaultCallLease (clock p) cb None)) ]}) as ->
      by (by apply (report_finds n (mkCaller (RType m) PWaiting (newCall (RMessageId m) defaultCallLease (clock p) cb None)) r q _ Hc Hi Hcs)) end.
  cbv zeta. cbn [callers with_callers].
  rewrite lookup_singleton_eq. cbn [mbind option_bind].
  cbn [on_call caller_call caller_phase caller_type newCall finish finished set_done set_finished finish_send finisher done length].
  rewrite decide_True by lia. cbn [mbind option_bind app].
  unfold update_call. cbn [callers with_callers]. rewrite alter_singleton_eq.
  unfold doCall_wait. cbn [callers with_callers]. rewrite lookup_singleton_eq.
  cbn [mbind option_bind on_call caller_phase caller_type caller_call].
  rewrite decide_False by (intros Hn; by apply Hn).
  cbn [wait_branch wait_done done set_done set_finished newCall waiting wait_state mbind option_bind].
  unfold doCall_return. cbn [callers with_callers]. rewrite insert_singleton_eq, lookup_singleton_eq.
  cbn [mbind option_bind caller_phase caller_call return_with wait_state].
  rewrite decide_False by (intros Hn; by apply Hn).
  destruct p as [mu st cls cs ch ck rt], p1 as [mu1 st1 cls1 cs1 ch1 ck1 rt1]. cbn in *. subst.
  assert (<[index mu (RType m) := @None nat]> (<[index mu (RType m) := Some n]> [None; None]) = [None; None] ∧
    <[index mu (RType m) := Some n]> [None; None] !! index mu (RType m) = Some (Some n)) as [E1 E2]
    by (destruct (index mu (RType m)) as [|[|]]; [done..|lia]).
  assert (ch = mkChan [] (chan_cap ch) (closed ch)) as Hch by (destruct ch; cbn in *; by subst).
  unfold after_call. destruct (reportError r) as [e|];
    [unfold note_error; destruct (decide (e = ErrCanceled))|];
    unfold release, log_return, with_state, with_callers, with_calls; cbn;
    rewrite decide_True by done; cbn; rewrite E1, delete_singleton_eq, <-Hch; done.
Qed.

(** A call is served whole.  On an idle instance every handler's message is
    queued and sent, the report with its id ends the call with the error it
    carries, and the instance is idle again, or failed if the report was an
    error; all steps are steps of the machine. *)
Theorem remote_call_is_served n m cb r p :
  idle_instance p →
  ∃ p1 p2, call_in_flight n m cb p = Some p1 ∧ call_reported n m r p1 = Some p2 ∧
    rtc remote_step p p2 ∧ p2 = after_call n r p ∧
    (reportError r = None → idle_instance p2) ∧
    (∀ e, reportError r = Some e → e ≠ ErrCanceled → state p2 = PluginStateFailed).
Proof.
  intros Hidle. destruct (in_flight_state n m cb p Hidle) as (p1 & Hf & _).
  pose proof (reported_state n m cb r p p1 Hidle Hf) as Hr.
  exists p1, (after_call n r p). split; [done|]. split; [done|]. split.
  - etrans; [eapply in_flight_steps; [apply Hidle|exact Hf]|by eapply reported_steps].
  - split; [done|]. unfold after_call. split.
    + intros ->. destruct Hidle as (? & ? & ? & ? & ?). done.
    + intros e -> He. unfold note_error. by rewrite decide_False.
Qed.

(** ** An event that is echoed

    What the workflow gets back when the remote side emits the event it was
    sent: the same name and kind, and under every key what a JSON document
    keeps of the value. *)
Lemma echoed_signal Marshal grow MarshalMap UnmarshalMap ord o port m bs :
  let m0 := embed <$> view (Named.props o) in
  props_wf (Named.props o) → GoSlice.len (entries (Named.props o)) ≠ 0 → Named.obj_kind o = Named.KSignal →
  MarshalMap m0 = Ok bs → bs ≠ [] → UnmarshalMap bs = Ok m0 → (∀ v, is_ok (snapshot Marshal v) = true) →
  OnSignal MarshalMap o = Some m →
  RBody m = BodySignal (Named.name o) bs ∧
  ∃ o', handleEmit Marshal grow UnmarshalMap ord Named.KSignal port (Some (Named.name o, bs)) = Some (sendWithPort port o') ∧
    Named.name o' = Named.name o ∧ Named.obj_kind o' = Named.obj_kind o ∧
    ∀ key, match m0 !! key with
           | Some v => ∃ dst, snapshot Marshal v = Ok dst ∧ Get (Named.props o') key = Some dst
           | None => Get (Named.props o') key = None
           end.
Proof.
  intros m0 Hwf Hlen Hk Hm Hne Hu Hs Hon. unfold OnSignal, callRemoteSchemaEvent in Hon.
  rewrite MarshalJSON_view, decide_False in Hon by done. fold m0 in Hon. rewrite Hm in Hon. simplify_eq/=.
  split; [done|].
  destruct (handleEmit_spec Marshal grow UnmarshalMap ord Named.KSignal port (Named.name o) bs m0)
    as (o' & He & Hn & Hko & _ & Hg); [done..|].
  exists o'. split; [done|]. split; [done|]. split; [congruence|done].
Qed.

(** ** Which handlers share a slot

    Without tracks every call takes the first slot, with tracks payloads have
    their own. *)
Lemma handler_slots MarshalMap o m :
  index false (RType OnReady) = 0 ∧ index true (RType OnPause) = 0 ∧
  (OnSignal MarshalMap o = Some m → ∀ b, index b (RType m) = 0) ∧
  (OnPayload MarshalMap o = Some m → index false (RType m) = 0 ∧ index true (RType m) = 1).
Proof.
  split_and!; [done..| |]; unfold OnSignal, OnPayload, callRemoteSchemaEvent;
    destruct (MarshalJSON MarshalMap (Named.props o)); intros; simplify_eq/=; [|done].
  by destruct b.
Qed.
