(* ===== verification/BenchStats.v ===== *)
(** * Statistics of the load test: cmd/bench/main.go

    A client records the latency of every packet that comes back in a
    histogram with one bucket per millisecond; the report merges the
    histograms of all clients.  The report is stated over the latencies that
    were recorded: its percentiles are order statistics, its extremes and its
    average are theirs. *)

From S2P Require Import Prelude.
From S2P Require Import GoFloat.
Local Open Scope Z_scope.

Definition maxLatencyMS : Z := 60000.

(** ** Histograms *)
Record Histogram := mkHistogram {
  buckets : list Z; received : Z; sent : Z; errors : Z; sum : Z }.

Definition NewHistogram : Histogram :=
  mkHistogram (replicate (Z.to_nat (maxLatencyMS + 1)) 0) 0 0 0 0.

(** The value [Record] counts. *)
Definition clamp (latencyMS : Z) : Z :=
  let l := if decide (latencyMS < 0) then 0 else latencyMS in
  if decide (l > maxLatencyMS) then maxLatencyMS else l.

Definition Record_ (h : Histogram) (latencyMS : Z) : Histogram :=
  let l := clamp latencyMS in
  mkHistogram (alter (λ n, int64 (n + 1)) (Z.to_nat l) (buckets h))
    (int64 (received h + 1)) (sent h) (errors h) (int64 (sum h + l)).

Definition add_sent (h : Histogram) : Histogram :=
  mkHistogram (buckets h) (received h) (int64 (sent h + 1)) (errors h) (sum h).
Definition add_error (h : Histogram) : Histogram :=
  mkHistogram (buckets h) (received h) (sent h) (int64 (errors h + 1)) (sum h).

Definition Merge (h other : Histogram) : Histogram :=
  if decide (sent other = 0 ∧ received other = 0) then h
  else mkHistogram (zip_with (λ n val, if decide (val > 0) then int64 (n + val) else n) (buckets h) (buckets other))
         (int64 (received h + received other)) (int64 (sent h + sent other))
         (int64 (errors h + errors other)) (int64 (sum h + sum other)).

(** [target] of [ValueAtPercentile]. *)
Definition rank (p : float64) (n : Z) : Z :=
  let target := int64_of_float64
    (float64_ceil (float64_mul (float64_div p (float64_of_int64 100)) (float64_of_int64 n))) in
  if decide (target < 1) then 1 else target.

(** The loop over the buckets from [i] on. *)
Fixpoint percentile_loop (bs : list Z) (i current target : Z) : Z :=
  match bs with
  | [] => maxLatencyMS
  | n :: bs =>
      let current := int64 (current + n) in
      if decide (target ≤ current) then i else percentile_loop bs (i + 1) current target
  end.

Definition ValueAtPercentile (h : Histogram) (p : float64) : Z :=
  if decide (received h = 0) then 0
  else percentile_loop (buckets h) 0 0 (rank p (received h)).

(** ** The report *)
Record Config := mkConfig {
  Workflow : string; Users : Z; Duration : Z; RawDuration : string; Interval : Z; RawInterval : string;
  Target : string; Buckets : Z; SaveReport : bool; EnablePprof : bool; OutputDir : string }.

Record BenchReport := mkReport {
  r_Workflow : string; r_Duration : Z; r_TargetUsers : Z; r_ActualUsers : Z; r_Buckets : Z;
  r_Sent : Z; r_Received : Z; r_Errors : Z; r_LossRate : float64;
  r_AvgRTT : Z; r_P95RTT : Z; r_P99RTT : Z; r_MinRTT : Z; r_MaxRTT : Z; r_Timestamp : Z }.

(** The loop for the extremes. *)
Fixpoint extremes_loop (bs : list Z) (i minRTT maxRTT : Z) : Z * Z :=
  match bs with
  | [] => (minRTT, maxRTT)
  | n :: bs =>
      if decide (n > 0)
      then extremes_loop bs (i + 1) (if decide (minRTT = -1) then i else minRTT) i
      else extremes_loop bs (i + 1) minRTT maxRTT
  end.

(** [None] is the empty report of a test without data. *)
Definition printReport (h : Histogram) (actualUsers : Z) (cfg : Config) (now : Z) : option BenchReport :=
  if decide (sent h = 0) then None
  else
    let avg := if decide (received h > 0) then Z.quot (sum h) (received h) else 0 in
    let p95 := ValueAtPercentile h (float64_of_int64 95) in
    let p99 := ValueAtPercentile h (float64_of_int64 99) in
    let lost := int64 (sent h - received h) in
    let lossRate := float64_mul (float64_div (float64_of_int64 lost) (float64_of_int64 (sent h))) (float64_of_int64 100) in
    let '(minRTT, maxRTT) := extremes_loop (buckets h) 0 (-1) 0 in
    let minRTT := if decide (minRTT = -1) then 0 else minRTT in
    Some (mkReport (Workflow cfg) (Duration cfg) (Users cfg) actualUsers (Buckets cfg) (sent h) (received h) (errors h)
            lossRate avg p95 p99 minRTT maxRTT now).

(** The merged histogram of [finalize]. *)
Definition merged (hs : list Histogram) : Histogram := foldl Merge NewHistogram hs.
(** [finalize]: the report, and whether it is saved. *)
Definition finalize (hs : list Histogram) (cfg : Config) (now : Z) : option BenchReport * bool :=
  (printReport (merged hs) (Z.of_nat (length hs)) cfg now, SaveReport cfg && bool_decide (received (merged hs) > 0)).

(** ** What a histogram holds *)

(** The latencies below [v] and up to [v]. *)
Definition below (ls : list Z) (v : Z) : Z := Z.of_nat (length (filter (λ x, x < v) ls)).
Definition at_ (ls : list Z) (v : Z) : Z := Z.of_nat (length (filter (λ x, x = v) ls)).
Definition total (ls : list Z) : Z := foldr Z.add 0 ls.

(** Few enough packets for 64-bit counters and their sums. *)
Definition few : Z := 2 ^ 46.

Record holds (h : Histogram) (ls : list Z) : Prop := {
  holds_range : Forall (λ x, 0 ≤ x ≤ maxLatencyMS) ls;
  holds_length : length (buckets h) = Z.to_nat (maxLatencyMS + 1);
  holds_bucket : ∀ i n, buckets h !! i = Some n → n = at_ ls (Z.of_nat i);
  holds_received : received h = Z.of_nat (length ls);
  holds_sum : sum h = total ls;
}.

Lemma clamp_range l : 0 ≤ clamp l ≤ maxLatencyMS.
Proof. unfold clamp, maxLatencyMS. repeat case_decide; lia. Qed.

Lemma clamp_id l : 0 ≤ l ≤ maxLatencyMS → clamp l = l.
Proof. unfold clamp, maxLatencyMS. intros. repeat case_decide; lia. Qed.

Lemma at_cons x ls v : at_ (x :: ls) v = at_ ls v + if decide (x = v) then 1 else 0.
Proof. unfold at_. rewrite filter_cons. repeat case_decide; simpl; lia. Qed.

Lemma at_app l1 l2 v : at_ (l1 ++ l2) v = at_ l1 v + at_ l2 v.
Proof. unfold at_. rewrite filter_app, length_app. lia. Qed.

Lemma at_bound ls v : 0 ≤ at_ ls v ≤ Z.of_nat (length ls).
Proof. unfold at_. pose proof (length_filter (λ x, x = v) ls). lia. Qed.

Lemma below_bound ls v : 0 ≤ below ls v ≤ Z.of_nat (length ls).
Proof. unfold below. pose proof (length_filter (λ x, x < v) ls). lia. Qed.

Lemma below_succ ls v : below ls (v + 1) = below ls v + at_ ls v.
Proof.
  unfold below, at_. induction ls as [|x ls IH]; [done|]. rewrite !filter_cons.
  repeat case_decide; simpl; lia.
Qed.

Lemma total_bound ls : Forall (λ x, 0 ≤ x ≤ maxLatencyMS) ls → 0 ≤ total ls ≤ maxLatencyMS * Z.of_nat (length ls).
Proof. induction 1 as [|x ls Hx _ IH]; simpl; [lia|]. unfold maxLatencyMS in *. lia. Qed.

Lemma total_app l1 l2 : total (l1 ++ l2) = total l1 + total l2.
Proof. unfold total. induction l1 as [|x l1 IH]; simpl; lia. Qed.

Lemma holds_new : holds NewHistogram [].
Proof.
  split; [by constructor|done| |done..]. intros i n Hi. cbn in Hi.
  by apply lookup_replicate in Hi as [-> _].
Qed.

Lemma Record_holds h ls l :
  holds h ls → Z.of_nat (length ls) < few → holds (Record_ h l) (clamp l :: ls).
Proof.
  intros [Hr Hl Hb Hn Hs] Hf. unfold few in Hf. pose proof (clamp_range l) as Hc.
  pose proof (total_bound ls Hr) as Ht. unfold maxLatencyMS in *.
  split; cbn [buckets received sum Record_].
  - by constructor.
  - by rewrite length_alter.
  - intros i n Hi. rewrite at_cons. pose proof (at_bound ls (Z.of_nat i)).
    destruct (decide (i = Z.to_nat (clamp l))) as [->|Hne].
    + rewrite list_lookup_alter_eq in Hi. destruct (buckets h !! _) as [n'|] eqn:E; [|discriminate Hi].
      injection Hi as <-. apply Hb in E. rewrite decide_True by lia. rewrite int64_small; lia.
    + rewrite list_lookup_alter_ne in Hi by done. apply Hb in Hi. rewrite decide_False; lia.
  - rewrite int64_small; simpl; lia.
  - rewrite int64_small; simpl; lia.
Qed.

Lemma Merge_holds h o l1 l2 :
  holds h l1 → holds o l2 → Z.of_nat (length (l1 ++ l2)) < few → holds (Merge h o) (l1 ++ l2).
Proof.
  intros H1 [Hr Hl Hb Hn Hs] Hf. rewrite length_app in Hf. unfold Merge, few in *.
  case_decide as Hz.
  { destruct l2; [by rewrite app_nil_r|]. simpl in Hn. lia. }
  destruct H1 as [Hr1 Hl1 Hb1 Hn1 Hs1].
  pose proof (total_bound l1 Hr1). pose proof (total_bound l2 Hr). unfold maxLatencyMS in *.
  split; cbn [buckets received sum].
  - by apply Forall_app.
  - rewrite length_zip_with. change (Z.to_nat (maxLatencyMS + 1)) with (Z.to_nat (60000 + 1)). lia.
  - intros i n Hi. apply lookup_zip_with_Some in Hi as (x & y & -> & Hx & Hy).
    apply Hb1 in Hx. apply Hb in Hy. rewrite at_app.
    pose proof (at_bound l1 (Z.of_nat i)). pose proof (at_bound l2 (Z.of_nat i)).
    case_decide; [rewrite int64_small|]; lia.
  - rewrite int64_small, length_app; lia.
  - rewrite int64_small, total_app; lia.
Qed.

(** Merging the histograms of all clients. *)
Lemma merged_holds hs lss :
  Forall2 holds hs lss → Z.of_nat (length (concat lss)) < few → holds (merged hs) (concat lss).
Proof.
  intros Hall Hf. unfold merged.
  enough (∀ h ls, holds h ls → Z.of_nat (length (ls ++ concat lss)) < few →
    holds (foldl Merge h hs) (ls ++ concat lss)) as H by (by apply (H NewHistogram []); [apply holds_new|]).
  clear Hf. induction Hall as [|o l hs lss Ho _ IH]; intros h ls Hh Hf; simpl in *; [by rewrite app_nil_r|].
  rewrite app_assoc in Hf |- *. apply IH; [|done]. apply Merge_holds; [done..|].
  rewrite length_app in Hf. lia.
Qed.

(** ** Percentiles *)
Lemma percentile_loop_spec ls bs i target :
  Z.of_nat (length ls) < few → (∀ j n, bs !! j = Some n → n = at_ ls (i + Z.of_nat j)) →
  below ls i < target → target ≤ below ls (i + Z.of_nat (length bs)) →
  let v := percentile_loop bs i (below ls i) target in
  i ≤ v < i + Z.of_nat (length bs) ∧ below ls v < target ≤ below ls (v + 1).
Proof.
  intros Hf. revert i. induction bs as [|n bs IH]; intros i Hb Hlo Hhi; simpl in *.
  { rewrite Z.add_0_r in Hhi. lia. }
  pose proof (Hb 0%nat n eq_refl) as Hn. change (Z.of_nat 0) with 0 in Hn. rewrite Z.add_0_r in Hn. subst n.
  rewrite <-below_succ. pose proof (below_bound ls (i + 1)). unfold few in Hf.
  rewrite int64_small by lia. case_decide as Ht; [lia|].
  destruct (IH (i + 1)) as [Hv Hr]; [|lia|by replace (i + 1 + Z.of_nat (length bs)) with (i + Z.of_nat (S (length bs))) by lia|].
  - intros j n Hj. rewrite (Hb (S j) n Hj). f_equal. lia.
  - split; [lia|done].
Qed.

(** Every number of at least one packet up to all of them has its value. *)
Lemma all_below ls : Forall (λ x, 0 ≤ x ≤ maxLatencyMS) ls → below ls (maxLatencyMS + 1) = Z.of_nat (length ls).
Proof.
  unfold below. induction 1 as [|x ls Hx _ IH]; [done|]. rewrite filter_cons, decide_True by lia. simpl. lia.
Qed.

Lemma none_below ls : Forall (λ x, 0 ≤ x ≤ maxLatencyMS) ls → below ls 0 = 0.
Proof.
  unfold below. induction 1 as [|x ls Hx _ IH]; [done|]. by rewrite filter_cons, decide_False by lia.
Qed.

Lemma ValueAtPercentile_spec h ls p :
  holds h ls → Z.of_nat (length ls) < few → ls ≠ [] → rank p (received h) ≤ received h →
  let v := ValueAtPercentile h p in
  0 ≤ v ≤ maxLatencyMS ∧ below ls v < rank p (received h) ≤ below ls (v + 1).
Proof.
  intros Hh Hf Hne Hr. pose proof Hh as [Hrg Hl Hb Hn Hs]. unfold ValueAtPercentile.
  rewrite decide_False by (destruct ls; [done|]; rewrite Hn; simpl; lia). cbv zeta.
  pose proof (none_below ls Hrg) as H0. pose proof (all_below ls Hrg) as H1.
  assert (1 ≤ rank p (received h)) by (unfold rank; case_decide; lia).
  destruct (percentile_loop_spec ls (buckets h) 0 (rank p (received h))) as [Hv Hc].
  - done.
  - intros j n Hj. by rewrite (Hb j n Hj).
  - lia.
  - rewrite Hl, Z2Nat.id by (by unfold maxLatencyMS). rewrite Z.add_0_l, H1. lia.
  - rewrite Hl, Z2Nat.id in Hv by (by unfold maxLatencyMS). rewrite H0 in Hv, Hc. split; [lia|done].
Qed.

(** The ranks of the report, in float64 arithmetic. *)
Lemma report_rank p n :
  p = 95 ∨ p = 99 → 0 < n < 2 ^ 53 → 1 ≤ rank (float64_of_int64 p) n ≤ n.
Proof.
  intros Hp Hn. unfold rank.
  assert (∃ m, float64_div (float64_of_int64 p) (float64_of_int64 100) = SpecFloat.S754_finite false m (-53) ∧
    SpecFloat.digits2_pos m = 53%positive) as (m & -> & Hm)
    by (destruct Hp as [-> | ->]; eexists; (split; [vm_compute; reflexivity|reflexivity])).
  pose proof (ceil_fraction m n Hm Hn). case_decide; lia.
Qed.

(** ** Extremes *)
Lemma at_elem ls v : 0 < at_ ls v ↔ v ∈ ls.
Proof.
  unfold at_. split.
  - intros Hp. destruct (filter (λ x, x = v) ls) as [|x l] eqn:E; [simpl in Hp; lia|].
    assert (x ∈ filter (λ x, x = v) ls) as Hx by (rewrite E; left). by apply list_elem_of_filter in Hx as [-> ?].
  - intros Hv. assert (v ∈ filter (λ x, x = v) ls) as Hx by by apply list_elem_of_filter.
    destruct (filter (λ x, x = v) ls); [by apply not_elem_of_nil in Hx|]. simpl. lia.
Qed.

Lemma below_elem ls v : 0 < below ls v ↔ ∃ x, x ∈ ls ∧ x < v.
Proof.
  unfold below. split.
  - intros Hp. destruct (filter (λ x, x < v) ls) as [|x l] eqn:E; [simpl in Hp; lia|].
    assert (x ∈ filter (λ x, x < v) ls) as Hx by (rewrite E; left). apply list_elem_of_filter in Hx as [? ?]. by exists x.
  - intros (x & Hv & ?). assert (x ∈ filter (λ x, x < v) ls) as Hx by by apply list_elem_of_filter.
    destruct (filter (λ x, x < v) ls); [by apply not_elem_of_nil in Hx|]. simpl. lia.
Qed.

(** What the loop knows after the buckets below [i]. *)
Definition seen (ls : list Z) (i minRTT maxRTT : Z) : Prop :=
  if decide (minRTT = -1) then maxRTT = 0 ∧ ∀ x, x ∈ ls → i ≤ x
  else minRTT ∈ ls ∧ maxRTT ∈ ls ∧ ∀ x, x ∈ ls → minRTT ≤ x ∧ (x < i → x ≤ maxRTT).

Lemma extremes_loop_spec ls bs i minRTT maxRTT :
  0 ≤ i → (∀ j n, bs !! j = Some n → n = at_ ls (i + Z.of_nat j)) → seen ls i minRTT maxRTT →
  let '(a, b) := extremes_loop bs i minRTT maxRTT in seen ls (i + Z.of_nat (length bs)) a b.
Proof.
  revert i minRTT maxRTT. induction bs as [|n bs IH]; intros i mn mx Hi Hb Hseen; simpl.
  { by rewrite Z.add_0_r. }
  pose proof (Hb 0%nat n eq_refl) as Hn. change (Z.of_nat 0) with 0 in Hn. rewrite Z.add_0_r in Hn.
  assert (∀ j m, bs !! j = Some m → m = at_ ls (i + 1 + Z.of_nat j)) as Hb'
    by (intros j m Hj; rewrite (Hb (S j) m Hj); f_equal; lia).
  replace (i + Z.of_nat (S (length bs))) with (i + 1 + Z.of_nat (length bs)) by lia.
  destruct (decide (n > 0)) as [Hp|Hp]; apply IH; try done; try lia; unfold seen in *.
  - assert (i ∈ ls) as Hin by (apply at_elem; lia).
    destruct (decide (mn = -1)) as [->|Hm].
    + destruct Hseen as [_ Hs]. rewrite decide_False by lia. split; [done|]. split; [done|].
      intros x Hx%Hs. lia.
    + rewrite decide_False by done. destruct Hseen as (? & ? & Hs). split; [done|]. split; [done|].
      intros x Hx. destruct (Hs x Hx). lia.
  - assert (i ∉ ls) as Hin by (rewrite <-at_elem; lia).
    assert (∀ x, x ∈ ls → x ≠ i) as Hnei by (intros x Hx ->; done).
    destruct (decide (mn = -1)) as [->|Hm].
    + destruct Hseen as [? Hs]. split; [done|]. intros x Hx. specialize (Hs x Hx). specialize (Hnei x Hx). lia.
    + destruct Hseen as (? & ? & Hs). split; [done|]. split; [done|].
      intros x Hx. destruct (Hs x Hx). specialize (Hnei x Hx). split; [done|]. intros. lia.
Qed.

Lemma total_between ls a b :
  (∀ x, x ∈ ls → a ≤ x ≤ b) → a * Z.of_nat (length ls) ≤ total ls ≤ b * Z.of_nat (length ls).
Proof.
  induction ls as [|x ls IH]; intros Hx; simpl; [lia|].
  pose proof (Hx x ltac:(left)). pose proof (IH (λ y Hy, Hx y ltac:(by right))). unfold total in *. lia.
Qed.

(** ** The report of the recorded latencies

    [v] is the [k]-th smallest latency. *)
Definition kth (ls : list Z) (k v : Z) : Prop := v ∈ ls ∧ below ls v < k ≤ below ls (v + 1).

Lemma kth_percentile h ls p :
  holds h ls → Z.of_nat (length ls) < few → ls ≠ [] → p = 95 ∨ p = 99 →
  ∃ k, 1 ≤ k ≤ Z.of_nat (length ls) ∧ kth ls k (ValueAtPercentile h (float64_of_int64 p)).
Proof.
  intros Hh Hf Hne Hp. pose proof (holds_received _ _ Hh) as Hn.
  assert (0 < received h < 2 ^ 53) as Hb by (rewrite Hn; unfold few in Hf; destruct ls; [done|]; simpl in *; lia).
  pose proof (report_rank p (received h) Hp Hb) as Hr.
  destruct (ValueAtPercentile_spec h ls (float64_of_int64 p) Hh Hf Hne) as [Hv Hk]; [lia|].
  exists (rank (float64_of_int64 p) (received h)). split; [lia|]. split; [|done].
  apply at_elem. rewrite below_succ in Hk. lia.
Qed.

Lemma report_spec h ls actual cfg now r :
  holds h ls → Z.of_nat (length ls) < few → ls ≠ [] → printReport h actual cfg now = Some r →
  r_Received r = Z.of_nat (length ls) ∧ r_Sent r = sent h ∧ r_Errors r = errors h ∧
  r_MinRTT r ∈ ls ∧ r_MaxRTT r ∈ ls ∧ (∀ x, x ∈ ls → r_MinRTT r ≤ x ≤ r_MaxRTT r) ∧
  r_AvgRTT r = total ls / Z.of_nat (length ls) ∧ r_MinRTT r ≤ r_AvgRTT r ≤ r_MaxRTT r ∧
  (∃ k, 1 ≤ k ≤ Z.of_nat (length ls) ∧ kth ls k (r_P95RTT r)) ∧
  (∃ k, 1 ≤ k ≤ Z.of_nat (length ls) ∧ kth ls k (r_P99RTT r)).
Proof.
  intros Hh Hf Hne Hr. pose proof (kth_percentile h ls 95 Hh Hf Hne ltac:(auto)) as K95.
  pose proof (kth_percentile h ls 99 Hh Hf Hne ltac:(auto)) as K99.
  pose proof Hh as [Hrg Hl Hb Hn Hs]. unfold printReport in Hr. case_decide; [done|].
  pose proof (extremes_loop_spec ls (buckets h) 0 (-1) 0) as Hex.
  destruct (extremes_loop (buckets h) 0 (-1) 0) as [a b]. simplify_eq. cbn -[ValueAtPercentile].
  assert (0 < Z.of_nat (length ls)) as Hpos by (destruct ls; [done|]; simpl; lia).
  assert (a ∈ ls ∧ b ∈ ls ∧ (∀ x, x ∈ ls → a ≤ x ≤ b) ∧ a ≠ -1) as (Ha & Hbx & Hab & Ha1).
  { rewrite Forall_forall in Hrg. destruct ls as [|x0 ls0] eqn:E; [done|]. rewrite <-E in *.
    assert (x0 ∈ ls) as H0 by (rewrite E; left).
    rewrite Hl, Z2Nat.id in Hex by by unfold maxLatencyMS. unfold seen in Hex.
    specialize (Hex ltac:(lia) ltac:(intros j m Hj; by rewrite (Hb j m Hj))
      ltac:(split; [done|]; intros x Hx; by apply Hrg)).
    case_decide as Ha; [destruct Hex as [_ Hx]; specialize (Hx x0 H0); specialize (Hrg x0 H0); lia|].
    destruct Hex as (? & ? & Hx). split_and!; try done. intros x Hin. destruct (Hx x Hin) as [? Hm].
    split; [done|]. apply Hm. specialize (Hrg x Hin). lia. }
  rewrite (decide_False (P := a = -1)) by done. rewrite decide_True by lia. rewrite Hs, Hn.
  pose proof (total_between ls a b Hab) as Ht.
  pose proof (total_bound ls Hrg) as Ht0.
  rewrite Z.quot_div_nonneg by lia.
  split_and!; try done.
  - apply Z.div_le_lower_bound; lia.
  - apply Z.div_le_upper_bound; lia.
Qed.

(** ** Order does not matter *)
Lemma total_perm l1 l2 : l1 ≡ₚ l2 → total l1 = total l2.
Proof. unfold total. induction 1; simpl; [done|lia|lia|by etrans]. Qed.

Lemma holds_perm h l1 l2 : l1 ≡ₚ l2 → holds h l1 → holds h l2.
Proof.
  intros Hp [Hr Hl Hb Hn Hs]. split; [by rewrite <-Hp|done| | |].
  - intros i n Hi%Hb. rewrite Hi. unfold at_. by rewrite Hp.
  - rewrite Hn. by rewrite Hp.
  - rewrite Hs. by apply total_perm.
Qed.

Lemma total_nonneg l : Forall (λ x, 0 ≤ x) l → 0 ≤ total l.
Proof. unfold total. induction 1; simpl; lia. Qed.

Lemma merged_sent hs :
  Forall (λ h, 0 ≤ sent h) hs → total (sent <$> hs) < few → sent (merged hs) = total (sent <$> hs).
Proof.
  intros Hall Hf. unfold merged.
  enough (∀ h, 0 ≤ sent h → sent h + total (sent <$> hs) < few →
    sent (foldl Merge h hs) = sent h + total (sent <$> hs)) as H by (by rewrite (H NewHistogram)).
  clear Hf. induction Hall as [|o hs Ho Hall IH]; intros h Hh Hf; [cbn in *; lia|].
  rewrite fmap_cons in *. change (total (sent o :: (sent <$> hs))) with (sent o + total (sent <$> hs)) in *. cbn [foldl].
  assert (0 ≤ total (sent <$> hs)) by (apply total_nonneg; by apply Forall_fmap).
  assert (sent (Merge h o) = sent h + sent o) as E.
  { unfold Merge. case_decide; [lia|]. cbn. unfold few in Hf. rewrite int64_small; lia. }
  rewrite IH; rewrite E; lia.
Qed.
