(* ===== verification/BenchClient.v ===== *)
(** * Clients of the load test: cmd/bench/main.go

    A client sends an audio packet with the time every interval and measures
    how long the packet needs to come back.  The times it waits for are kept
    in 1024 slots, by the number of the interval; a packet that comes back
    empties its slot.  The theorems account for every packet of a test and
    relate the report to the round trips.  Panics of the code (a division by
    zero, a negative index) are [None].

    The HTTP and WebSocket clients and [time.ParseDuration] are arguments. *)

From S2P Require Import Prelude.
From S2P Require Import GoSlice.
From S2P Require Import GoFloat.
From S2P Require Import Protocol.
From S2P Require Import BenchStats.
Local Open Scope Z_scope.

(** ** Configuration *)
Definition Millisecond : Z := 1000000.
Definition Second : Z := 1000 * Millisecond.

Definition defaultConfig : Config :=
  mkConfig "benchmark" 10 (20 * Second) "" (50 * Millisecond) "" "http://127.0.0.1:7001" 5 false false "".

Section config.
Context (ParseDuration : string → option Z).

Definition ValidateAndFill (c : Config) : Config :=
  mkConfig (if decide (Workflow c = "") then Workflow defaultConfig else Workflow c)
    (if decide (Users c ≤ 0) then Users defaultConfig else Users c)
    (match ParseDuration (RawDuration c) with
     | Some d => d
     | None => if decide (Duration c = 0) then Duration defaultConfig else Duration c
     end)
    (RawDuration c)
    (match ParseDuration (RawInterval c) with
     | Some d => d
     | None => if decide (Interval c = 0) then Interval defaultConfig else Interval c
     end)
    (RawInterval c)
    (if decide (Target c = "") then Target defaultConfig else Target c)
    (if decide (Buckets c ≤ 0) then Buckets defaultConfig else Buckets c)
    (SaveReport c) (EnablePprof c) (OutputDir c).
End config.

(** ** Clients *)
Definition Milliseconds (d : Z) : Z := Z.quot d Millisecond.

(** [binary.BigEndian.PutUint64] and [Uint64]. *)
Definition PutUint64 (v : Z) : list Z := PutUint32 (Z.shiftr v 32) ++ PutUint32 v.
Definition Uint64 (b : list Z) : Z :=
  Uint32 (nthb b 0) (nthb b 1) (nthb b 2) (nthb b 3) * 2 ^ 32 + Uint32 (nthb b 4) (nthb b 5) (nthb b 6) (nthb b 7).

Definition slots : nat := 1024.

Record Client := mkClient {
  interval : Z; histogram : Histogram; payload : list Z; sentAt : list Z }.

Definition new_client (interval : Z) : Client :=
  mkClient interval NewHistogram (replicate 1600 0) (replicate slots 0).

(** The index of a time: [None] is a panic. *)
Definition slot (ms ts : Z) : option nat :=
  if decide (ms = 0) then None
  else let idx := Z.rem (Z.quot ts ms) (Z.of_nat slots) in
       if decide (0 ≤ idx) then Some (Z.to_nat idx) else None.

(** [Send] with the packet [p] of the pool; the frame it writes. *)
Definition Send (p : Packet) (now : Z) (write_ok : bool) (c : Client) : option (Client * list Z) :=
  idx ← slot (Milliseconds (interval c)) now;
  let data := PutUint64 (uint64 now) ++ drop 8 (payload c) in
  let p := SetPayload (mkPacket TypeAudio (Encode p) (Size p) (Payload p) (header p)) data in
  let h := add_sent (histogram c) in
  Some (mkClient (interval c) (if write_ok then h else add_error h) data (<[idx := now]> (sentAt c)),
        Marshal p).

(** What a message makes the client measure: the slot it empties and the
    latency of the time found there. *)
Definition answered (p : Packet) (now : Z) (message : list Z) (c : Client) : option (option (nat * option Z)) :=
  match Unmarshal p message with
  | (_, Some _) => Some None
  | (q, None) =>
      if decide (Type_ q ≠ TypeAudio) then Some None
      else if decide (length (contents (Payload q)) < 8)%nat then Some None
      else
        let ts := int64 (Uint64 (take 8 (contents (Payload q)))) in
        idx ← slot (Milliseconds (interval c)) ts;
        start ← sentAt c !! idx;
        Some (Some (idx, if decide (start > 0) then Some (now - start) else None))
  end.

Definition OnMessage (p : Packet) (now : Z) (message : list Z) (c : Client) : option Client :=
  a ← answered p now message c;
  Some match a with
       | None => c
       | Some (idx, l) =>
           mkClient (interval c) (match l with Some l => Record_ (histogram c) l | None => histogram c end)
             (payload c) (<[idx := 0]> (sentAt c))
       end.

(** [Close]: the frame that ends the session. *)
Definition Close_frame (p : Packet) : list Z :=
  Marshal (mkPacket TypeClose (Encode p) (Size p) (Payload p) (header p)).

(** *** Creation *)

(** [strings.Replace(s, old, new, 1)]. *)
Fixpoint replace1 (old new : string) (s : string) : string :=
  if String.prefix old s
  then new +:+ String.substring (String.length old) (String.length s - String.length old) s
  else match s with String a s => String a (replace1 old new s) | EmptyString => EmptyString end.

Inductive client_error := PostFailed | StatusFailed (code : Z) | BadAnswer | DialFailed.

Section create.
Context {R : Type}.
Context (MarshalName : string → string) (Post : string → string → result unit (Z * R)).
Context (Decode : R → result unit string) (Dial : string → bool).

(** A client and the address of its socket. *)
Definition newClient (cfg : Config) : result client_error (Client * string) :=
  match Post (Target cfg +:+ "/sessions") (MarshalName (Workflow cfg)) with
  | Err _ => Err PostFailed
  | Ok (status, body) =>
      if decide (status < 200 ∨ 300 ≤ status) then Err (StatusFailed status)
      else match Decode body with
           | Err _ => Err BadAnswer
           | Ok id =>
               let wsURL := replace1 "http" "ws" (Target cfg) +:+ "/realtime/" +:+ id in
               if Dial wsURL then Ok (new_client (Interval cfg), wsURL) else Err DialFailed
           end
  end.
End create.

(** [bootstrap]: the users whose client could be made, in order. *)
Definition bootstrap (newClient : Z → result client_error Client) (users : Z) : list Client :=
  omap (λ i, match newClient i with Ok c => Some c | Err _ => None end) (seqZ 0 users).

(** ** Progress *)
Definition barLen : Z := 30.
Definition bar_filled (percent : float64) : Z :=
  let filled := int64_of_float64
    (float64_mul (float64_div percent (float64_of_int64 100)) (float64_of_int64 barLen)) in
  let filled := if decide (filled > barLen) then barLen else filled in
  if decide (filled < 0) then 0 else filled.
Definition renderBar {A} (percent : float64) (emptyChar fillChar : A) : list A :=
  replicate (Z.to_nat (bar_filled percent)) fillChar ++
  replicate (Z.to_nat (barLen - bar_filled percent)) emptyChar.

(** *** Runs of a client *)
Inductive event :=
| EvSend (p : Packet) (now : Z) (write_ok : bool)
| EvMessage (p : Packet) (now : Z) (message : list Z).

Definition client_step (c : Client) (ev : event) : option Client :=
  match ev with
  | EvSend p now ok => '(c, _) ← Send p now ok c; Some c
  | EvMessage p now m => OnMessage p now m c
  end.
Fixpoint client_run (c : Client) (evs : list event) : option Client :=
  match evs with [] => Some c | ev :: evs => c ← client_step c ev; client_run c evs end.

Fixpoint sends (evs : list event) : Z :=
  match evs with
  | [] => 0
  | EvSend _ _ _ :: evs => 1 + sends evs
  | EvMessage _ _ _ :: evs => sends evs
  end.

(** The latencies of a run, oldest first. *)
Definition measured1 (c : Client) (ev : event) : list Z :=
  match ev with
  | EvMessage p now m => match answered p now m c with Some (Some (_, Some l)) => [l] | _ => [] end
  | _ => []
  end.
Fixpoint measured (c : Client) (evs : list event) : list Z :=
  match evs with
  | [] => []
  | ev :: evs => measured1 c ev ++ match client_step c ev with Some c => measured c evs | None => [] end
  end.

(** ** Accounts of a client *)
Definition pending (c : Client) : Z := Z.of_nat (length (filter (λ t, 0 < t) (sentAt c))).

Record client_ok (c : Client) (ls : list Z) (n : Z) : Prop := {
  co_slots : length (sentAt c) = slots;
  co_holds : holds (histogram c) (reverse (clamp <$> ls));
  co_sent : sent (histogram c) = n;
  co_pending : Z.of_nat (length ls) + pending c ≤ n;
}.

Lemma pending_insert (l : list Z) (i : nat) x y :
  l !! i = Some x →
  Z.of_nat (length (filter (λ t, 0 < t) (<[i := y]> l))) + (if decide (0 < x) then 1 else 0) =
  Z.of_nat (length (filter (λ t, 0 < t) l)) + (if decide (0 < y) then 1 else 0).
Proof.
  intros Hx. rewrite insert_take_drop by (by eapply lookup_lt_Some).
  rewrite <-(take_drop_middle l i x Hx) at 3.
  rewrite !filter_app, !filter_cons, !length_app.
  destruct (decide (0 < x)), (decide (0 < y)); cbn [length]; lia.
Qed.

Lemma slot_lt ms ts i : slot ms ts = Some i → (i < slots)%nat.
Proof.
  unfold slot. case_decide; [done|]. case_decide as Hi; [|done]. intros [= <-].
  pose proof (Z.rem_bound_abs (Z.quot ts ms) (Z.of_nat slots) ltac:(done)).
  unfold slots in *. lia.
Qed.

Lemma client_ok_new interval : client_ok (new_client interval) [] 0.
Proof. split; [done|apply holds_new|done|]. vm_compute. by intros [=]. Qed.

Lemma client_ok_step c ls n ev c' :
  client_ok c ls n → n < few - 1 → client_step c ev = Some c' →
  client_ok c' (ls ++ measured1 c ev) (n + sends [ev]).
Proof.
  intros [Hs Hh Hn Hp] Hf Hstep.
  assert (0 ≤ n < few) as Hnf by (unfold pending in Hp; lia).
  destruct ev as [p now ok|p now m]; cbn [client_step measured1 sends] in *.
  - unfold Send in Hstep. destruct (slot _ now) as [i|] eqn:Hi; [|done]. simplify_eq/=.
    rewrite app_nil_r. apply slot_lt in Hi. destruct (lookup_lt_is_Some_2 (sentAt c) i) as [x Hx]; [lia|].
    pose proof (pending_insert _ i x now Hx) as Hpi. unfold pending in *.
    split; cbn [sentAt histogram pending].
    + by rewrite length_insert.
    + destruct Hh as [? ? ? ? ?]. by destruct ok; split.
    + destruct ok; cbn [sent add_sent add_error]; unfold few in *; rewrite int64_small; lia.
    + unfold pending. cbn [sentAt]. repeat case_decide; lia.
  - unfold OnMessage in Hstep. destruct (answered p now m c) as [[[i l]|]|] eqn:Ha; simplify_eq/=;
      rewrite Z.add_0_r; [|by rewrite app_nil_r].
    assert (sentAt c !! i = Some (default 0 (sentAt c !! i)) ∧
      (is_Some l → 0 < default 0 (sentAt c !! i))) as [Hx Hl].
    { unfold answered in Ha. destruct (Unmarshal p m) as [q [e|]]; [done|].
      case_decide; [done|]. case_decide; [done|]. destruct (slot _ _) as [j|] eqn:Hj; simplify_eq/=.
      destruct (sentAt c !! j) as [x|] eqn:Hx; simplify_eq/=. rewrite Hx. simpl. split; [done|].
      case_decide; [lia|]. by intros []. }
    pose proof (pending_insert _ i _ 0 Hx) as Hpi. rewrite (decide_False (P := 0 < 0)) in Hpi by lia.
    unfold pending in *.
    split; cbn [sentAt histogram].
    + by rewrite length_insert.
    + destruct l as [l|]; [|by rewrite app_nil_r].
      rewrite fmap_app, reverse_app. cbn. apply (Record_holds _ _ l) in Hh; [done|].
      rewrite length_reverse, length_fmap. lia.
    + destruct l; cbn [sent Record_]; lia.
    + unfold pending. cbn [sentAt]. rewrite length_app. destruct l as [l|]; cbn [length].
      * specialize (Hl ltac:(done)). rewrite decide_True in Hpi by done. lia.
      * case_decide; lia.
Qed.

Lemma sends_cons ev evs : sends (ev :: evs) = sends [ev] + sends evs.
Proof. by destruct ev. Qed.
Lemma sends_nonneg evs : 0 ≤ sends evs.
Proof. induction evs as [|[] evs IH]; simpl; lia. Qed.

Lemma client_ok_run c ls n evs c' :
  client_ok c ls n → n + sends evs < few - 1 → client_run c evs = Some c' →
  client_ok c' (ls ++ measured c evs) (n + sends evs).
Proof.
  revert c ls n. induction evs as [|ev evs IH]; intros c ls n Hok Hf Hr; simpl in Hr.
  { simplify_eq. cbn. by rewrite app_nil_r, Z.add_0_r. }
  rewrite sends_cons in Hf |- *. pose proof (sends_nonneg evs). pose proof (sends_nonneg [ev]).
  destruct (client_step c ev) as [c1|] eqn:Hst; [|done]. simpl in Hr.
  pose proof (client_ok_step _ _ _ _ _ Hok ltac:(lia) Hst) as Hok1.
  cbn [measured]. rewrite Hst, app_assoc, Z.add_assoc. apply IH; [done|lia|done].
Qed.

(** ** The report of a test *)
Section report.
Context (interval : Z).
Definition latencies (runs : list (list event)) : list Z :=
  concat ((λ evs, clamp <$> measured (new_client interval) evs) <$> runs).

Lemma sends_app e1 e2 : sends (e1 ++ e2) = sends e1 + sends e2.
Proof. induction e1 as [|[] e1 IH]; simpl; lia. Qed.

Lemma clients_ok runs cs :
  Forall2 (λ evs c, client_run (new_client interval) evs = Some c) runs cs →
  sends (concat runs) < few - 1 →
  Forall2 holds (histogram <$> cs) ((λ evs, clamp <$> measured (new_client interval) evs) <$> runs) ∧
  Forall (λ h, 0 ≤ sent h) (histogram <$> cs) ∧
  total (sent <$> (histogram <$> cs)) = sends (concat runs) ∧
  Z.of_nat (length (latencies runs)) ≤ sends (concat runs).
Proof.
  unfold latencies. induction 1 as [|evs c runs cs Hr _ IH]; intros Hf; [done|].
  cbn [concat] in *. rewrite sends_app in Hf |- *. rewrite !fmap_cons. cbn [concat].
  pose proof (sends_nonneg evs). pose proof (sends_nonneg (concat runs)).
  destruct IH as (IH1 & IH2 & IH3 & IH4); [lia|].
  destruct (client_ok_run _ _ 0 evs _ (client_ok_new interval) ltac:(lia) Hr) as [_ Hh Hs Hp].
  rewrite app_nil_l, Z.add_0_l in *.
  split; [constructor; [|done]; eapply holds_perm; [apply reverse_Permutation|done]|].
  split; [constructor; [lia|done]|]. split; [unfold total in *; cbn [foldr]; lia|].
  rewrite length_app, length_fmap. unfold pending in Hp. lia.
Qed.

(** The report of a load test is that of its packets.  Whatever the clients
    send and receive, in any order, the report counts every packet sent, and
    as received no more than were sent; the extremes, the average and the 95th
    and 99th percentile are those of the measured round trips: the percentiles
    are values that occurred, found at a rank between the first and the last,
    also in float64 arithmetic. *)
Theorem bench_report_exact cfg now runs cs r :
  Forall2 (λ evs c, client_run (new_client interval) evs = Some c) runs cs →
  sends (concat runs) < few - 1 → (finalize (histogram <$> cs) cfg now).1 = Some r →
  let ls := latencies runs in
  r_Sent r = sends (concat runs) ∧ r_Received r = Z.of_nat (length ls) ∧ 0 ≤ r_Received r ≤ r_Sent r ∧
  (ls ≠ [] →
     (∀ x, x ∈ ls → r_MinRTT r ≤ x ≤ r_MaxRTT r) ∧ r_MinRTT r ∈ ls ∧ r_MaxRTT r ∈ ls ∧
     r_AvgRTT r = total ls / Z.of_nat (length ls) ∧ r_MinRTT r ≤ r_AvgRTT r ≤ r_MaxRTT r ∧
     (∃ k, 1 ≤ k ≤ Z.of_nat (length ls) ∧ kth ls k (r_P95RTT r)) ∧
     (∃ k, 1 ≤ k ≤ Z.of_nat (length ls) ∧ kth ls k (r_P99RTT r))).
Proof.
  intros Hr Hf Hfin ls. destruct (clients_ok runs cs Hr Hf) as (Hh & Hs & Ht & Hl).
  pose proof (merged_sent _ Hs ltac:(lia)) as Hsent.
  pose proof (merged_holds _ _ Hh ltac:(fold (latencies runs); lia)) as Hm. fold (latencies runs) in Hm. fold ls in Hm, Hl.
  assert (r_Sent r = sends (concat runs) ∧ r_Received r = Z.of_nat (length ls)) as [E1 E2].
  { cbn [finalize fst] in Hfin. unfold printReport in Hfin. case_decide; [done|].
    destruct (extremes_loop _ _ _ _) as [a b]. simplify_eq. cbn.
    split; [lia|]. by rewrite (holds_received _ _ Hm). }
  split; [done|]. split; [done|]. split; [lia|]. intros Hne.
  destruct (report_spec _ ls _ cfg now r Hm ltac:(lia) Hne Hfin) as (_ & _ & _ & ? & ? & ? & ? & ? & ? & ?).
  tauto.
Qed.
End report.

(** ** A packet that comes back is measured *)
Lemma Uint64_PutUint64 v rest : 0 ≤ v < 2 ^ 64 → Uint64 (take 8 (PutUint64 v ++ rest)) = v.
Proof.
  intros Hv. unfold Uint64, PutUint64, nthb. cbn -[Uint32 Z.pow Z.mul Z.add].
  rewrite !Uint32_PutUint32. unfold uint32. rewrite Z.shiftr_div_pow2 by lia.
  rewrite (Z.mod_small (v / 2 ^ 32)) by (split; [apply Z.div_pos; lia|apply Z.div_lt_upper_bound; lia]).
  pose proof (Z.div_mod v (2 ^ 32) ltac:(done)). lia.
Qed.

(** The events of a run that do not use slot [i]. *)
Definition uses (c : Client) (ev : event) : option nat :=
  match ev with
  | EvSend _ now _ => slot (Milliseconds (interval c)) now
  | EvMessage p now m => match answered p now m c with Some (Some (j, _)) => Some j | _ => None end
  end.
Fixpoint avoids (c : Client) (i : nat) (evs : list event) : Prop :=
  match evs with
  | [] => True
  | ev :: evs => uses c ev ≠ Some i ∧ match client_step c ev with Some c => avoids c i evs | None => True end
  end.

Lemma step_keeps c ev c' i :
  client_step c ev = Some c' → uses c ev ≠ Some i →
  interval c' = interval c ∧ sentAt c' !! i = sentAt c !! i.
Proof.
  intros Hs Hu. destruct ev as [p now ok|p now m]; cbn [client_step uses] in *.
  - unfold Send in Hs. destruct (slot _ now) as [j|]; simplify_eq/=.
    by rewrite list_lookup_insert_ne by congruence.
  - unfold OnMessage in Hs. destruct (answered p now m c) as [[[j l]|]|]; simplify_eq/=; [|done].
    by rewrite list_lookup_insert_ne by congruence.
Qed.

Lemma run_keeps c evs c' i :
  client_run c evs = Some c' → avoids c i evs → interval c' = interval c ∧ sentAt c' !! i = sentAt c !! i.
Proof.
  revert c. induction evs as [|ev evs IH]; intros c Hr Ha; simpl in *; [by simplify_eq|].
  destruct Ha as [Hu Ha]. destruct (client_step c ev) as [c1|] eqn:Hst; [|done].
  destruct (step_keeps _ _ _ _ Hst Hu) as [<- <-]. by apply IH.
Qed.

(** A packet that comes back before its slot is used again is measured as its
    own round trip. *)
Lemma echo_is_measured p q c now ok c1 frame i evs c2 later :
  length (sentAt c) = slots → byte_ok (Encode p) → 0 < now < 2 ^ 63 → Z.of_nat (length (payload c)) < 2 ^ 31 →
  slot (Milliseconds (interval c)) now = Some i → Send p now ok c = Some (c1, frame) →
  client_run c1 evs = Some c2 → avoids c1 i evs →
  ∃ c3, OnMessage q later frame c2 = Some c3 ∧ histogram c3 = Record_ (histogram c2) (later - now) ∧
    sentAt c3 = <[i := 0]> (sentAt c2).
Proof.
  intros Hs He Hnow Hp Hi Hsend Hr Ha. unfold Send in Hsend. rewrite Hi in Hsend.
  assert (uint64 now = now) as Hu by (unfold uint64; rewrite Z.mod_small; lia). rewrite Hu in Hsend.
  remember (PutUint64 now ++ drop 8 (payload c)) as data eqn:Hdata.
  assert (8 ≤ Z.of_nat (length data) < 2 ^ 32) as [Hd8 Hd]
    by (subst data; rewrite length_app, length_drop; cbn [length PutUint64 app PutUint32]; lia).
  assert (Uint64 (take 8 data) = now) as Hts by (subst data; apply Uint64_PutUint64; lia). clear Hdata.
  cbn [mbind option_bind] in Hsend. injection Hsend as <- <-.
  destruct (run_keeps _ _ _ _ Hr Ha) as [Hint Hat]. cbn [interval sentAt] in Hint, Hat.
  rewrite list_lookup_insert_eq in Hat by (rewrite Hs; by eapply slot_lt).
  unfold OnMessage, answered. rewrite Marshal_SetPayload by (done || (unfold byte_ok; cbn; lia)). cbn [Type_ Encode].
  rewrite Unmarshal_wire, decide_True by done. cbv zeta.
  match goal with |- context [SetPayload ?pk data] =>
    pose proof (SetPayload_fields pk data) as (-> & _ & _); pose proof (SetPayload_contents pk data) as -> end.
  cbn [Type_]. rewrite decide_False by (intros Hn; by apply Hn). rewrite decide_False by lia.
  rewrite Hts, int64_small, Hint, Hi by lia. cbn [mbind option_bind].
  rewrite Hat. cbn [mbind option_bind]. rewrite decide_True by lia. cbn [mbind option_bind]. by eexists.
Qed.

(** ** The schedule *)

(** The clients of bucket [b]. *)
Definition bucket_clients {A} (clients : list A) (n b : nat) : list A :=
  let startIdx := (b * length clients / n)%nat in
  let endIdx := ((b + 1) * length clients / n)%nat in
  take (endIdx - startIdx) (drop startIdx clients).

(** Every client is in exactly one bucket, in the order of the clients. *)
Lemma buckets_partition {A} (clients : list A) (n : nat) :
  (0 < n)%nat → concat (bucket_clients clients n <$> seq 0 n) = clients.
Proof.
  intros Hn. enough (∀ k, (k ≤ n)%nat →
    concat (bucket_clients clients n <$> seq 0 k) = take (k * length clients / n) clients) as H.
  { rewrite H by done. rewrite Nat.mul_comm, Nat.div_mul by lia. by rewrite firstn_all. }
  induction k as [|k IH]; intros Hk; [by rewrite Nat.Div0.div_0_l|].
  rewrite seq_S, fmap_app, concat_app, IH by lia. cbn. rewrite app_nil_r. unfold bucket_clients.
  replace (k + 1)%nat with (S k) by lia.
  assert (k * length clients / n ≤ S k * length clients / n)%nat by (apply Nat.Div0.div_le_mono; lia).
  change (length clients + k * length clients)%nat with (S k * length clients)%nat.
  rewrite take_take_drop. f_equal. lia.
Qed.

(** Bucket [b] starts within the first interval. *)
Lemma bucket_offset_within b n interval :
  0 ≤ b < n → 0 ≤ interval → 0 ≤ b * Z.quot (Milliseconds interval) n ≤ Milliseconds interval.
Proof.
  intros Hb Hi. unfold Milliseconds, Millisecond. rewrite !Z.quot_div_nonneg by (try apply Z.quot_pos; lia).
  set (m := interval / 1000000). assert (0 ≤ m) by (apply Z.div_pos; lia).
  assert (0 ≤ m / n) by (apply Z.div_pos; lia).
  pose proof (Z.mul_div_le m n ltac:(lia)). nia.
Qed.

(** ** Configurations and progress *)
Lemma ValidateAndFill_ok ParseDuration c :
  let c' := ValidateAndFill ParseDuration c in
  0 < Users c' ∧ 0 < Buckets c' ∧ Target c' ≠ "" ∧ Workflow c' ≠ "" ∧
  ValidateAndFill ParseDuration c' = c'.
Proof.
  intros c'.
  assert (0 < Users c') as H1 by (unfold c', ValidateAndFill; cbn; case_decide; lia).
  assert (0 < Buckets c') as H2 by (unfold c', ValidateAndFill; cbn; case_decide; lia).
  assert (Target c' ≠ "") as H3 by (unfold c', ValidateAndFill; cbn; by case_decide).
  assert (Workflow c' ≠ "") as H4 by (unfold c', ValidateAndFill; cbn; by case_decide).
  split_and!; [done..|]. unfold ValidateAndFill at 1.
  rewrite (decide_False (P := Workflow c' = "")), (decide_False (P := Users c' ≤ 0)) by (done || lia).
  assert (Duration c' = match ParseDuration (RawDuration c') with Some d => d
    | None => if decide (Duration c' = 0) then Duration defaultConfig else Duration c' end) as <-
    by (unfold c', ValidateAndFill; cbn; destruct (ParseDuration (RawDuration c)); repeat case_decide; done).
  assert (Interval c' = match ParseDuration (RawInterval c') with Some d => d
    | None => if decide (Interval c' = 0) then Interval defaultConfig else Interval c' end) as <-
    by (unfold c', ValidateAndFill; cbn; destruct (ParseDuration (RawInterval c)); repeat case_decide; done).
  rewrite !decide_False by (done || lia). clearbody c'. by destruct c'.
Qed.

Lemma renderBar_length {A} percent (e f : A) : length (renderBar percent e f) = Z.to_nat barLen.
Proof.
  unfold renderBar. rewrite length_app, !length_replicate. unfold bar_filled, barLen. repeat case_decide; lia.
Qed.

(** ** Deviations *)

(** An interval below a millisecond, which a plan may name, has no slots: the
    first packet divides by zero. *)
Lemma short_interval_panics p now ok c : 0 ≤ interval c < Millisecond → Send p now ok c = None.
Proof.
  intros Hi. unfold Send, slot, Milliseconds. rewrite Z.quot_small by done. by rewrite decide_True.
Qed.

Definition demo_packet : Packet := new_packet.
Definition demo_frame (ts : Z) : list Z := wire TypeAudio 0 (PutUint64 ts ++ replicate 8 0).
Definition demo_client : Client := new_client (50 * Millisecond).

(** A time with its highest bit set, sent by the server, is a negative index. *)
Lemma negative_timestamp_panics :
  client_run demo_client [EvMessage demo_packet 1000 (demo_frame (2 ^ 63))] = None.
Proof. vm_compute. reflexivity. Qed.

(** Two packets within the same interval share a slot: when both come back,
    the first is measured by the time of the second and the second counts as
    lost. *)
Lemma jitter_counts_as_loss :
  measured demo_client
    [EvSend demo_packet 1000 true; EvSend demo_packet 1049 true;
     EvMessage demo_packet 1060 (demo_frame 1000); EvMessage demo_packet 1061 (demo_frame 1049)] = [11].
Proof. vm_compute. reflexivity. Qed.

(** ** Witness *)
Definition demo_run : list event :=
  [EvSend demo_packet 1000 true; EvSend demo_packet 1050 true; EvMessage demo_packet 1062 (demo_frame 1050);
   EvMessage demo_packet 1069 (demo_frame 1000); EvSend demo_packet 1100 false].

Lemma bench_report_exact_witness :
  ∃ c r, client_run demo_client demo_run = Some c ∧ (finalize [histogram c] defaultConfig 0).1 = Some r ∧
    r_Sent r = 3 ∧ r_Received r = 2 ∧ r_AvgRTT r = 40 ∧ r_MaxRTT r ∈ [12; 69].
Proof.
  destruct (client_run demo_client demo_run) as [c|] eqn:Hc;
    [|assert (match client_run demo_client demo_run with Some _ => true | None => false end = true) as Hb
        by (vm_compute; reflexivity); rewrite Hc in Hb; discriminate Hb].
  destruct ((finalize [histogram c] defaultConfig 0).1) as [r|] eqn:Hr;
    [|assert (match (c ← client_run demo_client demo_run; (finalize [histogram c] defaultConfig 0).1) with Some _ => true | None => false end = true) as Hb
        by (vm_compute; reflexivity); rewrite Hc in Hb; cbn [mbind option_bind] in Hb; rewrite Hr in Hb; discriminate Hb].
  exists c, r. split; [reflexivity|]. split; [exact Hr|].
  assert (latencies (50 * Millisecond) [demo_run] = [12; 69]) as Hl by (vm_compute; reflexivity).
  destruct (bench_report_exact (50 * Millisecond) defaultConfig 0 [demo_run] [c] r) as (H1 & H2 & _ & H3).
  - constructor; [exact Hc|constructor].
  - vm_compute. reflexivity.
  - exact Hr.
  - rewrite Hl in H2, H3. destruct (H3 ltac:(discriminate)) as (_ & _ & Hm & Ha & _).
    split; [exact H1|]. split; [exact H2|]. split; [exact Ha|exact Hm].
Defined.
