(* ===== verification/GenPlugins.v ===== *)
(** * The plugin generator: internal/tools/genplugins/main.go

    The tool finds the module of the working directory, looks for packages
    that call [engine.RegisterPlugin], and writes a file that imports them,
    so that their init functions run.  The file system is an argument, and so
    is the parser of Go files: it gives the syntax tree the tool walks. *)

From S2P Require Import Prelude.
From S2P Require Import GoStrings.

#[local] Set Warnings "-register-all".

(** ** Files *)

(** The components of a path, the last one first; [[]] is the root. *)
Definition path : Type := list string.
Definition Join (dir : path) (name : string) : path := name :: dir.

Inductive os_error := ErrNotExist | OsFailed.
Inductive gen_error :=
| EOs (e : os_error) | EParse | EModulePath | EGoMod (start : path) | EFormat.

#[export] Instance os_error_eq_dec : EqDecision os_error.
Proof. solve_decision. Defined.

(** [filepath.Rel] and [ToSlash] for a directory below the root. *)
Fixpoint join_slash (xs : list string) : string :=
  match xs with
  | [] => ""
  | [x] => x
  | x :: xs => x +:+ "/" +:+ join_slash xs
  end.
Definition Rel (repoRoot dir : path) : string :=
  join_slash (reverse (take (length dir - length repoRoot) dir)).

(** ** go.mod *)
Fixpoint split_lines (cur s : list ascii) : list (list ascii) :=
  match s with
  | [] => [reverse cur]
  | c :: s => if decide (c = "010"%char) then reverse cur :: split_lines [] s else split_lines (c :: cur) s
  end.

(** [strings.Fields]: each round takes a space or a byte. *)
Fixpoint fields_loop (fuel : nat) (cur s : list ascii) : list (list ascii) :=
  let flush := match cur with [] => [] | _ => [reverse cur] end in
  match fuel, s with
  | O, _ | _, [] => flush
  | S fuel, c :: s' =>
      match strip_one white_space s with
      | Some s => flush ++ fields_loop fuel [] s
      | None => fields_loop fuel (c :: cur) s'
      end
  end.
Definition Fields (s : list ascii) : list string :=
  String.string_of_list_ascii <$> fields_loop (length s) [] s.

Fixpoint module_of (lines : list (list ascii)) : result gen_error string :=
  match lines with
  | [] => Err EModulePath
  | line :: lines =>
      match Fields line with
      | first :: second :: _ => if decide (first = "module") then Ok second else module_of lines
      | _ => module_of lines
      end
  end.
Definition parseModulePath (goMod : string) : result gen_error string :=
  module_of (split_lines [] (String.list_ascii_of_string goMod)).

(** ** Syntax trees: the nodes the tool distinguishes *)
Inductive node :=
| CallExpr (fn : node) (arguments : list node)
| IndexExpr (x index : node)
| IndexListExpr (x : node) (indices : list node)
| SelectorExpr (x : node) (sel : string)
| Ident (name : string)
| Other (children : list node).

Definition children (n : node) : list node :=
  match n with
  | CallExpr f l => f :: l
  | IndexExpr x i => [x; i]
  | IndexListExpr x l => x :: l
  | SelectorExpr x _ => [x]
  | Ident _ => []
  | Other l => l
  end.

(** The test of the visitor: a call of [engine.RegisterPlugin], with or
    without type arguments. *)
Definition is_registration (n : node) : bool :=
  match n with
  | CallExpr f _ =>
      let f := match f with IndexExpr x _ => x | _ => f end in
      let f := match f with IndexListExpr x _ => x | _ => f end in
      match f with
      | SelectorExpr (Ident name) sel => bool_decide (sel = "RegisterPlugin" ∧ name = "engine")
      | _ => false
      end
  | _ => false
  end.

(** [ast.Inspect] with the visitor: the state is [found]; a node's children
    are visited unless the visitor returned false. *)
Fixpoint inspect (found : bool) (n : node) : bool :=
  let fix inspect_all (found : bool) (l : list node) : bool :=
    match l with [] => found | n :: l => inspect_all (inspect found n) l end in
  if found then true
  else if is_registration n then true
  else match n with
       | CallExpr f l => inspect_all (inspect false f) l
       | IndexExpr x i => inspect (inspect false x) i
       | IndexListExpr x l => inspect_all (inspect false x) l
       | SelectorExpr x _ => inspect false x
       | Ident _ => false
       | Other l => inspect_all false l
       end.

Fixpoint inspect_list (found : bool) (l : list node) : bool :=
  match l with [] => found | n :: l => inspect_list (inspect found n) l end.

(** [m] occurs in [n]. *)
Inductive occurs (m : node) : node → Prop :=
| occurs_here : occurs m m
| occurs_below n c : c ∈ children n → occurs m c → occurs m n.

Lemma node_children_ind (P : node → Prop) :
  (∀ n, (∀ c, c ∈ children n → P c) → P n) → ∀ n, P n.
Proof.
  intros H. fix IH 1. intros n.
  assert (∀ l : list node, Forall P l → ∀ c, c ∈ l → P c) as Hf by (intros l Hl c; by apply Forall_forall).
  apply H, Hf.
  destruct n as [f l|x i|x l|x s|s|l]; simpl.
  1,3: constructor; [apply IH|]; induction l as [|y l IHl]; constructor; [apply IH|exact IHl].
  - constructor; [apply IH|]. constructor; [apply IH|constructor].
  - constructor; [apply IH|constructor].
  - constructor.
  - induction l as [|y l IHl]; constructor; [apply IH|exact IHl].
Qed.

(** ** Packages *)
Section tool.
Context (ReadFile : path → result os_error string).
Context (ReadDir : path → result os_error (list (string * bool))).  (* name, is a directory *)
Context (ParseFile : path → result unit node).

Fixpoint findModule_from (start dir : path) : result gen_error (path * string) :=
  match ReadFile (Join dir "go.mod") with
  | Ok data => let? modulePath := parseModulePath data in Ok (dir, modulePath)
  | Err e =>
      if decide (e ≠ ErrNotExist) then Err (EOs e)
      else match dir with [] => Err (EGoMod start) | _ :: parent => findModule_from start parent end
  end.
Definition findModule (start : path) : result gen_error (path * string) := findModule_from start start.

Definition HasSuffix (s suf : string) : bool :=
  bool_decide (String.list_ascii_of_string suf `suffix_of` String.list_ascii_of_string s).

Definition fileContainsPluginRegistration (file : path) : result gen_error bool :=
  match ParseFile file with
  | Err _ => Err EParse
  | Ok root => Ok (inspect false root)
  end.

(** The files that are read: Go sources that are not tests. *)
Definition is_source (entry : string * bool) : bool :=
  negb (entry.2 || negb (HasSuffix entry.1 ".go") || HasSuffix entry.1 "_test.go").

Fixpoint any_registration (dir : path) (entries : list (string * bool)) : result gen_error bool :=
  match entries with
  | [] => Ok false
  | entry :: entries =>
      if negb (is_source entry) then any_registration dir entries
      else let? ok := fileContainsPluginRegistration (Join dir entry.1) in
           if (ok : bool) then Ok true else any_registration dir entries
  end.
Definition containsPluginRegistration (dir : path) : result gen_error bool :=
  let? entries := rmap_err EOs (ReadDir dir) in any_registration dir entries.

Definition is_package (entry : string * bool) : bool :=
  negb (negb entry.2 || String.prefix "." entry.1 || String.prefix "_" entry.1).

Definition import_path (repoRoot : path) (modulePath : string) (pluginsDir : path) (name : string) : string :=
  modulePath +:+ "/" +:+ Rel repoRoot (Join pluginsDir name).

Definition add_import (repoRoot : path) (modulePath : string) (pluginsDir : path)
    (imports : list string) (entry : string * bool) : result gen_error (list string) :=
  if negb (is_package entry) then Ok imports
  else let? ok := containsPluginRegistration (Join pluginsDir entry.1) in
       Ok (if (ok : bool) then imports ++ [import_path repoRoot modulePath pluginsDir entry.1] else imports).

Definition registeredPluginImports (repoRoot : path) (modulePath : string) (pluginsDir : path)
    : result gen_error (list string) :=
  let? entries := rmap_err EOs (ReadDir pluginsDir) in
  let? imports := range_fold (add_import repoRoot modulePath pluginsDir) [] entries in
  Ok (sort_Strings imports).

(** ** The generated file *)
Definition newline : string := String "010"%char "".
Definition quote : string := String "034"%char "".
Definition tab : string := String "009"%char "".

(** [%q] of a path without quotes, backslashes and control characters. *)
Definition import_line (importPath : string) : string :=
  tab +:+ "_ " +:+ quote +:+ importPath +:+ quote +:+ newline.
Definition generated (imports : list string) : string :=
  "// Code generated by go generate; DO NOT EDIT." +:+ newline +:+ newline +:+
  "package plugins" +:+ newline +:+ newline +:+ "import (" +:+ newline +:+
  foldr (λ i s, import_line i +:+ s) "" imports +:+ ")" +:+ newline.

(** [run]: the file that is written. *)
Definition run (format_Source : string → option string) (pluginsDir : path) : result gen_error (path * string) :=
  let? found := findModule pluginsDir in
  let '(repoRoot, modulePath) := found in
  let? imports := registeredPluginImports repoRoot modulePath pluginsDir in
  match format_Source (generated imports) with
  | None => Err EFormat
  | Some formatted => Ok (Join pluginsDir "init_gen.go", formatted)
  end.

(** ** The walk finds a registration anywhere in the file *)
Lemma inspect_true n : inspect true n = true.
Proof. by destruct n. Qed.

Lemma inspect_list_true l : inspect_list true l = true.
Proof. induction l as [|n l IH]; simpl; [done|]. by rewrite inspect_true. Qed.

Lemma inspect_eq n :
  inspect false n = if is_registration n then true else inspect_list false (children n).
Proof.
  assert (∀ l b, (fix inspect_all (found : bool) (l : list node) : bool :=
    match l with [] => found | n :: l => inspect_all (inspect found n) l end) b l = inspect_list b l) as Hl
    by (induction l as [|m l IH]; intros b; simpl; [done|apply IH]).
  destruct n; cbn -[is_registration]; rewrite ?Hl; done.
Qed.

Lemma inspect_list_spec l : inspect_list false l = true ↔ ∃ n, n ∈ l ∧ inspect false n = true.
Proof.
  induction l as [|n l IH]; simpl; [set_solver|].
  destruct (inspect false n) eqn:E.
  - rewrite inspect_list_true. split; [intros _; exists n; split; [left|done]|done].
  - rewrite IH. split; [intros (m & ? & ?); exists m; split; [by right|done]|].
    intros (m & [->|Hm]%elem_of_cons & ?); [congruence|by exists m].
Qed.

Lemma inspect_spec n : inspect false n = true ↔ ∃ m, occurs m n ∧ is_registration m = true.
Proof.
  split.
  - induction n as [n IH] using node_children_ind. rewrite inspect_eq.
    destruct (is_registration n) eqn:E; [by exists n; split; [constructor|]|].
    intros (c & Hc & Hi)%inspect_list_spec. destruct (IH c Hc Hi) as (m & Hm & ?).
    exists m. split; [by econstructor|done].
  - intros (m & Hm & Hr). induction Hm as [|n c Hc _ IH]; rewrite inspect_eq.
    + by rewrite Hr.
    + destruct (is_registration n); [done|]. apply inspect_list_spec. by exists c.
Qed.

(** A package registers a plugin: one of its sources does. *)
Definition registers (dir : path) : Prop :=
  ∃ entries file root m, ReadDir dir = Ok entries ∧ (file, false) ∈ entries ∧ is_source (file, false) = true ∧
    ParseFile (Join dir file) = Ok root ∧ occurs m root ∧ is_registration m = true.

Lemma any_registration_spec dir entries b :
  any_registration dir entries = Ok b →
  (b = true ↔ ∃ file root, (file, false) ∈ entries ∧ is_source (file, false) = true ∧
     ParseFile (Join dir file) = Ok root ∧ inspect false root = true).
Proof.
  revert b. induction entries as [|[file d] entries IH]; intros b; simpl.
  { intros [= <-]. split; [done|]. intros (? & ? & H & _). by apply not_elem_of_nil in H. }
  destruct (is_source (file, d)) eqn:Hs; simpl.
  - assert (d = false) as -> by (unfold is_source in Hs; by destruct d).
    unfold fileContainsPluginRegistration. destruct (ParseFile (Join dir file)) as [root|] eqn:Hp; [|done]. simpl.
    destruct (inspect false root) eqn:Hi.
    + intros [= <-]. split; [|done]. intros _. exists file, root. split; [left|done].
    + intros ->%IH. split.
      * intros (f & r & Hf & ?). exists f, r. split; [by right|done].
      * intros (f & r & [?|Hf]%elem_of_cons & ? & Hpf & ?); [simplify_eq; congruence|]. by exists f, r.
  - intros ->%IH. split.
    + intros (f & r & Hf & ?). exists f, r. split; [by right|done].
    + intros (f & r & [?|Hf]%elem_of_cons & ? & ?); [simplify_eq; congruence|]. by exists f, r.
Qed.

Lemma contains_spec dir b :
  containsPluginRegistration dir = Ok b → (b = true ↔ registers dir).
Proof.
  unfold containsPluginRegistration, registers. destruct (ReadDir dir) as [entries|]; [|done]. simpl.
  intros ->%any_registration_spec. split.
  - intros (f & r & ? & ? & ? & (m & ? & ?)%inspect_spec). by exists entries, f, r, m.
  - intros (es & f & r & m & [= <-] & ? & ? & ? & ? & ?). exists f, r. split_and!; try done.
    apply inspect_spec. by exists m.
Qed.

(** The packages among the entries of the plugin directory. *)
Definition plugin_package (pluginsDir : path) (entries : list (string * bool)) (name : string) : Prop :=
  (name, true) ∈ entries ∧ is_package (name, true) = true ∧ registers (Join pluginsDir name).

Lemma add_imports_spec repoRoot modulePath pluginsDir entries acc imports :
  range_fold (add_import repoRoot modulePath pluginsDir) acc entries = Ok imports →
  ∃ ns, imports = acc ++ (import_path repoRoot modulePath pluginsDir <$> ns) ∧ ns `sublist_of` entries.*1 ∧
    ∀ n, n ∈ ns ↔ plugin_package pluginsDir entries n.
Proof.
  unfold plugin_package. revert acc. induction entries as [|[name d] entries IH]; intros acc; cbn [range_fold].
  { intros [= <-]. exists []. split; [by rewrite app_nil_r|]. split; [done|]. set_solver. }
  unfold add_import at 1. destruct (is_package (name, d)) eqn:Hp; cbn [negb].
  - assert (d = true) as -> by (unfold is_package in Hp; by destruct d).
    cbn [fst]. destruct (containsPluginRegistration (Join pluginsDir name)) as [b|] eqn:Hc; [|done]. cbn [rbind].
    apply contains_spec in Hc. intros (ns & -> & Hsub & Hns)%IH. destruct b.
    + exists (name :: ns). split; [by rewrite fmap_cons, <-app_assoc|]. split; [by apply sublist_skip|].
      intros n. rewrite elem_of_cons, Hns, elem_of_cons. naive_solver.
    + exists ns. split; [done|]. split; [by apply sublist_cons|]. intros n. rewrite Hns, elem_of_cons.
      split; [naive_solver|]. intros ([[= ->]|?] & ? & Hr); [by apply Hc in Hr|done || by split_and!].
  - cbn [rbind]. intros (ns & -> & Hsub & Hns)%IH. exists ns. split; [done|]. split; [by apply sublist_cons|].
    intros n. rewrite Hns, elem_of_cons. split; [naive_solver|]. intros ([[= -> <-]|?] & ? & ?); [congruence|by split_and!].
Qed.

(** The generated imports are exactly the packages that register a plugin,
    each once, in the order of their paths. *)
Theorem imports_exact repoRoot modulePath pluginsDir entries imports :
  ReadDir pluginsDir = Ok entries → NoDup entries.*1 →
  registeredPluginImports repoRoot modulePath pluginsDir = Ok imports →
  Sorted String.le imports ∧
  ∃ ns, imports ≡ₚ import_path repoRoot modulePath pluginsDir <$> ns ∧ NoDup ns ∧
    ∀ n, n ∈ ns ↔ plugin_package pluginsDir entries n.
Proof.
  intros Hd Hnd. unfold registeredPluginImports. rewrite Hd. cbn [rmap_err rbind].
  destruct (range_fold _ _ _) as [xs|] eqn:Hf; [|done]. intros [= <-].
  split; [apply sort_Strings_sorted|].
  destruct (add_imports_spec _ _ _ _ _ _ Hf) as (ns & -> & Hsub & Hns).
  exists ns. split; [by rewrite sort_Strings_perm|]. split; [|done].
  by eapply sublist_NoDup.
Qed.

(** The module is that of the nearest directory with a go.mod, and the search
    ends at the root. *)
Lemma findModule_nearest start dir root modulePath :
  findModule_from start dir = Ok (root, modulePath) →
  root `suffix_of` dir ∧ (∃ data, ReadFile (Join root "go.mod") = Ok data ∧ parseModulePath data = Ok modulePath) ∧
  ∀ d, d `suffix_of` dir → length root < length d → ReadFile (Join d "go.mod") = Err ErrNotExist.
Proof.
  assert (∀ dir data m, parseModulePath data = Ok m → ReadFile (Join dir "go.mod") = Ok data →
    dir `suffix_of` dir ∧ (∃ data, ReadFile (Join dir "go.mod") = Ok data ∧ parseModulePath data = Ok m) ∧
    ∀ d, d `suffix_of` dir → length dir < length d → ReadFile (Join d "go.mod") = Err ErrNotExist) as Hhere.
  { intros d data m Hm Hr. split; [done|]. split; [by exists data|]. intros d' Hd%suffix_length Hl. lia. }
  induction dir as [|c dir IH]; cbn [findModule_from].
  - destruct (ReadFile (Join [] "go.mod")) as [data|e] eqn:Hr.
    + destruct (parseModulePath data) as [m|] eqn:Hm; [|done]. intros [= <- <-]. by eapply Hhere.
    + by case_decide.
  - destruct (ReadFile (Join (c :: dir) "go.mod")) as [data|e] eqn:Hr.
    + destruct (parseModulePath data) as [m|] eqn:Hm; [|done]. intros [= <- <-]. by eapply Hhere.
    + destruct (decide (e ≠ ErrNotExist)) as [|He]; [done|]. intros H. destruct (IH H) as (Hs & Hdata & Hn).
      split; [by apply suffix_cons_r|]. split; [done|]. intros d Hd Hl.
      destruct (decide (d = c :: dir)) as [->|Hne].
      * rewrite Hr. f_equal. by apply dec_stable.
      * apply Hn; [|done]. destruct Hd as [[|x k] Hk]; simplify_eq/=; by exists k.
Qed.
End tool.

(** ** The plugins of the repository *)
Definition repo_packages : list string :=
  ["base"; "benchmark"; "caption"; "deepgram_asr"; "elevenlabs_tts"; "google_asr"; "interrupter"; "md_filter";
   "minimax_tts"; "mllm"; "openai_llm"; "openai_tts"; "qwen_asr"; "sink"; "ten_vad"].

Definition plugins_dir : path := ["plugins"; "internal"; "voce"].
Definition repo_ReadDir (p : path) : result os_error (list (string * bool)) :=
  if decide (p = plugins_dir) then Ok (((λ n, (n, true)) <$> repo_packages) ++ [("init.go", false); ("init_gen.go", false)])
  else if decide (p = Join plugins_dir "base") then Ok [("asr", true); ("llm", true); ("tts", true)]
  else Ok [("plugin.go", false); ("plugin_test.go", false)].
Definition repo_ReadFile (p : path) : result os_error string :=
  if decide (p = ["go.mod"; "voce"]) then Ok ("module github.com/wnnce/voce" +:+ newline +:+ newline +:+ "go 1.27.0")
  else Err ErrNotExist.

(** [func init() { engine.RegisterPlugin[T](NewPlugin, ...) }]. *)
Definition repo_ParseFile (p : path) : result unit node :=
  Ok (Other [Ident "init"; Other [CallExpr (IndexExpr (SelectorExpr (Ident "engine") "RegisterPlugin") (Ident "T")) [Ident "NewPlugin"]]]).

(** The tool generates the imports the repository has: every package but
    [base], whose sources are in directories of their own. *)
Example repo_imports :
  (let? found := findModule repo_ReadFile plugins_dir in
   registeredPluginImports repo_ReadDir repo_ParseFile found.1 found.2 plugins_dir) =
  Ok ((λ n, "github.com/wnnce/voce/internal/plugins/" +:+ n) <$> filter (λ n, n ≠ "base") repo_packages).
Proof. vm_compute. reflexivity. Qed.
