(* ===== verification/GoNet.v ===== *)
(** * Numbers in texts, network addresses and HTTP headers

    What the code uses of strconv ([Itoa], [Atoi]), net ([SplitHostPort],
    [ParseIP], [IsLoopback]) and net/http ([Header] with its canonical
    keys), on strings as byte sequences. *)

From S2P Require Import Prelude.
From S2P Require Import GoStrings.
From S2P Require Import Utf8.
From S2P Require Import UrlQuery.

Local Open Scope Z_scope.

(** ** strconv *)
Fixpoint utoa (fuel : nat) (n : Z) (rest : list Z) : list Z :=
  match fuel with
  | O => rest
  | S fuel => if decide (n < 10) then (48 + n) :: rest else utoa fuel (n / 10) ((48 + n mod 10) :: rest)
  end.

(** Twenty digits hold every 64-bit number. *)
Definition Itoa_bytes (z : Z) : list Z :=
  if decide (z < 0) then 45 :: utoa 20 (- z) [] else utoa 20 z [].
Definition Itoa (z : Z) : string := string_of_bytes (Itoa_bytes z).

Definition is_digit (c : Z) : Prop := 48 ≤ c ≤ 57.
#[export] Instance is_digit_dec c : Decision (is_digit c).
Proof. unfold is_digit. apply _. Defined.

Definition digit_step (a c : Z) : Z := a * 10 + (c - 48).
Definition unsigned (ds : list Z) : option Z :=
  if decide (ds ≠ [] ∧ Forall is_digit ds) then Some (foldl digit_step 0 ds) else None.
Definition int64_range (z : Z) : option Z := if decide (- 2 ^ 63 ≤ z < 2 ^ 63) then Some z else None.

(** [Atoi]: a sign, digits, and the range of a 64-bit int. *)
Definition Atoi_bytes (bs : list Z) : option Z :=
  match bs with
  | [] => None
  | c :: ds =>
      if decide (c = 45) then n ← unsigned ds; int64_range (- n)
      else if decide (c = 43) then unsigned ds ≫= int64_range
      else unsigned bs ≫= int64_range
  end.
Definition Atoi (s : string) : option Z := Atoi_bytes (bytes_of_string s).

Lemma utoa_value fuel n rest a :
  0 ≤ n < 10 ^ Z.of_nat fuel → a = 0 → foldl digit_step a (utoa fuel n rest) = foldl digit_step n rest.
Proof.
  revert n rest. induction fuel as [|fuel IH]; intros n rest Hn ->; simpl.
  { replace n with 0 by lia. done. }
  rewrite Nat2Z.inj_succ, Z.pow_succ_r in Hn by lia. case_decide.
  - simpl. unfold digit_step at 2. by replace (0 * 10 + (48 + n - 48)) with n by lia.
  - rewrite IH; [|Z.to_euclidean_division_equations; lia|done]. simpl. unfold digit_step at 2.
    f_equal. Z.to_euclidean_division_equations; lia.
Qed.

Lemma utoa_digits fuel n rest :
  0 ≤ n < 10 ^ Z.of_nat fuel → Forall is_digit rest → Forall is_digit (utoa fuel n rest).
Proof.
  revert n rest. induction fuel as [|fuel IH]; intros n rest Hn Hr; simpl; [done|].
  rewrite Nat2Z.inj_succ, Z.pow_succ_r in Hn by lia. unfold is_digit in *.
  case_decide; [constructor; [lia|done]|].
  apply IH; [Z.to_euclidean_division_equations; lia|]. constructor; [|done].
  Z.to_euclidean_division_equations; lia.
Qed.

Lemma utoa_nonempty fuel n rest : fuel ≠ O → utoa fuel n rest ≠ [].
Proof.
  revert n rest. induction fuel as [|fuel IH]; intros n rest Hf; simpl; [done|].
  case_decide; [done|]. destruct fuel; [done|by apply IH].
Qed.

Lemma unsigned_utoa n : 0 ≤ n < 10 ^ 20 → unsigned (utoa 20 n []) = Some n.
Proof.
  intros Hn. unfold unsigned. rewrite decide_True.
  - f_equal. change n with (foldl digit_step n []) at 2. by apply (utoa_value 20).
  - split; [by apply utoa_nonempty|]. apply (utoa_digits 20); [done|constructor].
Qed.

Lemma digit_byte c : is_digit c → is_byte c.
Proof. unfold is_digit, is_byte. lia. Qed.

Lemma Itoa_bytes_are z : - 2 ^ 63 ≤ z < 2 ^ 63 → Forall is_byte (Itoa_bytes z).
Proof.
  intros Hz. unfold Itoa_bytes. case_decide.
  - constructor; [unfold is_byte; lia|]. eapply Forall_impl; [apply (utoa_digits 20); [lia|constructor]|apply digit_byte].
  - eapply Forall_impl; [apply (utoa_digits 20); [lia|constructor]|apply digit_byte].
Qed.

(** What [Itoa] prints [Atoi] reads back. *)
Lemma Atoi_Itoa z : - 2 ^ 63 ≤ z < 2 ^ 63 → Atoi (Itoa z) = Some z.
Proof.
  intros Hz. unfold Atoi, Itoa. rewrite bytes_string_bytes by by apply Itoa_bytes_are.
  unfold Itoa_bytes. case_decide as Hneg.
  - cbn [Atoi_bytes]. rewrite decide_True by done. rewrite unsigned_utoa by lia. cbn [mbind option_bind].
    unfold int64_range. rewrite decide_True by lia. f_equal. lia.
  - pose proof (utoa_digits 20 z []) as Hd. pose proof (utoa_nonempty 20 z []) as Hn.
    pose proof (unsigned_utoa z) as Hu. destruct (utoa 20 z []) as [|c ds]; [by destruct Hn|].
    assert (is_digit c) as Hc by (apply (Forall_inv (l := ds)), Hd; [lia|constructor]). unfold is_digit in Hc.
    unfold Atoi_bytes. rewrite !decide_False by lia. rewrite Hu by lia. cbn [mbind option_bind].
    unfold int64_range. by rewrite decide_True by lia.
Qed.

(** ** http.Header *)
Abbreviation HeaderMap := (gmap string (list string)).

Definition header_byte (c : Z) : bool :=
  bool_decide (is_digit c ∨ 65 ≤ c ≤ 90 ∨ 97 ≤ c ≤ 122
    ∨ c ∈ [33; 35; 36; 37; 38; 39; 42; 43; 45; 46; 94; 95; 96; 124; 126]).
Fixpoint canonical_bytes (upper : bool) (bs : list Z) : list Z :=
  match bs with
  | [] => []
  | c :: bs =>
      let c := if upper then (if decide (97 ≤ c ≤ 122) then c - 32 else c)
               else (if decide (65 ≤ c ≤ 90) then c + 32 else c) in
      c :: canonical_bytes (bool_decide (c = 45)) bs
  end.
Definition CanonicalHeaderKey (k : string) : string :=
  let bs := bytes_of_string k in
  if forallb header_byte bs then string_of_bytes (canonical_bytes true bs) else k.

Definition Header_Get (h : HeaderMap) (k : string) : string :=
  default "" (h !! CanonicalHeaderKey k ≫= head).
Definition Header_Add (k v : string) (h : HeaderMap) : HeaderMap :=
  let k := CanonicalHeaderKey k in <[k := default [] (h !! k) ++ [v]]> h.

(** ** net.SplitHostPort *)
Inductive addr_error := MissingPort | TooManyColons | MissingBracket | UnexpectedBracket.
#[export] Instance addr_error_dec : EqDecision addr_error.
Proof. solve_decision. Defined.

Definition colon : Z := 58.
Definition lbracket : Z := 91.
Definition rbracket : Z := 93.

Fixpoint index_byte (c : Z) (bs : list Z) : option nat :=
  match bs with
  | [] => None
  | b :: bs => if decide (b = c) then Some O else S <$> index_byte c bs
  end.
Fixpoint last_index_byte (c : Z) (bs : list Z) : option nat :=
  match bs with
  | [] => None
  | b :: bs => match last_index_byte c bs with
               | Some i => Some (S i)
               | None => if decide (b = c) then Some O else None
               end
  end.

(** Host and port, with the checks for brackets on the part from [j] and
    the part from [k]. *)
Definition split_checked (hostport host : list Z) (i j k : nat) : result addr_error (list Z * list Z) :=
  if decide (lbracket ∈ drop j hostport) then Err UnexpectedBracket
  else if decide (rbracket ∈ drop k hostport) then Err UnexpectedBracket
  else Ok (host, drop (S i) hostport).

Definition SplitHostPort_bytes (hostport : list Z) : result addr_error (list Z * list Z) :=
  match last_index_byte colon hostport with
  | None => Err MissingPort
  | Some i =>
      if decide (head hostport = Some lbracket) then
        match index_byte rbracket hostport with
        | None => Err MissingBracket
        | Some e =>
            if decide (S e = length hostport) then Err MissingPort
            else if decide (S e = i) then split_checked hostport (take (e - 1) (drop 1 hostport)) i 1 (S e)
            else if decide (hostport !! S e = Some colon) then Err TooManyColons else Err MissingPort
        end
      else
        let host := take i hostport in
        if decide (colon ∈ host) then Err TooManyColons else split_checked hostport host i 0 0
  end.
Definition SplitHostPort (s : string) : result addr_error (string * string) :=
  let? r := SplitHostPort_bytes (bytes_of_string s) in Ok (string_of_bytes r.1, string_of_bytes r.2).

Lemma last_index_byte_app c l r : c ∉ r → last_index_byte c (l ++ c :: r) = Some (length l).
Proof.
  intros Hr. assert (last_index_byte c r = None) as Hn.
  { clear -Hr. induction r as [|b r IH]; [done|]. simpl. rewrite IH by set_solver.
    rewrite decide_False by set_solver. done. }
  induction l as [|b l IH]; simpl; [by rewrite Hn, decide_True|by rewrite IH].
Qed.

(** An address without colons or brackets in its host is split where it was
    joined; a host with a colon cannot be dialled this way. *)
Lemma SplitHostPort_join host port :
  colon ∉ port → lbracket ∉ host ++ port → rbracket ∉ host ++ port →
  SplitHostPort_bytes (host ++ colon :: port) =
  if decide (colon ∈ host) then Err TooManyColons else Ok (host, port).
Proof.
  intros Hp Hl Hr. unfold SplitHostPort_bytes. rewrite last_index_byte_app by done.
  rewrite decide_False.
  2:{ destruct host as [|b host]; simpl; [done|]. intros [= ->]. set_solver. }
  rewrite take_app_length. case_decide as Hc; [done|]. unfold split_checked. rewrite !drop_0.
  rewrite elem_of_app in Hl, Hr.
  rewrite (decide_False (P := lbracket ∈ _)) by (rewrite elem_of_app, elem_of_cons; naive_solver).
  rewrite (decide_False (P := rbracket ∈ _)) by (rewrite elem_of_app, elem_of_cons; naive_solver).
  change (host ++ colon :: port) with (host ++ [colon] ++ port).
  rewrite app_assoc, drop_app_length'; [done|]. rewrite length_app. simpl. lia.
Qed.

(** ** net.ParseIP *)
Definition octet (bs : list Z) : option Z :=
  n ← unsigned bs;
  if decide (n ≤ 255 ∧ (head bs = Some 48 → bs = [48])) then Some n else None.
Definition parseIPv4 (bs : list Z) : option (list Z) :=
  match split_at 46 bs with
  | [a; b; c; d] => a ← octet a; b ← octet b; c ← octet c; d ← octet d; Some [a; b; c; d]
  | _ => None
  end.

(** The hexadecimal digits at the front: their value, how many, the rest. *)
Fixpoint hex_run (acc : Z) (n : nat) (bs : list Z) : Z * nat * list Z :=
  match bs with
  | [] => (acc, n, [])
  | c :: bs' => match upper_hex_value c with Some v => hex_run (acc * 16 + v) (S n) bs' | None => (acc, n, bs) end
  end.

(** The loop over the groups: [ip] so far, the place of the ellipsis, and
    the rest of the text; eight groups at most. *)
Fixpoint v6_groups (fuel : nat) (ip : list Z) (ell : option nat) (s : list Z) :
    option (list Z * option nat * list Z) :=
  match fuel with
  | O => Some (ip, ell, s)
  | S fuel =>
      if decide (16 ≤ length ip)%nat then Some (ip, ell, s)
      else
        let '(acc, off, rest) := hex_run 0 0 s in
        if decide (off = 0%nat ∨ (4 < off)%nat) then None
        else if decide (head rest = Some 46) then
          if decide ((ell = None ∧ length ip ≠ 12%nat) ∨ (12 < length ip)%nat) then None
          else f ← parseIPv4 s; Some (ip ++ f, ell, [])
        else
          let ip := ip ++ [acc / 256; acc mod 256] in
          match rest with
          | [] => Some (ip, ell, [])
          | c :: rest =>
              if decide (c ≠ colon) then None
              else match rest with
                   | [] => None
                   | c2 :: rest2 =>
                       if decide (c2 = colon) then
                         if decide (is_Some ell) then None
                         else match rest2 with
                              | [] => Some (ip, Some (length ip), [])
                              | _ => v6_groups fuel ip (Some (length ip)) rest2
                              end
                       else v6_groups fuel ip ell rest
                   end
          end
  end.

Definition v6_expand (r : list Z * option nat * list Z) : option (list Z) :=
  let '(ip, ell, s) := r in
  if decide (s ≠ []) then None
  else if decide (length ip = 16%nat) then match ell with None => Some ip | Some _ => None end
  else match ell with
       | None => None
       | Some e => Some (take e ip ++ replicate (16 - length ip) 0 ++ drop e ip)
       end.

Definition parseIPv6 (s : list Z) : option (list Z) :=
  match s with
  | c1 :: c2 :: rest =>
      if decide (c1 = colon ∧ c2 = colon) then
        match rest with [] => Some (replicate 16 0) | _ => v6_groups 9 [] (Some 0%nat) rest ≫= v6_expand end
      else v6_groups 9 [] None s ≫= v6_expand
  | _ => v6_groups 9 [] None s ≫= v6_expand
  end.

(** [ParseIP] gives sixteen bytes; an address with a zone is refused. *)
Definition v4_prefix : list Z := replicate 10 0 ++ [255; 255].
Definition ParseIP (host : string) : option (list Z) :=
  let s := bytes_of_string host in
  if decide (37 ∈ s) then None
  else match list_find (λ c, c = 46 ∨ c = colon) s with
       | Some (_, c) => if decide (c = 46) then app v4_prefix <$> parseIPv4 s else parseIPv6 s
       | None => None
       end.
Definition IsLoopback (ip : list Z) : bool :=
  if decide (take 12 ip = v4_prefix) then bool_decide (ip !! 12%nat = Some 127)
  else bool_decide (ip = replicate 15 0 ++ [1]).

Example loopbacks : (λ h, IsLoopback <$> ParseIP h) <$> ["127.0.0.1"; "::1"; "::ffff:127.0.0.9"; "10.0.0.7"; "2001:db8::1"; "1.2.3"; "01.2.3.4"; "::1::"; "localhost"; "fe80::1%eth0"]
  = [Some true; Some true; Some true; Some false; Some false; None; None; None; None; None].
Proof. vm_compute. reflexivity. Qed.
