(* ===== verification/Registration.v ===== *)
(** * Registration of a machine with the gateway

    internal/machine/registrar.go on the worker's side; the query of
    HandleRegister (internal/gateway/handler.go), ClientIP (pkg/httpx) and
    the addresses of machines on the gateway's side.  The theorems compose
    the two: what the registrar puts into its URL is what the gateway
    registers, under the address the request came from. *)

From S2P Require Import Prelude.
From S2P Require Import GoStrings.
From S2P Require Import Utf8.
From S2P Require Import UrlQuery.
From S2P Require Import GoNet.
From S2P Require Import GoFloat.
From S2P Require Import Backoff.
From S2P Require Import GatewayPool.
From S2P Require Import Gateway.
From S2P Require Import MachineConn.

Local Open Scope Z_scope.

(** ** Registrar *)
Record Registrar := mkRegistrar { r_id : string; r_gatewayAddr : string; r_port : Z; r_backoff : Backoff }.

(** [new_id] is the UUID that is drawn for a machine without identifier. *)
Definition NewRegistrar (new_id id gatewayAddr : string) (port : Z) : Registrar :=
  mkRegistrar (if decide (id = "") then new_id else id) gatewayAddr port registrar_backoff.

Record URL := mkURL { Scheme : string; u_Host : string; Path : string; RawQuery : list Z }.

Definition registrationURL (r : Registrar) : URL :=
  let params := Values_Set ∅ "id" (r_id r) in
  let params := Values_Set params "port" (Itoa (r_port r)) in
  mkURL "ws" (r_gatewayAddr r) "/register" (Encode params).

(** [register]: the dial is the environment's; on success the read loop runs
    until the socket ends, and the registration counts as made. *)
Definition register (dial : URL → bool) (r : Registrar) : bool := dial (registrationURL r).

(** [OnPing]: every ping of the gateway is answered. *)
Inductive control_frame := Ping (payload : list Z) | Pong (payload : list Z).
Definition OnPing (payload : list Z) : control_frame := Pong [].

(** ** Requests at the gateway *)
Record Request := mkRequest {
  rq_Method : string; rq_Path : string; rq_RawQuery : list Z; rq_Header : HeaderMap; rq_RemoteAddr : string;
}.


Definition ClientIP (r : Request) : string :=
  let ip := TrimSpace (Header_Get (rq_Header r) "X-Real-IP") in
  if decide (ip ≠ "") then ip
  else
    let forwarded := Header_Get (rq_Header r) "X-Forwarded-For" in
    if decide (forwarded ≠ "") then
      TrimSpace (string_of_bytes (default [] (head (split_at 44 (bytes_of_string forwarded)))))
    else
      match SplitHostPort (rq_RemoteAddr r) with
      | Err _ => rq_RemoteAddr r
      | Ok (host, _) =>
          match ParseIP host with
          | Some ip => if IsLoopback ip then "127.0.0.1" else host
          | None => host
          end
      end.

Definition Address (m : Machine) : string := m_Host m +:+ ":" +:+ Itoa (m_Port m).

(** The parameters [HandleRegister] reads from the query. *)
Definition register_port (q : list (string * string)) : option (option Z) :=
  let portStr := query_Get q "port" in
  if decide (portStr ≠ "") then Some (Atoi portStr) else None.

Definition HandleRegister_request (engine upgraded : bool) (cfg : ServerConfig) (now : Z) (socket : nat)
    (new_id : string) (r : Request) (g : Gateway) : Gateway * result gateway_error nat :=
  let q := parse_pairs (rq_RawQuery r) in
  HandleRegister engine upgraded cfg now socket (query_Get q "id") (query_Get q "host") new_id (ClientIP r)
    (register_port q) g.

(** ** What the gateway reads *)
Lemma registration_query r x :
  (("id", x) ∈ parse_pairs (RawQuery (registrationURL r)) ↔ x = r_id r) ∧
  (("port", x) ∈ parse_pairs (RawQuery (registrationURL r)) ↔ x = Itoa (r_port r)) ∧
  ("host", x) ∉ parse_pairs (RawQuery (registrationURL r)).
Proof.
  unfold registrationURL. cbn [RawQuery]. split_and!; [|apply Set_then_read|];
    unfold Encode; rewrite parse_encode_pairs, elem_of_pairs; unfold Values_Set.
  - rewrite lookup_insert_ne, lookup_insert_eq by done.
    split; [intros (vs & [= <-] & Hx); by apply list_elem_of_singleton|intros ->; exists [r_id r]; set_solver].
  - rewrite !lookup_insert_ne, lookup_empty by done. naive_solver.
Qed.

Lemma query_Get_absent pairs k : (∀ x, (k, x) ∉ pairs) → query_Get pairs k = "".
Proof.
  intros H. unfold query_Get. assert (omap (λ kv, if decide (kv.1 = k) then Some kv.2 else None) pairs = []) as ->; [|done].
  apply elem_of_nil_inv. intros x ([k' x'] & Hin & Hx)%list_elem_of_omap. simpl in Hx.
  case_decide; simplify_eq. by apply (H x).
Qed.

Lemma Itoa_nonempty z : - 2 ^ 63 ≤ z < 2 ^ 63 → Itoa z ≠ "".
Proof. intros Hz He. pose proof (Atoi_Itoa z Hz) as H. by rewrite He in H. Qed.

Lemma HandleRegister_registrar r rq engine upgraded cfg now socket new_id g :
  r_id r ≠ "" → - 2 ^ 63 ≤ r_port r < 2 ^ 63 → rq_RawQuery rq = RawQuery (registrationURL r) →
  HandleRegister_request engine upgraded cfg now socket new_id rq g =
  match AcquireMachine engine cfg (r_id r) (ClientIP rq) (r_port r) g with
  | Err e => (g, Err e)
  | Ok (g, a) => if upgraded then (upd_machine a (m_OnOpen now socket) g, Ok a) else (g, Err ErrUpgrade)
  end.
Proof.
  intros Hid Hp Hq. unfold HandleRegister_request. rewrite Hq.
  rewrite (query_Get_elem _ "id" (r_id r)) by apply registration_query.
  rewrite (query_Get_absent _ "host") by apply registration_query.
  unfold register_port. rewrite (query_Get_elem _ "port" (Itoa (r_port r))) by apply registration_query.
  rewrite decide_True by by apply Itoa_nonempty. rewrite Atoi_Itoa by done.
  unfold HandleRegister. by rewrite decide_False by done.
Qed.

(** ** Addresses *)
Lemma Itoa_colon z c : - 2 ^ 63 ≤ z < 2 ^ 63 → c ∈ [colon; lbracket; rbracket] → c ∉ bytes_of_string (Itoa z).
Proof.
  intros Hz Hc. unfold Itoa. rewrite bytes_string_bytes by by apply Itoa_bytes_are.
  unfold Itoa_bytes. assert (∀ n, 0 ≤ n < 10 ^ 20 → c ∉ utoa 20 n []) as H.
  { intros n Hn Hin. pose proof (utoa_digits 20 n [] Hn ltac:(constructor)) as Hd.
    rewrite Forall_forall in Hd. apply Hd in Hin. unfold is_digit in Hin.
    unfold colon, lbracket, rbracket in Hc. set_unfold. lia. }
  case_decide; [|apply H; lia]. rewrite not_elem_of_cons. split; [|apply H; lia].
  unfold colon, lbracket, rbracket in Hc. set_unfold. lia.
Qed.

(** The address of a machine is split where it was joined, unless its host
    has a colon. *)
Lemma Address_split m :
  - 2 ^ 63 ≤ m_Port m < 2 ^ 63 →
  lbracket ∉ bytes_of_string (m_Host m) → rbracket ∉ bytes_of_string (m_Host m) →
  SplitHostPort (Address m) =
  if decide (colon ∈ bytes_of_string (m_Host m)) then Err TooManyColons
  else Ok (m_Host m, Itoa (m_Port m)).
Proof.
  intros Hp Hl Hr. unfold SplitHostPort, Address. rewrite !bytes_of_string_app.
  change (bytes_of_string ":" ++ bytes_of_string (Itoa (m_Port m)))
    with (colon :: bytes_of_string (Itoa (m_Port m))).
  rewrite SplitHostPort_join.
  - case_decide; [done|]. simpl. by rewrite !string_of_bytes_of_string.
  - apply Itoa_colon; [done|set_solver].
  - rewrite not_elem_of_app. split; [done|]. apply Itoa_colon; [done|set_solver].
  - rewrite not_elem_of_app. split; [done|]. apply Itoa_colon; [done|set_solver].
Qed.

(** ** The round trip *)

(** C25: Registration is exact.  Whatever the headers and the remote address of
    the request a registrar's URL makes, the gateway registers the machine
    under the registrar's own identifier and port, with the client's address
    as host: a new machine is added, active, and its address splits into that
    host and port again when the host has no colon; a machine that comes back
    from the same address is the same machine, with its sessions, and active;
    one whose address changed is refused and nothing changes. *)
Theorem registration_roundtrip new_id id addr port rq cfg now socket uuid g :
  new_id ≠ "" → - 2 ^ 63 ≤ port < 2 ^ 63 →
  let r := NewRegistrar new_id id addr port in
  rq_RawQuery rq = RawQuery (registrationURL r) →
  let host := ClientIP rq in
  let '(g', res) := HandleRegister_request true true cfg now socket uuid rq g in
  match g_items g !! r_id r ≫= λ a, (a,.) <$> g_machines g !! a with
  | None => ∃ a m, res = Ok a ∧ g_items g' !! r_id r = Some a ∧ g_machines g' !! a = Some m ∧
      m_ID m = r_id r ∧ m_Host m = host ∧ m_Port m = port ∧ m_state m = MachineStateActive ∧
      m_socket m = Some socket ∧ g_machines g !! a = None ∧
      (colon ∉ bytes_of_string host → lbracket ∉ bytes_of_string host → rbracket ∉ bytes_of_string host →
       SplitHostPort (Address m) = Ok (host, Itoa port))
  | Some (a, m) =>
      if decide (m_state m = MachineStateTerminated) then res = Err ErrMachineAlreadyActive ∧ g' = g
      else if decide (m_Host m = host ∧ m_Port m = port) then
        res = Ok a ∧ g_machines g' !! a = Some (m_OnOpen now socket m) ∧ g_items g' = g_items g
      else res = Err ErrMachineIDConflict ∧ g' = g
  end.
Proof.
  intros Hn Hp r Hq host. assert (r_id r ≠ "") as Hid by (unfold r; simpl; by case_decide).
  rewrite (HandleRegister_registrar r) by done. assert (r_port r = port) as -> by reflexivity.
  fold host. clearbody host. clear Hq. clearbody r. unfold AcquireMachine.
  destruct (g_items g !! r_id r ≫= _) as [[a m]|] eqn:Hg.
  - unfold checkMachine. destruct (m_state m) eqn:Hs; simpl.
    3:{ split; reflexivity. }
    all: destruct (decide (m_Host m ≠ host ∨ m_Port m ≠ port)) as [Hc|Hc];
      cbn [rbind]; [rewrite decide_False by naive_solver; split; reflexivity|].
    all: assert (m_Host m = host ∧ m_Port m = port) as Hsame
      by (destruct (decide (m_Host m = host)), (decide (m_Port m = port)); naive_solver).
    all: rewrite decide_True by done; simpl.
    all: apply bind_Some in Hg as (a' & _ & (m' & Hm & [= -> ->])%fmap_Some).
    all: split_and!; [done|simpl; by rewrite lookup_alter_eq, Hm|done].
  - simpl. set (a := fresh _). eexists a, _. rewrite lookup_insert_eq.
    rewrite lookup_alter_eq, lookup_insert_eq. split_and!; try done.
    + apply not_elem_of_dom, is_fresh.
    + intros Hc Hl Hr. rewrite Address_split by done. by rewrite decide_False.
Qed.

Definition demo_request (query : list Z) : Request :=
  mkRequest "GET" "/register" query ∅ "10.0.0.7:51234".
Definition no_machines : Gateway := mkGateway ∅ ∅ ∅ NewSessionManager 0 0 [].
Definition demo_cfg : ServerConfig := mkServerConfig 1 10 20 4 0 0 0.

Example demo_client : ClientIP (demo_request []) = "10.0.0.7".
Proof. vm_compute. reflexivity. Qed.

Lemma registration_roundtrip_witness :
  let r := NewRegistrar "u1" "" "gateway:80" 7001 in
  let rq := demo_request (RawQuery (registrationURL r)) in
  let '(g', res) := HandleRegister_request true true demo_cfg 5 3 "x" rq no_machines in
  ∃ a m, res = Ok a ∧ g_items g' !! "u1" = Some a ∧ g_machines g' !! a = Some m ∧
    m_ID m = "u1" ∧ m_Host m = ClientIP rq ∧ m_Port m = 7001 ∧ m_state m = MachineStateActive ∧
    m_socket m = Some 3%nat ∧ g_machines no_machines !! a = None ∧
    (colon ∉ bytes_of_string (ClientIP rq) → lbracket ∉ bytes_of_string (ClientIP rq) →
     rbracket ∉ bytes_of_string (ClientIP rq) →
     SplitHostPort (Address m) = Ok (ClientIP rq, Itoa 7001)).
Proof.
  exact (registration_roundtrip "u1" "" "gateway:80" 7001
    (demo_request (RawQuery (registrationURL (NewRegistrar "u1" "" "gateway:80" 7001))))
    demo_cfg 5 3 "x" no_machines ltac:(discriminate) ltac:(split; [discriminate|reflexivity]) eq_refl).
Defined.

(** ** Deviations *)

(** A machine behind an IPv6 address is registered under an address that no
    dial can split: [Address] joins host and port without brackets. *)
Theorem ipv6_machine_cannot_be_dialled port m :
  - 2 ^ 63 ≤ port < 2 ^ 63 →
  let rq := mkRequest "GET" "/register" [] ∅ "[2001:db8::1]:51234" in
  m_Host m = ClientIP rq → m_Port m = port →
  ClientIP rq = "2001:db8::1" ∧ SplitHostPort (Address m) = Err TooManyColons.
Proof.
  intros Hp rq Hh Hpm. assert (ClientIP rq = "2001:db8::1") as Hc by (vm_compute; reflexivity).
  split; [done|]. rewrite Hc in Hh.
  rewrite Address_split by (rewrite ?Hpm, ?Hh; try done; vm_compute; set_solver).
  rewrite Hh. by rewrite decide_True by (vm_compute; set_solver).
Qed.

(** [OnClose] does not ask which socket closed: when a worker has already
    come back, the late close of its previous control socket suspends the
    machine and forgets the new socket; it is no longer pinged, so its
    heartbeat stands still until the cleanup terminates it. *)
Theorem stale_close_suspends_machine now socket m :
  m_state (m_OnClose (m_OnOpen now socket m)) = MachineStateSuspended ∧
  Heartbeat (m_OnClose (m_OnOpen now socket m)) = None ∧
  m_lastHeartbeat (m_OnClose (m_OnOpen now socket m)) = UnixMilli now.
Proof. split_and!; reflexivity. Qed.
