(* ===== verification/GatewayHttp.v ===== *)
(** * The gateway's HTTP side

    internal/gateway/handler.go: the requests the gateway forwards to its
    machines and what it answers, and the routers of both processes
    (biz/route).  The operations on the gateway's tables are those of
    [Gateway]; the worker that answers is [Handlers] over [EngineSession],
    behind its own routes.  The network delivers a request to the address in
    its URL.  The JSON codec, the parser of session keys and what the HTTP
    client refuses are arguments. *)

From S2P Require Import Prelude.
From S2P Require Import GoStrings.
From S2P Require Import GoNet.
From S2P Require Import Utf8.
From S2P Require Import GoSlice.
From S2P Require Import Protocol.
From S2P Require Import ShardedMap.
From S2P Require Import Gateway.
From S2P Require Import GatewayWorld.
From S2P Require Import Registration.
From S2P Require EngineSession Handlers.

Local Open Scope Z_scope.

(** ** Headers *)
Definition copy_values (k : string) (vv : list string) (dst : HeaderMap) : HeaderMap :=
  foldl (λ dst v, Header_Add k v dst) dst vv.
Definition copyHeader (ord : iter_order string (list string)) (src dst : HeaderMap) : HeaderMap :=
  foldl (λ dst kv, copy_values kv.1 kv.2 dst) dst (range_map ord src).

(** The keys of a parsed message are canonical, and no key is without value. *)
Definition canonical (h : HeaderMap) : Prop :=
  map_Forall (λ k vv, CanonicalHeaderKey k = k ∧ vv ≠ []) h.

Lemma copy_values_lookup k vv dst k' :
  CanonicalHeaderKey k = k →
  default [] (copy_values k vv dst !! k') = default [] (dst !! k') ++ (if decide (k' = k) then vv else []).
Proof.
  intros Hk. unfold copy_values. revert dst. induction vv as [|v vv IH]; intros dst; simpl.
  { case_decide; by rewrite app_nil_r. }
  rewrite IH. unfold Header_Add. cbv zeta. rewrite Hk. case_decide as E.
  - subst. rewrite lookup_insert_eq. simpl. by rewrite <-app_assoc.
  - by rewrite lookup_insert_ne by done.
Qed.

Lemma copies_lookup (kvs : list (string * list string)) dst k' :
  Forall (λ kv, CanonicalHeaderKey kv.1 = kv.1) kvs →
  default [] (foldl (λ dst kv, copy_values kv.1 kv.2 dst) dst kvs !! k') =
  default [] (dst !! k') ++ (kvs ≫= λ kv, if decide (k' = kv.1) then kv.2 else []).
Proof.
  intros H. revert dst. induction H as [|[k vv] kvs Hk _ IH]; intros dst; simpl; [by rewrite app_nil_r|].
  rewrite IH, copy_values_lookup, <-app_assoc by done. done.
Qed.

Lemma pick_range ord (h : HeaderMap) k :
  (range_map ord h ≫= λ kv, if decide (k = kv.1) then kv.2 else []) = default [] (h !! k).
Proof.
  destruct (h !! k) as [vv|] eqn:Hk; simpl.
  - assert ((k, vv) ∈ range_map ord h) as Hin by by apply elem_of_range_map.
    apply list_elem_of_split in Hin as (l1 & l2 & E). pose proof (NoDup_fst_range_map ord h) as Hnd.
    rewrite E in *. rewrite fmap_app, fmap_cons in Hnd. rewrite bind_app, bind_cons. simpl.
    rewrite decide_True by done.
    assert (∀ l : list (string * list string), k ∉ l.*1 → (l ≫= λ kv, if decide (k = kv.1) then kv.2 else []) = []) as Hnil.
    { clear. induction l as [|[k' v'] l IH]; [done|]. rewrite fmap_cons, not_elem_of_cons. intros [? ?].
      rewrite bind_cons. simpl. rewrite decide_False by done. by apply IH. }
    apply NoDup_app in Hnd as (_ & H1 & H2). apply NoDup_cons in H2 as [H2 _].
    rewrite !Hnil; [by rewrite app_nil_r|done|]. intros Hx. apply (H1 k Hx). left.
  - assert (k ∉ (range_map ord h).*1) as Hn.
    { intros ([k' v'] & -> & Hin)%list_elem_of_fmap. apply elem_of_range_map in Hin. simpl in Hk. congruence. }
    revert Hn. induction (range_map ord h) as [|[k' v'] l IH]; [done|].
    rewrite fmap_cons, not_elem_of_cons, bind_cons. intros [? ?]. simpl. rewrite decide_False by done. by apply IH.
Qed.

(** Whatever the order of the loop: the values of a key are appended. *)
Lemma copyHeader_lookup ord src dst k :
  canonical src →
  default [] (copyHeader ord src dst !! k) = default [] (dst !! k) ++ default [] (src !! k).
Proof.
  intros Hc. unfold copyHeader. rewrite copies_lookup, pick_range; [done|].
  apply Forall_forall. intros [k' v'] Hin%elem_of_range_map. exact (proj1 (Hc k' v' Hin)).
Qed.

(** ** Messages *)
Record HttpRequest := mkHttpRequest {
  h_Method : string; h_Path : string; h_RawQuery : string; h_Header : HeaderMap; h_Body : list Z;
}.
Record Outgoing := mkOutgoing { o_Method : string; o_URL : string; o_Header : HeaderMap; o_Body : list Z }.
(** A response; [p_Body] is what reading its body to the end gives. *)
Record HttpResponse := mkHttpResponse { p_Status : Z; p_Header : HeaderMap; p_Body : option (list Z) }.
Record ResponseWriter := mkWriter { w_Header : HeaderMap; w_Status : option Z; w_Body : list Z }.
Definition new_writer : ResponseWriter := mkWriter ∅ None [].

(** What a handler does with the HTTP client: the requests it sends, and the
    bodies of responses, which are opened by the client and must be closed. *)
Inductive http_event := Sent (out : Outgoing) | BodyOpened | BodyClosed.
Definition sent (ev : list http_event) : list Outgoing :=
  omap (λ e, match e with Sent out => Some out | _ => None end) ev.

(** ** Proxying *)
Section proxy.
(** [http.NewRequestWithContext] and [http.DefaultClient.Do]. *)
Context (NewRequest : string → string → bool) (Do : Outgoing → option HttpResponse).
Context (ord : iter_order string (list string)).

Definition target_url (m : Machine) (r : HttpRequest) : string :=
  let url := "http://" +:+ Address m +:+ h_Path r in
  if decide (h_RawQuery r ≠ "") then url +:+ "?" +:+ h_RawQuery r else url.

Definition outgoing (m : Machine) (r : HttpRequest) : Outgoing :=
  mkOutgoing (h_Method r) (target_url m r) (copyHeader ord (h_Header r) ∅) (h_Body r).

Definition doMachineRequest (r : HttpRequest) (m : Machine) : option (HttpResponse * list Z) * list http_event :=
  if NewRequest (h_Method r) (target_url m r) then
    let out := outgoing m r in
    match Do out with
    | None => (None, [Sent out])
    | Some resp =>
        match p_Body resp with
        | None => (None, [Sent out; BodyOpened; BodyClosed])
        | Some body => (Some (resp, body), [Sent out; BodyOpened])
        end
    end
  else (None, []).

(** [deleteMachineSession]; the answer is read and dropped. *)
Definition deleteMachineSession (key_text : string) (m : Machine) : list http_event :=
  let url := "http://" +:+ Address m +:+ "/sessions/" +:+ key_text in
  if NewRequest "DELETE" url then
    let out := mkOutgoing "DELETE" url ∅ [] in
    Sent out :: match Do out with None => [] | Some _ => [BodyOpened; BodyClosed] end
  else [].

Definition WriteHeader (status : Z) (w : ResponseWriter) : ResponseWriter :=
  match w_Status w with Some _ => w | None => mkWriter (w_Header w) (Some status) (w_Body w) end.

Definition writeProxyResponse (w : ResponseWriter) (resp : HttpResponse) (body : list Z) : ResponseWriter :=
  let w := mkWriter (copyHeader ord (p_Header resp) (w_Header w)) (w_Status w) (w_Body w) in
  let w := WriteHeader (p_Status resp) w in
  mkWriter (w_Header w) (w_Status w) (w_Body w ++ body).

(** [proxySessionLogic]: the effect, then the answer, then the deferred
    close. *)
Definition proxySessionLogic_http (r : HttpRequest) (m : Machine) (onSuccess : Gateway → Gateway)
    (w : ResponseWriter) (g : Gateway) : Gateway * ResponseWriter * list http_event * option gateway_error :=
  match doMachineRequest r m with
  | (None, ev) => (g, w, ev, Some ErrMachineRequest)
  | (Some (resp, body), ev) =>
      let g := if decide (p_Status resp = StatusOK) then onSuccess g else g in
      (g, writeProxyResponse w resp body, ev ++ [BodyClosed], None)
  end.

(** The machine of a session. *)
Definition session_machine (g : Gateway) (a : nat) : option (Session * Machine) :=
  s ← g_sessions g !! a; ma ← s_machine s; m ← g_machines g !! ma; Some (s, m).

(** A handler of the gateway that looks its session up first. *)
Definition with_session (parsed : option SessionKey) (w : ResponseWriter) (g : Gateway)
    (k : nat → Session → Machine → Gateway * ResponseWriter * list http_event * option gateway_error) :=
  match getSessionFromRequest parsed g with
  | Err e => (g, w, [], Some e)
  | Ok a => match session_machine g a with
            | None => (g, w, [], Some ErrSessionNotFound) (* a nil machine: unreachable *)
            | Some (s, m) => k a s m
            end
  end.

Definition HandleSessionRenew_http (now : Z) (parsed : option SessionKey) (r : HttpRequest) w g :=
  with_session parsed w g (λ a _ m, proxySessionLogic_http r m (upd_session a (touch now)) w g).

Definition HandleSessionDelete_http published buffer o (now : Z) (parsed : option SessionKey) (r : HttpRequest) w g :=
  with_session parsed w g (λ a s m,
    proxySessionLogic_http r m (sm_Delete published buffer o now (s_key s)) w g).

(** [HandleSessionCreate] with its answer and its cleanup request;
    [Unmarshal] decodes the body to its session_id. *)
Definition answer_of (Unmarshal : list Z → option string) (rb : HttpResponse * list Z) : answer :=
  mkAnswer (p_Status rb.1) (Unmarshal rb.2).
Definition HandleSessionCreate_http (mord : iter_order string nat) (ParseSessionKey : string → option SessionKey)
    (Unmarshal : list Z → option string) (now : Z) (r : HttpRequest) w g :
    Gateway * ResponseWriter * list http_event * option gateway_error :=
  let exchange a := match g_machines g !! a with Some m => doMachineRequest r m | None => (None, []) end in
  let '(g', res) := HandleSessionCreate mord ParseSessionKey now
    (λ a, answer_of Unmarshal <$> (exchange a).1) g in
  match LeastSessions mord g with
  | None => (g', w, [], Some ErrNoActiveMachines)
  | Some a =>
      match exchange a, res with
      | (None, ev), _ => (g', w, ev, Some ErrMachineRequest)
      | (Some (resp, body), ev), Ok _ => (g', writeProxyResponse w resp body, ev ++ [BodyClosed], None)
      | (Some _, ev), Err e => (g', w, ev ++ [BodyClosed], Some e)
      end
  end.
End proxy.

(** [HandleHealth] answers without looking at anything. *)
Definition HandleHealth : Handlers.reply unit := Handlers.mkReply 200 Handlers.Success.

(** [proxyRequest] hands the request to a reverse proxy for the machine; the
    error of [url.Parse] is ignored, and the proxy dereferences its target. *)
Inductive proxied := ForwardedTo (address : string) (r : HttpRequest) | NilTarget.
Definition proxyRequest (Parse : string → bool) (r : HttpRequest) (m : Machine) : proxied :=
  if Parse ("http://" +:+ Address m) then ForwardedTo (Address m) r else NilTarget.

Definition ProxyToAny_http (Parse : string → bool) (mord : iter_order string nat) (r : HttpRequest) (g : Gateway) :
    result gateway_error (option proxied) :=
  let? a := ProxyToAny mord g in Ok (proxyRequest Parse r <$> g_machines g !! a).

Definition HandleSessionHealth (Parse : string → bool) (parsed : option SessionKey) (r : HttpRequest) (g : Gateway) :
    result gateway_error (option proxied) :=
  let? a := getSessionFromRequest parsed g in
  Ok ((λ sm, proxyRequest Parse r sm.2) <$> session_machine g a).

(** ** Routers

    The tables biz/route registers: a method, a pattern and the handler. *)
Inductive gateway_handler :=
| G_Health | G_State | G_ProxyToAny | G_Metrics | G_SessionCreate | G_SessionHealth | G_SessionRenew
| G_SessionDelete | G_Register | G_Realtime | G_Web.
Inductive voce_handler :=
| V_Health | V_ListWorkflows | V_SaveWorkflow | V_GetWorkflow | V_DeleteWorkflow | V_ListPlugins | V_Metrics
| V_SessionCreate | V_SessionHealth | V_SessionRenew | V_SessionDelete | V_Realtime | V_PoolConnection | V_Web.
#[export] Instance voce_handler_dec : EqDecision voce_handler.
Proof. solve_decision. Defined.
#[export] Instance gateway_handler_dec : EqDecision gateway_handler.
Proof. solve_decision. Defined.

(** [Route] puts its prefix in front of the patterns registered inside. *)
Definition Route {H} (prefix : string) (l : list (string * string * H)) : list (string * string * H) :=
  (λ '(m, p, h), (m, prefix +:+ p, h)) <$> l.

Definition RegisterGatewayRouter (metrics : bool) : list (string * string * gateway_handler) :=
  [("GET", "/health", G_Health); ("GET", "/state", G_State); ("GET", "/plugins", G_ProxyToAny)]
  ++ (if metrics then [("*", "/metrics", G_Metrics)] else [])
  ++ Route "/workflows" [("GET", "/", G_ProxyToAny); ("POST", "/", G_ProxyToAny);
                         ("GET", "/{id}", G_ProxyToAny); ("DELETE", "/{id}", G_ProxyToAny)]
  ++ Route "/sessions" [("POST", "/", G_SessionCreate); ("GET", "/health/{id}", G_SessionHealth);
                        ("POST", "/renew/{id}", G_SessionRenew); ("DELETE", "/{id}", G_SessionDelete)]
  ++ [("GET", "/register", G_Register); ("GET", "/realtime/{id}", G_Realtime); ("*", "/*", G_Web)].

Definition RegisterVoceRouter (metrics machine : bool) : list (string * string * voce_handler) :=
  [("GET", "/health", V_Health)]
  ++ Route "/workflows" [("GET", "/", V_ListWorkflows); ("POST", "/", V_SaveWorkflow);
                         ("GET", "/{id}", V_GetWorkflow); ("DELETE", "/{id}", V_DeleteWorkflow)]
  ++ [("GET", "/plugins", V_ListPlugins)]
  ++ (if metrics then [("*", "/metrics", V_Metrics)] else [])
  ++ Route "/sessions" [("POST", "/", V_SessionCreate); ("GET", "/health/{id}", V_SessionHealth);
                        ("POST", "/renew/{id}", V_SessionRenew); ("DELETE", "/{id}", V_SessionDelete)]
  ++ [("GET", "/realtime/{id}", V_Realtime)]
  ++ (if machine then [("GET", "/pool", V_PoolConnection)] else [])
  ++ [("*", "/*", V_Web)].

(** The handlers of the gateway that forward the request they were given. *)
Definition forwards (h : gateway_handler) : bool :=
  match h with
  | G_ProxyToAny | G_SessionCreate | G_SessionHealth | G_SessionRenew | G_SessionDelete => true
  | _ => false
  end.

(** Every route the gateway forwards is a route of the worker, with the same
    method and pattern, and not its catch-all. *)
Lemma forwarded_routes_exist gm vm machine method pattern h :
  (method, pattern, h) ∈ RegisterGatewayRouter gm → forwards h = true →
  ∃ h', (method, pattern, h') ∈ RegisterVoceRouter vm machine ∧ h' ≠ V_Web.
Proof.
  assert (∀ gm vm machine, forallb (λ '(m, p, h),
    negb (forwards h) || existsb (λ '(m', p', h'), bool_decide (m' = m ∧ p' = p ∧ h' ≠ V_Web))
      (RegisterVoceRouter vm machine)) (RegisterGatewayRouter gm) = true) as Hall
    by (intros [] [] []; vm_compute; reflexivity).
  intros Hin Hf. specialize (Hall gm vm machine). rewrite forallb_forall in Hall.
  specialize (Hall _ (proj1 (list_elem_of_In _ _) Hin)). cbv beta iota in Hall.
  rewrite Hf in Hall. cbn [negb orb] in Hall.
  apply existsb_exists in Hall as ([[m' p'] h'] & Hin'%list_elem_of_In & Hx%bool_decide_eq_true).
  destruct Hx as (-> & -> & Hne). by exists h'.
Qed.

(** ** URLs and paths *)

Fixpoint occurs (c : ascii) (s : string) : bool :=
  match s with
  | EmptyString => false
  | String a s => bool_decide (a = c) || occurs c s
  end.

(** What is before the first [c], and the rest from there. *)
Fixpoint cut_at (c : ascii) (s : string) : string * string :=
  match s with
  | EmptyString => ("", "")
  | String a s' => if decide (a = c) then ("", s) else let '(x, y) := cut_at c s' in (String a x, y)
  end.

Fixpoint split_on (c : ascii) (s : string) : list string :=
  match s with
  | EmptyString => [""]
  | String a s => if decide (a = c) then "" :: split_on c s
                  else match split_on c s with
                       | [] => [String a ""]
                       | x :: xs => String a x :: xs
                       end
  end.

(** net/url for the URLs of the gateway: authority, path and query. *)
Definition parse_url (url : string) : option (string * string * string) :=
  if decide (String.substring 0 7 url = "http://") then
    let '(authority, rest) := cut_at "/" (String.substring 7 (String.length url - 7) url) in
    let '(path, query) := cut_at "?" rest in
    Some (authority, path, String.substring 1 (String.length query - 1) query)
  else None.

(** chi: [{id}] matches one segment, [/*] everything; the patterns of the two
    tables do not overlap but for the catch-all at their end. *)
Fixpoint match_segments (pattern path : list string) : option (option string) :=
  match pattern, path with
  | [], [] => Some None
  | ["*"], _ => Some None
  | p :: ps, x :: xs =>
      if decide (p = "{id}") then
        if decide (x = "") then None else (λ _, Some x) <$> match_segments ps xs
      else if decide (p = x) then match_segments ps xs else None
  | _, _ => None
  end.

Fixpoint find_segments {H} (table : list (string * string * H)) (method : string) (path : list string) :
    option (H * option string) :=
  match table with
  | [] => None
  | (m, pattern, h) :: table =>
      if decide (m = "*" ∨ m = method) then
        match match_segments (split_on "/" pattern) path with
        | Some id => Some (h, id)
        | None => find_segments table method path
        end
      else find_segments table method path
  end.
Definition find_route {H} (table : list (string * string * H)) (method path : string) : option (H * option string) :=
  find_segments table method (split_on "/" path).

Lemma cut_at_found c a b : occurs c a = false → cut_at c (a +:+ String c b) = (a, String c b).
Proof.
  induction a as [|x a IH]; simpl; [by rewrite decide_True by done|].
  intros [Hx%bool_decide_eq_false Ha]%orb_false_iff. rewrite decide_False by done. by rewrite IH.
Qed.

Lemma cut_at_none c a : occurs c a = false → cut_at c a = (a, "").
Proof.
  induction a as [|x a IH]; simpl; [done|].
  intros [Hx%bool_decide_eq_false Ha]%orb_false_iff. rewrite decide_False by done. by rewrite IH.
Qed.

Lemma split_on_none c a : occurs c a = false → split_on c a = [a].
Proof.
  induction a as [|x a IH]; simpl; [done|].
  intros [Hx%bool_decide_eq_false Ha]%orb_false_iff. rewrite decide_False by done. by rewrite IH.
Qed.

Lemma substring_all s : String.substring 0 (String.length s) s = s.
Proof. induction s as [|c s IH]; simpl; [done|]. by rewrite IH. Qed.

(** The URL of a proxied request names the machine, the path and the query. *)
Lemma parse_target m r :
  occurs "/" (Address m) = false → occurs "?" (h_Path r) = false →
  String.substring 0 1 (h_Path r) = "/" →
  parse_url (target_url m r) = Some (Address m, h_Path r, h_RawQuery r).
Proof.
  intros Ha Hp Hs. destruct (h_Path r) as [|c path] eqn:Ep; [done|].
  assert (c = "/"%char) as ->.
  { simpl in Hs. destruct path; simpl in Hs; by injection Hs. }
  assert (∀ q, parse_url ("http://" +:+ Address m +:+ String "/" path +:+ q) =
    (let '(p, query) := cut_at "?" (String "/" path +:+ q) in
     Some (Address m, p, String.substring 1 (String.length query - 1) query))) as Hu.
  { intros q. unfold parse_url.
    rewrite decide_True by by destruct (Address m +:+ _).
    assert (String.substring 7 (String.length ("http://" +:+ Address m +:+ String "/" path +:+ q) - 7)
      ("http://" +:+ Address m +:+ String "/" path +:+ q) = Address m +:+ String "/" (path +:+ q)) as ->.
    { simpl. rewrite Nat.sub_0_r. apply substring_all. }
    by rewrite cut_at_found. }
  unfold target_url. rewrite Ep. case_decide as Hq.
  - assert ("http://" +:+ Address m +:+ String "/" path +:+ "?" +:+ h_RawQuery r =
      "http://" +:+ Address m +:+ String "/" path +:+ String "?" (h_RawQuery r)) as E by done.
    assert (("http://" +:+ Address m +:+ String "/" path) +:+ "?" +:+ h_RawQuery r =
      "http://" +:+ Address m +:+ String "/" path +:+ "?" +:+ h_RawQuery r) as ->
      by (by rewrite !string_app_assoc).
    rewrite E, Hu, cut_at_found by done. simpl. by rewrite Nat.sub_0_r, substring_all.
  - assert (h_RawQuery r = "") as -> by (by destruct (decide (h_RawQuery r = ""))).
    specialize (Hu ""). rewrite string_app_nil_r in Hu.
    rewrite Hu, cut_at_none by done. done.
Qed.

(** ** The worker behind the gateway *)
Section worker.
Context (addr : string) (table : list (string * string * voce_handler)).
Context (encode : Handlers.reply Handlers.session_data → HttpResponse).
Context (ParseText : string → option string).

(** A request to the worker at [addr]: [None] when there is no answer; the
    routes that are not about sessions are left out. *)
Definition worker_serve (now : Z) (out : Outgoing) (sm : EngineSession.SessionManager) :
    option HttpResponse * EngineSession.SessionManager :=
  match parse_url (o_URL out) with
  | None => (None, sm)
  | Some (authority, path, _) =>
      if decide (authority ≠ addr) then (None, sm)
      else match find_route table (o_Method out) path with
      | Some (V_SessionHealth, Some id) =>
          let '(r, sm) := Handlers.WorkflowSessionHealth ParseText now id sm in (Some (encode (Handlers.Wrap r)), sm)
      | Some (V_SessionRenew, Some id) =>
          let '(r, sm) := Handlers.RenewWorkflowSession ParseText now id sm in (Some (encode (Handlers.Wrap r)), sm)
      | Some (V_SessionDelete, Some id) =>
          let '(r, sm) := Handlers.DeleteWorkflowSession ParseText now id sm in (Some (encode (Handlers.Wrap r)), sm)
      | _ => (None, sm)
      end
  end.

(** What the client gets for a request, and the worker after all requests. *)
Definition answer_to (now : Z) (sm : EngineSession.SessionManager) (out : Outgoing) : option HttpResponse :=
  (worker_serve now out sm).1.
Definition after (now : Z) (outs : list Outgoing) (sm : EngineSession.SessionManager) :
    EngineSession.SessionManager :=
  foldl (λ sm out, (worker_serve now out sm).2) sm outs.
End worker.

(** ** What a proxied request does *)

(** The client reads the status, the header and the body of the response. *)
Definition answer_written (w : ResponseWriter) (resp : HttpResponse) : Prop :=
  w_Status w = Some (p_Status resp) ∧ p_Body resp = Some (w_Body w) ∧
  ∀ k, default [] (w_Header w !! k) = default [] (p_Header resp !! k).

Lemma writeProxyResponse_exact ord resp body :
  canonical (p_Header resp) → p_Body resp = Some body →
  answer_written (writeProxyResponse ord new_writer resp body) resp.
Proof.
  intros Hc Hb. split; [done|]. split; [done|]. intros k. cbn. rewrite copyHeader_lookup by done.
  by rewrite lookup_empty.
Qed.

Lemma proxySessionLogic_answer NewRequest Do ord r m f g resp body :
  NewRequest (h_Method r) (target_url m r) = true → Do (outgoing ord m r) = Some resp →
  p_Body resp = Some body → canonical (p_Header resp) →
  let '(g', w, ev, err) := proxySessionLogic_http NewRequest Do ord r m f new_writer g in
  g' = (if decide (p_Status resp = StatusOK) then f g else g) ∧ answer_written w resp ∧
  ev = [Sent (outgoing ord m r); BodyOpened; BodyClosed] ∧ err = None.
Proof.
  intros Hn Hd Hb Hc. unfold proxySessionLogic_http, doMachineRequest. rewrite Hn, Hd, Hb.
  split_and!; try done. by apply writeProxyResponse_exact.
Qed.

(** Without an answer nothing changes and no body is left open. *)
Lemma proxySessionLogic_failed NewRequest Do ord r m f w g :
  (doMachineRequest NewRequest Do ord r m).1 = None →
  ∃ ev, proxySessionLogic_http NewRequest Do ord r m f w g = (g, w, ev, Some ErrMachineRequest) ∧
    (ev = [] ∨ ∃ out, ev = [Sent out] ∨ ev = [Sent out; BodyOpened; BodyClosed]).
Proof.
  unfold proxySessionLogic_http, doMachineRequest. destruct (NewRequest _ _); [|eauto].
  destruct (Do _) as [resp|]; [|simpl; eexists; split; [done|]; right; eexists; by left].
  destruct (p_Body resp); [done|]. intros _. simpl. eexists. split; [done|]. right. eexists. by right.
Qed.

(** The request that reaches the machine carries what the client sent. *)
Lemma outgoing_exact ord m r k :
  canonical (h_Header r) →
  o_Method (outgoing ord m r) = h_Method r ∧ o_Body (outgoing ord m r) = h_Body r ∧
  default [] (o_Header (outgoing ord m r) !! k) = default [] (h_Header r !! k).
Proof. intros Hc. split_and!; [done..|]. cbn. rewrite copyHeader_lookup by done. by rewrite lookup_empty. Qed.

(** ** One session in two processes *)
Section two_processes.
Context (NewRequest : string → string → bool) (ord : iter_order string (list string)).
Context (metrics pooled : bool).
Context (encode : Handlers.reply Handlers.session_data → HttpResponse).
Context (ParseSessionKey : string → option SessionKey) (key_text : SessionKey → string).

(** The worker parses the same identifiers, to the text of the key. *)
Definition ParseText (id : string) : option string := key_text <$> ParseSessionKey id.

Definition routes_of_worker : list (string * string * voce_handler) := RegisterVoceRouter metrics pooled.

(** What is relied on of net/http and the JSON encoder: the two requests can
    be made, and an encoded reply has the status of the reply, a body that
    can be read and canonical header keys. *)
Record transport (m : Machine) (r : HttpRequest) : Prop := {
  tr_request : NewRequest (h_Method r) (target_url m r) = true;
  tr_encode rep : p_Status (encode rep) = Handlers.status rep ∧ is_Some (p_Body (encode rep)) ∧
    canonical (p_Header (encode rep));
}.

(** Of the UUID package: what it parses is not empty and has no separator of
    a URL.  The address of a machine has none either. *)
Definition plain_id (id : string) : Prop := id ≠ "" ∧ occurs "/" id = false ∧ occurs "?" id = false.

Definition delete_request (id : string) (h : HeaderMap) : HttpRequest :=
  mkHttpRequest "DELETE" ("/sessions/" +:+ id) "" h [].
Definition renew_request (id : string) (h : HeaderMap) : HttpRequest :=
  mkHttpRequest "POST" ("/sessions/renew/" +:+ id) "" h [].

(** The network with the worker of machine [m] in state [sm]. *)
Definition network (now : Z) (m : Machine) (sm : EngineSession.SessionManager) : Outgoing → option HttpResponse :=
  answer_to (Address m) routes_of_worker encode ParseText now sm.
Definition worker_after (now : Z) (m : Machine) (ev : list http_event) (sm : EngineSession.SessionManager) :
    EngineSession.SessionManager :=
  after (Address m) routes_of_worker encode ParseText now (sent ev) sm.

Lemma delete_route id :
  plain_id id → find_route routes_of_worker "DELETE" ("/sessions/" +:+ id) = Some (V_SessionDelete, Some id).
Proof.
  intros (Hn & Hs & _). unfold find_route.
  assert (split_on "/" ("/sessions/" +:+ id) = [""; "sessions"; id]) as -> by (simpl; by rewrite split_on_none).
  destruct id as [|c id]; [done|]. unfold routes_of_worker. destruct metrics, pooled; vm_compute; reflexivity.
Qed.

Lemma renew_route id :
  plain_id id → find_route routes_of_worker "POST" ("/sessions/renew/" +:+ id) = Some (V_SessionRenew, Some id).
Proof.
  intros (Hn & Hs & _). unfold find_route.
  assert (split_on "/" ("/sessions/renew/" +:+ id) = [""; "sessions"; "renew"; id]) as ->
    by (simpl; by rewrite split_on_none).
  destruct id as [|c id]; [done|]. unfold routes_of_worker. destruct metrics, pooled; vm_compute; reflexivity.
Qed.

Lemma session_machine_known w key a :
  rtc w_step new_world w → sm_Load (w_g w) key = Some a →
  ∃ s m, session_machine (w_g w) a = Some (s, m) ∧ s_key s = key.
Proof.
  intros [Ht _]%w_reachable_ok Hk. destruct (t_stored w Ht key a Hk) as [(s & ma & m & E1 & E2 & E3 & E4 & _) _].
  exists s, m. split; [|done]. unfold session_machine. rewrite E1. cbn. rewrite E3. cbn. by rewrite E4.
Qed.

Lemma sm_Delete_gone published buffer o now w key :
  rtc w_step new_world w → sm_Load (sm_Delete published buffer o now key (w_g w)) key = None.
Proof.
  intros Hw%w_reachable_ok. pose proof (sm_Load_deletes published buffer o now [key] w key Hw) as H.
  cbn [foldl] in H. rewrite H. by rewrite decide_True by set_solver.
Qed.

(** The worker's answer to the two requests, and what it leaves. *)
Lemma worker_delete now m id hdr key sm :
  EngineSession.sm_inv sm → occurs "/" (Address m) = false → plain_id id → ParseSessionKey id = Some key →
  let out := outgoing ord m (delete_request id hdr) in
  let sm' := (worker_serve (Address m) routes_of_worker encode ParseText now out sm).2 in
  ∃ rep, network now m sm out = Some (encode rep) ∧
  match EngineSession.sessions sm !! key_text key with
  | Some _ => Handlers.status rep = 200 ∧ EngineSession.sessions sm' !! key_text key = None
  | None => Handlers.status rep = 404 ∧ sm' = sm
  end.
Proof.
  intros Hi Ha Hid Hk out. unfold network, answer_to, worker_serve, out. cbn [outgoing o_Method o_URL].
  rewrite parse_target; [|done|cbn; apply Hid|done]. rewrite decide_False by naive_solver.
  cbn [delete_request h_Method h_Path]. rewrite delete_route by done.
  assert (ParseText id = Some (key_text key)) as Ht by (unfold ParseText; by rewrite Hk).
  pose proof (Handlers.session_request_status ParseText now id sm Hi) as (_ & _ & Hst).
  unfold Handlers.request_status in Hst. rewrite Ht in Hst.
  destruct (EngineSession.sessions sm !! key_text key) as [sid|] eqn:Hs.
  - destruct (Handlers.deleted_session ParseText now id _ sid sm Hi Ht Hs) as [Hg _].
    destruct (Handlers.DeleteWorkflowSession ParseText now id sm) as [rep sm']. eexists. split; [done|]. done.
  - unfold Handlers.DeleteWorkflowSession in *. rewrite Ht in *. unfold EngineSession.LoadSession in *.
    rewrite Hs in *. eexists. split; [done|]. done.
Qed.

Lemma worker_renew now now' m id hdr key sm :
  EngineSession.sm_inv sm → occurs "/" (Address m) = false → plain_id id → ParseSessionKey id = Some key →
  now' - now < EngineSession.timeout sm →
  let out := outgoing ord m (renew_request id hdr) in
  let sm' := (worker_serve (Address m) routes_of_worker encode ParseText now out sm).2 in
  ∃ rep, network now m sm out = Some (encode rep) ∧
  match EngineSession.sessions sm !! key_text key with
  | Some sid => Handlers.status rep = 200 ∧ EngineSession.sessions sm' = EngineSession.sessions sm ∧
                EngineSession.idle now' sm' sid = false
  | None => Handlers.status rep = 404 ∧ sm' = sm
  end.
Proof.
  intros Hi Ha Hid Hk Hnow out. unfold network, answer_to, worker_serve, out. cbn [outgoing o_Method o_URL].
  rewrite parse_target; [|done|cbn; apply Hid|done]. rewrite decide_False by naive_solver.
  cbn [renew_request h_Method h_Path]. rewrite renew_route by done.
  assert (ParseText id = Some (key_text key)) as Ht by (unfold ParseText; by rewrite Hk).
  pose proof (Handlers.session_request_status ParseText now id sm Hi) as (_ & Hst & _).
  unfold Handlers.request_status in Hst. rewrite Ht in Hst.
  destruct (EngineSession.sessions sm !! key_text key) as [sid|] eqn:Hs.
  - destruct (Handlers.renewed_not_idle ParseText now now' id _ sid sm Hi Ht Hs Hnow) as (Hg & _ & Hid' & _).
    destruct (Handlers.RenewWorkflowSession ParseText now id sm) as [rep sm']. eexists. split; [done|]. done.
  - unfold Handlers.RenewWorkflowSession in *. rewrite Ht in *. unfold EngineSession.LoadSession in *.
    rewrite Hs in *. eexists. split; [done|]. done.
Qed.

(** C20: A forwarded request means the same in both processes.  For every state
    the gateway and the worker can reach and every session the gateway
    knows: when the worker of its machine has the session, a deletion is
    answered 200 and the session is gone from both tables, and a renewal is
    answered 200, marks the session active at the gateway and keeps it from
    the worker's cleanup; when the worker no longer has it, the client gets
    the worker's 404 and neither side changes.  One request is sent, it
    reaches the worker's route for it at the machine's address, the client
    reads the status, the header and the body of the worker's response, and
    the response is closed.  The identifier and the machine's address contain
    no separator of a URL, and the request can be made. *)
Theorem session_requests_cross_gateway w sm a key id hdr published buffer o now now' :
  rtc w_step new_world w → EngineSession.sm_inv sm →
  ParseSessionKey id = Some key → plain_id id → sm_Load (w_g w) key = Some a →
  (∀ s m, session_machine (w_g w) a = Some (s, m) → occurs "/" (Address m) = false ∧
     transport m (delete_request id hdr) ∧ transport m (renew_request id hdr)) →
  now' - now < EngineSession.timeout sm →
  ∃ s m, session_machine (w_g w) a = Some (s, m) ∧
  (let '(g', wr, ev, err) := HandleSessionDelete_http NewRequest (network now m sm) ord published buffer o now
                               (Some key) (delete_request id hdr) new_writer (w_g w) in
   let sm' := worker_after now m ev sm in
   ∃ out resp, err = None ∧ ev = [Sent out; BodyOpened; BodyClosed] ∧
   network now m sm out = Some resp ∧ answer_written wr resp ∧
   match EngineSession.sessions sm !! key_text key with
   | Some _ => w_Status wr = Some 200 ∧ sm_Load g' key = None ∧ EngineSession.sessions sm' !! key_text key = None
   | None => w_Status wr = Some 404 ∧ g' = w_g w ∧ sm' = sm
   end) ∧
  (let '(g', wr, ev, err) := HandleSessionRenew_http NewRequest (network now m sm) ord now
                               (Some key) (renew_request id hdr) new_writer (w_g w) in
   let sm' := worker_after now m ev sm in
   ∃ out resp, err = None ∧ ev = [Sent out; BodyOpened; BodyClosed] ∧
   network now m sm out = Some resp ∧ answer_written wr resp ∧
   match EngineSession.sessions sm !! key_text key with
   | Some sid => w_Status wr = Some 200 ∧ g_sessions g' !! a = Some (touch now s) ∧
                 EngineSession.idle now' sm' sid = false
   | None => w_Status wr = Some 404 ∧ g' = w_g w ∧ sm' = sm
   end).
Proof.
  intros Hw Hi Hk Hid Ha Htr Hnow. destruct (session_machine_known w key a Hw Ha) as (s & m & Hm & Hkey).
  destruct (Htr s m Hm) as (Hslash & Hd & Hr). clear Htr.
  exists s, m. split; [done|]. split.
  - destruct (worker_delete now m id hdr key sm Hi Hslash Hid Hk) as (rep & Hnet & H).
    unfold HandleSessionDelete_http, with_session. cbn [getSessionFromRequest]. rewrite Ha, Hm, Hkey.
    destruct Hd as [Hn He]. destruct (He rep) as (Hst & [body Hb] & Hc).
    pose proof (proxySessionLogic_answer NewRequest (network now m sm) ord (delete_request id hdr) m
      (sm_Delete published buffer o now key) (w_g w) (encode rep) body Hn Hnet Hb Hc) as Hp.
    destruct (proxySessionLogic_http _ _ _ _ _ _ _ _) as [[[g' wr] ev] err].
    destruct Hp as (-> & Hwr & -> & ->). eexists _, _. split_and!; [done|done|exact Hnet|done|].
    destruct Hwr as (Hws & _). rewrite Hws, Hst. destruct (EngineSession.sessions sm !! key_text key).
    + destruct H as [-> H]. rewrite decide_True by done. split_and!; [done| |done]. by apply sm_Delete_gone.
    + destruct H as [-> H]. by rewrite decide_False by done.
  - destruct (worker_renew now now' m id hdr key sm Hi Hslash Hid Hk Hnow) as (rep & Hnet & H).
    unfold HandleSessionRenew_http, with_session. cbn [getSessionFromRequest]. rewrite Ha, Hm.
    destruct Hr as [Hn He]. destruct (He rep) as (Hst & [body Hb] & Hc).
    pose proof (proxySessionLogic_answer NewRequest (network now m sm) ord (renew_request id hdr) m
      (upd_session a (touch now)) (w_g w) (encode rep) body Hn Hnet Hb Hc) as Hp.
    destruct (proxySessionLogic_http _ _ _ _ _ _ _ _) as [[[g' wr] ev] err].
    destruct Hp as (-> & Hwr & -> & ->). eexists _, _. split_and!; [done|done|exact Hnet|done|].
    destruct Hwr as (Hws & _). rewrite Hws, Hst. destruct (EngineSession.sessions sm !! key_text key).
    + destruct H as (-> & _ & H). rewrite decide_True by done. split_and!; [done| |done].
      unfold session_machine in Hm. apply bind_Some in Hm as (s' & Hs' & Hm).
      apply bind_Some in Hm as (ma & _ & Hm). apply bind_Some in Hm as (m' & _ & [= -> _]).
      unfold upd_session. cbn. by rewrite lookup_alter_eq, Hs'.
    + destruct H as [-> H]. by rewrite decide_False by done.
Qed.
End two_processes.

(** ** A concrete pair of processes *)
Definition demo_encode (rep : Handlers.reply Handlers.session_data) : HttpResponse :=
  mkHttpResponse (Handlers.status rep) ∅ (Some [123; 125]).

Lemma session_requests_cross_gateway_witness :
  ∃ m,
  (let '(g', wr, ev, err) := HandleSessionDelete_http (λ _ _, true)
     (network false true demo_encode (λ _, Some demo_key) (λ _, "s1") 1700000390000 m EngineSession.sample_sm)
     default_order (λ _ _, None) nil_slice default_order 1700000390000 (Some demo_key) (delete_request "x" ∅)
     new_writer (w_g demo_created) in
   w_Status wr = Some 200 ∧ (∃ resp, answer_written wr resp) ∧ sm_Load g' demo_key = None ∧
   EngineSession.sessions (worker_after false true demo_encode (λ _, Some demo_key) (λ _, "s1")
     1700000390000 m ev EngineSession.sample_sm) !! "s1" = None).
Proof.
  destruct (session_requests_cross_gateway (λ _ _, true) default_order false true demo_encode
    (λ _, Some demo_key) (λ _, "s1") demo_created EngineSession.sample_sm 0 demo_key "x" ∅ (λ _ _, None) nil_slice
    default_order 1700000390000 1700000390001) as (s & m & Hm & Hd & _).
  - exact demo_created_reachable.
  - exact (EngineSession.sm_reachable_inv _ _ _ _ _ _ _ EngineSession.sample_sm_reachable).
  - reflexivity.
  - split_and!; [discriminate|reflexivity..].
  - vm_compute. reflexivity.
  - intros s m Hm.
    assert ((λ sm, Address sm.2) <$> session_machine (w_g demo_created) 0 = Some "h:7001") as Ha
      by (vm_compute; reflexivity).
    rewrite Hm in Ha. cbn in Ha. injection Ha as Ha. clear Hm. rewrite Ha. split; [vm_compute; reflexivity|].
    split; split; try reflexivity.
    all: intros rep; split_and!; [done|by eexists|apply map_Forall_empty].
  - vm_compute. reflexivity.
  - exists m. destruct (HandleSessionDelete_http _ _ _ _ _ _ _ _ _ _ _) as [[[g' wr] ev] err].
    destruct Hd as (out & resp & _ & _ & _ & Hwr & H).
    assert (is_Some (EngineSession.sessions EngineSession.sample_sm !! "s1")) as [sid Hs] by (vm_compute; by eexists).
    rewrite Hs in H. destruct H as (H1 & H2 & H3). split; [exact H1|]. split; [by exists resp|].
    split; [exact H2|exact H3].
Defined.

(** ** Deviations *)

(** A session the worker has given up stays with the gateway: the deletion
    is answered 404 and the gateway keeps its entry, its binding and the
    load it counts until its own cleanup. *)
Theorem lost_session_cannot_be_deleted NewRequest Do ord published buffer o now key r w g resp body a s m :
  sm_Load g key = Some a → session_machine g a = Some (s, m) →
  NewRequest (h_Method r) (target_url m r) = true → Do (outgoing ord m r) = Some resp →
  p_Body resp = Some body → p_Status resp = 404 →
  (HandleSessionDelete_http NewRequest Do ord published buffer o now (Some key) r w g).1.1.1 = g.
Proof.
  intros Ha Hm Hn Hd Hb Hst. unfold HandleSessionDelete_http, with_session. cbn [getSessionFromRequest].
  rewrite Ha, Hm. unfold proxySessionLogic_http, doMachineRequest. rewrite Hn, Hd, Hb. cbn. rewrite Hst.
  by rewrite decide_False by done.
Qed.

(** A machine whose host is no part of a URL is registered all the same, and
    a request that is proxied to it dereferences a nil target. *)
Theorem unparsable_host_panics Parse mord r g a m :
  Random mord g = Some a → g_machines g !! a = Some m → Parse ("http://" +:+ Address m) = false →
  ProxyToAny_http Parse mord r g = Ok (Some NilTarget).
Proof.
  intros Hr Hm Hp. unfold ProxyToAny_http, ProxyToAny. rewrite Hr. cbn. rewrite Hm. cbn. unfold proxyRequest. by rewrite Hp.
Qed.
