(* ===== verification/Tickers.v ===== *)
(** * Periodic work: tickers and what they guarantee

    The background loops of the program: the cleanup of sessions on a worker
    (engine/session.go), the cleanups and heartbeats of the gateway
    (gateway/session.go, manager.go, pool.go) and of remote plugin servers
    (remote/manager.go).  A loop handles the ticks of a ticker until its
    context ends, interleaved with the other steps of the program.

    Time is part of a run: a ticker is due at the multiples of its period from
    its start, a tick that is due is handled within the latency [delay] of the
    scheduler and of the handlers before it, and ticks missed meanwhile are
    dropped.  From this follows, once for all loops, by when something that has
    expired is gone: within a period and the latency. *)

From S2P Require Import Prelude.
From S2P Require Import GoSlice.
From S2P Require Import Protocol.
From S2P Require Import GatewayPool.
From S2P Require Import Gateway.
From S2P Require Import GatewayWorld.
From S2P Require EngineTypes Registry Lifecycle ConfigManager EngineSession RemotePlugin RemoteManager.

Local Open Scope Z_scope.

(** ** Loops over a ticker *)

(** [time.NewTicker] panics for an interval that is not positive. *)
Definition NewTicker (d : Z) : option Z := if decide (0 < d) then Some d else None.

(** A loop: its period and what it does at a tick. *)
Record loop (S : Type) := mkLoop { period : Z; on_tick : Z → S → S }.
Arguments mkLoop {S} _ _.
Arguments period {S} _.
Arguments on_tick {S} _ _ _.

Section runs.
Context {S : Type} (step : S → S → Prop) (l : loop S) (delay : Z).

Inductive label := Ticked | Waited | Other | Stopped.

(** After a tick was handled at [now], the ticker, whose channel holds one
    tick, is next due at the first multiple of its period that is later. *)
Definition next_due (due now : Z) : Z := due + period l * ((now - due) / period l + 1).

(** Runs of the loop among the other steps, with the instant and the state
    after each: a due tick is handled while the loop runs, and before more
    than [delay] has passed; the end of the context stops the loop, everything
    else goes on. *)
Inductive run : bool → Z → Z → S → list (label * Z * S) → Prop :=
| run_nil b now due s : run b now due s []
| run_tick now due s tr : due ≤ now →
    run true now (next_due due now) (on_tick l now s) tr → run true now due s ((Ticked, now, on_tick l now s) :: tr)
| run_wait b now now' due s tr : now ≤ now' → (b = true → now' ≤ due + delay) →
    run b now' due s tr → run b now due s ((Waited, now', s) :: tr)
| run_other b now due s s' tr : step s s' → run b now due s' tr → run b now due s ((Other, now, s') :: tr)
| run_stop now due s tr : run false now due s tr → run true now due s ((Stopped, now, s) :: tr).

Definition never_stopped (tr : list (label * Z * S)) : Prop := Forall (λ e, e.1.1 ≠ Stopped) tr.
Fixpoint end_time (now : Z) (tr : list (label * Z * S)) : Z :=
  match tr with [] => now | (_, t, _) :: tr => end_time t tr end.

Lemma next_due_bound due now : 0 < period l → due ≤ now → now < next_due due now ≤ now + period l.
Proof. intros Hp Hd. unfold next_due. Z.to_euclidean_division_equations. nia. Qed.

(** Something the ticks remove: [stale s] says it has not been used since
    its last activity, [present s] that it is still there, in the states
    [reach] holds of. *)
Record expiry (reach stale present : S → Prop) (deadline : Z) : Prop := {
  reach_step s s' : reach s → step s s' → reach s';
  reach_tick t s : reach s → reach (on_tick l t s);
  tick_removes t s : reach s → stale s → deadline ≤ t → ¬ present (on_tick l t s);
}.

(** When the run goes on for longer than a period and the latency after the
    deadline, it is gone after a tick handled by then. *)
Lemma removed_by_tick reach stale present deadline tr now due s :
  expiry reach stale present deadline → run true now due s tr → never_stopped tr → 0 < period l →
  reach s → stale s → Forall (λ e, stale e.2) tr →
  due ≤ deadline + period l → now ≤ due + delay → deadline + period l + delay < end_time now tr →
  ∃ tr1 t s' tr2, tr = tr1 ++ (Ticked, t, s') :: tr2 ∧ deadline ≤ t ≤ deadline + period l + delay ∧
    ¬ present s' ∧ reach s'.
Proof.
  intros [Hstep Htick Hrem] Hrun. remember true as b eqn:Hb. revert Hb.
  induction Hrun as [b now due s|now due s tr Hdue Hrun IH|b now now' due s tr Hn Hlim Hrun IH
    |b now due s s' tr Hst Hrun IH|now due s tr Hrun IH]; intros Hb Hns Hper Hr Hs Hall Hd Hl He; simpl in He; try subst b.
  - lia.
  - apply Forall_cons in Hall as [Hs' Hall]. apply Forall_cons in Hns as [_ Hns].
    pose proof (next_due_bound due now Hper Hdue) as Hnd. destruct (decide (deadline ≤ now)) as [Hx|Hx].
    + exists [], now, (on_tick l now s), tr. split; [done|]. split; [lia|]. auto.
    + destruct IH as (tr1 & t' & s' & tr2 & -> & H); auto; [lia..|].
      by exists ((Ticked, now, on_tick l now s) :: tr1), t', s', tr2.
  - apply Forall_cons in Hall as [Hs' Hall]. apply Forall_cons in Hns as [_ Hns].
    destruct IH as (tr1 & t' & s' & tr2 & -> & H); auto. by exists ((Waited, now', s) :: tr1), t', s', tr2.
  - apply Forall_cons in Hall as [Hs' Hall]. apply Forall_cons in Hns as [_ Hns].
    destruct IH as (tr1 & t' & s'' & tr2 & -> & H); eauto. by exists ((Other, now, s') :: tr1), t', s'', tr2.
  - apply Forall_cons in Hns as [Hns _]. done.
Qed.

(** After the end of the context no tick is handled. *)
Lemma stopped_is_quiet now due s tr : run false now due s tr → Forall (λ e, e.1.1 ≠ Ticked) tr.
Proof.
  assert (∀ b, run b now due s tr → b = false → Forall (λ e, e.1.1 ≠ Ticked) tr) as H.
  { intros b Hrun. induction Hrun; intros Hb; try done; constructor; auto. }
  intros Hrun. by eapply H.
Qed.
End runs.

(** ** Sessions of a worker: engine/session.go *)
Module Worker.
Import EngineTypes Registry Lifecycle ConfigManager EngineSession.

(** [startCleanupTicker] with a time-out of [T] nanoseconds. *)
Definition startCleanupTicker (so : iter_order string nat) (T : Z) : option (loop SessionManager) :=
  d ← NewTicker (T / 2); Some (mkLoop d (λ now, Cleanup so (Gateway.UnixMilli now))).

Section worker.
Context {P : Type} `{PluginHooks P} {M : Type} `{WorkflowConfigManager M}.
Context (o : iter_order string nat) (o1 o2 : iter_order string Z).
Context (reg : option (registry P)) (merge : string → string → result string string).
Context (so : iter_order string nat).
Abbreviation step := (sm_step (M := M) o o1 o2 reg merge).

Lemma discards_timeout sids sm : timeout (foldl (λ sm sid, discard sid sm) sm sids) = timeout sm.
Proof.
  revert sm. induction sids as [|sid sids IH]; intros sm; [done|]. cbn. rewrite IH. unfold discard.
  by destruct (sess_heap sm !! sid).
Qed.

Lemma step_timeout sm sm' : step sm sm' → timeout sm' = timeout sm.
Proof.
  intros Hst. destruct Hst; try done.
  - revert H2. unfold CreateSession. destruct (cm_GetWithName m name); [|naive_solver].
    destruct (launch _ _ _ _ _) as [[] []]; naive_solver.
  - unfold LoadSession. destruct (sessions sm !! key) as [sid|]; [|done]. cbn. by destruct (sess_heap sm !! sid).
  - unfold RemoveSession. destruct (sessions sm !! key) as [sid|]; [|done]. apply (discards_timeout [sid] (unmap [key] sm)).
  - unfold Cleanup. by rewrite discards_timeout.
Qed.

Lemma reachable_timeout T sm : rtc step (NewSessionManager T) sm → timeout sm = T.
Proof.
  intros Hr. change T with (timeout (NewSessionManager T)). induction Hr as [|x y z Hst _ IH]; [done|].
  rewrite IH. by apply step_timeout.
Qed.

Lemma unregistered_stopped T sm sid s :
  rtc step (NewSessionManager T) sm → sess_heap sm !! sid = Some s → sessions sm !! Key s ≠ Some sid →
  wf_heap sm !! SWorkflow s = Some (mkWfRec WorkflowStateStopped true).
Proof.
  intros Hi%sm_reachable_inv Hs Hne. destruct (smi_heap _ Hi sid s Hs) as (-> & _ & w & Hw & Hc & [?|Hst]); [done|].
  rewrite Hw. f_equal. destruct w; simpl in *. by rewrite Hst, Hc by done.
Qed.

(** The activity stored with the session is at most [L] (milliseconds). *)
Definition unused (key : string) (sid : nat) (L : Z) (sm : SessionManager) : Prop :=
  ∀ s, sessions sm !! key = Some sid → sess_heap sm !! sid = Some s → LastActive s ≤ L.

(** C26: An unused session does not outlive its time-out by more than half of
    it and the latency of the ticker.  In every run of a worker whose cleanup
    goes on, whatever else happens and in whatever order the map is visited:
    when the activity stored with a session stays at most [L], the session is
    removed by a tick of the cleanup that is handled no later than half the
    time-out, and the latency, after its time-out, and its workflow is
    stopped. *)
Theorem idle_session_evicted T delay lp sm tr key sid L now due :
  startCleanupTicker so T = Some lp → rtc step (NewSessionManager (Gateway.UnixMilli T)) sm →
  run step lp delay true now due sm tr → never_stopped tr →
  unused key sid L sm → Forall (λ e, unused key sid L e.2) tr →
  let deadline := (L + Gateway.UnixMilli T) * 10 ^ 6 in
  now < deadline → due ≤ now + T / 2 → now ≤ due + delay →
  deadline + T / 2 + delay < end_time now tr →
  ∃ tr1 t sm' tr2, tr = tr1 ++ (Ticked, t, sm') :: tr2 ∧ deadline ≤ t ≤ deadline + T / 2 + delay ∧
    sessions sm' !! key ≠ Some sid ∧
    ∀ s, sess_heap sm' !! sid = Some s → Key s = key →
      wf_heap sm' !! SWorkflow s = Some (mkWfRec WorkflowStateStopped true).
Proof.
  intros Hl Hr Hrun Hns Hu Hall deadline Hnow Hdue Hlat Hend.
  apply bind_Some in Hl as (d' & Hd & [= <-]). unfold NewTicker in Hd. case_decide; [|done]. injection Hd as <-.
  set (reach := λ sm, rtc step (NewSessionManager (Gateway.UnixMilli T)) sm ∧ timeout sm = Gateway.UnixMilli T).
  assert (expiry step (mkLoop (T / 2) (λ now, Cleanup so (Gateway.UnixMilli now))) reach (unused key sid L)
    (λ sm, sessions sm !! key = Some sid) deadline) as He.
  { split.
    - intros s s' [Hs Ht] Hst. split; [by eapply rtc_r|]. by rewrite (step_timeout _ _ Hst).
    - intros t s [Hs Ht]. split; [eapply rtc_r; [done|apply sm_cleanup]|]. cbn. unfold Cleanup.
      by rewrite discards_timeout.
    - intros t s [Hs Ht] Hun Hdl Hk. cbn in Hk.
      apply (Cleanup_exact o o1 o2 reg merge _ _ so _ Hs) in Hk as (Hk & s' & Hs' & Hlt).
      specialize (Hun s' Hk Hs'). rewrite Ht in Hlt. unfold deadline, Gateway.UnixMilli in *.
      Z.to_euclidean_division_equations; lia. }
  destruct (removed_by_tick _ _ _ _ _ _ _ tr now due sm He Hrun Hns)
    as (tr1 & t & sm' & tr2 & -> & Hd & Hgone & Hr' & _);
    [done|split; [done|by apply reachable_timeout]|done|done|simpl; lia|done|simpl; lia|].
  exists tr1, t, sm', tr2. split; [done|]. split; [done|]. split; [done|]. intros s Hs <-.
  by eapply unregistered_stopped.
Qed.
End worker.
End Worker.

(** ** The gateway: sessions, machines and pools *)
Module AtGateway.
Section gateway.
Context (published : nat → nat → option nat) (buffer : slice Z) (o : iter_order SessionKey nat).

(** [SessionManager.run]. *)
Definition sm_run (ord : iter_order SessionKey nat) (timeout interval : Z) : option (loop world) :=
  d ← NewTicker interval;
  Some (mkLoop d (λ now w, set_g (sm_cleanup published buffer o ord now timeout (w_g w)) w)).

(** [MachineManager.run]: a loop over two tickers. *)
Definition mm_run (ord : iter_order string nat) (heartbeat cleanup suspend : Z) : option (loop world * loop world) :=
  h ← NewTicker heartbeat;
  c ← NewTicker cleanup;
  Some (mkLoop h (λ _ w, set_g (sendHeartbeats ord (w_g w)) w),
        mkLoop c (λ now w, set_g (cleanupMachines published buffer o ord now suspend (w_g w)) w)).

(** The session under the key has not been used since [L]. *)
Definition unused (key : SessionKey) (L : Z) (w : world) : Prop :=
  ∀ a, sm_Load (w_g w) key = Some a → ∃ s, g_sessions (w_g w) !! a = Some s ∧ 0 < s_lastActiveAt s ≤ L.
(** The machine has not been heard of since [L]. *)
Definition silent (id : string) (L : Z) (w : world) : Prop :=
  ∀ a, LoadMachine (w_g w) id = Some a → ∃ m, g_machines (w_g w) !! a = Some m ∧ 0 < m_lastHeartbeat m ≤ L.

(** The first instant at which [UnixMilli (now - timeout)] is past [L]. *)
Definition expiry_of (L timeout : Z) : Z := (L + 1) * 10 ^ 6 + timeout.

Lemma past_expiry L timeout now : expiry_of L timeout ≤ now → L < UnixMilli (now - timeout).
Proof. unfold expiry_of, UnixMilli. intros H. Z.to_euclidean_division_equations; lia. Qed.

(** C24: The gateway forgets what is silent.  In every run of the gateway whose
    cleanups go on, among all other steps: a session whose last use stays at
    [L] at the latest is no longer registered after a tick of the session
    cleanup handled no later than its interval, and the latency, after the
    session's time-out; and a machine last heard of at [L] is no longer
    registered after a tick of the machine cleanup handled no later than its
    interval, and the latency, after the suspend time-out. *)
Theorem silent_entries_forgotten sord mord timeout suspend interval heartbeat cleanup delay
    w trs trm key id L now dues duem ls lm :
  rtc w_step new_world w →
  sm_run sord timeout interval = Some ls →
  snd <$> mm_run mord heartbeat cleanup suspend = Some lm →
  run w_step ls delay true now dues w trs → never_stopped trs →
  unused key L w → Forall (λ e, unused key L e.2) trs →
  run w_step lm delay true now duem w trm → never_stopped trm →
  silent id L w → Forall (λ e, silent id L e.2) trm →
  now < expiry_of L timeout → dues ≤ now + interval → now ≤ dues + delay →
  expiry_of L timeout + interval + delay < end_time now trs →
  now < expiry_of L suspend → duem ≤ now + cleanup → now ≤ duem + delay →
  expiry_of L suspend + cleanup + delay < end_time now trm →
  (∃ tr1 t w' tr2, trs = tr1 ++ (Ticked, t, w') :: tr2 ∧
     expiry_of L timeout ≤ t ≤ expiry_of L timeout + interval + delay ∧ sm_Load (w_g w') key = None) ∧
  (∃ tr1 t w' tr2, trm = tr1 ++ (Ticked, t, w') :: tr2 ∧
     expiry_of L suspend ≤ t ≤ expiry_of L suspend + cleanup + delay ∧ LoadMachine (w_g w') id = None).
Proof.
  intros Hw Hls Hlm Hrs Hns Hus Has Hrm Hnm Hum Ham Hs1 Hs2 Hs3 Hs4 Hm1 Hm2 Hm3 Hm4. split.
  - apply bind_Some in Hls as (d' & Hd & [= <-]). unfold NewTicker in Hd. case_decide; [|done]. injection Hd as <-.
    assert (expiry w_step (mkLoop interval (λ now w, set_g (sm_cleanup published buffer o sord now timeout (w_g w)) w))
      (rtc w_step new_world) (unused key L) (λ w, sm_Load (w_g w) key ≠ None) (expiry_of L timeout)) as He.
    { split.
      - intros. by eapply rtc_r.
      - intros. eapply rtc_r; [done|]. apply ws_cleanup.
      - intros t w1 Hr Hu Ht Hp. apply Hp. cbn. rewrite session_cleanup_exact by done.
        destruct (sm_Load (w_g w1) key) as [a|] eqn:Ha; [|done]. destruct (Hu a Ha) as (s & Hs & Hl).
        rewrite Hs. apply past_expiry in Ht. rewrite bool_decide_true; [done|]. cbn. f_equal. unfold s_expired.
        apply andb_true_iff. lia. }
    destruct (removed_by_tick _ _ _ _ _ _ _ trs now dues w He Hrs Hns)
      as (tr1 & t & w' & tr2 & -> & Hd & Hg & _); try done; [cbn [period]; lia|].
    exists tr1, t, w', tr2. split; [done|]. split; [done|]. by apply dec_stable.
  - apply fmap_Some in Hlm as (p & Hp & ->). apply bind_Some in Hp as (h & _ & Hp).
    apply bind_Some in Hp as (c & Hc & [= <-]). cbn [snd] in *.
    unfold NewTicker in Hc. case_decide; [|done]. injection Hc as <-.
    assert (expiry w_step (mkLoop cleanup (λ now w, set_g (cleanupMachines published buffer o mord now suspend (w_g w)) w))
      (rtc w_step new_world) (silent id L) (λ w, LoadMachine (w_g w) id ≠ None) (expiry_of L suspend)) as He.
    { split.
      - intros. by eapply rtc_r.
      - intros. eapply rtc_r; [done|]. apply ws_machines.
      - intros t w1 Hr Hu Ht Hp. apply Hp. cbn.
        destruct (machine_cleanup_exact published buffer o mord t suspend w1 Hr) as (H1 & H2 & _).
        destruct (LoadMachine (w_g w1) id) as [a|] eqn:Ha.
        + apply H1. destruct (Hu a Ha) as (m & Hm & Hl). exists a, m. split_and!; [done..|].
          apply past_expiry in Ht. unfold m_expired. apply andb_true_iff. lia.
        + rewrite H2; [done|]. intros (a & m & Ha' & _). unfold LoadMachine in Ha. congruence. }
    destruct (removed_by_tick _ _ _ _ _ _ _ trm now duem w He Hrm Hnm)
      as (tr1 & t & w' & tr2 & -> & Hd & Hg & _); try done; [cbn [period]; lia|].
    exists tr1, t, w', tr2. split; [done|]. split; [done|]. by apply dec_stable.
Qed.
End gateway.
End AtGateway.

(** [ConnectionPool.cleanupLoop]; [visit] is the order of the loop over the
    connections. *)
Definition pool_cleanupLoop (visit : Pool → list nat) (interval : Z) : option (loop Pool) :=
  d ← NewTicker interval; Some (mkLoop d (λ now p, cleanupIdle now (visit p) p)).

(** ** Remote plugin servers: remote/manager.go *)
Module Remote.
Import Registry RemotePlugin RemoteManager.
Section remote.
Context {P : Type} (decodes : string → bool) (make : pbMetadata → string → result string P).
Abbreviation Manager := (Manager (P := P)).

Definition defaultHeartbeatInterval : Z := 3.
Definition defaultRequestTimeout : Z := 5.
Definition second : Z := 10 ^ 9.

(** The goroutines of [pingAll] and [cleanupAll], one per client, in the
    order in which they finish; the answers of a server are its part of
    [answers]. *)
Definition pingAll (o : iter_order string Client) (answers : string → option string * option (list pbMetadata))
    (m : Manager) : Manager :=
  foldl (λ m kc, ping_client decodes make kc.1 (answers kc.1).1 (answers kc.1).2 m) m (range_map o (clients m)).
Definition cleanupAll (o : iter_order string Client) (oi : iter_order string PluginState) (m : Manager) : Manager :=
  foldl (λ m kc, cleanup_client kc.1 oi m) m (range_map o (clients m)).

Definition heartbeatLoop (o : iter_order string Client)
    (answers : Z → string → option string * option (list pbMetadata)) : option (loop Manager) :=
  d ← NewTicker (defaultHeartbeatInterval * second); Some (mkLoop d (λ now, pingAll o (answers now))).
Definition cleanupLoop (o : iter_order string Client) (oi : iter_order string PluginState) : option (loop Manager) :=
  d ← NewTicker (30 * second); Some (mkLoop d (λ _, cleanupAll o oi)).

(** What one round of pings does to one client. *)
Lemma ping_others (kcs : list (string * Client)) ns (answers : string → option string * option (list pbMetadata)) (m : Manager) :
  ns ∉ kcs.*1 →
  clients (foldl (λ m kc, ping_client decodes make kc.1 (answers kc.1).1 (answers kc.1).2 m) m kcs) !! ns
  = clients m !! ns.
Proof.
  revert m. induction kcs as [|[k c] kcs IH]; intros m Hn; [done|]. rewrite fmap_cons, not_elem_of_cons in Hn.
  destruct Hn as [H1 H2]. cbn [foldl]. rewrite IH by done. unfold ping_client. cbn [fst].
  destruct (clients m !! k) as [c'|]; [|done]. destruct (DoPing _ c') as [c'' ev]. cbn.
  by rewrite lookup_insert_ne.
Qed.

Lemma pingAll_client o answers (m : Manager) ns c :
  clients m !! ns = Some c →
  clients (pingAll o answers m) !! ns = Some (DoPing (answers ns).1 c).1.
Proof.
  intros Hc. unfold pingAll. assert ((ns, c) ∈ range_map o (clients m)) as Hin by by apply elem_of_range_map.
  pose proof (NoDup_fst_range_map o (clients m)) as Hnd.
  apply list_elem_of_split in Hin as (l1 & l2 & E). rewrite E in *.
  rewrite fmap_app, fmap_cons in Hnd. apply NoDup_app in Hnd as (_ & H1 & H2). apply NoDup_cons in H2 as [H2 _].
  rewrite foldl_app. cbn [foldl]. rewrite ping_others by done.
  set (m1 := foldl _ m l1). assert (clients m1 !! ns = Some c) as Hm1.
  { unfold m1. rewrite ping_others; [done|]. intros Hx. apply (H1 ns Hx). left. }
  unfold ping_client. cbn [fst snd]. rewrite Hm1. destruct (DoPing (answers ns).1 c) as [c' ev]. cbn.
  by rewrite lookup_insert_eq.
Qed.

(** A server that does not answer is offline after three rounds of the
    heartbeat, nine seconds of its period, whatever the other servers do. *)
Theorem silent_server_goes_offline lp o answers (m : Manager) ns c t1 t2 t3 :
  heartbeatLoop o answers = Some lp → clients m !! ns = Some c → client_ok c →
  (answers t1 ns).1 = None → (answers t2 ns).1 = None → (answers t3 ns).1 = None →
  let m' := on_tick lp t3 (on_tick lp t2 (on_tick lp t1 m)) in
  period lp = 3 * 10 ^ 9 ∧
  ∃ c', clients m' !! ns = Some c' ∧ server_state c' = StateOffline ∧ maxFailCount ≤ failCount c'.
Proof.
  intros Hl Hc Hok H1 H2 H3 m'. apply bind_Some in Hl as (d & Hd & [= <-]).
  unfold NewTicker in Hd. case_decide; [|done]. injection Hd as <-. split; [done|]. unfold m'. cbn [on_tick].
  pose proof (pingAll_client o (answers t1) m ns c Hc) as E1. rewrite H1 in E1.
  pose proof (pingAll_client o (answers t2) _ ns _ E1) as E2. rewrite H2 in E2.
  pose proof (pingAll_client o (answers t3) _ ns _ E2) as E3. rewrite H3 in E3.
  eexists. split; [exact E3|].
  assert (∀ c, client_ok c → client_ok (DoPing None c).1 ∧ failCount (DoPing None c).1 = failCount c + 1) as Hf.
  { intros c0 H0. split; [by apply DoPing_ok|]. unfold DoPing. by repeat case_decide. }
  destruct (Hf c Hok) as [K1 F1]. destruct (Hf _ K1) as [K2 F2]. destruct (Hf _ K2) as [K3 F3].
  assert (maxFailCount ≤ failCount (DoPing None (DoPing None (DoPing None c).1).1).1) as Hm
    by (destruct Hok as [? _]; unfold maxFailCount; lia).
  split; [|done]. destruct K3 as [_ ->]. rewrite !decide_False by (unfold maxFailCount in *; lia). done.
Qed.
End remote.
End Remote.

(** ** Deviations *)

(** The gateway's configuration has no defaults for its two intervals: with
    either left out, the goroutine of the machine manager panics. *)
Theorem missing_interval_panics published buffer o ord heartbeat cleanup suspend :
  heartbeat = 0 ∨ cleanup = 0 → AtGateway.mm_run published buffer o ord heartbeat cleanup suspend = None.
Proof.
  unfold AtGateway.mm_run, NewTicker. intros [->| ->]; [done|]. by destruct (decide (0 < heartbeat)).
Qed.

(** ** Concrete runs *)
Definition demo_published (a c : nat) : option nat := None.
Definition demo_session_loop : loop world :=
  mkLoop 1000000000 (λ now w, set_g (sm_cleanup demo_published nil_slice default_order default_order now 5000000000 (w_g w)) w).
Definition demo_machine_loop : loop world :=
  mkLoop 1000000000 (λ now w, set_g (cleanupMachines demo_published nil_slice default_order default_order now 5000000000 (w_g w)) w).

(** Two ticks, each handled half a second late. *)
Definition demo_trace (l : loop world) (w : world) : list (label * Z * world) :=
  let w1 := on_tick l 6500000000 w in
  let w2 := on_tick l 7500000000 w1 in
  [(Waited, 6500000000, w); (Ticked, 6500000000, w1);
   (Waited, 7500000000, w1); (Ticked, 7500000000, w2); (Waited, 8500000000, w2)].

Lemma demo_trace_run l :
  period l = 1000000000 →
  run w_step l 600000000 true 5500000000 6000000000 demo_created (demo_trace l demo_created).
Proof.
  intros Hp. unfold demo_trace. apply run_wait; [lia|lia|]. apply run_tick; [lia|].
  assert (next_due l 6000000000 6500000000 = 7000000000) as -> by (unfold next_due; rewrite Hp; reflexivity).
  apply run_wait; [lia|lia|]. apply run_tick; [lia|].
  assert (next_due l 7000000000 7500000000 = 8000000000) as -> by (unfold next_due; rewrite Hp; reflexivity).
  apply run_wait; [lia|lia|]. apply run_nil.
Qed.

Lemma demo_never_stopped l w : never_stopped (demo_trace l w).
Proof. repeat (constructor; [discriminate|]). constructor. Qed.

Lemma silent_entries_forgotten_witness :
  (∃ tr1 t w' tr2, demo_trace demo_session_loop demo_created = tr1 ++ (Ticked, t, w') :: tr2 ∧
     6001000000 ≤ t ≤ 7601000000 ∧ sm_Load (w_g w') demo_key = None) ∧
  (∃ tr1 t w' tr2, demo_trace demo_machine_loop demo_created = tr1 ++ (Ticked, t, w') :: tr2 ∧
     6001000000 ≤ t ≤ 7601000000 ∧ LoadMachine (w_g w') "m" = None).
Proof.
  apply (AtGateway.silent_entries_forgotten demo_published nil_slice default_order default_order default_order
    5000000000 5000000000 1000000000 1000000000 1000000000 600000000 demo_created
    (demo_trace demo_session_loop demo_created) (demo_trace demo_machine_loop demo_created)
    demo_key "m" 1000 5500000000 6000000000 6000000000 demo_session_loop demo_machine_loop demo_created_reachable);
    try reflexivity.
  - apply demo_trace_run. reflexivity.
  - apply demo_never_stopped.
  - intros a Ha. vm_compute in Ha. injection Ha as <-. vm_compute. eexists. split; [reflexivity|]. by split.
  - repeat constructor; intros a Ha; vm_compute in Ha; try discriminate Ha.
    injection Ha as <-. vm_compute. eexists. split; [reflexivity|]. by split.
  - apply demo_trace_run. reflexivity.
  - apply demo_never_stopped.
  - intros a Ha. vm_compute in Ha. injection Ha as <-. vm_compute. eexists. split; [reflexivity|]. by split.
  - repeat constructor; intros a Ha; vm_compute in Ha; try discriminate Ha.
    injection Ha as <-. vm_compute. eexists. split; [reflexivity|]. by split.
  - vm_compute. discriminate.
  - vm_compute. discriminate.
  - vm_compute. discriminate.
  - vm_compute. discriminate.
Defined.

Module WorkerDemo.
Import EngineTypes Registry Lifecycle ConfigManager EngineSession Worker.

Definition demo_loop : loop SessionManager :=
  mkLoop 30000000000 (λ now, Cleanup default_order (Gateway.UnixMilli now)).
(** The session was last used at 1700000090 s with a time-out of a minute. *)
Definition demo_tick : Z := 1700000160000 * 10 ^ 6.
Definition demo_tick2 : Z := 1700000190000 * 10 ^ 6.
Definition demo_trace : list (label * Z * SessionManager) :=
  let s1 := on_tick demo_loop demo_tick sample_sm in
  let s2 := on_tick demo_loop demo_tick2 s1 in
  [(Waited, demo_tick, sample_sm); (Ticked, demo_tick, s1);
   (Waited, demo_tick2, s1); (Ticked, demo_tick2, s2); (Waited, demo_tick2, s2)].

Lemma idle_session_evicted_witness :
  ∃ tr1 t sm' tr2, demo_trace = tr1 ++ (Ticked, t, sm') :: tr2 ∧
    (1700000090000 + 60000) * 10 ^ 6 ≤ t ≤ (1700000090000 + 60000) * 10 ^ 6 + 60000000000 / 2 + 1000000 ∧
    sessions sm' !! "s1" ≠ Some 0%nat ∧
    ∀ s, sess_heap sm' !! 0%nat = Some s → Key s = "s1" →
      wf_heap sm' !! SWorkflow s = Some (mkWfRec WorkflowStateStopped true).
Proof.
  apply (idle_session_evicted (H0 := sample_FM) default_order default_order default_order (Some sample_registry)
    (λ _ ov, Ok ov) default_order 60000000000 1000000 demo_loop sample_sm demo_trace "s1" 0%nat 1700000090000
    (1700000140000 * 10 ^ 6) demo_tick).
  - reflexivity.
  - exact sample_sm_reachable.
  - unfold demo_trace. apply run_wait; [by vm_compute|by vm_compute|]. apply run_tick; [by vm_compute|].
    replace (next_due demo_loop demo_tick demo_tick) with demo_tick2 by (vm_compute; reflexivity).
    apply run_wait; [by vm_compute|by vm_compute|]. apply run_tick; [by vm_compute|].
    apply run_wait; [by vm_compute|by vm_compute|]. apply run_nil.
  - repeat (constructor; [discriminate|]). constructor.
  - intros s _ Hs. vm_compute in Hs. injection Hs as <-. vm_compute. discriminate.
  - repeat constructor; intros s Hk Hs; vm_compute in Hk; try discriminate Hk;
      vm_compute in Hs; injection Hs as <-; vm_compute; discriminate.
  - vm_compute. reflexivity.
  - vm_compute. discriminate.
  - vm_compute. discriminate.
  - vm_compute. reflexivity.
Defined.
End WorkerDemo.
