(* ===== verification/PluginTester.v ===== *)
(** * The test harness of plugins: engine/mock_flow.go, plugin_tester.go

    [MockFlow] is the flow a plugin under test sends to: it counts activity,
    keeps media alive for the time of a hook and hands everything to the
    hooks of the test.  [PluginTester] drives a plugin with it.  The plugin is
    one of [PluginFlow]; the test keeps any state its hooks want. *)

From S2P Require Import Prelude.
From S2P Require Import Schema.
From S2P Require Import PluginFlow.

Local Open Scope Z_scope.

Definition DefaultActivityTimeout : Z := 10 * 10 ^ 9.
Definition ActivityBufferSize : nat := 1024.

Section tester.
(** The state of the test, and its video frames. *)
Context {T V : Type}.

(** ** mock_flow.go *)
Record MockFlow := mkMock {
  OnSignalHook : option (Z → Named.object → T → T);
  OnPayloadHook : option (Z → Named.object → T → T);
  OnAudioHook : option (Z → audio_frame → T → T);
  OnVideoHook : option (Z → V → T → T);
  OnPublishHook : option (Z → list Z → T → T);
  OnPublishFullHook : option (Z → Z → list Z → T → T);
}.
Definition new_mock : MockFlow := mkMock None None None None None None.

(** What happens to the references of a frame. *)
Inductive ref_event := RetainAudio (a : audio_frame) | ReleaseAudio (a : audio_frame)
| RetainVideo (v : V) | ReleaseVideo (v : V).

(** ** plugin_tester.go *)
Record Tester := mkTester {
  mock : MockFlow;
  test : T;
  activity : nat;            (* items in the buffered channel *)
  cancelled : bool;          (* the context of the tester *)
  errors : nat;              (* t.Errorf *)
  fatal : bool;              (* t.Fatalf *)
  refs : list ref_event;
}.

Definition NewPluginTester (t : T) : Tester := mkTester new_mock t 0 false 0 false [].

Definition set_mock (m : MockFlow) (t : Tester) : Tester :=
  mkTester m (test t) (activity t) (cancelled t) (errors t) (fatal t) (refs t).
Definition set_test (x : T) (t : Tester) : Tester :=
  mkTester (mock t) x (activity t) (cancelled t) (errors t) (fatal t) (refs t).
Definition set_activity (n : nat) (t : Tester) : Tester :=
  mkTester (mock t) (test t) n (cancelled t) (errors t) (fatal t) (refs t).
Definition cancel (t : Tester) : Tester :=
  mkTester (mock t) (test t) (activity t) true (errors t) (fatal t) (refs t).
Definition Errorf (t : Tester) : Tester :=
  mkTester (mock t) (test t) (activity t) (cancelled t) (S (errors t)) (fatal t) (refs t).
Definition Fatalf (t : Tester) : Tester :=
  mkTester (mock t) (test t) (activity t) (cancelled t) (errors t) true (refs t).
Definition note (r : ref_event) (t : Tester) : Tester :=
  mkTester (mock t) (test t) (activity t) (cancelled t) (errors t) (fatal t) (refs t ++ [r]).

(** [pingActivity]: a send that never blocks. *)
Definition pingActivity (t : Tester) : Tester :=
  if decide (activity t < ActivityBufferSize)%nat then set_activity (S (activity t)) t else t.

(** A hook that is set is called with the state of the test. *)
Definition call {H} (h : option H) (f : H → T → T) (t : Tester) : Tester :=
  match h with Some h => set_test (f h (test t)) t | None => t end.

Definition Publish_mock (mt : Z) (data : list Z) (t : Tester) : Tester :=
  let t := pingActivity t in call (OnPublishHook (mock t)) (λ h, h mt data) t.
Definition PublishFull_mock (mt encode : Z) (data : list Z) (t : Tester) : Tester :=
  let t := pingActivity t in call (OnPublishFullHook (mock t)) (λ h, h mt encode data) t.
Definition SendSignalToPort (port : Z) (v : Named.object) (t : Tester) : Tester :=
  let t := pingActivity t in call (OnSignalHook (mock t)) (λ h, h port v) t.
Definition SendPayloadToPort (port : Z) (v : Named.object) (t : Tester) : Tester :=
  let t := pingActivity t in call (OnPayloadHook (mock t)) (λ h, h port v) t.
Definition SendAudioToPort (port : Z) (v : audio_frame) (t : Tester) : Tester :=
  let t := note (RetainAudio v) (pingActivity t) in
  note (ReleaseAudio v) (call (OnAudioHook (mock t)) (λ h, h port v) t).
Definition SendVideoToPort (port : Z) (v : V) (t : Tester) : Tester :=
  let t := note (RetainVideo v) (pingActivity t) in
  note (ReleaseVideo v) (call (OnVideoHook (mock t)) (λ h, h port v) t).

(** The calls of a plugin on the flow; those without a port use port 0. *)
Definition mock_send (t : Tester) (e : flow_event) : Tester :=
  match e with
  | SendSignal v => SendSignalToPort 0 v t
  | SendPayload v => SendPayloadToPort 0 v t
  | SendAudio v => SendAudioToPort 0 v t
  | Publish mt data => Publish_mock mt data t
  | PublishFull mt encode data => PublishFull_mock mt encode data t
  end.

(** The hooks a test registers. *)
Definition OnSignal_hook f (t : Tester) : Tester :=
  let m := mock t in set_mock (mkMock (Some f) (OnPayloadHook m) (OnAudioHook m) (OnVideoHook m) (OnPublishHook m) (OnPublishFullHook m)) t.
Definition OnPayload_hook f (t : Tester) : Tester :=
  let m := mock t in set_mock (mkMock (OnSignalHook m) (Some f) (OnAudioHook m) (OnVideoHook m) (OnPublishHook m) (OnPublishFullHook m)) t.
Definition OnAudio_hook f (t : Tester) : Tester :=
  let m := mock t in set_mock (mkMock (OnSignalHook m) (OnPayloadHook m) (Some f) (OnVideoHook m) (OnPublishHook m) (OnPublishFullHook m)) t.
Definition OnVideo_hook f (t : Tester) : Tester :=
  let m := mock t in set_mock (mkMock (OnSignalHook m) (OnPayloadHook m) (OnAudioHook m) (Some f) (OnPublishHook m) (OnPublishFullHook m)) t.
Definition OnPublish_hook f (t : Tester) : Tester :=
  let m := mock t in set_mock (mkMock (OnSignalHook m) (OnPayloadHook m) (OnAudioHook m) (OnVideoHook m) (Some f) (OnPublishFullHook m)) t.
Definition OnPublishFull_hook f (t : Tester) : Tester :=
  let m := mock t in set_mock (mkMock (OnSignalHook m) (OnPayloadHook m) (OnAudioHook m) (OnVideoHook m) (OnPublishHook m) (Some f)) t.

(** *** Driving a plugin *)
Section plugin.
Context {S : Type} (ops : plugin_ops S).

(** [Start]: [OnStart] with its outcome and sends, then [OnReady]; a failed
    start ends the test. *)
Definition Start (on_start : S → result string S * list flow_event) (on_ready : S → S * list flow_event)
    (s : S) (t : Tester) : S * Tester :=
  match on_start s with
  | (Err _, out) => (s, Fatalf (foldl mock_send t out))
  | (Ok s, out) =>
      let t := foldl mock_send t out in
      let '(s, out) := on_ready s in (s, foldl mock_send t out)
  end.

(** [InjectSignal], [InjectPayload] and [InjectAudio]. *)
Definition Inject (i : input) (st : S * Tester) : S * Tester :=
  let t := pingActivity st.2 in
  let '(s, out) := handle ops st.1 i in (s, foldl mock_send t out).

(** [InjectVideo], for a plugin's handler of video. *)
Definition InjectVideo (on_video : S → V → S * list flow_event) (v : V) (st : S * Tester) : S * Tester :=
  let t := pingActivity st.2 in
  let '(s, out) := on_video st.1 v in (s, foldl mock_send t out).

Definition Stop (on_stop : S → S * list flow_event) (st : S * Tester) : S * Tester :=
  let '(s, out) := on_stop st.1 in (s, cancel (foldl mock_send st.2 out)).
Definition Done (t : Tester) : Tester := cancel t.
End plugin.

(** *** Wait

    What the select of [Wait] sees: an item of activity, taken at an instant,
    the end of the context, or the timer. *)
Inductive wait_event := ActivityAt (now : Z) | ContextDone | TimerFired.

(** The instants are possible for a timer that is reset at each item. *)
Fixpoint possible (deadline last : Z) (evs : list wait_event) : Prop :=
  match evs with
  | ActivityAt now :: evs => last ≤ now ≤ last + deadline ∧ possible deadline now evs
  | _ => True
  end.

Fixpoint Wait (evs : list wait_event) (t : Tester) : option Tester :=
  match evs with
  | [] => None (* still waiting *)
  | ContextDone :: _ => Some t
  | ActivityAt _ :: evs => Wait evs (set_activity (pred (activity t)) t)
  | TimerFired :: _ => Some (cancel (Errorf t))
  end.

(** ** Properties *)

(** The effect of one send on the state of the test. *)
Definition hooked (m : MockFlow) (x : T) (e : flow_event) : T :=
  match e with
  | SendSignal v => match OnSignalHook m with Some h => h 0 v x | None => x end
  | SendPayload v => match OnPayloadHook m with Some h => h 0 v x | None => x end
  | SendAudio v => match OnAudioHook m with Some h => h 0 v x | None => x end
  | Publish mt data => match OnPublishHook m with Some h => h mt data x | None => x end
  | PublishFull mt e data => match OnPublishFullHook m with Some h => h mt e data x | None => x end
  end.
Definition ref_events (e : flow_event) : list ref_event :=
  match e with SendAudio a => [RetainAudio a; ReleaseAudio a] | _ => [] end.

Lemma pingActivity_keeps t :
  mock (pingActivity t) = mock t ∧ test (pingActivity t) = test t ∧ refs (pingActivity t) = refs t ∧
  errors (pingActivity t) = errors t ∧ fatal (pingActivity t) = fatal t ∧ cancelled (pingActivity t) = cancelled t.
Proof. unfold pingActivity. by case_decide. Qed.

Lemma pingActivity_bound t :
  (activity t ≤ ActivityBufferSize)%nat → (activity (pingActivity t) ≤ ActivityBufferSize)%nat.
Proof. unfold pingActivity. case_decide; cbn; lia. Qed.

(** One call on the mock: the hook, the references and nothing else. *)
Lemma mock_send_spec t e :
  let t' := mock_send t e in
  mock t' = mock t ∧ test t' = hooked (mock t) (test t) e ∧ refs t' = refs t ++ ref_events e ∧
  errors t' = errors t ∧ fatal t' = fatal t ∧ cancelled t' = cancelled t ∧
  ((activity t ≤ ActivityBufferSize)%nat → (activity t' ≤ ActivityBufferSize)%nat).
Proof.
  pose proof (pingActivity_bound t) as Hb. destruct (pingActivity_keeps t) as (E1 & E2 & E3 & E4 & E5 & E6).
  destruct e; cbn [mock_send hooked ref_events];
    unfold SendSignalToPort, SendPayloadToPort, SendAudioToPort, Publish_mock, PublishFull_mock, call; cbn;
    rewrite ?E1; case_match; cbn;
    rewrite ?E1, ?E2, ?E3, ?E4, ?E5, ?E6, <-?app_assoc, ?app_nil_r; split_and!; done.
Qed.

Lemma mock_sends_spec out t :
  let t' := foldl mock_send t out in
  mock t' = mock t ∧ test t' = foldl (hooked (mock t)) (test t) out ∧ refs t' = refs t ++ (out ≫= ref_events) ∧
  errors t' = errors t ∧ fatal t' = fatal t ∧ cancelled t' = cancelled t ∧
  ((activity t ≤ ActivityBufferSize)%nat → (activity t' ≤ ActivityBufferSize)%nat).
Proof.
  revert t. induction out as [|e out IH]; intros t; cbn [foldl]; [by rewrite app_nil_r|].
  destruct (mock_send_spec t e) as (A1 & A2 & A3 & A4 & A5 & A6 & A7).
  destruct (IH (mock_send t e)) as (B1 & B2 & B3 & B4 & B5 & B6 & B7).
  rewrite bind_cons, app_assoc. split_and!; try congruence; auto.
Qed.

(** Tests see what plugins do.  For every plugin, every sequence of injected
    events and every set of hooks: the plugin ends in the state it would have
    in a node, the state of the test is the hooks applied, in order and on
    port 0, to exactly the calls the plugin makes on its flow, every audio
    frame is retained before its hook and released after it, nothing fails or
    cancels the test, and the activity channel never overflows. *)
Theorem tester_observes_plugin {S : Type} (ops : plugin_ops S) ins s t :
  let r := foldl (λ st i, Inject ops i st) (s, t) ins in
  let out := (handle_all ops s ins).2 in
  r.1 = (handle_all ops s ins).1 ∧
  test r.2 = foldl (hooked (mock t)) (test t) out ∧
  refs r.2 = refs t ++ (out ≫= ref_events) ∧
  errors r.2 = errors t ∧ fatal r.2 = fatal t ∧ cancelled r.2 = cancelled t ∧ mock r.2 = mock t ∧
  ((activity t ≤ ActivityBufferSize)%nat → (activity r.2 ≤ ActivityBufferSize)%nat).
Proof.
  revert s t. induction ins as [|i ins IH]; intros s t; cbn [foldl handle_all].
  { cbn. rewrite app_nil_r. split_and!; done. }
  unfold Inject at 2 4 6 8 10 12 14 16. cbn [fst snd].
  destruct (handle ops s i) as [s1 out1] eqn:Eh.
  destruct (pingActivity_keeps t) as (E1 & E2 & E3 & E4 & E5 & E6).
  destruct (mock_sends_spec out1 (pingActivity t)) as (A1 & A2 & A3 & A4 & A5 & A6 & A7).
  set (t1 := foldl mock_send (pingActivity t) out1) in *.
  destruct (IH s1 t1) as (B1 & B2 & B3 & B4 & B5 & B6 & B7 & B8).
  destruct (handle_all ops s1 ins) as [s2 out2]. cbn [fst snd] in *.
  rewrite foldl_app, bind_app, app_assoc. split_and!; try congruence.
  intros Ha. apply B8, A7, pingActivity_bound, Ha.
Qed.

(** *** Waiting *)
Lemma Wait_activity ts evs t :
  Wait ((ActivityAt <$> ts) ++ evs) t = Wait evs (set_activity (activity t - length ts) t).
Proof.
  revert t. induction ts as [|x ts IH]; intros t; cbn -[Nat.sub].
  - rewrite Nat.sub_0_r. by destruct t.
  - rewrite IH. cbn -[Nat.sub]. f_equal. unfold set_activity. cbn -[Nat.sub]. f_equal. lia.
Qed.

(** A wait ends: with the context, leaving the test as it is, or with the
    timer, a whole time-out after the last of finitely many items; then, and
    only then, the test fails and its context ends. *)
Theorem Wait_ends deadline t0 ts e t :
  0 ≤ deadline → possible deadline t0 ((ActivityAt <$> ts) ++ [e]) → (∀ now, e ≠ ActivityAt now) →
  ∃ t', Wait ((ActivityAt <$> ts) ++ [e]) t = Some t' ∧ test t' = test t ∧
    default t0 (last ts) ≤ t0 + Z.of_nat (length ts) * deadline ∧
    (errors t' = errors t ∧ cancelled t' = cancelled t ∧ e = ContextDone ∨
     errors t' = S (errors t) ∧ cancelled t' = true ∧ e = TimerFired).
Proof.
  intros Hd Hp He. rewrite Wait_activity.
  assert (default t0 (last ts) ≤ t0 + Z.of_nat (length ts) * deadline) as Hl.
  { clear -Hd Hp. revert t0 Hp. induction ts as [|x ts IH]; intros t0 Hp; [cbn; lia|].
    destruct Hp as [Hx Hp]. specialize (IH x Hp). destruct ts as [|y ts]; [cbn in *; lia|].
    rewrite last_cons_cons. destruct (last (y :: ts)) as [z|] eqn:E; [|by apply last_None in E].
    cbn [default] in *. cbn [length] in *. lia. }
  destruct e as [now| |]; [by destruct (He now)|..]; eexists; (split; [done|]); (split; [done|]);
    (split; [done|]); [left|right]; done.
Qed.
End tester.

(** ** Deviations *)

(** The comment promises that [Wait] returns when the plugin has been quiet
    for the given time; a quiet plugin fails the test. *)
Theorem quiet_plugin_fails_test {T V} (ts : list Z) (t : Tester (T := T) (V := V)) :
  ∃ t', Wait ((ActivityAt <$> ts) ++ [TimerFired]) t = Some t' ∧ errors t' = S (errors t).
Proof. rewrite Wait_activity. eexists. split; [done|]. done. Qed.
