(* ===== verification/Logging.v ===== *)
(** * Logging: pkg/logging

    The configuration with its defaults, the levels, the line the console
    handler writes, the values a record takes from its context, and the
    handlers with what they inherit.  Handlers run concurrently: a record is
    formatted in a buffer of a pool and written under a mutex. *)

From S2P Require Import Prelude.
From S2P Require Import GoStrings.
From S2P Require Import GoNet.

Local Open Scope Z_scope.

(** ** config.go *)
Record Config := mkConfig {
  Console : bool; Level : string; Source : bool; FileDir : string; FileName : string;
  MaxSize : Z; MaxBackups : Z; MaxAge : Z; Compress : bool;
}.
Definition DefaultConfig : Config := mkConfig true "INFO" false "./logs" "voce.log" 50 5 10 false.

Definition LevelDebug : Z := -4.
Definition LevelInfo : Z := 0.
Definition LevelWarn : Z := 4.
Definition LevelError : Z := 8.
Definition loggerLevelMap : gmap string Z :=
  {[ "DEBUG" := LevelDebug; "INFO" := LevelInfo; "WARN" := LevelWarn; "ERROR" := LevelError ]}.

Definition SetDefaults (c : Config) : Config :=
  let pos d z := if decide (z ≤ 0) then d else z in
  let text d s := if decide (s = "") then d else s in
  mkConfig (Console c)
    (match loggerLevelMap !! Level c with Some _ => Level c | None => Level DefaultConfig end)
    (Source c) (text (FileDir DefaultConfig) (FileDir c)) (text (FileName DefaultConfig) (FileName c))
    (pos (MaxSize DefaultConfig) (MaxSize c)) (pos (MaxBackups DefaultConfig) (MaxBackups c))
    (pos (MaxAge DefaultConfig) (MaxAge c)) (Compress c).

(** Every field is usable, and what was usable is kept. *)
Lemma SetDefaults_total c :
  let c' := SetDefaults c in
  is_Some (loggerLevelMap !! Level c') ∧ 0 < MaxSize c' ∧ 0 < MaxBackups c' ∧ 0 < MaxAge c' ∧
  FileDir c' ≠ "" ∧ FileName c' ≠ "" ∧ SetDefaults c' = c'.
Proof.
  assert (is_Some (loggerLevelMap !! Level (SetDefaults c))) as Hl.
  { cbn. destruct (loggerLevelMap !! Level c) eqn:E; [by rewrite E|by eexists]. }
  split; [done|]. destruct Hl as [l Hl]. cbn in *.
  split_and!; [case_decide; lia|case_decide; lia|case_decide; lia|by case_decide|by case_decide|].
  unfold SetDefaults. cbn. rewrite Hl. f_equal; repeat case_decide; (done || lia).
Qed.

(** ** Records *)

(** [slog.Level.String]: a name and the distance to it. *)
Definition signed (z : Z) : string := if decide (z < 0) then Itoa z else "+" +:+ Itoa z.
Definition level_from (base : string) (d : Z) : string := if decide (d = 0) then base else base +:+ signed d.
Definition Level_String (l : Z) : string :=
  if decide (l < LevelInfo) then level_from "DEBUG" (l - LevelDebug)
  else if decide (l < LevelWarn) then level_from "INFO" (l - LevelInfo)
  else if decide (l < LevelError) then level_from "WARN" (l - LevelWarn)
  else level_from "ERROR" (l - LevelError).

(** Values as texts, and groups of attributes. *)
Inductive attr_value := Text (s : string) | Group (l : list (string * string)).
Record Attr := mkAttr { a_Key : string; a_Value : attr_value }.
Fixpoint joined (l : list (string * string)) : string :=
  match l with
  | [] => ""
  | [(k, v)] => k +:+ "=" +:+ v
  | (k, v) :: l => k +:+ "=" +:+ v +:+ " " +:+ joined l
  end.
Definition Value_String (v : attr_value) : string :=
  match v with Text s => s | Group l => "[" +:+ joined l +:+ "]" end.
Definition Attr_String (a : Attr) : string := a_Key a +:+ "=" +:+ Value_String (a_Value a).

(** A record; its time is formatted, its caller a function and a line. *)
Record Record_ := mkRecord {
  r_Time : string; r_Level : Z; r_Message : string; r_Function : string; r_Line : Z; r_Attrs : list Attr;
}.

(** ** console.go *)
Definition esc : string := String (ascii_of_nat 27) "[".
Definition reset : string := esc +:+ "0m".
Definition cyan : string := "36".
Definition green : string := "32".
Definition lightGray : string := "37".
Definition lightRed : string := "91".
Definition lightYellow : string := "93".
Definition lightBlue : string := "94".
Definition newline : string := String (ascii_of_nat 10) "".

Definition colorize (color value : string) : string := esc +:+ color +:+ "m" +:+ value +:+ reset.

Definition level_text (l : Z) : string :=
  if decide (l = LevelDebug) then colorize lightGray (Level_String l)
  else if decide (l = LevelInfo) then colorize cyan (Level_String l)
  else if decide (l = LevelWarn) then colorize lightYellow (Level_String l)
  else if decide (l = LevelError) then colorize lightRed (Level_String l)
  else Level_String l.

(** [path.Split]: what follows the last slash. *)
Fixpoint base_name (s : string) : string :=
  match s with
  | EmptyString => ""
  | String c s' =>
      if decide (c = "/"%char) then base_name s'
      else if bool_decide ("/"%char ∈ String.list_ascii_of_string s') then base_name s' else s
  end.

Definition shown (a : Attr) : bool := bool_decide (a_Key a ∉ ["time"; "level"; "msg"]).
Definition attr_text (a : Attr) : string := if shown a then " " +:+ Attr_String a else "".

(** The line of a record. *)
Definition line (source : bool) (r : Record_) : string :=
  colorize lightGray (r_Time r) +:+ " " +:+ level_text (r_Level r) +:+ " "
  +:+ (if source then colorize lightBlue (base_name (r_Function r) +:+ ":" +:+ Itoa (r_Line r)) +:+ " - " else "")
  +:+ colorize green (r_Message r)
  +:+ foldr (λ a s, attr_text a +:+ s) "" (r_Attrs r)
  +:+ newline.

(** *** Concurrent records

    Each [Handle] takes a buffer from the pool and formats into it; later it
    takes the mutex, writes, resets the buffer and puts it back.  [inflight]
    are the handlers between the two. *)
Record console := mkConsole {
  pool : list string;                  (* buffers, by what they hold *)
  inflight : gmap nat (string * string); (* buffer before, and after formatting *)
  written : list string;               (* the writes to the terminal, in order *)
}.
Definition new_console : console := mkConsole [] ∅ [].

(** [Get] hands out any buffer of the pool, or a new one. *)
Definition handle_begin (source : bool) (h : nat) (r : Record_) (choice : option nat) (c : console) : console :=
  let '(b, p) := match choice ≫= λ i, (i,.) <$> pool c !! i with
                 | Some (i, b) => (b, delete i (pool c))
                 | None => ("", pool c)
                 end in
  mkConsole p (<[h := (b, b +:+ line source r)]> (inflight c)) (written c).

(** The deferred function resets the buffer whether the write failed or not. *)
Definition handle_end (h : nat) (c : console) : console :=
  match inflight c !! h with
  | None => c
  | Some (_, b) => mkConsole ("" :: pool c) (delete h (inflight c)) (written c ++ [b])
  end.

Inductive console_step (source : bool) : console → console → Prop :=
| cs_begin h r choice c : inflight c !! h = None → console_step source c (handle_begin source h r choice c)
| cs_end h c : is_Some (inflight c !! h) → console_step source c (handle_end h c).

Definition is_line (source : bool) (s : string) : Prop := ∃ r, s = line source r.
Record console_ok (source : bool) (c : console) : Prop := {
  co_pool : Forall (λ b, b = "") (pool c);
  co_inflight h b s : inflight c !! h = Some (b, s) → is_line source s;
  co_written : Forall (is_line source) (written c);
}.

(** Whatever the interleaving of loggers and the buffers the pool hands out:
    what is written is a sequence of whole lines, each of one record, and
    the pool holds no remains. *)
Theorem console_lines_whole source c :
  rtc (console_step source) new_console c → console_ok source c.
Proof.
  intros Hr. eapply (rtc_invariant (console_step source) (console_ok source)); [|exact Hr|split; [constructor|by intros|constructor]].
  clear c Hr. intros x y [Hp Hi Hw] Hst. destruct Hst as [h r choice c Hh|h c [[b s] Hs]].
  - unfold handle_begin. destruct (choice ≫= λ i, (i,.) <$> pool c !! i) as [[i b]|] eqn:E.
    + apply bind_Some in E as (i' & _ & (b' & Hb & [= -> ->])%fmap_Some).
      assert (b' = "") as -> by (by eapply (Forall_lookup_1 _ _ _ _ Hp)). split; cbn; [by apply Forall_delete| |done].
      intros h' b0 s. destruct (decide (h' = h)) as [->|Hne].
      * rewrite lookup_insert_eq. intros [= <- <-]. by exists r.
      * rewrite lookup_insert_ne by done. apply Hi.
    + split; cbn; [done| |done]. intros h' b0 s. destruct (decide (h' = h)) as [->|Hne].
      * rewrite lookup_insert_eq. intros [= <- <-]. by exists r.
      * rewrite lookup_insert_ne by done. apply Hi.
  - unfold handle_end. rewrite Hs. split; cbn.
    + by constructor.
    + intros h' b' s' Hl. apply lookup_delete_Some in Hl as [_ Hl]. by eapply Hi.
    + apply Forall_app. split; [done|]. constructor; [by eapply Hi|constructor].
Qed.

(** ** context.go *)

(** A value of a context, by its text; the kinds only choose how it is put
    into the record. *)
Inductive ctx_value := VString (s : string) | VInt64 (z : Z) | VUint64 (z : Z) | VBool (b : bool)
| VDuration (text : string) | VTime (text : string) | VAny (text : string).
Definition ctx_text (v : ctx_value) : string :=
  match v with
  | VString s => s
  | VInt64 z | VUint64 z => Itoa z
  | VBool b => if b then "true" else "false"
  | VDuration t | VTime t | VAny t => t
  end.

Definition contextKey : string := "context".
Definition context_attrs (keys : list string) (ctx : gmap string ctx_value) : list (string * string) :=
  omap (λ k, (λ v, (k, ctx_text v)) <$> ctx !! k) keys.

Definition AddAttrs (a : Attr) (r : Record_) : Record_ :=
  mkRecord (r_Time r) (r_Level r) (r_Message r) (r_Function r) (r_Line r) (r_Attrs r ++ [a]).
Definition context_record (keys : list string) (ctx : gmap string ctx_value) (r : Record_) : Record_ :=
  if decide (keys = []) then r else AddAttrs (mkAttr contextKey (Group (context_attrs keys ctx))) r.

(** ** logger.go *)
Record lumberjack := mkLumberjack {
  lj_Filename : string; lj_MaxSize : Z; lj_MaxBackups : Z; lj_MaxAge : Z; lj_Compress : bool }.

(** The handlers; the text handler below the console writes to io.Discard,
    [HJson] to the terminal and a file. *)
Inductive handler :=
| HDiscard (level : Z)
| HConsole (parent : handler) (source : bool)
| HJson (level : Z) (file : lumberjack)
| HContext (keys : list string) (parent : handler).

(** [path.Join] and the outcome of [os.MkdirAll] are arguments. *)
Definition newLumberjackLogger (Join : string → string → string) (mkdir : bool) (c : Config) : option lumberjack :=
  if mkdir then Some (mkLumberjack (Join (FileDir c) (FileName c)) (MaxSize c) (MaxBackups c) (MaxAge c) (Compress c))
  else None.

Definition NewLogger (Join : string → string → string) (mkdir : bool) (c : Config) : option handler :=
  let c := SetDefaults c in
  let level := default LevelInfo (loggerLevelMap !! Level c) in
  if Console c then Some (HConsole (HDiscard level) (Source c))
  else f ← newLumberjackLogger Join mkdir c; Some (HJson level f).

Definition NewLoggerWithContext Join mkdir (c : Config) (keys : list string) : option handler :=
  h ← NewLogger Join mkdir c; Some (HContext keys h).

(** [Enabled], [WithAttrs] and [WithGroup] are those of the embedded
    handler. *)
Fixpoint Enabled (h : handler) (l : Z) : bool :=
  match h with
  | HDiscard level | HJson level _ => bool_decide (level ≤ l)
  | HConsole parent _ | HContext _ parent => Enabled parent l
  end.
Fixpoint WithAttrs (h : handler) : handler :=
  match h with
  | HDiscard level => HDiscard level
  | HJson level f => HJson level f
  | HConsole parent _ | HContext _ parent => WithAttrs parent
  end.

(** What a record leaves on the terminal; the encoder of JSON is an
    argument. *)
Fixpoint Handle (json : Record_ → string) (h : handler) (ctx : gmap string ctx_value) (r : Record_) : list string :=
  match h with
  | HDiscard _ => []
  | HConsole _ source => [line source r]
  | HJson _ _ => [json r]
  | HContext keys parent => Handle json parent ctx (context_record keys ctx r)
  end.
Definition log (json : Record_ → string) (h : handler) ctx (r : Record_) : list string :=
  if Enabled h (r_Level r) then Handle json h ctx r else [].

(** A console logger writes one line per record at or above its level, with
    the values its context has, in the order of the keys; an unknown level in
    the configuration counts as INFO, and the logger is always created. *)
Theorem console_logs_exactly json Join mkdir c keys ctx r h :
  Console c = true → keys ≠ [] → NewLoggerWithContext Join mkdir c keys = Some h →
  let level := default LevelInfo (loggerLevelMap !! Level c) in
  log json h ctx r =
    if decide (level ≤ r_Level r)
    then [line (Source c) (AddAttrs (mkAttr contextKey (Group (context_attrs keys ctx))) r)] else [].
Proof.
  intros Hc Hk Hn level. unfold NewLoggerWithContext, NewLogger in Hn.
  change (Console (SetDefaults c)) with (Console c) in Hn. rewrite Hc in Hn. injection Hn as <-.
  unfold log. cbn [Enabled Handle]. unfold context_record. rewrite decide_False by done.
  change (Source (SetDefaults c)) with (Source c).
  assert (default LevelInfo (loggerLevelMap !! match loggerLevelMap !! Level c with
      | Some _ => Level c | None => "INFO" end) = level) as ->.
  { unfold level. destruct (loggerLevelMap !! Level c) eqn:E; by rewrite ?E. }
  by case_bool_decide; case_decide.
Qed.

(** ** Deviations *)

(** A logger derived with [With] loses its output and its context: the
    inherited [WithAttrs] returns the text handler over io.Discard. *)
Theorem derived_logger_is_silent json level source keys ctx r :
  log json (WithAttrs (HContext keys (HConsole (HDiscard level) source))) ctx r = [].
Proof. unfold log. cbn. by case_match. Qed.

(** Level names are matched as written: "debug" logs at INFO. *)
Theorem lower_case_level_is_info json Join mkdir c h ctx r :
  Console c = true → Level c = "debug" → NewLogger Join mkdir c = Some h → r_Level r = LevelDebug →
  log json h ctx r = [].
Proof.
  intros Hc Hl Hn Hr. unfold NewLogger in Hn. change (Console (SetDefaults c)) with (Console c) in Hn.
  rewrite Hc in Hn. injection Hn as <-. unfold log. cbn. rewrite Hl, Hr. reflexivity.
Qed.
