(* ===== verification/Startup.v ===== *)
(** * Start-up and shut-down of the two processes

    cmd/voce (init.go, server.go, main.go), cmd/gateway (init.go, main.go),
    config/bootstrap.go, internal/telemetry and biz/dal: what is opened and
    closed on which path, which routes a worker serves in which mode, and how
    a process ends.  What a library call does is an outcome of the
    environment. *)

From S2P Require Import Prelude.
From S2P Require Import GoStrings.
From S2P Require Import GoNet.
From S2P Require Import Gateway.
From S2P Require Import Registration.
From S2P Require Import GatewayHttp.
From S2P Require RemoteManager.

Local Open Scope Z_scope.

(** ** config/bootstrap.go *)
Record CommonConfig := mkCommon { c_Name : string; c_Environment : string; c_Version : string }.
Record NetworkConfig := mkNetwork { n_Host : string; n_Port : Z }.
Definition NetworkAddress (c : NetworkConfig) : string := n_Host c +:+ ":" +:+ Itoa (n_Port c).
Record RedisConfig := mkRedis {
  rd_Host : string; rd_Port : Z; rd_Username : string; rd_Password : string; rd_DB : Z;
  rd_UseTLS : bool; rd_InsecureSkipVerify : bool }.
Record VoceConfig := mkVoce {
  v_Common : CommonConfig; v_Network : NetworkConfig; GrpcPort : Z; Mode : string; GatewayAddr : string;
  WorkflowStore : string; WorkflowDir : string; PluginServers : list RemoteManager.PluginServerConfig }.

(** ** What is open *)
Inductive resource := RTelemetry | RRedis | RSessions | RRemote | REngine | RManagers.
#[export] Instance resource_dec : EqDecision resource.
Proof. solve_decision. Defined.
Inductive effect := Open (r : resource) | Close (r : resource).
#[export] Instance effect_dec : EqDecision effect.
Proof. solve_decision. Defined.

Definition count (e : effect) (tr : list effect) : nat := length (filter (λ x, x = e) tr).
Definition balanced (r : resource) (tr : list effect) : Prop :=
  count (Open r) tr = count (Close r) tr ∧ (count (Open r) tr ≤ 1)%nat.
#[export] Instance balanced_dec r tr : Decision (balanced r tr).
Proof. unfold balanced. apply _. Defined.

(** ** internal/telemetry *)
Record tel_env := mkTelEnv { exporter_ok : bool; resource_ok : bool; runtime_ok : bool }.

(** [New]: the provider is shut down again when the runtime metrics cannot
    be started. *)
Definition telemetry_New (e : tel_env) : bool * list effect :=
  if negb (exporter_ok e) then (false, [])
  else if negb (resource_ok e) then (false, [])
  else if negb (runtime_ok e) then (false, [Open RTelemetry; Close RTelemetry])
  else (true, [Open RTelemetry]).

(** [Shutdown] runs once. *)
Record Telemetry := mkTelemetry { shutdown_done : bool; shutdown_err : bool }.
Definition telemetry_Shutdown (err : bool) (t : Telemetry) : Telemetry * list effect :=
  if shutdown_done t then (t, []) else (mkTelemetry true err, [Close RTelemetry]).

(** ** biz/dal *)
Record RedisOptions := mkOptions { Addr : string; o_Username : string; o_Password : string; o_DB : Z; o_TLS : option bool }.
Definition redis_options (c : RedisConfig) : RedisOptions :=
  mkOptions (rd_Host c +:+ ":" +:+ Itoa (rd_Port c)) (rd_Username c) (rd_Password c) (rd_DB c)
    (if rd_UseTLS c then Some (rd_InsecureSkipVerify c) else None).
(** The client exists before the ping that decides. *)
Definition NewRedisClient (ping : RedisOptions → bool) (c : RedisConfig) : bool * list effect :=
  (ping (redis_options c), [Open RRedis]).

(** ** cmd/voce/init.go *)
Definition hasEnabledPluginServers (configs : list RemoteManager.PluginServerConfig) : bool :=
  existsb (λ c, RemoteManager.Enable c && bool_decide (RemoteManager.URL c ≠ "")) configs.

Record voce_env := mkVoceEnv { logger_ok : bool; tel : tel_env; ping : RedisOptions → bool }.

(** Which handlers the container has. *)
Inductive session_handler := StandaloneSessions | GatewaySessions.
Record AppContainer := mkContainer { has_metrics : bool; has_machine : bool; session_kind : option session_handler }.
Inductive workflow_manager := FileManager (dir : string) | RedisManager.
Record appBase := mkBase { container : AppContainer; has_rm : bool; wm : workflow_manager }.

Definition choose_manager (server : VoceConfig) : workflow_manager :=
  if decide (WorkflowStore server = "redis") then RedisManager
  else FileManager (if decide (WorkflowDir server = "") then "configs/workflows" else WorkflowDir server).

Definition initBaseApplication (e : voce_env) (redis : RedisConfig) (server : VoceConfig) :
    option appBase * list effect :=
  if negb (logger_ok e) then (None, [])
  else
    match telemetry_New (tel e) with
    | (false, tr) => (None, tr)
    | (true, tr) =>
        let w := choose_manager server in
        let '(ok, tr') := match w with
                          | RedisManager => NewRedisClient (ping e) redis
                          | FileManager _ => (true, [])
                          end in
        if ok then
          let rm := hasEnabledPluginServers (PluginServers server) in
          (Some (mkBase (mkContainer true false None) rm w),
           tr ++ tr' ++ [Open RSessions] ++ (if rm then [Open RRemote] else []))
        else (None, tr ++ tr' ++ [Close RTelemetry])
    end.

Definition initGatewayMode (b : appBase) : appBase :=
  mkBase (mkContainer (has_metrics (container b)) true (Some GatewaySessions)) (has_rm b) (wm b).
Definition initStandaloneMode (b : appBase) : appBase :=
  mkBase (mkContainer (has_metrics (container b)) (has_machine (container b)) (Some StandaloneSessions)) (has_rm b) (wm b).

(** The cleanup [InitApplication] returns. *)
Definition app_cleanup (b : appBase) : list effect :=
  (if has_rm b then [Close RRemote] else []) ++ [Close RSessions]
  ++ (telemetry_Shutdown false (mkTelemetry false false)).2.

Definition InitApplication (e : voce_env) (redis : RedisConfig) (server : VoceConfig) :
    option (appBase * list effect) * list effect :=
  match initBaseApplication e redis server with
  | (None, tr) => (None, tr)
  | (Some b, tr) =>
      let b := if decide (Mode server = "gateway") then initGatewayMode b else initStandaloneMode b in
      (Some (b, app_cleanup b), tr)
  end.

(** ** cmd/voce/server.go *)

(** [initialize]: the routes of a worker; the profiler only in development. *)
Definition initialize (server : VoceConfig) (c : AppContainer) : list (string * string * voce_handler) * bool :=
  (RegisterVoceRouter (has_metrics c) (has_machine c), bool_decide (c_Environment (v_Common server) = "dev")).

(** [runGateway] announces its own port. *)
Definition runGateway (uuid : string) (server : VoceConfig) (c : AppContainer) :
    string * list (string * string * voce_handler) * Registrar :=
  (NetworkAddress (v_Network server), (initialize server c).1,
   NewRegistrar "" uuid (GatewayAddr server) (n_Port (v_Network server))).

(** [runStandalone] starts gRPC when a port is configured. *)
Definition runStandalone (server : VoceConfig) (c : AppContainer) :
    string * list (string * string * voce_handler) * option string :=
  (NetworkAddress (v_Network server), (initialize server c).1,
   if decide (0 < GrpcPort server) then Some (n_Host (v_Network server) +:+ ":" +:+ Itoa (GrpcPort server)) else None).

(** ** cmd/gateway/init.go *)
Record gateway_env := mkGwEnv { g_tel : tel_env; g_logger_ok : bool; engine_ok : bool }.

(** The managers' loops end with the context. *)
Definition InitGateway (e : gateway_env) : option (list effect) * list effect :=
  match telemetry_New (g_tel e) with
  | (false, tr) => (None, tr)
  | (true, tr) =>
      if negb (g_logger_ok e) then (None, tr ++ [Close RTelemetry])
      else if negb (engine_ok e) then (None, tr ++ [Close RTelemetry])
      else (Some [Close REngine; Close RTelemetry], tr ++ [Open REngine; Open RManagers])
  end.

(** ** Waiting for the end: [waitExit] *)
Inductive phase := Serving | HttpShutdown (deadline : Z) | GrpcStop | Cleanup.
#[export] Instance phase_dec : EqDecision phase.
Proof. solve_decision. Defined.

(** The process after its servers were started: the requests the HTTP server
    is serving and the streams of the gRPC server, if there is one. *)
Record process := mkProcess { at_phase : phase; clock : Z; requests : nat; streams : option nat }.

(** What the environment does: a signal or a cancelled context, time passing,
    a request that is answered, a stream whose client leaves. *)
Inductive event := Signal | Elapse (d : Z) | Answered | StreamEnds.
Definition shutdown_timeout : Z := 5000000000.

Definition env_step (ev : event) (p : process) : process :=
  match ev with
  | Signal => match at_phase p with
              | Serving => mkProcess (HttpShutdown (clock p + shutdown_timeout)) (clock p) (requests p) (streams p)
              | _ => p
              end
  | Elapse d => mkProcess (at_phase p) (clock p + Z.max 0 d) (requests p) (streams p)
  | Answered => mkProcess (at_phase p) (clock p) (pred (requests p)) (streams p)
  | StreamEnds => mkProcess (at_phase p) (clock p) (requests p) (pred <$> streams p)
  end.

(** [waitExit] itself: [Shutdown] returns when no request is left or the
    context is over; [GracefulStop], which has no context, when no stream is
    left; only then does [main]'s cleanup run. *)
Definition waitExit (p : process) : process :=
  let p := match at_phase p with
           | HttpShutdown dl =>
               if decide (requests p = 0%nat ∨ dl ≤ clock p) then
                 mkProcess (if decide (streams p = None) then Cleanup else GrpcStop) (clock p) (requests p) (streams p)
               else p
           | _ => p
           end in
  match at_phase p with
  | GrpcStop => if decide (streams p = Some 0%nat) then mkProcess Cleanup (clock p) (requests p) (streams p) else p
  | _ => p
  end.
Definition process_run (p : process) (evs : list event) : process := foldl (λ p ev, waitExit (env_step ev p)) p evs.

(** How serving ends: [bootstrapHttp] and [bootstrapGRPC] panic, in goroutines
    of their own, unless the server was shut down. *)
Inductive serve_end := ListenFailed | ServeFailed | ServerClosed.
Definition bootstrapHttp (r : serve_end) : bool (* panics *) :=
  match r with ServerClosed => false | _ => true end.
Definition bootstrapGRPC (r : serve_end) : bool :=
  match r with ListenFailed => true | ServeFailed => true | ServerClosed => false end.

(** Which servers a worker runs, and the process right after their start. *)
Definition grpc_started (server : VoceConfig) : bool :=
  bool_decide (Mode server ≠ "gateway") && bool_decide (0 < GrpcPort server).
Definition started (server : VoceConfig) (now : Z) (reqs strms : nat) : process :=
  mkProcess Serving now reqs (if grpc_started server then Some strms else None).

(** [main] of the worker. *)
Inductive voce_end := Panicked | Running | Exited.
Record serving := mkServing { http_end : serve_end; grpc_end : serve_end; s_now : Z; s_requests : nat; s_streams : nat }.
Definition voce_main (e : voce_env) (redis : RedisConfig) (server : VoceConfig) (s : serving) (evs : list event) :
    voce_end * list effect :=
  match InitApplication e redis server with
  | (None, tr) => (Panicked, tr)
  | (Some (b, cleanup), tr) =>
      if bootstrapHttp (http_end s) || grpc_started server && bootstrapGRPC (grpc_end s) then (Panicked, tr)
      else if decide (at_phase (process_run (started server (s_now s) (s_requests s) (s_streams s)) evs) = Cleanup)
           then (Exited, tr ++ cleanup)
      else (Running, tr)
  end.

(** [main] of the gateway.  A server that cannot be started cancels the
    context, which main waits for as it waits for a signal; then the server is
    shut down with the same bound of five seconds, and the deferred calls run:
    the cleanup, and [cancel], which ends the loops of the managers. *)
Definition gateway_main (e : gateway_env) (start_ok : bool) (now : Z) (reqs : nat) (evs : list event) :
    voce_end * list effect :=
  match InitGateway e with
  | (None, tr) => (Panicked, tr)
  | (Some cleanup, tr) =>
      let evs := if start_ok then evs else Signal :: evs in
      if decide (at_phase (process_run (mkProcess Serving now reqs None) evs) = Cleanup)
      then (Exited, tr ++ cleanup ++ [Close RManagers])
      else (Running, tr)
  end.

(** ** Properties of start-up *)

(** The six resources on every outcome of the calls, by evaluation. *)
Ltac balanced_by_cases r :=
  intros; simplify_eq/=; try discriminate; destruct r;
  try (exfalso; congruence); refine (bool_decide_eq_true_1 _ _); vm_compute; reflexivity.

Lemma InitApplication_failed e redis server tr r :
  r ≠ RRedis → InitApplication e redis server = (None, tr) → balanced r tr.
Proof.
  intros Hr. unfold InitApplication, initBaseApplication, telemetry_New, NewRedisClient.
  generalize (hasEnabledPluginServers (PluginServers server)) as rm, (choose_manager server) as w.
  destruct e as [lo [x y z] pg]; intros rm w. cbn [logger_ok tel exporter_ok resource_ok runtime_ok ping].
  generalize (pg (redis_options redis)) as ok; intros ok.
  destruct lo, x, y, z; cbn; [|balanced_by_cases r..].
  destruct w; [case_decide; done|]. destruct ok; [case_decide; done|]. balanced_by_cases r.
Qed.

Lemma InitApplication_ok e redis server b cleanup tr r :
  r ≠ RRedis → InitApplication e redis server = (Some (b, cleanup), tr) → balanced r (tr ++ cleanup).
Proof.
  intros Hr. unfold InitApplication, initBaseApplication, telemetry_New, NewRedisClient, app_cleanup.
  generalize (hasEnabledPluginServers (PluginServers server)) as rm, (choose_manager server) as w.
  destruct e as [lo [x y z] pg]; intros rm w. cbn [logger_ok tel exporter_ok resource_ok runtime_ok ping].
  generalize (pg (redis_options redis)) as ok; intros ok.
  destruct lo, x, y, z; cbn; [|balanced_by_cases r..].
  destruct w; [|destruct ok; [|balanced_by_cases r]]; case_decide; destruct rm; balanced_by_cases r.
Qed.

(** The Redis client is opened where it is the store, and never closed. *)
Lemma InitApplication_redis e redis server :
  match InitApplication e redis server with
  | (None, tr) => (Close RRedis ∉ tr) ∧ (Open RRedis ∈ tr → WorkflowStore server = "redis")
  | (Some (_, cleanup), tr) => (Close RRedis ∉ tr ++ cleanup) ∧ (Open RRedis ∈ tr ++ cleanup → WorkflowStore server = "redis")
  end.
Proof.
  unfold InitApplication, initBaseApplication, telemetry_New, NewRedisClient, choose_manager, app_cleanup.
  destruct e as [lo [x y z] pg]. cbn [logger_ok tel exporter_ok resource_ok runtime_ok ping].
  destruct lo, x, y, z; cbn; try (split; [intros ?|]; set_solver).
  destruct (decide (WorkflowStore server = "redis")) as [Hs|Hs]; [destruct (pg _)|];
    try (case_decide; destruct (hasEnabledPluginServers _)); cbn; (split; [intros ?|]; set_solver).
Qed.

Lemma InitGateway_failed e tr r : InitGateway e = (None, tr) → balanced r tr.
Proof.
  unfold InitGateway, telemetry_New. destruct e as [[x y z] lo en].
  destruct x, y, z, lo, en; cbn; balanced_by_cases r.
Qed.

Lemma InitGateway_ok e cleanup tr r :
  InitGateway e = (Some cleanup, tr) → balanced r (tr ++ cleanup ++ [Close RManagers]).
Proof.
  unfold InitGateway, telemetry_New. destruct e as [[x y z] lo en].
  destruct x, y, z, lo, en; cbn; balanced_by_cases r.
Qed.

(** ** Properties of the end *)
Lemma process_run_snoc p evs ev : process_run p (evs ++ [ev]) = waitExit (env_step ev (process_run p evs)).
Proof. unfold process_run. by rewrite foldl_app. Qed.

Lemma process_run_app p evs evs' : process_run p (evs ++ evs') = process_run (process_run p evs) evs'.
Proof. unfold process_run. by rewrite foldl_app. Qed.

(** Streams are ended by their clients only: as long as there is one, the
    cleanup is not reached. *)
Definition held_open (p : process) : Prop := at_phase p ≠ Cleanup ∧ ∃ n, streams p = Some (S n).

Lemma held_open_step ev p : ev ≠ StreamEnds → held_open p → held_open (waitExit (env_step ev p)).
Proof.
  intros Hev (Hp & n & Hn). destruct p as [ph t rq st]; cbn in *; subst st.
  unfold held_open, waitExit. destruct ev, ph; cbn; repeat case_decide; cbn; repeat case_decide; naive_solver.
Qed.

(** The time that passes. *)
Definition elapsed (evs : list event) : Z :=
  foldr (λ ev t, match ev with Elapse d => Z.max 0 d + t | _ => t end) 0 evs.

Lemma elapsed_cons ev evs : elapsed (ev :: evs) = elapsed [ev] + elapsed evs.
Proof. unfold elapsed. cbn [foldr]. destruct ev; lia. Qed.

(** A process without gRPC that was told to stop at most [shutdown_timeout]
    ago. *)
Definition stopping (dl : Z) (p : process) : Prop :=
  streams p = None ∧ (at_phase p = Cleanup ∨ at_phase p = HttpShutdown dl ∧ clock p < dl).

Lemma stopping_step dl ev p : stopping dl p → stopping dl (waitExit (env_step ev p)).
Proof.
  destruct p as [ph t rq st]. intros [Hs Hp]; cbn in Hs, Hp; subst st.
  destruct Hp as [->|[-> Hlt]]; unfold stopping, waitExit; destruct ev; cbn; repeat (case_decide; cbn);
    (split; [done|]); first [by left|right; split; [done|]; lia].
Qed.

Lemma clock_step ev p : clock (waitExit (env_step ev p)) = clock p + elapsed [ev].
Proof.
  destruct p as [ph t rq st]. unfold waitExit. destruct ev, ph; cbn; repeat (case_decide; cbn); lia.
Qed.

(** Without a gRPC server a signal is followed by the cleanup at the latest
    when five seconds have passed, whatever the clients do. *)
Lemma no_grpc_exits p evs :
  at_phase p = Serving → streams p = None → shutdown_timeout ≤ elapsed evs →
  at_phase (process_run p (Signal :: evs)) = Cleanup.
Proof.
  intros Hp Hs Hd.
  assert (∀ evs q dl, stopping dl q → dl ≤ clock q + elapsed evs → at_phase (process_run q evs) = Cleanup) as Hrun.
  { clear. intros evs. induction evs as [|ev evs IH]; intros q dl Hq Hdl.
    - destruct Hq as [_ [Hq|[_ Hlt]]]; [done|]. cbn in Hdl. lia.
    - change (process_run q (ev :: evs)) with (process_run (waitExit (env_step ev q)) evs).
      apply (IH _ dl); [by apply stopping_step|]. rewrite clock_step. rewrite elapsed_cons in Hdl. lia. }
  change (process_run p (Signal :: evs)) with (process_run (waitExit (env_step Signal p)) evs).
  apply (Hrun _ _ (clock p + shutdown_timeout)).
  - destruct p as [ph t rq st]; cbn in *; subst. unfold stopping, waitExit; cbn [env_step at_phase clock requests streams].
    repeat (case_decide; cbn); (split; [done|]); first [by left|right; split; [done|]; lia].
  - rewrite clock_step. cbn. lia.
Qed.


Definition demo_env : voce_env := mkVoceEnv true (mkTelEnv true true true) (λ _, true).
Definition demo_redis : RedisConfig := mkRedis "localhost" 6379 "" "" 0 false false.
Definition demo_server (mode store : string) : VoceConfig :=
  mkVoce (mkCommon "voce" "prod" "1") (mkNetwork "" 7001) 0 mode "gateway:80" store "" [].


(** ** The worker a gateway can reach *)

(** In gateway mode the port the registrar announces is the port the worker
    listens on, and only in that mode does its router serve the pool
    connections a gateway dials. *)
Theorem gateway_mode_serves_pool e redis server uuid b cleanup tr :
  InitApplication e redis server = (Some (b, cleanup), tr) →
  let '(addr, routes, reg) := runGateway uuid server (container b) in
  addr = n_Host (v_Network server) +:+ ":" +:+ Itoa (r_port reg) ∧
  r_gatewayAddr reg = GatewayAddr server ∧
  (("GET", "/pool", V_PoolConnection) ∈ routes ↔ Mode server = "gateway") ∧
  (session_kind (container b) = Some GatewaySessions ↔ Mode server = "gateway").
Proof.
  unfold InitApplication. destruct (initBaseApplication e redis server) as [[b0|] tr0] eqn:Hb; [|done].
  assert (container b0 = mkContainer true false None) as Hc.
  { revert Hb. unfold initBaseApplication. repeat (case_match; try done); by intros [= <- _]. }
  intros [= Hb' _ _]. subst b. unfold runGateway, NewRegistrar, NetworkAddress; cbn [r_port r_gatewayAddr].
  do 2 (split; [done|]).
  case_decide as Hm; cbn [container initGatewayMode initStandaloneMode]; rewrite Hc; cbn [has_metrics has_machine session_kind initialize fst];
    (split; [split; [|try done]|done]); [done| |].
  - intros _. apply list_elem_of_In. vm_compute. tauto.
  - intros Hin%list_elem_of_In. exfalso. vm_compute in Hin. repeat destruct Hin as [[=]|Hin]; done.
Qed.

(** A remote manager exists exactly when [AddRemotes] would add a server. *)
Lemma hasEnabledPluginServers_spec configs :
  hasEnabledPluginServers configs = true ↔
  ∃ c, c ∈ configs ∧ negb (RemoteManager.Enable c) || bool_decide (RemoteManager.URL c = "") = false.
Proof.
  unfold hasEnabledPluginServers. rewrite existsb_exists. setoid_rewrite <- list_elem_of_In.
  split; intros (c & Hc & H); exists c; (split; [done|]); revert H; destruct (RemoteManager.Enable c); cbn;
    repeat case_bool_decide; naive_solver.
Qed.

(** ** Deviations *)

(** The Redis client is never closed: not when its ping fails, and not by the
    cleanup of a worker that used it. *)
Theorem redis_client_is_never_closed e redis server :
  logger_ok e = true → (telemetry_New (tel e)).1 = true → WorkflowStore server = "redis" →
  match InitApplication e redis server with
  | (None, tr) => Open RRedis ∈ tr ∧ Close RRedis ∉ tr
  | (Some (_, cleanup), tr) => Open RRedis ∈ tr ∧ Close RRedis ∉ tr ++ cleanup
  end.
Proof.
  intros Hl Ht Hs. unfold InitApplication, initBaseApplication, choose_manager, NewRedisClient. rewrite Hl; cbn [negb].
  destruct (telemetry_New (tel e)) as [ok tr] eqn:Hn; cbn in Ht; subst ok. rewrite decide_True by done.
  assert (tr = [Open RTelemetry]) as ->.
  { revert Hn. unfold telemetry_New. repeat case_match; naive_solver. }
  destruct (ping e (redis_options redis)); [|split; [|intros Hin]; set_solver].
  case_decide; unfold app_cleanup; cbn [initGatewayMode initStandaloneMode has_rm]; destruct (hasEnabledPluginServers _);
    cbn; (split; [|intros Hin]); set_solver.
Qed.

(** With a gRPC server there is no bound: [GracefulStop] waits until every
    stream has ended by itself, so that a worker with one open stream goes on
    running, however long after the signal, and its cleanup is not reached. *)
Theorem open_stream_blocks_exit e redis server b cleanup tr s n evs :
  InitApplication e redis server = (Some (b, cleanup), tr) →
  grpc_started server = true → http_end s = ServerClosed → grpc_end s = ServerClosed →
  s_streams s = S n → StreamEnds ∉ evs →
  voce_main e redis server s evs = (Running, tr).
Proof.
  intros Hi Hg Hh Hgr Hn Hevs. unfold voce_main. rewrite Hi, Hh, Hgr, Hg; cbn [bootstrapHttp bootstrapGRPC andb orb].
  assert (held_open (started server (s_now s) (s_requests s) (s_streams s))) as Hq.
  { unfold held_open, started. rewrite Hg, Hn. cbn. split; [done|by eexists]. }
  assert (held_open (process_run (started server (s_now s) (s_requests s) (s_streams s)) evs)) as [Hph _];
    [|by rewrite decide_False].
  clear Hi. revert Hq Hevs. generalize (started server (s_now s) (s_requests s) (s_streams s)) as q.
  induction evs as [|ev evs IH]; intros q Hq Hni; [done|].
  apply not_elem_of_cons in Hni as [Hne Hni].
  change (held_open (process_run (waitExit (env_step ev q)) evs)).
  apply IH; [|done]. by apply held_open_step.
Qed.

(** A worker that cannot listen ends with everything it started still open:
    the panic is in another goroutine than [main]'s deferred cleanup. *)
Theorem listen_failure_skips_cleanup e redis server b cleanup tr s evs :
  InitApplication e redis server = (Some (b, cleanup), tr) → http_end s = ListenFailed →
  voce_main e redis server s evs = (Panicked, tr) ∧
  ¬ balanced RTelemetry tr ∧ ¬ balanced RSessions tr.
Proof.
  intros Hi Hh. unfold voce_main. rewrite Hi, Hh. split; [done|].
  revert Hi. unfold InitApplication, initBaseApplication, telemetry_New, NewRedisClient.
  generalize (hasEnabledPluginServers (PluginServers server)) as rm, (choose_manager server) as w.
  destruct e as [lo [x y z] pg]; intros rm w. cbn [logger_ok tel exporter_ok resource_ok runtime_ok ping].
  generalize (pg (redis_options redis)) as ok; intros ok.
  destruct lo, x, y, z; cbn; try done.
  destruct w; [|destruct ok; [|done]]; intros [= _ _ <-]; destruct rm;
    split; refine (bool_decide_eq_false_1 _ _); vm_compute; reflexivity.
Qed.
