(* ===== verification/Metrics.v ===== *)
(** * The instruments of the five packages

    The metrics.go of internal/gateway, internal/machine, internal/engine,
    internal/schema and biz/realtime: each declares a set of counters when the
    package is loaded and panics when the meter refuses one of them.  The
    OpenTelemetry meter is a parameter; the values the gauges take are in the
    models of the components that move them. *)

From S2P Require Import Prelude.
From S2P Require Import Utf8.

Local Open Scope Z_scope.

(** A meter: what [otel.Meter(scope)] answers for an instrument of the given
    name and description; [None] is the error. *)
Class Meter (C : Type) := {
  Int64UpDownCounter : string → string → string → option C;
  Int64Counter : string → string → string → option C }.

(** The sets, with the fields of the source. *)
Record gatewaySessionMetricSet C := mkGatewaySession { gs_active : C }.
Record gatewayClientMetricSet C := mkGatewayClient {
  gc_connectionsActive : C; gc_bytesReceived : C; gc_bytesSent : C; gc_packetsReceived : C;
  gc_packetsSent : C; gc_writeErrors : C }.
Record gatewayPoolMetricSet C := mkGatewayPool {
  gp_connectionsActive : C; gp_connectionsConnecting : C; gp_pendingDials : C; gp_sessionsRouted : C;
  gp_dials : C; gp_reconnects : C; gp_bytesReceived : C; gp_bytesSent : C; gp_packetsReceived : C;
  gp_packetsSent : C; gp_writeErrors : C }.
Record machinePoolMetricSet C := mkMachinePool {
  mp_connectionsActive : C; mp_sessionsRouted : C; mp_bytesReceived : C; mp_bytesSent : C;
  mp_packetsReceived : C; mp_packetsSent : C; mp_writeErrors : C }.
Record sessionMetricSet C := mkSessionSet { ss_active : C }.
Record metricSet C := mkMetricSet { audioActive : C; videoSDActive : C; videoHDActive : C; videoFHDActive : C }.
Record realtimeMetricSet C := mkRealtimeSet {
  websocketBytesReceived : C; websocketBytesSent : C; grpcBytesReceived : C; grpcBytesSent : C }.

Section sets.
Context {C : Type} `{!Meter C}.

(** The [must...] helpers; [None] is the panic. *)
Definition mustGatewayClientUpDownCounter (scope name description : string) : option C :=
  Int64UpDownCounter scope name description.
Definition mustGatewayClientCounter (scope name description : string) : option C :=
  Int64Counter scope name description.
Definition mustGatewayPoolUpDownCounter (scope name description : string) : option C :=
  Int64UpDownCounter scope name description.
Definition mustGatewayPoolCounter (scope name description : string) : option C :=
  Int64Counter scope name description.
Definition mustMachinePoolUpDownCounter (scope name description : string) : option C :=
  Int64UpDownCounter scope name description.
Definition mustMachinePoolCounter (scope name description : string) : option C :=
  Int64Counter scope name description.
Definition mustUpDownCounter (scope name description : string) : option C :=
  Int64UpDownCounter scope name description.
Definition mustCounter (scope name description : string) : option C :=
  Int64Counter scope name description.

Definition newGatewaySessionMetricSet : option (gatewaySessionMetricSet C) :=
  active ← Int64UpDownCounter "github.com/wnnce/voce/internal/gateway" "sessions.active"
             "Number of active gateway sessions.";
  Some (mkGatewaySession _ active).

Definition newGatewayClientMetricSet : option (gatewayClientMetricSet C) :=
  let meter := "github.com/wnnce/voce/internal/gateway/client" in
  connectionsActive ← mustGatewayClientUpDownCounter meter "gateway.client.websocket.connections.active"
                        "Number of active client WebSocket connections at the gateway.";
  bytesReceived ← mustGatewayClientCounter meter "gateway.client.websocket.bytes.received"
                    "Bytes received from client WebSocket connections.";
  bytesSent ← mustGatewayClientCounter meter "gateway.client.websocket.bytes.sent"
                "Bytes sent to client WebSocket connections.";
  packetsReceived ← mustGatewayClientCounter meter "gateway.client.websocket.packets.received"
                      "Packets received from client WebSocket connections.";
  packetsSent ← mustGatewayClientCounter meter "gateway.client.websocket.packets.sent"
                  "Packets sent to client WebSocket connections.";
  writeErrors ← mustGatewayClientCounter meter "gateway.client.websocket.write.errors"
                  "Client WebSocket write errors at the gateway.";
  Some (mkGatewayClient _ connectionsActive bytesReceived bytesSent packetsReceived packetsSent writeErrors).

Definition newGatewayPoolMetricSet : option (gatewayPoolMetricSet C) :=
  let meter := "github.com/wnnce/voce/internal/gateway/pool" in
  connectionsActive ← mustGatewayPoolUpDownCounter meter "gateway.pool.connections.active"
                        "Number of active gateway pool connections.";
  connectionsConnecting ← mustGatewayPoolUpDownCounter meter "gateway.pool.connections.connecting"
                            "Number of gateway pool connections connecting or reconnecting.";
  pendingDials ← mustGatewayPoolUpDownCounter meter "gateway.pool.pending.dials"
                   "Number of gateway pool dials currently being created.";
  sessionsRouted ← mustGatewayPoolUpDownCounter meter "gateway.pool.sessions.routed"
                     "Number of sessions currently routed through gateway pool connections.";
  dials ← mustGatewayPoolCounter meter "gateway.pool.dials" "Number of gateway pool dial attempts.";
  reconnects ← mustGatewayPoolCounter meter "gateway.pool.reconnects"
                 "Number of gateway pool reconnects after an active connection closes.";
  bytesReceived ← mustGatewayPoolCounter meter "gateway.pool.bytes.received"
                    "Bytes received from machine pool connections.";
  bytesSent ← mustGatewayPoolCounter meter "gateway.pool.bytes.sent" "Bytes sent to machine pool connections.";
  packetsReceived ← mustGatewayPoolCounter meter "gateway.pool.packets.received"
                      "Packets received from machine pool connections.";
  packetsSent ← mustGatewayPoolCounter meter "gateway.pool.packets.sent" "Packets sent to machine pool connections.";
  writeErrors ← mustGatewayPoolCounter meter "gateway.pool.write.errors" "Gateway pool connection write errors.";
  Some (mkGatewayPool _ connectionsActive connectionsConnecting pendingDials sessionsRouted dials reconnects
          bytesReceived bytesSent packetsReceived packetsSent writeErrors).

Definition newMachinePoolMetricSet : option (machinePoolMetricSet C) :=
  let meter := "github.com/wnnce/voce/internal/machine/pool" in
  connectionsActive ← mustMachinePoolUpDownCounter meter "machine.pool.connections.active"
                        "Number of active machine pool connections.";
  sessionsRouted ← mustMachinePoolUpDownCounter meter "machine.pool.sessions.routed"
                     "Number of sessions routed through machine pool connections.";
  bytesReceived ← mustMachinePoolCounter meter "machine.pool.bytes.received"
                    "Bytes received from gateway pool connections.";
  bytesSent ← mustMachinePoolCounter meter "machine.pool.bytes.sent" "Bytes sent to gateway pool connections.";
  packetsReceived ← mustMachinePoolCounter meter "machine.pool.packets.received"
                      "Packets received from gateway pool connections.";
  packetsSent ← mustMachinePoolCounter meter "machine.pool.packets.sent" "Packets sent to gateway pool connections.";
  writeErrors ← mustMachinePoolCounter meter "machine.pool.write.errors" "Machine pool connection write errors.";
  Some (mkMachinePool _ connectionsActive sessionsRouted bytesReceived bytesSent packetsReceived packetsSent
          writeErrors).

Definition newSessionMetricSet : option (sessionMetricSet C) :=
  active ← Int64UpDownCounter "github.com/wnnce/voce/internal/engine" "sessions.active"
             "Number of active workflow sessions.";
  Some (mkSessionSet _ active).

Definition newMetricSet : option (metricSet C) :=
  let meter := "github.com/wnnce/voce/internal/schema" in
  audioActive ← mustUpDownCounter meter "schema.audio.objects.active" "Number of active audio objects.";
  videoSDActive ← mustUpDownCounter meter "schema.video.sd.objects.active" "Number of active SD video objects.";
  videoHDActive ← mustUpDownCounter meter "schema.video.hd.objects.active" "Number of active HD video objects.";
  videoFHDActive ← mustUpDownCounter meter "schema.video.fhd.objects.active" "Number of active FHD video objects.";
  Some (mkMetricSet _ audioActive videoSDActive videoHDActive videoFHDActive).

Definition newRealtimeMetricSet : option (realtimeMetricSet C) :=
  let meter := "github.com/wnnce/voce/biz/realtime" in
  websocketBytesReceived ← mustCounter meter "realtime.websocket.bytes.received"
                             "Bytes received from WebSocket clients.";
  websocketBytesSent ← mustCounter meter "realtime.websocket.bytes.sent"
                         "Bytes accounted for WebSocket client writes.";
  grpcBytesReceived ← mustCounter meter "realtime.grpc.bytes.received"
                        "Audio payload bytes received from gRPC clients.";
  grpcBytesSent ← mustCounter meter "realtime.grpc.bytes.sent" "Payload bytes sent to gRPC clients.";
  Some (mkRealtimeSet _ websocketBytesReceived websocketBytesSent grpcBytesReceived grpcBytesSent).

(** The counters of the sets, in the order of their fields. *)
Definition gateway_counters (s : gatewaySessionMetricSet C) (c : gatewayClientMetricSet C)
    (p : gatewayPoolMetricSet C) : list C :=
  [gs_active _ s; gc_connectionsActive _ c; gc_bytesReceived _ c; gc_bytesSent _ c; gc_packetsReceived _ c;
   gc_packetsSent _ c; gc_writeErrors _ c; gp_connectionsActive _ p; gp_connectionsConnecting _ p;
   gp_pendingDials _ p; gp_sessionsRouted _ p; gp_dials _ p; gp_reconnects _ p; gp_bytesReceived _ p;
   gp_bytesSent _ p; gp_packetsReceived _ p; gp_packetsSent _ p; gp_writeErrors _ p].
Definition worker_counters (m : machinePoolMetricSet C) (s : sessionMetricSet C) (x : metricSet C)
    (r : realtimeMetricSet C) : list C :=
  [mp_connectionsActive _ m; mp_sessionsRouted _ m; mp_bytesReceived _ m; mp_bytesSent _ m; mp_packetsReceived _ m;
   mp_packetsSent _ m; mp_writeErrors _ m; ss_active _ s; audioActive _ x; videoSDActive _ x; videoHDActive _ x;
   videoFHDActive _ x; websocketBytesReceived _ r; websocketBytesSent _ r; grpcBytesReceived _ r; grpcBytesSent _ r].

(** Loading the packages of each process: the sets in the order of their
    initialisers, or a panic. *)
Definition load_gateway : option (list C) :=
  s ← newGatewaySessionMetricSet; c ← newGatewayClientMetricSet; p ← newGatewayPoolMetricSet;
  Some (gateway_counters s c p).
Definition load_worker : option (list C) :=
  x ← newMetricSet; s ← newSessionMetricSet; m ← newMachinePoolMetricSet; r ← newRealtimeMetricSet;
  Some (worker_counters m s x r).

(** *** The instrument name syntax of OpenTelemetry: a letter, then letters,
    digits and [_ . - /], at most 255 characters. *)
Definition letter (b : Z) : bool := (65 <=? b) && (b <=? 90) || (97 <=? b) && (b <=? 122).
Definition valid_name (name : string) : bool :=
  match bytes_of_string name with
  | [] => false
  | b :: bs => letter b && forallb (λ b, letter b || (48 <=? b) && (b <=? 57) || bool_decide (b ∈ [95; 46; 45; 47])) bs
               && bool_decide (length bs ≤ 254)%nat
  end.

(** A meter that accepts every valid name and answers instruments of
    different scope or name with different counters. *)
Hypothesis up_down_accepts : ∀ scope name d, valid_name name = true → is_Some (Int64UpDownCounter scope name d).
Hypothesis counter_accepts : ∀ scope name d, valid_name name = true → is_Some (Int64Counter scope name d).
(** What identifies the instrument of a counter. *)
Context (identity : C → string * string).
Hypothesis up_down_identity : ∀ scope name d c,
  Int64UpDownCounter scope name d = Some c → identity c = (scope, name).
Hypothesis counter_identity : ∀ scope name d c,
  Int64Counter scope name d = Some c → identity c = (scope, name).

Lemma NoDup_by_identity (cs : list C) : NoDup (identity <$> cs) → NoDup cs.
Proof. apply NoDup_fmap_1. Qed.

(** The next instrument of the goal: it is made, under its own name. *)
Local Ltac take_instrument :=
  match goal with
  | |- context [Int64UpDownCounter ?s ?n ?d ≫= _] =>
      let c := fresh "c" in let H := fresh "Hc" in
      destruct (up_down_accepts s n d ltac:(vm_compute; reflexivity)) as [c H];
      rewrite H; cbn [mbind option_bind]; apply up_down_identity in H
  | |- context [Int64Counter ?s ?n ?d ≫= _] =>
      let c := fresh "c" in let H := fresh "Hc" in
      destruct (counter_accepts s n d ltac:(vm_compute; reflexivity)) as [c H];
      rewrite H; cbn [mbind option_bind]; apply counter_identity in H
  end.
Local Ltac rewrite_identities :=
  cbn [fmap list_fmap gateway_counters worker_counters]; cbn;
  repeat match goal with H : identity ?c = _ |- context [identity ?c] => rewrite H; clear H end.

(** Neither process panics while its packages are loaded, and no two fields
    of its metric sets count into the same instrument: given a meter that
    accepts every name the OpenTelemetry syntax allows, all 18 instruments of
    the gateway and all 16 of a worker are made, and they differ. *)
Theorem packages_load :
  (∃ cs, load_gateway = Some cs ∧ length cs = 18%nat ∧ NoDup cs) ∧
  (∃ cs, load_worker = Some cs ∧ length cs = 16%nat ∧ NoDup cs).
Proof.
  split.
  - unfold load_gateway, newGatewaySessionMetricSet, newGatewayClientMetricSet, newGatewayPoolMetricSet,
      mustGatewayClientUpDownCounter, mustGatewayClientCounter, mustGatewayPoolUpDownCounter, mustGatewayPoolCounter.
    repeat take_instrument. eexists. split; [reflexivity|]. split; [reflexivity|].
    apply NoDup_by_identity. rewrite_identities. apply (bool_decide_unpack _). by vm_compute.
  - unfold load_worker, newMetricSet, newSessionMetricSet, newMachinePoolMetricSet, newRealtimeMetricSet,
      mustMachinePoolUpDownCounter, mustMachinePoolCounter, mustUpDownCounter, mustCounter.
    repeat take_instrument. eexists. split; [reflexivity|]. split; [reflexivity|].
    apply NoDup_by_identity. rewrite_identities. apply (bool_decide_unpack _). by vm_compute.
Qed.
End sets.

(** ** A meter that refuses what the syntax refuses *)
#[local] Instance strict_meter : Meter (string * string) := {
  Int64UpDownCounter scope name _ := if valid_name name then Some (scope, name) else None;
  Int64Counter scope name _ := if valid_name name then Some (scope, name) else None }.

Lemma packages_load_witness :
  (∃ cs, load_gateway = Some cs ∧ length cs = 18%nat ∧ NoDup cs) ∧
  (∃ cs, load_worker = Some cs ∧ length cs = 16%nat ∧ NoDup cs).
Proof.
  apply (packages_load (C := string * string)) with (identity := λ c, c).
  - intros scope name d H. cbn. rewrite H. eexists. reflexivity.
  - intros scope name d H. cbn. rewrite H. eexists. reflexivity.
  - intros scope name d c. cbn. destruct (valid_name name); congruence.
  - intros scope name d c. cbn. destruct (valid_name name); congruence.
Defined.
