(* ===== verification/BenchRun.v ===== *)
(** * Rounds of the load test: cmd/bench/main.go

    The plan and its rounds, the schedule of a round (staggered buckets, pings,
    the closing packets), the profiles that are fetched meanwhile and the files
    they and the report are written to.  Times are nanoseconds; how long a
    download takes, which clients could be made and how a duration is printed
    are arguments. *)

From S2P Require Import Prelude.
From S2P Require Import GoFloat.
From S2P Require Import GoNet.
From S2P Require Import BenchStats.
From S2P Require Import BenchClient.
Local Open Scope Z_scope.

(** ** The schedule of a round *)

(** The ticks of a ticker made at [from] that come before [until]. *)
Definition tick_count (from every until : Z) : Z := Z.max 0 ((until - from - 1) / every).
Definition ticks (from every until : Z) : list Z :=
  (λ k, from + k * every) <$> seqZ 1 (tick_count from every until).

(** What a client is told to do. *)
Inductive action := ASend | APing | AClose.
#[export] Instance action_dec : EqDecision action.
Proof. solve_decision. Defined.

Section round.
Context {A : Type}. (* clients *)

(** The sending goroutine of bucket [b]: it sleeps first, whatever the
    context does meanwhile, then sends at every tick. *)
Definition bucket_start (cfg : Config) (b : nat) : Z :=
  Z.of_nat b * Z.quot (Milliseconds (Interval cfg)) (Buckets cfg) * Millisecond.
Definition bucket_sends (cfg : Config) (cs : list A) (b : nat) : list (Z * A * action) :=
  t ← ticks (bucket_start cfg b) (Interval cfg) (Duration cfg); (λ c, (t, c, ASend)) <$> cs.
(** Its heartbeat goroutine. *)
Definition bucket_pings (cfg : Config) (cs : list A) : list (Z * A * action) :=
  t ← ticks 0 (10 * Second) (Duration cfg); (λ c, (t, c, APing)) <$> cs.

(** When [wg.Wait] returns: the context has ended and every bucket has woken. *)
Definition senders_done (cfg : Config) : Z :=
  foldr Z.max (Duration cfg) (bucket_start cfg <$> seq 0 (Z.to_nat (Buckets cfg))).

(** [run]: all that is done in a round and its length; [None] is the panic of
    [time.NewTicker]. *)
Definition run (clients : list A) (cfg : Config) : option (list (Z * A * action) * Z) :=
  if decide (clients = []) then Some ([], 0)
  else if decide (Interval cfg ≤ 0) then None
  else
    let n := Z.to_nat (Buckets cfg) in
    let buckets := (λ b, (b, bucket_clients clients n b)) <$> seq 0 n in
    let sends := '(b, cs) ← buckets; bucket_sends cfg cs b in
    let pings := '(_, cs) ← buckets; bucket_pings cfg cs in
    let closing := senders_done cfg + 5 * Second in
    Some (sends ++ pings ++ ((λ c, (closing, c, AClose)) <$> clients), closing + 2 * Second).
End round.

(** ** Progress: [trackProgress] *)
Definition float64_ge (x y : float64) : bool := SpecFloat.SFleb y x.
Definition float64_add (x y : float64) : float64 := SpecFloat.SFadd 53 1024 x y.
(** The percentage shown, between the last tick and the end clamped. *)
Definition track_percent (elapsed duration : Z) : float64 :=
  let percent := float64_mul (float64_div (float64_of_int64 elapsed) (float64_of_int64 duration)) (float64_of_int64 100) in
  if float64_ge percent (float64_of_int64 100)
  then float64_div (float64_of_int64 999) (float64_of_int64 10) else percent.

(** ** Files *)
Section files.
Context (Duration_String : Z → string).

(** [filepath.Join(dir, name)] with the directory of the configuration. *)
Definition out_dir (cfg : Config) : string := if decide (OutputDir cfg = "") then "." else OutputDir cfg.

(** [exportJSON] *)
Definition report_file (cfg : Config) (r : BenchReport) : string * string :=
  (out_dir cfg, Workflow cfg +:+ "_" +:+ Itoa (Users cfg) +:+ "_" +:+ Itoa (Buckets cfg) +:+ "_"
    +:+ Duration_String (Duration cfg) +:+ "_" +:+ Itoa (r_Timestamp r) +:+ ".json").

(** [%02d] of an index up to ten. *)
Definition two_digits (i : Z) : string := if decide (i < 10) then "0" +:+ Itoa i else Itoa i.

(** The file [download] writes. *)
Definition profile_file (cfg : Config) (typ ext : string) (index : Z) : string * string :=
  let name := typ +:+ "_" +:+ Workflow cfg +:+ "_" +:+ Itoa (Users cfg) +:+ "_" +:+ Itoa (Buckets cfg) +:+ "_"
              +:+ Duration_String (Duration cfg) in
  let name := if decide (index > 0) then name +:+ "_" +:+ two_digits index else name in
  (out_dir cfg, name +:+ ext).

(** [download]: the file, when the server answers 200 and it can be made. *)
Definition download (get : string → option Z) (create : string * string → bool) (cfg : Config)
    (typ ext : string) (index : Z) (path : string) : option (string * string) :=
  match get (Target cfg +:+ path) with
  | None => None
  | Some status =>
      let f := profile_file cfg typ ext index in
      if decide (status ≠ 200) then None else if create f then Some f else None
  end.

(** ** Profiles *)

(** [captureSnapshots]: the indices of the snapshots that are taken, with the
    time; [latency i] is how long the three downloads take. *)
Fixpoint snapshots_loop (latency : nat → Z) (interval until : Z) (todo i : nat) (t : Z) : list (nat * Z) :=
  match todo with
  | O => []
  | S todo =>
      let t := t + interval in
      if decide (until ≤ t) then []
      else (i, t) :: snapshots_loop latency interval until todo (S i) (t + latency i)
  end.
Definition captureSnapshots (latency : nat → Z) (cfg : Config) : list (nat * Z) :=
  snapshots_loop latency (Z.quot (Duration cfg) 10) (Duration cfg) 10 1 0.
Definition snapshot_files (cfg : Config) (i : nat) : list (string * string) :=
  [profile_file cfg "heap" ".prof" (Z.of_nat i); profile_file cfg "block" ".prof" (Z.of_nat i);
   profile_file cfg "mutex" ".prof" (Z.of_nat i)].

(** [captureTrace] and [captureCPU] *)
Definition captureTrace (cfg : Config) : Z * string := (Z.quot (Duration cfg) 2, "/debug/pprof/trace?seconds=5").
(** [Duration.Seconds] *)
Definition Seconds (d : Z) : float64 :=
  float64_add (float64_of_int64 (Z.quot d Second)) (float64_div (float64_of_int64 (Z.rem d Second)) (float64_of_int64 1000000000)).
Definition cpu_seconds (d : Z) : Z :=
  let seconds := int64_of_float64 (float64_div (Seconds d) (float64_of_int64 3)) in
  let seconds := if decide (seconds > 30) then 30 else seconds in
  if decide (seconds < 1) then 1 else seconds.
Definition captureCPU (cfg : Config) : Z * string :=
  (Z.quot (Duration cfg) 4, "/debug/pprof/profile?seconds=" +:+ Itoa (cpu_seconds (Duration cfg))).

(** The files of one round with profiles. *)
Definition round_files (cfg : Config) : list (string * string) :=
  (i ← seq 1 10; snapshot_files cfg i)
  ++ [profile_file cfg "trace" ".out" 0; profile_file cfg "profile" ".pprof" 0].
End files.

(** ** The rounds of a plan: [main] *)
Inductive plan_source := PlanFile (content : option (option (list Config))) | Flags (cfg : Config).
(** [None]: the plan cannot be read or parsed. *)
Definition load_rounds (src : plan_source) : option (list Config) :=
  match src with
  | PlanFile None => None
  | PlanFile (Some None) => None
  | PlanFile (Some (Some rounds)) => Some rounds
  | Flags cfg => Some [cfg]
  end.

(** What a round leaves: the filled configuration, when it began and ended and
    what its clients did. *)
Record round_log {A} := mkRound {
  rl_cfg : Config; rl_start : Z; rl_end : Z; rl_actions : list (Z * A * action) }.
Arguments round_log : clear implicits.
Arguments mkRound {A}.

Section main.
Context {A : Type} (ParseDuration : string → option Z).
(** [bootstrap] of round [idx]: the clients that could be made and the time it took. *)
Context (boot : nat → Config → list A * Z) (cooldownTime : Z).

Fixpoint rounds_loop (idx : nat) (t : Z) (rounds : list Config) : option (list (round_log A) * Z) :=
  match rounds with
  | [] => Some ([], t)
  | cfg :: rest =>
      let cfg := ValidateAndFill ParseDuration cfg in
      let '(clients, took) := boot idx cfg in
      let t := t + took in
      if decide (clients = []) then rounds_loop (S idx) t rest
      else
        match run clients cfg with
        | None => None
        | Some (acts, len) =>
            let log := mkRound cfg t (t + len) acts in
            let t := t + len + (if decide (rest = []) then 0 else cooldownTime) in
            match rounds_loop (S idx) t rest with
            | None => None
            | Some (logs, t) => Some (log :: logs, t)
            end
        end
  end.
Definition main (src : plan_source) : option (list (round_log A) * Z) :=
  match load_rounds src with None => None | Some rounds => rounds_loop 0 0 rounds end.
End main.

(** ** Properties of the schedule *)
Lemma ticks_spec from every until :
  0 < every →
  let n := tick_count from every until in
  ticks from every until = (λ k, from + k * every) <$> seqZ 1 n ∧
  (from < until → from + n * every < until ≤ from + (n + 1) * every) ∧
  (until ≤ from → n = 0).
Proof.
  intros He n. split; [done|]. unfold n, tick_count.
  pose proof (Z.div_mod (until - from - 1) every ltac:(lia)).
  pose proof (Z.mod_pos_bound (until - from - 1) every He).
  split; intros Hu.
  - rewrite Z.max_r by (apply Z.div_pos; lia). nia.
  - apply Z.max_l. assert ((until - from - 1) / every < 0); [|lia]. apply Z.div_lt_upper_bound; lia.
Qed.

Lemma elem_of_ticks from every until t :
  t ∈ ticks from every until ↔ ∃ k, 1 ≤ k ≤ tick_count from every until ∧ t = from + k * every.
Proof.
  unfold ticks. rewrite list_elem_of_fmap. setoid_rewrite elem_of_seqZ. split; intros (k & H1 & H2); exists k; lia.
Qed.

Section schedule.
Context {A : Type} `{!EqDecision A}.

(** What client [c] is told, of one kind, in the order of the schedule. *)
Definition told (a : action) (c : A) (acts : list (Z * A * action)) : list Z :=
  omap (λ '(t, c', a'), if decide (c' = c ∧ a' = a) then Some t else None) acts.

Lemma told_app a c xs ys : told a c (xs ++ ys) = told a c xs ++ told a c ys.
Proof. apply omap_app. Qed.

Lemma told_cons a c t c' a' (xs : list (Z * A * action)) :
  told a c ((t, c', a') :: xs) = if decide (c' = c ∧ a' = a) then t :: told a c xs else told a c xs.
Proof. unfold told. cbn. by case_decide. Qed.

Lemma told_others a c (xs : list (Z * A * action)) :
  (∀ t c' a', (t, c', a') ∈ xs → c' = c → a' ≠ a) → told a c xs = [].
Proof.
  induction xs as [|[[t c'] a'] xs IH]; intros H; [done|]. rewrite told_cons.
  rewrite decide_False by (intros [-> ->]; by eapply (H t); [left|..]).
  apply IH. intros t1 c1 a1 Hin. eapply H. by right.
Qed.

Lemma told_same a c t (cs : list A) :
  NoDup cs → told a c ((λ c', (t, c', a)) <$> cs) = if decide (c ∈ cs) then [t] else [].
Proof.
  induction cs as [|c' cs IH]; intros Hnd; [by rewrite decide_False by set_solver|].
  apply NoDup_cons in Hnd as [Hni Hnd]. rewrite fmap_cons, told_cons. destruct (decide (c' = c ∧ a = a)) as [[-> _]|Hne].
  - rewrite decide_True by set_solver. rewrite IH, decide_False by done. done.
  - rewrite IH by done. assert (c' ≠ c) by naive_solver. repeat case_decide; set_solver.
Qed.

Lemma told_at_ticks a c (ts : list Z) (cs : list A) :
  NoDup cs → told a c (t ← ts; (λ c', (t, c', a)) <$> cs) = if decide (c ∈ cs) then ts else [].
Proof.
  intros Hnd. induction ts as [|t ts IH]; [by case_decide|].
  cbn [mbind list_bind]. rewrite told_app, told_same, IH by done. by case_decide.
Qed.

(** The buckets of the clients, as [run] makes them. *)
Lemma in_one_bucket (clients : list A) n c :
  NoDup clients → c ∈ clients → (0 < n)%nat →
  ∃ b, (b < n)%nat ∧ c ∈ bucket_clients clients n b ∧
    ∀ b', (b' < n)%nat → c ∈ bucket_clients clients n b' → b' = b.
Proof.
  intros Hnd Hc Hn. pose proof (buckets_partition clients n Hn) as Hp.
  rewrite <- Hp in Hc. apply list_elem_of_In, in_concat in Hc as (cs & Hcs & Hin).
  apply list_elem_of_In, list_elem_of_fmap in Hcs as (b & -> & Hb%elem_of_seq).
  apply list_elem_of_In in Hin. exists b. split; [lia|]. split; [done|]. intros b' Hb' Hin'.
  assert (∀ i j, (i < j < n)%nat → c ∈ bucket_clients clients n i → c ∈ bucket_clients clients n j → False) as Hlt.
  { intros i j Hij Hi Hj. rewrite <- Hp in Hnd.
    replace n with (j + (n - j))%nat in Hnd at 2 by lia.
    rewrite seq_app, fmap_app, concat_app in Hnd. apply NoDup_app in Hnd as (_ & Hd & _).
    apply (Hd c); apply list_elem_of_In, in_concat.
    - exists (bucket_clients clients n i). split; [|by apply list_elem_of_In].
      apply list_elem_of_In, list_elem_of_fmap. exists i. split; [done|]. apply elem_of_seq. lia.
    - exists (bucket_clients clients n j). split; [|by apply list_elem_of_In].
      apply list_elem_of_In, list_elem_of_fmap. exists j. split; [done|]. apply elem_of_seq. lia. }
  destruct (Nat.lt_trichotomy b' b) as [H|[H|H]]; [|done|]; exfalso; [apply (Hlt b' b)|apply (Hlt b b')]; done || lia.
Qed.

Lemma bucket_NoDup (clients : list A) n b : NoDup clients → NoDup (bucket_clients clients n b).
Proof. intros H. unfold bucket_clients. eapply sublist_NoDup; [|apply sublist_take]. by eapply sublist_NoDup; [|apply sublist_drop]. Qed.

(** One kind of action over all buckets: what the bucket of the client says. *)
Lemma told_over_buckets a c (clients : list A) n (f : nat → list A → list (Z * A * action)) (g : nat → list Z) :
  NoDup clients → c ∈ clients → (0 < n)%nat →
  (∀ b cs, NoDup cs → told a c (f b cs) = if decide (c ∈ cs) then g b else []) →
  ∃ b, (b < n)%nat ∧ c ∈ bucket_clients clients n b ∧
    told a c ('(b, cs) ← (λ b, (b, bucket_clients clients n b)) <$> seq 0 n; f b cs) = g b.
Proof.
  intros Hnd Hc Hn Hf. destruct (in_one_bucket clients n c Hnd Hc Hn) as (b & Hb & Hin & Huniq).
  exists b. split; [done|]. split; [done|].
  assert (∀ bs, NoDup bs → (∀ x, x ∈ bs → (x < n)%nat) →
    told a c ('(b, cs) ← (λ b, (b, bucket_clients clients n b)) <$> bs; f b cs) = if decide (b ∈ bs) then g b else [])
    as Hall.
  { induction bs as [|x bs IH]; intros Hbs Hlt; [by rewrite decide_False by set_solver|].
    apply NoDup_cons in Hbs as [Hx Hbs]. cbn [fmap list_fmap mbind list_bind].
    rewrite told_app, Hf by by apply bucket_NoDup. rewrite IH by (done || intros y Hy; apply Hlt; set_solver).
    destruct (decide (c ∈ bucket_clients clients n x)) as [Hcx|Hcx].
    - rewrite (Huniq x) in Hx |- * by (done || apply Hlt; set_solver).
      rewrite decide_False by done. rewrite decide_True by set_solver. by rewrite app_nil_r.
    - assert (x ≠ b) by (intros ->; done). repeat case_decide; set_solver. }
  rewrite Hall; [|apply NoDup_seq|intros x Hx%elem_of_seq; lia].
  rewrite decide_True; [done|]. apply elem_of_seq. lia.
Qed.

Lemma senders_done_spec cfg :
  Duration cfg ≤ senders_done cfg ∧
  ∀ b, (b < Z.to_nat (Buckets cfg))%nat → bucket_start cfg b ≤ senders_done cfg.
Proof.
  unfold senders_done. assert (∀ ts d, d ≤ foldr Z.max d ts ∧ ∀ t : Z, t ∈ ts → t ≤ foldr Z.max d ts) as H.
  { induction ts as [|t ts IH]; intros d; cbn; [split; [lia|set_solver]|]. destruct (IH d) as [H1 H2].
    split; [lia|]. intros t' [->|Hin]%elem_of_cons; [lia|]. specialize (H2 _ Hin). lia. }
  destruct (H (bucket_start cfg <$> seq 0 (Z.to_nat (Buckets cfg))) (Duration cfg)) as [H1 H2]. split; [done|].
  intros b Hb. apply H2, list_elem_of_fmap. exists b. split; [done|]. apply elem_of_seq. lia.
Qed.

(** An action of another kind says nothing. *)
Lemma at_ticks_kind (ts : list Z) (cs : list A) (a : action) (t : Z) (c' : A) (k : action) :
  (t, c', k) ∈ (t ← ts; (λ c, (t, c, a)) <$> cs) → k = a.
Proof. intros (t' & (c1 & [= -> -> ->] & _)%list_elem_of_fmap & _)%list_elem_of_bind. done. Qed.

Lemma told_none_over_buckets a a' c (bs : list (nat * list A)) (f : nat → list A → list (Z * A * action)) :
  (∀ b cs t c' k, (t, c', k) ∈ f b cs → k = a') → a ≠ a' → told a c ('(b, cs) ← bs; f b cs) = [].
Proof.
  intros Hk Hne. apply told_others. intros t c' k Hin _ ->.
  apply list_elem_of_bind in Hin as ([b1 cs] & Hin & _). by apply Hne, (Hk _ _ _ _ _ Hin).
Qed.

Lemma told_sends_only a c (cfg : Config) (bs : list (nat * list A)) :
  a ≠ ASend → told a c ('(b, cs) ← bs; bucket_sends cfg cs b) = [].
Proof. apply (told_none_over_buckets a ASend c bs (λ b cs, bucket_sends cfg cs b)). intros b cs t c' k. apply at_ticks_kind. Qed.

Lemma told_pings_only a c (cfg : Config) (bs : list (nat * list A)) :
  a ≠ APing → told a c ('(_, cs) ← bs; bucket_pings cfg cs) = [].
Proof. apply (told_none_over_buckets a APing c bs (λ _ cs, bucket_pings cfg cs)). intros b cs t c' k. apply at_ticks_kind. Qed.

Lemma told_closes_only a c t (cs : list A) : a ≠ AClose → told a c ((λ c, (t, c, AClose)) <$> cs) = [].
Proof.
  intros Ha. apply told_others. intros t' c' k (c1 & [= -> -> ->] & _)%list_elem_of_fmap _. done.
Qed.

Lemma bucket_start_bounds cfg b :
  0 < Interval cfg → (b < Z.to_nat (Buckets cfg))%nat → 0 ≤ bucket_start cfg b ≤ Interval cfg.
Proof.
  intros Hi Hb. unfold bucket_start.
  pose proof (bucket_offset_within (Z.of_nat b) (Buckets cfg) (Interval cfg) ltac:(lia) ltac:(lia)).
  unfold Milliseconds in *. assert (0 < Millisecond) by done.
  pose proof (Z.quot_rem' (Interval cfg) Millisecond).
  pose proof (Z.rem_bound_pos (Interval cfg) Millisecond ltac:(lia) ltac:(lia)). nia.
Qed.

(** The schedule of a round.  Every client sends at a fixed start within the
    first interval and then every interval, up to the end of the test and not
    after it; it is pinged every ten seconds meanwhile; and it is closed exactly
    once, five seconds after the last bucket has stopped. *)
Theorem round_is_scheduled (clients : list A) cfg c :
  NoDup clients → c ∈ clients → 0 < Interval cfg → 0 < Buckets cfg →
  ∃ acts len from, run clients cfg = Some (acts, len) ∧
    0 ≤ from ≤ Interval cfg ∧
    told ASend c acts = ticks from (Interval cfg) (Duration cfg) ∧
    (from < Duration cfg →
      let n := tick_count from (Interval cfg) (Duration cfg) in
      from + n * Interval cfg < Duration cfg ≤ from + (n + 1) * Interval cfg) ∧
    told APing c acts = ticks 0 (10 * Second) (Duration cfg) ∧
    ∃ closing, told AClose c acts = [closing] ∧ Duration cfg + 5 * Second ≤ closing ∧ len = closing + 2 * Second.
Proof.
  intros Hnd Hc Hi Hb. unfold run. rewrite decide_False by (intros ->; by apply not_elem_of_nil in Hc). rewrite decide_False by lia.
  set (n := Z.to_nat (Buckets cfg)).
  destruct (told_over_buckets ASend c clients n (λ b cs, bucket_sends cfg cs b)
    (λ b, ticks (bucket_start cfg b) (Interval cfg) (Duration cfg)) Hnd Hc ltac:(lia)) as (b & Hbn & _ & Hs).
  { intros b cs Hcs. by apply told_at_ticks. }
  destruct (told_over_buckets APing c clients n (λ _ cs, bucket_pings cfg cs)
    (λ _, ticks 0 (10 * Second) (Duration cfg)) Hnd Hc ltac:(lia)) as (b' & _ & _ & Hp).
  { intros b' cs Hcs. by apply told_at_ticks. }
  eexists _, _, (bucket_start cfg b). split; [reflexivity|].
  pose proof (senders_done_spec cfg) as [Hd _].
  split; [by apply bucket_start_bounds|]. split_and!.
  - by rewrite !told_app, Hs, told_pings_only, told_closes_only, !app_nil_r by done.
  - by apply ticks_spec.
  - by rewrite !told_app, Hp, told_sends_only, told_closes_only, !app_nil_r by done.
  - exists (senders_done cfg + 5 * Second). split_and!; [|lia|done].
    by rewrite !told_app, told_sends_only, told_pings_only, told_same, decide_True by done.
Qed.
End schedule.

Lemma round_is_scheduled_witness :
  ∃ acts len from, run [1%nat; 2%nat; 3%nat] defaultConfig = Some (acts, len) ∧
    0 ≤ from ≤ Interval defaultConfig ∧
    told ASend 2%nat acts = ticks from (Interval defaultConfig) (Duration defaultConfig) ∧
    (from < Duration defaultConfig →
      let n := tick_count from (Interval defaultConfig) (Duration defaultConfig) in
      from + n * Interval defaultConfig < Duration defaultConfig ≤ from + (n + 1) * Interval defaultConfig) ∧
    told APing 2%nat acts = ticks 0 (10 * Second) (Duration defaultConfig) ∧
    ∃ closing, told AClose 2%nat acts = [closing] ∧ Duration defaultConfig + 5 * Second ≤ closing ∧
      len = closing + 2 * Second.
Proof.
  apply (round_is_scheduled [1%nat; 2%nat; 3%nat] defaultConfig 2%nat).
  - apply (bool_decide_unpack _). vm_compute. exact I.
  - apply (bool_decide_unpack _). vm_compute. exact I.
  - reflexivity.
  - reflexivity.
Defined.

(** ** Properties of the rounds *)

(** The rounds that run: those whose clients could be made. *)
Section plan.
Context {A : Type} (ParseDuration : string → option Z) (boot : nat → Config → list A * Z) (cooldownTime : Z).

Fixpoint runnable (idx : nat) (rounds : list Config) : list Config :=
  match rounds with
  | [] => []
  | cfg :: rest =>
      let cfg := ValidateAndFill ParseDuration cfg in
      (if decide ((boot idx cfg).1 = []) then [] else [cfg]) ++ runnable (S idx) rest
  end.

(** One log after another, with the cool-down in between. *)
Fixpoint apart (t : Z) (logs : list (round_log A)) : Prop :=
  match logs with
  | [] => True
  | l :: logs => t ≤ rl_start l ∧ rl_start l ≤ rl_end l ∧
      match logs with [] => True | _ => apart (rl_end l + cooldownTime) logs end
  end.

Lemma run_length (clients : list A) cfg acts len :
  0 ≤ Duration cfg → run clients cfg = Some (acts, len) → 0 ≤ len.
Proof.
  intros Hd. unfold run. repeat case_decide; try done; intros [= _ <-]; [lia|].
  pose proof (senders_done_spec cfg) as [? _]. assert (0 < Second) by done. lia.
Qed.

(** A plan is worked off.  Unless an interval is not positive, every round
    whose clients could be made is run, with its filled configuration and in
    the order of the plan; the others are skipped; and a round begins when the
    one before it has ended and the cool-down is over. *)
Theorem plan_is_worked_off rounds :
  0 ≤ cooldownTime → (∀ idx cfg, 0 ≤ (boot idx cfg).2) →
  (∀ cfg, cfg ∈ rounds → let c := ValidateAndFill ParseDuration cfg in 0 < Interval c ∧ 0 ≤ Duration c) →
  ∃ logs t, main ParseDuration boot cooldownTime (PlanFile (Some (Some rounds))) = Some (logs, t) ∧
    rl_cfg <$> logs = runnable 0 rounds ∧ apart 0 logs.
Proof.
  intros Hcool Hboot. unfold main, load_rounds.
  enough (∀ idx t0, (∀ cfg, cfg ∈ rounds → let c := ValidateAndFill ParseDuration cfg in 0 < Interval c ∧ 0 ≤ Duration c) →
    ∃ logs t, rounds_loop ParseDuration boot cooldownTime idx t0 rounds = Some (logs, t) ∧
      rl_cfg <$> logs = runnable idx rounds ∧ apart t0 logs) as H by (intros Hr; exact (H 0%nat 0 Hr)).
  induction rounds as [|cfg rest IH]; intros idx t0 Hok; [by eexists [], _|].
  destruct (Hok cfg ltac:(left)) as [Hi Hd]. cbn [rounds_loop runnable].
  set (c := ValidateAndFill ParseDuration cfg) in *. pose proof (Hboot idx c) as Ht.
  destruct (boot idx c) as [clients took] eqn:Hbt; cbn in Ht |- *.
  destruct (decide (clients = [])) as [->|Hne].
  - destruct (IH (S idx) (t0 + took)) as (logs & t & -> & Hl & Ha); [intros x Hx; apply Hok; by right|].
    exists logs, t. split_and!; [done|done|]. destruct logs as [|l logs]; [done|]. cbn in Ha |- *. destruct Ha as (?&?&?).
    split_and!; [lia|lia|done].
  - destruct (run clients c) as [[acts len]|] eqn:Hrun.
    2: { exfalso. revert Hrun. unfold run. rewrite !decide_False by (done || lia). done. }
    pose proof (run_length _ _ _ _ Hd Hrun) as Hlen.
    destruct (IH (S idx) (t0 + took + len + (if decide (rest = []) then 0 else cooldownTime))) as (logs & t & -> & Hl & Ha);
      [intros x Hx; apply Hok; by right|].
    eexists _, _. split; [reflexivity|]. split; [cbn; by rewrite Hl|].
    cbn. split_and!; [lia|lia|]. destruct logs as [|l logs]; [done|].
    destruct rest as [|r rest]; [cbn in Hl; discriminate Hl|].
    rewrite decide_False in Ha by done. done.
Qed.
End plan.

(** Durations as ["10s"]; anything else is refused. *)
Definition demo_parse (s : string) : option Z :=
  if decide (s = "10s") then Some (10 * Second) else if decide (s = "0s") then Some 0 else None.
Definition demo_plan : list Config :=
  [mkConfig "" 2 0 "10s" 0 "" "" 0 false false ""; mkConfig "b" 1 0 "10s" 0 "" "" 0 true false ""].

Lemma plan_is_worked_off_witness :
  ∃ logs t, main demo_parse (λ idx cfg, (seq 0 (Z.to_nat (Users cfg)), 7)) Second (PlanFile (Some (Some demo_plan)))
      = Some (logs, t) ∧
    rl_cfg <$> logs = runnable demo_parse (λ idx cfg, (seq 0 (Z.to_nat (Users cfg)), 7)) 0 demo_plan ∧
    apart Second 0 logs.
Proof.
  apply (plan_is_worked_off demo_parse (λ idx cfg, (seq 0 (Z.to_nat (Users cfg)), 7)) Second demo_plan).
  - discriminate.
  - discriminate.
  - intros cfg Hin. unfold demo_plan in Hin. apply elem_of_cons in Hin as [->|Hin].
    + split; [reflexivity|discriminate].
    + apply list_elem_of_singleton in Hin as ->. split; [reflexivity|discriminate].
Defined.

(** ** Files of a round *)
Section names.
Context (Duration_String : Z → string) (cfg : Config).

(** The kinds of profile a round fetches, with the number of each file. *)
Inductive profile_kind : string → string → Z → Prop :=
| kind_heap i : 1 ≤ i ≤ 10 → profile_kind "heap" ".prof" i
| kind_block i : 1 ≤ i ≤ 10 → profile_kind "block" ".prof" i
| kind_mutex i : 1 ≤ i ≤ 10 → profile_kind "mutex" ".prof" i
| kind_trace : profile_kind "trace" ".out" 0
| kind_profile : profile_kind "profile" ".pprof" 0.

Lemma two_digits_inj i j : 1 ≤ i ≤ 10 → 1 ≤ j ≤ 10 → two_digits i = two_digits j → i = j.
Proof.
  intros Hi Hj. assert (∀ x, 1 ≤ x ≤ 10 → x ∈ seqZ 1 10) as Hin by (intros x Hx; apply elem_of_seqZ; lia).
  apply Hin in Hi, Hj. assert (∀ x, x ∈ seqZ 1 10 → ∀ y, y ∈ seqZ 1 10 → two_digits x = two_digits y → x = y) as H.
  { assert (Forall (λ x, Forall (λ y, two_digits x = two_digits y → x = y) (seqZ 1 10)) (seqZ 1 10)) as H
      by (refine (bool_decide_eq_true_1 _ _); vm_compute; reflexivity).
    intros x Hx y Hy. rewrite Forall_forall in H. specialize (H x Hx). rewrite Forall_forall in H. by apply H. }
  by apply H.
Qed.

Lemma string_app_inj_l (a b c : string) : a +:+ b = a +:+ c → b = c.
Proof. induction a as [|x a IH]; cbn; [done|]. intros [= H]. by apply IH. Qed.

Lemma string_app_length (a b : string) : String.length (a +:+ b) = (String.length a + String.length b)%nat.
Proof. induction a as [|x a IH]; [done|]. exact (f_equal S IH). Qed.

Lemma string_app_inj_r (a b c : string) : a +:+ c = b +:+ c → a = b.
Proof.
  intros H. pose proof (f_equal String.length H) as Hl. rewrite !string_app_length in Hl.
  revert b H Hl. induction a as [|x a IH]; intros [|y b] H Hl; [done|exfalso; cbn in Hl; lia..|].
  injection H as <- H. f_equal. apply IH; [done|]. cbn in Hl. lia.
Qed.

(** Different profiles of a round go to different files. *)
Lemma profile_file_inj typ ext i typ' ext' i' :
  profile_kind typ ext i → profile_kind typ' ext' i' →
  profile_file Duration_String cfg typ ext i = profile_file Duration_String cfg typ' ext' i' →
  typ = typ' ∧ ext = ext' ∧ i = i'.
Proof.
  intros H1 H2. unfold profile_file.
  generalize (Workflow cfg +:+ "_" +:+ Itoa (Users cfg) +:+ "_" +:+ Itoa (Buckets cfg) +:+ "_"
    +:+ Duration_String (Duration cfg)) as base. intros base [= Heq].
  assert (∀ i j typ, 1 ≤ i ≤ 10 → 1 ≤ j ≤ 10 →
    ((typ +:+ "_" +:+ base) +:+ "_" +:+ two_digits i) +:+ ".prof" = ((typ +:+ "_" +:+ base) +:+ "_" +:+ two_digits j) +:+ ".prof"
    → i = j) as Hidx.
  { intros x y ty Hx Hy Hxy. apply string_app_inj_r, string_app_inj_l in Hxy. injection Hxy as Hxy.
    by apply two_digits_inj. }
  destruct H1, H2; repeat case_decide; try lia; try (cbn in Heq; discriminate Heq);
    try done; (split; [done|]); (split; [done|]); by eapply Hidx.
Qed.

Lemma round_files_kinds f : f ∈ round_files Duration_String cfg →
  ∃ typ ext i, profile_kind typ ext i ∧ f = profile_file Duration_String cfg typ ext i.
Proof.
  unfold round_files. rewrite elem_of_app, list_elem_of_bind. intros [(i & Hf & Hi%elem_of_seq)|Hf].
  - unfold snapshot_files in Hf. rewrite !elem_of_cons in Hf. destruct Hf as [->|[->|[->|Hf]]].
    + eexists _, _, _. split; [apply kind_heap|done]. lia.
    + eexists _, _, _. split; [apply kind_block|done]. lia.
    + eexists _, _, _. split; [apply kind_mutex|done]. lia.
    + by apply not_elem_of_nil in Hf.
  - rewrite !elem_of_cons in Hf. destruct Hf as [->|[->|Hf]].
    + eexists _, _, _. split; [apply kind_trace|done].
    + eexists _, _, _. split; [apply kind_profile|done].
    + by apply not_elem_of_nil in Hf.
Qed.
End names.

(** ** Deviations *)

(** The names of the profiles do not tell rounds apart: a later round of a
    plan with the same workflow, users, buckets and duration writes over all
    profiles of an earlier one (the report has the time in its name). *)
Theorem profiles_are_overwritten Duration_String cfg cfg' :
  Workflow cfg = Workflow cfg' → Users cfg = Users cfg' → Buckets cfg = Buckets cfg' →
  Duration cfg = Duration cfg' → OutputDir cfg = OutputDir cfg' →
  round_files Duration_String cfg = round_files Duration_String cfg'.
Proof.
  intros HW HU HB HD HO. unfold round_files, snapshot_files, profile_file, out_dir. by rewrite HW, HU, HB, HD, HO.
Qed.

(** An interval of zero passes the validation, since it can be parsed, and
    ends the program when the ticker is made. *)
Theorem zero_interval_panics {A} ParseDuration (c1 : A) cs cfg raw :
  RawInterval cfg = raw → ParseDuration raw = Some 0 →
  run (c1 :: cs) (ValidateAndFill ParseDuration cfg) = None.
Proof. intros Hr Hp. unfold run. rewrite decide_False by done. unfold ValidateAndFill. cbn. by rewrite Hr, Hp. Qed.

Lemma snapshots_loop_late latency interval until todo i t :
  (∀ i, 0 < latency i) → until ≤ t + interval * Z.of_nat todo → (0 < todo)%nat → 0 ≤ interval →
  (length (snapshots_loop latency interval until todo i t) < todo)%nat.
Proof.
  intros Hl. revert i t. induction todo as [|todo IH]; intros i t Hu Hpos Hi; [lia|].
  cbn [snapshots_loop]. case_decide as Ht; [cbn; lia|].
  destruct todo as [|todo]; [exfalso; lia|]. cbn [length].
  apply (proj1 (Nat.succ_lt_mono _ _)). apply IH; [|lia|done]. pose proof (Hl i). nia.
Qed.

(** The last of the ten snapshots is due when the test ends, and the nine
    before it took some time: it is never taken. *)
Theorem tenth_snapshot_is_lost latency cfg :
  (∀ i, 0 < latency i) → 0 ≤ Duration cfg → Duration cfg = 10 * (Duration cfg / 10) →
  (length (captureSnapshots latency cfg) < 10)%nat.
Proof.
  intros Hl Hd H10. apply snapshots_loop_late; [done|..|lia|].
  - rewrite Z.quot_div_nonneg by lia. lia.
  - rewrite Z.quot_div_nonneg by lia. apply Z.div_pos; lia.
Qed.
