(* ===== verification/PublishPath.v ===== *)
(** * From a plugin to the wire

    The way of a packet: [Publish] and [PublishFull] of a node
    (internal/engine/node.go) take it from the packet pool and fill it,
    [Workflow.Write] queues or drops it, the write loop of a WebSocket client
    (biz/realtime/socket.go) writes header and payload and returns it to the
    pool.  Packets are objects: the model has them in a store by identity, the
    pool is shared with every other session of the process, and a packet that
    was returned is emptied and filled again.  The theorem says that in every
    interleaving what arrives at the client is what was published. *)

From Stdlib Require Import Sorted.
From S2P Require Import Prelude.
From S2P Require Import Chan.
From S2P Require Import GoSlice.
From S2P Require Import Protocol.
From S2P Require Import EngineTypes.
From S2P Require Import Lifecycle.

(** ** State *)
Record path := mkPath {
  flow : wf;                       (** the workflow, its packets by identity *)
  heap : gmap nat Packet;          (** every packet object *)
  free : list nat;                 (** the packet pool *)
  others : list nat;               (** packets other sessions hold *)
  holding : option nat;            (** the packet in the hands of the write loop *)
  published : list (nat * (Z * Z * list Z));  (** ghost: thread, type, encoding, data *)
  tag : nat → nat;                 (** ghost: which publication a packet carries *)
  frames : list (nat * list Z)     (** what the write loop wrote, latest first, with that number *)
}.

Definition set_flow f s := mkPath f (heap s) (free s) (others s) (holding s) (published s) (tag s) (frames s).
Definition set_heap h s := mkPath (flow s) h (free s) (others s) (holding s) (published s) (tag s) (frames s).
Definition set_free f s := mkPath (flow s) (heap s) f (others s) (holding s) (published s) (tag s) (frames s).
Definition set_others o s := mkPath (flow s) (heap s) (free s) o (holding s) (published s) (tag s) (frames s).
Definition set_holding h s := mkPath (flow s) (heap s) (free s) (others s) h (published s) (tag s) (frames s).
Definition add_frame f s := mkPath (flow s) (heap s) (free s) (others s) (holding s) (published s) (tag s) (f :: frames s).
Definition publish_as id p s :=
  mkPath (flow s) (heap s) (free s) (others s) (holding s) (published s ++ [p])
    (λ x, if decide (x = id) then length (published s) else tag s x) (frames s).

Definition path_init (n threads : nat) : path :=
  mkPath (wf_init n threads) ∅ [] [] None [] (λ _, 0) [].

(** ** Operations *)

(** [AcquirePacket] takes any packet of the pool or makes a new one. *)
Definition acquire (pick : option nat) (s : path) : nat * path :=
  let fresh_id := fresh (dom (heap s)) in
  match pick ≫= λ i, (i,.) <$> free s !! i with
  | Some (i, id) => (id, set_free (delete i (free s)) s)
  | None => (fresh_id, set_heap (<[fresh_id := new_packet]> (heap s)) s)
  end.

(** [ReleasePacket] *)
Definition release (id : nat) (s : path) : path :=
  set_free (id :: free s) (set_heap (alter Recycle id (heap s)) s).

(** [PublishFull]: fill the packet and start [Write]; without a writer
    nothing happens. *)
Definition PublishFull (writer : bool) (t : nat) (pick : option nat) (mt encode : Z) (data : list Z) (s : path) :
    option path :=
  if negb writer then Some s
  else
    let '(id, s') := acquire pick s in
    let fill p := SetPayload (mkPacket mt encode (Size p) (Payload p) (header p)) data in
    f ← wf_step (WfWrite t id) (flow s');
    Some (set_flow f (publish_as id (t, (mt, encode, data)) (set_heap (alter fill id (heap s')) s'))).
Definition Publish (writer : bool) (t : nat) (pick : option nat) (mt : Z) (data : list Z) (s : path) : option path :=
  PublishFull writer t pick mt EncodeRaw data s.

(** A step of the workflow; what it releases goes to the pool. *)
Definition flow_step (lb : wf_label) (s : path) : option path :=
  f ← wf_step lb (flow s);
  let news := take (length (released f) - length (released (flow s))) (released f) in
  Some (foldr release (set_flow f s) news).

(** The write loop: receive, then write header and payload and release,
    whether or not the write succeeded. *)
Definition write_receive (s : path) : option path :=
  match holding s with
  | Some _ => None
  | None =>
      '(p, _) ← recv_case (output (flow s));
      f ← wf_step WfReceive (flow s);
      Some (set_holding (Some p) (set_flow f s))
  end.
Definition write_packet (ok : bool) (s : path) : option path :=
  id ← holding s;
  p ← heap s !! id;
  let '(p', h) := Header p in
  let s := set_heap (<[id := p']> (heap s)) s in
  let s := if ok then add_frame (tag s id, h ++ contents (Payload p')) s else s in
  Some (release id (set_holding None s)).

Inductive path_label :=
| PPublish (t : nat) (pick : option nat) (mt encode : Z) (data : list Z)
| PFlow (lb : wf_label)
| PReceive
| PWritev (ok : bool)
| POtherAcquire (pick : option nat)          (** another session of the process *)
| POtherFill (i : nat) (p : Packet)
| POtherRelease (i : nat).

(** The steps of the workflow that are its own. *)
Definition internal (lb : wf_label) : bool :=
  match lb with WfWrite _ _ | WfReceive => false | _ => true end.

Definition path_step (lb : path_label) (s : path) : option path :=
  match lb with
  | PPublish t pick mt encode data => PublishFull true t pick mt encode data s
  | PFlow lb => if internal lb then flow_step lb s else None
  | PReceive => write_receive s
  | PWritev ok => write_packet ok s
  | POtherAcquire pick => let '(id, s) := acquire pick s in Some (set_others (id :: others s) s)
  | POtherFill i p => id ← others s !! i; Some (set_heap (<[id := p]> (heap s)) s)
  | POtherRelease i => id ← others s !! i; Some (release id (set_others (delete i (others s)) s))
  end.
Fixpoint path_run (ls : list path_label) (s : path) : option path :=
  match ls with [] => Some s | lb :: ls => s ← path_step lb s; path_run ls s end.

(** ** What a step of the workflow does with packets *)
Definition hand (f : wf) (t : nat) : list nat := from_option in_hand [] (wf_threads f !! t).

Inductive flow_effect (f f' : wf) : Prop :=
| effect_none :
    released f' = released f → buffer (output f') = buffer (output f) → (∀ t, hand f' t = hand f t) → flow_effect f f'
| effect_sent t p :
    released f' = released f → buffer (output f') = buffer (output f) ++ [p] →
    hand f t = [p] → hand f' t = [] → (∀ u, u ≠ t → hand f' u = hand f u) → flow_effect f f'
| effect_refused t p :
    released f' = p :: released f → buffer (output f') = buffer (output f) →
    hand f t = [p] → hand f' t = [] → (∀ u, u ≠ t → hand f' u = hand f u) → flow_effect f f'
| effect_drained p :
    released f' = p :: released f → buffer (output f) = p :: buffer (output f') →
    (∀ t, hand f' t = hand f t) → flow_effect f f'.

Lemma hand_insert f t th u :
  t < length (wf_threads f) →
  from_option in_hand [] (<[t := th]> (wf_threads f) !! u) = if decide (u = t) then in_hand th else hand f u.
Proof.
  intros Ht. destruct (decide (u = t)) as [->|Hne].
  - by rewrite list_lookup_insert_eq.
  - by rewrite list_lookup_insert_ne.
Qed.

Lemma hand_at f t th : wf_threads f !! t = Some th → hand f t = in_hand th.
Proof. unfold hand. by intros ->. Qed.

Lemma wf_step_effect lb f f' :
  internal lb = true → wf_step lb f = Some f' →
  flow_effect f f' ∧ written f' = written f ∧ delivered f' = delivered f.
Proof.
  intros Hin Hs. destruct lb as [t p|t|t|t|t k|]; try discriminate Hin; cbn [wf_step] in Hs.
  1-3: destruct (wf_threads f !! t) as [[]|] eqn:Ht; try discriminate Hs;
    pose proof (lookup_lt_Some _ _ _ Ht); case_decide; simplify_eq; (split; [|done]); apply effect_none; try done;
    intros u; unfold hand at 1; cbn; rewrite hand_insert by done; case_decide as Hu; try done;
    subst u; by rewrite (hand_at _ _ _ Ht).
  destruct (wf_threads f !! t) as [th|] eqn:Ht; [|discriminate Hs]. cbn [mbind option_bind] in Hs.
  pose proof (lookup_lt_Some _ _ _ Ht) as Hlt. pose proof (hand_at _ _ _ Ht) as Hh.
  assert (∀ th' (g : wf), wf_threads g = <[t := th']> (wf_threads f) →
    hand g t = in_hand th' ∧ ∀ u, u ≠ t → hand g u = hand f u) as Hmove.
  { intros th' g Hg. unfold hand at 1. rewrite Hg, hand_insert, decide_True by done. split; [done|].
    intros u Hu. unfold hand at 1. by rewrite Hg, hand_insert, decide_False. }
  assert (∀ th' (g : wf), wf_threads g = <[t := th']> (wf_threads f) → in_hand th' = in_hand th → ∀ u, hand g u = hand f u)
    as Hsame.
  { intros th' g Hg He u. destruct (Hmove th' g Hg) as [H1 H2]. destruct (decide (u = t)) as [->|Hu]; [congruence|auto]. }
  destruct th as [|p|p| |i| | |]; cbn [Write Stop_step mbind option_bind] in Hs.
  - discriminate Hs.
  - case_decide; simplify_eq; (split; [|done]).
    + apply effect_none; [done|done|]. by eapply Hsame.
    + destruct (Hmove WIdle (w_release (w_thread f t WIdle) p) eq_refl) as [H1 H2].
      by eapply (effect_refused _ _ t p).
  - destruct (_ !! k) as [o|] eqn:E; [|discriminate Hs]. cbn in Hs. apply list_elem_of_lookup_2 in E.
    destruct o as [c| | |]; simplify_eq; (split; [|done]).
    + apply SendWithNonBlocking_spec in E as [E|[? _]]; [|done].
      apply SendWithContext_spec in E as [[? _]|[_ E]]; [done|].
      apply send_case_spec in E as [[_ ?]|(Hc & Hf & ?)]; [done|]. simplify_eq.
      destruct (Hmove WIdle (w_output (w_thread f t WIdle) (enqueue (output f) p)) eq_refl) as [H1 H2].
      by eapply (effect_sent _ _ t p).
    + destruct (Hmove WIdle (w_release (w_thread f t WIdle) p) eq_refl). by eapply (effect_refused _ _ t p).
    + destruct (Hmove WIdle (w_release (w_thread f t WIdle) p) eq_refl). by eapply (effect_refused _ _ t p).
    + destruct (Hmove WIdle (w_release (w_thread f t WIdle) p) eq_refl). by eapply (effect_refused _ _ t p).
  - simplify_eq. split; [|done]. apply effect_none; [done|done|]. by eapply Hsame.
  - case_decide; simplify_eq; (split; [|done]); apply effect_none; try done; by eapply Hsame.
  - destruct (closed (output f)); simplify_eq; (split; [|done]); apply effect_none; try done; by eapply Hsame.
  - destruct (recv_case (output f)) as [[p c]|] eqn:E; simplify_eq; (split; [|done]).
    + apply recv_case_Some in E as (Hb & _ & _). by apply (effect_drained _ _ p).
    + apply effect_none; [done|done|]. by eapply Hsame.
  - discriminate Hs.
Qed.

(** ** Invariant *)
Local Abbreviation occ := (count_occ Nat.eq_dec).

(** The places of the workflow a packet can be in. *)
Definition queued (f : wf) (x : nat) : nat :=
  occ (buffer (output f)) x + sum_list_with (λ th, occ (in_hand th) x) (wf_threads f).
Definition held (h : option nat) : list nat := match h with Some x => [x] | None => [] end.
(** All places; [out] are packets between two places. *)
Definition owners (out : list nat) (s : path) (x : nat) : nat :=
  occ out x + occ (free s) x + occ (others s) x + occ (held (holding s)) x + queued (flow s) x.
(** On the way from a plugin to the socket. *)
Definition travelling (s : path) (x : nat) : Prop := 0 < queued (flow s) x ∨ holding s = Some x.

Definition carries (p : Packet) (m e : Z) (d : list Z) : Prop :=
  Type_ p = m ∧ Encode p = e ∧ Size p = uint32 (Z.of_nat (length d)) ∧ contents (Payload p) = d.
Definition frame_of (m e : Z) (d : list Z) : list Z :=
  MagicNumber1 :: MagicNumber2 :: uint8 m :: uint8 e :: PutUint32 (uint32 (Z.of_nat (length d))) ++ d.

Definition author (s : path) (n : nat) : option nat := fst <$> published s !! n.
(** The numbers of the publications that left, are held or queued, oldest first. *)
Definition sequence (s : path) : list nat :=
  rev (frames s).*1 ++ (tag s <$> held (holding s) ++ buffer (output (flow s))).
Definition sequence_of (s : path) (t : nat) : list nat :=
  filter (λ n, author s n = Some t) (sequence s) ++ (tag s <$> hand (flow s) t).

Record path_inv (out : list nat) (s : path) : Prop := {
  pi_flow : wf_inv (flow s);
  pi_own : ∀ x, owners out s x = if decide (x ∈ dom (heap s)) then 1 else 0;
  pi_cont : ∀ x, travelling s x → ∃ t m e d p,
    published s !! tag s x = Some (t, (m, e, d)) ∧ heap s !! x = Some p ∧ carries p m e d;
  pi_frames : ∀ n b, (n, b) ∈ frames s → ∃ t m e d, published s !! n = Some (t, (m, e, d)) ∧ b = frame_of m e d;
  pi_author : ∀ t x, x ∈ hand (flow s) t → author s (tag s x) = Some t;
  pi_order : ∀ t, StronglySorted lt (sequence_of s t) }.

(** *** Counting *)
Lemma queued_written f x : wf_inv f → queued f x + occ (delivered f) x + occ (released f) x = occ (written f) x.
Proof. intros Hi. pose proof (wi_items _ Hi x). unfold queued. lia. Qed.

Lemma queued_hand f t x : x ∈ hand f t → 0 < queued f x.
Proof.
  unfold hand, queued. destruct (wf_threads f !! t) as [th|] eqn:Ht; cbn; [|by intros ?%not_elem_of_nil].
  intros Hx. apply list_elem_of_lookup_2 in Ht.
  pose proof (sum_list_with_elem (λ th, occ (in_hand th) x) _ _ Ht) as Hle. cbn in Hle.
  apply list_elem_of_In, (count_occ_In Nat.eq_dec) in Hx. lia.
Qed.

Lemma queued_buffer f x : x ∈ buffer (output f) → 0 < queued f x.
Proof. intros Hx. unfold queued. apply list_elem_of_In, (count_occ_In Nat.eq_dec) in Hx. lia. Qed.

Lemma occ_delete l i x id : l !! i = Some id → occ (delete i l) x + occ [id] x = occ l x.
Proof.
  intros Hi. rewrite <- (take_drop_middle l i id Hi) at 2. rewrite delete_take_drop, !count_occ_app.
  change (id :: drop (S i) l) with ([id] ++ drop (S i) l). rewrite count_occ_app. lia.
Qed.

Lemma travelling_alone out s x : path_inv out s → travelling s x → occ out x = 0 ∧ occ (free s) x = 0 ∧ occ (others s) x = 0.
Proof.
  intros Hi Ht. pose proof (pi_own _ _ Hi x) as Ho. unfold owners in Ho.
  assert (0 < queued (flow s) x + occ (held (holding s)) x) as Hpos.
  { destruct Ht as [Ht|Ht]; [lia|]. rewrite Ht. cbn. destruct (Nat.eq_dec x x); [lia|done]. }
  case_decide; lia.
Qed.

Lemma sequence_travels s n :
  n ∈ (tag s <$> held (holding s) ++ buffer (output (flow s))) → ∃ x, n = tag s x ∧ travelling s x.
Proof.
  intros (x & -> & Hx)%list_elem_of_fmap. exists x. split; [done|].
  apply elem_of_app in Hx as [Hx|Hx].
  - right. destruct (holding s) as [y|]; cbn in Hx; [|by apply not_elem_of_nil in Hx].
    apply list_elem_of_singleton in Hx. congruence.
  - left. by apply queued_buffer.
Qed.

Lemma sequence_published out s n : path_inv out s → n ∈ sequence s → n < length (published s).
Proof.
  intros Hi [Hn|Hn]%elem_of_app.
  - apply list_elem_of_In, in_rev, list_elem_of_In, list_elem_of_fmap in Hn as ([n' b] & -> & Hin).
    apply (pi_frames _ _ Hi) in Hin as (t & m & e & d & Hp & _). by eapply lookup_lt_Some.
  - apply sequence_travels in Hn as (x & -> & Hx). apply (pi_cont _ _ Hi) in Hx as (t & m & e & d & p & Hp & _).
    by eapply lookup_lt_Some.
Qed.

(** *** The pool *)
Lemma release_inv id out s : path_inv (id :: out) s → path_inv out (release id s).
Proof.
  intros Hi. split.
  - apply Hi.
  - intros x. pose proof (pi_own _ _ Hi x) as Ho. unfold owners in *. cbn in *.
    rewrite dom_alter_L. rewrite <- Ho. destruct (Nat.eq_dec id x); lia.
  - intros x Hx. destruct (pi_cont _ _ Hi x Hx) as (t & m & e & d & p & Hp & Hh & Hc).
    exists t, m, e, d, p. split; [done|]. split; [|done]. cbn. rewrite lookup_alter_ne; [done|].
    intros ->. apply (travelling_alone _ _ _ Hi) in Hx as [Hx _]. cbn in Hx. by destruct (Nat.eq_dec x x).
  - apply Hi.
  - apply Hi.
  - apply (pi_order _ _ Hi).
Qed.

Lemma acquire_inv pick out s id s' :
  path_inv out s → acquire pick s = (id, s') →
  path_inv (id :: out) s' ∧ id ∈ dom (heap s') ∧ flow s' = flow s ∧ published s' = published s.
Proof.
  intros Hi. unfold acquire. destruct (pick ≫= _) as [[i id']|] eqn:E.
  - destruct pick as [j|]; [|discriminate E]. cbn in E. destruct (free s !! j) as [y|] eqn:Hj; [|discriminate E].
    cbn in E. injection E as -> ->. intros [= <- <-]. cbn.
    assert (id' ∈ dom (heap s)) as Hd.
    { pose proof (pi_own _ _ Hi id') as Ho. unfold owners in Ho. case_decide; [done|].
      pose proof (occ_delete _ _ id' _ Hj) as Hdel. cbn in Hdel. destruct (Nat.eq_dec id' id'); [lia|done]. }
    split; [|done]. split; try apply Hi.
    intros x. pose proof (pi_own _ _ Hi x) as Ho. pose proof (occ_delete _ _ x _ Hj) as Hdel.
    unfold owners in *. cbn in *. rewrite <- Ho. destruct (Nat.eq_dec id' x); lia.
  - intros [= <- <-]. set (id0 := fresh (dom (heap s))). assert (id0 ∉ dom (heap s)) as Hf by apply is_fresh.
    cbn. split; [|split; [set_solver|done]]. pose proof (pi_own _ _ Hi id0) as Ho0. rewrite decide_False in Ho0 by done.
    assert (∀ x, travelling s x → x ≠ id0) as Hne.
    { intros x Hx ->. destruct (pi_cont _ _ Hi _ Hx) as (_ & _ & _ & _ & p & _ & Hh & _).
      apply Hf. by apply elem_of_dom_2 in Hh. }
    split; try apply Hi.
    + intros x. pose proof (pi_own _ _ Hi x) as Ho. unfold owners in *. cbn in *. rewrite dom_insert_L.
      destruct (Nat.eq_dec id0 x) as [<-|Hx]; [rewrite decide_True by set_solver; lia|].
      rewrite Ho. repeat case_decide; set_solver.
    + intros x Hx. destruct (pi_cont _ _ Hi x Hx) as (t & m & e & d & p & Hp & Hh & Hc).
      exists t, m, e, d, p. split; [done|]. split; [|done]. cbn. rewrite lookup_insert_ne; [done|].
      intros Heq. by apply (Hne x Hx).
Qed.

(** *** Sorted sequences *)
Lemma StronglySorted_sublist (l k : list nat) : StronglySorted lt k → sublist l k → StronglySorted lt l.
Proof.
  intros Hs Hl. revert Hs. induction Hl as [|x l k Hl IH|x l k Hl IH]; intros Hs; [done|..];
    apply StronglySorted_inv in Hs as [Hs Hall]; [|by apply IH].
  constructor; [by apply IH|]. rewrite Forall_forall in Hall |- *. intros y Hy. apply Hall.
  by eapply elem_of_sublist.
Qed.

Lemma StronglySorted_snoc (l : list nat) x :
  StronglySorted lt l → (∀ y, y ∈ l → y < x) → StronglySorted lt (l ++ [x]).
Proof.
  induction 1 as [|y l Hs IH Hall]; intros Hx; cbn; [by constructor; constructor|].
  constructor; [apply IH; intros z Hz; apply Hx; by right|].
  rewrite Forall_forall in Hall |- *. intros z [Hz|Hz]%elem_of_app; [by apply Hall|].
  apply list_elem_of_singleton in Hz as ->. apply Hx. left.
Qed.

Lemma sublist_filter {A} (P : A → Prop) `{!∀ x, Decision (P x)} (l k : list A) :
  sublist l k → sublist (filter P l) (filter P k).
Proof.
  induction 1 as [|x l k Hl IH|x l k Hl IH]; [done|..]; rewrite !filter_cons; case_decide; try done.
  - by apply sublist_skip.
  - by apply sublist_cons.
Qed.

Lemma filter_same {A} (P Q : A → Prop) `{!∀ x, Decision (P x)} `{!∀ x, Decision (Q x)} (l : list A) :
  (∀ x, x ∈ l → P x ↔ Q x) → filter P l = filter Q l.
Proof.
  induction l as [|x l IH]; intros Heq; [done|]. rewrite !filter_cons, IH by (intros y Hy; apply Heq; by right).
  pose proof (Heq x ltac:(left)) as Hx. repeat case_decide; tauto.
Qed.

(** *** Steps of the workflow *)
Lemma flow_effect_order s f' :
  (∀ t x, x ∈ hand (flow s) t → author s (tag s x) = Some t) → (∀ t, StronglySorted lt (sequence_of s t)) →
  flow_effect (flow s) f' → ∀ t, StronglySorted lt (sequence_of (set_flow f' s) t).
Proof.
  intros Hau Hord He t. specialize (Hord t). unfold sequence_of in *. cbn [flow tag set_flow].
  change (author (set_flow f' s)) with (author s). unfold sequence in *. cbn [flow tag frames holding set_flow].
  destruct He as [Hr Hb Hh|u p Hr Hb Hu Hu' Ho|u p Hr Hb Hu Hu' Ho|p Hr Hb Hh].
  - by rewrite Hb, Hh.
  - rewrite Hb, app_assoc, fmap_app, app_assoc, filter_app. cbn [fmap list_fmap].
    assert (author s (tag s p) = Some u) as Hp by (apply (Hau u); rewrite Hu; left).
    destruct (decide (t = u)) as [->|Hne].
    + rewrite Hu in Hord. rewrite Hu'. cbn [fmap list_fmap] in *. rewrite app_nil_r, filter_cons, decide_True by done.
      exact Hord.
    + rewrite filter_cons, decide_False by congruence. rewrite Ho by done. cbn. by rewrite app_nil_r.
  - rewrite Hb. eapply StronglySorted_sublist; [exact Hord|]. apply sublist_app; [done|].
    destruct (decide (t = u)) as [->|Hne]; [rewrite Hu'; apply sublist_nil_l|by rewrite Ho].
  - rewrite Hh. eapply StronglySorted_sublist; [exact Hord|]. apply sublist_app; [|done].
    apply sublist_filter, sublist_app; [done|]. rewrite !fmap_app. apply sublist_app; [done|].
    rewrite Hb. cbn. by apply sublist_cons.
Qed.

Lemma flow_effect_released f f' : flow_effect f f' →
  ∃ news, released f' = news ++ released f ∧ (∀ t, hand f' t ⊆ hand f t).
Proof.
  destruct 1 as [Hr Hb Hh|u p Hr Hb Hu Hu' Ho|u p Hr Hb Hu Hu' Ho|p Hr Hb Hh].
  - exists []. split; [done|]. intros t. by rewrite Hh.
  - exists []. split; [done|]. intros t. destruct (decide (t = u)) as [->|Hne]; [rewrite Hu'; set_solver|by rewrite Ho].
  - exists [p]. split; [done|]. intros t. destruct (decide (t = u)) as [->|Hne]; [rewrite Hu'; set_solver|by rewrite Ho].
  - exists [p]. split; [done|]. intros t. by rewrite Hh.
Qed.

Lemma foldr_release_inv news s : path_inv news s → path_inv [] (foldr release s news).
Proof.
  assert (∀ news out, path_inv (news ++ out) s → path_inv out (foldr release s news)) as H.
  { clear news. induction news as [|x news IH]; intros out Hi; [done|]. cbn. apply release_inv, IH.
    destruct Hi as [H1 H2 H3 H4 H5 H6]. split; try done. intros y. specialize (H2 y). unfold owners in *.
    rewrite count_occ_app in *. cbn in *. destruct (Nat.eq_dec x y); lia. }
  intros Hi. apply H. by rewrite app_nil_r.
Qed.

Lemma flow_step_inv lb s s' : internal lb = true → path_inv [] s → flow_step lb s = Some s' → path_inv [] s'.
Proof.
  intros Hin Hi. unfold flow_step. destruct (wf_step lb (flow s)) as [f'|] eqn:Hs; [|done]. cbn [mbind option_bind].
  intros [= <-]. pose proof (inv_wf_step _ _ _ (pi_flow _ _ Hi) Hs) as Hf'.
  destruct (wf_step_effect _ _ _ Hin Hs) as (He & Hw & Hd).
  destruct (flow_effect_released _ _ He) as (news & Hr & Hsub).
  apply foldr_release_inv. rewrite Hr, length_app.
  replace (length news + length (released (flow s)) - length (released (flow s))) with (length news) by lia.
  rewrite take_app_length.
  assert (∀ x, queued f' x + occ news x = queued (flow s) x) as Hq.
  { intros x. pose proof (queued_written _ x Hf') as H1. pose proof (queued_written _ x (pi_flow _ _ Hi)) as H2.
    rewrite Hw, Hd, Hr, count_occ_app in H1. lia. }
  split; [done|..].
  - intros x. pose proof (pi_own _ _ Hi x) as Ho. specialize (Hq x). unfold owners in *. cbn in *. rewrite <- Ho. lia.
  - intros x Hx. apply (pi_cont _ _ Hi). destruct Hx as [Hx|Hx]; [left|by right]. specialize (Hq x). cbn in Hx. lia.
  - apply Hi.
  - intros t x Hx. apply (pi_author _ _ Hi). by apply Hsub.
  - apply flow_effect_order; [apply Hi|apply Hi|done].
Qed.

(** *** Publishing *)
Lemma SetPayload_carries p m e d : carries (SetPayload (mkPacket m e (Size p) (Payload p) (header p)) d) m e d.
Proof.
  unfold carries. rewrite SetPayload_contents.
  by destruct (SetPayload_fields (mkPacket m e (Size p) (Payload p) (header p)) d) as (-> & -> & ->).
Qed.

Lemma WfWrite_effect t id f f' :
  wf_inv f → wf_step (WfWrite t id) f = Some f' →
  hand f t = [] ∧ hand f' t = [id] ∧ (∀ u, u ≠ t → hand f' u = hand f u) ∧ output f' = output f ∧
  (∀ x, queued f' x = occ [id] x + queued f x).
Proof.
  intros Hi Hs. pose proof (inv_wf_step _ _ _ Hi Hs) as Hi'. cbn in Hs.
  destruct (wf_threads f !! t) as [[]|] eqn:Ht; try discriminate Hs. injection Hs as <-.
  pose proof (lookup_lt_Some _ _ _ Ht) as Hlt. split; [by rewrite (hand_at _ _ _ Ht)|].
  split; [unfold hand; cbn; by rewrite hand_insert, decide_True|].
  split; [intros u Hu; unfold hand at 1; cbn; by rewrite hand_insert, decide_False|]. split; [done|].
  intros x. pose proof (queued_written _ x Hi) as H1. pose proof (queued_written _ x Hi') as H2.
  cbn [written delivered released w_thread w_write] in H2. cbn in H2 |- *. destruct (Nat.eq_dec id x); lia.
Qed.

(** The publication with the next number is carried by [id]. *)
Section publish.
Context (s : path) (id t : nat) (m e : Z) (d : list Z) (f : wf).
Context (Hi : path_inv [id] s) (Hd : id ∈ dom (heap s)) (Hs : wf_step (WfWrite t id) (flow s) = Some f).
Let fill p := SetPayload (mkPacket m e (Size p) (Payload p) (header p)) d.
Let s2 := set_flow f (publish_as id (t, (m, e, d)) (set_heap (alter fill id (heap s)) s)).

Lemma published_other x : travelling s x → x ≠ id.
Proof. intros Hx ->. apply (travelling_alone _ _ _ Hi) in Hx as [Hx _]. cbn in Hx. by destruct (Nat.eq_dec id id). Qed.

Lemma published_author n : n < length (published s) → author s2 n = author s n.
Proof. intros Hn. unfold author, s2. cbn. by rewrite lookup_app_l. Qed.

Lemma published_tag x : travelling s x → tag s2 x = tag s x.
Proof. intros Hx. unfold s2. cbn. by rewrite decide_False by by apply published_other. Qed.

Lemma published_sequence : sequence s2 = sequence s.
Proof.
  destruct (WfWrite_effect _ _ _ _ (pi_flow _ _ Hi) Hs) as (_ & _ & _ & Ho & _).
  unfold sequence. change (frames s2) with (frames s). change (holding s2) with (holding s).
  change (output (flow s2)) with (output f). rewrite Ho. f_equal. apply list_fmap_ext. intros i x Hx.
  apply published_tag. apply list_elem_of_lookup_2 in Hx. apply elem_of_app in Hx as [Hx|Hx].
  - right. destruct (holding s); cbn in Hx; [|by apply not_elem_of_nil in Hx].
    apply list_elem_of_singleton in Hx. congruence.
  - left. by apply queued_buffer.
Qed.

Lemma published_order u : StronglySorted lt (sequence_of s2 u).
Proof.
  destruct (WfWrite_effect _ _ _ _ (pi_flow _ _ Hi) Hs) as (Hh & Hh' & Hho & _ & _).
  pose proof (pi_order _ _ Hi u) as Hord. unfold sequence_of in *. rewrite published_sequence.
  assert (filter (λ n, author s2 n = Some u) (sequence s) = filter (λ n, author s n = Some u) (sequence s)) as ->.
  { apply filter_same. intros n Hn. rewrite published_author; [done|]. by eapply sequence_published. }
  change (hand (flow s2) u) with (hand f u). destruct (decide (u = t)) as [->|Hne].
  - rewrite Hh in Hord. rewrite Hh'. cbn [fmap list_fmap] in *. rewrite app_nil_r in Hord.
    replace (tag s2 id) with (length (published s)) by (unfold s2; cbn; by rewrite decide_True).
    apply StronglySorted_snoc; [done|]. intros n [_ Hn]%list_elem_of_filter. by eapply sequence_published.
  - rewrite Hho by done. erewrite list_fmap_ext; [exact Hord|]. intros i x Hx.
    apply published_tag. left. apply (queued_hand _ u). by apply list_elem_of_lookup_2 in Hx.
Qed.

Lemma publish_inv : path_inv [] s2.
Proof.
  destruct (WfWrite_effect _ _ _ _ (pi_flow _ _ Hi) Hs) as (Hh & Hh' & Hho & Ho & Hq).
  assert (∀ n y, published s !! n = Some y → published s2 !! n = Some y) as Hext
    by (intros n y Hn; unfold s2; cbn; by apply lookup_app_l_Some).
  split.
  - by eapply inv_wf_step; [apply Hi|].
  - intros x. pose proof (pi_own _ _ Hi x) as Hw. specialize (Hq x). unfold owners in *.
    unfold s2. cbn [free others holding flow heap set_flow publish_as set_heap] in *. rewrite dom_alter_L, <- Hw.
    cbn [count_occ] in *. rewrite Hq. lia.
  - intros x Hx. destruct (decide (x = id)) as [->|Hne].
    + apply elem_of_dom in Hd as [p Hp]. exists t, m, e, d, (fill p). split_and!; [| |apply SetPayload_carries].
      * unfold s2. cbn. rewrite decide_True by done. by rewrite lookup_app_r, Nat.sub_diag by lia.
      * unfold s2. cbn. by rewrite lookup_alter_eq, Hp.
    + assert (travelling s x) as Hx'.
      { destruct Hx as [Hx|Hx]; [left|by right]. unfold s2 in Hx. cbn in Hx. rewrite Hq in Hx. cbn in Hx.
        destruct (Nat.eq_dec id x); [congruence|done]. }
      destruct (pi_cont _ _ Hi x Hx') as (t' & m' & e' & d' & p & Hp & Hhp & Hc).
      exists t', m', e', d', p. rewrite published_tag by done. split; [by apply Hext|]. split; [|done].
      unfold s2. cbn. by rewrite lookup_alter_ne by done.
  - intros n b Hin. destruct (pi_frames _ _ Hi n b Hin) as (t' & m' & e' & d' & Hp & Hb).
    exists t', m', e', d'. split; [by apply Hext|done].
  - intros u x Hx. change (hand (flow s2) u) with (hand f u) in Hx. destruct (decide (u = t)) as [->|Hne].
    + rewrite Hh' in Hx. apply list_elem_of_singleton in Hx as ->. unfold author, s2. cbn.
      rewrite decide_True by done. by rewrite lookup_app_r, Nat.sub_diag by lia.
    + rewrite Hho in Hx by done. assert (travelling s x) as Hx' by (left; by eapply queued_hand).
      rewrite published_tag by done. pose proof (pi_author _ _ Hi u x Hx) as Ha. unfold author in *.
      apply fmap_Some in Ha as (y & Hy & ->). by rewrite (Hext _ _ Hy).
  - apply published_order.
Qed.
End publish.

Lemma PublishFull_inv t pick m e d s s' :
  path_inv [] s → PublishFull true t pick m e d s = Some s' → path_inv [] s'.
Proof.
  intros Hi. unfold PublishFull. cbn [negb]. destruct (acquire pick s) as [id s1] eqn:Ha.
  destruct (acquire_inv _ _ _ _ _ Hi Ha) as (Hi1 & Hd & _ & _).
  destruct (wf_step (WfWrite t id) (flow s1)) as [f|] eqn:Hs; [|done]. cbn [mbind option_bind].
  intros [= <-]. by apply publish_inv.
Qed.

(** *** The write loop *)
Lemma write_receive_inv s s' : path_inv [] s → write_receive s = Some s' → path_inv [] s'.
Proof.
  intros Hi. unfold write_receive. destruct (holding s) as [h|] eqn:Hh; [done|].
  destruct (recv_case (output (flow s))) as [[p c]|] eqn:E; [|done]. cbn [mbind option_bind].
  destruct (wf_step WfReceive (flow s)) as [f|] eqn:Hs; [|done]. cbn [mbind option_bind]. intros [= <-].
  pose proof (inv_wf_step _ _ _ (pi_flow _ _ Hi) Hs) as Hf. cbn in Hs. rewrite E in Hs. injection Hs as Hfe.
  apply recv_case_Some in E as (Hb & _ & _).
  assert (∀ x, occ [p] x + queued f x = queued (flow s) x) as Hq.
  { intros x. unfold queued. rewrite <- Hfe, Hb. cbn. destruct (Nat.eq_dec p x); lia. }
  split; [done|..].
  - intros x. pose proof (pi_own _ _ Hi x) as Ho. specialize (Hq x). unfold owners in *. rewrite Hh in Ho.
    cbn in *. rewrite <- Ho. destruct (Nat.eq_dec p x); lia.
  - intros x Hx. apply (pi_cont _ _ Hi). left. specialize (Hq x). destruct Hx as [Hx|Hx]; cbn in Hx; [lia|].
    injection Hx as <-. cbn in Hq. destruct (Nat.eq_dec p p); [lia|done].
  - apply Hi.
  - intros t x Hx. apply (pi_author _ _ Hi). rewrite <- Hfe in Hx. exact Hx.
  - intros t. pose proof (pi_order _ _ Hi t) as Hord. unfold sequence_of, sequence in *. rewrite Hh, Hb in Hord.
    rewrite <- Hfe. exact Hord.
Qed.

Lemma carries_frame p m e d :
  carries p m e d → (Header p).2 ++ contents (Payload (Header p).1) = frame_of m e d.
Proof. intros (Ht & He & Hs & Hc). unfold Header, frame_of. cbn. by rewrite Ht, He, Hs, Hc. Qed.

Lemma write_packet_inv ok s s' : path_inv [] s → write_packet ok s = Some s' → path_inv [] s'.
Proof.
  intros Hi. unfold write_packet. destruct (holding s) as [id|] eqn:Hh; [|done]. cbn [mbind option_bind].
  destruct (heap s !! id) as [p|] eqn:Hp; [|done]. cbn [mbind option_bind].
  pose proof (carries_frame p) as Hfr. destruct (Header p) as [p' h] eqn:Hhd. intros [= <-]. apply release_inv.
  destruct (pi_cont _ _ Hi id (or_intror Hh)) as (t & m & e & d & p0 & Hpub & Hp0 & Hc).
  rewrite Hp in Hp0. injection Hp0 as <-. specialize (Hfr _ _ _ Hc). cbn in Hfr.
  assert (∀ x, 0 < queued (flow s) x → x ≠ id) as Hne.
  { intros x Hx ->. pose proof (pi_own _ _ Hi id) as Ho. unfold owners in Ho. rewrite Hh in Ho. cbn in Ho.
    destruct (Nat.eq_dec id id); [|done]. case_decide; lia. }
  assert (∀ t, StronglySorted lt (filter (λ n, author s n = Some t)
    (rev (if ok then (tag s id, frame_of m e d) :: frames s else frames s).*1 ++ (tag s <$> buffer (output (flow s))))
    ++ (tag s <$> hand (flow s) t))) as Hord.
  { intros t'. pose proof (pi_order _ _ Hi t') as Hord. unfold sequence_of, sequence in Hord. rewrite Hh in Hord.
    eapply StronglySorted_sublist; [exact Hord|]. apply sublist_app; [|done]. apply sublist_filter.
    destruct ok; cbn; [by rewrite <- app_assoc|]. apply sublist_app; [done|]. by apply sublist_cons. }
  split; destruct ok; try apply Hi; try exact Hord.
  1-2: intros x; pose proof (pi_own _ _ Hi x) as Ho; unfold owners in *; rewrite Hh in Ho; cbn in *;
    rewrite dom_insert_lookup_L by done; rewrite <- Ho; destruct (Nat.eq_dec id x); lia.
  1-2: intros x [Hx|Hx]; [|discriminate Hx]; cbn in Hx;
    destruct (pi_cont _ _ Hi x (or_introl Hx)) as (t' & m' & e' & d' & q & H1 & H2 & H3);
    exists t', m', e', d', q; (split; [done|]); (split; [|done]); cbn; rewrite lookup_insert_ne; [done|];
    intros Heq; by apply (Hne x Hx).
  - intros n b [Heq|Hin]%elem_of_cons; [|by apply (pi_frames _ _ Hi)]. cbn in Heq. rewrite Hfr in Heq.
    injection Heq as -> ->. by exists t, m, e, d.
Qed.

(** *** Other sessions *)
Lemma other_owned i id s : path_inv [] s → others s !! i = Some id →
  (∀ x, travelling s x → x ≠ id) ∧ id ∈ dom (heap s).
Proof.
  intros Hi Ho. assert (0 < occ (others s) id) as Hpos.
  { apply (count_occ_In Nat.eq_dec), list_elem_of_In. by apply list_elem_of_lookup_2 in Ho. }
  split.
  - intros x Hx ->. apply (travelling_alone _ _ _ Hi) in Hx as (_ & _ & Hx). lia.
  - pose proof (pi_own _ _ Hi id) as Hw. unfold owners in Hw. case_decide; [done|lia].
Qed.

Lemma path_step_inv lb s s' : path_inv [] s → path_step lb s = Some s' → path_inv [] s'.
Proof.
  intros Hi. destruct lb as [t pick m e d|lb| |ok|pick|i p|i]; cbn [path_step].
  - by apply PublishFull_inv.
  - destruct (internal lb) eqn:E; [|done]. by apply flow_step_inv.
  - by apply write_receive_inv.
  - by apply write_packet_inv.
  - destruct (acquire pick s) as [id s1] eqn:Ha. intros [= <-].
    destruct (acquire_inv _ _ _ _ _ Hi Ha) as (Hi1 & _). split; try apply Hi1.
    intros x. pose proof (pi_own _ _ Hi1 x) as Ho. unfold owners in *. cbn in *. rewrite <- Ho.
    destruct (Nat.eq_dec id x); lia.
  - destruct (others s !! i) as [id|] eqn:Ho; [|done]. cbn [mbind option_bind]. intros [= <-].
    destruct (other_owned _ _ _ Hi Ho) as [Hne Hd]. split; try apply Hi.
    + intros x. etrans; [exact (pi_own _ _ Hi x)|]. cbn [heap set_heap]. rewrite dom_insert_L.
      repeat case_decide; set_solver.
    + intros x Hx. destruct (pi_cont _ _ Hi x Hx) as (t & m & e & d & q & H1 & H2 & H3).
      exists t, m, e, d, q. split; [done|]. split; [|done]. cbn. rewrite lookup_insert_ne; [done|].
      intros Heq. by apply (Hne x Hx).
  - destruct (others s !! i) as [id|] eqn:Ho; [|done]. cbn [mbind option_bind]. intros [= <-].
    apply release_inv. split; try apply Hi. intros x. pose proof (pi_own _ _ Hi x) as Hw.
    pose proof (occ_delete _ _ x _ Ho) as Hdel. unfold owners in *. cbn in *. rewrite <- Hw.
    destruct (Nat.eq_dec id x); lia.
Qed.

Lemma path_init_inv n threads : path_inv [] (path_init n threads).
Proof.
  assert (∀ t, hand (wf_init n threads) t = []) as Hh.
  { intros t. unfold hand. cbn. destruct (replicate threads WIdle !! t) as [th|] eqn:E; [|done].
    by apply lookup_replicate in E as [-> _]. }
  assert (∀ x, queued (wf_init n threads) x = 0) as Hq.
  { intros x. pose proof (queued_written _ x (inv_wf_init n threads)) as H.
    change (occ (written (wf_init n threads)) x) with 0 in H. lia. }
  split.
  - apply inv_wf_init.
  - intros x. unfold owners. change (flow (path_init n threads)) with (wf_init n threads). rewrite Hq.
    rewrite decide_False by (cbn; rewrite dom_empty_L; set_solver). done.
  - intros x [Hx|Hx]; [|discriminate Hx]. change (flow (path_init n threads)) with (wf_init n threads) in Hx.
    rewrite Hq in Hx. lia.
  - intros m b Hin. by apply not_elem_of_nil in Hin.
  - intros t x Hx. cbn in Hx. rewrite Hh in Hx. by apply not_elem_of_nil in Hx.
  - intros t. unfold sequence_of. cbn. rewrite Hh. constructor.
Qed.

(** The publications of a run, in order. *)
Definition publication (lb : path_label) : option (nat * (Z * Z * list Z)) :=
  match lb with PPublish t _ m e d => Some (t, (m, e, d)) | _ => None end.

Lemma release_published news s : published (foldr release s news) = published s.
Proof. induction news as [|x news IH]; [done|]. exact IH. Qed.

Lemma acquire_published pick s : published (acquire pick s).2 = published s.
Proof. unfold acquire. by destruct (pick ≫= _) as [[??]|]. Qed.

Lemma path_step_published lb s s' :
  path_step lb s = Some s' → published s' = published s ++ option_list (publication lb).
Proof.
  destruct lb as [t pick m e d|lb| |ok|pick|i p|i]; cbn [path_step publication option_list from_option]; rewrite ?app_nil_r.
  - unfold PublishFull. cbn [negb]. pose proof (acquire_published pick s) as Ha.
    destruct (acquire pick s) as [id s1]. destruct (wf_step _ _); [|done]. cbn in *. intros [= <-]. cbn. by rewrite Ha.
  - destruct (internal lb); [|done]. unfold flow_step. destruct (wf_step _ _); [|done]. cbn [mbind option_bind].
    intros [= <-]. by rewrite release_published.
  - unfold write_receive. destruct (holding s); [done|]. destruct (recv_case _) as [[? ?]|]; [|done]. cbn [mbind option_bind].
    destruct (wf_step _ _); [|done]. by intros [= <-].
  - unfold write_packet. destruct (holding s) as [id|]; [|done]. cbn [mbind option_bind].
    destruct (heap s !! id); [|done]. cbn. intros [= <-]. by destruct ok.
  - pose proof (acquire_published pick s) as Ha. destruct (acquire pick s) as [id s1]. intros [= <-]. exact Ha.
  - destruct (others s !! i); [|done]. by intros [= <-].
  - destruct (others s !! i); [|done]. by intros [= <-].
Qed.

Lemma path_run_ok n threads ls s :
  path_run ls (path_init n threads) = Some s → path_inv [] s ∧ published s = omap publication ls.
Proof.
  assert (∀ ls s s', path_inv [] s → path_run ls s = Some s' →
    path_inv [] s' ∧ published s' = published s ++ omap publication ls) as H.
  { clear. induction ls as [|lb ls IH]; intros s s' Hi; cbn [path_run].
    - intros [= <-]. split; [done|]. by rewrite app_nil_r.
    - destruct (path_step lb s) as [s1|] eqn:E; [|done]. cbn [mbind option_bind]. intros Hr.
      destruct (IH s1 s') as [H1 H2]; [by eapply path_step_inv|done|]. split; [done|].
      rewrite H2, (path_step_published _ _ _ E), <- app_assoc. f_equal. cbn. by destruct (publication lb). }
  intros Hr. apply (H _ _ _ (path_init_inv n threads) Hr).
Qed.

Lemma frame_received m e d receiver :
  byte_ok m → byte_ok e → (Z.of_nat (length d) < 2 ^ 32)%Z →
  ∃ q, Unmarshal receiver (frame_of m e d) = (q, None) ∧ Type_ q = m ∧ Encode q = e ∧ contents (Payload q) = d.
Proof.
  intros Hm He Hd. assert (frame_of m e d = wire m e d) as ->.
  { unfold frame_of, wire. by rewrite !uint8_byte, PutUint32_uint32 by done. }
  rewrite Unmarshal_wire, decide_True by done. cbv zeta. eexists. split; [reflexivity|].
  rewrite SetPayload_contents.
  by destruct (SetPayload_fields (mkPacket m e (uint32 (Z.of_nat (length d))) (Payload receiver) (header receiver)) d)
    as (-> & -> & _).
Qed.

Lemma sorted_NoDup (l : list nat) : StronglySorted lt l → NoDup l.
Proof.
  induction 1 as [|x l Hs IH Hall]; constructor; [|done]. intros Hin. rewrite Forall_forall in Hall.
  specialize (Hall x Hin). lia.
Qed.

Lemma filter_NoDup_all (s : path) (l : list nat) :
  (∀ n, n ∈ l → is_Some (author s n)) → (∀ t, NoDup (filter (λ n, author s n = Some t) l)) → NoDup l.
Proof.
  induction l as [|n l IH]; intros Hsome Hall; constructor.
  - intros Hin. destruct (Hsome n ltac:(left)) as [t Ht]. specialize (Hall t). rewrite filter_cons, decide_True in Hall by done.
    apply NoDup_cons in Hall as [Hni _]. apply Hni, list_elem_of_filter. done.
  - apply IH; [intros m Hm; apply Hsome; by right|]. intros t. specialize (Hall t). rewrite filter_cons in Hall.
    case_decide; [by apply NoDup_cons in Hall as [_ ?]|done].
Qed.

(** C19: From the plugin to the client.  In every interleaving of publishing
    plugins, the workflow (its pauses, its end and its drops included), the
    write loop and all other sessions that share the packet pool, what the
    client receives is what was published: every frame on the socket decodes to
    the type, encoding and data of one publication, no publication arrives
    twice, and those of one plugin thread arrive in the order in which it made
    them. *)
Theorem published_data_arrives n threads ls s :
  path_run ls (path_init n threads) = Some s →
  published s = omap publication ls ∧
  NoDup (frames s).*1 ∧
  (∀ k b, (k, b) ∈ frames s → ∃ t m e d, published s !! k = Some (t, (m, e, d)) ∧
    (byte_ok m → byte_ok e → (Z.of_nat (length d) < 2 ^ 32)%Z → ∀ receiver, ∃ q,
       Unmarshal receiver b = (q, None) ∧ Type_ q = m ∧ Encode q = e ∧ contents (Payload q) = d)) ∧
  (∀ t, StronglySorted lt (filter (λ k, author s k = Some t) (rev (frames s).*1))).
Proof.
  intros Hr. destruct (path_run_ok _ _ _ _ Hr) as [Hi Hp]. split; [done|].
  assert (∀ t, StronglySorted lt (filter (λ k, author s k = Some t) (rev (frames s).*1))) as Hord.
  { intros t. eapply StronglySorted_sublist; [apply (pi_order _ _ Hi t)|]. unfold sequence_of, sequence.
    rewrite filter_app, <- app_assoc. apply sublist_inserts_r. done. }
  split_and!; [|..|exact Hord].
  - apply NoDup_ListNoDup. rewrite <- (rev_involutive (frames s).*1). apply List.NoDup_rev, NoDup_ListNoDup, (filter_NoDup_all s).
    + intros k Hk%list_elem_of_In%in_rev%list_elem_of_In. apply list_elem_of_fmap in Hk as ([k' b] & -> & Hin).
      apply (pi_frames _ _ Hi) in Hin as (t & m & e & d & Hk & _). unfold author. cbn. by rewrite Hk.
    + intros t. apply sorted_NoDup, Hord.
  - intros k b Hin. destruct (pi_frames _ _ Hi k b Hin) as (t & m & e & d & Hk & ->).
    exists t, m, e, d. split; [done|]. intros Hm He Hd receiver. by apply frame_received.
Qed.

(** Two threads publish, the packet of the first is used again by the second
    after the client got it. *)
Definition demo_path : list path_label :=
  [PPublish 0 None TypeText EncodeJSON [1; 2; 3]%Z; PFlow (WfNext 0 0); PFlow (WfNext 0 0); PReceive; PWritev true;
   PPublish 1 (Some 0) TypeAudio EncodeRaw [9]%Z; PFlow (WfNext 1 0); PFlow (WfNext 1 0); PReceive; PWritev true].

Lemma published_data_arrives_witness :
  ∃ s, path_run demo_path (path_init 1 2) = Some s ∧ length (frames s) = 2 ∧
    published s = omap publication demo_path ∧ NoDup (frames s).*1.
Proof.
  destruct (path_run demo_path (path_init 1 2)) as [s|] eqn:Hr.
  - exists s. split; [reflexivity|]. destruct (published_data_arrives 1 2 demo_path s Hr) as (H1 & H2 & _).
    split; [|split; [exact H1|exact H2]].
    assert (length ∘ frames <$> path_run demo_path (path_init 1 2) = Some 2) as H by (vm_compute; reflexivity).
    rewrite Hr in H. injection H as H. exact H.
  - exfalso. assert (is_Some (length ∘ frames <$> path_run demo_path (path_init 1 2))) as [x H].
    { vm_compute. eexists. reflexivity. }
    rewrite Hr in H. discriminate H.
Defined.
