(* ===== verification/RemoteConns.v ===== *)
(** * Connections of remote plugin servers

    internal/remote/client.go and manager.go once more, with the gRPC
    connections the clients own: [Dial] opens one and closes it again when the
    first ping fails, [Manager.Shutdown] closes those of the clients it knows.
    Also the requests of a client that only pass an answer on. *)

From S2P Require Import Prelude.
From S2P Require Import Registry.
From S2P Require Import RemotePlugin.
From S2P Require Import RemoteManager.

(** ** Requests *)
Inductive request_error := ErrList (url : string) | ErrDestroy (instance url : string).

(** [ListPlugins]: the server is asked for the configured namespace, which may
    be empty. *)
Definition ListPlugins (server : string → option (list pbMetadata)) (c : Client) :
    result request_error (list pbMetadata) :=
  match server (CNamespace (cfg c)) with
  | None => Err (ErrList (URL (cfg c)))
  | Some l => Ok l
  end.

(** [DestroyInstance]: the server is told the id and the reason. *)
Definition DestroyInstance (server : string → string → bool) (c : Client) (instanceID reason : string) :
    result request_error unit :=
  if server instanceID reason then Ok tt else Err (ErrDestroy instanceID (URL (cfg c))).

Definition Instance_ (c : Client) (instanceID : string) : option PluginState := instances c !! instanceID.
Definition Instances (o : iter_order string PluginState) (c : Client) : list PluginState :=
  (range_map o (instances c)).*2.

(** ** Connections *)
Section conns.
Context {P : Type} (decodes : string → bool) (make : pbMetadata → string → result string P).

(** The manager with the connection of every client it has, and all
    connections that are open. *)
Record connected := mkConnected {
  man : Manager (P := P); conn_of : gmap string nat; opened : gset nat }.

(** What the environment answers while a server is added: whether
    [grpc.NewClient] accepts the URL, the ping and the list of plugins; [conn]
    is the identity of the connection. *)
Record answers := mkAnswers { accepts : bool; conn : nat; ping_answer : option string; listing : option (list pbMetadata) }.

Definition AddRemote_conn (c : PluginServerConfig) (a : answers) (k : connected) : connected :=
  if negb (Enable c) || bool_decide (URL c = "") then k
  else if negb (accepts a) then k
  else
    match AddRemote decodes make c (ping_answer a) (listing a) (man k) with
    | (m, Ok _) => mkConnected m (<[Namespace_of c := conn a]> (conn_of k)) ({[conn a]} ∪ opened k)
    | (m, Err _) => mkConnected m (conn_of k) (opened k)  (* [Dial] closed it *)
    end.

Definition AddRemotes_conn (cs : list (PluginServerConfig * answers)) (k : connected) : connected :=
  foldl (λ k ca, AddRemote_conn ca.1 ca.2 k) k cs.

(** [Shutdown]: every client the manager has is closed. *)
Definition Shutdown_conn (o : iter_order string Client) (k : connected) : connected :=
  mkConnected (Shutdown o (man k)) ∅
    (opened k ∖ list_to_set (map_to_list (conn_of k)).*2).

(** The servers that are added. *)
Definition added (ca : PluginServerConfig * answers) : bool :=
  Enable ca.1 && bool_decide (URL ca.1 ≠ "") && accepts ca.2 && bool_decide (is_Some (ping_answer ca.2)).

Lemma AddRemote_conn_spec c a k :
  conn_of (AddRemote_conn c a k) = (if added (c, a) then <[Namespace_of c := conn a]> (conn_of k) else conn_of k) ∧
  opened (AddRemote_conn c a k) = (if added (c, a) then {[conn a]} ∪ opened k else opened k).
Proof.
  unfold AddRemote_conn, added, AddRemote, Dial. cbn [fst snd].
  destruct (Enable c), (bool_decide (URL c = "")) eqn:E; cbn [negb orb andb]; try done.
  - apply bool_decide_eq_true in E. by rewrite bool_decide_eq_false_2 by (intros H; by apply H).
  - apply bool_decide_eq_false in E. rewrite bool_decide_eq_true_2 by done.
    destruct (accepts a), (ping_answer a) as [sid|]; cbn; done.
Qed.

Lemma AddRemotes_conn_covered cs k :
  NoDup (Namespace_of ∘ fst <$> filter (λ ca, added ca = true) cs) →
  (∀ ca, ca ∈ cs → added ca = true → conn_of k !! Namespace_of ca.1 = None) →
  opened k ⊆ list_to_set (map_to_list (conn_of k)).*2 →
  let k' := AddRemotes_conn cs k in opened k' ⊆ list_to_set (map_to_list (conn_of k')).*2.
Proof.
  revert k. induction cs as [|[c a] cs IH]; intros k Hnd Hfresh Hcov; [done|].
  cbn. destruct (AddRemote_conn_spec c a k) as [Hc Ho]. apply IH.
  - rewrite filter_cons in Hnd. case_decide; [|done]. cbn in Hnd. by apply NoDup_cons in Hnd as [_ ?].
  - intros ca Hin Had. rewrite Hc. destruct (added (c, a)) eqn:E; [|apply Hfresh; [by right|done]].
    rewrite lookup_insert_ne; [apply Hfresh; [by right|done]|]. intros Heq.
    rewrite filter_cons, decide_True in Hnd by done. cbn in Hnd. apply NoDup_cons in Hnd as [Hni _]. apply Hni.
    apply list_elem_of_fmap. exists ca. split; [done|]. by apply list_elem_of_filter.
  - rewrite Hc, Ho. destruct (added (c, a)) eqn:E; [|done].
    pose proof (Hfresh (c, a) ltac:(left) E) as Hn. cbn in Hn.
    rewrite (map_to_list_insert _ _ _ Hn). cbn. set_solver.
Qed.

(** Every connection is closed.  When the servers that answer have different
    namespaces, a shutdown leaves no connection open, however many others
    were disabled, refused or did not answer. *)
Theorem shutdown_closes_connections o cs :
  NoDup (Namespace_of ∘ fst <$> filter (λ ca, added ca = true) cs) →
  opened (Shutdown_conn o (AddRemotes_conn cs (mkConnected (mkManager ∅ empty_registry) ∅ ∅))) = ∅.
Proof.
  intros Hnd. cbn. pose proof (AddRemotes_conn_covered cs (mkConnected (mkManager ∅ empty_registry) ∅ ∅) Hnd) as H.
  cbn in H. specialize (H ltac:(intros; apply lookup_empty) ltac:(set_solver)). set_solver.
Qed.

(** ** Deviation *)

(** Two servers under one namespace: the second replaces the client of the
    first, whose connection is then never closed, and its own plugins are
    refused because those of the first are still registered. *)
Theorem second_server_replaces_first o c c' a a' k l :
  added (c', a') = true → Namespace_of c' = Namespace_of c →
  conn_of k !! Namespace_of c = Some (conn a) → conn a ∈ opened k → conn a' ≠ conn a →
  (∀ ns, ns ≠ Namespace_of c → conn_of k !! ns ≠ Some (conn a)) →
  resources (store (reg (man k))) !! Namespace_of c = Some l →
  let k' := AddRemote_conn c' a' k in
  store (reg (man k')) = store (reg (man k)) ∧ conn a ∈ opened (Shutdown_conn o k').
Proof.
  intros Had Hns Hk Hop Hne Hother Hl k'. destruct (AddRemote_conn_spec c' a' k) as [Hc Ho]. split.
  - unfold k', AddRemote_conn, AddRemote, Dial. unfold added in Had. cbn [fst snd] in Had.
    apply andb_prop in Had as [[[He Hu]%andb_prop Hac]%andb_prop Hp%bool_decide_eq_true].
    apply bool_decide_eq_true in Hu. rewrite He, Hac, bool_decide_eq_false_2 by done. cbn [negb orb].
    destruct Hp as [sid Hp]. rewrite Hp. cbn. unfold Namespace. cbn. rewrite Hns. by eapply handleReload_present.
  - cbn. fold k' in Hc, Ho. rewrite Hc, Ho, Had. apply elem_of_difference. split; [set_solver|].
    intros ([ns x] & Hx & Hin)%elem_of_list_to_set%list_elem_of_fmap. cbn in Hx. subst x.
    apply elem_of_map_to_list in Hin. rewrite Hns in Hin. destruct (decide (ns = Namespace_of c)) as [->|Hd].
    + rewrite lookup_insert_eq in Hin. congruence.
    + rewrite lookup_insert_ne in Hin by done. by eapply Hother.
Qed.
End conns.
