(* ===== verification/PauseResume.v ===== *)
(** * Pausing and resuming a workflow

    [Workflow.Pause] and [Resume] (internal/engine/workflow.go) swap the state
    and then tell every node; a node that runs queues the control
    (node_loop.go) or submits it to its worker (node_scheduler.go,
    scheduler.go); the loop that takes it calls [OnPause] or [OnResume] of the
    plugin ([processControl], node.go).  The model interleaves any number of
    callers with the loops.  Every queue is listed once: a loop node has its
    own, the nodes of a worker share one. *)

From S2P Require Import Prelude.
From S2P Require Import Chan.
From S2P Require Import EngineTypes.

(** ** State *)
Record cnode := mkCNode { running : bool; queue : nat }.

(** A caller: idle, or in the loop of [Pause] or [Resume] before node [i]. *)
Inductive caller := CIdle | CLoop (c : controlType) (i : nat).

Record cflow := mkFlow {
  state : WorkflowState;
  cancelled : bool;
  queues : list (chan (nat * controlType));
  nodes : list cnode;
  callers : list caller;
  called : list controlType;             (** ghost: the calls that won their swap, latest first *)
  handled : list (nat * controlType)     (** hooks the plugins saw, latest first *)
}.

Definition set_state st s := mkFlow st (cancelled s) (queues s) (nodes s) (callers s) (called s) (handled s).
Definition set_cancelled s := mkFlow (state s) true (queues s) (nodes s) (callers s) (called s) (handled s).
Definition set_queue q ch s :=
  mkFlow (state s) (cancelled s) (<[q := ch]> (queues s)) (nodes s) (callers s) (called s) (handled s).
Definition set_caller t th s :=
  mkFlow (state s) (cancelled s) (queues s) (nodes s) (<[t := th]> (callers s)) (called s) (handled s).
Definition add_called c s := mkFlow (state s) (cancelled s) (queues s) (nodes s) (callers s) (c :: called s) (handled s).
Definition add_handled x s := mkFlow (state s) (cancelled s) (queues s) (nodes s) (callers s) (called s) (x :: handled s).

(** ** Operations *)

(** The swap of [Pause] and [Resume]: from which state to which. *)
Definition swap_of (c : controlType) : option (WorkflowState * WorkflowState) :=
  match c with
  | controlPause => Some (WorkflowStateRunning, WorkflowStatePaused)
  | controlResume => Some (WorkflowStatePaused, WorkflowStateRunning)
  | controlStop => None
  end.

Definition call (c : controlType) (t : nat) (s : cflow) : option cflow :=
  match callers s !! t, swap_of c with
  | Some CIdle, Some (from, to) =>
      if decide (state s = from)
      then Some (set_caller t (CLoop c 0) (add_called c (set_state to s)))
      else Some s  (* the error *)
  | _, _ => None
  end.
Definition Pause (t : nat) (s : cflow) : option cflow := call controlPause t s.
Definition Resume (t : nat) (s : cflow) : option cflow := call controlResume t s.

(** [Pause] and [Resume] of a node, [SubmitControl] and
    [SubmitControlToWorker]: nothing when the node does not run, otherwise a
    send that waits for room or the end of the context; [k] picks among the
    ready cases.  The error of a cancelled context is logged or ignored. *)
Definition node_control (k : nat) (c : controlType) (i : nat) (n : cnode) (s : cflow) : option cflow :=
  if negb (running n) then Some s
  else
    ch ← queues s !! queue n;
    o ← SendWithContext (cancelled s) (cancelled s) ch (i, c) !! k;
    match o with
    | Sent ch => Some (set_queue (queue n) ch s)
    | CtxErr => Some s
    | ErrSendBlocked | Panicked => None
    end.

(** One round of the caller's loop over the nodes. *)
Definition caller_next (t k : nat) (s : cflow) : option cflow :=
  match callers s !! t with
  | Some (CLoop c i) =>
      match nodes s !! i with
      | Some n => s ← node_control k c i n s; Some (set_caller t (CLoop c (S i)) s)
      | None => Some (set_caller t CIdle s)
      end
  | _ => None
  end.

(** [processControl]: pause and resume reach the plugin. *)
Definition processControl (i : nat) (c : controlType) (s : cflow) : cflow :=
  match c with
  | controlPause | controlResume => add_handled (i, c) s
  | controlStop => s
  end.

(** A loop takes the next control of its queue. *)
Definition take_control (q : nat) (s : cflow) : option cflow :=
  ch ← queues s !! q;
  '((i, c), ch) ← recv_case ch;
  Some (processControl i c (set_queue q ch s)).

Inductive clabel := CPause (t : nat) | CResume (t : nat) | CNext (t k : nat) | CTake (q : nat) | CCancel.
Definition cstep (lb : clabel) (s : cflow) : option cflow :=
  match lb with
  | CPause t => Pause t s
  | CResume t => Resume t s
  | CNext t k => caller_next t k s
  | CTake q => take_control q s
  | CCancel => Some (set_cancelled s)
  end.
Fixpoint crun (ls : list clabel) (s : cflow) : option cflow :=
  match ls with [] => Some s | lb :: ls => s ← cstep lb s; crun ls s end.

Definition cinit (caps : list nat) (ns : list cnode) (callers : nat) : cflow :=
  mkFlow WorkflowStateRunning false (make_chan <$> caps) ns (replicate callers CIdle) [] [].

(** ** Counting *)
Definition occ {A} `{!EqDecision A} (x : A) (l : list A) : nat := length (filter (λ y, y = x) l).
Arguments occ : simpl never.

Lemma count_cons {A} `{!EqDecision A} (x y : A) l : occ x (y :: l) = (if decide (y = x) then 1 else 0) + occ x l.
Proof. unfold occ. rewrite filter_cons. by case_decide. Qed.
Lemma count_app {A} `{!EqDecision A} (x : A) l k : occ x (l ++ k) = occ x l + occ x k.
Proof. unfold occ. by rewrite filter_app, length_app. Qed.

(** Control [c] is still due at node [i]. *)
Definition due (c : controlType) (i : nat) (th : caller) : nat :=
  match th with CLoop c' j => if decide (c' = c ∧ j ≤ i) then 1 else 0 | CIdle => 0 end.
Definition in_queues (x : nat * controlType) (s : cflow) : nat := sum_list_with (λ ch, occ x (buffer ch)) (queues s).
Definition seen (c : controlType) (i : nat) (s : cflow) : nat :=
  occ (i, c) (handled s) + in_queues (i, c) s + sum_list_with (due c i) (callers s).

Lemma sum_insert {A} (f : A → nat) l i x y :
  l !! i = Some x → sum_list_with f (<[i := y]> l) + f x = sum_list_with f l + f y.
Proof.
  revert i. induction l as [|z l IH]; intros [|i] Hi; simplify_eq/=; [lia|]. specialize (IH i Hi). lia.
Qed.

Record cinv (s : cflow) : Prop := {
  ci_open : ∀ q ch, queues s !! q = Some ch → closed ch = false;
  ci_seen : cancelled s = false → ∀ i n c, nodes s !! i = Some n → running n = true → c ≠ controlStop →
    seen c i s = occ c (called s);
  ci_calls : state s = WorkflowStateRunning ∧ occ controlPause (called s) = occ controlResume (called s) ∨
    state s = WorkflowStatePaused ∧ occ controlPause (called s) = S (occ controlResume (called s));
  ci_stop : ∀ x q ch, queues s !! q = Some ch → x ∈ buffer ch → x.2 ≠ controlStop;
  ci_loop : ∀ t c i, callers s !! t = Some (CLoop c i) → c ≠ controlStop }.

Lemma call_inv c t s s' : cinv s → call c t s = Some s' → cinv s'.
Proof.
  intros [Ho Hs Hc Hst Hl]. unfold call. destruct (callers s !! t) as [[|]|] eqn:Ht; try done.
  destruct (swap_of c) as [[from to]|] eqn:Hsw; [|done].
  assert (c ≠ controlStop) as Hns by (intros ->; done).
  case_decide as Hf; [|intros [= <-]; by split]. intros [= <-]. split; try done.
  - intros Hcan i n c' Hn Hr Hc'. specialize (Hs Hcan i n c' Hn Hr Hc'). unfold seen in *. cbn.
    rewrite count_cons. pose proof (sum_insert (due c' i) _ t CIdle (CLoop c 0) Ht) as Hsum. cbn in Hsum.
    assert ((if decide (c = c' ∧ 0 ≤ i) then 1 else 0) = if decide (c = c') then 1 else 0) as Hd
      by (repeat case_decide; try done; exfalso; intuition lia).
    rewrite Hd in Hsum. unfold in_queues in *. cbn. lia.
  - cbn. rewrite !count_cons. destruct c; cbn in Hsw; simplify_eq; destruct Hc as [[? ?]|[? ?]]; try congruence;
      [right|left]; (split; [done|]); repeat case_decide; done || lia.
  - intros u c' i. cbn. destruct (decide (u = t)) as [->|Hne].
    + rewrite list_lookup_insert_eq by by eapply lookup_lt_Some. by intros [= -> _].
    + rewrite list_lookup_insert_ne by done. apply Hl.
Qed.

Lemma due_step c j i c' :
  due c' i (CLoop c (S j)) + (if decide (c = c' ∧ j = i) then 1 else 0) = due c' i (CLoop c j).
Proof. cbn. repeat case_decide; try lia; exfalso; intuition lia. Qed.

Lemma in_queues_insert x s q ch ch' :
  queues s !! q = Some ch → in_queues x (set_queue q ch' s) + occ x (buffer ch) = in_queues x s + occ x (buffer ch').
Proof. intros Hq. apply (sum_insert (λ ch, occ x (buffer ch)) _ _ _ _ Hq). Qed.

Lemma caller_next_inv t k s s' : cinv s → caller_next t k s = Some s' → cinv s'.
Proof.
  intros [Ho Hs Hc Hst Hl]. unfold caller_next. destruct (callers s !! t) as [[|c j]|] eqn:Ht; try done.
  pose proof (Hl _ _ _ Ht) as Hns. pose proof (lookup_lt_Some _ _ _ Ht) as Hlt.
  assert (∀ th, (∀ c' i', th = CLoop c' i' → c' ≠ controlStop) →
    ∀ u c' i, <[t := th]> (callers s) !! u = Some (CLoop c' i) → c' ≠ controlStop) as Hl'.
  { intros th Hth u c' i. destruct (decide (u = t)) as [->|Hne].
    - rewrite list_lookup_insert_eq by done. intros [= ->]. by eapply Hth.
    - rewrite list_lookup_insert_ne by done. apply Hl. }
  destruct (nodes s !! j) as [n|] eqn:Hn.
  2: { intros [= <-]. split; try done; [|by apply Hl'].
    intros Hcan i n c' Hi Hr Hc'. etrans; [|exact (Hs Hcan _ _ _ Hi Hr Hc')]. unfold seen, in_queues.
    pose proof (sum_insert (due c' i) _ t _ CIdle Ht) as Hsum. cbn [due] in Hsum.
    apply lookup_ge_None in Hn. apply lookup_lt_Some in Hi. cbn [nodes set_caller] in Hi. rewrite decide_False in Hsum by (intros [_ ?]; lia).
    cbn [set_caller callers queues handled]. lia. }
  unfold node_control. destruct (running n) eqn:Hrn; cbn [negb].
  2: { cbn [mbind option_bind]. intros [= <-]. split; try done; [|apply Hl'; by intros ?? [= <- _]].
    intros Hcan i n' c' Hi Hr Hc'. etrans; [|exact (Hs Hcan _ _ _ Hi Hr Hc')]. unfold seen, in_queues. cbn [set_caller callers queues handled].
    pose proof (sum_insert (due c' i) _ t _ (CLoop c (S j)) Ht) as Hsum. pose proof (due_step c j i c') as Hd.
    rewrite decide_False in Hd by (intros [_ ->]; cbn in Hi; congruence). lia. }
  destruct (queues s !! queue n) as [ch|] eqn:Hq; [|done]. cbn [mbind option_bind].
  destruct (SendWithContext _ _ _ _ !! k) as [o|] eqn:Hk; [|done]. cbn [mbind option_bind].
  apply list_elem_of_lookup_2, SendWithContext_spec in Hk.
  destruct o as [ch'| | |]; try done; cbn [mbind option_bind]; intros [= <-].
  - destruct Hk as [[? _]|[_ [[_ ?]|(Hcl & Hf & [= ->])]%send_case_spec]]; [done|done|].
    split; [..|exact Hc| |apply Hl'; by intros ?? [= <- _]].
    + intros q ch1. cbn. destruct (decide (q = queue n)) as [->|Hne].
      * rewrite list_lookup_insert_eq by by eapply lookup_lt_Some. by intros [= <-].
      * rewrite list_lookup_insert_ne by done. apply Ho.
    + intros Hcan i n' c' Hi Hr Hc'. etrans; [|exact (Hs Hcan _ _ _ Hi Hr Hc')]. unfold seen.
      pose proof (in_queues_insert (i, c') s _ _ (enqueue ch (j, c)) Hq) as Hin. cbn [buffer enqueue] in Hin.
      rewrite count_app, count_cons in Hin. change (occ (i, c') []) with 0 in Hin.
      pose proof (sum_insert (due c' i) _ t _ (CLoop c (S j)) Ht) as Hsum. pose proof (due_step c j i c') as Hd.
      assert ((if decide ((j, c) = (i, c')) then 1 else 0) = if decide (c = c' ∧ j = i) then 1 else 0) as Heq
        by (repeat case_decide; try done; exfalso; naive_solver).
      rewrite Heq in Hin. change (in_queues (i, c') (set_caller t (CLoop c (S j)) (set_queue (queue n) (enqueue ch (j, c)) s)))
        with (in_queues (i, c') (set_queue (queue n) (enqueue ch (j, c)) s)). cbn [set_caller set_queue callers handled]. lia.
    + intros x q ch1. cbn. destruct (decide (q = queue n)) as [->|Hne].
      * rewrite list_lookup_insert_eq by by eapply lookup_lt_Some. intros [= <-]. cbn.
        intros [Hx|Hx]%elem_of_app; [by eapply Hst|]. by apply list_elem_of_singleton in Hx as ->.
      * rewrite list_lookup_insert_ne by done. apply Hst.
  - destruct Hk as [[_ Hd]|[_ [[_ ?]|(_ & _ & ?)]%send_case_spec]]; [|done|done].
    split; try done; [|apply Hl'; by intros ?? [= <- _]]. cbn. intros Hcan. destruct Hd; congruence.
Qed.

Lemma take_control_inv q s s' : cinv s → take_control q s = Some s' → cinv s'.
Proof.
  intros [Ho Hs Hc Hst Hl]. unfold take_control. destruct (queues s !! q) as [ch|] eqn:Hq; [|done]. cbn [mbind option_bind].
  destruct (recv_case ch) as [[[i c] ch']|] eqn:Hr; [|done]. cbn [mbind option_bind].
  apply recv_case_Some in Hr as (Hb & Hcap & Hcl).
  assert (c ≠ controlStop) as Hns by (apply (Hst (i, c) q ch Hq); rewrite Hb; left).
  assert (processControl i c (set_queue q ch' s) = add_handled (i, c) (set_queue q ch' s)) as -> by by destruct c.
  intros [= <-]. split; [..|exact Hc| |exact Hl].
  - intros q1 ch1. cbn. destruct (decide (q1 = q)) as [->|Hne].
    + rewrite list_lookup_insert_eq by by eapply lookup_lt_Some. intros [= <-]. rewrite Hcl. by eapply Ho.
    + rewrite list_lookup_insert_ne by done. apply Ho.
  - intros Hcan i' n c' Hi Hrn Hc'. etrans; [|exact (Hs Hcan _ _ _ Hi Hrn Hc')]. unfold seen.
    pose proof (in_queues_insert (i', c') s _ _ ch' Hq) as Hin. rewrite Hb, count_cons in Hin.
    change (in_queues (i', c') (add_handled (i, c) (set_queue q ch' s))) with (in_queues (i', c') (set_queue q ch' s)).
    cbn [handled add_handled callers set_queue]. rewrite count_cons. lia.
  - intros x q1 ch1. cbn. destruct (decide (q1 = q)) as [->|Hne].
    + rewrite list_lookup_insert_eq by by eapply lookup_lt_Some. intros [= <-] Hx. apply (Hst x q ch Hq). rewrite Hb. by right.
    + rewrite list_lookup_insert_ne by done. apply Hst.
Qed.

Lemma cstep_inv lb s s' : cinv s → cstep lb s = Some s' → cinv s'.
Proof.
  destruct lb; cbn [cstep]; [apply call_inv|apply call_inv|apply caller_next_inv|apply take_control_inv|].
  intros [Ho Hs Hc Hst Hl] [= <-]. by split.
Qed.

Lemma cinit_inv caps ns m : cinv (cinit caps ns m).
Proof.
  assert (∀ q ch, queues (cinit caps ns m) !! q = Some ch → closed ch = false ∧ buffer ch = []) as Hq.
  { intros q ch. cbn. rewrite list_lookup_fmap. intros (n & _ & ->)%fmap_Some. done. }
  split.
  - intros q ch Hch. by apply (Hq q ch).
  - intros _ i n c _ _ _. unfold seen, in_queues. cbn.
    assert (sum_list_with (due c i) (replicate m CIdle) = 0) as -> by (clear; induction m; [done|exact IHm]).
    assert (sum_list_with (λ ch, occ (i, c) (buffer ch)) (make_chan <$> caps) = 0) as ->; [|done].
    clear; induction caps as [|n' caps IH]; [done|exact IH].
  - left. done.
  - intros x q ch Hch Hx. destruct (Hq q ch Hch) as [_ Hb]. rewrite Hb in Hx. by apply not_elem_of_nil in Hx.
  - intros t c i Ht. cbn in Ht. apply lookup_replicate in Ht as [? _]. done.
Qed.

Lemma crun_inv caps ns m ls s : crun ls (cinit caps ns m) = Some s → cinv s.
Proof.
  pose proof (cinit_inv caps ns m) as Hi. revert Hi. generalize (cinit caps ns m) as s0.
  induction ls as [|lb ls IH]; intros s0 Hi; cbn; [by intros [= <-]|].
  destruct (cstep lb s0) as [s1|] eqn:E; [|done]. cbn. apply IH. by eapply cstep_inv.
Qed.

(** C31: Every call arrives.  In every interleaving of callers and loops, once the
    callers have returned and the queues are empty, and unless the context was
    cancelled, the plugin of every running node has seen each successful pause
    and each successful resume exactly once; in a running workflow as many
    resumes as pauses, in a paused one a pause more. *)
Theorem every_call_arrives caps ns m ls s i n :
  crun ls (cinit caps ns m) = Some s → cancelled s = false →
  Forall (λ th, th = CIdle) (callers s) → Forall (λ ch, buffer ch = []) (queues s) →
  nodes s !! i = Some n → running n = true →
  (∀ c, c ≠ controlStop → occ (i, c) (handled s) = occ c (called s)) ∧
  (state s = WorkflowStateRunning ∧ occ (i, controlPause) (handled s) = occ (i, controlResume) (handled s) ∨
   state s = WorkflowStatePaused ∧ occ (i, controlPause) (handled s) = S (occ (i, controlResume) (handled s))).
Proof.
  intros Hr Hcan Hidle Hempty Hn Hrn. pose proof (crun_inv _ _ _ _ _ Hr) as Hi.
  assert (∀ c, c ≠ controlStop → occ (i, c) (handled s) = occ c (called s)) as Hall.
  { intros c Hc. rewrite <- (ci_seen _ Hi Hcan i n c Hn Hrn Hc). unfold seen, in_queues.
    assert (sum_list_with (due c i) (callers s) = 0) as ->.
    { clear -Hidle. induction Hidle as [|th l -> _ IH]; [done|exact IH]. }
    assert (sum_list_with (λ ch, occ (i, c) (buffer ch)) (queues s) = 0) as ->; [|lia].
    clear -Hempty. induction Hempty as [|ch l Hb _ IH]; [done|]. cbn. by rewrite Hb, IH. }
  split; [done|]. rewrite !Hall by done. apply (ci_calls _ Hi).
Qed.

(** A loop node and two nodes of one worker, paused and resumed. *)
Definition demo_nodes : list cnode := [mkCNode true 0; mkCNode true 1; mkCNode true 1].
Definition demo_calls : list clabel :=
  [CPause 0; CNext 0 0; CNext 0 0; CNext 0 0; CNext 0 0; CTake 0; CTake 1; CTake 1;
   CResume 1; CNext 1 0; CNext 1 0; CTake 1; CNext 1 0; CNext 1 0; CTake 0; CTake 1].

Lemma every_call_arrives_witness :
  ∃ s, crun demo_calls (cinit [8; 100] demo_nodes 2) = Some s ∧
  (∀ c, c ≠ controlStop → occ (2, c) (handled s) = occ c (called s)) ∧
  (state s = WorkflowStateRunning ∧ occ (2, controlPause) (handled s) = occ (2, controlResume) (handled s) ∨
   state s = WorkflowStatePaused ∧ occ (2, controlPause) (handled s) = S (occ (2, controlResume) (handled s))).
Proof.
  eexists. split; [vm_compute; reflexivity|].
  apply (every_call_arrives [8; 100] demo_nodes 2 demo_calls _ 2 (mkCNode true 1)).
  - vm_compute. reflexivity.
  - reflexivity.
  - repeat constructor.
  - repeat constructor.
  - reflexivity.
  - reflexivity.
Defined.

(** ** Order *)

(** What node [i] was told, oldest first: what its plugin saw, then what waits
    in its queue. *)
Definition told (i : nat) (n : cnode) (s : cflow) : list controlType :=
  (filter (λ x, x.1 = i) (rev (handled s) ++ from_option buffer [] (queues s !! queue n))).*2.
(** What the only caller still has to tell it. *)
Definition still (i : nat) (s : cflow) : list controlType :=
  match callers s with [CLoop c j] => if decide (j ≤ i) then [c] else [] | _ => [] end.

Record corder (s : cflow) : Prop := {
  co_one : ∃ th, callers s = [th];
  co_home : ∀ q ch i c n, queues s !! q = Some ch → (i, c) ∈ buffer ch → nodes s !! i = Some n → queue n = q;
  co_told : cancelled s = false → ∀ i n, nodes s !! i = Some n → running n = true →
    told i n s ++ still i s = rev (called s) }.

Lemma call_order c t s s' : corder s → call c t s = Some s' → corder s'.
Proof.
  intros [[th Hone] Hhome Htold]. unfold call. rewrite Hone. destruct t as [|t]; [|done]. cbn [lookup list_lookup].
  destruct th; [|done]. destruct (swap_of c) as [[from to]|] eqn:Hsw; [|done].
  case_decide; intros [= <-]; [|split; [by eexists|done..]]. split; [cbn; rewrite Hone; by eexists|done|].
  intros Hcan i n Hn Hr. specialize (Htold Hcan i n Hn Hr). unfold still in *. rewrite Hone in Htold. rewrite app_nil_r in Htold.
  cbn [callers set_caller add_called set_state called]. rewrite Hone. cbn [insert list_insert list_alter alter].
  change (told i n _) with (told i n s). rewrite Htold. cbn. rewrite decide_True by lia. done.
Qed.

Lemma caller_next_order t k s s' : cinv s → corder s → caller_next t k s = Some s' → corder s'.
Proof.
  intros Hinv [[th Hone] Hhome Htold]. unfold caller_next. rewrite Hone. destruct t as [|t]; [|done]. cbn [lookup list_lookup].
  destruct th as [|c j]; [done|]. destruct (nodes s !! j) as [n|] eqn:Hn.
  2: { intros [= <-]. split; [cbn; rewrite Hone; by eexists|done|]. intros Hcan i n Hi Hr.
    specialize (Htold Hcan i n Hi Hr). change (told i n _) with (told i n s). etrans; [|exact Htold]. unfold still. cbn.
    rewrite Hone. cbn. apply lookup_ge_None in Hn. apply lookup_lt_Some in Hi. cbn in Hi. by rewrite decide_False by lia. }
  unfold node_control. destruct (running n) eqn:Hrn; cbn [negb].
  2: { cbn [mbind option_bind]. intros [= <-]. split; [cbn; rewrite Hone; by eexists|done|]. intros Hcan i n' Hi Hr.
    specialize (Htold Hcan i n' Hi Hr). change (told i n' _) with (told i n' s). etrans; [|exact Htold]. unfold still. cbn.
    rewrite Hone. cbn. assert (i ≠ j) by (intros ->; cbn in Hi; congruence). repeat case_decide; try done; lia. }
  destruct (queues s !! queue n) as [ch|] eqn:Hq; [|done]. cbn [mbind option_bind].
  destruct (SendWithContext _ _ _ _ !! k) as [o|] eqn:Hk; [|done]. cbn [mbind option_bind].
  apply list_elem_of_lookup_2, SendWithContext_spec in Hk.
  destruct o as [ch'| | |]; try done; cbn [mbind option_bind]; intros [= <-].
  2: { destruct Hk as [[_ Hd]|[_ [[_ ?]|(_ & _ & ?)]%send_case_spec]]; [|done|done].
    split; [cbn; rewrite Hone; by eexists|done|]. cbn. intros Hcan. destruct Hd; congruence. }
  destruct Hk as [[? _]|[_ [[_ ?]|(Hcl & Hf & [= ->])]%send_case_spec]]; [done|done|].
  pose proof (lookup_lt_Some _ _ _ Hq) as Hlt. split; [cbn; rewrite Hone; by eexists|..].
  - intros q ch1 i c' n'. cbn. destruct (decide (q = queue n)) as [->|Hne].
    + rewrite list_lookup_insert_eq by done. intros [= <-]. cbn. intros [Hin|Hin]%elem_of_app; [by eapply Hhome|].
      apply list_elem_of_singleton in Hin as [= -> _]. congruence.
    + rewrite list_lookup_insert_ne by done. apply Hhome.
  - intros Hcan i n' Hi Hr. specialize (Htold Hcan i n' Hi Hr). cbn in Hi. etrans; [|exact Htold]. unfold still.
    cbn [callers set_caller set_queue]. rewrite Hone. cbn [insert list_insert list_alter alter].
    unfold told. cbn [handled queues set_caller set_queue]. destruct (decide (queue n' = queue n)) as [Hqq|Hqq].
    + rewrite Hqq, list_lookup_insert_eq, Hq by done. cbn [from_option buffer enqueue].
      rewrite app_assoc, filter_app, fmap_app, <- app_assoc. f_equal. rewrite filter_cons. cbn.
      repeat case_decide; try done; lia.
    + rewrite list_lookup_insert_ne by done. f_equal. assert (i ≠ j) by (intros ->; congruence).
      repeat case_decide; try done; lia.
Qed.

Lemma take_control_order q s s' : cinv s → corder s → take_control q s = Some s' → corder s'.
Proof.
  intros Hinv [Hone Hhome Htold]. unfold take_control. destruct (queues s !! q) as [ch|] eqn:Hq; [|done]. cbn [mbind option_bind].
  destruct (recv_case ch) as [[[i c] ch']|] eqn:Hr; [|done]. cbn [mbind option_bind].
  apply recv_case_Some in Hr as (Hb & Hcap & Hcl). pose proof (lookup_lt_Some _ _ _ Hq) as Hlt.
  assert (c ≠ controlStop) as Hns by (apply (ci_stop _ Hinv (i, c) q ch Hq); rewrite Hb; left).
  assert (processControl i c (set_queue q ch' s) = add_handled (i, c) (set_queue q ch' s)) as -> by by destruct c.
  intros [= <-]. split; [exact Hone|..].
  - intros q1 ch1 i1 c1 n1. cbn. destruct (decide (q1 = q)) as [->|Hne].
    + rewrite list_lookup_insert_eq by done. intros [= <-] Hin. apply (Hhome q ch i1 c1 n1 Hq). rewrite Hb. by right.
    + rewrite list_lookup_insert_ne by done. apply Hhome.
  - intros Hcan i1 n1 Hi1 Hr1. specialize (Htold Hcan i1 n1 Hi1 Hr1). etrans; [|exact Htold].
    change (still i1 _) with (still i1 s). f_equal. unfold told. f_equal. cbn [handled queues add_handled set_queue rev].
    destruct (decide (queue n1 = q)) as [<-|Hne].
    + rewrite list_lookup_insert_eq, Hq by done. cbn [from_option]. rewrite Hb, <- app_assoc. done.
    + rewrite list_lookup_insert_ne by done. rewrite <- app_assoc, !filter_app. f_equal. rewrite filter_cons, decide_False; [done|].
      cbn. intros ->. apply Hne. eapply (Hhome q ch _ _ _ Hq); [rewrite Hb; left|exact Hi1].
Qed.

(** One caller keeps the order.  When a single goroutine pauses and resumes
    the workflow, however fast and however slow the loops are, what every
    running node was told is what was called, in the same order, up to what the
    caller is telling at the moment. *)
Theorem one_caller_in_order caps ns ls s i n :
  crun ls (cinit caps ns 1) = Some s → cancelled s = false →
  nodes s !! i = Some n → running n = true →
  told i n s ++ still i s = rev (called s).
Proof.
  intros Hr Hcan Hn Hrn. enough (corder s) as Hc by by apply (co_told _ Hc).
  clear Hn Hrn Hcan. pose proof (cinit_inv caps ns 1) as Hi.
  assert (corder (cinit caps ns 1)) as Hc.
  { assert (∀ q, from_option buffer [] ((make_chan <$> caps : list (chan (nat * controlType))) !! q) = []) as Hq.
    { intros q. rewrite list_lookup_fmap. by destruct (caps !! q). }
    split; [by eexists|..].
    - intros q ch j c n' Hch Hin. specialize (Hq q). cbn in Hch. rewrite Hch in Hq. cbn in Hq. rewrite Hq in Hin.
      by apply not_elem_of_nil in Hin.
    - intros _ j n' _ _. unfold told, still. cbn [handled queues cinit rev app]. by rewrite Hq. }
  revert Hi Hc Hr. generalize (cinit caps ns 1) as s0. induction ls as [|lb ls IH]; intros s0 Hi Hc; cbn; [by intros [= <-]|].
  destruct (cstep lb s0) as [s1|] eqn:E; [|done]. cbn. apply IH; [by eapply cstep_inv|].
  destruct lb; cbn [cstep] in E; [by eapply call_order|by eapply call_order|by eapply caller_next_order|by eapply take_control_order|].
  injection E as <-. destruct Hc as [H1 H2 H3]. split; [done|done|]. cbn. done.
Qed.

(** ** Deviation *)

(** The order is not kept between callers: the swap is done before the nodes
    are told.  A resume that overtakes the loop of a pause leaves a running
    workflow whose plugin saw the resume first and stays paused. *)
Definition overtaking : list clabel :=
  [CPause 0; CResume 1; CNext 1 0; CNext 1 0; CNext 0 0; CNext 0 0; CTake 0; CTake 0].

Theorem overtaken_pause_wins :
  ∃ s, crun overtaking (cinit [8] [mkCNode true 0] 2) = Some s ∧
    state s = WorkflowStateRunning ∧ callers s = [CIdle; CIdle] ∧
    handled s = [(0, controlPause); (0, controlResume)].
Proof. eexists. split; [vm_compute; reflexivity|]. done. Qed.
