(* ===== verification/PluginEnds.v ===== *)
(** * What plugins close

    The ends of plugins that own something outside the Go heap:
    [Resampler.Close] (pkg/audioproc), [OnStop] of the openai_tts plugin and of
    [MultiTrackPlugin] around it, [Shutdown] of google_asr, and the recorder of
    the benchmark plugins with its buffered file.  Functions of the C library
    are arguments; using a freed context is a crash. *)

From S2P Require Import Prelude.
From S2P Require Import PluginFlow.
From S2P Require Import Resampler.
From S2P Require AsrVendors.

Local Open Scope Z_scope.

(** ** A resampler that is closed *)
Section resampler.
Context {Swr : Type}.
Context (swr_get_delay : Swr → Z → Z) (av_rescale_rnd : Z → Z → Z → Z).
Context (swr_convert : Swr → Z → list Z → Z → Swr * Z * list Z).

(** [None]: the context was freed; [Close] frees it once. *)
Definition open_resampler := option (Resampler (Swr := Swr)).
Definition Close (r : open_resampler) : open_resampler * list unit (* calls of [swr_free] *) :=
  match r with Some _ => (None, [tt]) | None => (None, []) end.

(** A call in the library with a freed context ends the process: [None]. *)
Definition Resample_open (r : open_resampler) (d : list Z) :
    option (open_resampler * result resample_error (list Z)) :=
  match r with
  | None => None
  | Some r => '(r, res) ← Resample swr_get_delay av_rescale_rnd swr_convert r d; Some (Some r, res)
  end.

(** *** openai_tts while it is stopped

    The payload track of [MultiTrackPlugin] runs [OnPayload] in a goroutine of
    its own; [OnStop] of the wrapper calls [OnStop] of the plugin, which closes
    the resampler. *)
Record stopping := mkStopping { res : open_resampler; cancelled : bool; busy : bool }.
Inductive stop_label :=
| TrackTakes            (** the track takes a payload; not after the end of its context *)
| TrackResamples (d : list Z)
| TrackDone
| StopCancels           (** [Workflow.Stop] cancels the context *)
| StopCloses.           (** [OnStop] *)

Definition OnStop (s : stopping) : stopping := mkStopping (Close (res s)).1 (cancelled s) (busy s).

(** [Err] is the crash; [Ok None] a step that is not possible. *)
Definition stop_step (lb : stop_label) (s : stopping) : result unit (option stopping) :=
  match lb with
  | TrackTakes => Ok (if cancelled s || busy s then None else Some (mkStopping (res s) false true))
  | TrackResamples d =>
      if negb (busy s) then Ok None
      else match Resample_open (res s) d with
           | None => Err tt
           | Some (r, _) => Ok (Some (mkStopping r (cancelled s) true))
           end
  | TrackDone => Ok (if busy s then Some (mkStopping (res s) (cancelled s) false) else None)
  | StopCancels => Ok (Some (mkStopping (res s) true (busy s)))
  | StopCloses => Ok (if cancelled s then Some (OnStop s) else None)
  end.
Fixpoint stop_run (ls : list stop_label) (s : stopping) : result unit (option stopping) :=
  match ls with
  | [] => Ok (Some s)
  | lb :: ls => match stop_step lb s with
                | Err e => Err e
                | Ok None => Ok None
                | Ok (Some s) => stop_run ls s
                end
  end.

Lemma Close_once r : (Close (Close r).1).2 = [] ∧ (Close (Close r).1).1 = (Close r).1.
Proof. by destruct r. Qed.

(** The resampler may be freed while it is in use: the wrapper does not wait
    for its track. *)
Theorem stop_frees_resampler_in_use r d :
  stop_run [TrackTakes; StopCancels; StopCloses; TrackResamples d] (mkStopping (Some r) false false) = Err tt.
Proof. reflexivity. Qed.
End resampler.

(** ** google_asr: [Shutdown] *)
Definition google_Shutdown (w : AsrVendors.Google.world) : AsrVendors.Google.world * bool (* [client.Close] *) :=
  (AsrVendors.Google.Stop w, AsrVendors.Google.client (AsrVendors.Google.plugin w)).

(** ** The benchmark plugins *)

(** [bufio.Writer] over a file that accepts every write: the bytes that wait
    and what is in the file. *)
Record Writer := mkWriter { buffered : list Z; file : list Z }.
Definition recorderBufferSize : nat := Z.to_nat (32 * 1024).

Definition Flush (w : Writer) : Writer := mkWriter [] (file w ++ buffered w).

(** [Write]: while the data does not fit, a piece that fills the buffer is
    flushed, or, with an empty buffer, the data is written at once.  One flush
    at most is needed before the rest fits or the buffer is empty. *)
Definition Write (w : Writer) (p : list Z) : Writer :=
  let avail := (recorderBufferSize - length (buffered w))%nat in
  if decide (length p ≤ avail)%nat then mkWriter (buffered w ++ p) (file w)
  else if decide (buffered w = []) then mkWriter [] (file w ++ p)
  else
    let w := Flush (mkWriter (buffered w ++ take avail p) (file w)) in
    let rest := drop avail p in
    if decide (length rest ≤ recorderBufferSize)%nat then mkWriter rest (file w)
    else mkWriter [] (file w ++ rest).

(** A recorder whose device could not be opened has no writer. *)
Definition Recorder := option Writer.
Definition NewRecorderPlugin (opened : bool) : Recorder := if opened then Some (mkWriter [] []) else None.

Definition Recorder_OnAudio (e : Recorder) (a : audio_frame) : Recorder * list flow_event :=
  ((λ w, Write w (frame_bytes a)) <$> e, [SendAudio a]).
Definition RecorderPlugin : plugin_ops Recorder :=
  mkPlugin (PluginFlow.OnSignal (BuiltinPlugin Recorder)) (PluginFlow.OnPayload (BuiltinPlugin Recorder)) Recorder_OnAudio.
(** What is in the file when it is closed. *)
Definition Recorder_OnStop (e : Recorder) : option (list Z) := (λ w, file (Flush w)) <$> e.

(** [ForwarderPlugin] has the handlers of [BuiltinPlugin] only. *)
Definition ForwarderPlugin : plugin_ops unit := BuiltinPlugin unit.

(** The bytes of the audio among the inputs. *)
Definition audio_bytes (ins : list input) : list Z :=
  concat (omap (λ i, match i with InAudio a => Some (frame_bytes a) | _ => None end) ins).

Lemma Write_appends w p : file (Write w p) ++ buffered (Write w p) = file w ++ buffered w ++ p.
Proof.
  unfold Write. repeat case_decide; cbn [file buffered Flush]; rewrite ?app_nil_r, <- ?app_assoc, ?take_drop; try done.
  match goal with H : buffered w = [] |- _ => by rewrite H end.
Qed.

Lemma Write_bounded w p : (length (buffered w) ≤ recorderBufferSize → length (buffered (Write w p)) ≤ recorderBufferSize)%nat.
Proof. unfold Write. intros Hw. repeat case_decide; cbn [file buffered Flush]; rewrite ?length_app; cbn [length]; lia. Qed.

Definition buffer_ok (e : Recorder) : Prop :=
  match e with Some w => (length (buffered w) ≤ recorderBufferSize)%nat | None => True end.

Lemma recorder_runs ins e :
  let '(e', out) := handle_all RecorderPlugin e ins in
  out = (handle_all ForwarderPlugin tt ins).2 ∧
  Recorder_OnStop e' = (λ w, file w ++ buffered w ++ audio_bytes ins) <$> e ∧
  (buffer_ok e → buffer_ok e').
Proof.
  revert e. induction ins as [|i ins IH]; intros e.
  - cbn. split_and!; [done| |done]. destruct e as [w|]; [|done]. cbn. by rewrite app_nil_r.
  - cbn [handle_all]. destruct (handle RecorderPlugin e i) as [e1 out1] eqn:H1. specialize (IH e1).
    destruct (handle_all RecorderPlugin e1 ins) as [e2 out2]. destruct IH as (-> & Hs & Hb).
    assert (handle ForwarderPlugin tt i = (tt, out1)) as -> by (destruct i; injection H1 as _ <-; reflexivity).
    destruct (handle_all ForwarderPlugin tt ins) as [[] out3]. split; [done|]. rewrite Hs.
    destruct i as [x|x|x]; injection H1 as <- _; [done|done|]. destruct e as [w|]; [|done]. cbn. split.
    + f_equal. unfold audio_bytes. cbn. rewrite app_assoc, Write_appends. by rewrite <- !app_assoc.
    + intros Hw. apply Hb. by apply Write_bounded.
Qed.

(** The recorder forwards and records everything: on every input it sends what
    the forwarder sends, the file holds the bytes of all audio in order when it
    is closed, its buffer never outgrows its size, and without a device it
    forwards just the same. *)
Theorem recorder_records_everything opened ins :
  let '(e, out) := handle_all RecorderPlugin (NewRecorderPlugin opened) ins in
  out = (handle_all ForwarderPlugin tt ins).2 ∧
  Recorder_OnStop e = (if opened then Some (audio_bytes ins) else None) ∧ buffer_ok e.
Proof.
  pose proof (recorder_runs ins (NewRecorderPlugin opened)) as H.
  destruct (handle_all RecorderPlugin _ ins) as [e out]. destruct H as (H1 & H2 & H3).
  split_and!; [done| |apply H3; destruct opened; cbn; [apply Nat.le_0_l|done]]. rewrite H2. by destruct opened.
Qed.
