(* ===== verification/WebParts.v ===== *)
(** * The remaining HTTP handlers

    [WebHandler] (biz/handler/web.go) serves the embedded pages,
    [PoolConnection] (biz/handler/machine.go) upgrades a connection of the
    gateway, and [Logger] (internal/middleware) logs every request of a worker.
    The file system, the file server and the upgrade are arguments. *)

From S2P Require Import Prelude.
From S2P Require Import GoStrings.
From S2P Require Import Handlers.

Local Open Scope Z_scope.

(** ** Pages *)
Definition slash : string := "/".
Definition TrimPrefix (s p : string) : string :=
  if String.prefix p s then String.substring (String.length p) (String.length s - String.length p) s else s.

Inductive web_answer := AssetsMissing | Served (path : string).

(** [assets]: the embedded tree, [None] when it cannot be opened; a tree says
    which names exist. *)
Definition WebHandler (assets : option (string → bool)) (path : string) : web_answer :=
  match assets with
  | None => AssetsMissing
  | Some exists_ =>
      if decide (path = slash) then Served path
      else if exists_ (TrimPrefix path slash) then Served path else Served slash
  end.

(** Every page of the application is reachable: a name that exists is served
    under its own path and any other path gets the start page, so that the
    application can route it. *)
Lemma WebHandler_serves exists_ path :
  ∃ p, WebHandler (Some exists_) path = Served p ∧ (p = slash ∨ exists_ (TrimPrefix p slash) = true) ∧
    (exists_ (TrimPrefix path slash) = true → p = path).
Proof.
  unfold WebHandler. case_decide as Hp; [exists path; naive_solver|].
  destruct (exists_ (TrimPrefix path slash)) eqn:E; eexists; naive_solver.
Qed.

(** ** Connections of the gateway *)
Definition PoolConnection (new : nat) (upgrade : bool) (reading : list nat) : list nat * option ServerError :=
  if upgrade then (new :: reading, None)
  else (reading, Some (New 500 500 "upgrade websocket failed")).

(** ** The request log *)
Record log_entry := mkEntry {
  e_method : string; e_path : string; e_remote : string; e_status : Z; e_bytes : Z; e_latency : Z }.

(** [Logger]: the entry is written when the next handler returns or panics;
    the panic goes on.  What the wrapped writer reports, its status and the
    bytes written, is an argument. *)
Section logger.
Context {W : Type} (Status BytesWritten : W → Z) (wrap : W) (next : W → W * bool (* panics *)).
Definition Logger (method path remote : string) (start now : Z) : list log_entry * bool :=
  let '(ww, panics) := next wrap in
  ([mkEntry method path remote (Status ww) (BytesWritten ww) (now - start)], panics).
End logger.
